(* ===== verification/_CoqProject ===== *)
-Q . S2P
Prelude.v
GoStrings.v
GoUrl.v
GoTime.v
Utf8.v
TimeFormat.v
Base64.v
GoNet.v
GoJson.v
Quartz.v
Calculator.v
Tables.v
Proto.v
Programs.v
Traces.v
CompletionStore.v
ExecutorServer.v
ExecutorWorld.v
ExecutorLedger.v
ExecutorScenario.v
Executors.v
RunStore.v
Scheduling.v
Routing.v
JobStore.v
Clusters.v
Cryptox.v
Samples.v
SecretScenario.v
Scheduler.v
ExecutorStore.v
Notifications.v
ExecutorCommands.v
RunLogs.v
RouteProofs.v
History.v
Partitions.v
Engine.v
Pool.v
EngineLoops.v
Config.v
Handlers.v
Docker.v
Kubernetes.v
JobService.v
JobServiceScenario.v
Services.v
Operations.v
Notifier.v
LoginLimiter.v
Auth.v
Sessions.v
Identity.v
Bootstrap.v
Isolation.v
ControlPlane.v
Api.v
Registrars.v
Rpc.v
ExecutorMain.v
Discovery.v
ApiProofs.v
ApiWorld.v
ApiSecrets.v
ApiScenario.v
RunInvariants.v
Capacity.v
Dependencies.v
System.v
Components.v
Workers.v
EventLog.v
Outbox.v
Deliveries.v
NotifierProofs.v
NotifierWorld.v
Scenario.v
NotifyScenario.v
NotifierScenario.v
EngineScenario.v
