(* ===== verification/Prelude.v ===== *)
(** * go-scheduler: a verification library

    A distributed job scheduler in Go.  A control plane (the Cores) keeps jobs
    and runs in PostgreSQL: it turns due jobs into runs, claims runs under
    leases, sends them to executors and records the outcome.  Executors are
    separate processes that run handlers and report completions.  Services
    validate what users ask for, behind gRPC procedures and an HTTP API that
    authenticates and authorises; notification workers announce what happened.

    ** Parts, and where they are modelled

    - The language and its library: this file (errors, the error monad, 64-bit
      integers, times, SQL-like list operations, sorting), [GoStrings], [GoUrl],
      [GoTime], [Utf8], [TimeFormat], [Base64], [GoNet], [GoPath], [GoJson].
    - [internal/schedule]: [Quartz], [Calculator]; [Scheduling] puts it behind
      the interface [ScheduleCalc] with its laws [ScheduleLaws], which is all
      the store knows of it.
    - The tables of [migrations], the transaction monad [tx] and its proof
      rules: [Tables].  Programs of several transactions: [Programs]; what they
      ask of the world, and in which order: [Traces].
    - [internal/store]: [RunStore] (run_state.go, runs.go, trigger.go,
      broadcast.go), [Scheduler] (scheduler.go), [History], [Partitions]
      (partitions.go, with the catalogue as state), [JobStore] (jobs.go,
      script_versions.go, job_dependencies.go), [Executors] and [ExecutorStore]
      (executor.go, executor_labels.go), [ExecutorCommands], [RunLogs],
      [Notifications] (outbox.go), [Clusters], [Sessions] and [Identity] (iam.go,
      apikey.go, the accounts of console.go), [Operations] (listings, the
      dashboard and reports).
    - [internal/cryptox]: [Cryptox].
    - [internal/core]: [Routing] (routing.go), [Engine] (engine*.go,
      active_routing.go), [EngineLoops] (the goroutines of the engine: its loop and
      slots, the watcher of a worker, maintenance), [Pool] (executor_grpc.go), [JobService], [Services] and [Operations] (the service
      files and the validation of notifications.go), [ControlPlane] (the
      procedures: controlplane.go, service_*.go, history.go, reports.go,
      run_logs.go, notifications.go).
    - [internal/notifier]: [Notifier].  [internal/auth]: [Auth].
    - [internal/api]: [LoginLimiter] (login_limiter.go), [Api] (the rest: the
      table of routes, authentication and every handler).
    - [pkg/executor]: [CompletionStore] (the state directory), [ExecutorServer]
      (grpc.go, executor.go), [Handlers] (the loggers, script_unix.go, http.go),
      [Docker] (docker_unix.go), [Kubernetes] (kubernetes.go), [Registrars]
      (heartbeat.go, grpc_registrar.go, grpc_reporter.go).  [Proto] has the messages
      of both sides.
    - [internal/discovery]: [Discovery].  [internal/rpc]: [Rpc].  [internal/config]:
      [Config].  [cmd/bootstrap]: [Bootstrap].  [cmd/script-executor]:
      [ExecutorMain].

    A Go struct is a Record, an operation of the store a transaction
    [env → db → result (A * db)], a handler or goroutine a program.  Names are
    those of the source; a part of a function that is a definition of its own
    has a name in lower case.

    Bracketed names of parts are those of Modules, mostly one to a file of the same name.  Some
    share the file of the component they are about: [HandlerProofs] is in Handlers.v,
    [DockerProofs] and [DockerArguments] in Docker.v, [LoopProofs] in EngineLoops.v,
    [PoolProofs], [PartitionProofs], [KubernetesProofs], [ConfigProofs],
    [RegistrarProofs], [DiscoveryProofs], [OperationsProofs], [IdentityProofs],
    [JobServiceProofs] and [ServicesScenario] with the module they extend,
    [CompletionProofs] in CompletionStore.v, [RouteScenario] in RouteProofs.v, [Watcher] in
    EngineScenario.v, and [GoPath] in GoNet.v.

    ** What is shown

    - Runs ([RunInvariants], [System], [Scenario]): the system steps by any
      transaction of the stores, in any order.  Runs keep their identity and
      follow their life cycle, finished ones never change, one completes at most
      once, through its worker or through a callback, a worker that lost its lease is refused, unfinished runs disappear
      only with their job, the dependency graph has no cycle ([Dependencies]).
      [Components] shows that the other stores are steps of that system.
    - Claims ([Capacity]): leases, and the limits of tenants, clusters and jobs.
    - Events ([EventLog], [Outbox], [Deliveries], [NotifyScenario]): every change
      of status is announced in its transaction; subscribers get one delivery
      each; deliveries are leased, final, and not lost.
    - Notification workers ([NotifierProofs], [NotifierWorld],
      [NotifierScenario]): what is sent is bounded and carries the identity of
      the event; interleaved workers with lost answers and crashes refine the
      queue, and each waits for the goroutines of a batch before the next;
      delivered means that the provider accepted it.
    - Requests ([ApiProofs], [Isolation], [ApiWorld], [ApiSecrets],
      [ApiScenario]): every procedure a request leads to is one its sender may
      call; tenants are kept apart; logging in gives access; responses hold no
      secrets.
    - Accounts ([Identity], [IdentityProofs], [Auth]): keys live until they
      are revoked, tokens until they expire, passwords verify.
    - Reports and pages ([OperationsProofs]): every run is counted once, cursors
      are read back.
    - Engines ([Workers], [EngineScenario]): any number of them, with lost
      answers and crashes, refines the system, and sends no run twice.
    - Goroutines of an engine ([LoopProofs], [Watcher], [PoolProofs],
      [PartitionProofs]): workers that become free wake the dispatcher, maintenance
      without [pg_partman] keeps unfinished and recent runs, connections in use stay
      open.
    - Handlers ([HandlerProofs], [DockerProofs], [DockerArguments],
      [KubernetesProofs]): whatever the system answers, scripts are contained, and
      containers and jobs are touched only after they were seen to be those of the
      execution.
    - Registrations ([RegistrarProofs], [DiscoveryProofs]): a node outlives a lost
      heartbeat; a failed registration is withdrawn, whatever others do meanwhile;
      listings are exactly the static nodes and the live registrations, unless the
      database or etcd fails.
    - Processes ([ConfigProofs], [Rpc], [Bootstrap], [ExecutorMain]): accepted
      settings are within their bounds, calls are authenticated, the first
      administrator has access, an executor starts and stops its parts in order.
    - Routing ([Routing], [RouteProofs], [RouteScenario]): a run goes to a node
      its job admits, in turn for round robin.
    - Executors ([ExecutorWorld], [ExecutorLedger], [CompletionProofs],
      [ExecutorScenario]): with interleaved goroutines, disk faults and restarts,
      accepted work is kept until it is settled; dispatches over gRPC respect the
      limits; a drained process stays idle; completions are read back as they were written.
    - Services ([JobServiceProofs], [JobServiceScenario], [ServicesScenario]):
      what is accepted satisfies the constraints of the tables and is stored.
    - Sessions and logins ([Sessions], [LoginLimiter]): a replayed refresh token
      closes its family; the number of guesses is bounded.
    - Schedules ([Calculator]): which occurrences are due, and that the loop ends.
    - Secrets, logs ([Cryptox], [SecretScenario], [RunLogs]): round trips, and a
      reader that misses nothing.

    [Samples] and the files named [..Scenario] evaluate the model on concrete
    data and show that the hypotheses of the theorems can hold.  Some theorems
    prove a defect: [moved_job_starves_node], [split_message_blocks_delivery],
    [unsaved_completion_is_resurrected], [credentials_outlive_docker],
    [last_owner_is_protected_from_removal_only], [west_of_UTC_maintenance_fails],
    [watcher_cancels_dispatch], [definitions_inject_options], [long_pod_log_fails_run],
    [context_path_is_lost], [rollback_removes_later_registration],
    [keys_separate_plain_nodes] (its second half), [grpcs_is_refused].

    ** Bounds

    Loops that are not structural have fuel: [due_fuel] is logarithmic because
    [loop] doubles at every level ([due_terminates] shows it is enough); the
    Quartz search looks at as many months as the code; [descend] runs once per
    edge, and every round before the last adds a job; [ReplaceAll] and the UTF-8
    functions have the length of their text.  [OutOfFuel] is an error of the
    model only.  Loops that end with their context ([KubernetesHandler], the
    registrars, the resolver, the watcher, maintenance) take a number of rounds, and
    their theorems hold for every number.

    ** Assumptions and abstractions

    - Transactions run one after another; the rows others hold locked are an
      argument, for [SKIP LOCKED].  The database runs at READ COMMITTED, where
      two transactions that overlap and read what the other writes can do more.
      The theorems do not exclude that: two claims can exceed the limit of a
      tenant together ([claim_respects_tenant_and_cluster]), two calls of
      [SetJobDependencies] can close a cycle ([dependencies_acyclic]), two
      transactions that finish the last deliveries of an event at the same time
      leave it unpublished ([event_published_when_delivered]), a rotation that is
      not committed when the family is revoked survives it
      ([replayed_token_closes_family]).  What is shown of the re-arming of
      fixed-delay jobs is likewise for transactions in sequence.
    - Counters such as the attempt of a run are unbounded integers where the code
      has [int32]; the services accept at most twenty retries.
    - Times are nanoseconds since Go's zero time.  Text is compared by bytes, and
      letters and white space are ASCII.
    - Messages of errors are kept up to the values formatted with [%q] or [%v].
    - Code outside the repository is a class: [CronLib], [TZData], [Digest],
      [Sha256], [Aead], [JobCodec], [CredentialCodec], [SliceSort], [RouteHash],
      [UuidParser], [IPLiterals], [RecordFormat], [ChannelFormats],
      [ProviderFormats], [PgZones], [PgLower], [CursorJson], [Argon2], [JwtLib],
      [Timestamps], [ApiFormats], [Router], [Quoting], [DockerFormats],
      [KubernetesFormats], [Durations], [DiscoveryFormats]; [Host] draws identifiers
      and reads the clock.
    - [run_api] serves a request without others in between, with one clock
      reading and one set of fresh values; [requests_are_authorised] assumes
      nothing of the kind.  The two queries of [JobDependencies] see one state.
      Signing a token and reading random bytes do not fail.
    - An executor loses its process, not its disk; delivery passes may overlap
      more than in the code.

    ** Not modelled

    Metrics and logging ([internal/observability]), which have no effect on the rest;
    the wiring of the processes ([internal/app], [cmd/scheduler]), which passes
    constructors to a dependency injector outside the repository; the command line
    client ([cmd/schedulerctl]), a table of commands over the HTTP API; the runner of
    migrations, a third-party package; the benchmark ([internal/perfbench],
    [cmd/scheduler-bench]), which is not part of the service.  gRPC, TLS, etcd,
    Docker and the client of Kubernetes are answers to effects.  The stores treat the
    table of runs as one table; its partitions are the state of [Partitions].  In
    [ExecutorServer] a handler may return anything, so its theorems hold for those of
    [Handlers], [Docker] and [Kubernetes]. *)

From stdpp Require Import base list strings pretty sorting.
From Stdlib Require Import ZArith Lia.

Global Open Scope Z_scope.
Global Open Scope list_scope.

(** ** Errors and the error monad

    The sentinel errors of [internal/store/store.go], and [ErrMsg] for the
    errors built in place with [fmt.Errorf] / [errors.New].  The message text
    of the latter is kept up to the verbs that interpolate run-time values. *)
Inductive error : Type :=
| ErrNotFound
| ErrConflict
| ErrQueueFull
| ErrNotCancellable
| ErrDependencyCycle
| ErrRegistrationMode
| ErrExecutorGroupInUse
| ErrKubernetesClusterInUse
| ErrOverrideRequiresExecutorGroup
| ErrOverrideAddressNotRegistered (missing : list string)
| ErrNotificationLeaseLost
| ErrNotificationConfigUnreadable
| ErrInvalidNotificationScope
| DeadlineExceeded
| ErrValidation (message : string)
| ErrMsg (message : string)
| OutOfFuel. (** not an error of the program: a loop of the model was cut short *)

#[export] Instance error_eq_dec : EqDecision error.
Proof. solve_decision. Defined.

(** [err.Error()] *)
Definition error_text (err : error) : string :=
  match err with
  | ErrNotFound => "not found"
  | ErrConflict => "version conflict"
  | ErrQueueFull => "job queue is full"
  | ErrNotCancellable => "run is not cancellable"
  | ErrDependencyCycle => "job dependency would create a cycle"
  | ErrRegistrationMode => "executor group does not accept dynamic registration"
  | ErrExecutorGroupInUse => "executor group is referenced by a job"
  | ErrKubernetesClusterInUse => "kubernetes cluster is referenced by a job"
  | ErrOverrideRequiresExecutorGroup => "executor address override requires an executor group job"
  | ErrOverrideAddressNotRegistered _ =>
      "override addresses must belong to the job executor group"
  | ErrNotificationLeaseLost => "notification delivery lease lost"
  | ErrNotificationConfigUnreadable => "notification channel configuration is unreadable"
  | ErrInvalidNotificationScope =>
      "notification channel must target all jobs or one or more specific jobs"
  | DeadlineExceeded => "context deadline exceeded"
  | ErrMsg m | ErrValidation m => m
  | OutOfFuel => ""
  end.

Inductive result (A : Type) : Type :=
| Ok (a : A)
| Err (e : error).
Arguments Ok {A} a.
Arguments Err {A} e.

#[export] Instance result_eq_dec `{EqDecision A} : EqDecision (result A).
Proof. solve_decision. Defined.

#[export] Instance result_ret : MRet result := λ A a, Ok a.
#[export] Instance result_bind : MBind result := λ A B f m,
  match m with Ok a => f a | Err e => Err e end.

Definition is_ok {A} (r : result A) : bool :=
  match r with Ok _ => true | Err _ => false end.

Lemma result_bind_Ok {A B} (m : result A) (f : A → result B) b :
  mbind f m = Ok b ↔ ∃ a, m = Ok a ∧ f a = Ok b.
Proof.
  destruct m as [a|e]; cbn; split.
  - eauto.
  - by intros (? & [= ->] & ?).
  - done.
  - by intros (? & ? & _).
Qed.

(** ** Fixed-width integers *)

Definition int64_min : Z := -9223372036854775808.
Definition int64_max : Z := 9223372036854775807.

(** Two's-complement wrap-around of a mathematical integer to [w] bits. *)
Definition wrap_signed (w z : Z) : Z :=
  (z + 2 ^ (w - 1)) mod 2 ^ w - 2 ^ (w - 1).
Definition wrap64 : Z → Z := wrap_signed 64.
Definition wrap_unsigned (w z : Z) : Z := z mod 2 ^ w.

Lemma wrap64_id z : int64_min ≤ z ≤ int64_max → wrap64 z = z.
Proof.
  unfold wrap64, wrap_signed, int64_min, int64_max.
  change (2 ^ (64 - 1)) with 9223372036854775808.
  change (2 ^ 64) with 18446744073709551616.
  intros ?. rewrite Z.mod_small; lia.
Qed.

Lemma wrap64_range z : int64_min ≤ wrap64 z ≤ int64_max.
Proof.
  unfold wrap64, wrap_signed, int64_min, int64_max.
  change (2 ^ (64 - 1)) with 9223372036854775808.
  change (2 ^ 64) with 18446744073709551616.
  pose proof (Z.mod_pos_bound (z + 9223372036854775808) 18446744073709551616).
  lia.
Qed.

(** ** time.Duration and time.Time

    A [time.Duration] is a signed 64-bit count of nanoseconds.  A [time.Time]
    is the number of nanoseconds since the zero value of the Go type
    (0001-01-01T00:00:00 UTC), so [IsZero] is a comparison with [0]; the
    [Location] of a value is passed separately where the code depends on it. *)
Definition duration := Z.
Definition time := Z.

Definition nanosecond : duration := 1.
Definition millisecond : duration := 1000000.
Definition second : duration := 1000000000.
Definition minute : duration := 60 * second.
Definition hour : duration := 60 * minute.

Definition dur_mul (a b : duration) : duration := wrap64 (a * b).

Definition IsZero (t : time) : bool := t =? 0.
Definition After (t u : time) : bool := u <? t.
Definition Before (t u : time) : bool := t <? u.
Definition Equal (t u : time) : bool := t =? u.
Definition Add (t : time) (d : duration) : time := t + d.
(** [Time.Sub] saturates at the ends of the [Duration] range. *)
Definition Sub (t u : time) : duration :=
  Z.max int64_min (Z.min int64_max (t - u)).

(** ** Tactics *)

(** Split every [if] and [match] on a variable-free scrutinee in the goal. *)
Ltac split_match :=
  repeat match goal with
  | |- context [if ?b then _ else _] => destruct b eqn:?
  | |- context [match ?x with _ => _ end] => destruct x eqn:?
  end.

(** Turn boolean comparisons of the context and goal into propositions. *)
Ltac bool_to_prop :=
  repeat match goal with
  | H : (_ && _) = true |- _ => apply andb_true_iff in H; destruct H
  | H : (_ || _) = false |- _ => apply orb_false_iff in H; destruct H
  | H : (_ || _) = true |- _ => apply orb_true_iff in H
  | H : (_ && _) = false |- _ => apply andb_false_iff in H
  | H : negb _ = true |- _ => apply negb_true_iff in H
  | H : negb _ = false |- _ => apply negb_false_iff in H
  | H : (_ =? _) = true |- _ => apply Z.eqb_eq in H
  | H : (_ =? _) = false |- _ => apply Z.eqb_neq in H
  | H : (_ <? _) = true |- _ => apply Z.ltb_lt in H
  | H : (_ <? _) = false |- _ => apply Z.ltb_ge in H
  | H : (_ <=? _) = true |- _ => apply Z.leb_le in H
  | H : (_ <=? _) = false |- _ => apply Z.leb_gt in H
  | H : String.eqb _ _ = true |- _ => apply String.eqb_eq in H
  | H : String.eqb _ _ = false |- _ => apply String.eqb_neq in H
  | H : bool_decide _ = true |- _ => apply bool_decide_eq_true in H
  | H : bool_decide _ = false |- _ => apply bool_decide_eq_false in H
  end.

(** String equality tests of the source, [a == b]. *)
Notation "s ==s t" := (String.eqb s t) (at level 70, no associativity) : bool_scope.
Notation "s !=s t" := (negb (String.eqb s t)) (at level 70, no associativity) : bool_scope.

(** ** Loops

    A [for] loop as iterations of a body that yields the next state ([inl]) or
    the result ([inr]).  [loop n] runs up to [2 ^ n] iterations, so a bound on
    their number can be written in binary and the loop still evaluates. *)
Section loop.
Context {S R : Type} (body : S → S + R).

Fixpoint loop (n : nat) (s : S) : S + R :=
  match n with
  | O => body s
  | Datatypes.S m => match loop m s with inl s' => loop m s' | inr r => inr r end
  end.

(** An invariant of the body holds after any number of iterations, and what
    the body returns from the invariant is what the loop returns. *)
Lemma loop_inv (I : S → Prop) (Q : R → Prop) n s :
  (∀ s, I s → match body s with inl s' => I s' | inr r => Q r end) →
  I s → match loop n s with inl s' => I s' | inr r => Q r end.
Proof.
  intros Hb. revert s. induction n as [|n IH]; intros s Hs; cbn; [by apply Hb|].
  specialize (IH s Hs) as H1. destruct (loop n s) as [s'|r]; [by apply IH|done].
Qed.

(** A measure that is not negative where the body goes on, and that it
    lowers, bounds the number of iterations. *)
Lemma loop_terminates (I : S → Prop) (m : S → Z) n s :
  (∀ s s', I s → body s = inl s' → I s' ∧ m s' < m s ∧ 0 ≤ m s) →
  I s → m s < 2 ^ Z.of_nat n - 1 → ∃ r, loop n s = inr r.
Proof.
  intros Hdec.
  assert (Hgen : ∀ n s s', I s → loop n s = inl s' →
            I s' ∧ m s' ≤ m s - 2 ^ Z.of_nat n ∧ 2 ^ Z.of_nat n - 1 ≤ m s).
  { clear n s. induction n as [|n IH]; intros s s' Hs; cbn [loop].
    - intros E. destruct (Hdec _ _ Hs E) as (? & ? & ?).
      change (2 ^ Z.of_nat 0) with 1. split_and!; [done|lia|lia].
    - destruct (loop n s) as [s1|] eqn:E1; [|done]. intros E2.
      destruct (IH _ _ Hs E1) as (H1 & ? & ?). destruct (IH _ _ H1 E2) as (? & ? & ?).
      rewrite Nat2Z.inj_succ, Z.pow_succ_r by lia. split_and!; [done|lia|lia]. }
  intros Hs Hm. destruct (loop n s) as [s'|r] eqn:E; [|by eexists].
  destruct (Hgen _ _ _ Hs E) as (_ & _ & ?). lia.
Qed.
End loop.

(** ** Sorting

    [sort.Slice] and the [ORDER BY] clauses of the queries: insertion sort by
    a boolean "less or equal".  It is stable, so rows the comparison does not
    separate keep their relative order; the theorems use only that the result
    is a permutation and is sorted. *)
Section sort_by.
Context {A : Type} (le : A → A → bool).

Fixpoint insert_by (x : A) (l : list A) : list A :=
  match l with
  | [] => [x]
  | y :: l' => if le x y then x :: y :: l' else y :: insert_by x l'
  end.

Fixpoint sort_by (l : list A) : list A :=
  match l with
  | [] => []
  | x :: l' => insert_by x (sort_by l')
  end.

Lemma insert_by_Permutation x l : insert_by x l ≡ₚ x :: l.
Proof.
  induction l as [|y l IH]; cbn; [done|].
  destruct (le x y); [done|]. rewrite IH. constructor.
Qed.

Lemma sort_by_Permutation l : sort_by l ≡ₚ l.
Proof.
  induction l as [|x l IH]; cbn; [done|].
  by rewrite insert_by_Permutation, IH.
Qed.

Lemma elem_of_sort_by x l : x ∈ sort_by l ↔ x ∈ l.
Proof. by rewrite sort_by_Permutation. Qed.

Lemma length_sort_by l : length (sort_by l) = length l.
Proof. by rewrite sort_by_Permutation. Qed.

Lemma sort_by_nil_inv l : sort_by l = [] → l = [].
Proof.
  intros E. apply nil_length_inv. by rewrite <- length_sort_by, E.
Qed.

Hypothesis le_total : ∀ x y, le x y = true ∨ le y x = true.
Hypothesis le_trans : ∀ x y z, le x y = true → le y z = true → le x z = true.

Let R (x y : A) : Prop := le x y = true.

Lemma insert_by_sorted x l :
  StronglySorted R l → StronglySorted R (insert_by x l).
Proof.
  induction 1 as [|y l Hl IH Hy]; cbn; [repeat constructor|].
  destruct (le x y) eqn:E.
  - constructor; [by constructor|]. constructor; [done|].
    eapply Forall_impl; [exact Hy|]. intros z Hz. by eapply le_trans.
  - constructor; [done|]. rewrite insert_by_Permutation. constructor; [|done].
    destruct (le_total x y); [congruence|done].
Qed.

Lemma sort_by_sorted l : StronglySorted R (sort_by l).
Proof.
  induction l as [|x l IH]; cbn; [constructor|]. by apply insert_by_sorted.
Qed.

(** The head of a sorted list is below every element. *)
Lemma sort_by_head x l y :
  head (sort_by l) = Some x → y ∈ l → x = y ∨ le x y = true.
Proof.
  intros Hx Hy. apply elem_of_sort_by in Hy.
  pose proof (sort_by_sorted l) as Hs.
  destruct (sort_by l) as [|z l']; [done|]. cbn in Hx. injection Hx as ->.
  apply StronglySorted_inv in Hs as [_ Hs]. rewrite Forall_forall in Hs.
  apply elem_of_cons in Hy as [->|Hy]; [by left|right]. by apply Hs.
Qed.

(** A sorted list is left as it is. *)
Lemma sort_by_id l : StronglySorted R l → sort_by l = l.
Proof.
  induction 1 as [|x l Hl IH Hx]; cbn; [done|]. rewrite IH.
  destruct l as [|y l]; cbn; [done|]. by apply Forall_cons in Hx as [-> _].
Qed.
End sort_by.

Lemma str_leb_total s t : String.leb s t = true ∨ String.leb t s = true.
Proof. apply String.leb_total. Qed.

Lemma str_leb_trans s t u :
  String.leb s t = true → String.leb t u = true → String.leb s u = true.
Proof.
  rewrite <- !Is_true_true. apply (transitivity (R := String.le)).
Qed.

Lemma str_leb_antisym s t :
  String.leb s t = true → String.leb t s = true → s = t.
Proof. apply String.leb_antisym. Qed.

Lemma str_leb_refl s : String.leb s s = true.
Proof. by destruct (str_leb_total s s). Qed.

Lemma str_ltb_leb s t : String.ltb s t = negb (String.leb t s).
Proof.
  unfold String.ltb, String.leb. rewrite String.compare_antisym.
  by destruct (String.compare t s).
Qed.

(** ** Tables as lists of rows

    A table is the list of its rows in insertion order.  [WHERE p] keeps the
    rows [p] accepts, [UPDATE .. SET f WHERE p] rewrites them in place,
    [count] and [EXISTS] are the aggregate forms. *)
Definition sql_select {A} (p : A → bool) (l : list A) : list A := List.filter p l.
Definition sql_update {A} (p : A → bool) (f : A → A) (l : list A) : list A :=
  List.map (λ r, if p r then f r else r) l.
Definition sql_delete {A} (p : A → bool) (l : list A) : list A :=
  List.filter (λ r, negb (p r)) l.
Definition sql_count {A} (p : A → bool) (l : list A) : nat := length (sql_select p l).
Definition sql_exists {A} (p : A → bool) (l : list A) : bool := List.existsb p l.

Lemma elem_of_sql_select {A} (p : A → bool) l x :
  x ∈ sql_select p l ↔ p x = true ∧ x ∈ l.
Proof. unfold sql_select. rewrite !list_elem_of_In, filter_In. tauto. Qed.

Lemma elem_of_sql_update {A} (p : A → bool) f l x :
  x ∈ sql_update p f l ↔ ∃ y, y ∈ l ∧ x = if p y then f y else y.
Proof.
  unfold sql_update. rewrite list_elem_of_In, in_map_iff.
  setoid_rewrite list_elem_of_In. split; intros (y & ? & ?); eauto.
Qed.

Lemma elem_of_sql_delete {A} (p : A → bool) l x :
  x ∈ sql_delete p l ↔ p x = false ∧ x ∈ l.
Proof.
  unfold sql_delete. rewrite !list_elem_of_In, filter_In, negb_true_iff. tauto.
Qed.

Lemma sql_select_deleted {A} (p : A → bool) l : sql_select p (sql_delete p l) = [].
Proof.
  unfold sql_select, sql_delete. induction l as [|x l IH]; cbn; [done|].
  destruct (p x) eqn:E; cbn; [done|by rewrite E].
Qed.

Lemma sql_exists_true {A} (p : A → bool) l :
  sql_exists p l = true ↔ ∃ x, x ∈ l ∧ p x = true.
Proof.
  unfold sql_exists. rewrite existsb_exists. by setoid_rewrite list_elem_of_In.
Qed.

Lemma sql_exists_false {A} (p : A → bool) l :
  sql_exists p l = false ↔ ∀ x, x ∈ l → p x = false.
Proof.
  rewrite <- not_true_iff_false, sql_exists_true. split.
  - intros H x Hx. destruct (p x) eqn:E; [|done]. destruct H; eauto.
  - intros H (x & Hx & E). apply H in Hx. congruence.
Qed.

Lemma sql_select_none {A} (p : A → bool) l : (∀ x, x ∈ l → p x = false) → sql_select p l = [].
Proof.
  intros Hp. unfold sql_select. induction l as [|x l IH]; cbn; [done|].
  rewrite Hp by left. apply IH. intros y Hy. apply Hp. by right.
Qed.
Lemma sql_select_app {A} (p : A → bool) l k :
  sql_select p (l ++ k) = sql_select p l ++ sql_select p k.
Proof. apply List.filter_app. Qed.

Lemma sql_count_app {A} (p : A → bool) l k :
  sql_count p (l ++ k) = (sql_count p l + sql_count p k)%nat.
Proof. unfold sql_count. by rewrite sql_select_app, length_app. Qed.

Lemma sql_count_cons {A} (p : A → bool) x l :
  sql_count p (x :: l) = ((if p x then 1 else 0) + sql_count p l)%nat.
Proof. unfold sql_count. cbn. by destruct (p x). Qed.

(** An update keeps any projection that [f] keeps, so keys stay unique. *)
Lemma sql_update_key {A B} (key : A → B) (p : A → bool) f l :
  (∀ r, key (f r) = key r) → map key (sql_update p f l) = map key l.
Proof.
  intros Hk. unfold sql_update. rewrite map_map. apply map_ext.
  intros r. by destruct (p r).
Qed.

Lemma sql_update_key_where {A B} (key : A → B) (p : A → bool) f l :
  (∀ r, r ∈ l → p r = true → key (f r) = key r) → map key (sql_update p f l) = map key l.
Proof.
  intros Hk. unfold sql_update. rewrite map_map. apply map_ext_in.
  intros r Hr. apply list_elem_of_In in Hr. destruct (p r) eqn:E; auto.
Qed.

Lemma sql_update_app {A} (p : A → bool) f l k :
  sql_update p f (l ++ k) = sql_update p f l ++ sql_update p f k.
Proof. apply map_app. Qed.

Lemma sql_update_id {A} (p : A → bool) f l :
  (∀ r, r ∈ l → p r = false) → sql_update p f l = l.
Proof.
  intros H. unfold sql_update. rewrite <- (map_id l) at 2.
  apply map_ext_in. intros r Hr. apply list_elem_of_In in Hr. by rewrite H.
Qed.

(** Rows with equal unique keys are the same row. *)
Lemma NoDup_key_inj {A B} (key : A → B) l x y :
  NoDup (map key l) → x ∈ l → y ∈ l → key x = key y → x = y.
Proof.
  induction l as [|z l IH]; cbn; [by intros _ ?%elem_of_nil|].
  intros [Hz Hl]%NoDup_cons Hx Hy E.
  assert (Hin : ∀ w, w ∈ l → key w ∈ map key l).
  { intros w Hw. by apply list_elem_of_In, in_map, list_elem_of_In. }
  apply elem_of_cons in Hx as [->|Hx]; apply elem_of_cons in Hy as [->|Hy]; auto.
  - destruct Hz. rewrite E. auto.
  - destruct Hz. rewrite <- E. auto.
Qed.

(** SQL NULL handling: [COALESCE(x,d)] and [NULLIF(s,'')]. *)
Definition coalesce {A} (o : option A) (d : A) : A := default d o.
Definition nullif_empty (s : string) : option string :=
  if s ==s "" then None else Some s.

Lemma NoDup_map_filter {A B} (f : A → B) (p : A → bool) l :
  NoDup (map f l) → NoDup (map f (List.filter p l)).
Proof.
  induction l as [|x l IH]; cbn; [done|]. intros [Hx Hl]%NoDup_cons.
  destruct (p x); cbn; [|auto]. apply NoDup_cons. split; [|auto]. intros Hin. apply Hx.
  apply list_elem_of_In, in_map_iff in Hin as (y & E & Hin).
  apply filter_In in Hin as [Hin _]. rewrite <- E. by apply list_elem_of_In, in_map.
Qed.

Lemma Forall2_compose {A B C} (P : A → B → Prop) (Q : B → C → Prop) (R : A → C → Prop) l k m :
  (∀ x y z, P x y → Q y z → R x z) → Forall2 P l k → Forall2 Q k m → Forall2 R l m.
Proof.
  intros HR HP. revert m. induction HP as [|x y l k Hxy _ IH]; intros m HQ.
  - apply Forall2_nil_inv_l in HQ as ->. constructor.
  - apply Forall2_cons_inv_l in HQ as (z & m' & Hyz & HQ & ->). constructor; eauto.
Qed.

Lemma filter_all {A} (p : A → bool) l : (∀ x, x ∈ l → p x = true) → List.filter p l = l.
Proof.
  induction l as [|x l IH]; intros Hp; cbn; [done|]. rewrite Hp by left. f_equal. apply IH.
  intros y Hy. apply Hp. by right.
Qed.

Lemma filter_none {A} (p : A → bool) l : (∀ x, x ∈ l → p x = false) → List.filter p l = [].
Proof.
  induction l as [|x l IH]; intros Hp; cbn; [done|]. rewrite Hp by left. apply IH.
  intros y Hy. apply Hp. by right.
Qed.

Lemma filter_filter_and {A} (p q : A → bool) l :
  List.filter p (List.filter q l) = List.filter (λ x, q x && p x) l.
Proof. induction l as [|x l IH]; cbn; [done|]. destruct (q x); cbn; by rewrite IH. Qed.

Lemma filter_Permutation {A} (p : A → bool) l k : l ≡ₚ k → List.filter p l ≡ₚ List.filter p k.
Proof. induction 1; cbn; repeat destruct (p _); try constructor; eauto using perm_trans. Qed.

(** ** Keyset pagination

    A query that orders its rows, keeps those behind the last row of the
    previous page and takes a number of them. *)
Section pages.
Context {A : Type} (le : A → A → bool).
Hypothesis le_total : ∀ x y, le x y = true ∨ le y x = true.
Hypothesis le_trans : ∀ x y z, le x y = true → le y z = true → le x z = true.

(** The order tells the rows apart. *)
Definition keyed (l : list A) : Prop :=
  NoDup l ∧ ∀ x y, x ∈ l → y ∈ l → le x y = true → le y x = true → x = y.

(** In a sorted list, the rows behind the last one of a page are the rest. *)
Lemma filter_behind l n c :
  StronglySorted (λ x y, le x y = true) l → keyed l → last (take n l) = Some c →
  List.filter (λ x, negb (le x c)) l = drop n l.
Proof.
  intros Hs [Hn Hk] [l' Hl']%last_Some. rewrite <- (take_drop n l) in Hs, Hn, Hk |- * at 1.
  rewrite List.filter_app. rewrite Hl' in Hs, Hn, Hk |- *.
  rewrite filter_none, filter_all; [done| |].
  - intros x Hx. apply negb_true_iff, not_true_iff_false. intros Ex.
    apply NoDup_app in Hn as (_ & Hd & _).
    assert (Hc : c ∈ l' ++ [c]) by (apply elem_of_app; right; left).
    apply (Hd c Hc). rewrite (Hk c x); [done|by apply elem_of_app; left|by apply elem_of_app; right| |done].
    exact (StronglySorted_app_1_elem_of _ _ _ _ _ Hs Hc Hx).
  - intros x [Hx| ->%list_elem_of_singleton]%elem_of_app; apply negb_false_iff.
    + apply StronglySorted_app_1_l in Hs.
      exact (StronglySorted_app_1_elem_of _ _ _ _ _ Hs Hx (list_elem_of_here _ _)).
    + by destruct (le_total c c).
Qed.

Lemma page_after l n c (p : A → bool) :
  keyed l → last (take n (sort_by le l)) = Some c → (∀ x, x ∈ l → p x = negb (le x c)) →
  sort_by le (List.filter p l) = drop n (sort_by le l).
Proof.
  intros Hk Hc Hp.
  assert (Hk' : keyed (sort_by le l)).
  { destruct Hk as [Hn Ha]. split; [by rewrite sort_by_Permutation|].
    intros x y. rewrite !elem_of_sort_by. apply Ha. }
  rewrite <- (filter_behind (sort_by le l) n c); [|by apply sort_by_sorted|done|done].
  apply (StronglySorted_unique_strong (λ x y, le x y = true)).
  - intros x y Hx%elem_of_sort_by Hy. apply Hk.
    + apply list_elem_of_In, filter_In in Hx as [Hx _]. by apply list_elem_of_In.
    + apply list_elem_of_In, filter_In in Hy as [Hy _]. by apply list_elem_of_In, elem_of_sort_by in Hy.
  - by apply sort_by_sorted.
  - rewrite (filter_behind _ n c) by (done || by apply sort_by_sorted).
    eapply StronglySorted_app_1_r. rewrite take_drop. by apply sort_by_sorted.
  - rewrite sort_by_Permutation, (List.filter_ext_in p (λ x, negb (le x c))).
    + by apply filter_Permutation; rewrite sort_by_Permutation.
    + intros x Hx. by apply Hp, list_elem_of_In.
Qed.
End pages.
