(* ===== verification/GoStrings.v ===== *)
(** * The parts of Go's [strings] and [strconv] packages the scheduler uses

    Strings are byte strings.  The case and white-space functions act on the
    ASCII range; [strings.ToUpper] and [strings.Fields] also know Unicode, so
    the model agrees with Go on ASCII input. *)
From Stdlib Require Import ZArith Lia Ascii String.
From stdpp Require Import base list strings pretty.
From S2P Require Import Prelude.

Definition nat_in (lo hi : nat) (c : ascii) : bool :=
  (Nat.leb lo (nat_of_ascii c) && Nat.leb (nat_of_ascii c) hi)%bool.

Definition is_digit (c : ascii) : bool := nat_in 48 57 c.
Definition digit_value (c : ascii) : Z := Z.of_nat (nat_of_ascii c) - 48.

(** tab, newline, vertical tab, form feed, carriage return, space *)
Definition is_space (c : ascii) : bool :=
  (nat_in 9 13 c || nat_in 32 32 c)%bool.

Definition upper_char (c : ascii) : ascii :=
  if nat_in 97 122 c then ascii_of_nat (nat_of_ascii c - 32) else c.

Definition lower_char (c : ascii) : ascii :=
  if nat_in 65 90 c then ascii_of_nat (nat_of_ascii c + 32) else c.

Fixpoint map_string (f : ascii → ascii) (s : string) : string :=
  match s with
  | EmptyString => EmptyString
  | String c s' => String (f c) (map_string f s')
  end.

Definition ToUpper : string → string := map_string upper_char.
Definition ToLower : string → string := map_string lower_char.

Definition char_string (c : ascii) : string := String c EmptyString.

Fixpoint Fields_aux (s cur : string) : list string :=
  match s with
  | EmptyString => if cur ==s "" then [] else [cur]
  | String c s' =>
      if is_space c
      then if cur ==s "" then Fields_aux s' "" else cur :: Fields_aux s' ""
      else Fields_aux s' (cur +:+ char_string c)
  end.
(** [strings.Fields] *)
Definition Fields (s : string) : list string := Fields_aux s "".

Fixpoint Split_aux (sep : ascii) (s cur : string) : list string :=
  match s with
  | EmptyString => [cur]
  | String c s' =>
      if Ascii.eqb c sep
      then cur :: Split_aux sep s' ""
      else Split_aux sep s' (cur +:+ char_string c)
  end.
(** [strings.Split] with a one-byte separator *)
Definition Split (s : string) (sep : ascii) : list string := Split_aux sep s "".

(** [strings.Join] *)
Fixpoint Join (parts : list string) (sep : string) : string :=
  match parts with
  | [] => ""
  | [p] => p
  | p :: ps => p +:+ sep +:+ Join ps sep
  end.

Fixpoint exists_char (p : ascii → bool) (s : string) : bool :=
  match s with
  | EmptyString => false
  | String c s' => p c || exists_char p s'
  end.

Fixpoint forall_char (p : ascii → bool) (s : string) : bool :=
  match s with
  | EmptyString => true
  | String c s' => p c && forall_char p s'
  end.

(** [strings.Contains] with a one-byte needle, [strings.ContainsAny] *)
Definition ContainsChar (s : string) (c : ascii) : bool :=
  exists_char (Ascii.eqb c) s.
Definition ContainsAny (s chars : string) : bool :=
  exists_char (λ c, ContainsChar chars c) s.

Fixpoint TrimLeftFunc (p : ascii → bool) (s : string) : string :=
  match s with
  | EmptyString => EmptyString
  | String c s' => if p c then TrimLeftFunc p s' else s
  end.

Fixpoint TrimRightFunc (p : ascii → bool) (s : string) : string :=
  match s with
  | EmptyString => EmptyString
  | String c s' =>
      match TrimRightFunc p s' with
      | EmptyString => if p c then EmptyString else char_string c
      | t => String c t
      end
  end.

(** [strings.TrimSpace] and [strings.TrimRight(s, "/")] *)
Definition TrimSpace (s : string) : string :=
  TrimRightFunc is_space (TrimLeftFunc is_space s).
Definition TrimRightSlash (s : string) : string :=
  TrimRightFunc (Ascii.eqb "/"%char) s.

Fixpoint HasPrefix (s prefix : string) : bool :=
  match prefix, s with
  | EmptyString, _ => true
  | String c p', String d s' => Ascii.eqb c d && HasPrefix s' p'
  | String _ _, EmptyString => false
  end.

Definition len (s : string) : Z := Z.of_nat (String.length s).

(** The bytes [s[i:j]] of an in-range slice expression. *)
Definition slice (s : string) (i j : nat) : string := String.substring i (j - i) s.

(** [strconv.ParseInt(s, 10, 64)] (and [strconv.Atoi], [int] being 64 bits
    wide): an optional sign, at least one digit, and the value in range. *)
Fixpoint digits_value (s : string) (acc : Z) : option Z :=
  match s with
  | EmptyString => Some acc
  | String c s' =>
      if is_digit c then digits_value s' (10 * acc + digit_value c) else None
  end.

Definition ParseUint (s : string) : option Z :=
  if s ==s "" then None else digits_value s 0.

Definition in_int64 (z : Z) : option Z :=
  if (int64_min <=? z) && (z <=? int64_max) then Some z else None.

Definition ParseInt (s : string) : option Z :=
  match s with
  | String "-" s' => v ← ParseUint s'; in_int64 (- v)
  | String "+" s' => v ← ParseUint s'; in_int64 v
  | _ => v ← ParseUint s; in_int64 v
  end.
Definition Atoi : string → option Z := ParseInt.

(** [strconv.Itoa] *)
Definition Itoa (z : Z) : string := pretty z.

Lemma ParseInt_range s z : ParseInt s = Some z → int64_min ≤ z ≤ int64_max.
Proof.
  assert (Hin : ∀ v, in_int64 v = Some z → int64_min ≤ z ≤ int64_max).
  { unfold in_int64. intros v. destruct (_ && _) eqn:E; [|done].
    intros [= ->]. bool_to_prop. lia. }
  assert (Hb : ∀ t f, (v ← ParseUint t; in_int64 (f v)) = Some z →
                      int64_min ≤ z ≤ int64_max).
  { intros t f. destruct (ParseUint t); cbn; [|done]. apply Hin. }
  unfold ParseInt. intros H.
  repeat first [ by eapply (Hb _ (λ v, v)) | by eapply (Hb _ Z.opp)
               | match type of H with context [match ?x with _ => _ end] =>
                   is_var x; destruct x end ].
Qed.

Example fields_example :
  Fields "  0 0  9	L * ? " = ["0"; "0"; "9"; "L"; "*"; "?"].
Proof. reflexivity. Qed.
Example split_example : Split "MON-FRI,6" ","%char = ["MON-FRI"; "6"].
Proof. reflexivity. Qed.
Example parse_example :
  (ParseInt "-12", ParseInt "+7", ParseInt "9223372036854775808", ParseInt "1_0")
  = (Some (-12), Some 7, None, None).
Proof. vm_compute. reflexivity. Qed.
