(* ===== verification/GoUrl.v ===== *)
(** * URLs

    [url.Parse] and [url.ParseRequestURI] of the standard library, as far as
    the program looks at their results: the scheme, whether there is user
    information, the host and the path.  Whether the text between brackets is
    an IPv6 address is asked of [IPLiterals]. *)
From Stdlib Require Import ZArith Lia Ascii String.
From stdpp Require Import base list strings.
From S2P Require Import Prelude GoStrings.

(** [netip.ParseAddr] on the host between brackets. *)
Class IPLiterals := ip_literal : string → bool.

Module GoUrl.

(** ** Texts *)

(** [strings.Cut(s, sep)] with a one-byte separator; the text after it is
    [None] when there is none. *)
Fixpoint Cut (s : string) (sep : ascii) : string * option string :=
  match s with
  | EmptyString => ("", None)
  | String c s' =>
      if Ascii.eqb c sep then ("", Some s')
      else let '(before, after) := Cut s' sep in (String c before, after)
  end.

(** The same at the last separator: [None] without one. *)
Fixpoint CutLast (s : string) (sep : ascii) : option (string * string) :=
  match s with
  | EmptyString => None
  | String c s' =>
      match CutLast s' sep with
      | Some (before, after) => Some (String c before, after)
      | None => if Ascii.eqb c sep then Some ("", s') else None
      end
  end.

(** [strings.Index(s, needle)] for a needle that is not empty. *)
Fixpoint Index (s needle : string) : option nat :=
  if HasPrefix s needle then Some 0%nat
  else match s with
       | EmptyString => None
       | String _ s' => i ← Index s' needle; Some (S i)
       end.
Definition Contains (s needle : string) : bool :=
  match Index s needle with Some _ => true | None => false end.

(** [strings.ReplaceAll(s, old, new)] for an [old] that is not empty; the fuel
    is the length of the text. *)
Fixpoint replace_from (fuel : nat) (s old new : string) : string :=
  match fuel with
  | O => s
  | S fuel =>
      match s with
      | EmptyString => EmptyString
      | String c s' =>
          if HasPrefix s old
          then new +:+ replace_from fuel (String.substring (String.length old) (String.length s) s) old new
          else String c (replace_from fuel s' old new)
      end
  end.
Definition ReplaceAll (s old new : string) : string := replace_from (String.length s) s old new.

(** ** Percent escapes *)

Inductive encoding := encodePath | encodeUserPassword | encodeHost | encodeZone | encodeFragment.
#[export] Instance encoding_eq_dec : EqDecision encoding.
Proof. solve_decision. Defined.

Definition alnum (c : ascii) : bool := is_digit c || nat_in 65 90 c || nat_in 97 122 c.
Definition hex_value (c : ascii) : option Z :=
  let n := Z.of_nat (nat_of_ascii c) in
  if is_digit c then Some (n - 48)
  else if nat_in 97 102 c then Some (n - 87)
  else if nat_in 65 70 c then Some (n - 55)
  else None.

(** [shouldEscape(c, encodeHost)], also for a zone; 34 is the quotation mark. *)
Definition host_escape (c : ascii) : bool :=
  negb (alnum c || ContainsChar "!$&'()*+,;=:[]<>-_.~" c || nat_in 34 34 c).

Definition escape_error : error := ErrMsg "invalid URL escape".

(** [unescape(s, mode)] *)
Fixpoint unescape (mode : encoding) (s : string) : result string :=
  match s with
  | EmptyString => Ok EmptyString
  | String "%" (String a (String b s')) =>
      match hex_value a, hex_value b with
      | Some h, Some l =>
          let v := ascii_of_nat (Z.to_nat (16 * h + l)) in
          let is25 := (Ascii.eqb a "2" && Ascii.eqb b "5")%char in
          if bool_decide (mode = encodeHost) && (h <? 8) && negb is25 then Err escape_error
          else if bool_decide (mode = encodeZone) && negb is25
                  && negb (Ascii.eqb v " ") && host_escape v then Err escape_error
          else rest ← unescape mode s'; Ok (String v rest)
      | _, _ => Err escape_error
      end
  | String "%" _ => Err escape_error
  | String c s' =>
      if (bool_decide (mode = encodeHost) || bool_decide (mode = encodeZone))
         && nat_in 0 127 c && host_escape c then Err (ErrMsg "invalid character in host name")
      else rest ← unescape mode s'; Ok (String c rest)
  end.

(** ** Components *)

Record URL := mk_url {
  url_Scheme : string; url_User : bool; url_Host : string; url_Path : string;
}.

(** [stringContainsCTLByte] *)
Definition control_char (c : ascii) : bool := nat_in 0 31 c || nat_in 127 127 c.

(** [getScheme]: the scheme and the rest; [first] tells whether the character
    is the first one. *)
Fixpoint scheme_of (s : string) (first : bool) : result (option (string * string)) :=
  match s with
  | EmptyString => Ok None
  | String c s' =>
      if nat_in 97 122 c || nat_in 65 90 c then
        found ← scheme_of s' false;
        Ok (match found with Some (scheme, rest) => Some (String c scheme, rest) | None => None end)
      else if is_digit c || ContainsChar "+-." c then
        if first then Ok None
        else
          found ← scheme_of s' false;
          Ok (match found with Some (scheme, rest) => Some (String c scheme, rest) | None => None end)
      else if Ascii.eqb c ":" then
        if first then Err (ErrMsg "missing protocol scheme") else Ok (Some ("", s'))
      else Ok None
  end.
Definition getScheme (rawURL : string) : result (string * string) :=
  found ← scheme_of rawURL true;
  Ok (match found with Some p => p | None => ("", rawURL) end).

(** [validOptionalPort] *)
Definition validOptionalPort (port : string) : bool :=
  match port with
  | EmptyString => true
  | String c digits => Ascii.eqb c ":" && forall_char is_digit digits
  end.

Definition port_error : error := ErrMsg "invalid port after host".

Section parse.
Context `{IPLiterals}.

(** The host between brackets with its zone, and the port after it. *)
Definition parse_literal (inner colonPort : string) : result string :=
  if negb (validOptionalPort colonPort) then Err port_error
  else
    port ← unescape encodeHost colonPort;
    name ← (match Index inner "%25" with
            | Some zone =>
                host ← unescape encodeHost (String.substring 0 zone inner);
                zone ← unescape encodeZone (String.substring zone (String.length inner) inner);
                Ok (host +:+ zone)
            | None => unescape encodeHost inner
            end);
    if ip_literal name then Ok ("[" +:+ name +:+ "]" +:+ port)
    else Err (ErrMsg "invalid host").

Definition parseHost (host : string) : result string :=
  match CutLast host "[" with
  | Some ("", rest) =>
      match CutLast rest "]" with
      | Some (inner, colonPort) => parse_literal inner colonPort
      | None => Err (ErrMsg "missing ']' in host")
      end
  | Some _ => Err (ErrMsg "invalid IP-literal")
  | None =>
      match CutLast host ":" with
      | Some (_, port) =>
          if validOptionalPort (":" +:+ port) then unescape encodeHost host else Err port_error
      | None => unescape encodeHost host
      end
  end.

(** [validUserinfo] *)
Definition validUserinfo (s : string) : bool :=
  forall_char (λ c, alnum c || ContainsChar "-._:~!$&'()*+,;=%@" c) s.

(** [parseAuthority]: whether there is user information, and the host. *)
Definition parseAuthority (authority : string) : result (bool * string) :=
  match CutLast authority "@" with
  | None => host ← parseHost authority; Ok (false, host)
  | Some (userinfo, h) =>
      host ← parseHost h;
      if negb (validUserinfo userinfo) then Err (ErrMsg "net/url: invalid userinfo")
      else _ ← unescape encodeUserPassword userinfo; Ok (true, host)
  end.

(** The query goes; a lone question mark at the end too. *)
Definition without_query (rest : string) : string := (Cut rest "?").1.

Definition parse (rawURL : string) (viaRequest : bool) : result URL :=
  if exists_char control_char rawURL then Err (ErrMsg "net/url: invalid control character in URL")
  else if (rawURL ==s "") && viaRequest then Err (ErrMsg "empty url")
  else if rawURL ==s "*" then Ok (mk_url "" false "" "*")
  else
    '(scheme, rest) ← getScheme rawURL;
    let scheme := ToLower scheme in
    let rest := without_query rest in
    if negb (HasPrefix rest "/") && (scheme !=s "") then Ok (mk_url scheme false "" "")
    else if negb (HasPrefix rest "/") && viaRequest then Err (ErrMsg "invalid URI for request")
    else if negb (HasPrefix rest "/") && ContainsChar (Cut rest "/").1 ":"
    then Err (ErrMsg "first path segment in URL cannot contain colon")
    else if ((scheme !=s "") || (negb viaRequest && negb (HasPrefix rest "///")))
            && HasPrefix rest "//" then
      let '(authority, path) := Cut (String.substring 2 (String.length rest) rest) "/" in
      '(user, host) ← parseAuthority authority;
      path ← unescape encodePath (match path with Some p => "/" +:+ p | None => "" end);
      Ok (mk_url scheme user host path)
    else
      path ← unescape encodePath rest;
      Ok (mk_url scheme false "" path).

Definition Parse (rawURL : string) : result URL :=
  let '(u, frag) := Cut rawURL "#" in
  url ← parse u false;
  match frag with
  | None => Ok url
  | Some frag => _ ← unescape encodeFragment frag; Ok url
  end.

Definition ParseRequestURI (rawURL : string) : result URL := parse rawURL true.
End parse.

#[local] Instance no_literals : IPLiterals := λ _, false.

Example parse_examples :
  (Parse "grpc://node-1:9000", ParseRequestURI "https://u:p@h/x?y=1", ParseRequestURI "localhost:80",
   Parse "//host/a%20b#f", ParseRequestURI "http://a b/", ParseRequestURI "HTTP://x:8a")
  = (Ok (mk_url "grpc" false "node-1:9000" ""), Ok (mk_url "https" true "h" "/x"),
     Ok (mk_url "localhost" false "" ""), Ok (mk_url "" false "host" "/a b"),
     Err (ErrMsg "invalid character in host name"), Err port_error).
Proof. vm_compute. reflexivity. Qed.
End GoUrl.
