(* ===== verification/GoTime.v ===== *)
(** * The proleptic Gregorian calendar of Go's [time] package

    [Date], [Time.Date], [Time.Weekday] and [ParseInLocation(RFC3339)] as
    [internal/schedule] uses them.  Days are
    counted from 0001-01-01 (a Monday), the day of Go's zero time. *)
From Stdlib Require Import ZArith Lia Ascii String.
From stdpp Require Import base list strings.
From S2P Require Import Prelude GoStrings.

(** ** Civil dates *)

Definition is_leap (y : Z) : bool :=
  (y mod 4 =? 0) && (negb (y mod 100 =? 0) || (y mod 400 =? 0)).

(** Days of the year before the first of month [m] (1-based) in a common year. *)
Definition days_before (m : Z) : Z :=
  match m with
  | 1 => 0 | 2 => 31 | 3 => 59 | 4 => 90 | 5 => 120 | 6 => 151
  | 7 => 181 | 8 => 212 | 9 => 243 | 10 => 273 | 11 => 304 | 12 => 334
  | _ => 365
  end.

Definition days_before_month (y m : Z) : Z :=
  days_before m + (if is_leap y && (2 <? m) then 1 else 0).

Definition days_in_month (y m : Z) : Z :=
  match m with
  | 2 => if is_leap y then 29 else 28
  | 4 | 6 | 9 | 11 => 30
  | _ => 31
  end.

(** Days from 0001-01-01 to the first of January of year [y]. *)
Definition days_before_year (y : Z) : Z :=
  365 * (y - 1) + (y - 1) / 4 - (y - 1) / 100 + (y - 1) / 400.

Definition days_of_civil (y m d : Z) : Z :=
  days_before_year y + days_before_month y m + (d - 1).

(** The largest month whose first day is not after day [yday] of the year. *)
Fixpoint month_of_yday (y yday : Z) (fuel : nat) : Z :=
  match fuel with
  | O => 1
  | S f =>
      let m := Z.of_nat fuel in
      if days_before_month y m <=? yday then m else month_of_yday y yday f
  end.

(** Day number to (year, month, day): 400-, 100-, 4- and 1-year cycles. *)
Definition civil_of_days (n : Z) : Z * Z * Z :=
  let n400 := n / 146097 in
  let r := n mod 146097 in
  let n100 := Z.min 3 (r / 36524) in
  let r := r - 36524 * n100 in
  let n4 := r / 1461 in
  let r := r - 1461 * n4 in
  let n1 := Z.min 3 (r / 365) in
  let yday := r - 365 * n1 in
  let y0 := 100 * n100 + 4 * n4 + n1 + 1 in
  let m := month_of_yday y0 yday 12 in
  (400 * n400 + y0, m, yday - days_before_month y0 m + 1).

Definition valid_civil (y m d : Z) : bool :=
  (1 <=? m) && (m <=? 12) && (1 <=? d) && (d <=? days_in_month y m).

(** Sunday is 0, as for [time.Weekday]. *)
Definition weekday_of_days (n : Z) : Z := (n + 1) mod 7.

(** *** The conversions are inverse to each other *)

Definition year_length (y : Z) : Z := if is_leap y then 366 else 365.

Lemma is_leap_true y :
  is_leap y = true ↔ y mod 4 = 0 ∧ (y mod 100 ≠ 0 ∨ y mod 400 = 0).
Proof.
  unfold is_leap. rewrite andb_true_iff, orb_true_iff, negb_true_iff,
    !Z.eqb_eq, Z.eqb_neq. tauto.
Qed.

Lemma is_leap_false y :
  is_leap y = false ↔ y mod 4 ≠ 0 ∨ (y mod 100 = 0 ∧ y mod 400 ≠ 0).
Proof. rewrite <- not_true_iff_false, is_leap_true. lia. Qed.

Lemma days_before_year_succ y :
  days_before_year (y + 1) = days_before_year y + year_length y.
Proof.
  unfold days_before_year, year_length.
  destruct (is_leap y) eqn:E;
    [apply is_leap_true in E|apply is_leap_false in E];
    Z.to_euclidean_division_equations; lia.
Qed.

Lemma days_before_year_mono y z : y < z → days_before_year (y + 1) ≤ days_before_year z.
Proof.
  intros H. unfold days_before_year. Z.to_euclidean_division_equations. lia.
Qed.

(** Months 1..12, one goal each. *)
Ltac case_month m :=
  let H := fresh "Hmonth" in
  assert (m = 1 ∨ m = 2 ∨ m = 3 ∨ m = 4 ∨ m = 5 ∨ m = 6 ∨ m = 7 ∨ m = 8 ∨
          m = 9 ∨ m = 10 ∨ m = 11 ∨ m = 12) as H by lia;
  destruct H as [->|[->|[->|[->|[->|[->|[->|[->|[->|[->|[->| ->]]]]]]]]]]].

Lemma days_before_month_next y m :
  1 ≤ m ≤ 12 → days_before_month y m + days_in_month y m = days_before_month y (m + 1).
Proof.
  intros H. unfold days_before_month, days_in_month.
  case_month m; cbn; destruct (is_leap y); reflexivity.
Qed.

Lemma days_before_month_13 y : days_before_month y 13 = year_length y.
Proof. unfold days_before_month, year_length. cbn. by destruct (is_leap y). Qed.

Lemma days_in_month_range y m : 28 ≤ days_in_month y m ≤ 31.
Proof. unfold days_in_month. split_match; lia. Qed.

Lemma days_before_month_mono y m k :
  1 ≤ m → m < k ≤ 13 → days_before_month y (m + 1) ≤ days_before_month y k.
Proof.
  intros Hm Hk. remember (Z.to_nat (k - m - 1)) as n eqn:E.
  revert k Hk E. induction n as [|n IH]; intros k Hk E.
  - replace k with (m + 1) by lia. lia.
  - specialize (IH (k - 1) ltac:(lia) ltac:(lia)).
    pose proof (days_before_month_next y (k - 1) ltac:(lia)) as H.
    replace (k - 1 + 1) with k in H by lia.
    pose proof (days_in_month_range y (k - 1)). lia.
Qed.

Lemma valid_civil_true y m d :
  valid_civil y m d = true ↔ 1 ≤ m ≤ 12 ∧ 1 ≤ d ≤ days_in_month y m.
Proof.
  unfold valid_civil. rewrite !andb_true_iff, !Z.leb_le. lia.
Qed.

Lemma month_of_yday_spec y yday :
  0 ≤ yday < year_length y →
  let m := month_of_yday y yday 12 in
  1 ≤ m ≤ 12 ∧ days_before_month y m ≤ yday < days_before_month y (m + 1).
Proof.
  intros H. cbv zeta.
  assert (Hgen : ∀ n : nat, (n ≤ 12)%nat → (1 ≤ n)%nat →
    yday < days_before_month y (Z.of_nat n + 1) →
    let m := month_of_yday y yday n in
    1 ≤ m ≤ 12 ∧ days_before_month y m ≤ yday < days_before_month y (m + 1)).
  { induction n as [|n IH]; intros Hn Hn1 Hlt; [lia|].
    cbn [month_of_yday]. cbv zeta.
    destruct (days_before_month y (Z.of_nat (S n)) <=? yday) eqn:E; bool_to_prop.
    - split; [lia|]. done.
    - destruct n as [|n].
      + assert (days_before_month y (Z.of_nat 1) = 0)
          by (unfold days_before_month; cbn; by rewrite andb_false_r). lia.
      + apply IH; [lia|lia|].
        by replace (Z.of_nat (S n) + 1) with (Z.of_nat (S (S n))) by lia. }
  apply (Hgen 12%nat); [lia|lia|].
  change (Z.of_nat 12 + 1) with 13. rewrite days_before_month_13. lia.
Qed.

(** The cycle decomposition finds a year of the 400-year cycle and a day of it. *)
Lemma cycle_decompose r :
  0 ≤ r < 146097 →
  let n100 := Z.min 3 (r / 36524) in
  let r1 := r - 36524 * n100 in
  let n4 := r1 / 1461 in
  let r2 := r1 - 1461 * n4 in
  let n1 := Z.min 3 (r2 / 365) in
  let yday := r2 - 365 * n1 in
  let y0 := 100 * n100 + 4 * n4 + n1 + 1 in
  1 ≤ y0 ≤ 400 ∧ 0 ≤ yday < year_length y0 ∧ days_before_year y0 + yday = r.
Proof.
  intros Hr n100 r1 n4 r2 n1 yday y0.
  assert (H100 : 0 ≤ n100 ≤ 3 ∧ 0 ≤ r1 ∧ (r1 < 36524 ∨ n100 = 3 ∧ r1 = 36524))
    by (unfold r1, n100; Z.to_euclidean_division_equations; lia).
  clearbody n100. assert (Er : r = 36524 * n100 + r1) by (unfold r1; lia).
  clearbody r1.
  assert (H4 : 0 ≤ n4 ≤ 24 ∧ 0 ≤ r2 ≤ 1460 ∧ r1 = 1461 * n4 + r2)
    by (unfold r2, n4; Z.to_euclidean_division_equations; lia).
  clearbody n4. clearbody r2.
  assert (H1 : 0 ≤ n1 ≤ 3 ∧ 0 ≤ yday ∧ (yday < 365 ∨ n1 = 3 ∧ yday = 365) ∧
               r2 = 365 * n1 + yday)
    by (unfold yday, n1; Z.to_euclidean_division_equations; lia).
  clearbody n1. clearbody yday.
  assert (Ey : days_before_year y0 = 36524 * n100 + 1461 * n4 + 365 * n1)
    by (unfold days_before_year, y0; Z.to_euclidean_division_equations; lia).
  split; [unfold y0; lia|]. split; [|lia].
  split; [lia|]. unfold year_length. destruct (is_leap y0) eqn:E; [lia|].
  destruct (Z.eq_dec yday 365) as [Hd|]; [|lia]. exfalso.
  apply is_leap_false in E. unfold y0 in E.
  Z.to_euclidean_division_equations. lia.
Qed.

Lemma days_before_year_cycle y q :
  days_before_year (400 * q + y) = 146097 * q + days_before_year y.
Proof. unfold days_before_year. Z.to_euclidean_division_equations. lia. Qed.

Lemma is_leap_cycle y q : is_leap (400 * q + y) = is_leap y.
Proof.
  apply eq_bool_prop_intro. rewrite !Is_true_true, !is_leap_true.
  Z.to_euclidean_division_equations. lia.
Qed.

(** Every day number is a valid civil date, and converting it back gives it. *)
Lemma civil_of_days_spec n :
  let '(y, m, d) := civil_of_days n in
  valid_civil y m d = true ∧ days_of_civil y m d = n.
Proof.
  unfold civil_of_days.
  pose proof (cycle_decompose (n mod 146097) (Z.mod_pos_bound n 146097 ltac:(lia))) as H.
  cbv zeta in *. destruct H as (_ & Hyd & Hsum).
  set (yday := _ - 365 * _) in *. set (y0 := _ + 1) in *. clearbody yday y0.
  pose proof (month_of_yday_spec y0 yday Hyd) as Hm. cbv zeta in Hm.
  set (m := month_of_yday y0 yday 12) in *. clearbody m.
  destruct Hm as [Hm Hlo].
  pose proof (days_before_month_next y0 m Hm) as Hnext.
  assert (Hdm : days_before_month (400 * (n / 146097) + y0) m = days_before_month y0 m)
    by (unfold days_before_month; by rewrite is_leap_cycle).
  assert (Hdi : days_in_month (400 * (n / 146097) + y0) m = days_in_month y0 m)
    by (unfold days_in_month; by rewrite is_leap_cycle).
  rewrite valid_civil_true, Hdi. split; [lia|].
  unfold days_of_civil. rewrite days_before_year_cycle, Hdm.
  pose proof (Z.div_mod n 146097). lia.
Qed.

(** A day of a year is between the first days of that and the next year. *)
Lemma days_of_civil_year y m d :
  valid_civil y m d = true →
  days_before_year y ≤ days_of_civil y m d < days_before_year (y + 1).
Proof.
  rewrite valid_civil_true. intros [Hm Hd].
  unfold days_of_civil. rewrite days_before_year_succ.
  pose proof (days_before_month_next y m Hm).
  pose proof (days_before_month_mono y m 13 ltac:(lia) ltac:(lia)) as Hmono.
  rewrite days_before_month_13 in Hmono.
  assert (0 ≤ days_before_month y m)
    by (unfold days_before_month; case_month m; cbn; destruct (is_leap y); cbn; lia).
  lia.
Qed.

(** Months counted from year 0: dates of an earlier month are earlier. *)
Definition month_index (y m : Z) : Z := 12 * y + m.

Lemma days_of_civil_month_lt y m d y' m' d' :
  valid_civil y m d = true → valid_civil y' m' d' = true →
  month_index y m < month_index y' m' → days_of_civil y m d < days_of_civil y' m' d'.
Proof.
  intros Hv Hv' Hlt. pose proof (days_of_civil_year _ _ _ Hv).
  pose proof (days_of_civil_year _ _ _ Hv'). unfold month_index in Hlt.
  apply valid_civil_true in Hv as [Hm Hd], Hv' as [Hm' Hd'].
  destruct (Z.eq_dec y y') as [<-|Hne].
  - pose proof (days_before_month_next y m Hm).
    pose proof (days_before_month_mono y m m' ltac:(lia) ltac:(lia)).
    unfold days_of_civil. lia.
  - pose proof (days_before_year_mono y y' ltac:(lia)). lia.
Qed.

Lemma days_of_civil_inj y m d y' m' d' :
  valid_civil y m d = true → valid_civil y' m' d' = true →
  days_of_civil y m d = days_of_civil y' m' d' → (y, m, d) = (y', m', d').
Proof.
  intros Hv Hv' E.
  destruct (Z.lt_trichotomy (month_index y m) (month_index y' m')) as [L|[L|L]].
  - pose proof (days_of_civil_month_lt _ _ _ _ _ _ Hv Hv' L). lia.
  - unfold month_index in L. apply valid_civil_true in Hv as [? ?], Hv' as [? ?].
    assert (y = y') as <- by lia. assert (m = m') as <- by lia.
    f_equal. unfold days_of_civil in E. lia.
  - pose proof (days_of_civil_month_lt _ _ _ _ _ _ Hv' Hv L). lia.
Qed.

(** A valid civil date is recovered from its day number. *)
Lemma days_of_civil_inv y m d :
  valid_civil y m d = true → civil_of_days (days_of_civil y m d) = (y, m, d).
Proof.
  intros Hv. pose proof (civil_of_days_spec (days_of_civil y m d)) as H.
  destruct (civil_of_days _) as [[y' m'] d']. destruct H as [Hv' E].
  by apply days_of_civil_inj.
Qed.

(** ** Locations, [time.Date] and the accessors *)

(** Seconds from Go's zero time to the Unix epoch. *)
Definition unix_epoch : Z := 62135596800.

(** [Location.lookup]: for a Unix second, the zone's offset east of UTC and
    the half-open interval of Unix seconds [start, end) the zone covers. *)
Record Location := mk_location { zone_lookup : Z → Z * Z * Z }.

Definition fixed_zone (offset : Z) : Location :=
  mk_location (λ _, (offset, int64_min, int64_max)).
Definition UTC : Location := fixed_zone 0.

Definition seconds_of (t : time) : Z := t / second.
Definition zone_offset (loc : Location) (t : time) : Z :=
  (zone_lookup loc (seconds_of t - unix_epoch)).1.1.

(** The day number of [t.In(loc)]. *)
Definition local_days (loc : Location) (t : time) : Z :=
  (seconds_of t + zone_offset loc t) / 86400.

(** [t.In(loc).Date()] and [t.In(loc).Weekday()] *)
Definition DateOf (loc : Location) (t : time) : Z * Z * Z :=
  civil_of_days (local_days loc t).
Definition WeekdayOf (loc : Location) (t : time) : Z :=
  weekday_of_days (local_days loc t).

(** The day number named by [time.Date(year, month, day, ...)], the month
    overflowing into the year and the day into the month. *)
Definition date_days (year month day : Z) : Z :=
  days_of_civil (year + (month - 1) / 12) ((month - 1) mod 12 + 1) 1 + (day - 1).

(** [time.Date] *)
Definition Date (year month day h min sec nsec : Z) (loc : Location) : time :=
  let unix := date_days year month day * 86400 + h * 3600 + min * 60 + sec - unix_epoch in
  let '(offset, zstart, zend) := zone_lookup loc unix in
  let unix' :=
    if offset =? 0 then unix
    else
      let utc := unix - offset in
      if (utc <? zstart) || (zend <=? utc)
      then unix - (zone_lookup loc utc).1.1
      else unix - offset in
  (unix' + unix_epoch) * second + nsec.

(** The local date of [Date y m d 12 0 0 0 loc] is the date asked for: the
    zone data has no gap that swallows noon of that day. *)
Definition noon_exists (loc : Location) (year month day : Z) : Prop :=
  local_days loc (Date year month day 12 0 0 0 loc) = date_days year month day.

Lemma seconds_of_mul s : seconds_of (s * second + 0) = s.
Proof. unfold seconds_of, second. rewrite Z.add_0_r. apply Z.div_mul. lia. Qed.

(** Zones without transitions (UTC among them) have every noon. *)
Lemma noon_exists_fixed offset year month day : noon_exists (fixed_zone offset) year month day.
Proof.
  unfold noon_exists, local_days, zone_offset, Date. cbn [zone_lookup fixed_zone fst].
  set (n := date_days year month day). clearbody n.
  assert (E : (if offset =? 0 then n * 86400 + 12 * 3600 + 0 * 60 + 0 - unix_epoch
     else if (n * 86400 + 12 * 3600 + 0 * 60 + 0 - unix_epoch - offset <? int64_min)
            || (int64_max <=? n * 86400 + 12 * 3600 + 0 * 60 + 0 - unix_epoch - offset)
          then n * 86400 + 12 * 3600 + 0 * 60 + 0 - unix_epoch - offset
          else n * 86400 + 12 * 3600 + 0 * 60 + 0 - unix_epoch - offset)
     = n * 86400 + 43200 - unix_epoch - offset).
  { destruct (offset =? 0) eqn:E; [bool_to_prop; lia|]. destruct (_ || _); lia. }
  rewrite E, seconds_of_mul.
  replace (n * 86400 + 43200 - unix_epoch - offset + unix_epoch + offset)
    with (43200 + n * 86400) by lia.
  by rewrite Z.div_add, Z.div_small by lia.
Qed.

(** Local dates follow the order of instants, month by month: no zone change
    turns the calendar back into the month before. *)
Definition month_of (loc : Location) (t : time) : Z :=
  let '(y, m, _) := DateOf loc t in month_index y m.
Definition months_ordered (loc : Location) : Prop :=
  ∀ t u, month_of loc t < month_of loc u → t < u.

Lemma month_of_days_mono n k :
  (let '(y, m, _) := civil_of_days n in month_index y m) <
  (let '(y, m, _) := civil_of_days k in month_index y m) → n < k.
Proof.
  pose proof (civil_of_days_spec n). pose proof (civil_of_days_spec k).
  destruct (civil_of_days n) as [[y m] d], (civil_of_days k) as [[y' m'] d'].
  intros L. destruct H as [Hv <-], H0 as [Hv' <-]. by apply days_of_civil_month_lt.
Qed.

Lemma months_ordered_fixed offset : months_ordered (fixed_zone offset).
Proof.
  intros t u L%month_of_days_mono. unfold local_days, zone_offset, seconds_of in L.
  cbn in L. unfold second in L. Z.to_euclidean_division_equations. lia.
Qed.

(** The first of the following month at noon. *)
Lemma next_month_date loc y m :
  1 ≤ m ≤ 12 → noon_exists loc y (m + 1) 1 →
  ∃ y' m', DateOf loc (Date y (m + 1) 1 12 0 0 0 loc) = (y', m', 1) ∧
           1 ≤ m' ≤ 12 ∧ month_index y' m' = month_index y m + 1.
Proof.
  intros Hm Hn. unfold DateOf. rewrite Hn. unfold date_days, month_index.
  rewrite Z.add_simpl_r, Z.sub_diag, Z.add_0_r.
  eexists _, _. rewrite days_of_civil_inv; [split; [done|]|];
    [|apply valid_civil_true; pose proof (days_in_month_range (y + m / 12) (m mod 12 + 1))];
    Z.to_euclidean_division_equations; lia.
Qed.

Lemma DateOf_month_range loc t y m d : DateOf loc t = (y, m, d) → 1 ≤ m ≤ 12.
Proof.
  intros E. pose proof (civil_of_days_spec (local_days loc t)) as H.
  unfold DateOf in E. rewrite E in H. destruct H as [H _].
  by apply valid_civil_true in H as [? _].
Qed.

(** Day 0 of the following month is the last day of a month. *)
Lemma date_days_last year month :
  1 ≤ month ≤ 12 →
  date_days year (month + 1) 0 = days_of_civil year month (days_in_month year month).
Proof.
  intros Hm. unfold date_days. rewrite Z.add_simpl_r.
  destruct (Z.eq_dec month 12) as [->|Hne].
  - change (12 / 12) with 1. change (12 mod 12 + 1) with 1.
    unfold days_of_civil. rewrite days_before_year_succ, <- days_before_month_13.
    pose proof (days_before_month_next year 12 ltac:(lia)) as H.
    change (12 + 1) with 13 in H.
    assert (E : days_before_month (year + 1) 1 = 0)
      by (unfold days_before_month; cbn; by rewrite andb_false_r). lia.
  - rewrite Z.div_small, Z.mod_small, Z.add_0_r by lia. unfold days_of_civil.
    pose proof (days_before_month_next year month Hm). lia.
Qed.

Lemma date_days_valid year month day :
  1 ≤ month ≤ 12 → date_days year month day = days_of_civil year month day.
Proof.
  intros Hm. unfold date_days. rewrite Z.div_small, Z.mod_small by lia.
  rewrite Z.add_0_r, Z.sub_add. unfold days_of_civil. lia.
Qed.

(** ** [time.ParseInLocation(time.RFC3339, s, loc)]

    The instant does not depend on the location, since the layout carries an
    offset.  As in [time.Parse], the hour may have one digit, a fraction may
    follow the seconds, and offsets of 24 hours or 60 minutes pass. *)
Definition two_digits (s : string) : option (Z * string) :=
  match s with
  | String a (String b s') =>
      if is_digit a && is_digit b
      then Some (10 * digit_value a + digit_value b, s') else None
  | _ => None
  end.

Definition one_or_two_digits (s : string) : option (Z * string) :=
  match two_digits s with
  | Some r => Some r
  | None =>
      match s with
      | String a s' => if is_digit a then Some (digit_value a, s') else None
      | EmptyString => None
      end
  end.

Definition four_digits (s : string) : option (Z * string) :=
  '(hi, s) ← two_digits s; '(lo, s) ← two_digits s; Some (100 * hi + lo, s).

Definition expect (c : ascii) (s : string) : option string :=
  match s with
  | String d s' => if Ascii.eqb c d then Some s' else None
  | EmptyString => None
  end.

(** Digits after the separator, scaled to nanoseconds; digits past the ninth
    are dropped. *)
Fixpoint fraction_digits (s : string) (scale acc : Z) : Z * string :=
  match s with
  | String c s' =>
      if is_digit c
      then fraction_digits s' (scale / 10) (acc + digit_value c * scale)
      else (acc, s)
  | EmptyString => (acc, s)
  end.

Definition parse_fraction (s : string) : Z * string :=
  match s with
  | String sep (String c _ as s') =>
      if (Ascii.eqb sep "."%char || Ascii.eqb sep ","%char) && is_digit c
      then fraction_digits s' 100000000 0 else (0, s)
  | _ => (0, s)
  end.

Definition parse_zone (s : string) : option Z :=
  match s with
  | String "Z" EmptyString => Some 0
  | String sign s' =>
      '(hr, s') ← two_digits s';
      s' ← expect ":"%char s';
      '(mm, s') ← two_digits s';
      if (s' !=s "") || (24 <? hr) || (60 <? mm) then None
      else if Ascii.eqb sign "+"%char then Some ((hr * 60 + mm) * 60)
      else if Ascii.eqb sign "-"%char then Some (- ((hr * 60 + mm) * 60))
      else None
  | EmptyString => None
  end.

Definition parse_rfc3339 (s : string) : option time :=
  '(year, s) ← four_digits s; s ← expect "-"%char s;
  '(month, s) ← two_digits s; s ← expect "-"%char s;
  '(day, s) ← two_digits s; s ← expect "T"%char s;
  '(h, s) ← one_or_two_digits s; s ← expect ":"%char s;
  '(mi, s) ← two_digits s; s ← expect ":"%char s;
  '(sec, s) ← two_digits s;
  let '(nsec, s) := parse_fraction s in
  offset ← parse_zone s;
  if (1 <=? month) && (month <=? 12) && (h <? 24) && (mi <? 60) && (sec <? 60)
     && (1 <=? day) && (day <=? days_in_month year month)
  then Some (Date year month day h mi sec nsec UTC - offset * second)
  else None.

Example rfc3339_epoch :
  parse_rfc3339 "1970-01-01T08:00:00.5+08:00" = Some (unix_epoch * second + 500000000).
Proof. vm_compute. reflexivity. Qed.
Example rfc3339_bad_day : parse_rfc3339 "2025-02-29T00:00:00Z" = None.
Proof. vm_compute. reflexivity. Qed.
Example weekday_example : WeekdayOf UTC (Date 2024 8 30 12 0 0 0 UTC) = 5.
Proof. vm_compute. reflexivity. Qed.
