(* ===== verification/Utf8.v ===== *)
(** * UTF-8 texts and their truncation

    [utf8.DecodeRuneInString] and [strings.ToValidUTF8] of the standard library
    and [boundedNotificationError] of [internal/store/outbox.go], which cuts a
    message at a rune boundary. *)
From Stdlib Require Import ZArith Lia Ascii String.
From stdpp Require Import base list strings.
From S2P Require Import Prelude GoStrings.

Module Utf8.

Definition byte (c : ascii) : Z := Z.of_nat (nat_of_ascii c).
Definition in_range (lo hi : Z) (c : ascii) : bool := (lo <=? byte c) && (byte c <=? hi).

(** [b&0xc0 == 0x80] *)
Definition continuation (c : ascii) : bool := Z.land (byte c) 192 =? 128.

(** The second byte a three- or four-byte rune accepts. *)
Definition second_of_three (c0 c1 : ascii) : bool :=
  if byte c0 =? 224 then in_range 160 191 c1
  else if byte c0 =? 237 then in_range 128 159 c1
  else in_range 128 191 c1.
Definition second_of_four (c0 c1 : ascii) : bool :=
  if byte c0 =? 240 then in_range 144 191 c1
  else if byte c0 =? 244 then in_range 128 143 c1
  else in_range 128 191 c1.

(** The width of the first rune; zero when the text does not start with a
    valid one. *)
Definition rune_width (s : string) : nat :=
  match s with
  | String c0 (String c1 (String c2 (String c3 _))) =>
      if in_range 0 127 c0 then 1
      else if in_range 194 223 c0 && in_range 128 191 c1 then 2
      else if in_range 224 239 c0 && second_of_three c0 c1 && in_range 128 191 c2 then 3
      else if in_range 240 244 c0 && second_of_four c0 c1 && in_range 128 191 c2
              && in_range 128 191 c3 then 4
      else 0
  | String c0 (String c1 (String c2 EmptyString)) =>
      if in_range 0 127 c0 then 1
      else if in_range 194 223 c0 && in_range 128 191 c1 then 2
      else if in_range 224 239 c0 && second_of_three c0 c1 && in_range 128 191 c2 then 3
      else 0
  | String c0 (String c1 EmptyString) =>
      if in_range 0 127 c0 then 1
      else if in_range 194 223 c0 && in_range 128 191 c1 then 2
      else 0
  | String c0 EmptyString => if in_range 0 127 c0 then 1 else 0
  | EmptyString => 0
  end.

(** [s[:n]] and [s[n:]] *)
Fixpoint str_take (n : nat) (s : string) : string :=
  match n, s with
  | S n, String c s => String c (str_take n s)
  | _, _ => EmptyString
  end.
Fixpoint str_drop (n : nat) (s : string) : string :=
  match n, s with
  | S n, String _ s => str_drop n s
  | O, s => s
  | _, EmptyString => EmptyString
  end.

(** Texts made of valid runes. *)
Inductive valid_utf8 : string → Prop :=
| valid_nil : valid_utf8 ""
| valid_rune w s : rune_width s = S w → valid_utf8 (str_drop (S w) s) → valid_utf8 s.

(** U+FFFD *)
Definition replacement : string :=
  String (ascii_of_nat 239) (String (ascii_of_nat 191) (String (ascii_of_nat 189) "")).

(** The loop of [strings.ToValidUTF8]: one replacement for each run of invalid
    bytes. *)
Fixpoint to_valid (fuel : nat) (invalid : bool) (s : string) : string :=
  match fuel, s with
  | S fuel, String c rest =>
      match rune_width s with
      | O => (if invalid then "" else replacement) +:+ to_valid fuel true rest
      | w => str_take w s +:+ to_valid fuel false (str_drop w s)
      end
  | _, _ => ""
  end.

Definition ToValidUTF8 (s : string) : string := to_valid (String.length s) false s.

(** [utf8.ValidString]: nothing to repair. *)
Definition ValidString (s : string) : bool := String.eqb (ToValidUTF8 s) s.

(** A text PostgreSQL stores: valid UTF-8 without NUL. *)
Fixpoint has_nul (s : string) : bool :=
  match s with
  | EmptyString => false
  | String c rest => (byte c =? 0) || has_nul rest
  end.
Definition pg_text (s : string) : bool := ValidString s && negb (has_nul s).

Definition maxNotificationErrorBytes : nat := Z.to_nat 4096.

(** [message[i]] *)
Definition byte_at (s : string) (i : nat) : ascii := default zero (String.get i s).

(** The loop that moves the cut to the start of a rune. *)
Fixpoint cut_limit (limit : nat) (message : string) : nat :=
  match limit with
  | O => O
  | S l => if continuation (byte_at message limit) then cut_limit l message else limit
  end.

Definition boundedNotificationError (message : string) : string :=
  let message := ToValidUTF8 message in
  if Nat.leb (String.length message) maxNotificationErrorBytes then message
  else str_take (cut_limit maxNotificationErrorBytes message) message.

(** ** Runes *)

Lemma continuation_range c : continuation c = in_range 128 191 c.
Proof. destruct c as [[] [] [] [] [] [] [] []]; reflexivity. Qed.

Lemma in_range_mono lo hi lo' hi' c :
  lo' ≤ lo → hi ≤ hi' → in_range lo hi c = true → in_range lo' hi' c = true.
Proof. unfold in_range. intros ? ? ?. bool_to_prop. apply andb_true_iff. rewrite !Z.leb_le. lia. Qed.

Lemma second_of_three_cont c0 c1 : second_of_three c0 c1 = true → continuation c1 = true.
Proof.
  unfold second_of_three. rewrite continuation_range.
  repeat destruct (_ =? _); apply in_range_mono; lia.
Qed.

Lemma second_of_four_cont c0 c1 : second_of_four c0 c1 = true → continuation c1 = true.
Proof.
  unfold second_of_four. rewrite continuation_range.
  repeat destruct (_ =? _); apply in_range_mono; lia.
Qed.

Ltac rune_cases :=
  repeat match goal with
  | |- context [if ?b then _ else _] => destruct b eqn:?
  | E : _ && _ = true |- _ => apply andb_true_iff in E as [? ?]
  | E : second_of_three _ _ = true |- _ => apply second_of_three_cont in E
  | E : second_of_four _ _ = true |- _ => apply second_of_four_cont in E
  | E : in_range 128 191 _ = true |- _ => rewrite <- continuation_range in E
  end.

(** A rune is within the text, its bytes but the first are continuations. *)
Lemma rune_width_spec s w :
  rune_width s = S w →
  (S w ≤ String.length s)%nat ∧
  ∀ i, (1 ≤ i ≤ w)%nat → continuation (byte_at s i) = true.
Proof.
  destruct s as [|c0 [|c1 [|c2 [|c3 s]]]]; cbn [rune_width]; try done; rune_cases; intros [= <-];
    (split; [cbn; lia|]); intros i Hi;
    destruct i as [|[|[|[|i]]]]; try lia; assumption.
Qed.

Lemma app_cons c s t : String c s +:+ t = String c (s +:+ t).
Proof. reflexivity. Qed.
Lemma length_app_string x y : String.length (x +:+ y) = (String.length x + String.length y)%nat.
Proof. induction x as [|c x IH]; [done|]. rewrite app_cons. cbn. by rewrite IH. Qed.
Lemma app_nil t : "" +:+ t = t.
Proof. reflexivity. Qed.

(** The width only depends on the bytes of the rune. *)
Lemma rune_width_take s w t :
  rune_width s = S w → rune_width (str_take (S w) s +:+ t) = S w.
Proof.
  destruct s as [|c0 [|c1 [|c2 [|c3 s]]]]; cbn [rune_width]; try done;
    repeat (match goal with |- context [if ?b then _ else _] => destruct b eqn:? end);
    intros [= <-]; destruct t as [|? [|? [|? ?]]]; cbn [str_take];
    rewrite !app_cons, app_nil; cbn [rune_width];
    repeat (match goal with E : ?b = _ |- context [if ?b then _ else _] => rewrite E end); done.
Qed.

(** ** Substrings *)

Lemma take_drop_id n s : str_take n s +:+ str_drop n s = s.
Proof. revert s. induction n as [|n IH]; intros [|c s]; [done..|]. cbn [str_take str_drop]. by rewrite app_cons, IH. Qed.

Lemma length_str_take n s : String.length (str_take n s) = (n `min` String.length s)%nat.
Proof. revert s. induction n as [|n IH]; intros [|c s]; cbn; [done..|]. by rewrite IH. Qed.

Lemma drop_take_app n s t : (n ≤ String.length s)%nat → str_drop n (str_take n s +:+ t) = t.
Proof.
  revert s. induction n as [|n IH]; intros [|c s] Hn; cbn in Hn; try done; [lia|].
  cbn [str_take]. rewrite app_cons. apply IH. lia.
Qed.

Lemma str_take_add n m s : str_take (n + m) s = str_take n s +:+ str_take m (str_drop n s).
Proof.
  revert s. induction n as [|n IH]; intros [|c s]; [done|done|by destruct m|].
  cbn [Nat.add str_take str_drop]. by rewrite app_cons, IH.
Qed.

Lemma byte_at_drop n s i : (n ≤ String.length s)%nat → byte_at (str_drop n s) i = byte_at s (n + i).
Proof.
  revert s. induction n as [|n IH]; intros [|c s] Hn; cbn in Hn; [done|done|lia|].
  apply IH. lia.
Qed.

Lemma length_str_drop n s : String.length (str_drop n s) = (String.length s - n)%nat.
Proof. revert s. induction n as [|n IH]; intros [|c s]; cbn; [done..|]. by rewrite IH. Qed.

Lemma str_take_take n m s : (n ≤ m)%nat → str_take n (str_take m s) = str_take n s.
Proof.
  revert m s. induction n as [|n IH]; intros [|m] [|c s] Hn; try done; [lia|].
  cbn. f_equal. apply IH. lia.
Qed.

Lemma str_drop_take n m s : str_drop n (str_take m s) = str_take (m - n) (str_drop n s).
Proof.
  revert m s. induction n as [|n IH]; intros [|m] [|c s]; cbn; try done; auto.
  by destruct (m - n)%nat.
Qed.

Lemma str_app_assoc (s t u : string) : (s +:+ t) +:+ u = s +:+ (t +:+ u).
Proof. induction s as [|c s IH]; [done|]. by rewrite !app_cons, IH. Qed.

Lemma str_app_nil_r s : s +:+ "" = s.
Proof. induction s as [|c s IH]; [done|]. by rewrite app_cons, IH. Qed.

(** ** Splitting and joining *)

Lemma Split_aux_plain sep s rest cur :
  forall_char (λ c, negb (Ascii.eqb c sep)) s = true →
  Split_aux sep (s +:+ rest) cur = Split_aux sep rest (cur +:+ s).
Proof.
  revert cur. induction s as [|c s IH]; intros cur; [by rewrite str_app_nil_r|].
  cbn [forall_char]. intros [Hc Hs]%andb_true_iff. rewrite app_cons. cbn [Split_aux].
  apply negb_true_iff in Hc. rewrite Hc, IH by done. f_equal. by rewrite str_app_assoc.
Qed.

Lemma Split_Join sep parts :
  parts ≠ [] → Forall (λ s, forall_char (λ c, negb (Ascii.eqb c sep)) s = true) parts →
  Split (Join parts (char_string sep)) sep = parts.
Proof.
  intros Hne HP. unfold Split. induction HP as [|s parts Hs HP IH]; [done|].
  destruct parts as [|s' parts].
  - cbn [Join]. rewrite <- (str_app_nil_r s) at 1. by rewrite Split_aux_plain.
  - cbn [Join]. rewrite Split_aux_plain by done. unfold char_string at 1. rewrite app_cons.
    cbn [Split_aux]. rewrite Ascii.eqb_refl. f_equal. by apply IH.
Qed.

(** Text without a separator, and text before one. *)
Lemma Split_aux_single sep s cur :
  exists_char (Ascii.eqb sep) s = false → Split_aux sep s cur = [cur +:+ s].
Proof.
  revert cur. induction s as [|c s IH]; intros cur; cbn; [by rewrite str_app_nil_r|].
  destruct (Ascii.eqb_spec sep c) as [->|Hc]; [done|]. cbn. intros Hs.
  destruct (Ascii.eqb_spec c sep); [congruence|]. rewrite IH by done.
  by rewrite str_app_assoc.
Qed.

Lemma Split_aux_cut sep s t cur :
  exists_char (Ascii.eqb sep) s = false →
  Split_aux sep (s +:+ String sep t) cur = (cur +:+ s) :: Split_aux sep t "".
Proof.
  revert cur. induction s as [|c s IH]; intros cur.
  { intros _. rewrite app_nil, str_app_nil_r. cbn. by rewrite Ascii.eqb_refl. }
  rewrite app_cons. cbn [exists_char Split_aux].
  destruct (Ascii.eqb_spec sep c) as [->|Hc]; [done|]. cbn [orb]. intros Hs.
  destruct (Ascii.eqb_spec c sep); [congruence|]. rewrite IH by done. by rewrite str_app_assoc.
Qed.

Lemma valid_app s t : valid_utf8 s → valid_utf8 t → valid_utf8 (s +:+ t).
Proof.
  intros Hs Ht. induction Hs as [|w s Hw _ IH]; [done|].
  destruct (rune_width_spec s w Hw) as [Hlen _].
  rewrite <- (take_drop_id (S w) s) at 1. rewrite str_app_assoc.
  apply (valid_rune w).
  - by apply rune_width_take.
  - by rewrite drop_take_app.
Qed.

(** Cutting a valid text where no continuation byte follows keeps it valid. *)
Lemma valid_cut s k :
  valid_utf8 s → (k < String.length s)%nat → continuation (byte_at s k) = false →
  valid_utf8 (str_take k s).
Proof.
  intros Hs. revert k. induction Hs as [|w s Hw _ IH]; intros k Hk Hc; [cbn in Hk; lia|].
  destruct (rune_width_spec s w Hw) as [Hlen Hcont]. destruct k as [|k]; [constructor|].
  destruct (decide (S k ≤ w)%nat) as [Hle|Hgt]; [rewrite Hcont in Hc by lia; done|].
  replace (S k) with (S w + (k - w))%nat by lia. rewrite str_take_add.
  apply (valid_rune w); [by apply rune_width_take|]. rewrite drop_take_app by done.
  apply IH; [rewrite length_str_drop; lia|].
  rewrite byte_at_drop by done. by replace (S w + (k - w))%nat with (S k) by lia.
Qed.

(** ** Repairing and cutting *)

Lemma valid_replacement : valid_utf8 replacement.
Proof. apply (valid_rune 2); [reflexivity|constructor]. Qed.

Lemma valid_first_rune s w : rune_width s = S w → valid_utf8 (str_take (S w) s).
Proof.
  intros Hw. destruct (rune_width_spec s w Hw) as [Hlen _].
  pose proof (rune_width_take s w "" Hw) as Ht. pose proof (drop_take_app (S w) s "" Hlen) as Hd.
  rewrite str_app_nil_r in Ht, Hd. apply (valid_rune w); [done|]. rewrite Hd. constructor.
Qed.

Lemma to_valid_valid fuel invalid s : valid_utf8 (to_valid fuel invalid s).
Proof.
  revert invalid s. induction fuel as [|fuel IH]; intros invalid [|c s]; try constructor.
  cbn [to_valid]. destruct (rune_width (String c s)) as [|w] eqn:Hw; apply valid_app; auto.
  - destruct invalid; [constructor|apply valid_replacement].
  - by apply valid_first_rune.
Qed.

(** A valid text is left as it is. *)
Lemma to_valid_id fuel s :
  valid_utf8 s → (String.length s ≤ fuel)%nat → to_valid fuel false s = s.
Proof.
  intros Hs. revert fuel. induction Hs as [|w s Hw _ IH]; intros fuel Hf; [by destruct fuel|].
  destruct (rune_width_spec s w Hw) as [Hlen _].
  destruct s as [|c s]; [cbn in Hlen; lia|]. destruct fuel as [|fuel]; [cbn in Hf; lia|].
  cbn [to_valid]. rewrite Hw, IH; [apply take_drop_id|].
  rewrite length_str_drop. cbn in *. lia.
Qed.

Lemma ValidString_spec s : ValidString s = true ↔ valid_utf8 s.
Proof.
  unfold ValidString. rewrite String.eqb_eq. split.
  - intros E. rewrite <- E. apply to_valid_valid.
  - intros Hs. by apply to_valid_id.
Qed.

Lemma cut_limit_spec limit s :
  (cut_limit limit s ≤ limit)%nat ∧
  (cut_limit limit s = O ∨ continuation (byte_at s (cut_limit limit s)) = false).
Proof.
  induction limit as [|l IH]; [by split; [|left]|]. cbn [cut_limit].
  destruct (continuation (byte_at s (S l))) eqn:E; [split; [lia|tauto]|split; [lia|by right]].
Qed.

Lemma cut_limit_max limit s k :
  (k ≤ limit)%nat → continuation (byte_at s k) = false → (k ≤ cut_limit limit s)%nat.
Proof.
  induction limit as [|l IH]; intros Hk Hc; cbn [cut_limit]; [lia|].
  destruct (decide (k = S l)) as [->|]; [by rewrite Hc|].
  destruct (continuation (byte_at s (S l))); [apply IH; [lia|done]|lia].
Qed.

(** A rune has at most four bytes and does not start with a continuation. *)
Lemma rune_start s w :
  rune_width s = S w → (w ≤ 3)%nat ∧ continuation (byte_at s 0) = false.
Proof.
  destruct s as [|c0 [|c1 [|c2 [|c3 s]]]]; cbn [rune_width]; try done;
    repeat (match goal with |- context [if ?b then _ else _] => destruct b eqn:? end);
    intros [= <-]; (split; [lia|]); rewrite continuation_range; unfold byte_at, id; cbn [String.get default];
    repeat match goal with E : _ && _ = true |- _ => apply andb_true_iff in E as [? ?] end;
    apply not_true_iff_false; intros C; unfold in_range, id in *; bool_to_prop; lia.
Qed.

Lemma rune_start_near s p :
  valid_utf8 s → (p < String.length s)%nat →
  ∃ k, (k ≤ p)%nat ∧ (p - 3 ≤ k)%nat ∧ continuation (byte_at s k) = false.
Proof.
  intros Hs. revert p. induction Hs as [|w s Hw _ IH]; intros p Hp; [cbn in Hp; lia|].
  destruct (rune_width_spec s w Hw) as [Hlen _]. destruct (rune_start s w Hw) as [H3 H0].
  destruct (decide (p ≤ w)%nat) as [|Hgt]; [exists 0%nat; repeat split; [lia|lia|done]|].
  destruct (IH (p - S w)%nat) as (k & Hk1 & Hk2 & Hk3); [rewrite length_str_drop; lia|].
  exists (S w + k)%nat. rewrite byte_at_drop in Hk3 by done. repeat split; [lia|lia|done].
Qed.

Lemma cut_limit_near limit s :
  valid_utf8 s → (limit < String.length s)%nat → (limit - 3 ≤ cut_limit limit s)%nat.
Proof.
  intros Hs Hl. destruct (rune_start_near s limit Hs Hl) as (k & Hk & Hn & Hc).
  pose proof (cut_limit_max limit s k Hk Hc). lia.
Qed.

Lemma valid_bounded s limit :
  valid_utf8 s → (limit < String.length s)%nat → valid_utf8 (str_take (cut_limit limit s) s).
Proof.
  intros Hs Hl. destruct (cut_limit_spec limit s) as [Hle [->|Hc]]; [constructor|].
  apply valid_cut; [done|lia|done].
Qed.

(** Cutting inside a rune leaves an invalid text. *)
Lemma split_rune_invalid s k :
  valid_utf8 s → (k < String.length s)%nat → continuation (byte_at s k) = true →
  ¬ valid_utf8 (str_take k s).
Proof.
  intros Hs. revert k. induction Hs as [|w s Hw _ IH]; intros k Hk Hc; [cbn in Hk; lia|].
  destruct (rune_width_spec s w Hw) as [Hlen Hcont]. destruct (rune_start s w Hw) as [_ H0].
  destruct k as [|k]; [congruence|]. intros Hv. inversion Hv as [E|w' s' Hw' Hv' E].
  { destruct s; [cbn in Hk; lia|done]. }
  destruct (rune_width_spec _ _ Hw') as [Hlen' Hcont']. rewrite length_str_take in Hlen'.
  assert (Ew : w' = w).
  { pose proof (rune_width_take (str_take (S k) s) w' (str_drop (S w') s) Hw') as E1.
    rewrite str_take_take, take_drop_id in E1 by lia. congruence. }
  subst w' s'. rewrite str_drop_take in Hv'. revert Hv'.
  apply IH; [rewrite length_str_drop; lia|].
  rewrite byte_at_drop by done. by replace (S w + (S k - S w))%nat with (S k) by lia.
Qed.

(** the error text kept with a notification delivery is valid UTF-8 of at
    most 4096 bytes, whatever bytes the remote end answered; it is a prefix of the repaired message, a message that is valid
    and short is kept as it is, and of a longer one at most the three bytes of
    an incomplete rune below the limit are given up. *)
Theorem bounded_error_is_valid (message : string) :
  let kept := boundedNotificationError message in
  valid_utf8 kept ∧
  (String.length kept ≤ maxNotificationErrorBytes)%nat ∧
  (∃ rest, ToValidUTF8 message = kept +:+ rest) ∧
  (valid_utf8 message → (String.length message ≤ maxNotificationErrorBytes)%nat → kept = message) ∧
  ((maxNotificationErrorBytes < String.length (ToValidUTF8 message))%nat →
   (maxNotificationErrorBytes - 3 ≤ String.length kept)%nat).
Proof.
  assert (Hv : valid_utf8 (ToValidUTF8 message)) by apply to_valid_valid.
  assert (Hid : valid_utf8 message → ToValidUTF8 message = message)
    by (intros; by apply to_valid_id).
  intros kept. unfold kept, boundedNotificationError.
  destruct (Nat.leb_spec (String.length (ToValidUTF8 message)) maxNotificationErrorBytes) as [Hl|Hl].
  { repeat split; [done|done|exists ""; by rewrite str_app_nil_r|auto|lia]. }
  set (m := ToValidUTF8 message) in *. set (n := maxNotificationErrorBytes) in *.
  destruct (cut_limit_spec n m) as [Hle _]. pose proof (cut_limit_near n m Hv Hl) as Hn.
  rewrite length_str_take, Nat.min_l by lia.
  repeat split; [by apply valid_bounded|done| | |done].
  - exists (str_drop (cut_limit n m) m). by rewrite take_drop_id.
  - intros Hm Hs. rewrite Hid in Hl by done. lia.
Qed.

(** ** Repetitions *)

Fixpoint repeated (n : nat) (c : ascii) : string :=
  match n with O => "" | S n => String c (repeated n c) end.

Lemma valid_repeated n t : valid_utf8 t → valid_utf8 (repeated n "a" +:+ t).
Proof.
  intros Ht. induction n as [|n IH]; [done|]. cbn [repeated]. rewrite app_cons.
  apply (valid_rune 0); [|done]. by destruct (repeated n "a" +:+ t) as [|? [|? [|? ?]]].
Qed.

Lemma length_repeated n c t : String.length (repeated n c +:+ t) = (n + String.length t)%nat.
Proof. induction n as [|n IH]; [done|]. cbn [repeated]. rewrite app_cons. cbn. by rewrite IH. Qed.

Lemma byte_repeated n c t k : byte_at (repeated n c +:+ t) (n + k) = byte_at t k.
Proof. induction n as [|n IH]; [done|]. cbn [repeated Nat.add]. rewrite app_cons. apply IH. Qed.

Lemma rune_width_ascii c s : in_range 0 127 c = true → rune_width (String c s) = 1%nat.
Proof. intros Hc. destruct s as [|? [|? [|? ?]]]; cbn [rune_width]; by rewrite Hc. Qed.

(** [strings.TrimPrefix] *)
Definition TrimPrefix (s prefix : string) : string :=
  if HasPrefix s prefix then str_drop (String.length prefix) s else s.
End Utf8.
