(* ===== verification/TimeFormat.v ===== *)
(** * Printing times

    [Time.Format] with [time.DateOnly] and [time.RFC3339Nano] in UTC, and
    [time.ParseInLocation] with [time.DateOnly]. *)
From Stdlib Require Import ZArith Lia Ascii String.
From stdpp Require Import base list strings option.
From S2P Require Import Prelude GoStrings GoTime Utf8.

Module TimeFormat.
Import Utf8.

Definition digit_char (d : Z) : ascii := ascii_of_nat (48 + Z.to_nat d).
Definition pad2 (n : Z) (rest : string) : string :=
  String (digit_char (n / 10)) (String (digit_char (n mod 10)) rest).
Definition pad4 (n : Z) (rest : string) : string := pad2 (n / 100) (pad2 (n mod 100) rest).

(** The digits of a fraction of a second, without trailing zeros. *)
Fixpoint fraction_text (digits : nat) (scale n : Z) (rest : string) : string :=
  match digits with
  | O => rest
  | S digits =>
      if n =? 0 then rest
      else String (digit_char (n / scale)) (fraction_text digits (scale / 10) (n mod scale) rest)
  end.

(** For years 0 to 9999. *)
Definition FormatDateOnly (days : Z) : string :=
  let '(y, m, d) := civil_of_days days in
  pad4 y (String "-" (pad2 m (String "-" (pad2 d "")))).

Definition FormatRFC3339Nano (t : time) : string :=
  let '(y, m, d) := DateOf UTC t in
  let s := seconds_of t mod 86400 in
  let nsec := t mod second in
  pad4 y (String "-" (pad2 m (String "-" (pad2 d (String "T"
    (pad2 (s / 3600) (String ":" (pad2 (s / 60 mod 60) (String ":" (pad2 (s mod 60)
      (if nsec =? 0 then "Z" else String "." (fraction_text 9 100000000 nsec "Z")))))))))))).

Definition ParseDateOnly (s : string) (loc : Location) : option time :=
  '(year, s) ← four_digits s; s ← expect "-"%char s;
  '(month, s) ← two_digits s; s ← expect "-"%char s;
  '(day, s) ← two_digits s;
  if (s ==s "") && (1 <=? month) && (month <=? 12) && (1 <=? day) && (day <=? days_in_month year month)
  then Some (Date year month day 0 0 0 0 loc) else None.

(** ** Reading what was printed *)

Lemma digit_char_spec d :
  0 ≤ d < 10 → is_digit (digit_char d) = true ∧ digit_value (digit_char d) = d.
Proof.
  intros Hd. assert (E : d = 0 ∨ d = 1 ∨ d = 2 ∨ d = 3 ∨ d = 4 ∨ d = 5 ∨ d = 6 ∨ d = 7 ∨ d = 8 ∨ d = 9) by lia.
  by destruct E as [->|[->|[->|[->|[->|[->|[->|[->|[->| ->]]]]]]]]].
Qed.

Lemma two_digits_pad2 n rest : 0 ≤ n < 100 → two_digits (pad2 n rest) = Some (n, rest).
Proof.
  intros Hn. unfold two_digits, pad2.
  pose proof (Z.mod_pos_bound n 10 ltac:(lia)) as Hm.
  assert (Hq : 0 ≤ n / 10 < 10) by (split; [apply Z.div_pos; lia|apply Z.div_lt_upper_bound; lia]).
  destruct (digit_char_spec _ Hm) as [-> ->], (digit_char_spec _ Hq) as [-> ->]. cbn.
  do 2 f_equal. rewrite (Z.div_mod n 10) at 3 by lia. done.
Qed.

Lemma four_digits_pad4 n rest : 0 ≤ n < 10000 → four_digits (pad4 n rest) = Some (n, rest).
Proof.
  intros Hn. unfold four_digits, pad4.
  assert (Hq : 0 ≤ n / 100 < 100) by (split; [apply Z.div_pos; lia|apply Z.div_lt_upper_bound; lia]).
  rewrite two_digits_pad2 by done. cbn [mbind option_bind].
  rewrite two_digits_pad2 by (apply Z.mod_pos_bound; lia). cbn [mbind option_bind].
  do 2 f_equal. rewrite (Z.div_mod n 100) at 3 by lia. lia.
Qed.

Lemma fraction_digits_text digits n acc :
  0 ≤ n < 10 ^ Z.of_nat digits →
  fraction_digits (fraction_text digits (10 ^ (Z.of_nat digits - 1)) n "Z") (10 ^ (Z.of_nat digits - 1)) acc
    = (acc + n, "Z").
Proof.
  revert n acc. induction digits as [|k IH]; intros n acc Hn.
  { cbn in *. f_equal. lia. }
  cbn [fraction_text]. destruct (Z.eqb_spec n 0) as [->|Hz].
  { cbn [fraction_digits]. change (is_digit "Z") with false. f_equal. lia. }
  replace (Z.of_nat (S k) - 1) with (Z.of_nat k) by lia.
  set (scale := 10 ^ Z.of_nat k) in *. assert (Hs : 0 < scale) by (apply Z.pow_pos_nonneg; lia).
  assert (Hn' : 0 ≤ n < 10 * scale).
  { rewrite Nat2Z.inj_succ, Z.pow_succ_r in Hn by lia. done. }
  assert (Hq : 0 ≤ n / scale < 10) by (split; [apply Z.div_pos; lia|apply Z.div_lt_upper_bound; lia]).
  cbn [fraction_digits]. destruct (digit_char_spec _ Hq) as [-> ->].
  pose proof (Z.mod_pos_bound n scale Hs) as Hm.
  assert (E : acc + n / scale * scale + n mod scale = acc + n).
  { rewrite (Z.div_mod n scale) at 3 by lia. lia. }
  destruct k as [|k].
  - change scale with 1 in *. cbn [fraction_text]. cbn [fraction_digits]. change (is_digit "Z") with false.
    f_equal. rewrite Z.mod_1_r in E. lia.
  - replace (scale / 10) with (10 ^ (Z.of_nat (S k) - 1)).
    + rewrite IH by done. by rewrite E.
    + unfold scale. replace (Z.of_nat (S k)) with (Z.succ (Z.of_nat (S k) - 1)) at 2 by lia.
      rewrite Z.pow_succ_r by lia. rewrite Z.mul_comm, Z.div_mul by lia. done.
Qed.

Lemma parse_fraction_text n :
  0 ≤ n < second →
  parse_fraction (if n =? 0 then "Z" else String "." (fraction_text 9 100000000 n "Z")) = (n, "Z").
Proof.
  intros Hn. destruct (Z.eqb_spec n 0) as [->|Hz]; [done|].
  pose proof (fraction_digits_text 9 n 0 Hn) as Hf.
  change (10 ^ (Z.of_nat 9 - 1)) with 100000000 in Hf. rewrite Z.add_0_l in Hf.
  assert (Hq : 0 ≤ n / 100000000 < 10).
  { split; [apply Z.div_pos; lia|apply Z.div_lt_upper_bound; unfold second in Hn; lia]. }
  assert (E : ∃ c s, fraction_text 9 100000000 n "Z" = String c s ∧ is_digit c = true).
  { cbn [fraction_text]. destruct (Z.eqb_spec n 0); [done|]. do 2 eexists. split; [done|].
    by apply digit_char_spec. }
  destruct E as (c & s & E & Hc). rewrite E in *. cbn [parse_fraction]. rewrite Hc. exact Hf.
Qed.

(** A time of the years 0 to 9999 is read back as it was. *)
Lemma parse_format t :
  0 ≤ (DateOf UTC t).1.1 < 10000 → parse_rfc3339 (FormatRFC3339Nano t) = Some t.
Proof.
  unfold FormatRFC3339Nano, DateOf.
  assert (El : local_days UTC t = seconds_of t / 86400).
  { unfold local_days. cbn. by rewrite Z.add_0_r. }
  pose proof (civil_of_days_spec (local_days UTC t)) as Hc.
  destruct (civil_of_days (local_days UTC t)) as [[y m] d]. cbn [fst]. intros Hy.
  destruct Hc as [Hv Hd]. pose proof Hv as Hv'. apply valid_civil_true in Hv'.
  set (s := seconds_of t mod 86400). assert (Hs : 0 ≤ s < 86400) by (apply Z.mod_pos_bound; lia).
  assert (Hh : 0 ≤ s / 3600 < 24) by (split; [apply Z.div_pos; lia|apply Z.div_lt_upper_bound; lia]).
  assert (Hmi : 0 ≤ s / 60 mod 60 < 60) by (apply Z.mod_pos_bound; lia).
  assert (Hse : 0 ≤ s mod 60 < 60) by (apply Z.mod_pos_bound; lia).
  pose proof (days_in_month_range y m).
  unfold parse_rfc3339. rewrite four_digits_pad4 by done. cbn [mbind option_bind expect Ascii.eqb Bool.eqb].
  rewrite two_digits_pad2 by lia. cbn [mbind option_bind expect Ascii.eqb Bool.eqb].
  rewrite two_digits_pad2 by lia. cbn [mbind option_bind expect Ascii.eqb Bool.eqb].
  unfold one_or_two_digits. rewrite two_digits_pad2 by lia. cbn [mbind option_bind expect Ascii.eqb Bool.eqb].
  rewrite two_digits_pad2 by lia. cbn [mbind option_bind expect Ascii.eqb Bool.eqb].
  rewrite two_digits_pad2 by lia. cbn [mbind option_bind expect Ascii.eqb Bool.eqb].
  rewrite parse_fraction_text by (apply Z.mod_pos_bound; done). cbn [mbind option_bind parse_zone].
  assert (Hb : (1 <=? m) && (m <=? 12) && (s / 3600 <? 24) && (s / 60 mod 60 <? 60) && (s mod 60 <? 60)
               && (1 <=? d) && (d <=? days_in_month y m) = true) by (bool_to_prop; lia).
  rewrite Hb. f_equal. unfold Date. rewrite date_days_valid by apply Hv'. rewrite Hd, El.
  assert (Ed : s / 3600 * 3600 + s / 60 mod 60 * 60 + s mod 60 = s).
  { rewrite (Z.div_mod s 60) at 4 by lia. rewrite (Z.div_mod (s / 60) 60) at 2 by lia.
    rewrite Z.div_div by lia. change (60 * 60) with 3600. lia. }
  assert (Et : seconds_of t = seconds_of t / 86400 * 86400 + s).
  { unfold s. rewrite (Z.div_mod (seconds_of t) 86400) at 1 by lia. lia. }
  change (zone_lookup UTC _) with (0, int64_min, int64_max). cbn [Z.eqb].
  pose proof (Z.div_mod t second ltac:(done)) as E2. fold (seconds_of t) in E2.
  set (q := seconds_of t / 86400) in *. set (n := t mod second) in *. clearbody q n.
  rewrite Et in E2. unfold second in *. lia.
Qed.
End TimeFormat.
