(* ===== verification/Base64.v ===== *)
(** * Base64

    [base64.StdEncoding], [base64.RawStdEncoding] and [base64.RawURLEncoding] of
    the standard library: the digits of three bytes at a time, with or without
    padding at the end. *)
From Stdlib Require Import ZArith Lia Ascii String.
From stdpp Require Import base list strings option.
From S2P Require Import Prelude GoStrings Utf8.

Module Base64.
Import Utf8.

Definition std_alphabet : string :=
  "ABCDEFGHIJKLMNOPQRSTUVWXYZabcdefghijklmnopqrstuvwxyz0123456789+/".
Definition url_alphabet : string :=
  "ABCDEFGHIJKLMNOPQRSTUVWXYZabcdefghijklmnopqrstuvwxyz0123456789-_".

Fixpoint digit_of (alphabet : string) (c : ascii) (n : Z) : option Z :=
  match alphabet with
  | EmptyString => None
  | String d rest => if Ascii.eqb c d then Some n else digit_of rest c (n + 1)
  end.

Definition octet (z : Z) : ascii := ascii_of_nat (Z.to_nat (Z.land z 255)).

(** The digits four by four; padding ends the text. *)
Fixpoint decode_quads (alphabet : string) (l : list ascii) : option string :=
  match l with
  | [] => Some ""
  | a :: b :: c :: d :: rest =>
      x ← digit_of alphabet a 0;
      y ← digit_of alphabet b 0;
      let v := Z.lor (Z.shiftl x 18) (Z.shiftl y 12) in
      if Ascii.eqb c "=" then
        match rest with
        | [] => if Ascii.eqb d "=" then Some (char_string (octet (Z.shiftr v 16))) else None
        | _ => None
        end
      else
        z ← digit_of alphabet c 0;
        let v := Z.lor v (Z.shiftl z 6) in
        if Ascii.eqb d "=" then
          match rest with
          | [] => Some (String (octet (Z.shiftr v 16)) (char_string (octet (Z.shiftr v 8))))
          | _ => None
          end
        else
          w ← digit_of alphabet d 0;
          let v := Z.lor v w in
          tail ← decode_quads alphabet rest;
          Some (String (octet (Z.shiftr v 16))
                 (String (octet (Z.shiftr v 8)) (String (octet v) tail)))
  | _ => None
  end.

(** [base64.StdEncoding.DecodeString]: line ends are skipped. *)
Definition newline (c : ascii) : bool := nat_in 10 10 c || nat_in 13 13 c.
Definition DecodeString (s : string) : option string :=
  decode_quads std_alphabet (List.filter (λ c, negb (newline c)) (list_ascii_of_string s)).


(** Without padding the last group has two or three digits. *)
Fixpoint decode_raw (alphabet : string) (l : list ascii) : option string :=
  match l with
  | [] => Some ""
  | [a; b] =>
      x ← digit_of alphabet a 0;
      y ← digit_of alphabet b 0;
      let v := Z.lor (Z.shiftl x 18) (Z.shiftl y 12) in
      Some (char_string (octet (Z.shiftr v 16)))
  | [a; b; c] =>
      x ← digit_of alphabet a 0;
      y ← digit_of alphabet b 0;
      z ← digit_of alphabet c 0;
      let v := Z.lor (Z.lor (Z.shiftl x 18) (Z.shiftl y 12)) (Z.shiftl z 6) in
      Some (String (octet (Z.shiftr v 16)) (char_string (octet (Z.shiftr v 8))))
  | a :: b :: c :: d :: rest =>
      x ← digit_of alphabet a 0;
      y ← digit_of alphabet b 0;
      z ← digit_of alphabet c 0;
      w ← digit_of alphabet d 0;
      let v := Z.lor (Z.lor (Z.lor (Z.shiftl x 18) (Z.shiftl y 12)) (Z.shiftl z 6)) w in
      tail ← decode_raw alphabet rest;
      Some (String (octet (Z.shiftr v 16))
             (String (octet (Z.shiftr v 8)) (String (octet v) tail)))
  | _ => None
  end.

Definition DecodeRaw (alphabet s : string) : option string :=
  decode_raw alphabet (List.filter (λ c, negb (newline c)) (list_ascii_of_string s)).

Section encode.
Context (alphabet padding : string).

Definition digit (v : Z) : ascii :=
  default "A"%char (String.get (Z.to_nat (Z.land v 63)) alphabet).

(** [padding] is one padding character, or empty. *)
Fixpoint encode_triples (l : list ascii) : string :=
  match l with
  | [] => ""
  | [a] => let v := Z.shiftl (byte a) 16 in
           String (digit (Z.shiftr v 18)) (String (digit (Z.shiftr v 12)) (padding +:+ padding))
  | [a; b] =>
      let v := Z.lor (Z.shiftl (byte a) 16) (Z.shiftl (byte b) 8) in
      String (digit (Z.shiftr v 18)) (String (digit (Z.shiftr v 12))
        (String (digit (Z.shiftr v 6)) padding))
  | a :: b :: c :: rest =>
      let v := Z.lor (Z.lor (Z.shiftl (byte a) 16) (Z.shiftl (byte b) 8)) (byte c) in
      String (digit (Z.shiftr v 18)) (String (digit (Z.shiftr v 12))
        (String (digit (Z.shiftr v 6)) (String (digit v) (encode_triples rest))))
  end.
End encode.

(** [RawURLEncoding], [RawStdEncoding] and [StdEncoding] *)
Definition EncodeToString (s : string) : string :=
  encode_triples url_alphabet "" (list_ascii_of_string s).
Definition EncodeRawStd (s : string) : string :=
  encode_triples std_alphabet "" (list_ascii_of_string s).
Definition EncodeStd (s : string) : string :=
  encode_triples std_alphabet "=" (list_ascii_of_string s).

(** ** Round trip *)

(** An alphabet has a digit for each of 64 values, and no line ends. *)
Definition usable (alphabet : string) : bool :=
  forallb (λ n, bool_decide (digit_of alphabet (digit alphabet (Z.of_nat n)) 0 = Some (Z.of_nat n))
                && negb (newline (digit alphabet (Z.of_nat n)))) (seq 0 64).

Lemma std_usable : usable std_alphabet = true.
Proof. vm_compute. reflexivity. Qed.
Lemma url_usable : usable url_alphabet = true.
Proof. vm_compute. reflexivity. Qed.

Lemma land_63 v : Z.land v 63 = v mod 64.
Proof. change 63 with (Z.ones 6). by rewrite Z.land_ones. Qed.

Lemma lor_add x y n : 0 ≤ n → 0 ≤ y < 2 ^ n → Z.lor (Z.shiftl x n) y = x * 2 ^ n + y.
Proof.
  intros Hn Hy. assert (Z.land (Z.shiftl x n) y = 0) as Hl.
  { apply Z.bits_inj'. intros k Hk. rewrite Z.land_spec, Z.bits_0.
    destruct (Z.ltb_spec k n) as [Hkn|Hkn]; [by rewrite Z.shiftl_spec_low|].
    rewrite andb_false_iff. right. destruct (decide (y = 0)) as [->|Hy0]; [apply Z.bits_0|].
    apply Z.bits_above_log2; [lia|]. apply Z.log2_lt_pow2; [lia|].
    eapply Z.lt_le_trans; [apply Hy|]. apply Z.pow_le_mono_r; lia. }
  rewrite <- Z.lxor_lor, <- Z.add_nocarry_lxor by done. by rewrite Z.shiftl_mul_pow2.
Qed.

Lemma byte_bounds c : 0 ≤ byte c < 256.
Proof. unfold byte. pose proof (nat_ascii_bounded c). lia. Qed.

Lemma octet_byte z c : z mod 256 = byte c → octet z = c.
Proof.
  intros E. unfold octet. change 255 with (Z.ones 8). rewrite Z.land_ones by done.
  change (2 ^ 8) with 256. rewrite E. unfold byte. rewrite Nat2Z.id. apply ascii_nat_embedding.
Qed.

Section round_trip.
Context (alphabet : string) (Hu : usable alphabet = true).

Lemma digit_spec v :
  digit_of alphabet (digit alphabet v) 0 = Some (v mod 64) ∧ newline (digit alphabet v) = false.
Proof.
  unfold usable in Hu. rewrite forallb_forall in Hu.
  assert (digit alphabet v = digit alphabet (Z.of_nat (Z.to_nat (v mod 64)))) as ->.
  { unfold digit. rewrite !land_63, Z2Nat.id by (apply Z.mod_pos_bound; lia). by rewrite Z.mod_mod. }
  pose proof (Z.mod_pos_bound v 64 ltac:(lia)) as Hm.
  specialize (Hu (Z.to_nat (v mod 64))). rewrite in_seq in Hu.
  specialize (Hu ltac:(lia)). apply andb_true_iff in Hu as [Hd Hn].
  apply bool_decide_eq_true in Hd. apply negb_true_iff in Hn. rewrite Hd, Z2Nat.id by lia. split; [done|]. by rewrite Z2Nat.id in Hn by lia.
Qed.
Lemma digit_of_digit v : digit_of alphabet (digit alphabet v) 0 = Some (v mod 64).
Proof. apply digit_spec. Qed.

(** The value of four digits. *)
Lemma four_digits v w x y :
  Z.lor (Z.lor (Z.lor (Z.shiftl (v mod 64) 18) (Z.shiftl (w mod 64) 12)) (Z.shiftl (x mod 64) 6))
    (y mod 64) = v mod 64 * 262144 + w mod 64 * 4096 + x mod 64 * 64 + y mod 64.
Proof.
  pose proof (Z.mod_pos_bound v 64). pose proof (Z.mod_pos_bound w 64).
  pose proof (Z.mod_pos_bound x 64). pose proof (Z.mod_pos_bound y 64).
  rewrite <- !Z.lor_assoc, (lor_add (x mod 64)), (Z.shiftl_mul_pow2 (w mod 64)) by lia.
  rewrite <- (Z.shiftl_mul_pow2 (w mod 64)) by lia.
  rewrite (lor_add (w mod 64)), lor_add by lia. lia.
Qed.
Lemma two_digits v w :
  Z.lor (Z.shiftl (v mod 64) 18) (Z.shiftl (w mod 64) 12) = v mod 64 * 262144 + w mod 64 * 4096.
Proof.
  pose proof (Z.mod_pos_bound w 64). rewrite (Z.shiftl_mul_pow2 (w mod 64)), lor_add by lia. lia.
Qed.
Lemma three_digits v w x :
  Z.lor (Z.lor (Z.shiftl (v mod 64) 18) (Z.shiftl (w mod 64) 12)) (Z.shiftl (x mod 64) 6) =
  v mod 64 * 262144 + w mod 64 * 4096 + x mod 64 * 64.
Proof.
  pose proof (four_digits v w x 0) as E. change (0 mod 64) with 0 in E.
  rewrite Z.lor_0_r in E. lia.
Qed.

(** The value of three bytes. *)
Lemma three_bytes a b c :
  Z.lor (Z.lor (Z.shiftl (byte a) 16) (Z.shiftl (byte b) 8)) (byte c) =
  byte a * 65536 + byte b * 256 + byte c.
Proof.
  pose proof (byte_bounds a). pose proof (byte_bounds b). pose proof (byte_bounds c).
  rewrite <- Z.lor_assoc, (lor_add (byte b)), lor_add by lia. lia.
Qed.
Lemma two_bytes a b :
  Z.lor (Z.shiftl (byte a) 16) (Z.shiftl (byte b) 8) = byte a * 65536 + byte b * 256.
Proof.
  pose proof (byte_bounds b). rewrite (Z.shiftl_mul_pow2 (byte b)), lor_add by lia. lia.
Qed.

Lemma no_newlines l :
  List.filter (λ c, negb (newline c)) (list_ascii_of_string (encode_triples alphabet "" l)) =
  list_ascii_of_string (encode_triples alphabet "" l).
Proof.
  assert (∀ n l, (length l ≤ n)%nat →
    forallb (λ c, negb (newline c)) (list_ascii_of_string (encode_triples alphabet "" l)) = true) as Hf.
  { clear l. induction n as [|n IH]; intros [|a [|b [|c l]]] Hl; try done; try (cbn in Hl; lia);
      cbn; rewrite !(proj2 (digit_spec _)); cbn; try done. apply IH. cbn in Hl. lia. }
  specialize (Hf (length l) l (le_n _)). revert Hf. generalize (list_ascii_of_string (encode_triples alphabet "" l)).
  induction l0 as [|c l0 IH]; cbn; [done|]. intros [-> Hl]%andb_true_iff. by rewrite IH.
Qed.

Ltac octet_of := apply octet_byte; rewrite ?Z.shiftr_div_pow2 by lia;
  Z.to_euclidean_division_equations; lia.

(** Decoding undoes encoding. *)
Lemma decode_encode_raw s :
  DecodeRaw alphabet (encode_triples alphabet "" (list_ascii_of_string s)) = Some s.
Proof.
  unfold DecodeRaw. rewrite no_newlines. rewrite <- (string_of_list_ascii_of_string s) at 2.
  generalize (list_ascii_of_string s). clear s. intros l. remember (length l) as n eqn:Hl.
  apply eq_sym, Nat.eq_le_incl in Hl. revert l Hl.
  induction n as [|n IH]; intros [|a [|b [|c l]]] Hl; try done; try (cbn in Hl; lia).
  - pose proof (byte_bounds a). cbn. change ("" +:+ "") with "". cbn.
    rewrite !digit_of_digit. cbn. rewrite two_digits, Z.shiftl_mul_pow2 by lia.
    unfold char_string. do 2 f_equal. octet_of.
  - pose proof (byte_bounds a). pose proof (byte_bounds b). cbn. rewrite !digit_of_digit. cbn.
    rewrite three_digits, two_bytes. unfold char_string. f_equal. f_equal; [octet_of|f_equal; octet_of].
  - pose proof (byte_bounds a). pose proof (byte_bounds b). pose proof (byte_bounds c).
    cbn. rewrite !digit_of_digit. cbn. rewrite IH by (cbn in Hl; lia). cbn.
    rewrite four_digits, three_bytes.
    f_equal. f_equal; [octet_of|f_equal; [octet_of|f_equal; octet_of]].
Qed.
End round_trip.
End Base64.
