(* ===== verification/GoNet.v ===== *)
(** * Addresses and headers

    [net.SplitHostPort], [hex.EncodeToString] and the canonical form of header
    names of the standard library. *)
From Stdlib Require Import ZArith Lia Ascii String.
From stdpp Require Import base option list strings.
From S2P Require Import Prelude GoStrings GoUrl Utf8.

Module GoNet.
Import GoUrl Utf8.

(** ** [net.SplitHostPort] *)

Definition bracketed (host port rest : string) : option (string * string) :=
  if ContainsChar rest "[" || ContainsChar port "]" || ContainsChar port "[" then None
  else Some (host, port).

(** A literal in brackets must be followed by the last colon; otherwise there is
    one colon only, and no bracket. *)
Definition SplitHostPort (hostport : string) : option (string * string) :=
  match hostport with
  | String "[" inner =>
      match Cut inner "]" with
      | (_, None) => None
      | (host, Some tail) =>
          match tail with
          | String ":" port => if ContainsChar port ":" then None else bracketed host port host
          | _ => None
          end
      end
  | _ =>
      match CutLast hostport ":" with
      | None => None
      | Some (host, port) =>
          if ContainsChar host ":" || ContainsChar hostport "[" || ContainsChar hostport "]"
          then None else Some (host, port)
      end
  end.

(** ** [hex.EncodeToString] *)

Definition hex_char (n : Z) : ascii :=
  default "0"%char (String.get (Z.to_nat n) "0123456789abcdef").
Fixpoint hex_encode (s : string) : string :=
  match s with
  | EmptyString => ""
  | String c s =>
      String (hex_char (byte c / 16)) (String (hex_char (byte c mod 16)) (hex_encode s))
  end.

(** ** [http.CanonicalHeaderKey] *)

(** The characters of a token (RFC 9110). *)
Definition token_char (c : ascii) : bool :=
  nat_in 48 57 c || nat_in 65 90 c || nat_in 97 122 c || ContainsChar "!#$%&'*+-.^_`|~" c.

Fixpoint canonical (upper : bool) (s : string) : string :=
  match s with
  | EmptyString => ""
  | String c s =>
      String (if upper then upper_char c else lower_char c) (canonical (Ascii.eqb c "-") s)
  end.
Definition CanonicalHeaderKey (s : string) : string :=
  if forall_char token_char s then canonical true s else s.

(** [Header.Set], with the canonical names as keys. *)
Definition Header : Type := list (string * string).
Definition header_set (h : Header) (key value : string) : Header :=
  List.filter (λ kv, kv.1 !=s CanonicalHeaderKey key) h ++ [(CanonicalHeaderKey key, value)].
Definition header_get (h : Header) (key : string) : string :=
  match List.filter (λ kv, kv.1 ==s CanonicalHeaderKey key) h with
  | [] => ""
  | kv :: _ => kv.2
  end.

Lemma header_get_set h key value : header_get (header_set h key value) key = value.
Proof.
  unfold header_get, header_set. rewrite List.filter_app. cbn. rewrite String.eqb_refl.
  replace (List.filter _ (List.filter _ h)) with (@nil (string * string)); [done|].
  induction h as [|kv h IH]; cbn; [done|]. destruct (kv.1 ==s _) eqn:E; cbn; [done|by rewrite E].
Qed.

Lemma header_get_other h key key' value :
  CanonicalHeaderKey key ≠ CanonicalHeaderKey key' →
  header_get (header_set h key value) key' = header_get h key'.
Proof.
  intros Hk. unfold header_get, header_set. rewrite List.filter_app. cbn.
  destruct (CanonicalHeaderKey key ==s CanonicalHeaderKey key') eqn:E; bool_to_prop; [done|].
  rewrite app_nil_r. replace (List.filter _ (List.filter _ h)) with
    (List.filter (λ kv, kv.1 ==s CanonicalHeaderKey key') h); [done|].
  induction h as [|kv h IH]; cbn; [done|].
  destruct (kv.1 ==s CanonicalHeaderKey key) eqn:E1; cbn; bool_to_prop.
  - destruct (kv.1 ==s CanonicalHeaderKey key') eqn:E2; bool_to_prop; [congruence|done].
  - destruct (kv.1 ==s CanonicalHeaderKey key') eqn:E2; by rewrite IH.
Qed.

Example split_examples :
  SplitHostPort "192.0.2.1:80" = Some ("192.0.2.1", "80") ∧
  SplitHostPort "[::1]:80" = Some ("::1", "80") ∧ SplitHostPort "host" = None ∧
  SplitHostPort "::1:80" = None ∧ SplitHostPort "[::1]" = None ∧
  CanonicalHeaderKey "idempotency-KEY" = "Idempotency-Key".
Proof. vm_compute. by split_and!. Qed.
End GoNet.

(** * Slash-separated paths

    [path.Clean] and [path.Join] of the standard library. *)

Module GoPath.
Import Utf8.

(** One more element after those of the stack, innermost first. *)
Definition push (rooted : bool) (stack : list string) (element : string) : list string :=
  if (element ==s "") || (element ==s ".") then stack
  else if element ==s ".." then
    match stack with
    | [] => if rooted then [] else [".."]
    | top :: rest => if top ==s ".." then ".." :: stack else rest
    end
  else element :: stack.

Definition rooted (p : string) : bool := HasPrefix p "/".
Definition elements (p : string) : list string := rev (foldl (push (rooted p)) [] (Split p "/")).

Definition Clean (p : string) : string :=
  let out := (if rooted p then "/" else "") +:+ Join (elements p) "/" in
  if out ==s "" then "." else out.

Fixpoint drop_empty (l : list string) : list string :=
  match l with
  | [] => []
  | e :: rest => if e ==s "" then drop_empty rest else l
  end.
Definition path_Join (l : list string) : string :=
  match drop_empty l with
  | [] => ""
  | l => Clean (Join l "/")
  end.

Example clean_examples :
  Clean "" = "." ∧ Clean "/" = "/" ∧ Clean "a//b/./c/.." = "a/b" ∧ Clean "/../a" = "/a" ∧
  Clean "../../a" = "../../a" ∧ path_Join ["/x/"; "a"; ".."; "b"] = "/x/b" ∧ path_Join [""; ""] = "".
Proof. by vm_compute. Qed.

(** ** Plain elements *)

(** An element that stays as it is. *)
Definition plain (e : string) : bool :=
  (e !=s "") && (e !=s ".") && (e !=s "..") && negb (ContainsChar e "/").

Lemma push_plain r stack e : plain e = true → push r stack e = e :: stack.
Proof.
  unfold plain, push. intros Hp. bool_to_prop.
  by rewrite !(proj2 (String.eqb_neq _ _)).
Qed.

Lemma push_all r stack l : Forall (λ e, plain e = true) l → foldl (push r) stack l = rev l ++ stack.
Proof.
  intros Hl. revert stack. induction Hl as [|e l He _ IH]; intros stack; [done|].
  cbn [foldl rev]. rewrite push_plain, IH, <- app_assoc by done. done.
Qed.

Lemma plain_no_slash e : plain e = true → forall_char (λ c, negb (Ascii.eqb c "/")) e = true.
Proof.
  unfold plain, ContainsChar. intros [_ He%negb_true_iff]%andb_true_iff. revert He.
  induction e as [|c e IH]; cbn [exists_char forall_char]; [done|]. intros [Hc He]%orb_false_iff.
  rewrite Ascii.eqb_sym, Hc. by apply IH.
Qed.

(** The elements of a path made of plain ones. *)
Lemma elements_relative l :
  l ≠ [] → Forall (λ e, plain e = true) l → elements (Join l "/") = l ∧ rooted (Join l "/") = false.
Proof.
  intros Hn Hl. assert (Hr : rooted (Join l "/") = false).
  { destruct Hl as [|e l He Hl]; [done|]. unfold plain in He. destruct e as [|c e]; [done|].
    assert (Hc : Ascii.eqb c "/" = false).
    { apply andb_true_iff in He as [_ He%negb_true_iff]. unfold ContainsChar in He. cbn [exists_char] in He.
      apply orb_false_iff in He as [He _]. by rewrite Ascii.eqb_sym. }
    unfold rooted. destruct l; cbn [Join]; rewrite ?app_cons; cbn [HasPrefix]; by rewrite Ascii.eqb_sym, Hc. }
  split; [|done]. unfold elements. rewrite Hr. change "/" with (char_string "/") at 1.
  rewrite Split_Join; [|done|]. 2:{ eapply Forall_impl; [exact Hl|]. apply plain_no_slash. }
  rewrite push_all by done. by rewrite app_nil_r, rev_involutive.
Qed.
Lemma rooted_slash s : rooted ("/" +:+ s) = true.
Proof. unfold rooted. by destruct s. Qed.
Lemma elements_rooted l :
  Forall (λ e, plain e = true) l → elements ("/" +:+ Join l "/") = l ∧ rooted ("/" +:+ Join l "/") = true.
Proof.
  intros Hl. split; [|apply rooted_slash]. unfold elements. rewrite rooted_slash. destruct l as [|e l]; [done|].
  change (Split ("/" +:+ Join (e :: l) "/") "/") with ("" :: Split (Join (e :: l) "/") "/").
  change "/" with (char_string "/") at 1. rewrite Split_Join; [|done|].
  2:{ eapply Forall_impl; [exact Hl|]. apply plain_no_slash. }
  change (foldl (push true) [] ("" :: e :: l)) with (foldl (push true) [] (e :: l)). rewrite push_all by done. by rewrite app_nil_r, rev_involutive.
Qed.

(** A rooted path has plain elements only. *)
Lemma Split_slashes s cur :
  ContainsChar cur "/" = false → Forall (λ e, ContainsChar e "/" = false) (Split_aux "/" s cur).
Proof.
  unfold ContainsChar. revert cur. induction s as [|c s IH]; intros cur Hc; cbn [Split_aux].
  { by constructor. }
  destruct (Ascii.eqb_spec c "/") as [->|Hn]; [constructor; [done|by apply IH]|]. apply IH.
  clear IH. induction cur as [|d cur IHc]; cbn [exists_char] in *.
  - change (Ascii.eqb "/" c || false = false). rewrite orb_false_r. apply Ascii.eqb_neq. congruence.
  - rewrite app_cons. cbn [exists_char]. apply orb_false_iff in Hc as [-> Hc]. by apply IHc.
Qed.

Lemma push_keeps_plain stack e :
  Forall (λ e, plain e = true) stack → ContainsChar e "/" = false →
  Forall (λ e, plain e = true) (push true stack e).
Proof.
  intros Hs He. unfold push. destruct (e ==s "") eqn:E1; [done|]. destruct (e ==s ".") eqn:E2; [done|]. cbn [orb].
  destruct (e ==s "..") eqn:E3.
  - destruct Hs as [|top stack Ht Hs]; [done|]. destruct (top ==s "..") eqn:E4; [|done].
    apply String.eqb_eq in E4 as ->. done.
  - constructor; [|done]. unfold plain. by rewrite E1, E2, E3, He.
Qed.

Lemma elements_plain p : rooted p = true → Forall (λ e, plain e = true) (elements p).
Proof.
  intros Hr. unfold elements, Split. rewrite Hr. apply Forall_rev.
  pose proof (Split_slashes p "" eq_refl) as Hs. revert Hs. generalize (Split_aux "/" p "").
  assert (H0 : Forall (λ e, plain e = true) []) by constructor. revert H0. generalize (@nil string).
  intros stack H0 l Hl. revert stack H0. induction Hl as [|e l He _ IH]; intros stack Hs; cbn [foldl]; [done|].
  apply IH. by apply push_keeps_plain.
Qed.

(** ** Joined paths *)

Lemma Split_aux_app sep s t cur :
  Split_aux sep (s +:+ String sep t) cur = Split_aux sep s cur ++ Split_aux sep t "".
Proof.
  revert cur. induction s as [|c s IH]; intros cur.
  - change ("" +:+ String sep t) with (String sep t). cbn [Split_aux]. by rewrite Ascii.eqb_refl.
  - rewrite app_cons. cbn [Split_aux]. destruct (Ascii.eqb c sep); [by rewrite IH|apply IH].
Qed.
Lemma Split_joined l : l ≠ [] → Split (Join l "/") "/" = concat (map (λ s, Split s "/") l).
Proof.
  intros Hn. unfold Split. induction l as [|s l IH]; [done|]. destruct l as [|s' l].
  - cbn [Join map concat]. by rewrite app_nil_r.
  - cbn [map concat]. cbn [map concat] in IH. rewrite <- IH by done. cbn [Join].
    change ("/" +:+ ?x) with (String "/" x). apply Split_aux_app.
Qed.

(** A rooted path continued by further ones. *)
Lemma path_Join_rooted p l :
  rooted p = true →
  path_Join (p :: l) = "/" +:+ Join (rev (foldl (push true) (rev (elements p)) (concat (map (λ s, Split s "/") l)))) "/".
Proof.
  intros Hr. unfold path_Join. cbn [drop_empty].
  destruct (p ==s "") eqn:E; [apply String.eqb_eq in E as ->; done|].
  assert (Hj : rooted (Join (p :: l) "/") = true).
  { unfold rooted in *. destruct l as [|x l]; [done|]. cbn [Join]. destruct p as [|c p]; [done|]. rewrite app_cons.
    destruct p; exact Hr. }
  unfold Clean, elements. rewrite Hj, Split_joined by done. cbn [map concat]. rewrite foldl_app.
  unfold elements. rewrite Hr, rev_involutive. by destruct (rev (foldl _ _ _)).
Qed.
End GoPath.
