(* ===== verification/GoJson.v ===== *)
(** * JSON texts

    How [encoding/json] writes a string: control characters and the characters
    [<], [>] and [&] are escaped, bytes that are no UTF-8 become the replacement
    character. *)
From Stdlib Require Import ZArith Lia Ascii String.
From stdpp Require Import base list strings.
From S2P Require Import Prelude GoStrings Utf8.

Module GoJson.
Import Utf8.

Definition quote : string := char_string (ascii_of_nat 34).

Definition hex_digit (n : nat) : ascii :=
  if Nat.ltb n 10 then ascii_of_nat (48 + n) else ascii_of_nat (87 + n).

(** One byte below 128. *)
Definition escape_ascii (c : ascii) : string :=
  let n := nat_of_ascii c in
  if Nat.eqb n 34 || Nat.eqb n 92 then String "\" (char_string c)
  else if Nat.eqb n 8 then "\b"
  else if Nat.eqb n 12 then "\f"
  else if Nat.eqb n 10 then "\n"
  else if Nat.eqb n 13 then "\r"
  else if Nat.eqb n 9 then "\t"
  else if Nat.ltb n 32 || ContainsChar "<>&" c then
    "\u00" +:+ String (hex_digit (Nat.div n 16)) (char_string (hex_digit (Nat.modulo n 16)))
  else char_string c.

(** U+2028 and U+2029 are written as escapes. *)
Definition line_separator (s : string) : option string :=
  match s with
  | String a (String b (String c _)) =>
      if (byte a =? 226) && (byte b =? 128) then
        if byte c =? 168 then Some "\u2028" else if byte c =? 169 then Some "\u2029" else None
      else None
  | _ => None
  end.

(** [skip] bytes of the current rune are left, written out or not. *)
Fixpoint escape (skip : nat) (write : bool) (s : string) : string :=
  match s with
  | EmptyString => EmptyString
  | String c s' =>
      match skip with
      | S k => if write then String c (escape k write s') else escape k write s'
      | O =>
          if in_range 0 127 c then escape_ascii c +:+ escape 0 true s'
          else
            match line_separator s with
            | Some text => text +:+ escape 2 false s'
            | None =>
                match rune_width s with
                | O => "\ufffd" +:+ escape 0 true s'
                | S w => String c (escape w true s')
                end
            end
      end
  end.

Definition json_string (s : string) : string := quote +:+ escape 0 true s +:+ quote.

Definition json_field (name value : string) : string := json_string name +:+ ":" +:+ value.

(** Bytes that are written with six bytes. *)
Definition six (c : ascii) : bool := in_range 0 7 c || in_range 14 31 c || ContainsChar "<>&" c.

Lemma escape_ascii_six c : six c = true →
  in_range 0 127 c = true ∧ String.length (escape_ascii c) = 6%nat.
Proof.
  destruct c as [b0 b1 b2 b3 b4 b5 b6 b7].
  destruct b0, b1, b2, b3, b4, b5, b6, b7; vm_compute; intros Hc; split; congruence.
Qed.

Lemma escape_six n c : six c = true → String.length (escape 0 true (repeated n c)) = (6 * n)%nat.
Proof.
  intros Hc. destruct (escape_ascii_six c Hc) as [Hr Hl].
  induction n as [|n IH]; [done|]. cbn [repeated escape]. rewrite Hr, length_app_string, Hl, IH. lia.
Qed.

(** What a string reads as after it was written and decoded: every byte that is
    no UTF-8 became a replacement character. *)
Fixpoint coerced (skip : nat) (s : string) : string :=
  match s with
  | EmptyString => EmptyString
  | String c s' =>
      match skip with
      | S k => String c (coerced k s')
      | O =>
          match rune_width s with
          | O => replacement +:+ coerced 0 s'
          | S w => String c (coerced w s')
          end
      end
  end.

Definition json_read (s : string) : string := coerced 0 s.

Lemma coerced_take n s :
  (n ≤ String.length s)%nat → coerced n s = str_take n s +:+ coerced 0 (str_drop n s).
Proof.
  revert s. induction n as [|n IH]; intros s Hn; [done|].
  destruct s as [|c s]; [cbn in Hn; lia|]. cbn [coerced str_take str_drop].
  rewrite app_cons. f_equal. apply IH. cbn in Hn. lia.
Qed.

Lemma json_read_valid s : valid_utf8 s → json_read s = s.
Proof.
  unfold json_read. induction 1 as [|w s Hw _ IH]; [done|].
  destruct (rune_width_spec s w Hw) as [Hl _]. destruct s as [|c s]; [done|].
  cbn [coerced]. rewrite Hw, coerced_take by (cbn in Hl; lia).
  cbn [str_drop] in IH. rewrite IH. by rewrite take_drop_id.
Qed.

(** Reading never shortens a text, and a text that changed is longer. *)
Lemma coerced_longer skip s :
  (String.length s ≤ String.length (coerced skip s))%nat ∧
  (String.length (coerced skip s) = String.length s → coerced skip s = s).
Proof.
  revert skip. induction s as [|c s IH]; intros skip; [done|]. cbn [coerced].
  destruct skip as [|k].
  - destruct (rune_width (String c s)) as [|w].
    + destruct (IH 0%nat) as [Hl _]. rewrite length_app_string. cbn. split; [lia|]. intros. lia.
    + destruct (IH w) as [Hl He]. cbn. split; [lia|]. intros [= E]. by rewrite He.
  - destruct (IH k) as [Hl He]. cbn. split; [lia|]. intros [= E]. by rewrite He.
Qed.

(** Reading gives valid texts, so that an invalid one grows. *)
Lemma coerced_runs n s :
  (String.length s ≤ n)%nat → valid_utf8 (coerced 0 s).
Proof.
  revert s. induction n as [|n IH]; intros [|c s] Hn; cbn in Hn; try lia; try constructor.
  cbn [coerced]. destruct (rune_width (String c s)) as [|w] eqn:Hw.
  - apply valid_app; [apply valid_replacement|]. apply IH. lia.
  - destruct (rune_width_spec _ w Hw) as [Hl _]. cbn in Hl.
    rewrite coerced_take by lia. rewrite <- app_cons.
    change (String c (str_take w s)) with (str_take (S w) (String c s)).
    apply valid_app; [by apply valid_first_rune|]. apply IH. rewrite length_str_drop. lia.
Qed.

Lemma json_read_grows s : ¬ valid_utf8 s → (String.length s < String.length (json_read s))%nat.
Proof.
  intros Hs. destruct (coerced_longer 0 s) as [Hl He]. unfold json_read.
  destruct (decide (String.length (coerced 0 s) = String.length s)) as [E|]; [|lia].
  destruct Hs. rewrite <- (He E). by apply (coerced_runs (String.length s)).
Qed.

Example json_example : json_string "a<b" = quote +:+ "a\u003cb" +:+ quote.
Proof. reflexivity. Qed.
End GoJson.
