(* ===== verification/Quartz.v ===== *)
(** * Quartz calendar rules of a cron expression

    [internal/schedule/quartz_calendar.go]: recognising the [L], [W] and [#]
    day rules, rewriting Quartz day-of-week numbers for the cron parser, and
    the search for the next month in which a rule names a day.

    The cron parser ([github.com/robfig/cron/v3]) is not part of the
    repository; it is the class [CronLib], an argument of every definition
    that calls it. *)
From Stdlib Require Import ZArith Lia Ascii String Sorted.
From stdpp Require Import base list strings gmap.
From S2P Require Import Prelude GoStrings GoTime.

(** [parser.Parse] and [Schedule.Next] of the cron library.  [cron_next s loc t]
    is [s.Next(t.In(loc))], the zero time when there is no activation. *)
Class CronLib := {
  cron_schedule : Type;
  cron_parse : string → option cron_schedule;
  cron_next : cron_schedule → Location → time → time;
}.

(** What the library documents of [Next]: an activation is later than the
    time it was asked for. *)
Class CronLaws `{CronLib} : Prop := {
  cron_next_later : ∀ s loc t, cron_next s loc t = 0 ∨ t < cron_next s loc t;
}.

Module Quartz.

Inductive quartzCalendarKind :=
| quartzLastDay
| quartzNearestWeekday
| quartzLastWeekdayOfMonth
| quartzLastDayOfWeek
| quartzNthDayOfWeek.

Record quartzCalendarRule := mk_rule {
  kind : quartzCalendarKind;
  day : Z;
  offset : Z;
  week : Z;
}.

(** ** Recognising the rules *)

(** [^L(?:-([0-9]{1,2}))?(W)?$]: the digits after the dash (["" ] when there
    is none) and whether the [W] is there. *)
Definition w_suffix (s : string) : option bool :=
  if s ==s "" then Some false else if s ==s "W" then Some true else None.

Definition lastDayPattern (s : string) : option (string * bool) :=
  match s with
  | String "L" (String "-" (String a (String b s'))) =>
      if is_digit a then
        if is_digit b
        then w ← w_suffix s'; Some (String a (char_string b), w)
        else w ← w_suffix (String b s'); Some (char_string a, w)
      else None
  | String "L" (String "-" (String a EmptyString)) =>
      if is_digit a then Some (char_string a, false) else None
  | String "L" s' => w ← w_suffix s'; Some ("", w)
  | _ => None
  end.

(** [^([0-9]{1,2})W$] *)
Definition weekdayPattern (s : string) : option string :=
  match s with
  | String a (String "W" EmptyString) =>
      if is_digit a then Some (char_string a) else None
  | String a (String b (String "W" EmptyString)) =>
      if is_digit a && is_digit b then Some (String a (char_string b)) else None
  | _ => None
  end.

Definition dow_names : list string := ["SUN"; "MON"; "TUE"; "WED"; "THU"; "FRI"; "SAT"].

(** The group [([1-7]|SUN|MON|TUE|WED|THU|FRI|SAT)] and what follows it. *)
Definition dow_group (s : string) : option (string * string) :=
  match s with
  | String a s' =>
      if nat_in 49 55 a then Some (char_string a, s')
      else match s with
           | String b (String c (String d s'')) =>
               let name := String b (String c (char_string d)) in
               if existsb (String.eqb name) dow_names then Some (name, s'') else None
           | _ => None
           end
  | EmptyString => None
  end.

(** [^(..)L$] *)
Definition lastDOWPattern (s : string) : option string :=
  '(g, rest) ← dow_group s; if rest ==s "L" then Some g else None.

(** [^(..)#([1-5])$] *)
Definition nthDOWPattern (s : string) : option (string * string) :=
  '(g, rest) ← dow_group s;
  match rest with
  | String "#" (String w EmptyString) =>
      if nat_in 49 53 w then Some (g, char_string w) else None
  | _ => None
  end.

Definition dow_error : error :=
  ErrMsg "quartz day-of-week must be between 1 and 7 or SUN-SAT".

Fixpoint dow_index (names : list string) (value : string) (n : Z) : option Z :=
  match names with
  | [] => None
  | name :: rest => if value ==s name then Some n else dow_index rest value (n + 1)
  end.

Definition quartzDayOfWeek (value : string) : result Z :=
  match dow_index dow_names value 1 with
  | Some d => Ok d
  | None =>
      match Atoi value with
      | Some d => if (d <? 1) || (7 <? d) then Err dow_error else Ok d
      | None => Err dow_error
      end
  end.

(** [offset, _ = strconv.Atoi(..)]: the zero value when the text is no number. *)
Definition atoi_or_zero (s : string) : Z := default 0 (Atoi s).

(** The rule of an expression: [Ok (Some r)], [Ok None] when it has no
    calendar day field, an error when the field is malformed. *)
Definition parseQuartzCalendarRule (expression : string) : result (option quartzCalendarRule) :=
  match Fields (ToUpper expression) with
  | [_; _; _; dom; _; dow] =>
      match lastDayPattern dom with
      | Some (digits, has_w) =>
          if dow !=s "?" then
            Err (ErrMsg "cron calendar day-of-month rules require ? in day-of-week")
          else
            let off := if digits ==s "" then 0 else atoi_or_zero digits in
            if (digits !=s "") && (30 <? off) then
              Err (ErrMsg "cron L offset must be between 0 and 30")
            else
              Ok (Some (mk_rule (if has_w then quartzLastWeekdayOfMonth else quartzLastDay)
                                0 off 0))
      | None =>
      match weekdayPattern dom with
      | Some digits =>
          if dow !=s "?" then Err (ErrMsg "cron W requires ? in day-of-week")
          else
            let d := atoi_or_zero digits in
            if (d <? 1) || (31 <? d) then
              Err (ErrMsg "cron W day must be between 1 and 31")
            else Ok (Some (mk_rule quartzNearestWeekday d 0 0))
      | None =>
      match lastDOWPattern dow with
      | Some g =>
          if dom !=s "?" then
            Err (ErrMsg "cron L day-of-week rules require ? in day-of-month")
          else d ← quartzDayOfWeek g; Ok (Some (mk_rule quartzLastDayOfWeek d 0 0))
      | None =>
      match nthDOWPattern dow with
      | Some (g, w) =>
          if dom !=s "?" then Err (ErrMsg "cron # requires ? in day-of-month")
          else d ← quartzDayOfWeek g;
               Ok (Some (mk_rule quartzNthDayOfWeek d 0 (atoi_or_zero w)))
      | None =>
          if ContainsAny dom "LW#" || ContainsAny dow "W#"
             || (ContainsChar dow "L"%char && (dow !=s "L"))
          then Err (ErrMsg "invalid Quartz calendar day expression")
          else Ok None
      end end end end
  | _ => Ok None
  end.

(** ** Day-of-week fields *)

(** The loop of [quartzDayRange]; [None] when the fuel is spent. *)
Fixpoint quartzDayRange_loop (fuel : nat) (current last : Z) : option (list Z) :=
  match fuel with
  | O => None
  | S f =>
      if current =? last then Some []
      else
        let next := if current + 1 =? 8 then 1 else current + 1 in
        rest ← quartzDayRange_loop f next last;
        Some (next :: rest)
  end.

(** Seven days: seven iterations reach the end of any range of 1..7. *)
Definition quartzDayRange (start last : Z) : list Z :=
  start :: default [] (quartzDayRange_loop 7 start last).

(** [values[0], values[step], values[2*step], ..] *)
Fixpoint every_aux (step skip : nat) (l : list Z) : list Z :=
  match l with
  | [] => []
  | x :: l' =>
      match skip with
      | O => x :: every_aux step (step - 1) l'
      | S k => every_aux step k l'
      end
  end.
Definition every (step : Z) (l : list Z) : list Z := every_aux (Z.to_nat step) 0 l.

Definition day_of_week_step (parts : list string) : result Z :=
  match parts with
  | [_; s] =>
      match Atoi s with
      | Some step =>
          if (step <? 1) || (7 <? step)
          then Err (ErrMsg "quartz day-of-week step must be between 1 and 7")
          else Ok step
      | None => Err (ErrMsg "quartz day-of-week step must be between 1 and 7")
      end
  | _ => Ok 1
  end.

(** The bounds of one list item: [*], a range, or one day (to Saturday when
    a step follows). *)
Definition day_of_week_bounds (base : string) (has_step : bool) : result (Z * Z) :=
  if base ==s "*" then Ok (1, 7)
  else if ContainsChar base "-"%char then
    match Split base "-"%char with
    | [a; b] => s ← quartzDayOfWeek a; e ← quartzDayOfWeek b; Ok (s, e)
    | _ => Err (ErrMsg "invalid Quartz day-of-week range")
    end
  else s ← quartzDayOfWeek base; Ok (s, if has_step then 7 else s).

Definition day_of_week_item (item : string) : result (list Z) :=
  let parts := Split item "/"%char in
  match parts with
  | base :: rest =>
      if (2 <? Z.of_nat (length parts)) || (base ==s "")
      then Err (ErrMsg "invalid Quartz day-of-week")
      else
        step ← day_of_week_step parts;
        '(s, e) ← day_of_week_bounds base (Nat.eqb (length parts) 2);
        Ok (map (λ d, d - 1) (every step (quartzDayRange s e)))
  | [] => Err (ErrMsg "invalid Quartz day-of-week")
  end.

Fixpoint day_of_week_items (items : list string) (selected : gset Z) : result (gset Z) :=
  match items with
  | [] => Ok selected
  | item :: rest =>
      ds ← day_of_week_item item;
      day_of_week_items rest (selected ∪ list_to_set ds)
  end.

Definition normalizeQuartzDayOfWeek (field : string) : result string :=
  let field := ToUpper field in
  if (field ==s "?") || (field ==s "*") then Ok "*"
  else if field ==s "L" then Ok "6"
  else
    selected ← day_of_week_items (Split field ","%char) ∅;
    Ok (Join (map Itoa (sort_by Z.leb (elements selected))) ",").

(** ** The day a rule names in a month *)

Definition Saturday : Z := 6.
Definition Sunday : Z := 0.

Definition nearestWeekday (year month day last : Z) (location : Location) : Z :=
  let w := WeekdayOf location (Date year month day 12 0 0 0 location) in
  if w =? Saturday then (if day =? 1 then day + 2 else day - 1)
  else if w =? Sunday then (if day =? last then day - 2 else day + 1)
  else day.

(** Zero when the rule names no day of the month. *)
Definition dayInMonth (rule : quartzCalendarRule) (year month : Z) (location : Location) : Z :=
  let '(_, _, last) := DateOf location (Date year (month + 1) 0 12 0 0 0 location) in
  match kind rule with
  | quartzLastDay => last - offset rule
  | quartzNearestWeekday =>
      if last <? day rule then 0
      else nearestWeekday year month (day rule) last location
  | quartzLastWeekdayOfMonth =>
      let d := last - offset rule in
      if d <? 1 then 0 else nearestWeekday year month d last location
  | quartzLastDayOfWeek =>
      let wanted := day rule - 1 in
      let current := WeekdayOf location (Date year month last 12 0 0 0 location) in
      last - Z.rem (current - wanted + 7) 7
  | quartzNthDayOfWeek =>
      let wanted := day rule - 1 in
      let firstWeekday := WeekdayOf location (Date year month 1 12 0 0 0 location) in
      let d := 1 + Z.rem (wanted - firstWeekday + 7) 7 + (week rule - 1) * 7 in
      if last <? d then 0 else d
  end.

(** ** The search for the next activation *)
Section search.
Context `{CronLib}.

(** One month of the search: [Some] is the result of the function, [None]
    means the search goes on with the next month. *)
Definition quartz_month (fields : list string) (rule : quartzCalendarRule)
    (location : Location) (year month : Z) (searchAfter : time) : option (result time) :=
  let d := dayInMonth rule year month location in
  if d =? 0 then None
  else
    let candidateFields := <[5%nat := "*"]> (<[3%nat := Itoa d]> fields) in
    match cron_parse (Join candidateFields " ") with
    | None => Some (Err (ErrMsg "parse cron"))
    | Some schedule =>
        let candidate := cron_next schedule location searchAfter in
        let '(cy, cm, cd) := DateOf location candidate in
        if (cy =? year) && (cm =? month) && (cd =? d)
        then Some (Ok candidate) else None
    end.

Fixpoint quartz_search (fuel : nat) (fields : list string) (rule : quartzCalendarRule)
    (location : Location) (year month : Z) (searchAfter : time) : result time :=
  match fuel with
  | O => Err (ErrMsg "cron has no matching calendar date within 100 years")
  | S f =>
      match quartz_month fields rule location year month searchAfter with
      | Some r => r
      | None =>
          let '(year', month', _) :=
            DateOf location (Date year (month + 1) 1 12 0 0 0 location) in
          quartz_search f fields rule location year' month'
            (Add (Date year' month' 1 0 0 0 0 location) (- nanosecond))
      end
  end.

Definition nextQuartzCalendar (expression : string) (rule : quartzCalendarRule)
    (location : Location) (after : time) : result time :=
  let fields := Fields (ToUpper expression) in
  let '(year, month, _) := DateOf location after in
  quartz_search 1200 fields rule location year month after.
End search.

(** ** Day-of-week fields: the selected set *)

(** The fuel of [quartzDayRange] is enough for every pair of Quartz days. *)
Lemma quartzDayRange_total s e :
  1 ≤ s ≤ 7 → 1 ≤ e ≤ 7 → ∃ l, quartzDayRange_loop 7 s e = Some l.
Proof.
  intros Hs He.
  assert (Hd : ∀ z, 1 ≤ z ≤ 7 → z = 1 ∨ z = 2 ∨ z = 3 ∨ z = 4 ∨ z = 5 ∨ z = 6 ∨ z = 7)
    by lia.
  destruct (Hd s Hs) as [->|[->|[->|[->|[->|[->| ->]]]]]];
    destruct (Hd e He) as [->|[->|[->|[->|[->|[->| ->]]]]]]; eexists; reflexivity.
Qed.

Lemma quartzDayOfWeek_range value d : quartzDayOfWeek value = Ok d → 1 ≤ d ≤ 7.
Proof.
  unfold quartzDayOfWeek. destruct (dow_index _ _ _) as [k|] eqn:E.
  - intros [= <-]. unfold dow_names in E. cbn in E.
    repeat match type of E with (if ?b then _ else _) = _ => destruct b end;
      (discriminate E || (injection E as <-; lia)).
  - destruct (Atoi value); [|done]. destruct (_ || _) eqn:B; [done|].
    intros [= <-]. bool_to_prop. lia.
Qed.

Definition week_days : list Z := [1; 2; 3; 4; 5; 6; 7].

Lemma elem_of_week_days z : z ∈ week_days ↔ 1 ≤ z ≤ 7.
Proof. unfold week_days. rewrite !elem_of_cons, elem_of_nil. lia. Qed.

Definition mem (x : Z) (l : list Z) : bool := existsb (Z.eqb x) l.

Lemma mem_true x l : mem x l = true ↔ x ∈ l.
Proof.
  unfold mem. rewrite existsb_exists, list_elem_of_In. setoid_rewrite Z.eqb_eq.
  naive_solver.
Qed.

Definition day_range_ok (s e : Z) : bool :=
  forallb (λ x, Bool.eqb (mem x (quartzDayRange s e)) ((x - s) mod 7 <=? (e - s) mod 7))
          week_days
  && forallb (λ x, mem x week_days) (quartzDayRange s e).

Lemma day_range_check : forallb (λ s, forallb (day_range_ok s) week_days) week_days = true.
Proof. vm_compute. reflexivity. Qed.

(** A range covers the days from its start cyclically to its end. *)
Lemma elem_of_quartzDayRange s e x :
  1 ≤ s ≤ 7 → 1 ≤ e ≤ 7 →
  x ∈ quartzDayRange s e ↔ 1 ≤ x ≤ 7 ∧ (x - s) mod 7 ≤ (e - s) mod 7.
Proof.
  rewrite <- !elem_of_week_days, !list_elem_of_In. intros Hs He.
  pose proof day_range_check as H. rewrite forallb_forall in H.
  specialize (H s Hs). rewrite forallb_forall in H. specialize (H e He).
  apply andb_true_iff in H as [H1 H2]. rewrite forallb_forall in H1, H2.
  specialize (H2 x). specialize (H1 x).
  rewrite mem_true, list_elem_of_In in H2.
  rewrite <- Z.leb_le, <- list_elem_of_In, <- mem_true.
  rewrite <- list_elem_of_In, <- mem_true in H2.
  split.
  - intros Hx. rewrite Hx in *. specialize (H2 eq_refl). split; [done|].
    apply eqb_prop in H1; [by rewrite <- H1|done].
  - intros [Hx Hle]. apply eqb_prop in H1; [|done]. by rewrite H1.
Qed.

Lemma every_aux_subset step k l x : x ∈ every_aux step k l → x ∈ l.
Proof.
  revert k. induction l as [|y l IH]; intros k; cbn; [done|].
  destruct k; rewrite ?elem_of_cons; naive_solver.
Qed.

Lemma day_of_week_bounds_range base b s e :
  day_of_week_bounds base b = Ok (s, e) → 1 ≤ s ≤ 7 ∧ 1 ≤ e ≤ 7.
Proof.
  unfold day_of_week_bounds. destruct (base ==s "*"); [intros [= <- <-]; lia|].
  destruct (ContainsChar _ _).
  - destruct (Split _ _) as [|p [|q [|]]]; try done.
    rewrite result_bind_Ok. intros (s' & Hs & H).
    rewrite result_bind_Ok in H. destruct H as (e' & He & [= <- <-]).
    by split; eapply quartzDayOfWeek_range.
  - rewrite result_bind_Ok. intros (s' & Hs & [= <- <-]).
    apply quartzDayOfWeek_range in Hs. destruct b; lia.
Qed.

Lemma day_of_week_item_ok item ds :
  day_of_week_item item = Ok ds → ds ≠ [] ∧ Forall (λ d, 0 ≤ d ≤ 6) ds.
Proof.
  unfold day_of_week_item. destruct (Split _ _) as [|base rest]; [done|].
  destruct (_ || _); [done|]. rewrite result_bind_Ok. intros (step & _ & H).
  rewrite result_bind_Ok in H. destruct H as ([s e] & Hb & H).
  assert (ds = map (λ d, d - 1) (every step (quartzDayRange s e))) as -> by congruence.
  apply day_of_week_bounds_range in Hb as [Hs He]. split; [done|].
  apply Forall_forall. intros x Hx. apply list_elem_of_In, in_map_iff in Hx as (y & <- & Hy).
  apply list_elem_of_In, every_aux_subset, elem_of_quartzDayRange in Hy; [lia|done|done].
Qed.

Lemma day_of_week_items_ok items acc out :
  day_of_week_items items acc = Ok out →
  set_Forall (λ d, 0 ≤ d ≤ 6) acc →
  set_Forall (λ d, 0 ≤ d ≤ 6) out ∧ acc ⊆ out ∧ (items ≠ [] → out ≠ ∅).
Proof.
  revert acc. induction items as [|item items IH]; intros acc; cbn [day_of_week_items].
  - by intros [= <-] H.
  - rewrite result_bind_Ok. intros (ds & Hds & H) Hacc.
    apply day_of_week_item_ok in Hds as [Hne Hr].
    apply IH in H as (Hout & Hsub & _).
    + split; [done|]. split; [set_solver|]. intros _ ->.
      destruct ds as [|d ds]; [done|]. set_solver.
    + intros d [Hd|Hd%elem_of_list_to_set]%elem_of_union; [by apply Hacc|].
      rewrite Forall_forall in Hr. by apply Hr.
Qed.

Lemma Split_aux_nonempty sep s cur : Split_aux sep s cur ≠ [].
Proof. revert cur. induction s; intros cur; cbn; [done|]. destruct (Ascii.eqb _ _); auto. Qed.

(** An accepted day-of-week field becomes ["*"] or a comma-separated list of
    strictly increasing cron weekday numbers, at least one, all in 0..6. *)
Lemma normalizeQuartzDayOfWeek_ok field out :
  normalizeQuartzDayOfWeek field = Ok out →
  out = "*" ∨
  ∃ days, out = Join (map Itoa days) "," ∧ days ≠ [] ∧
          StronglySorted Z.lt days ∧ Forall (λ d, 0 ≤ d ≤ 6) days.
Proof.
  unfold normalizeQuartzDayOfWeek. destruct (_ || _); [intros [= <-]; by left|].
  destruct (ToUpper field ==s "L").
  { intros [= <-]. right. exists [6]. split_and!; [done|done| |].
    - by apply SSorted_cons; [apply SSorted_nil|].
    - by apply Forall_singleton. }
  rewrite result_bind_Ok. intros (sel & Hsel & [= <-]). right.
  apply day_of_week_items_ok in Hsel as (Hr & _ & Hne); [|done].
  specialize (Hne (Split_aux_nonempty _ _ _)).
  eexists. split; [reflexivity|]. split_and!.
  - intros E%sort_by_nil_inv. apply Hne. apply leibniz_equiv. by apply elements_empty_inv in E.
  - assert (Hs : StronglySorted (λ x y, (x <=? y) = true) (sort_by Z.leb (elements sel))).
    { apply sort_by_sorted; intros *; rewrite !Z.leb_le; lia. }
    assert (Hnd : NoDup (sort_by Z.leb (elements sel)))
      by (rewrite sort_by_Permutation; apply NoDup_elements).
    induction Hs as [|x l Hl IH Hx]; [constructor|].
    apply NoDup_cons in Hnd as [Hnin Hnd]. constructor; [auto|].
    apply Forall_forall. intros y Hy. rewrite Forall_forall in Hx.
    specialize (Hx y Hy). cbn in Hx. apply Z.leb_le in Hx.
    assert (x ≠ y) by (by intros ->). lia.
  - apply Forall_forall. intros d Hd.
    apply elem_of_sort_by, elem_of_elements in Hd. by apply Hr.
Qed.

Example normalize_examples :
  map normalizeQuartzDayOfWeek ["1"; "7"; "2-6"; "1,7"; "mon"; "FRI-MON"; "2/2"; "*/3"; "0"]
  = [Ok "0"; Ok "6"; Ok "1,2,3,4,5"; Ok "0,6"; Ok "1"; Ok "0,1,5,6"; Ok "1,3,5"; Ok "0,3,6";
     Err dow_error].
Proof. vm_compute. reflexivity. Qed.

(** ** The day a rule names *)

(** Weekday of a date of the month, independent of any location. *)
Definition weekday_of (year month d : Z) : Z := weekday_of_days (days_of_civil year month d).

Lemma weekday_of_range year month d : 0 ≤ weekday_of year month d < 7.
Proof. apply Z.mod_pos_bound. lia. Qed.

Lemma weekday_of_add year month d k :
  weekday_of year month (d + k) = (weekday_of year month d + k) mod 7.
Proof.
  unfold weekday_of, weekday_of_days, days_of_civil.
  rewrite Z.add_mod_idemp_l by lia. f_equal. lia.
Qed.

Section day_in_month.
Context (location : Location) (year month : Z).
Hypothesis Hmonth : 1 ≤ month ≤ 12.
(** The zone data has a noon on the days the code constructs. *)
Hypothesis Hnoon : ∀ d, noon_exists location year month d.
Hypothesis Hnoon_last : noon_exists location year (month + 1) 0.

Let last := days_in_month year month.

Lemma last_range : 28 ≤ last ≤ 31.
Proof. apply days_in_month_range. Qed.

Lemma last_day_of_month :
  DateOf location (Date year (month + 1) 0 12 0 0 0 location) = (year, month, last).
Proof.
  unfold DateOf. rewrite Hnoon_last, date_days_last by done.
  apply days_of_civil_inv. apply valid_civil_true.
  pose proof last_range. fold last. lia.
Qed.

Lemma weekday_at d :
  WeekdayOf location (Date year month d 12 0 0 0 location) = weekday_of year month d.
Proof. unfold WeekdayOf. by rewrite Hnoon, date_days_valid. Qed.

Lemma dayInMonth_unfold rule :
  dayInMonth rule year month location =
  match kind rule with
  | quartzLastDay => last - offset rule
  | quartzNearestWeekday =>
      if last <? day rule then 0
      else nearestWeekday year month (day rule) last location
  | quartzLastWeekdayOfMonth =>
      if last - offset rule <? 1 then 0
      else nearestWeekday year month (last - offset rule) last location
  | quartzLastDayOfWeek =>
      last - Z.rem (weekday_of year month last - (day rule - 1) + 7) 7
  | quartzNthDayOfWeek =>
      let d := 1 + Z.rem (day rule - 1 - weekday_of year month 1 + 7) 7
               + (week rule - 1) * 7 in
      if last <? d then 0 else d
  end.
Proof.
  unfold dayInMonth. rewrite last_day_of_month. cbv zeta.
  by destruct (kind rule); rewrite ?weekday_at.
Qed.

(** [n#k], [nL]: congruence of weekdays. *)
Lemma weekday_of_eq d w :
  0 ≤ w < 7 → (weekday_of year month d = w ↔ (d - 1 - (w - weekday_of year month 1)) mod 7 = 0).
Proof.
  intros Hw. pose proof (weekday_of_range year month 1).
  replace d with (1 + (d - 1)) at 1 by lia. rewrite weekday_of_add.
  set (f := weekday_of year month 1) in *. clearbody f.
  split; intros E; Z.to_euclidean_division_equations; lia.
Qed.

(** The last occurrence of a weekday: a day of the month on that weekday
    with no later one. *)
Lemma last_day_of_week_spec rule :
  kind rule = quartzLastDayOfWeek → 1 ≤ day rule ≤ 7 →
  let d := dayInMonth rule year month location in
  1 ≤ d ≤ last ∧ weekday_of year month d = day rule - 1 ∧
  ∀ d', d < d' ≤ last → weekday_of year month d' ≠ day rule - 1.
Proof.
  intros Hk Hday. cbv zeta. rewrite dayInMonth_unfold, Hk.
  pose proof last_range. pose proof (weekday_of_range year month last).
  set (w := day rule - 1). assert (Hw : 0 ≤ w < 7) by (unfold w; lia). clearbody w.
  set (k := Z.rem _ 7).
  assert (Hk7 : 0 ≤ k < 7 ∧ (weekday_of year month last - k) mod 7 = w)
    by (unfold k; Z.to_euclidean_division_equations; lia).
  clearbody k. destruct Hk7 as [Hk7 Hkw].
  split_and!; [lia|lia| |].
  - replace (last - k) with (last + - k) by lia.
    rewrite weekday_of_add. by rewrite Z.add_opp_r.
  - intros d' Hd' E. replace d' with (last + (d' - last)) in E by lia.
    rewrite weekday_of_add in E. Z.to_euclidean_division_equations. lia.
Qed.

(** The [week]-th occurrence of a weekday, or nothing: the day [d] found is
    on the weekday and in the [week]-th seven days of the month; zero means
    the month has no such day. *)
Lemma nth_day_of_week_spec rule :
  kind rule = quartzNthDayOfWeek → 1 ≤ day rule ≤ 7 → 1 ≤ week rule ≤ 5 →
  let named d := 1 ≤ d ≤ last ∧ weekday_of year month d = day rule - 1 ∧
                 (d - 1) / 7 + 1 = week rule in
  let d := dayInMonth rule year month location in
  (named d ∨ d = 0) ∧ (∀ d', named d' → d' = d).
Proof.
  intros Hk Hday Hweek. cbv zeta. rewrite dayInMonth_unfold, Hk.
  pose proof last_range. cbv zeta.
  set (w := day rule - 1). assert (Hw : 0 ≤ w < 7) by (unfold w; lia). clearbody w.
  setoid_rewrite (λ d, weekday_of_eq d w Hw).
  pose proof (weekday_of_range year month 1) as Hf.
  set (f := weekday_of year month 1) in *. clearbody f.
  set (k := Z.rem (w - f + 7) 7).
  assert (Hk7 : 0 ≤ k < 7 ∧ (k - (w - f)) mod 7 = 0)
    by (unfold k; Z.to_euclidean_division_equations; lia).
  clearbody k. destruct (last <? _) eqn:E; bool_to_prop.
  - split; [by right|]. intros d' (? & ? & ?). exfalso.
    Z.to_euclidean_division_equations. lia.
  - split; [left|]; [|intros d' (? & ? & ?)];
      Z.to_euclidean_division_equations; lia.
Qed.

(** [nearestWeekday] stays in the month, lands on Monday to Friday, and no
    working day of the month is nearer. *)
Lemma nearestWeekday_spec d :
  1 ≤ d ≤ last →
  let working x := 1 ≤ x ≤ last ∧ 1 ≤ weekday_of year month x ≤ 5 in
  let r := nearestWeekday year month d last location in
  working r ∧ ∀ x, working x → Z.abs (r - d) ≤ Z.abs (x - d).
Proof.
  intros Hd. cbv zeta. unfold nearestWeekday. rewrite weekday_at.
  pose proof last_range. pose proof (weekday_of_range year month d) as Hw.
  assert (Hx : ∀ x, weekday_of year month x = (weekday_of year month d + (x - d)) mod 7)
    by (intros x; rewrite <- weekday_of_add; f_equal; lia).
  remember (weekday_of year month d) as w eqn:Ew. clear Ew.
  unfold Saturday, Sunday.
  destruct (w =? 6) eqn:E6; [destruct (d =? 1) eqn:E1|];
    [| |destruct (w =? 0) eqn:E0; [destruct (d =? last) eqn:El|]];
    bool_to_prop; setoid_rewrite Hx; (split; [|intros x Hwx]);
    Z.to_euclidean_division_equations; lia.
Qed.
End day_in_month.

(** ** What the search returns *)
Section search_spec.
Context `{CronLaws}.
Context (location : Location).
Hypothesis Hnoon : ∀ y m, noon_exists location y m 1.
Hypothesis Hordered : months_ordered location.

(** The activation found is on the day the rule names in its month, that
    month is not before the one the search began with, and it comes after
    the start time of the search of that month. *)
Lemma quartz_search_spec fuel fields rule y m after t :
  1 ≤ m ≤ 12 → quartz_search fuel fields rule location y m after = Ok t →
  ∃ y' m', DateOf location t = (y', m', dayInMonth rule y' m' location) ∧
    dayInMonth rule y' m' location ≠ 0 ∧
    (month_index y m < month_index y' m' ∨ y' = y ∧ m' = m ∧ (t = 0 ∨ after < t)).
Proof.
  revert y m after. induction fuel as [|fuel IH]; intros y m after Hm; cbn [quartz_search]; [done|].
  destruct (quartz_month _ _ _ _ _ _) as [r|] eqn:Eq.
  - intros ->. unfold quartz_month in Eq.
    destruct (dayInMonth rule y m location =? 0) eqn:E0; [done|].
    destruct (cron_parse _) as [s|]; [|done].
    destruct (DateOf location (cron_next s location after)) as [[cy cm] cd] eqn:Ed.
    destruct (_ && _) eqn:E; [|done]. injection Eq as <-. bool_to_prop. subst.
    exists y, m. split_and!; [done|done|right]. split_and!; [done|done|].
    apply cron_next_later.
  - destruct (next_month_date location y m Hm (Hnoon _ _)) as (y1 & m1 & -> & Hm1 & Hidx).
    intros E. destruct (IH _ _ _ Hm1 E) as (y' & m' & Hd & Hne & Hcase).
    exists y', m'. split_and!; [done|done|left].
    destruct Hcase as [?|(-> & -> & _)]; lia.
Qed.

Lemma nextQuartzCalendar_spec expression rule after t :
  nextQuartzCalendar expression rule location after = Ok t →
  (t = 0 ∨ after < t) ∧
  ∃ y m, DateOf location t = (y, m, dayInMonth rule y m location) ∧
         dayInMonth rule y m location ≠ 0.
Proof.
  unfold nextQuartzCalendar. destruct (DateOf location after) as [[y m] d] eqn:Ed.
  intros (y' & m' & Hd & Hne & Hcase)%quartz_search_spec; [|by eapply DateOf_month_range].
  split; [|by eauto]. destruct Hcase as [Hlt|(_ & _ & ?)]; [right|done].
  apply Hordered. unfold month_of. by rewrite Ed, Hd.
Qed.
End search_spec.

End Quartz.
