(* ===== verification/Calculator.v ===== *)
(** * Schedule calculation and misfire handling

    [internal/schedule/calculator.go] ([Preview], [Next],
    [validateCronExpression]) and [internal/schedule/misfire.go] ([Due]).
    The time zone database is the class [TZData]; the cron parser is
    [CronLib]. *)
From Stdlib Require Import ZArith Lia Ascii String Sorted.
From stdpp Require Import base list strings.
From S2P Require Import Prelude GoStrings GoTime Quartz.

(** The zone files [time.LoadLocation] reads, and the zone of the host. *)
Class TZData := {
  tz_file : string → option Location;
  tz_local : Location;
}.

Module Calculator.
Import Quartz.

(** A zone name that [LoadLocation] refuses to look up: it has [".."], or
    starts with a slash or backslash. *)
Fixpoint containsDotDot (s : string) : bool :=
  match s with
  | String "." ((String "." _) as s') => true
  | String _ s' => containsDotDot s'
  | EmptyString => false
  end.

Definition LoadLocation `{TZData} (name : string) : result Location :=
  if (name ==s "") || (name ==s "UTC") then Ok UTC
  else if name ==s "Local" then Ok tz_local
  else if containsDotDot name || HasPrefix name "/" || HasPrefix name "\"
  then Err (ErrMsg "time: invalid location name")
  else match tz_file name with
       | Some loc => Ok loc
       | None => Err (ErrMsg "unknown time zone")
       end.

(** The loop of [validateCronExpression] over the fields. *)
Fixpoint count_question_marks (index : nat) (fields : list string) (questionMarks : Z)
    : result Z :=
  match fields with
  | [] => Ok questionMarks
  | field :: rest =>
      if negb (ContainsChar field "?"%char) then count_question_marks (S index) rest questionMarks
      else if (negb (Nat.eqb index 3) && negb (Nat.eqb index 5)) || (field !=s "?") then
        Err (ErrMsg "cron ? is only supported as the complete day-of-month or day-of-week field")
      else count_question_marks (S index) rest (questionMarks + 1)
  end.

Definition validateCronExpression (expression : string) : result unit :=
  let fields := Fields expression in
  if negb (Nat.eqb (length fields) 6) then
    Err (ErrMsg "cron expression must contain exactly 6 fields including seconds")
  else
    questionMarks ← count_question_marks 0 fields 0;
    if 1 <? questionMarks then Err (ErrMsg "cron ? may appear in only one day field")
    else
      rule ← parseQuartzCalendarRule expression;
      match rule with
      | Some _ => Ok tt
      | None => _ ← normalizeQuartzDayOfWeek (nth 5 fields ""); Ok tt
      end.

Section calculator.
Context `{CronLib} `{TZData}.

Definition next_cron (expression : string) (location : Location) (after : time) : result time :=
  _ ← validateCronExpression expression;
  rule ← parseQuartzCalendarRule expression;
  match rule with
  | Some r => nextQuartzCalendar expression r location after
  | None =>
      let fields := Fields expression in
      dow ← normalizeQuartzDayOfWeek (nth 5 fields "");
      match cron_parse (Join (<[5%nat := dow]> fields) " ") with
      | None => Err (ErrMsg "parse cron")
      | Some s => Ok (cron_next s location after)
      end
  end.

Definition is_fixed (scheduleType : string) : bool :=
  (scheduleType ==s "fixed_interval") || (scheduleType ==s "fixed_rate")
  || (scheduleType ==s "fixed_delay").

Definition Next (scheduleType expression timezone : string) (after : time) : result time :=
  match LoadLocation timezone with
  | Err _ => Err (ErrMsg "load timezone")
  | Ok location =>
      if scheduleType ==s "cron" then next_cron expression location after
      else if scheduleType ==s "once" then
        match parse_rfc3339 expression with
        | None => Err (ErrMsg "parse once schedule")
        | Some t => if negb (After t after) then Ok 0 else Ok t
        end
      else if is_fixed scheduleType then
        match ParseInt expression with
        | None => Err (ErrMsg "fixed schedule must be positive seconds")
        | Some seconds =>
            if seconds <? 1 then Err (ErrMsg "fixed schedule must be positive seconds")
            else Ok (Add after (dur_mul seconds second))
        end
      else Err (ErrMsg "unsupported schedule type")
  end.

(** The [for range count] loop of [Preview]. *)
Fixpoint preview_loop (scheduleType expression timezone : string) (count : nat)
    (cursor : time) : result (list time) :=
  match count with
  | O => Ok []
  | S n =>
      next ← Next scheduleType expression timezone cursor;
      if IsZero next then Ok []
      else rest ← preview_loop scheduleType expression timezone n next; Ok (next :: rest)
  end.

Definition Preview (scheduleType expression timezone : string) (after : time) (count : Z)
    : result (list time) :=
  if (count <? 1) || (100 <? count) then
    Err (ErrMsg "preview count must be between 1 and 100")
  else preview_loop scheduleType expression timezone (Z.to_nat count) after.

(** One iteration of the loop of [Due]: the state is [next] and [due]. *)
Definition due_body (scheduleType expression timezone policy : string) (now : time)
    (maxCatchUp : Z) (state : time * list time)
    : (time * list time) + result (list time * time) :=
  let '(next, due) := state in
  if negb (IsZero next) && negb (After next now) then
    match Next scheduleType expression timezone next with
    | Err e => inr (Err e)
    | Ok next =>
        if (policy ==s "catch_up") && negb (IsZero next) && negb (After next now)
           && (Z.of_nat (length due) <? maxCatchUp)
        then inl (next, due ++ [next])
        else inl (next, due)
    end
  else inr (Ok (due, next)).

(** Iterations are counted in powers of two: [now - firstDue] nanoseconds
    bound their number when every occurrence is later than the one before. *)
Definition due_fuel (firstDue now : time) : nat := Z.to_nat (Z.log2_up (now - firstDue + 3)).

(** The [switch] of [Due]: the first occurrences and the catch-up limit. *)
Definition due_policy (policy : string) (misfired : bool) (firstDue now : time)
    (maxCatchUp : Z) : result (list time * Z) :=
  if misfired && (policy ==s "skip") then Ok ([], maxCatchUp)
  else if misfired && (policy ==s "fire_once") then Ok ([now], maxCatchUp)
  else if policy ==s "catch_up" then
    Ok ([firstDue], if maxCatchUp <? 1 then 10 else maxCatchUp)
  else if (policy !=s "skip") && (policy !=s "fire_once") then
    Err (ErrMsg "unsupported misfire policy")
  else Ok ([firstDue], maxCatchUp).

Definition Due (scheduleType expression timezone policy : string) (firstDue now : time)
    (maxCatchUp : Z) : result (list time * time) :=
  if After firstDue now then Ok ([], firstDue)
  else if scheduleType ==s "fixed_delay" then
    if 2 * second <? Sub now firstDue then
      if policy ==s "skip" then
        next ← Next scheduleType expression timezone now; Ok ([], next)
      else if (policy ==s "fire_once") || (policy ==s "catch_up") then Ok ([now], 0)
      else Err (ErrMsg "unsupported misfire policy")
    else Ok ([firstDue], 0)
  else
    '(due, maxCatchUp) ←
      due_policy policy (2 * second <? Sub now firstDue) firstDue now maxCatchUp;
    match loop (due_body scheduleType expression timezone policy now maxCatchUp)
               (due_fuel firstDue now) (firstDue, due) with
    | inr r => r
    | inl _ => Err OutOfFuel
    end.
End calculator.

(** ** Properties of [Next] *)

(** The zone data this package relies on: the first of every month has a
    noon, and local months follow the order of instants. *)
Definition zone_ok (loc : Location) : Prop :=
  (∀ y m, noon_exists loc y m 1) ∧ months_ordered loc.

Lemma zone_ok_fixed offset : zone_ok (fixed_zone offset).
Proof. split; [intros; apply noon_exists_fixed|apply months_ordered_fixed]. Qed.

(** Fixed schedules whose period fits a [time.Duration]. *)
Definition max_seconds : Z := 9223372036.
Definition period_ok (scheduleType expression : string) : Prop :=
  is_fixed scheduleType = true → ∀ s, ParseInt expression = Some s → s ≤ max_seconds.

Lemma dur_mul_seconds s : 0 ≤ s ≤ max_seconds → dur_mul s second = s * second.
Proof.
  intros Hs. unfold dur_mul. apply wrap64_id.
  unfold max_seconds, second, int64_min, int64_max in *. lia.
Qed.

Section next_spec.
Context `{CronLaws} `{TZData}.

Lemma next_cron_later expression loc after t :
  zone_ok loc → next_cron expression loc after = Ok t → t = 0 ∨ after < t.
Proof.
  intros [Hn Ho]. unfold next_cron. rewrite result_bind_Ok. intros (_ & _ & E).
  rewrite result_bind_Ok in E. destruct E as ([rule|] & _ & E).
  - by apply nextQuartzCalendar_spec in E as [? _].
  - rewrite result_bind_Ok in E. destruct E as (dow & _ & E).
    destruct (cron_parse _); [|done]. injection E as <-. apply cron_next_later.
Qed.

(** What [Next] returns is the zero time or later than [after]. *)
Lemma Next_later scheduleType expression timezone after t :
  (∀ loc, LoadLocation timezone = Ok loc → zone_ok loc) →
  period_ok scheduleType expression →
  Next scheduleType expression timezone after = Ok t → t = 0 ∨ after < t.
Proof.
  intros Hz Hp. unfold Next. destruct (LoadLocation timezone) as [loc|]; [|done].
  destruct (_ ==s "cron"); [by apply next_cron_later, Hz|].
  destruct (_ ==s "once").
  { destruct (parse_rfc3339 _) as [u|]; [|done]. unfold After.
    destruct (after <? u) eqn:E; cbn; intros [= <-]; bool_to_prop; auto. }
  unfold period_ok in Hp. destruct (is_fixed _); [|done].
  destruct (ParseInt _) as [s|]; [|done]. specialize (Hp eq_refl _ eq_refl).
  destruct (s <? 1) eqn:E; [done|]. bool_to_prop. intros [= <-]. right.
  rewrite dur_mul_seconds by lia. unfold Add, second. lia.
Qed.

Lemma preview_loop_sorted scheduleType expression timezone count after ts :
  (∀ loc, LoadLocation timezone = Ok loc → zone_ok loc) →
  period_ok scheduleType expression →
  preview_loop scheduleType expression timezone count after = Ok ts →
  StronglySorted Z.lt (after :: ts) ∧ (length ts ≤ count)%nat.
Proof.
  intros Hz Hp. revert after ts. induction count as [|n IH]; intros after ts; cbn.
  { intros [= <-]. split; [repeat constructor|done]. }
  destruct (Next _ _ _ after) as [t|] eqn:E; cbn; [|done].
  apply Next_later in E; [|done..]. unfold IsZero.
  destruct (t =? 0) eqn:E0; bool_to_prop.
  { intros [= <-]. split; [repeat constructor|cbn; lia]. }
  destruct (preview_loop _ _ _ n t) as [rest|] eqn:Er; cbn; [|done].
  intros [= <-]. destruct (IH _ _ Er) as [Hs Hl]. split; [|cbn; lia].
  constructor; [done|]. destruct E as [?|Hlt]; [done|]. constructor; [done|].
  apply StronglySorted_inv in Hs as [_ Hs].
  eapply Forall_impl; [exact Hs|]. cbn. lia.
Qed.
End next_spec.

(** No path of [Next] ends in the model's own [OutOfFuel]. *)
Lemma result_bind_fuel {A B} (m : result A) (f : A → result B) :
  m ≠ Err OutOfFuel → (∀ a, f a ≠ Err OutOfFuel) → mbind f m ≠ Err OutOfFuel.
Proof. destruct m; cbn; auto. congruence. Qed.
Ltac no_fuel :=
  repeat first [ done | discriminate
               | apply result_bind_fuel; [|intros ?]
               | progress case_match; subst ].

Lemma quartzDayOfWeek_fuel v : quartzDayOfWeek v ≠ Err OutOfFuel.
Proof. unfold quartzDayOfWeek. no_fuel. Qed.

Lemma day_of_week_bounds_fuel base b : day_of_week_bounds base b ≠ Err OutOfFuel.
Proof.
  unfold day_of_week_bounds. no_fuel; try apply quartzDayOfWeek_fuel.
Qed.

Lemma day_of_week_items_fuel items acc : day_of_week_items items acc ≠ Err OutOfFuel.
Proof.
  revert acc. induction items as [|i items IH]; intros acc; cbn; [done|].
  apply result_bind_fuel; [|intros; apply IH].
  unfold day_of_week_item. destruct (Split i _) as [|base rest]; [done|].
  destruct (_ || _); [done|]. apply result_bind_fuel; [unfold day_of_week_step; no_fuel|].
  intros ?. apply result_bind_fuel; [apply day_of_week_bounds_fuel|by intros []].
Qed.

Lemma normalizeQuartzDayOfWeek_fuel f : normalizeQuartzDayOfWeek f ≠ Err OutOfFuel.
Proof.
  unfold normalizeQuartzDayOfWeek. destruct (_ || _); [done|].
  destruct (_ ==s _); [done|].
  apply result_bind_fuel; [apply day_of_week_items_fuel|done].
Qed.

Lemma parseQuartzCalendarRule_fuel e : parseQuartzCalendarRule e ≠ Err OutOfFuel.
Proof.
  unfold parseQuartzCalendarRule. no_fuel; apply quartzDayOfWeek_fuel.
Qed.

Lemma count_question_marks_fuel i fs q : count_question_marks i fs q ≠ Err OutOfFuel.
Proof.
  revert i q. induction fs as [|f fs IH]; intros i q; cbn; [done|].
  destruct (negb _); [apply IH|]. destruct (_ || _); [done|apply IH].
Qed.

Lemma validateCronExpression_fuel e : validateCronExpression e ≠ Err OutOfFuel.
Proof.
  unfold validateCronExpression. destruct (negb _); [done|].
  apply result_bind_fuel; [apply count_question_marks_fuel|intros q].
  destruct (1 <? q); [done|].
  apply result_bind_fuel; [apply parseQuartzCalendarRule_fuel|intros [r|]]; [done|].
  apply result_bind_fuel; [apply normalizeQuartzDayOfWeek_fuel|done].
Qed.

Lemma quartz_search_fuel `{CronLib} n fs r loc y m t :
  quartz_search n fs r loc y m t ≠ Err OutOfFuel.
Proof.
  revert y m t. induction n as [|n IH]; intros y m t; cbn [quartz_search]; [done|].
  destruct (quartz_month _ _ _ _ _ _) as [res|] eqn:E.
  - unfold quartz_month in E. repeat case_match; simplify_eq; done.
  - destruct (DateOf _ _) as [[y' m'] d']. apply IH.
Qed.

Lemma Next_fuel `{CronLib} `{TZData} scheduleType expression timezone after :
  Next scheduleType expression timezone after ≠ Err OutOfFuel.
Proof.
  unfold Next. destruct (LoadLocation timezone); [|done].
  destruct (_ ==s "cron"); [|no_fuel]. unfold next_cron.
  apply result_bind_fuel; [apply validateCronExpression_fuel|intros _].
  apply result_bind_fuel; [apply parseQuartzCalendarRule_fuel|intros [r|]].
  - unfold nextQuartzCalendar. destruct (DateOf _ _) as [[y m] d]. apply quartz_search_fuel.
  - apply result_bind_fuel; [apply normalizeQuartzDayOfWeek_fuel|intros dow]. no_fuel.
Qed.

(** ** Properties of [Due] *)
Section due_spec.
Context `{CronLaws} `{TZData}.
Context (scheduleType expression timezone : string).

(** The reference: the occurrences the schedule has from [first] up to [now],
    one [Next] after the other, and the one that comes then. *)
Inductive visited (now first : time) : list time → time → Prop :=
| visited_start : visited now first [] first
| visited_next l t t' :
    visited now first l t → t ≠ 0 → t ≤ now →
    Next scheduleType expression timezone t = Ok t' → visited now first (l ++ [t]) t'.

Definition occurrences (now first : time) (l : list time) (next : time) : Prop :=
  visited now first l next ∧ (next = 0 ∨ now < next).

Hypothesis Hzone : ∀ loc, LoadLocation timezone = Ok loc → zone_ok loc.
Hypothesis Hperiod : period_ok scheduleType expression.

Lemma visited_sorted now first l t :
  visited now first l t →
  StronglySorted Z.lt l ∧ Forall (λ x, first ≤ x ≤ now) l ∧
  (t = 0 ∨ first ≤ t ∧ Forall (λ x, x < t) l).
Proof.
  induction 1 as [|l t t' Hv (Hs & Hr & Ht) Hne Hle Hn]; [split_and!; [constructor|done|by right]|].
  destruct Ht as [?|[Hft Hlt]]; [done|].
  assert (Hs' : StronglySorted Z.lt (l ++ [t])).
  { clear -Hs Hlt. induction Hs as [|x l Hl IH Hx]; [by repeat constructor|].
    apply Forall_cons in Hlt as [? Hlt]. constructor; [by apply IH|].
    apply Forall_app. split; [done|]. by repeat constructor. }
  split_and!; [done|apply Forall_app; split; [done|by repeat constructor]|].
  apply Next_later in Hn as [->|Hn]; [by left|right|done|done].
  split; [lia|]. apply Forall_app. split; [|by repeat constructor].
  eapply Forall_impl; [exact Hlt|]. cbn. lia.
Qed.

(** The pending part of the state: the occurrence the loop looks at. *)
Definition pending (now next : time) : list time :=
  if negb (IsZero next) && negb (After next now) then [next] else [].

Lemma pending_spec now next :
  (next ≠ 0 ∧ next ≤ now ∧ pending now next = [next]) ∨
  ((next = 0 ∨ now < next) ∧ pending now next = []).
Proof.
  unfold pending, IsZero, After. destruct (next =? 0) eqn:E0, (now <? next) eqn:E1;
    cbn; bool_to_prop; auto.
Qed.

Definition due_inv (policy : string) (now first : time) (limit : Z) (due0 : list time)
    (s : time * list time) : Prop :=
  ∃ l, visited now first l s.1 ∧
    s.2 = if policy ==s "catch_up" then take (Z.to_nat limit) (l ++ pending now s.1) else due0.

Definition due_post (policy : string) (now first : time) (limit : Z) (due0 : list time)
    (r : result (list time * time)) : Prop :=
  match r with
  | Ok (due, next) => ∃ l, occurrences now first l next ∧
      due = if policy ==s "catch_up" then take (Z.to_nat limit) l else due0
  | Err _ => True
  end.

Lemma due_body_inv policy now first limit due0 s :
  due_inv policy now first limit due0 s →
  match due_body scheduleType expression timezone policy now limit s with
  | inl s' => due_inv policy now first limit due0 s'
  | inr r => due_post policy now first limit due0 r
  end.
Proof.
  unfold due_inv. destruct s as [next due]. intros (l & Hv & Hd); cbn in *.
  destruct (pending_spec now next) as [(Hne & Hle & Hp)|[Hend Hp]];
    rewrite Hp in Hd; unfold pending in Hp; destruct (_ && _) eqn:E; try done; clear E Hp.
  - destruct (Next _ _ _ next) as [t|] eqn:En; [|done].
    assert (Hv' : visited now first (l ++ [next]) t) by (by eapply visited_next).
    destruct (policy ==s "catch_up"); cbn [andb]; [|by exists (l ++ [next])].
    destruct (negb (IsZero t) && negb (After t now)) eqn:Et; cbn [andb].
    + destruct (_ <? limit) eqn:El; eexists; (split; [exact Hv'|]); cbn;
        unfold pending; rewrite Et; subst due; bool_to_prop;
        rewrite length_take, length_app in El; cbn in El.
      * rewrite (take_ge (_ ++ _)) by (rewrite length_app; cbn; lia).
        rewrite take_ge; [done|]. rewrite !length_app; cbn; lia.
      * rewrite (take_app_le (_ ++ [next])); [done|]. rewrite length_app; cbn; lia.
    + eexists; (split; [exact Hv'|]); cbn; unfold pending; rewrite Et.
      by rewrite app_nil_r.
  - exists l. rewrite app_nil_r in Hd. done.
Qed.

(** The loop of [Due] ends within its fuel. *)
Lemma due_loop_terminates policy (now first : time) limit due0 :
  first ≤ now →
  ∃ r, loop (due_body scheduleType expression timezone policy now limit)
            (due_fuel first now) (first, due0) = inr r.
Proof.
  intros Hle.
  apply (loop_terminates _ (λ s, s.1 = 0 ∨ first ≤ s.1)
           (λ s, if s.1 =? 0 then -1 else now - s.1)); cbn; [|by right|].
  - intros [t d] s' Hinv Hb. unfold due_body, IsZero, After in *. cbn in *.
    destruct (t =? 0) eqn:E0; cbn in Hb; [done|].
    destruct (now <? t) eqn:E1; cbn in Hb; [done|].
    destruct (Next _ _ _ t) as [t'|] eqn:En; [|done].
    apply Next_later in En; [|done..]. bool_to_prop.
    assert (s'.1 = t') as -> by (destruct (_ && _); by injection Hb as <-).
    destruct (t' =? 0) eqn:E2; bool_to_prop; lia.
  - unfold due_fuel. pose proof (Z.log2_up_nonneg (now - first + 3)).
    pose proof (Z.log2_up_spec (now - first + 3) ltac:(lia)).
    rewrite Z2Nat.id by lia. destruct (first =? 0); lia.
Qed.

Definition late (firstDue now : time) : bool := 2 * second <? now - firstDue.

Lemma late_Sub firstDue now : (2 * second <? Sub now firstDue) = late firstDue now.
Proof. unfold late, Sub, second, int64_min, int64_max. lia. Qed.

(** The catch-up limit: ten when the job sets none. *)
Definition catch_up_limit (maxCatchUp : Z) : Z := if maxCatchUp <? 1 then 10 else maxCatchUp.

Lemma due_policy_spec policy b first now maxCatchUp due lim :
  due_policy policy b first now maxCatchUp = Ok (due, lim) →
  (policy = "catch_up" ∧ due = [first] ∧ lim = catch_up_limit maxCatchUp) ∨
  (policy = "skip" ∨ policy = "fire_once") ∧
  due = if b && (policy ==s "skip") then []
        else if b && (policy ==s "fire_once") then [now] else [first].
Proof.
  unfold due_policy. destruct (policy ==s "catch_up") eqn:Ec; bool_to_prop.
  - subst policy. cbn. rewrite !andb_false_r. intros [= <- <-]. by left.
  - destruct b, (policy ==s "skip") eqn:Es, (policy ==s "fire_once") eqn:Ef;
      cbn; intros [= <- <-]; bool_to_prop; right; auto.
Qed.

(** The loop finds the occurrences, and leaves the list of any policy but
    catch_up alone. *)
Lemma due_loop_spec policy (first now : time) limit due0 r :
  first ≠ 0 → first ≤ now → (policy = "catch_up" → due0 = [first] ∧ 1 ≤ limit) →
  loop (due_body scheduleType expression timezone policy now limit)
       (due_fuel first now) (first, due0) = inr (Ok r) →
  ∃ l, occurrences now first l r.2 ∧
    r.1 = if policy ==s "catch_up" then take (Z.to_nat limit) l else due0.
Proof.
  intros Hne Hle Hc Hloop.
  pose proof (loop_inv _ (due_inv policy now first limit due0)
                (due_post policy now first limit due0) (due_fuel first now) (first, due0)
                (due_body_inv policy now first limit due0)) as Hinv.
  rewrite Hloop in Hinv. destruct r as [due next]. apply Hinv.
  exists []. split; [constructor|]. cbn [fst snd app].
  destruct (pending_spec now first) as [(_ & _ & ->)|[[?|?] _]]; [|lia|lia].
  destruct (policy ==s "catch_up") eqn:Ec; [|done]. bool_to_prop.
  destruct (Hc Ec) as [-> Hlim]. rewrite take_ge; [done|cbn; lia].
Qed.

Lemma Due_spec policy firstDue now maxCatchUp due next :
  scheduleType ≠ "fixed_delay" → firstDue ≠ 0 → firstDue ≤ now →
  Due scheduleType expression timezone policy firstDue now maxCatchUp = Ok (due, next) →
  ∃ l, occurrences now firstDue l next ∧
    due = if late firstDue now && (policy ==s "skip") then []
          else if late firstDue now && (policy ==s "fire_once") then [now]
          else if policy ==s "catch_up" then take (Z.to_nat (catch_up_limit maxCatchUp)) l
          else [firstDue].
Proof.
  intros Hfd H0' Hle. unfold Due. rewrite late_Sub. unfold After.
  destruct (now <? firstDue) eqn:E; bool_to_prop; [lia|].
  destruct (scheduleType ==s "fixed_delay") eqn:Ef; bool_to_prop; [done|].
  rewrite result_bind_Ok. intros ([due0 lim] & Hpol & Hloop).
  apply due_policy_spec in Hpol.
  destruct (loop _ _ _) as [|r] eqn:El; [done|]. subst r.
  apply due_loop_spec in El; [|done|done|].
  - destruct El as (l & Ho & Hd). exists l. split; [done|]. cbn in Hd.
    by destruct Hpol as [(-> & -> & ->)|[[-> | ->] ->]]; destruct (late firstDue now).
  - intros ->. destruct Hpol as [(_ & -> & ->)|[[?|?] _]]; [|done|done].
    split; [done|]. unfold catch_up_limit. destruct (maxCatchUp <? 1) eqn:?; bool_to_prop; lia.
Qed.

(** C39: what [Due] returns for a first time that is set (not the zero time).  Before
    that time: nothing, and the same time again.  For a fixed_delay schedule: the
    first time when the job is at most two seconds late; otherwise none, and one
    delay from now as the next time, under skip, and a run now under the other
    policies; but for that one case the next time is zero, since the job is armed
    again when its run ends.  For every other schedule: of the occurrences from the
    first time on, none (skip) or a single run now (fire_once) when the job is more
    than two seconds late, the first one when it is not, the oldest [maxCatchUp] of
    them (ten when unset) under catch_up; and the next time is the schedule's first
    occurrence after [now], or zero when there is none. *)
Theorem due_occurrences policy firstDue now maxCatchUp due next :
  firstDue ≠ 0 →
  Due scheduleType expression timezone policy firstDue now maxCatchUp = Ok (due, next) →
  if now <? firstDue then due = [] ∧ next = firstDue
  else if scheduleType ==s "fixed_delay" then
    if late firstDue now then
      if policy ==s "skip" then due = [] ∧ Next scheduleType expression timezone now = Ok next
      else due = [now] ∧ next = 0
    else due = [firstDue] ∧ next = 0
  else ∃ l, occurrences now firstDue l next ∧
    due = if late firstDue now && (policy ==s "skip") then []
          else if late firstDue now && (policy ==s "fire_once") then [now]
          else if policy ==s "catch_up" then take (Z.to_nat (catch_up_limit maxCatchUp)) l
          else [firstDue].
Proof.
  intros Hne HD. destruct (now <? firstDue) eqn:E.
  { unfold Due, After in HD. rewrite E in HD. by injection HD as <- <-. }
  destruct (scheduleType ==s "fixed_delay") eqn:Ef.
  - unfold Due, After in HD. rewrite E, Ef, late_Sub in HD.
    destruct (late firstDue now); [|by injection HD as <- <-].
    destruct (policy ==s "skip").
    + apply result_bind_Ok in HD as (t & Hn & [= <- <-]). done.
    + destruct (_ || _); [|done]. by injection HD as <- <-.
  - apply Due_spec; [by apply String.eqb_neq|done|by apply Z.ltb_ge|done].
Qed.

(** C40: in time zones in which the first of every month has a noon and local months
    follow the order of instants, [Due] returns for every schedule whose period, if
    it is a fixed one, is at most 9223372036 seconds, whatever the policy and the
    lateness: its loop reaches a time after [now], or the end of the schedule,
    within the bound the model gives it.  (Longer periods are accepted too, and
    their next time lies in the past, see [fixed_period_overflow].) *)
Theorem due_terminates policy firstDue now maxCatchUp :
  Due scheduleType expression timezone policy firstDue now maxCatchUp ≠ Err OutOfFuel.
Proof.
  unfold Due, After. destruct (now <? firstDue) eqn:E; [done|]. bool_to_prop.
  destruct (_ ==s "fixed_delay").
  { destruct (_ <? _); [|done]. destruct (_ ==s "skip"); [|by destruct (_ || _)].
    apply result_bind_fuel; [apply Next_fuel|done]. }
  apply result_bind_fuel; [unfold due_policy; no_fuel|]. intros [due0 lim]. cbn beta iota.
  destruct (due_loop_terminates policy now firstDue lim due0 E) as [r Hr]. rewrite Hr.
  assert (Hq : ∀ s, True → match due_body scheduleType expression timezone policy now lim s with
                         inl _ => True | inr r => r ≠ Err OutOfFuel end).
  { intros [t d] _. unfold due_body. destruct (_ && _); [|done].
    pose proof (Next_fuel scheduleType expression timezone t) as Hnf.
    destruct (Next _ _ _ t); [by destruct (_ && _)|congruence]. }
  pose proof (loop_inv _ (λ _, True) (λ r, r ≠ Err OutOfFuel) (due_fuel firstDue now)
                (firstDue, due0) Hq I) as Hfin.
  by rewrite Hr in Hfin.
Qed.

Lemma sorted_take {A} (R : A → A → Prop) n (l : list A) :
  StronglySorted R l → StronglySorted R (take n l).
Proof.
  intros Hs. revert n. induction Hs as [|x l Hl IH Hx]; intros [|n]; cbn; try constructor; auto.
  by apply Forall_take.
Qed.

(** The due times are strictly increasing, none is before the first due
    time or after [now], there are at most [maxCatchUp] of them (ten when
    unset, at least one), and the next run time, when there is one, is after
    [now], so no occurrence is handed out twice. *)
Theorem due_bounds policy firstDue now maxCatchUp due next :
  firstDue ≠ 0 →
  Due scheduleType expression timezone policy firstDue now maxCatchUp = Ok (due, next) →
  StronglySorted Z.lt due ∧ Forall (λ t, firstDue ≤ t ≤ now) due ∧
  Z.of_nat (length due) ≤ catch_up_limit maxCatchUp ∧ (next = 0 ∨ now < next).
Proof.
  intros Hne HD.
  assert (Hlim : 1 ≤ catch_up_limit maxCatchUp)
    by (unfold catch_up_limit; destruct (maxCatchUp <? 1) eqn:?; bool_to_prop; lia).
  assert (Hone : ∀ x, firstDue ≤ x ≤ now → StronglySorted Z.lt [x] ∧
            Forall (λ t, firstDue ≤ t ≤ now) [x] ∧ Z.of_nat (length [x]) ≤ catch_up_limit maxCatchUp)
    by (intros x ?; split_and!; [apply SSorted_cons; [apply SSorted_nil|done]
                               |by apply Forall_singleton|done]).
  assert (Hnil : StronglySorted Z.lt [] ∧ Forall (λ t, firstDue ≤ t ≤ now) [] ∧
            Z.of_nat (length (@nil time)) ≤ catch_up_limit maxCatchUp)
    by (split_and!; [constructor|done|cbn; lia]).
  revert HD. unfold Due, After. destruct (now <? firstDue) eqn:E; bool_to_prop.
  { intros [= <- <-]. split_and!; try apply Hnil. by right. }
  destruct (_ ==s "fixed_delay") eqn:Ef.
  { destruct (_ <? _) eqn:El; [|intros [= <- <-]; split_and!; try apply Hone; auto; lia].
    destruct (_ ==s "skip"); [|destruct (_ || _); [|done]].
    - rewrite result_bind_Ok. intros (t & Hn & [= <- <-]).
      split_and!; try apply Hnil. by eapply Next_later.
    - intros [= <- <-]. split_and!; try apply Hone; auto; lia. }
  bool_to_prop. intros HD. destruct (Due_spec policy firstDue now maxCatchUp due next)
    as (l & [Hv Hnext] & ->); [done|done|done| |].
  { unfold Due, After. rewrite (proj2 (Z.ltb_ge _ _) E), (proj2 (String.eqb_neq _ _) Ef). done. }
  destruct (visited_sorted _ _ _ _ Hv) as (Hs & Hr & _).
  destruct (_ && _); [split_and!; by try apply Hnil|].
  destruct (_ && _); [split_and!; try apply Hone; auto; lia|].
  destruct (_ ==s _); [|split_and!; try apply Hone; auto; lia].
  split_and!; [by apply sorted_take|by apply Forall_take| |done].
  rewrite length_take. lia.
Qed.
End due_spec.
(** ** Concrete inputs

    A cron library that fires on every full minute, and a host with no zone
    files. *)
#[local] Instance every_minute : CronLib := {|
  cron_schedule := unit;
  cron_parse := λ _, Some tt;
  cron_next := λ _ _ t, (t / minute + 1) * minute;
|}.

#[local] Instance every_minute_laws : CronLaws.
Proof.
  constructor. intros s loc t. right. cbn. unfold minute, second.
  Z.to_euclidean_division_equations. lia.
Qed.

#[local] Instance no_zone_files : TZData := {| tz_file := λ _, None; tz_local := UTC |}.

Lemma no_zone_files_ok name loc : LoadLocation name = Ok loc → zone_ok loc.
Proof.
  unfold LoadLocation. destruct (_ || _); [intros [= <-]; apply zone_ok_fixed|].
  destruct (_ ==s _); [intros [= <-]; apply zone_ok_fixed|]. by destruct (_ || _).
Qed.

Definition sample_start : time := Date 2024 1 31 12 0 0 0 UTC.

Lemma due_occurrences_witness :
  (∃ l, occurrences "cron" "0 * * * * ?" "UTC" (sample_start + 3 * minute) sample_start l
          (sample_start + 4 * minute) ∧ length l = 4%nat) ∧
  Next "fixed_delay" "60" "UTC" (sample_start + hour) = Ok (sample_start + 61 * minute).
Proof.
  split.
  - destruct (due_occurrences "cron" "0 * * * * ?" "UTC" "catch_up" sample_start
                (sample_start + 3 * minute) 7
                (map (λ k, sample_start + k * minute) [0; 1; 2; 3]) (sample_start + 4 * minute))
      as (l & Ho & E); [done|vm_compute; reflexivity|].
    exists l. split; [exact Ho|]. apply (f_equal length) in E.
    change ("catch_up" ==s "skip") with false in E.
    change ("catch_up" ==s "fire_once") with false in E. rewrite !andb_false_r in E.
    rewrite length_map in E. change ("catch_up" ==s "catch_up") with true in E.
    cbn [length] in E. rewrite length_take in E. change (Z.to_nat _) with 7%nat in E. lia.
  - destruct (due_occurrences "fixed_delay" "60" "UTC" "skip" sample_start (sample_start + hour) 1 []
                (sample_start + 61 * minute)) as [_ Hn]; [done|vm_compute; reflexivity|exact Hn].
Defined.

Lemma due_terminates_witness :
  Due "fixed_rate" "60" "UTC" "catch_up" sample_start (sample_start + hour) 5 ≠ Err OutOfFuel.
Proof.
  apply (due_terminates "fixed_rate" "60" "UTC").
  - apply no_zone_files_ok.
  - intros _ s [= <-]. done.
Defined.

Lemma due_bounds_witness :
  StronglySorted Z.lt (map (λ k, sample_start + k * minute) [0; 1; 2]) ∧
  sample_start + hour < sample_start + 61 * minute.
Proof.
  destruct (due_bounds "fixed_rate" "60" "UTC" (no_zone_files_ok _) ltac:(intros _ s [= <-]; done)
              "catch_up" sample_start (sample_start + hour) 3
              (map (λ k, sample_start + k * minute) [0; 1; 2]) (sample_start + 61 * minute))
    as (Hs & _ & _ & [E|Hn]); [done|vm_compute; reflexivity| |]; [discriminate E|].
  split; [exact Hs|exact Hn].
Defined.

(** A fixed period above [max_seconds] is accepted, but its product with
    [time.Second] wraps: the run after the first one is in the past. *)
Example fixed_period_overflow :
  Next "fixed_rate" "9223372037" "UTC" sample_start
  = Ok (sample_start - 9223372036709551616).
Proof. vm_compute. reflexivity. Qed.

(** [L-30] is accepted, and in a February it names day -2 (a day that does not
    exist, where [LW] and [W] name none). *)
Example last_day_offset_negative :
  parseQuartzCalendarRule "0 0 0 L-30 * ?" = Ok (Some (mk_rule quartzLastDay 0 30 0)) ∧
  dayInMonth (mk_rule quartzLastDay 0 30 0) 2023 2 UTC = -2 ∧
  dayInMonth (mk_rule quartzLastWeekdayOfMonth 0 30 0) 2023 2 UTC = 0.
Proof. vm_compute. auto. Qed.
End Calculator.
