(* ===== verification/Tables.v ===== *)
(** * The database the control plane works on

    Rows of the tables that [migrations/] creates and the store's queries read
    and write, the transaction monad the store operations are written in, and
    the proof rules for it.

    A transaction is a function of the state; an error rolls back, so it has no
    final state.  [now()] of PostgreSQL is constant in a transaction;
    [time.Now()] of the process is read afresh at every call, so it is a
    sequence of readings.  [uuid.NewString] and [gen_random_uuid()] draw from
    one supply of distinct, non-empty texts. *)
From Stdlib Require Import ZArith Lia Ascii String.
From stdpp Require Import base list strings pretty.
From S2P Require Import Prelude.

(** ** Rows *)

(** [job_runs.status] *)
Inductive run_status :=
| Pending | Running | WaitingCallback | Succeeded | Failed | TimedOut | Cancelled | Skipped.

#[export] Instance run_status_eq_dec : EqDecision run_status.
Proof. solve_decision. Defined.

Definition status_text (s : run_status) : string :=
  match s with
  | Pending => "pending" | Running => "running" | WaitingCallback => "waiting_callback"
  | Succeeded => "succeeded" | Failed => "failed" | TimedOut => "timed_out"
  | Cancelled => "cancelled" | Skipped => "skipped"
  end.

Notation "s =st t" := (bool_decide ((s : run_status) = t)) (at level 70, no associativity)
  : bool_scope.

(** [status IN ('pending','running','waiting_callback')] *)
Definition active (s : run_status) : bool :=
  match s with Pending | Running | WaitingCallback => true | _ => false end.
Definition terminal (s : run_status) : bool := negb (active s).

(** [job_runs.trigger_type] *)
Inductive trigger_type := Schedule | Manual | Retry | Dependency.

#[export] Instance trigger_type_eq_dec : EqDecision trigger_type.
Proof. solve_decision. Defined.

Definition trigger_text (t : trigger_type) : string :=
  match t with
  | Schedule => "schedule" | Manual => "manual" | Retry => "retry" | Dependency => "dependency"
  end.

(** The columns of a run that no statement updates. *)
Record run_info := mk_info {
  i_id : string;
  i_tenant_id : string;
  i_job_id : string;
  i_trigger_type : trigger_type;
  i_attempt : Z;
  i_scheduled_at : time;
  i_available_at : time;
  i_runtime_input : string;
  i_idempotency_key : option string;
  i_parent_run_id : option string;
  i_retry_of_run_id : option string;
  i_external_execution_id : string;
  i_broadcast_group_id : option string;
  i_shard_index : option Z;
  i_shard_total : option Z;
  i_reschedule_on_terminal : bool;
  i_override_addresses : list string;
}.

(** A row of [job_runs]. *)
Record run_row := mk_run {
  r_info : run_info;
  r_status : run_status;
  r_lease_owner : option string;
  r_lease_token : option string;
  r_lease_until : option time;
  r_started_at : option time;
  r_finished_at : option time;
  r_response_status : option Z;
  r_response_body : option string;
  r_error_message : option string;
  r_executor_node_id : option string;
  r_executor_address : option string;
  r_callback_token_hash : option string;
  r_callback_deadline : option time;
  r_callback_consumed_at : option time;
}.

Definition r_id (r : run_row) : string := i_id (r_info r).
Definition r_tenant_id (r : run_row) : string := i_tenant_id (r_info r).
Definition r_job_id (r : run_row) : string := i_job_id (r_info r).
Definition r_attempt (r : run_row) : Z := i_attempt (r_info r).
Definition r_available_at (r : run_row) : time := i_available_at (r_info r).
Definition r_broadcast_group_id (r : run_row) : option string := i_broadcast_group_id (r_info r).
Definition r_reschedule (r : run_row) : bool := i_reschedule_on_terminal (r_info r).
Definition r_active (r : run_row) : bool := active (r_status r).

(** A run as an [INSERT] leaves it: the columns it does not name are NULL. *)
Definition new_run (info : run_info) (status : run_status) (finished_at : option time)
    (error_message node address : option string) : run_row :=
  {| r_info := info; r_status := status; r_lease_owner := None; r_lease_token := None;
     r_lease_until := None; r_started_at := None; r_finished_at := finished_at;
     r_response_status := None; r_response_body := None; r_error_message := error_message;
     r_executor_node_id := node; r_executor_address := address;
     r_callback_token_hash := None; r_callback_deadline := None;
     r_callback_consumed_at := None |}.

Record tenant_row := mk_tenant { t_id : string; t_name : string; t_max_concurrent_runs : Z }.

(** The columns of a job that hold its headers and registry credentials. *)
Record sealed_columns := mk_sealed {
  z_headers : string;
  z_encrypted_headers : option string;
  z_encryption_key_version : option Z;
  z_encrypted_docker_registry_auth : option string;
  z_docker_registry_auth_key_version : option Z;
}.

(** The other columns of a job an update of its configuration replaces. *)
Record job_conf := mk_conf {
  c_name : string;
  c_description : string;
  c_schedule_type : string;
  c_schedule_expression : string;
  c_timezone : string;
  c_target_url : string;
  c_http_method : string;
  c_body_template : string;
  c_timeout_seconds : Z;
  c_max_retries : Z;
  c_overlap_policy : string;
  c_misfire_policy : string;
  c_max_concurrent_runs : Z;
  c_max_catch_up : Z;
  c_callback_timeout_seconds : Z;
  c_max_queue_size : Z;
  c_executor_group_id : option string;
  c_executor_handler : string;
  c_script_language : string;
  c_script_source : string;
  c_kubernetes_cluster_id : option string;
}.

(** A row of [jobs]. *)
Record job_row := mk_job {
  j_id : string;
  j_tenant_id : string;
  j_conf : job_conf;
  j_sealed : sealed_columns;
  j_enabled : bool;
  j_next_run_at : option time;
  j_last_run_at : option time;
  j_version : Z;
  j_created_at : time;
  j_updated_at : time;
}.

Definition j_schedule_type (j : job_row) : string := c_schedule_type (j_conf j).
Definition j_schedule_expression (j : job_row) : string := c_schedule_expression (j_conf j).
Definition j_timezone (j : job_row) : string := c_timezone (j_conf j).
Definition j_overlap_policy (j : job_row) : string := c_overlap_policy (j_conf j).
Definition j_max_queue_size (j : job_row) : Z := c_max_queue_size (j_conf j).
Definition j_max_retries (j : job_row) : Z := c_max_retries (j_conf j).
Definition j_max_concurrent_runs (j : job_row) : Z := c_max_concurrent_runs (j_conf j).
Definition j_executor_group_id (j : job_row) : option string := c_executor_group_id (j_conf j).
Definition j_kubernetes_cluster_id (j : job_row) : option string :=
  c_kubernetes_cluster_id (j_conf j).

Record idempotency_row := mk_idem {
  k_tenant_id : string; k_job_id : string; k_key : string;
  k_run_id : string; k_scheduled_at : time; k_created_at : time;
}.

Record dependency_row := mk_dep {
  d_tenant_id : string; d_parent_job_id : string; d_child_job_id : string;
}.

Record dispatch_row := mk_dispatch {
  x_parent_run_id : string; x_child_job_id : string;
  x_child_run_id : string; x_child_scheduled_at : time; x_created_at : time;
}.

Record group_row := mk_group {
  g_id : string; g_tenant_id : string; g_name : string;
  g_route_strategy : string; g_registration_mode : string; g_version : Z;
}.

Record node_row := mk_node {
  n_group_id : string; n_node_id : string; n_address : string;
  n_expires_at : time; n_updated_at : time; n_is_static : bool; n_labels : list string;
}.

Record label_row := mk_label { l_job_id : string; l_label : string; l_excluded : bool }.

(** [executor_job_route_counters], [executor_job_route_state] and
    [executor_override_route_state] *)
Record counter_row := mk_counter { u_job_id : string; u_route_count : Z }.
Record route_row := mk_route {
  v_job_id : string; v_group_id : string; v_node_id : string;
  v_use_count : Z; v_last_used_at : option time;
}.
Record override_row := mk_override {
  o_job_id : string; o_address : string; o_use_count : Z; o_last_used_at : time;
}.

(** [executor_commands]; the payload is the object the cancellation builds. *)
Record command_payload := mk_payload {
  p_reason : string; p_external_execution_id : string; p_job_id : string;
  p_script_language : string; p_kubernetes_cluster_id : string;
}.
Record command_row := mk_command {
  m_id : string; m_tenant_id : string; m_run_id : string; m_executor_address : string;
  m_payload : command_payload; m_delivered : bool; m_attempts : Z; m_available_at : time;
  m_locked_by : option string; m_locked_until : option time; m_last_error : option string;
  m_delivered_at : option time; m_created_at : time;
}.

(** [outbox_events]; of the payload, the columns of the run it copies. *)
Record event_row := mk_event {
  e_id : string; e_tenant_id : string; e_topic : string;
  e_run_id : string; e_job_id : string; e_status : run_status; e_attempt : Z;
  e_trigger_type : trigger_type; e_occurred_at : time;
  e_available_at : time; e_published_at : option time; e_attempts : Z;
  e_locked_by : option string; e_locked_until : option time; e_last_error : option string;
}.

Record cluster_row := mk_cluster {
  q_id : string; q_tenant_id : string; q_name : string; q_auth_mode : string;
  q_api_server : string; q_namespace : string; q_encrypted_credentials : string;
  q_encryption_key_version : Z; q_insecure_skip_tls_verify : bool;
  q_max_concurrent_jobs : Z; q_version : Z; q_created_at : time; q_updated_at : time;
}.

(** [job_run_logs] and [job_script_versions] *)
Record log_row := mk_log {
  w_id : Z; w_tenant_id : string; w_run_id : string; w_entry_id : string;
  w_stream : string; w_content : string; w_created_at : time;
}.
Record script_row := mk_script {
  s_id : string; s_tenant_id : string; s_job_id : string; s_revision : Z;
  s_script_language : string; s_script_source : string; s_remark : string; s_created_at : time;
}.

(** [notification_channels], [notification_channel_jobs] and
    [notification_deliveries] *)
Record channel_row := mk_channel {
  h_id : string; h_tenant_id : string; h_kind : string; h_name : string;
  h_config : string; h_encrypted_config : option string; h_encryption_key_version : option Z;
  h_event_types : list string; h_all_jobs : bool; h_max_attempts : Z;
  h_backoff_initial_seconds : Z; h_backoff_max_seconds : Z; h_enabled : bool;
  h_deleted_at : option time; h_version : Z; h_created_at : time;
}.
Record channel_job_row := mk_channel_job { b_channel_id : string; b_job_id : string }.

Inductive delivery_status := DeliveryPending | DeliveryDelivered | DeliveryDead.

#[export] Instance delivery_status_eq_dec : EqDecision delivery_status.
Proof. solve_decision. Defined.

Record delivery_row := mk_delivery {
  y_id : string; y_event_id : string; y_channel_id : string; y_status : delivery_status;
  y_attempts : Z; y_available_at : time; y_locked_by : option string;
  y_locked_until : option time; y_last_error : option string;
  y_delivered_at : option time; y_dead_at : option time; y_created_at : time;
}.

Record notify_tables := mk_notify {
  notification_channels : list channel_row;
  notification_channel_jobs : list channel_job_row;
  notification_deliveries : list delivery_row;
}.

Record db := mk_db {
  tenants : list tenant_row;
  jobs : list job_row;
  job_runs : list run_row;
  job_run_idempotency : list idempotency_row;
  job_dependencies : list dependency_row;
  job_dependency_dispatches : list dispatch_row;
  executor_groups : list group_row;
  executor_nodes : list node_row;
  job_executor_labels : list label_row;
  route_counters : list counter_row;
  route_state : list route_row;
  override_route_state : list override_row;
  executor_commands : list command_row;
  outbox_events : list event_row;
  kubernetes_clusters : list cluster_row;
  job_run_logs : list log_row;
  log_sequence : Z;    (* last value of the serial column of the logs *)
  job_script_versions : list script_row;
  uuids_drawn : nat;   (* identifiers drawn so far *)
  clock_reads : nat;   (* readings of the process clock so far *)
  notify : notify_tables;
}.

(** Replacing one table. *)
Definition set_jobs x (s : db) : db :=
  mk_db (tenants s) x (job_runs s) (job_run_idempotency s) (job_dependencies s)
    (job_dependency_dispatches s) (executor_groups s) (executor_nodes s)
    (job_executor_labels s) (route_counters s) (route_state s) (override_route_state s)
    (executor_commands s) (outbox_events s) (kubernetes_clusters s) (job_run_logs s)
    (log_sequence s) (job_script_versions s) (uuids_drawn s) (clock_reads s) (notify s).
Definition set_job_runs x (s : db) : db :=
  mk_db (tenants s) (jobs s) x (job_run_idempotency s) (job_dependencies s)
    (job_dependency_dispatches s) (executor_groups s) (executor_nodes s)
    (job_executor_labels s) (route_counters s) (route_state s) (override_route_state s)
    (executor_commands s) (outbox_events s) (kubernetes_clusters s) (job_run_logs s)
    (log_sequence s) (job_script_versions s) (uuids_drawn s) (clock_reads s) (notify s).
Definition set_job_run_idempotency x (s : db) : db :=
  mk_db (tenants s) (jobs s) (job_runs s) x (job_dependencies s)
    (job_dependency_dispatches s) (executor_groups s) (executor_nodes s)
    (job_executor_labels s) (route_counters s) (route_state s) (override_route_state s)
    (executor_commands s) (outbox_events s) (kubernetes_clusters s) (job_run_logs s)
    (log_sequence s) (job_script_versions s) (uuids_drawn s) (clock_reads s) (notify s).
Definition set_job_dependencies x (s : db) : db :=
  mk_db (tenants s) (jobs s) (job_runs s) (job_run_idempotency s) x
    (job_dependency_dispatches s) (executor_groups s) (executor_nodes s)
    (job_executor_labels s) (route_counters s) (route_state s) (override_route_state s)
    (executor_commands s) (outbox_events s) (kubernetes_clusters s) (job_run_logs s)
    (log_sequence s) (job_script_versions s) (uuids_drawn s) (clock_reads s) (notify s).
Definition set_job_dependency_dispatches x (s : db) : db :=
  mk_db (tenants s) (jobs s) (job_runs s) (job_run_idempotency s) (job_dependencies s) x
    (executor_groups s) (executor_nodes s) (job_executor_labels s) (route_counters s)
    (route_state s) (override_route_state s) (executor_commands s) (outbox_events s)
    (kubernetes_clusters s) (job_run_logs s) (log_sequence s) (job_script_versions s)
    (uuids_drawn s) (clock_reads s) (notify s).
Definition set_executor_groups x (s : db) : db :=
  mk_db (tenants s) (jobs s) (job_runs s) (job_run_idempotency s) (job_dependencies s)
    (job_dependency_dispatches s) x (executor_nodes s) (job_executor_labels s)
    (route_counters s) (route_state s) (override_route_state s) (executor_commands s)
    (outbox_events s) (kubernetes_clusters s) (job_run_logs s) (log_sequence s)
    (job_script_versions s) (uuids_drawn s) (clock_reads s) (notify s).
Definition set_executor_nodes x (s : db) : db :=
  mk_db (tenants s) (jobs s) (job_runs s) (job_run_idempotency s) (job_dependencies s)
    (job_dependency_dispatches s) (executor_groups s) x (job_executor_labels s)
    (route_counters s) (route_state s) (override_route_state s) (executor_commands s)
    (outbox_events s) (kubernetes_clusters s) (job_run_logs s) (log_sequence s)
    (job_script_versions s) (uuids_drawn s) (clock_reads s) (notify s).
Definition set_job_executor_labels x (s : db) : db :=
  mk_db (tenants s) (jobs s) (job_runs s) (job_run_idempotency s) (job_dependencies s)
    (job_dependency_dispatches s) (executor_groups s) (executor_nodes s) x
    (route_counters s) (route_state s) (override_route_state s) (executor_commands s)
    (outbox_events s) (kubernetes_clusters s) (job_run_logs s) (log_sequence s)
    (job_script_versions s) (uuids_drawn s) (clock_reads s) (notify s).
Definition set_route_counters x (s : db) : db :=
  mk_db (tenants s) (jobs s) (job_runs s) (job_run_idempotency s) (job_dependencies s)
    (job_dependency_dispatches s) (executor_groups s) (executor_nodes s)
    (job_executor_labels s) x (route_state s) (override_route_state s)
    (executor_commands s) (outbox_events s) (kubernetes_clusters s) (job_run_logs s)
    (log_sequence s) (job_script_versions s) (uuids_drawn s) (clock_reads s) (notify s).
Definition set_route_state x (s : db) : db :=
  mk_db (tenants s) (jobs s) (job_runs s) (job_run_idempotency s) (job_dependencies s)
    (job_dependency_dispatches s) (executor_groups s) (executor_nodes s)
    (job_executor_labels s) (route_counters s) x (override_route_state s)
    (executor_commands s) (outbox_events s) (kubernetes_clusters s) (job_run_logs s)
    (log_sequence s) (job_script_versions s) (uuids_drawn s) (clock_reads s) (notify s).
Definition set_override_route_state x (s : db) : db :=
  mk_db (tenants s) (jobs s) (job_runs s) (job_run_idempotency s) (job_dependencies s)
    (job_dependency_dispatches s) (executor_groups s) (executor_nodes s)
    (job_executor_labels s) (route_counters s) (route_state s) x (executor_commands s)
    (outbox_events s) (kubernetes_clusters s) (job_run_logs s) (log_sequence s)
    (job_script_versions s) (uuids_drawn s) (clock_reads s) (notify s).
Definition set_executor_commands x (s : db) : db :=
  mk_db (tenants s) (jobs s) (job_runs s) (job_run_idempotency s) (job_dependencies s)
    (job_dependency_dispatches s) (executor_groups s) (executor_nodes s)
    (job_executor_labels s) (route_counters s) (route_state s) (override_route_state s)
    x (outbox_events s) (kubernetes_clusters s) (job_run_logs s) (log_sequence s)
    (job_script_versions s) (uuids_drawn s) (clock_reads s) (notify s).
Definition set_outbox_events x (s : db) : db :=
  mk_db (tenants s) (jobs s) (job_runs s) (job_run_idempotency s) (job_dependencies s)
    (job_dependency_dispatches s) (executor_groups s) (executor_nodes s)
    (job_executor_labels s) (route_counters s) (route_state s) (override_route_state s)
    (executor_commands s) x (kubernetes_clusters s) (job_run_logs s) (log_sequence s)
    (job_script_versions s) (uuids_drawn s) (clock_reads s) (notify s).
Definition set_kubernetes_clusters x (s : db) : db :=
  mk_db (tenants s) (jobs s) (job_runs s) (job_run_idempotency s) (job_dependencies s)
    (job_dependency_dispatches s) (executor_groups s) (executor_nodes s)
    (job_executor_labels s) (route_counters s) (route_state s) (override_route_state s)
    (executor_commands s) (outbox_events s) x (job_run_logs s) (log_sequence s)
    (job_script_versions s) (uuids_drawn s) (clock_reads s) (notify s).
Definition set_job_run_logs x (s : db) : db :=
  mk_db (tenants s) (jobs s) (job_runs s) (job_run_idempotency s) (job_dependencies s)
    (job_dependency_dispatches s) (executor_groups s) (executor_nodes s)
    (job_executor_labels s) (route_counters s) (route_state s) (override_route_state s)
    (executor_commands s) (outbox_events s) (kubernetes_clusters s) x (log_sequence s)
    (job_script_versions s) (uuids_drawn s) (clock_reads s) (notify s).
Definition set_log_sequence x (s : db) : db :=
  mk_db (tenants s) (jobs s) (job_runs s) (job_run_idempotency s) (job_dependencies s)
    (job_dependency_dispatches s) (executor_groups s) (executor_nodes s)
    (job_executor_labels s) (route_counters s) (route_state s) (override_route_state s)
    (executor_commands s) (outbox_events s) (kubernetes_clusters s) (job_run_logs s) x
    (job_script_versions s) (uuids_drawn s) (clock_reads s) (notify s).
Definition set_job_script_versions x (s : db) : db :=
  mk_db (tenants s) (jobs s) (job_runs s) (job_run_idempotency s) (job_dependencies s)
    (job_dependency_dispatches s) (executor_groups s) (executor_nodes s)
    (job_executor_labels s) (route_counters s) (route_state s) (override_route_state s)
    (executor_commands s) (outbox_events s) (kubernetes_clusters s) (job_run_logs s)
    (log_sequence s) x (uuids_drawn s) (clock_reads s) (notify s).
Definition set_uuids_drawn x (s : db) : db :=
  mk_db (tenants s) (jobs s) (job_runs s) (job_run_idempotency s) (job_dependencies s)
    (job_dependency_dispatches s) (executor_groups s) (executor_nodes s)
    (job_executor_labels s) (route_counters s) (route_state s) (override_route_state s)
    (executor_commands s) (outbox_events s) (kubernetes_clusters s) (job_run_logs s)
    (log_sequence s) (job_script_versions s) x (clock_reads s) (notify s).
Definition set_clock_reads x (s : db) : db :=
  mk_db (tenants s) (jobs s) (job_runs s) (job_run_idempotency s) (job_dependencies s)
    (job_dependency_dispatches s) (executor_groups s) (executor_nodes s)
    (job_executor_labels s) (route_counters s) (route_state s) (override_route_state s)
    (executor_commands s) (outbox_events s) (kubernetes_clusters s) (job_run_logs s)
    (log_sequence s) (job_script_versions s) (uuids_drawn s) x (notify s).
Definition set_notify x (s : db) : db :=
  mk_db (tenants s) (jobs s) (job_runs s) (job_run_idempotency s) (job_dependencies s)
    (job_dependency_dispatches s) (executor_groups s) (executor_nodes s)
    (job_executor_labels s) (route_counters s) (route_state s) (override_route_state s)
    (executor_commands s) (outbox_events s) (kubernetes_clusters s) (job_run_logs s)
    (log_sequence s) (job_script_versions s) (uuids_drawn s) (clock_reads s) x.

Definition channels (s : db) : list channel_row := notification_channels (notify s).
Definition channel_jobs (s : db) : list channel_job_row := notification_channel_jobs (notify s).
Definition deliveries (s : db) : list delivery_row := notification_deliveries (notify s).
Definition set_channels x (s : db) : db := set_notify (mk_notify x (channel_jobs s) (deliveries s)) s.
Definition set_channel_jobs x (s : db) : db := set_notify (mk_notify (channels s) x (deliveries s)) s.
Definition set_deliveries x (s : db) : db := set_notify (mk_notify (channels s) (channel_jobs s) x) s.

(** ** The transaction monad *)

(** The identifier supply and the clock of the process. *)
Class Host := {
  uuid : nat → string;
  wall_clock : nat → time;
}.
Class HostLaws `{Host} : Prop := {
  uuid_inj : Inj (=) (=) uuid;
  uuid_nonempty : ∀ n, uuid n ≠ "";
}.

(** [now()] of the transaction, and the rows (by key) other transactions hold
    locks on, which [SKIP LOCKED] passes over. *)
Record env := mk_env { tx_now : time; tx_locked : string → bool }.

Definition tx (A : Type) : Type := env → db → result (A * db).

#[export] Instance tx_ret : MRet tx := λ A a _ s, Ok (a, s).
#[export] Instance tx_bind : MBind tx := λ A B f m e s,
  match m e s with Ok (a, s') => f a e s' | Err err => Err err end.

Definition fail {A} (err : error) : tx A := λ _ _, Err err.
Definition lift {A} (r : result A) : tx A := λ _ s,
  match r with Ok a => Ok (a, s) | Err err => Err err end.
Definition get : tx db := λ _ s, Ok (s, s).
Definition modify (f : db → db) : tx unit := λ _ s, Ok (tt, f s).
Definition now : tx time := λ e s, Ok (tx_now e, s).
Definition locked : tx (string → bool) := λ e s, Ok (tx_locked e, s).
Definition new_uuid `{Host} : tx string := λ _ s,
  Ok (uuid (uuids_drawn s), set_uuids_drawn (S (uuids_drawn s)) s).
Definition time_now `{Host} : tx time := λ _ s,
  Ok (wall_clock (clock_reads s), set_clock_reads (S (clock_reads s)) s).

(** [for _, x := range l { f x }] *)
Fixpoint for_each {A} (l : list A) (f : A → tx unit) : tx unit :=
  match l with
  | [] => mret tt
  | x :: rest => _ ← f x; for_each rest f
  end.

(** Running a transaction: the state is replaced on commit only. *)
Definition commit {A} (m : tx A) (e : env) (s : db) : result A * db :=
  match m e s with Ok (a, s') => (Ok a, s') | Err err => (Err err, s) end.

Lemma tx_bind_Ok {A B} (m : tx A) (f : A → tx B) e s a s' :
  m e s = Ok (a, s') → (m ≫= f) e s = f a e s'.
Proof. unfold mbind, tx_bind. by intros ->. Qed.

(** ** Proof rules

    [wp m Q e s]: when [m], run from [s], commits, its value and final state
    satisfy [Q]. *)
Definition wp {A} (m : tx A) (Q : A → db → Prop) (e : env) (s : db) : Prop :=
  match m e s with Ok (a, s') => Q a s' | Err _ => True end.

Lemma wp_ret {A} (a : A) Q e s : Q a s → wp (mret a) Q e s.
Proof. done. Qed.

Lemma wp_bind {A B} (m : tx A) (f : A → tx B) Q e s :
  wp m (λ a s', wp (f a) Q e s') e s → wp (mbind f m) Q e s.
Proof. unfold wp, mbind, tx_bind. destruct (m e s) as [[a s']|]; done. Qed.

Lemma wp_mono {A} (m : tx A) (P Q : A → db → Prop) e s :
  wp m P e s → (∀ a s', P a s' → Q a s') → wp m Q e s.
Proof. unfold wp. destruct (m e s) as [[a s']|]; auto. Qed.

Lemma wp_any {A} (m : tx A) (Q : A → db → Prop) e s : (∀ a s', Q a s') → wp m Q e s.
Proof. unfold wp. intros HQ. destruct (m e s) as [[a s']|]; auto. Qed.

Lemma wp_fail {A} err Q e s : wp (@fail A err) Q e s.
Proof. done. Qed.

Lemma wp_lift {A} (r : result A) (Q : A → db → Prop) e s :
  (∀ a, r = Ok a → Q a s) → wp (lift r) Q e s.
Proof. unfold wp, lift. destruct r; auto. Qed.

Lemma wp_get Q e s : Q s s → wp get Q e s.
Proof. done. Qed.

Lemma wp_modify f (Q : unit → db → Prop) e s : Q tt (f s) → wp (modify f) Q e s.
Proof. done. Qed.

Lemma wp_now (Q : time → db → Prop) e s : Q (tx_now e) s → wp now Q e s.
Proof. done. Qed.

Lemma wp_locked (Q : _ → db → Prop) e s : Q (tx_locked e) s → wp locked Q e s.
Proof. done. Qed.

(** A loop keeps an invariant that its body keeps. *)
Lemma wp_for_each {A} (l : list A) (f : A → tx unit) (I : db → Prop) e s :
  (∀ x s, x ∈ l → I s → wp (f x) (λ _ s', I s') e s) →
  I s → wp (for_each l f) (λ _ s', I s') e s.
Proof.
  revert s. induction l as [|x l IH]; intros s Hf Hs; cbn; [done|].
  apply wp_bind. eapply wp_mono; [apply Hf; [by left|done]|].
  intros [] s0 Hs0. apply IH; [|done]. intros y s1 Hy. apply Hf. by right.
Qed.

(** [preserves R m]: [m] takes every state to a state [R] relates it to.  The
    rules are for a preorder, so [m] is taken apart into its statements. *)
Definition preserves (R : db → db → Prop) {A} (m : tx A) : Prop :=
  ∀ e s, wp m (λ _ s', R s s') e s.

Section preserves.
Context (R : db → db → Prop) `{!PreOrder R}.

Lemma preserves_bind {A B} (m : tx A) (f : A → tx B) :
  preserves R m → (∀ a, preserves R (f a)) → preserves R (mbind f m).
Proof.
  intros Hm Hf e s. apply wp_bind. eapply wp_mono; [apply Hm|].
  intros a s1 H1. eapply wp_mono; [apply Hf|]. intros b s2 H2. by transitivity s1.
Qed.

Lemma preserves_ret {A} (a : A) : preserves R (mret a).
Proof. intros e s. by apply wp_ret. Qed.
Lemma preserves_fail {A} err : preserves R (@fail A err).
Proof. done. Qed.
Lemma preserves_get : preserves R get.
Proof. intros e s. by apply wp_get. Qed.
Lemma preserves_now : preserves R now.
Proof. intros e s. by apply wp_now. Qed.
Lemma preserves_locked : preserves R locked.
Proof. intros e s. by apply wp_locked. Qed.
Lemma preserves_lift {A} (r : result A) : preserves R (lift r).
Proof. intros e s. by apply wp_lift. Qed.

Lemma preserves_for_each {A} (l : list A) f :
  (∀ x, preserves R (f x)) → preserves R (for_each l f).
Proof.
  intros Hf. induction l as [|x l IH]; [apply preserves_ret|].
  apply preserves_bind; [apply Hf|by intros []].
Qed.

Lemma preserves_wp {A} (m : tx A) (Q : A → db → Prop) e s :
  preserves R m → (∀ a s', R s s' → Q a s') → wp m Q e s.
Proof. intros Hm HQ. specialize (Hm e s). unfold wp in *. destruct (m e s) as [[a s']|]; auto. Qed.

Lemma preserves_modify f : (∀ s, R s (f s)) → preserves R (modify f).
Proof. intros Hf e s. by apply wp_modify. Qed.

Lemma preserves_commit {A} (m : tx A) e s : preserves R m → R s (commit m e s).2.
Proof.
  intros Hm. specialize (Hm e s). unfold wp, commit in *.
  by destruct (m e s) as [[a s']|].
Qed.
End preserves.

Create HintDb preserves.
#[export] Hint Resolve preserves_ret preserves_fail preserves_get preserves_now preserves_locked
  preserves_lift : preserves.

(** Takes a transaction apart; statements are left to the hints. *)
Ltac preserves_step :=
  lazymatch goal with
  | |- preserves _ (mbind _ _) => apply preserves_bind; [apply _| |intros ?]
  | |- preserves _ (if ?b then _ else _) => destruct b
  | |- preserves _ (match ?x with _ => _ end) => destruct x
  | |- preserves _ (for_each _ _) => apply preserves_for_each; [apply _|intros ?]
  | |- preserves _ _ => solve [eauto with preserves typeclass_instances]
  end.
Ltac preserve := cbv zeta; repeat preserves_step.

Lemma wp_modify_if (b : bool) err f Q e s :
  (b = false → Q tt (f s)) → wp (if b then fail err else modify f) Q e s.
Proof. destruct b; [done|]. intros HQ. by apply HQ. Qed.

(** ** Lifecycle events

    [runLifecycleEventSQL] of [internal/store/outbox.go] inserts an event for
    the run when it has the status the caller expects. *)
Definition run_event (id topic : string) (occurred_at : time) (r : run_row) : event_row :=
  {| e_id := id; e_tenant_id := r_tenant_id r; e_topic := topic;
     e_run_id := r_id r; e_job_id := r_job_id r; e_status := r_status r;
     e_attempt := r_attempt r; e_trigger_type := i_trigger_type (r_info r);
     e_occurred_at := occurred_at; e_available_at := occurred_at; e_published_at := None;
     e_attempts := 0; e_locked_by := None; e_locked_until := None; e_last_error := None |}.

Definition run_has (runID : string) (status : run_status) (r : run_row) : bool :=
  (r_id r ==s runID) && (r_status r =st status).

Definition insert_run_event (runID : string) (expected : run_status) (eventType id : string)
    (t : time) (s : db) : db :=
  set_outbox_events
    (outbox_events s ++ map (run_event id (("job.run." ++ eventType)%string) t)
                            (sql_select (run_has runID expected) (job_runs s))) s.

(** The primary key of [outbox_events] refuses a second row with the identifier. *)
Definition event_conflict (runID : string) (expected : run_status) (id : string) (s : db) : bool :=
  let n := sql_count (run_has runID expected) (job_runs s) in
  Nat.ltb 1 n || (Nat.ltb 0 n && sql_exists (λ x, e_id x ==s id) (outbox_events s)).

Definition exec_run_event (runID : string) (expected : run_status) (eventType id : string)
    : tx unit :=
  t ← now;
  s ← get;
  if event_conflict runID expected id s then fail (ErrMsg "emit run event")
  else modify (insert_run_event runID expected eventType id t).

Definition emitRunEventTx `{Host} (runID : string) (expected : run_status) (eventType : string)
    : tx unit :=
  id ← new_uuid;
  exec_run_event runID expected eventType id.

Definition emitRunLifecycleEventTx `{Host} (runID : string) (status : run_status) : tx unit :=
  emitRunEventTx runID status (status_text status).

Lemma wp_exec_run_event runID st ty id Q e s :
  (event_conflict runID st id s = false → Q tt (insert_run_event runID st ty id (tx_now e) s)) →
  wp (exec_run_event runID st ty id) Q e s.
Proof. apply wp_modify_if. Qed.

(** An emitted event changes the outbox and the identifier supply only. *)
Lemma emitRunEventTx_frame `{Host} runID st ty e s u s' :
  emitRunEventTx runID st ty e s = Ok (u, s') →
  ∃ events, s' = set_outbox_events events (set_uuids_drawn (S (uuids_drawn s)) s).
Proof.
  unfold emitRunEventTx, exec_run_event, mbind, tx_bind, new_uuid, now, get.
  destruct (event_conflict _ _ _ _); [done|]. intros E. injection E as _ <-. by eexists.
Qed.
