(* ===== verification/Proto.v ===== *)
(** * Messages between the scheduler and its executors

    The messages of [api/proto/executor/v1/executor.proto]. *)
From Stdlib Require Import ZArith Ascii String.
From stdpp Require Import base list strings.
From S2P Require Import Prelude.

Module Proto.

Record RegistryAccess := mk_registry { ra_Server : string; ra_Username : string; ra_Password : string }.

Record HttpExecution := mk_http {
  Http_Url : string; Http_Method : string; Http_Headers : list (string * string); Http_Body : string;
}.

Record ClusterAccess := mk_access {
  ca_AuthMode : string; ca_ApiServer : string; ca_Namespace : string; ca_Kubeconfig : string;
  ca_Token : string; ca_CaData : string; ca_InsecureSkipTlsVerify : bool;
}.

Record DispatchRequest := mk_dispatch {
  RunId : string; ExternalExecutionId : string; JobId : string; dr_Attempt : Z; Handler : string;
  Input : string; CallbackToken : string; TimeoutSeconds : Z; BroadcastGroupId : string;
  BroadcastIndex : Z; BroadcastTotal : Z; ScriptLanguage : string; ScriptSource : string;
  dr_KubernetesCluster : option ClusterAccess; dr_Http : option HttpExecution;
  dr_DockerRegistryAuth : option RegistryAccess; ExecutionDeadlineUnixMilli : Z;
}.

Record CancelRequest := mk_cancel {
  cr_RunId : string; cr_Reason : string; cr_ExternalExecutionId : string; cr_JobId : string;
  cr_ScriptLanguage : string; cr_KubernetesCluster : option ClusterAccess;
}.

Record DispatchResponse := mk_response { Accepted : bool; ExecutionId : string; State : string }.

Record ExecutionState := mk_state {
  es_RunId : string; es_ExecutionId : string; es_State : string; es_Message : string;
}.

#[export] Instance ClusterAccess_eq_dec : EqDecision ClusterAccess.
Proof. solve_decision. Defined.
#[export] Instance HttpExecution_eq_dec : EqDecision HttpExecution.
Proof. solve_decision. Defined.
#[export] Instance RegistryAccess_eq_dec : EqDecision RegistryAccess.
Proof. solve_decision. Defined.
#[export] Instance DispatchRequest_eq_dec : EqDecision DispatchRequest.
Proof. solve_decision. Defined.
End Proto.
