(* ===== verification/Programs.v ===== *)
(** * Programs over the store

    Code that runs several transactions, with other work between them, is a
    program: it asks the store for a transaction, or the world for something
    else (an effect of the signature [E]), and goes on with the answer.  Other
    processes may use the store between any two of its requests; [run] is the
    undisturbed execution. *)
From Stdlib Require Import ZArith Lia Ascii String.
From stdpp Require Import base list strings.
From S2P Require Import Prelude Tables.

Module Programs.

Section prog.
Context {E : Type → Type}.

Inductive prog (A : Type) : Type :=
| Return (a : A)
| Store {B : Type} (m : tx B) (k : result B → prog A)
| Effect {B : Type} (eff : E B) (k : B → prog A).
Arguments Return {A} a.
Arguments Store {A B} m k.
Arguments Effect {A B} eff k.

Fixpoint prog_bind {A B} (f : A → prog B) (p : prog A) : prog B :=
  match p with
  | Return a => f a
  | Store m k => Store m (λ r, prog_bind f (k r))
  | Effect eff k => Effect eff (λ b, prog_bind f (k b))
  end.
#[global] Instance prog_mret : MRet prog := @Return.
#[global] Instance prog_mbind : MBind prog := @prog_bind.

(** One transaction, one effect. *)
Definition store {A} (m : tx A) : prog (result A) := Store m Return.
Definition effect {A} (eff : E A) : prog A := Effect eff Return.

(** A statement that only reads. *)
Definition query {A} (f : time → db → result A) : tx A :=
  s ← get; t ← now; lift (f t s).

(** [for _, x := range l { f x }] *)
Fixpoint each {A} (f : A → prog unit) (l : list A) : prog unit :=
  match l with
  | [] => Return tt
  | x :: rest => _ ← f x; each f rest
  end.

(** ** Undisturbed execution

    Effects are answered by [h], every transaction runs in the environment
    [e] and gets its answer. *)
Fixpoint run {A} (h : ∀ B, E B → B) (e : env) (p : prog A) (s : db) : A * db :=
  match p with
  | Return a => (a, s)
  | Store m k => let '(r, s') := commit m e s in run h e (k r) s'
  | Effect eff k => run h e (k (h _ eff)) s
  end.

Lemma run_bind {A B} h e (f : A → prog B) p s :
  run h e (p ≫= f) s = let '(a, s') := run h e p s in run h e (f a) s'.
Proof.
  change (p ≫= f) with (prog_bind f p). revert s.
  induction p as [a|C m k IH|C eff k IH]; intros s; cbn; [done| |apply IH].
  destruct (commit m e s) as [r s']. apply IH.
Qed.

(** Execution with a database that may be out of order: then every transaction
    fails with that error and changes nothing. *)
Fixpoint run_with {A} (fault : option error) (h : ∀ B, E B → B) (e : env) (p : prog A) (s : db) : A * db :=
  match p with
  | Return a => (a, s)
  | Store m k =>
      match fault with
      | Some err => run_with fault h e (k (Err err)) s
      | None => let '(r, s') := commit m e s in run_with fault h e (k r) s'
      end
  | Effect eff k => run_with fault h e (k (h _ eff)) s
  end.

Lemma run_with_none {A} h e (p : prog A) s : run_with None h e p s = run h e p s.
Proof.
  revert s. induction p as [a|C m k IH|C eff k IH]; intros s; cbn; [done| |apply IH].
  destruct (commit m e s) as [r s']. apply IH.
Qed.

(** ** What every request of a program satisfies *)
Fixpoint every {A} (P : ∀ B, tx B → Prop) (Q : ∀ B, E B → Prop) (p : prog A) : Prop :=
  match p with
  | Return _ => True
  | Store m k => P _ m ∧ ∀ r, every P Q (k r)
  | Effect eff k => Q _ eff ∧ ∀ b, every P Q (k b)
  end.

Lemma every_bind {A B} P Q (f : A → prog B) p :
  every P Q p → (∀ a, every P Q (f a)) → every P Q (p ≫= f).
Proof.
  change (p ≫= f) with (prog_bind f p). intros Hp Hf.
  induction p as [a|C m k IH|C eff k IH]; cbn in *; [done| |]; destruct Hp; auto.
Qed.

(** A relation that every transaction of the program keeps relates the state
    before it with the one after. *)
Lemma run_preserves {A} (R : db → db → Prop) `{!PreOrder R} h e (p : prog A) s :
  every (λ B m, preserves R m) (λ _ _, True) p → R s (run h e p s).2.
Proof.
  revert s. induction p as [a|C m k IH|C eff k IH]; intros s Hp; cbn in *; [done| |].
  - destruct Hp as [Hm Hk]. pose proof (preserves_commit R m e s Hm) as Hs.
    destruct (commit m e s) as [r s']. cbn in *. etrans; [exact Hs|]. by apply IH.
  - destruct Hp as [_ Hk]. by apply IH.
Qed.
End prog.
#[global] Arguments prog E A : clear implicits.
#[global] Arguments Return {E A} a.
#[global] Arguments Store {E A B} m k.
#[global] Arguments Effect {E A B} eff k.

(** ** Unreliable answers

    A transaction may run and be answered; it may never run because the
    connection or the context failed; or it may commit although the caller is
    told that it failed. *)
Inductive answer {B} (m : tx B) (e : env) (s : db) : result B → db → Prop :=
| answered : answer m e s (commit m e s).1 (commit m e s).2
| not_sent err : answer m e s (Err err) s
| not_confirmed err : answer m e s (Err err) (commit m e s).2.

(** A positive answer is the truth. *)
Lemma answer_ok {B} (m : tx B) e s b s' : answer m e s (Ok b) s' → m e s = Ok (b, s').
Proof.
  intros Ha. inversion Ha as [E1 E2| |]; subst. unfold commit in *.
  by destruct (m e s) as [[b' s1]|err]; cbn in *; simplify_eq.
Qed.

Lemma answer_state {B} (m : tx B) e s r s' : answer m e s r s' → s' = s ∨ s' = (commit m e s).2.
Proof. destruct 1; auto. Qed.
End Programs.
