(* ===== verification/Traces.v ===== *)
(** * Traces of programs

    The effects of a program with their answers, in order, and what holds of them
    in every execution: whatever the world answers. *)
From Stdlib Require Import ZArith Lia.
From stdpp Require Import base list.
From S2P Require Import Prelude Tables Programs.

Module Traces.
Import Programs.

(** An effect with its answer. *)
Definition event (E : Type → Type) : Type := {B : Type & (E B * B)%type}.
Definition happened {E : Type → Type} {B} (eff : E B) (b : B) : event E := existT B (eff, b).
#[global] Arguments happened : simpl never.

Lemma happened_last {E} (x : event E) log : x ∈ log ++ [x].
Proof. apply elem_of_app. right. by apply list_elem_of_singleton. Qed.
Lemma happened_before {E} (x : event E) log log' : log `prefix_of` log' → x ∈ log → x ∈ log'.
Proof. intros [k ->] Hx. apply elem_of_app. by left. Qed.

Section traces.
Context {E : Type → Type} (logged : ∀ B, E B → B → list (event E)).

(** Every execution of [p] after [log] satisfies [Q] at its end; [S] holds of every
    transaction and [P] of every effect it asks for, after what happened before.
    [logged] is what an effect adds to the log. *)
Fixpoint traces {A} (S : list (event E) → ∀ B, tx B → Prop) (P : list (event E) → ∀ B, E B → Prop)
    (p : prog E A) (log : list (event E)) (Q : list (event E) → A → Prop) : Prop :=
  match p with
  | Return a => Q log a
  | Store m k => S log _ m ∧ ∀ r, traces S P (k r) log Q
  | Effect eff k => P log _ eff ∧ ∀ b, traces S P (k b) (log ++ logged _ eff b) Q
  end.

Section rules.
Context (S : list (event E) → ∀ B, tx B → Prop) (P : list (event E) → ∀ B, E B → Prop).

Lemma traces_mono {A} (p : prog E A) log (Q Q' : list (event E) → A → Prop) :
  (∀ log' a, log `prefix_of` log' → Q log' a → Q' log' a) →
  traces S P p log Q → traces S P p log Q'.
Proof.
  revert log. induction p as [a|C m k IH|C eff k IH]; intros log HQ Hp; cbn in *; [by apply HQ| |].
  - split; [apply Hp|]. intros r. apply IH; [done|apply Hp].
  - split; [apply Hp|]. intros b. apply IH; [|apply Hp]. intros log' a Hpre. apply HQ.
    by etrans; [apply prefix_app_r|].
Qed.

Lemma traces_bind {A B} (p : prog E A) (f : A → prog E B) log (Q : list (event E) → B → Prop) :
  traces S P p log (λ log' a, traces S P (f a) log' Q) → traces S P (p ≫= f) log Q.
Proof.
  change (p ≫= f) with (prog_bind f p). revert log.
  induction p as [a|C m k IH|C eff k IH]; intros log Hp; cbn in *; [done| |];
    (split; [apply Hp|]; intros r; apply IH, Hp).
Qed.

Lemma traces_effect {B} (eff : E B) log (Q : list (event E) → B → Prop) :
  P log _ eff → (∀ b, Q (log ++ logged _ eff b) b) → traces S P (effect eff) log Q.
Proof. done. Qed.
End rules.

Lemma traces_impl {A} (S S' : list (event E) → ∀ B, tx B → Prop)
    (P P' : list (event E) → ∀ B, E B → Prop) (p : prog E A) log Q :
  (∀ log B m, S log B m → S' log B m) → (∀ log B eff, P log B eff → P' log B eff) →
  traces S P p log Q → traces S' P' p log Q.
Proof.
  intros HS HP. revert log.
  induction p as [a|C m k IH|C eff k IH]; intros log Hp; cbn in *; [done| |]; naive_solver.
Qed.
End traces.
End Traces.
