(* ===== verification/CompletionStore.v ===== *)
(** * The state directory of an executor

    [pkg/executor/completion_store.go]: accepted executions and completions
    that were not yet reported are kept as files, written under a temporary
    name and renamed.  A directory maps names to contents; an operation
    may fail before it changed the directory, half way, or after. *)
From Stdlib Require Import ZArith Lia Ascii String Sorted.
From stdpp Require Import base list strings gmap.
From S2P Require Import Prelude GoStrings Utf8 GoJson Proto.

(** [time.Time.MarshalJSON] without the quotes, and the size of the protocol
    buffer encoding of a request. *)
Class RecordFormat := {
  format_time : time → string;
  proto_size : Proto.DispatchRequest → Z;
}.

Module CompletionStore.
Import Utf8 GoJson Proto.

Record CompletionRecord := mk_completion {
  co_RunID : string; co_Token : string; co_Succeeded : bool; co_Message : string;
  co_CreatedAt : time;
}.

(** The contents of a file: the JSON text of a completion, the encoding of a
    request, anything else. *)
Inductive file :=
| CompletionFile (r : CompletionRecord)
| ExecutionFile (q : DispatchRequest)
| OtherFile.

Record FileStore := mk_fstore {
  fs_dir : gmap string file; fs_pending : Z; fs_max : Z; fs_executions : Z; fs_maxExecutions : Z;
}.

(** Where an operation on files fails: before it changed anything, between two
    removals, after the change (the final sync of the directory). *)
Inductive fault := NoFault | FaultEarly | FaultMiddle | FaultLate.

Definition set_dir (dir : gmap string file) (pending executions : Z) (s : FileStore) : FileStore :=
  mk_fstore dir pending (fs_max s) executions (fs_maxExecutions s).

(** [truncate] of [executor.go]: bytes, not runes. *)
Definition truncate (value : string) (limit : nat) : string :=
  if Nat.leb (String.length value) limit then value else str_take limit value.

(** ** Names and validation *)

Definition completionFileName (runID : string) : string := runID +:+ ".json".
Definition executionFileName (runID : string) : string := runID +:+ ".execution.pb".

(** [^[a-zA-Z0-9._-]+$] *)
Definition run_id_char (c : ascii) : bool :=
  nat_in 97 122 c || nat_in 65 90 c || is_digit c || ContainsChar "._-" c.

Definition validateCompletionRunID (runID : string) : result unit :=
  if (runID ==s "") || (128 <? len runID) || negb (forall_char run_id_char runID)
  then Err (ErrMsg "completion run ID must contain only letters, digits, dots, underscores, or hyphens")
  else Ok tt.

Definition validateCompletionRecord (r : CompletionRecord) : result unit :=
  _ ← validateCompletionRunID (co_RunID r);
  if (co_Token r ==s "") || (4096 <? len (co_Token r))
  then Err (ErrMsg "completion token must be between 1 and 4096 bytes")
  else if 4096 <? len (co_Message r) then Err (ErrMsg "completion message exceeds 4096 bytes")
  else if IsZero (co_CreatedAt r) then Err (ErrMsg "completion creation time is required")
  else Ok tt.

Definition maxCompletionRecordBytes : Z := 16384.
Definition maxExecutionRecordBytes : Z := 4194304.

Section store.
Context `{RecordFormat}.

(** [json.Marshal(record)]; an empty message is left out. *)
Definition marshal_record (r : CompletionRecord) : string :=
  "{" +:+ json_field "run_id" (json_string (co_RunID r))
  +:+ "," +:+ json_field "token" (json_string (co_Token r))
  +:+ "," +:+ json_field "succeeded" (if co_Succeeded r then "true" else "false")
  +:+ (if co_Message r ==s "" then "" else "," +:+ json_field "message" (json_string (co_Message r)))
  +:+ "," +:+ json_field "created_at" (json_string (format_time (co_CreatedAt r))) +:+ "}".

(** [json.Unmarshal] of that text. *)
Definition unmarshal_record (r : CompletionRecord) : CompletionRecord :=
  mk_completion (json_read (co_RunID r)) (json_read (co_Token r)) (co_Succeeded r)
    (json_read (co_Message r)) (co_CreatedAt r).

(** ** Completions *)

Definition Save (r : CompletionRecord) (f : fault) (s : FileStore) : result unit * FileStore :=
  match validateCompletionRecord r with
  | Err err => (Err err, s)
  | Ok _ =>
      let name := completionFileName (co_RunID r) in
      let published := set_dir (<[name := CompletionFile r]> (fs_dir s)) (fs_pending s + 1)
                         (fs_executions s) s in
      if maxCompletionRecordBytes <? len (marshal_record r)
      then (Err (ErrMsg "completion record exceeds size limit"), s)
      else if fs_max s <=? fs_pending s then (Err (ErrMsg "completion state is full"), s)
      else
        match fs_dir s !! name, f with
        | Some _, _ => (Err (ErrMsg "completion record already exists"), s)
        | None, NoFault => (Ok tt, published)
        | None, FaultLate => (Err (ErrMsg "sync completion state directory"), published)
        | None, _ => (Err (ErrMsg "write temporary completion record"), s)
        end
  end.

(** [os.ReadDir] sorts by name. *)
Definition entries (dir : gmap string file) : list (string * file) :=
  sort_by (λ a b, String.leb a.1 b.1) (map_to_list dir).

Definition HasSuffix (s suffix : string) : bool :=
  Nat.leb (String.length suffix) (String.length s)
  && (str_drop (String.length s - String.length suffix) s ==s suffix).

Fixpoint read_completions (es : list (string * file)) : result (list CompletionRecord) :=
  match es with
  | [] => Ok []
  | (name, file) :: rest =>
      if negb (HasSuffix name ".json") then read_completions rest
      else
        match file with
        | CompletionFile r =>
            if maxCompletionRecordBytes <? len (marshal_record r)
            then Err (ErrMsg "completion record exceeds size limit")
            else
              let r := unmarshal_record r in
              _ ← validateCompletionRecord r;
              if name !=s completionFileName (co_RunID r)
              then Err (ErrMsg "completion record has mismatched run ID")
              else rs ← read_completions rest; Ok (r :: rs)
        | _ => Err (ErrMsg "decode completion record")
        end
  end.

Definition completion_le (a b : CompletionRecord) : bool :=
  if co_CreatedAt a =? co_CreatedAt b then String.leb (co_RunID a) (co_RunID b)
  else co_CreatedAt a <? co_CreatedAt b.

Definition List (s : FileStore) : result (list CompletionRecord) :=
  rs ← read_completions (entries (fs_dir s)); Ok (sort_by completion_le rs).

(** ** Executions *)

Definition set_deadline (deadline : Z) (q : DispatchRequest) : DispatchRequest :=
  mk_dispatch (RunId q) (ExternalExecutionId q) (JobId q) (dr_Attempt q) (Handler q) (Input q)
    (CallbackToken q) (TimeoutSeconds q) (BroadcastGroupId q) (BroadcastIndex q) (BroadcastTotal q)
    (ScriptLanguage q) (ScriptSource q) (dr_KubernetesCluster q) (dr_Http q)
    (dr_DockerRegistryAuth q) deadline.

(** [writeAtomicLocked] of an execution record; [added] is what the counter
    grows by on success. *)
Definition write_execution (q : DispatchRequest) (added : Z) (f : fault) (s : FileStore)
    : result unit * FileStore :=
  let dir := <[executionFileName (RunId q) := ExecutionFile q]> (fs_dir s) in
  match f with
  | NoFault => (Ok tt, set_dir dir (fs_pending s) (fs_executions s + added) s)
  | FaultLate => (Err (ErrMsg "sync executor state directory"),
                  set_dir dir (fs_pending s) (fs_executions s) s)
  | _ => (Err (ErrMsg "write temporary executor state"), s)
  end.

Definition SaveExecution (q : DispatchRequest) (f : fault) (s : FileStore)
    : result unit * FileStore :=
  match validateCompletionRunID (RunId q) with
  | Err err => (Err err, s)
  | Ok _ =>
      if (JobId q ==s "") || (Handler q ==s "") || (CallbackToken q ==s "")
         || (TimeoutSeconds q <? 1)
      then (Err (ErrMsg "execution request is incomplete"), s)
      else if maxExecutionRecordBytes <? proto_size q
      then (Err (ErrMsg "execution record exceeds size limit"), s)
      else
        match fs_dir s !! executionFileName (RunId q) with
        | Some (ExecutionFile existing) =>
            if bool_decide (existing = q) then (Ok tt, s)
            else if (ExecutionDeadlineUnixMilli existing =? 0)
                    && bool_decide (existing = set_deadline 0 q)
            then write_execution q 0 f s
            else (Err (ErrMsg "execution record already exists with different content"), s)
        | Some _ => (Err (ErrMsg "execution record already exists with different content"), s)
        | None =>
            if fs_maxExecutions s <=? fs_executions s
            then (Err (ErrMsg "execution state is full"), s)
            else write_execution q 1 f s
        end
  end.

Fixpoint read_executions (es : list (string * file)) : result (list DispatchRequest) :=
  match es with
  | [] => Ok []
  | (name, file) :: rest =>
      if negb (HasSuffix name ".execution.pb") then read_executions rest
      else
        match file with
        | ExecutionFile q =>
            if maxExecutionRecordBytes <? proto_size q
            then Err (ErrMsg "execution record exceeds size limit")
            else
              match validateCompletionRunID (RunId q) with
              | Err _ => Err (ErrMsg "execution record has invalid or mismatched run ID")
              | Ok _ =>
                  if name !=s executionFileName (RunId q)
                  then Err (ErrMsg "execution record has invalid or mismatched run ID")
                  else qs ← read_executions rest; Ok (q :: qs)
              end
        | _ => Err (ErrMsg "decode execution record")
        end
  end.

Definition ListExecutions (s : FileStore) : result (list DispatchRequest) :=
  qs ← read_executions (entries (fs_dir s));
  Ok (sort_by (λ a b, String.leb (RunId a) (RunId b)) qs).

(** ** Removals *)

Definition removeExecutionLocked (runID : string) (s : FileStore) : FileStore :=
  match fs_dir s !! executionFileName runID with
  | None => s
  | Some _ =>
      set_dir (delete (executionFileName runID) (fs_dir s)) (fs_pending s)
        (if 0 <? fs_executions s then fs_executions s - 1 else fs_executions s) s
  end.

Definition remove_completion (runID : string) (s : FileStore) : FileStore :=
  match fs_dir s !! completionFileName runID with
  | None => s
  | Some _ =>
      set_dir (delete (completionFileName runID) (fs_dir s))
        (if 0 <? fs_pending s then fs_pending s - 1 else fs_pending s) (fs_executions s) s
  end.

(** The execution goes before its completion. *)
Definition Delete (runID : string) (f : fault) (s : FileStore) : result unit * FileStore :=
  match validateCompletionRunID runID with
  | Err err => (Err err, s)
  | Ok _ =>
      let s1 := removeExecutionLocked runID s in
      match f with
      | FaultEarly => (Err (ErrMsg "delete execution record"), s)
      | FaultMiddle => (Err (ErrMsg "delete completion record"), s1)
      | FaultLate => (Err (ErrMsg "sync completion state directory"), remove_completion runID s1)
      | NoFault => (Ok tt, remove_completion runID s1)
      end
  end.

Definition DeleteExecution (runID : string) (f : fault) (s : FileStore) : result unit * FileStore :=
  match validateCompletionRunID runID with
  | Err err => (Err err, s)
  | Ok _ =>
      match f with
      | NoFault => (Ok tt, removeExecutionLocked runID s)
      | FaultLate => (Err (ErrMsg "sync executor state directory"), removeExecutionLocked runID s)
      | _ => (Err (ErrMsg "delete execution record"), s)
      end
  end.

(** ** Opening the directory *)

(** Names of interrupted writes. *)
Definition temporary_name (name : string) : bool :=
  HasPrefix name ".completion-" || HasPrefix name ".execution-".

Definition without_temporaries (dir : gmap string file) : gmap string file :=
  filter (λ e : string * file, temporary_name e.1 = false) dir.

Definition count_suffix (suffix : string) (dir : gmap string file) : Z :=
  Z.of_nat (length (List.filter (λ e, HasSuffix e.1 suffix) (map_to_list dir))).

Definition NewFileCompletionStore (dir : gmap string file) (max maxExecutions : Z)
    : result FileStore :=
  if (max <? 1) || (maxExecutions <? 1)
  then Err (ErrMsg "maximum completion and execution records must be positive")
  else
    let dir := without_temporaries dir in
    let pending := count_suffix ".json" dir in
    let executions := count_suffix ".execution.pb" dir in
    if (max <? pending) || (maxExecutions <? executions)
    then Err (ErrMsg "executor state exceeds configured capacity")
    else
      let s := mk_fstore dir pending max executions maxExecutions in
      _ ← List s;
      _ ← ListExecutions s;
      Ok s.
End store.
End CompletionStore.

(** * The state directory keeps what it is given

    Names of completions and executions do not collide; a completion that was
    saved is listed until it is deleted; one whose message is no UTF-8 can make
    the whole directory unreadable. *)

Module CompletionProofs.
Import Utf8 GoJson Proto CompletionStore.

(** ** Names *)

Lemma str_drop_suffix a t k : str_drop (String.length a + k) (a +:+ t) = str_drop k t.
Proof. induction a as [|c a IH]; [done|]. rewrite app_cons. apply IH. Qed.

Lemma HasSuffix_app a t suffix :
  (String.length suffix ≤ String.length t)%nat → HasSuffix (a +:+ t) suffix = HasSuffix t suffix.
Proof.
  intros Hl. unfold HasSuffix. rewrite length_app_string.
  replace (Nat.leb (String.length suffix) (String.length a + String.length t)) with true
    by (symmetry; apply Nat.leb_le; lia).
  replace (Nat.leb (String.length suffix) (String.length t)) with true
    by (symmetry; apply Nat.leb_le; lia).
  by rewrite <- Nat.add_sub_assoc, str_drop_suffix by done.
Qed.

Lemma str_app_inj_r a b t : a +:+ t = b +:+ t → a = b.
Proof.
  intros E. assert (El : String.length a = String.length b).
  { apply (f_equal String.length) in E. rewrite !length_app_string in E. lia. }
  revert b E El. induction a as [|c a IH]; intros [|d b] E El; try done.
  rewrite !app_cons in E. injection E as -> E. f_equal. by apply IH; [|injection El].
Qed.

Lemma completion_suffix id : HasSuffix (completionFileName id) ".json" = true.
Proof. unfold completionFileName. by rewrite HasSuffix_app. Qed.
Lemma execution_suffix id : HasSuffix (executionFileName id) ".execution.pb" = true.
Proof. unfold executionFileName. by rewrite HasSuffix_app. Qed.
Lemma execution_not_json id : HasSuffix (executionFileName id) ".json" = false.
Proof. unfold executionFileName. by rewrite HasSuffix_app by (cbn; lia). Qed.

Lemma HasSuffix_split s suffix : HasSuffix s suffix = true → ∃ a, s = a +:+ suffix.
Proof.
  unfold HasSuffix. intros [_ E]%andb_true_iff. apply String.eqb_eq in E.
  exists (str_take (String.length s - String.length suffix) s). rewrite <- E at 2. by rewrite take_drop_id.
Qed.

(** No name has both suffixes. *)
Lemma json_not_execution name :
  HasSuffix name ".json" = true → HasSuffix name ".execution.pb" = false.
Proof.
  intros [a ->]%HasSuffix_split. destruct (HasSuffix (a +:+ ".json") ".execution.pb") eqn:E; [|done].
  apply HasSuffix_split in E as [b E]. exfalso.
  assert (Hs : HasSuffix (a +:+ ".json") ".json" = true) by by rewrite HasSuffix_app.
  rewrite E in Hs. by rewrite HasSuffix_app in Hs by (cbn; lia).
Qed.

Lemma completion_not_execution a b : completionFileName a ≠ executionFileName b.
Proof.
  intros E. pose proof (completion_suffix a) as Hc. rewrite E, execution_not_json in Hc. done.
Qed.

Lemma completionFileName_inj a b : completionFileName a = completionFileName b → a = b.
Proof. apply str_app_inj_r. Qed.
Lemma executionFileName_inj a b : executionFileName a = executionFileName b → a = b.
Proof. apply str_app_inj_r. Qed.

(** Run identifiers are ASCII, so that they are read as they were written. *)
Lemma run_id_ascii c : run_id_char c = true → in_range 0 127 c = true.
Proof.
  destruct c as [b0 b1 b2 b3 b4 b5 b6 b7].
  destruct b0, b1, b2, b3, b4, b5, b6, b7; vm_compute; congruence.
Qed.

Lemma valid_run_id id : validateCompletionRunID id = Ok tt → valid_utf8 id.
Proof.
  unfold validateCompletionRunID. destruct (_ || _) eqn:E; [done|]. intros _.
  apply orb_false_iff in E as [_ E]. apply negb_false_iff in E.
  induction id as [|c id IH]; [constructor|]. cbn [forall_char] in E.
  apply andb_true_iff in E as [Hc E]. apply (valid_rune 0); [|by apply IH].
  by apply rune_width_ascii, run_id_ascii.
Qed.

Lemma validate_record_id r : validateCompletionRecord r = Ok tt → validateCompletionRunID (co_RunID r) = Ok tt.
Proof. unfold validateCompletionRecord. by destruct (validateCompletionRunID (co_RunID r)) as [[]|]. Qed.

(** ** Reading the directory *)

Section store.
Context `{RecordFormat}.

(** The completion of an entry; [None] when the file is of another kind. *)
Definition read_completion (e : string * file) : result (option CompletionRecord) :=
  if negb (HasSuffix e.1 ".json") then Ok None
  else
    rs ← read_completions [e];
    Ok (head rs).

Lemma read_completions_cons e es :
  read_completions (e :: es)
    = (r ← read_completion e; rs ← read_completions es; Ok (option_list r ++ rs)).
Proof.
  destruct e as [name f]. unfold read_completion. cbn [read_completions fst].
  destruct (negb _); [by destruct (read_completions es)|]. destruct f as [r| |]; [|done..].
  destruct (_ <? _); [done|]. destruct (validateCompletionRecord _); [|done]. cbn.
  by destruct (_ !=s _); [|destruct (read_completions es)].
Qed.

Lemma read_completions_perm es es' :
  es ≡ₚ es' → ∀ rs, read_completions es = Ok rs →
  ∃ rs', read_completions es' = Ok rs' ∧ rs ≡ₚ rs'.
Proof.
  induction 1 as [|e es es' _ IH|e1 e2 es|es1 es2 es3 _ IH1 _ IH2]; intros rs Hr.
  - by exists rs.
  - rewrite read_completions_cons in *. destruct (read_completion e) as [r|]; [|done].
    cbn in *. destruct (read_completions es) as [rs1|]; [|done]. cbn in *. simplify_eq.
    destruct (IH rs1 eq_refl) as (rs2 & -> & Hp). eexists; split; [done|]. by rewrite Hp.
  - rewrite !read_completions_cons in *.
    destruct (read_completion e1) as [r1|], (read_completion e2) as [r2|]; try done. cbn in *.
    destruct (read_completions es) as [rs1|]; [|done]. cbn in *. simplify_eq.
    eexists; split; [done|]. rewrite !(assoc_L (++)), (comm (++) (option_list r1)). done.
  - destruct (IH1 rs Hr) as (rs1 & Hr1 & Hp1). destruct (IH2 rs1 Hr1) as (rs2 & Hr2 & Hp2).
    exists rs2. split; [done|]. by etrans.
Qed.

(** The directory can be listed only when every completion can be read. *)
Lemma read_completions_error e es err :
  e ∈ es → read_completion e = Err err → ∃ err', read_completions es = Err err'.
Proof.
  induction 1 as [e es|e e' es _ IH]; intros He; rewrite read_completions_cons.
  - rewrite He. by exists err.
  - destruct (read_completion e') as [r|err']; [|by exists err'].
    destruct (IH He) as [err' ->]. by exists err'.
Qed.

Lemma read_completions_elem es rs r :
  read_completions es = Ok rs → r ∈ rs ↔ ∃ e, e ∈ es ∧ read_completion e = Ok (Some r).
Proof.
  revert rs. induction es as [|e es IH]; intros rs Hr.
  { injection Hr as <-. split; [by intros ?%elem_of_nil|by intros (e & ?%elem_of_nil & _)]. }
  rewrite read_completions_cons in Hr. destruct (read_completion e) as [r1|] eqn:E1; [|done].
  cbn in Hr. destruct (read_completions es) as [rs1|]; [|done]. cbn in Hr. injection Hr as <-.
  rewrite elem_of_app, (IH rs1 eq_refl). split.
  - intros [Hr|(e' & He & E)]; [|exists e'; split; [by right|done]].
    destruct r1; cbn in Hr; [|by apply elem_of_nil in Hr]. apply list_elem_of_singleton in Hr as ->.
    exists e. by split; [left|].
  - intros (e' & [->|He]%elem_of_cons & E); [left|right; by exists e'].
    rewrite E1 in E. injection E as ->. by left.
Qed.

Lemma read_completion_file name f r :
  read_completion (name, f) = Ok (Some r) ↔
    HasSuffix name ".json" = true ∧ ∃ r0, f = CompletionFile r0 ∧ r = unmarshal_record r0 ∧
      len (marshal_record r0) ≤ maxCompletionRecordBytes ∧
      validateCompletionRecord r = Ok tt ∧ name = completionFileName (co_RunID r).
Proof.
  unfold read_completion. cbn [read_completions fst]. destruct (HasSuffix name ".json"); cbn [negb].
  2:{ split; [done|by intros [? _]]. }
  destruct f as [r0|q|]; cbn; [|split; [done|by intros (_ & ? & ? & _)]..].
  destruct (Z.ltb_spec maxCompletionRecordBytes (len (marshal_record r0))).
  { split; [done|]. intros (_ & r1 & [= <-] & -> & Hl & _). lia. }
  destruct (validateCompletionRecord (unmarshal_record r0)) as [[]|] eqn:Ev; cbn.
  2:{ split; [done|]. intros (_ & r1 & [= <-] & -> & _ & Ev' & _). congruence. }
  change (json_read (co_RunID r0)) with (co_RunID (unmarshal_record r0)).
  destruct (String.eqb_spec name (completionFileName (co_RunID (unmarshal_record r0)))) as [->|Hn]; cbn.
  - split; [intros [= <-]; split; [done|]; by exists r0|].
    by intros (_ & r1 & [= <-] & -> & _).
  - split; [done|]. intros (_ & r1 & [= <-] & -> & _ & _ & En). done.
Qed.

Lemma entries_perm dir : entries dir ≡ₚ map_to_list dir.
Proof. apply sort_by_Permutation. Qed.

Lemma entries_insert dir name f :
  dir !! name = None → entries (<[name := f]> dir) ≡ₚ (name, f) :: entries dir.
Proof. intros Hn. by rewrite !entries_perm, map_to_list_insert. Qed.

Lemma elem_of_entries dir name f : (name, f) ∈ entries dir ↔ dir !! name = Some f.
Proof. by rewrite entries_perm, elem_of_map_to_list. Qed.

(** What a successful [Save] did. *)
Lemma Save_ok r f s s' :
  Save r f s = (Ok tt, s') →
  f = NoFault ∧ validateCompletionRecord r = Ok tt ∧
  len (marshal_record r) ≤ maxCompletionRecordBytes ∧ fs_pending s < fs_max s ∧
  fs_dir s !! completionFileName (co_RunID r) = None ∧
  s' = set_dir (<[completionFileName (co_RunID r) := CompletionFile r]> (fs_dir s))
         (fs_pending s + 1) (fs_executions s) s.
Proof.
  unfold Save. destruct (validateCompletionRecord r) as [[]|]; [|done]. cbv zeta.
  destruct (Z.ltb_spec maxCompletionRecordBytes (len (marshal_record r))); [done|].
  destruct (Z.leb_spec (fs_max s) (fs_pending s)); [done|].
  destruct (fs_dir s !! _); [done|]. destruct f; try done. by intros [= <-].
Qed.

Lemma Save_succeeds r s :
  validateCompletionRecord r = Ok tt → len (marshal_record r) ≤ maxCompletionRecordBytes →
  fs_pending s < fs_max s → fs_dir s !! completionFileName (co_RunID r) = None →
  Save r NoFault s
    = (Ok tt, set_dir (<[completionFileName (co_RunID r) := CompletionFile r]> (fs_dir s))
                (fs_pending s + 1) (fs_executions s) s).
Proof.
  intros Hv Hl Hp Hn. unfold Save. rewrite Hv. cbv zeta.
  destruct (Z.ltb_spec maxCompletionRecordBytes (len (marshal_record r))); [lia|].
  destruct (Z.leb_spec (fs_max s) (fs_pending s)); [lia|]. by rewrite Hn.
Qed.

Lemma completion_le_total a b : completion_le a b = true ∨ completion_le b a = true.
Proof.
  unfold completion_le. rewrite (Z.eqb_sym (co_CreatedAt b)).
  destruct (Z.eqb_spec (co_CreatedAt a) (co_CreatedAt b)); [apply str_leb_total|].
  rewrite !Z.ltb_lt. lia.
Qed.

Lemma completion_le_trans a b c :
  completion_le a b = true → completion_le b c = true → completion_le a c = true.
Proof.
  unfold completion_le.
  destruct (Z.eqb_spec (co_CreatedAt a) (co_CreatedAt b)),
    (Z.eqb_spec (co_CreatedAt b) (co_CreatedAt c)), (Z.eqb_spec (co_CreatedAt a) (co_CreatedAt c));
    rewrite ?Z.ltb_lt; try lia. apply str_leb_trans.
Qed.

Lemma unmarshal_valid r :
  validateCompletionRecord r = Ok tt → valid_utf8 (co_Token r) → valid_utf8 (co_Message r) →
  unmarshal_record r = r.
Proof.
  intros Hr%validate_record_id%valid_run_id Ht Hm. unfold unmarshal_record.
  rewrite !json_read_valid by done. by destruct r.
Qed.

(** Adding an entry to a directory that can be listed. *)
Lemma List_insert s s' name f r l :
  List s = Ok l → fs_dir s !! name = None → fs_dir s' = <[name := f]> (fs_dir s) →
  read_completion (name, f) = Ok r →
  ∃ l', List s' = Ok l' ∧ l' ≡ₚ option_list r ++ l ∧ StronglySorted (λ a b, completion_le a b = true) l'.
Proof.
  unfold List. intros Hl Hn Hd Hr.
  destruct (read_completions (entries (fs_dir s))) as [rs|] eqn:E; [|done]. injection Hl as <-.
  assert (E' : read_completions ((name, f) :: entries (fs_dir s)) = Ok (option_list r ++ rs))
    by by rewrite read_completions_cons, Hr, E.
  apply (read_completions_perm _ (entries (fs_dir s'))) in E' as (rs' & E' & Hp).
  2:{ rewrite Hd. symmetry. by apply entries_insert. }
  rewrite E'. cbn. eexists. split; [done|]. split; [by rewrite !sort_by_Permutation, Hp|].
  apply sort_by_sorted; [apply completion_le_total|apply completion_le_trans].
Qed.

(** A file that is no completion does not matter to the listing. *)
Lemma List_delete s s' name l :
  List s = Ok l → HasSuffix name ".json" = false → fs_dir s' = delete name (fs_dir s) →
  ∃ l', List s' = Ok l' ∧ l' ≡ₚ l.
Proof.
  unfold List. intros Hl Hn Hd.
  destruct (read_completions (entries (fs_dir s))) as [rs|] eqn:E; [|done]. injection Hl as <-.
  destruct (fs_dir s !! name) as [f|] eqn:Ef.
  2:{ rewrite delete_id in Hd by done. rewrite Hd, E. by eexists. }
  assert (Hp : entries (fs_dir s) ≡ₚ (name, f) :: entries (fs_dir s')).
  { rewrite !entries_perm, Hd. symmetry. by apply map_to_list_delete. }
  destruct (read_completions_perm _ _ Hp rs E) as (rs' & E' & Hr).
  rewrite read_completions_cons in E'. unfold read_completion in E'. cbn [fst] in E'.
  rewrite Hn in E'. cbn in E'. destruct (read_completions (entries (fs_dir s'))) as [rs2|]; [|done].
  injection E' as <-. cbn. eexists. split; [done|]. by rewrite !sort_by_Permutation, Hr.
Qed.

(** What is saved is delivered.  A completion with valid texts that was
    saved is listed, with every field as it was given, beside the completions
    that were there before and in the order of their creation; after it was
    deleted the earlier listing is back and its execution is gone. *)
Theorem completion_round_trip r f s s' l :
  List s = Ok l → valid_utf8 (co_Token r) → valid_utf8 (co_Message r) →
  Save r f s = (Ok tt, s') →
  (∃ l', List s' = Ok l' ∧ l' ≡ₚ r :: l ∧ StronglySorted (λ a b, completion_le a b = true) l') ∧
  (∃ s2 l2, Delete (co_RunID r) NoFault s' = (Ok tt, s2) ∧ List s2 = Ok l2 ∧ l2 ≡ₚ l ∧
     fs_dir s2 = delete (executionFileName (co_RunID r)) (fs_dir s)).
Proof.
  intros Hl Ht Hm (-> & Hv & Hs & _ & Hn & ->)%Save_ok. split.
  - destruct (List_insert s (set_dir (<[completionFileName (co_RunID r) := CompletionFile r]> (fs_dir s))
      (fs_pending s + 1) (fs_executions s) s) _ (CompletionFile r) (Some r) l Hl Hn eq_refl)
      as (l' & Hl' & Hp & Hsort); [|by exists l'].
    apply read_completion_file. split; [apply completion_suffix|]. exists r.
    by rewrite unmarshal_valid.
  - unfold Delete. rewrite (validate_record_id r Hv).
    set (s1 := set_dir _ _ _ _). set (name := executionFileName (co_RunID r)).
    assert (Hd : fs_dir (remove_completion (co_RunID r) (removeExecutionLocked (co_RunID r) s1))
                 = delete name (fs_dir s)).
    { unfold remove_completion, removeExecutionLocked. fold name.
      pose proof (completion_not_execution (co_RunID r) (co_RunID r)) as Hne. fold name in Hne.
      cbn [fs_dir s1 set_dir]. rewrite lookup_insert_ne by done.
      assert (Hc : ∀ d : gmap string file, d = fs_dir s ∨ d = delete name (fs_dir s) →
        delete (completionFileName (co_RunID r)) (<[completionFileName (co_RunID r) := CompletionFile r]> d) = d).
      { intros d Hd. apply delete_insert_id. destruct Hd as [->| ->]; [done|].
        by rewrite lookup_delete_ne. }
      destruct (fs_dir s !! name) eqn:En; cbn [fs_dir set_dir s1].
      - rewrite delete_insert_ne by done. rewrite lookup_insert_eq. cbn. apply Hc. by right.
      - rewrite lookup_insert_eq. cbn. rewrite Hc by (by left). by rewrite delete_id. }
    destruct (List_delete s _ name l Hl (execution_not_json _) Hd) as (l2 & Hl2 & Hp).
    by eexists _, l2.
Qed.

(** ** Unreadable completions *)

(** A completion that is refused when it is read back. *)
Definition unreadable (dir : gmap string file) (id : string) : Prop :=
  ∃ r, dir !! completionFileName id = Some (CompletionFile r) ∧
       is_ok (validateCompletionRecord (unmarshal_record r)) = false.

Lemma unreadable_List s id : unreadable (fs_dir s) id → ∃ err, List s = Err err.
Proof.
  intros (r & Hr & Hv). unfold List.
  destruct (read_completions_error (completionFileName id, CompletionFile r) (entries (fs_dir s))
    (if maxCompletionRecordBytes <? len (marshal_record r)
     then ErrMsg "completion record exceeds size limit"
     else match validateCompletionRecord (unmarshal_record r) with Err e => e | Ok _ => ErrNotFound end))
    as [err ->]; [by apply elem_of_entries| |by exists err].
  unfold read_completion. cbn [read_completions fst]. rewrite completion_suffix. cbn [negb].
  destruct (_ <? _); [done|]. by destruct (validateCompletionRecord _).
Qed.

Lemma unreadable_open dir id max maxExecutions :
  unreadable dir id → temporary_name (completionFileName id) = false →
  ∃ err, NewFileCompletionStore dir max maxExecutions = Err err.
Proof.
  intros (r & Hr & Hv) Ht. unfold NewFileCompletionStore. cbv zeta.
  destruct (_ || _); [by eexists|]. destruct (_ || _); [by eexists|].
  set (s := mk_fstore _ _ _ _ _).
  destruct (unreadable_List s id) as [err ->]; [|by exists err].
  exists r. split; [|done]. cbn. by apply map_lookup_filter_Some.
Qed.

Lemma long_message_invalid r :
  4096 < len (co_Message r) → is_ok (validateCompletionRecord r) = false.
Proof.
  intros Hl. unfold validateCompletionRecord. destruct (validateCompletionRunID _); [|done]. cbn.
  destruct (_ || _); [done|]. by destruct (Z.ltb_spec 4096 (len (co_Message r))); [|lia].
Qed.

Definition messageLimit : nat := Z.to_nat 4096.

(** One error text can silence an executor.  When the text of a failed
    execution is longer than 4096 bytes and a multi-byte character lies across
    that limit, the completion with the truncated text is saved, but as long as
    its file is in the directory no completion can be listed, and the directory
    cannot be opened by a restarted executor. *)
Theorem split_message_blocks_delivery (id token text : string) (created : time) f s s' :
  valid_utf8 text → (messageLimit < String.length text)%nat →
  continuation (byte_at text messageLimit) = true →
  temporary_name (completionFileName id) = false →
  let r := mk_completion id token false (truncate text messageLimit) created in
  Save r f s = (Ok tt, s') →
  fs_dir s' !! completionFileName id = Some (CompletionFile r) ∧
  ∀ s2, fs_dir s2 !! completionFileName id = Some (CompletionFile r) →
    (∃ err, List s2 = Err err) ∧
    ∀ max maxExecutions, ∃ err, NewFileCompletionStore (fs_dir s2) max maxExecutions = Err err.
Proof.
  intros Hv Hl Hc Ht r (_ & _ & _ & _ & _ & ->)%Save_ok. split; [apply lookup_insert_eq|].
  intros s2 H2. assert (Hu : unreadable (fs_dir s2) id).
  { exists r. split; [done|]. apply long_message_invalid. unfold r, truncate. cbn [unmarshal_record co_Message].
    destruct (Nat.leb_spec (String.length text) messageLimit); [lia|].
    pose proof (json_read_grows _ (split_rune_invalid text messageLimit Hv Hl Hc)) as Hg.
    rewrite length_str_take in Hg. unfold len, messageLimit in *. lia. }
  split; [by apply (unreadable_List s2 id)|]. intros. by apply (unreadable_open _ id).
Qed.
End store.

(** 4095 letters and a two-byte letter; the size of its record. *)
Definition split_text : string :=
  repeated (Z.to_nat 4095) "a" +:+ String (ascii_of_nat 195) (String (ascii_of_nat 169) "").

#[local] Instance sample_format : RecordFormat :=
  {| format_time _ := "2026-01-01T00:00:00Z"; proto_size _ := 100 |}.

Lemma escape_plain n t : escape 0 true (repeated n "a" +:+ t) = repeated n "a" +:+ escape 0 true t.
Proof. induction n as [|n IH]; [done|]. cbn [repeated]. rewrite !app_cons. cbn [escape]. by rewrite IH. Qed.

Definition split_record : CompletionRecord :=
  mk_completion "run" "token" false (truncate split_text messageLimit) second.

Lemma split_message : co_Message split_record = repeated (Z.to_nat 4095) "a" +:+ char_string (ascii_of_nat 195).
Proof.
  cbn [co_Message split_record]. unfold truncate, split_text, messageLimit.
  rewrite length_repeated. cbn [String.length]. destruct (Nat.leb_spec (Z.to_nat 4095 + 2) (Z.to_nat 4096)); [lia|].
  replace (Z.to_nat 4096) with (Z.to_nat 4095 + 1)%nat by lia. generalize (Z.to_nat 4095) as n.
  induction n as [|n IH]; [done|]. cbn [repeated Nat.add]. rewrite !app_cons. cbn [str_take]. by rewrite IH.
Qed.

Definition sample_store : FileStore := mk_fstore ∅ 0 10 0 10.
Definition split_store : FileStore :=
  set_dir (<[completionFileName (co_RunID split_record) := CompletionFile split_record]> ∅) 1 0 sample_store.

(** The size of a record of the run [run] with a message. *)
Lemma marshal_size m : m ≠ "" →
  String.length (marshal_record (mk_completion "run" "token" false m second))
    = (99 + String.length (escape 0 true m))%nat.
Proof.
  intros Hm. unfold marshal_record. cbn [co_RunID co_Token co_Succeeded co_Message co_CreatedAt].
  apply String.eqb_neq in Hm as ->. unfold json_field, json_string.
  rewrite !length_app_string. generalize (String.length (escape 0 true m)) as k.
  induction k as [|k IH]; [vm_compute; reflexivity|lia].
Qed.

Lemma split_saved : Save split_record NoFault sample_store = (Ok tt, split_store).
Proof.
  pose proof split_message as Em. unfold split_store, split_record in *. cbn [co_Message] in Em. rewrite Em. clear Em.
  set (m := repeated _ _ +:+ _).
  assert (El : String.length m = Z.to_nat 4096) by (unfold m; rewrite length_repeated; cbn; lia).
  assert (Ee : String.length (escape 0 true m) = Z.to_nat 4101).
  { unfold m. rewrite escape_plain, length_repeated.
    change (String.length (escape 0 true _)) with 6%nat. lia. }
  assert (Hm : m ≠ "") by (intros E; rewrite E in El; cbn in El; lia). clearbody m.
  apply (Save_succeeds (mk_completion "run" "token" false m second) sample_store); [| |done..].
  - unfold validateCompletionRecord. cbn [co_Message].
    replace (4096 <? len m) with false by (symmetry; apply Z.ltb_ge; unfold len; lia). reflexivity.
  - unfold len. rewrite marshal_size by done. unfold maxCompletionRecordBytes. lia.
Qed.

Lemma split_message_blocks_delivery_witness :
  ∃ err, List split_store = Err err.
Proof.
  apply (split_message_blocks_delivery "run" "token" split_text second NoFault sample_store split_store).
  - apply valid_repeated. by apply (valid_rune 1); [|constructor].
  - unfold split_text, messageLimit. rewrite length_repeated. cbn [String.length]. lia.
  - unfold split_text, messageLimit. replace (Z.to_nat 4096) with (Z.to_nat 4095 + 1)%nat by lia.
    by rewrite byte_repeated.
  - done.
  - apply split_saved.
  - done.
Defined.
End CompletionProofs.
