(* ===== verification/ExecutorServer.v ===== *)
(** * The executor

    [pkg/executor/executor.go] and [grpc.go]: handlers, the requests Core sends
    (dispatch, cancel, inspect), the goroutines that run handlers and report
    completions, and the recovery after a restart.

    A goroutine is a program: it enters a critical section of the server's or
    the store's mutex ([Locked]), or asks the world for something ([Effect]).
    Other goroutines run between any two of its requests.  The clock, the
    generator of identifiers and the fate of a disk operation inside a critical
    section are asked for before it. *)
From Stdlib Require Import ZArith Lia Ascii String.
From stdpp Require Import base list strings gmap.
From S2P Require Import Prelude GoStrings GoUrl GoTime Utf8 Proto CompletionStore.

Module ExecutorServer.
Import GoUrl GoTime Proto CompletionStore.

(** ** Data *)

(** gRPC status codes the code tells apart. *)
Inductive code :=
| InvalidArgument | NotFound | AlreadyExists | ResourceExhausted | Unavailable | OtherCode.
Record status := mk_status { st_code : code; st_message : string }.
Definition rpc (A : Type) : Type := A + status.

(** The result of a handler that failed: [ErrAwaitingCallback], or any error
    or panic with its text. *)
Inductive failure := AwaitingCallback | Failure (text : string).

Record Task := mk_task {
  tk_RunID : string; tk_JobID : string; tk_Input : string; tk_BroadcastGroupID : string;
  tk_ExternalExecutionID : string; tk_ScriptLanguage : string; tk_ScriptSource : string;
  tk_KubernetesCluster : option ClusterAccess; tk_HTTP : option HttpExecution;
  tk_DockerRegistryAuth : option RegistryAccess; tk_BroadcastIndex : Z; tk_BroadcastTotal : Z;
}.

Record ExternalCancellation := mk_ext_cancel {
  xc_RunID : string; xc_ExternalExecutionID : string; xc_JobID : string;
  xc_ScriptLanguage : string; xc_KubernetesCluster : option ClusterAccess;
}.

(** [Server]: registered handlers (asynchronous over HTTP or not), cancellers of
    external work by script language, running executions by job. *)
Record Server := mk_http_server {
  scheduler_Scheme : string; scheduler_Host : string;
  handlers : gmap string bool; cancellers : gset string; active : gmap string Z;
}.

Record execution := mk_execution {
  ex_executionID : string; ex_state : string; ex_message : string; ex_finishedAt : time;
  ex_cancelled : bool; (* [cancel] was called *)
}.

Inductive kind := ScriptSlots | HttpSlots | DockerSlots.
#[export] Instance kind_eq_dec : EqDecision kind.
Proof. solve_decision. Defined.

(** Capacities of the slot channels and bounds of the history. *)
Record Limits := mk_limits {
  maxScript : Z; maxHTTP : Z; maxDocker : Z; historyLimit : Z; historyRetention : duration;
}.

Record GRPCServer := mk_server {
  server : Server; runs : gmap string execution; draining : bool; executionWG : Z;
  completed : list (string * time); scriptSlots : Z; httpSlots : Z; dockerSlots : Z;
  store : option FileStore; completionStoreFailed : bool;
}.

Definition set_server v g := mk_server v (runs g) (draining g) (executionWG g) (completed g)
  (scriptSlots g) (httpSlots g) (dockerSlots g) (store g) (completionStoreFailed g).
Definition set_runs v g := mk_server (server g) v (draining g) (executionWG g) (completed g)
  (scriptSlots g) (httpSlots g) (dockerSlots g) (store g) (completionStoreFailed g).
Definition set_draining v g := mk_server (server g) (runs g) v (executionWG g) (completed g)
  (scriptSlots g) (httpSlots g) (dockerSlots g) (store g) (completionStoreFailed g).
Definition set_executionWG v g := mk_server (server g) (runs g) (draining g) v (completed g)
  (scriptSlots g) (httpSlots g) (dockerSlots g) (store g) (completionStoreFailed g).
Definition set_completed v g := mk_server (server g) (runs g) (draining g) (executionWG g) v
  (scriptSlots g) (httpSlots g) (dockerSlots g) (store g) (completionStoreFailed g).
Definition set_store v g := mk_server (server g) (runs g) (draining g) (executionWG g) (completed g)
  (scriptSlots g) (httpSlots g) (dockerSlots g) v (completionStoreFailed g).
Definition set_failed v g := mk_server (server g) (runs g) (draining g) (executionWG g) (completed g)
  (scriptSlots g) (httpSlots g) (dockerSlots g) (store g) v.

(** ** Programs *)

Inductive io : Type → Type :=
| Now : io time
| NewUuid : io string
| Disk : io fault
| Invoke (handler : string) (t : Task) : io (option failure)
| InvokeHTTP (handler : string) (t : Task) : io (option failure)
| Complete (r : CompletionRecord) : io (option code)  (* [reporter.Complete]; [None] is success *)
| PostCallback (runID token : string) (succeeded : bool) (message : string) : io unit
| Backoff (d : duration) : io bool                    (* the context ended before the delay *)
| CancelExternal (c : ExternalCancellation) : io (option error)
| Go (q : DispatchRequest) (slots : option kind) : io unit
| GoDeliver (r : CompletionRecord) : io unit
| WaitExecutions : io bool                            (* all ended before the context did *)
| Serve : io unit                                     (* requests are served, completions delivered *)
| Answer (runID : string) (accepted : bool) : io unit. (* the response to a dispatch is sent *)

Inductive prog (A : Type) : Type :=
| Return (a : A)
| Locked {B : Type} (m : GRPCServer → B * GRPCServer) (k : B → prog A)
| Effect {B : Type} (eff : io B) (k : B → prog A).
#[global] Arguments Return {A} a.
#[global] Arguments Locked {A B} m k.
#[global] Arguments Effect {A B} eff k.

Fixpoint prog_bind {A B} (f : A → prog B) (p : prog A) : prog B :=
  match p with
  | Return a => f a
  | Locked m k => Locked m (λ b, prog_bind f (k b))
  | Effect eff k => Effect eff (λ b, prog_bind f (k b))
  end.
#[export] Instance prog_mret : MRet prog := @Return.
#[export] Instance prog_mbind : MBind prog := @prog_bind.

Definition locked {A} (m : GRPCServer → A * GRPCServer) : prog A := Locked m Return.
Definition effect {A} (eff : io A) : prog A := Effect eff Return.
Definition update (f : GRPCServer → GRPCServer) : prog unit := locked (λ g, (tt, f g)).

Fixpoint each {A} (f : A → prog unit) (l : list A) : prog unit :=
  match l with
  | [] => Return tt
  | x :: rest => _ ← f x; each f rest
  end.

(** ** Handlers *)

Section registration.
Context `{IPLiterals}.

Definition NewServer (schedulerURL : string) : result Server :=
  match Parse schedulerURL with
  | Err _ => Err (ErrMsg "scheduler URL must be absolute")
  | Ok u =>
      if (url_Scheme u ==s "") || (url_Host u ==s "")
      then Err (ErrMsg "scheduler URL must be absolute")
      else if (url_Scheme u !=s "http") && (url_Scheme u !=s "https")
      then Err (ErrMsg "scheduler URL must use http or https")
      else Ok (mk_http_server (url_Scheme u) (url_Host u) ∅ ∅ ∅)
  end.

Definition schedulerURL (raw : string) (s : Server) : bool :=
  match Parse raw with
  | Err _ => false
  | Ok u => (url_Scheme u ==s scheduler_Scheme s) && (url_Host u ==s scheduler_Host s)
  end.
End registration.

Definition register (name : string) (async : bool) (s : Server) : result Server :=
  let name := TrimSpace name in
  if (name ==s "") || (128 <? len name) then Err (ErrMsg "handler name and function are required")
  else
    match handlers s !! name with
    | Some _ => Err (ErrMsg "handler already registered")
    | None => Ok (mk_http_server (scheduler_Scheme s) (scheduler_Host s)
                    (<[name := async]> (handlers s)) (cancellers s) (active s))
    end.

Definition HandleExternalCancellation (scriptLanguage : string) (s : Server) : result Server :=
  let scriptLanguage := TrimSpace scriptLanguage in
  if (scriptLanguage ==s "") || (64 <? len scriptLanguage)
  then Err (ErrMsg "script language and external canceller are required")
  else if bool_decide (scriptLanguage ∈ cancellers s)
  then Err (ErrMsg "external canceller is already registered")
  else Ok (mk_http_server (scheduler_Scheme s) (scheduler_Host s) (handlers s)
             ({[scriptLanguage]} ∪ cancellers s) (active s)).

Definition active_count (jobID : string) (s : Server) : Z := default 0 (active s !! jobID).
Definition jobBusy (jobID : string) (s : Server) : bool := 0 <? active_count jobID s.

Definition markActive (jobID : string) (delta : Z) (s : Server) : Server :=
  let n := active_count jobID s + delta in
  mk_http_server (scheduler_Scheme s) (scheduler_Host s) (handlers s) (cancellers s)
    (if n <=? 0 then delete jobID (active s) else <[jobID := n]> (active s)).

Definition mark_active (jobID : string) (delta : Z) (g : GRPCServer) : GRPCServer :=
  set_server (markActive jobID delta (server g)) g.

Definition task_of (q : DispatchRequest) : Task :=
  mk_task (RunId q) (JobId q) (Input q) (BroadcastGroupId q) (ExternalExecutionId q)
    (ScriptLanguage q) (ScriptSource q) (dr_KubernetesCluster q) (dr_Http q)
    (dr_DockerRegistryAuth q) (BroadcastIndex q) (BroadcastTotal q).

(** ** The HTTP protocol *)

(** A decoded [runRequest]: the fields of a dispatch and two addresses. *)
Record runRequest := mk_run_request {
  rq_dispatch : DispatchRequest; rq_CallbackURL : string; rq_LogURL : string;
}.

Definition incomplete (q : DispatchRequest) : bool :=
  (RunId q ==s "") || (JobId q ==s "") || (Handler q ==s "") || (CallbackToken q ==s "")
  || (TimeoutSeconds q <? 1) || (86400 <? TimeoutSeconds q).

Definition http_execute (q : DispatchRequest) : prog (option failure) :=
  _ ← update (mark_active (JobId q) 1);
  err ← effect (InvokeHTTP (Handler q) (task_of q));
  _ ← update (mark_active (JobId q) (-1));
  mret err.

Definition failure_text (err : failure) : string :=
  match err with
  | AwaitingCallback => "awaiting callback"
  | Failure text => text
  end.

(** [callback] *)
Definition callback (q : DispatchRequest) (err : option failure) : prog unit :=
  effect (PostCallback (RunId q) (CallbackToken q)
            (match err with None => true | Some _ => false end)
            (match err with None => "" | Some e => truncate (failure_text e) (Z.to_nat 4096) end)).

(** The goroutine of an asynchronous handler. *)
Definition run_async (q : DispatchRequest) : prog unit := err ← http_execute q; callback q err.

(** [run]: the HTTP status, and whether a goroutine is started. *)
Definition run `{IPLiterals} (request : runRequest) : prog (Z * bool) :=
  let q := rq_dispatch request in
  urls ← locked (λ g, (schedulerURL (rq_CallbackURL request) (server g)
                       && schedulerURL (rq_LogURL request) (server g), g));
  if incomplete q || negb urls then mret (400, false)
  else
    registered ← locked (λ g, (handlers (server g) !! Handler q, g));
    match registered with
    | None => mret (404, false)
    | Some true => mret (202, true)
    | Some false =>
        err ← http_execute q;
        mret (match err with Some _ => 500 | None => 204 end, false)
    end.

(** ** Slots *)

Definition slotsFor (q : DispatchRequest) : option kind :=
  if ScriptLanguage q ==s "kubernetes" then None
  else if ScriptLanguage q ==s "docker" then Some DockerSlots
  else if bool_decide (is_Some (dr_Http q)) || (Handler q ==s "__http__") then Some HttpSlots
  else Some ScriptSlots.

Definition used (c : kind) (g : GRPCServer) : Z :=
  match c with
  | ScriptSlots => scriptSlots g | HttpSlots => httpSlots g | DockerSlots => dockerSlots g
  end.
Definition capacity (c : kind) (lm : Limits) : Z :=
  match c with ScriptSlots => maxScript lm | HttpSlots => maxHTTP lm | DockerSlots => maxDocker lm end.

Definition add_used (c : kind) (n : Z) (g : GRPCServer) : GRPCServer :=
  let d c' := if bool_decide (c = c') then n else 0 in
  mk_server (server g) (runs g) (draining g) (executionWG g) (completed g)
    (scriptSlots g + d ScriptSlots) (httpSlots g + d HttpSlots) (dockerSlots g + d DockerSlots)
    (store g) (completionStoreFailed g).

(** [slots <- struct{}{}] without blocking, [<-slots]. *)
Definition acquire (lm : Limits) (slots : option kind) (g : GRPCServer) : option GRPCServer :=
  match slots with
  | None => Some g
  | Some c => if used c g <? capacity c lm then Some (add_used c 1 g) else None
  end.
Definition release (slots : option kind) (g : GRPCServer) : GRPCServer :=
  match slots with None => g | Some c => add_used c (-1) g end.

(** ** The history of finished executions *)

Definition drop_oldest (runID : string) (finishedAt : time) (rs : gmap string execution)
    : gmap string execution :=
  match rs !! runID with
  | Some current =>
      if (ex_state current !=s "running") && Equal (ex_finishedAt current) finishedAt
      then delete runID rs else rs
  | None => rs
  end.

Fixpoint prune (lm : Limits) (now : time) (done : list (string * time)) (rs : gmap string execution)
    : list (string * time) * gmap string execution :=
  match done with
  | [] => ([], rs)
  | (runID, finishedAt) :: rest =>
      let overLimit := (0 <=? historyLimit lm) && (historyLimit lm <? Z.of_nat (length done)) in
      let expired := (0 <? historyRetention lm) && (historyRetention lm <=? Sub now finishedAt) in
      if negb overLimit && negb expired then (done, rs)
      else prune lm now rest (drop_oldest runID finishedAt rs)
  end.

Definition pruneExecutionHistoryLocked (lm : Limits) (now : time) (g : GRPCServer) : GRPCServer :=
  let '(done, rs) := prune lm now (completed g) (runs g) in set_completed done (set_runs rs g).

(** A running execution ends: the record, and the history. *)
Definition end_execution (lm : Limits) (runID state message : string) (now : time)
    (current : execution) (g : GRPCServer) : GRPCServer :=
  let ended := mk_execution (ex_executionID current) state message now true in
  pruneExecutionHistoryLocked lm now
    (set_completed (completed g ++ [(runID, now)]) (set_runs (<[runID := ended]> (runs g)) g)).

(** ** Operations on the store *)

Definition on_store {A} (absent : A) (op : FileStore → A * FileStore) (g : GRPCServer) : A * GRPCServer :=
  match store g with
  | None => (absent, g)
  | Some s => let '(a, s') := op s in (a, set_store (Some s') g)
  end.

Section executor.
Context `{RecordFormat} (lm : Limits).

Definition delete_execution (runID : string) (f : fault) : GRPCServer → result unit * GRPCServer :=
  on_store (Ok tt) (DeleteExecution runID f).
Definition save_completion (r : CompletionRecord) (f : fault) : GRPCServer → result unit * GRPCServer :=
  on_store (Ok tt) (Save r f).
Definition save_execution (q : DispatchRequest) (f : fault) : GRPCServer → result unit * GRPCServer :=
  on_store (Ok tt) (SaveExecution q f).
Definition delete_completion (runID : string) (f : fault) : GRPCServer → result unit * GRPCServer :=
  on_store (Ok tt) (Delete runID f).
Definition list_completions : GRPCServer → result (list CompletionRecord) * GRPCServer :=
  on_store (Ok []) (λ s, (List s, s)).
Definition list_executions : GRPCServer → result (list DispatchRequest) * GRPCServer :=
  on_store (Ok []) (λ s, (ListExecutions s, s)).

(** A disk operation of a goroutine. *)
Definition disk {A} (op : fault → GRPCServer → A * GRPCServer) : prog A :=
  f ← effect Disk; locked (op f).

(** ** Dispatch *)

Definition unavailable (message : string) : rpc DispatchResponse := inr (mk_status Unavailable message).

(** The critical section of [dispatch]: the response and, when an execution is
    to be started, its slots. *)
Definition accept (q : DispatchRequest) (now : time) (f : fault) (uuid : string) (g : GRPCServer)
    : (rpc DispatchResponse * option (option kind)) * GRPCServer :=
  if draining g then ((unavailable "executor is draining", None), g)
  else if completionStoreFailed g
  then ((unavailable "executor completion persistence is unavailable", None), g)
  else
    let g := pruneExecutionHistoryLocked lm now g in
    match runs g !! RunId q with
    | Some current => ((inl (mk_response true (ex_executionID current) (ex_state current)), None), g)
    | None =>
        match acquire lm (slotsFor q) g with
        | None => ((inr (mk_status ResourceExhausted "executor concurrency limit reached"), None), g)
        | Some g =>
            match save_execution q f g with
            | (Err _, g) =>
                ((unavailable "persist accepted execution", None), set_failed true (release (slotsFor q) g))
            | (Ok _, g) =>
                let executionID := if ExternalExecutionId q ==s "" then uuid else ExternalExecutionId q in
                let started := mk_execution executionID "running" "" 0 false in
                ((inl (mk_response true executionID "running"), Some (slotsFor q)),
                 set_executionWG (executionWG g + 1) (set_runs (<[RunId q := started]> (runs g)) g))
            end
        end
    end.

(** [time.Time.UnixMilli] and [time.UnixMilli] *)
Definition UnixMilli (t : time) : Z := (t - unix_epoch * second) / millisecond.
Definition from_milli (ms : Z) : time := unix_epoch * second + ms * millisecond.

Definition dispatch (q : DispatchRequest) (recovered : bool) : prog (rpc DispatchResponse) :=
  if incomplete q then mret (inr (mk_status InvalidArgument "invalid dispatch request"))
  else
    now ← effect Now;
    let q := if negb recovered || (ExecutionDeadlineUnixMilli q =? 0)
             then set_deadline (UnixMilli (Add now (TimeoutSeconds q * second))) q else q in
    registered ← locked (λ g, (handlers (server g) !! Handler q, g));
    match registered with
    | None => mret (inr (mk_status NotFound "handler not found"))
    | Some _ =>
        now ← effect Now;
        uuid ← effect NewUuid;
        r ← disk (λ f, accept q now f uuid);
        match r with
        | (response, Some slots) => _ ← effect (Go q slots); mret response
        | (response, None) => mret response
        end
    end.

(** [Dispatch], with the moment the response leaves. *)
Definition Dispatch (q : DispatchRequest) : prog unit :=
  response ← dispatch q false;
  effect (Answer (RunId q) (match response with inl r => Accepted r | inr _ => false end)).

(** ** Completions *)

Definition isPermanentCompletionError (c : code) : bool :=
  match c with InvalidArgument | NotFound | AlreadyExists => true | _ => false end.

Definition settled (err : option code) : bool :=
  match err with None => true | Some c => isPermanentCompletionError c end.

Definition completionMaxBackoff : duration := 5 * second.

(** The loop of [reportCompletion], for the attempts that are left. *)
Fixpoint report_attempts (attempts : nat) (backoff : duration) (r : CompletionRecord) : prog bool :=
  match attempts with
  | O => mret false
  | S rest =>
      err ← effect (Complete r);
      if settled err then mret true
      else
        match rest with
        | O => mret false
        | _ =>
            ended ← effect (Backoff backoff);
            if ended : bool then mret false
            else report_attempts rest (Z.min (backoff * 2) completionMaxBackoff) r
        end
  end.

Definition reportCompletion (r : CompletionRecord) : prog bool :=
  report_attempts 6 (200 * millisecond) r.

Definition is_running (runID : string) (g : GRPCServer) : bool :=
  match runs g !! runID with Some current => ex_state current ==s "running" | None => false end.

(** [current.state = "waiting_callback"; current.cancel()] *)
Definition mark_waiting (runID : string) (g : GRPCServer) : GRPCServer :=
  match runs g !! runID with
  | Some current =>
      if ex_state current ==s "running" then
        set_runs (<[runID := mk_execution (ex_executionID current) "waiting_callback"
                               (ex_message current) (ex_finishedAt current) true]> (runs g)) g
      else g
  | None => g
  end.

(** The transition of [finish]; whether there was one. *)
Definition transition (runID state message : string) (failed : bool) (now : time) (g : GRPCServer)
    : bool * GRPCServer :=
  let g := if failed then set_failed true g else g in
  match runs g !! runID with
  | Some current =>
      if ex_state current ==s "running" then (true, end_execution lm runID state message now current g)
      else (false, g)
  | None => (false, g)
  end.

(** The end of [finish]; waking the delivery has no effect of its own. *)
Definition close_execution (r : CompletionRecord) (state : string) (stored failed : bool) : prog unit :=
  now ← effect Now;
  transitioned ← locked (transition (co_RunID r) state (co_Message r) failed now);
  if (transitioned : bool) && (negb stored || failed) then _ ← reportCompletion r; mret tt
  else mret tt.

Definition finish_awaiting (runID : string) : prog unit :=
  _ ← update (mark_waiting runID);
  _ ← disk (delete_execution runID);
  mret tt.

(** A cleanup that failed stops the executor. *)
Definition delete_completed (runID : string) : prog unit :=
  cleanup ← disk (delete_execution runID);
  match cleanup with Ok _ => mret tt | Err _ => update (set_failed true) end.

Definition has_store (g : GRPCServer) : bool :=
  match store g with Some _ => true | None => false end.

Definition finish_completed (q : DispatchRequest) (err : option failure) : prog unit :=
  let state := match err with None => "succeeded" | Some _ => "failed" end in
  let message := match err with None => "" | Some e => truncate (failure_text e) (Z.to_nat 4096) end in
  now ← effect Now;
  let r := mk_completion (RunId q) (CallbackToken q) (match err with None => true | _ => false end)
             message now in
  stored ← locked (λ g, (has_store g, g));
  if negb stored then close_execution r state false false
  else
    shouldPersist ← locked (λ g, (is_running (RunId q) g, g));
    if negb shouldPersist then mret tt
    else
      persisted ← disk (save_completion r);
      match persisted with
      | Ok _ => _ ← delete_completed (RunId q); close_execution r state true false
      | Err _ => close_execution r state true true
      end.

Definition finish (q : DispatchRequest) (err : option failure) : prog unit :=
  match err with
  | Some AwaitingCallback => finish_awaiting (RunId q)
  | _ => finish_completed q err
  end.

(** [execute]: the goroutine of an execution.  A panic of the handler is a
    [Failure]. *)
Definition execute (q : DispatchRequest) (slots : option kind) : prog unit :=
  _ ← update (mark_active (JobId q) 1);
  err ← effect (Invoke (Handler q) (task_of q));
  _ ← update (mark_active (JobId q) (-1));
  _ ← update (release slots);
  _ ← finish q err;
  update (λ g, set_executionWG (executionWG g - 1) g).

(** ** Delivery of stored completions *)

(** The goroutine of one record. *)
Definition deliver (r : CompletionRecord) : prog unit :=
  err ← effect (Complete r);
  if settled err then _ ← disk (delete_completion (co_RunID r)); mret tt else mret tt.

Definition deliverPersistedCompletions : prog unit :=
  records ← locked list_completions;
  match records with
  | Err _ => mret tt
  | Ok records => each (λ r, effect (GoDeliver r)) records
  end.

(** ** Recovery *)

Definition isExternallyRecoverable (q : DispatchRequest) : bool :=
  (ScriptLanguage q ==s "docker") || (ScriptLanguage q ==s "kubernetes").

Definition cancelRecoveredExternalExecution (q : DispatchRequest) : prog (result unit) :=
  known ← locked (λ g, (bool_decide (ScriptLanguage q ∈ cancellers (server g)), g));
  if negb known then mret (Err (ErrMsg "no external canceller is registered"))
  else
    err ← effect (CancelExternal (mk_ext_cancel (RunId q) (ExternalExecutionId q) (JobId q)
                    (ScriptLanguage q) (dr_KubernetesCluster q)));
    mret (match err with Some e => Err e | None => Ok tt end).

(** [deadline == 0 || time.Now().Before(time.UnixMilli(deadline))] *)
Definition before_deadline (q : DispatchRequest) : prog bool :=
  if ExecutionDeadlineUnixMilli q =? 0 then mret true
  else now ← effect Now; mret (Before now (from_milli (ExecutionDeadlineUnixMilli q))).

(** A failed completion in place of an execution. *)
Definition replace_execution (q : DispatchRequest) (message : string) : prog (result unit) :=
  now ← effect Now;
  saved ← disk (save_completion (mk_completion (RunId q) (CallbackToken q) false message now));
  match saved with Err e => mret (Err e) | Ok _ => disk (delete_execution (RunId q)) end.

(** The first loop: the identifiers of the completed runs. *)
Fixpoint settle (requests : list DispatchRequest) (completed : list string)
    : prog (result (list string)) :=
  match requests with
  | [] => mret (Ok completed)
  | q :: rest =>
      if bool_decide (RunId q ∈ completed) then
        r ← disk (delete_execution (RunId q));
        match r with Err e => mret (Err e) | Ok _ => settle rest completed end
      else if isExternallyRecoverable q then
        live ← before_deadline q;
        if live : bool then settle rest completed
        else
          r ← cancelRecoveredExternalExecution q;
          match r with
          | Err e => mret (Err e)
          | Ok _ =>
              r ← replace_execution q "execution deadline exceeded while executor was unavailable";
              match r with Err e => mret (Err e) | Ok _ => settle rest (RunId q :: completed) end
          end
      else
        r ← replace_execution q "executor restarted before process-local execution completed";
        match r with Err e => mret (Err e) | Ok _ => settle rest completed end
  end.

(** The second loop. *)
Fixpoint resume (requests : list DispatchRequest) (completed : list string) : prog (result unit) :=
  match requests with
  | [] => mret (Ok tt)
  | q :: rest =>
      if bool_decide (RunId q ∈ completed) || negb (isExternallyRecoverable q)
      then resume rest completed
      else
        r ← dispatch q true;
        match r with
        | inr st => mret (Err (ErrMsg (st_message st)))
        | inl _ => resume rest completed
        end
  end.

Definition RecoverExecutions : prog (result unit) :=
  stored ← locked (λ g, (has_store g, g));
  if negb stored then mret (Ok tt)
  else
    completions ← locked list_completions;
    match completions with
    | Err e => mret (Err e)
    | Ok completions =>
        requests ← locked list_executions;
        match requests with
        | Err e => mret (Err e)
        | Ok requests =>
            completed ← settle requests (map co_RunID completions);
            match completed with
            | Err e => mret (Err e)
            | Ok completed => resume requests completed
            end
        end
    end.

(** ** Cancellation *)

(** The critical section of [Cancel]: whether the execution is cancelled here. *)
Definition cancel_in_memory (runID reason : string) (now : time) (g : GRPCServer) : bool * GRPCServer :=
  match runs g !! runID with
  | Some current =>
      if ex_state current ==s "running" then (true, end_execution lm runID "cancelled" reason now current g)
      else (ex_state current ==s "cancelled", g)
  | None => (false, g)
  end.

Definition deletePersistedExecution (runID : string) : prog (result unit) :=
  r ← disk (delete_execution runID);
  match r with
  | Ok _ => mret (Ok tt)
  | Err e => _ ← update (set_failed true); mret (Err e)
  end.

(** Deleting the execution makes the cancellation durable; then it is accepted. *)
Definition persist_cancellation (runID : string) : prog (rpc bool) :=
  r ← deletePersistedExecution runID;
  mret (match r with Ok _ => inl true | Err _ => inr (mk_status Unavailable "persist cancellation") end).

Definition Cancel (request : CancelRequest) : prog (rpc bool) :=
  if cr_RunId request ==s "" then mret (inr (mk_status InvalidArgument "run_id is required"))
  else
    now ← effect Now;
    cancelled ← locked (cancel_in_memory (cr_RunId request) (cr_Reason request) now);
    if (cr_ExternalExecutionId request ==s "") || (cr_JobId request ==s "")
       || (cr_ScriptLanguage request ==s "") then
      if cancelled : bool then persist_cancellation (cr_RunId request) else mret (inl false)
    else
      known ← locked (λ g, (bool_decide (cr_ScriptLanguage request ∈ cancellers (server g)), g));
      if negb known then
        if (cr_ScriptLanguage request ==s "docker") || (cr_ScriptLanguage request ==s "kubernetes")
        then mret (inl false)
        else persist_cancellation (cr_RunId request)
      else
        err ← effect (CancelExternal (mk_ext_cancel (cr_RunId request) (cr_ExternalExecutionId request)
                        (cr_JobId request) (cr_ScriptLanguage request) (cr_KubernetesCluster request)));
        match err with
        | Some _ => mret (inr (mk_status Unavailable "cancel external execution"))
        | None => persist_cancellation (cr_RunId request)
        end.

(** ** Inspection and shutdown *)

Definition Inspect (runID jobID : string) (g : GRPCServer) : rpc ExecutionState :=
  if (jobID !=s "") && (runID ==s "")
  then inl (mk_state "" "" (if jobBusy jobID (server g) then "busy" else "idle") "")
  else
    match runs g !! runID with
    | None => inr (mk_status NotFound "execution not found")
    | Some current => inl (mk_state runID (ex_executionID current) (ex_state current) (ex_message current))
    end.

Definition cancel_running (g : GRPCServer) : GRPCServer :=
  set_runs ((λ current, if ex_state current ==s "running"
             then mk_execution (ex_executionID current) (ex_state current) (ex_message current)
                    (ex_finishedAt current) true
             else current) <$> runs g) g.

(** [Drain]: whether all executions ended in time. *)
Definition Drain : prog bool :=
  _ ← update (set_draining true);
  ended ← effect WaitExecutions;
  if ended : bool then mret true else _ ← update cancel_running; mret false.
End executor.

(** [Run] of [cmd/script-executor]: recovery comes before everything else, and
    the process gives up when it fails. *)
Definition main `{RecordFormat} (lm : Limits) : prog unit :=
  r ← RecoverExecutions lm;
  match r with Ok _ => effect Serve | Err _ => mret tt end.

(** ** Configuration *)

Record GRPCServerOptions := mk_options {
  MaxConcurrentExecutions : Z; MaxScriptExecutions : Z; MaxHTTPExecutions : Z; MaxDockerExecutions : Z;
}.

Definition NewGRPCServer (options : list GRPCServerOptions) (sv : Server) (st : option FileStore)
    : result (Limits * GRPCServer) :=
  let start c h d :=
    if (c <? 1) || (h <? 1) || (d <? 1)
    then Err (ErrMsg "maximum concurrent script, HTTP, and Docker executions must be positive")
    else Ok (mk_limits c h d 10000 (24 * hour), mk_server sv ∅ false 0 [] 0 0 0 st false) in
  match options with
  | [] => start 32 1000 100
  | [o] =>
      let fallback := if MaxConcurrentExecutions o =? 0 then 32 else MaxConcurrentExecutions o in
      let pick v default :=
        if v =? 0 then (if 0 <? MaxConcurrentExecutions o then fallback else default) else v in
      start (if MaxScriptExecutions o =? 0 then fallback else MaxScriptExecutions o)
        (pick (MaxHTTPExecutions o) 1000) (pick (MaxDockerExecutions o) 100)
  | _ => Err (ErrMsg "at most one gRPC server options value is supported")
  end.
End ExecutorServer.
