(* ===== verification/ExecutorWorld.v ===== *)
(** * An executor over its lifetime

    Goroutines of one executor interleave, the process dies and is started
    again; the state directory stays.  What was accepted is never lost. *)
From Stdlib Require Import ZArith Lia Ascii String.
From stdpp Require Import base list strings gmap relations.
From S2P Require Import Prelude GoStrings GoUrl Utf8 GoJson Proto CompletionStore ExecutorServer.

Module ExecutorWorld.
Import GoJson Proto CompletionStore CompletionProofs ExecutorServer.

(** ** Worlds *)

(** What others have seen of a run: Core got the answer that it is accepted;
    Core answered its completion for good; its handler left the rest to a
    callback; Core asked to cancel it. *)
Inductive event :=
| Accepted_ (runID : string) | Reported (runID : string) | Awaited (runID : string)
| CancelAsked (runID : string).

Record world := mk_world {
  w_up : bool; w_serving : bool; w_server : GRPCServer; w_threads : list (prog unit);
  w_log : list event;
}.

(** What an answered request adds to the log. *)
Definition events {B} (eff : io B) : B → list event :=
  match eff with
  | Invoke _ t => λ b, match b with Some AwaitingCallback => [Awaited (tk_RunID t)] | _ => [] end
  | Complete r => λ b, if settled b then [Reported (co_RunID r)] else []
  | Answer runID accepted => λ _, if accepted then [Accepted_ runID] else []
  | _ => λ _, []
  end.

(** The goroutines a request starts. *)
Definition spawns `{RecordFormat} {B} (lm : Limits) (eff : io B) : list (prog unit) :=
  match eff with
  | Go q slots => [execute lm q slots]
  | GoDeliver r => [deliver r]
  | _ => []
  end.

(** Executions are waited for until there are none. *)
Definition allowed {B} (g : GRPCServer) (eff : io B) : B → Prop :=
  match eff with WaitExecutions => λ b, b = true → executionWG g = 0 | _ => λ _, True end.

Definition serves {B} (eff : io B) : bool := match eff with Serve => true | _ => false end.

Section world.
Context `{RecordFormat} `{IPLiterals}.
(** The configuration of the process. *)
Context (lm : Limits) (sv : Server) (maxRecords maxExecutions : Z).

(** A request of the HTTP protocol. *)
Definition http_run (request : runRequest) : prog unit :=
  r ← run request; if r.2 : bool then run_async (rq_dispatch request) else mret tt.

Definition cancel_run (request : CancelRequest) : prog unit := _ ← Cancel lm request; mret tt.
Definition drain : prog unit := _ ← Drain; mret tt.

(** Requests that arrive while the executor serves. *)
Inductive arrives : list event → prog unit → Prop :=
| arrives_dispatch q : arrives [] (Dispatch lm q)
| arrives_cancel request : arrives [CancelAsked (cr_RunId request)] (cancel_run request)
| arrives_run request : arrives [] (http_run request)
| arrives_wake : arrives [] deliverPersistedCompletions
| arrives_drain : arrives [] drain.

Definition started (s : FileStore) : GRPCServer := mk_server sv ∅ false 0 [] 0 0 0 (Some s) false.

(** Steps of a process. *)
Inductive live_step : world → world → Prop :=
| ls_locked {B} (m : GRPCServer → B * GRPCServer) k b g' serving g l1 l2 log :
    m g = (b, g') →
    live_step (mk_world true serving g (l1 ++ Locked m k :: l2) log)
              (mk_world true serving g' (l1 ++ k b :: l2) log)
| ls_effect {B} (eff : io B) k b serving g l1 l2 log :
    allowed g eff b →
    live_step (mk_world true serving g (l1 ++ Effect eff k :: l2) log)
              (mk_world true (serving || serves eff) g (l1 ++ k b :: l2 ++ spawns lm eff)
                 (log ++ events eff b))
| ls_end serving g l1 l2 log :
    live_step (mk_world true serving g (l1 ++ Return tt :: l2) log)
              (mk_world true serving g (l1 ++ l2) log)
| ls_arrive es p g l log :
    arrives es p →
    live_step (mk_world true true g l log) (mk_world true true g (l ++ [p]) (log ++ es)).

(** The process dies at any time; it is started when its directory can be
    opened. *)
Inductive estep : world → world → Prop :=
| es_live w w' : live_step w w' → estep w w'
| es_crash w : estep w (mk_world false false (w_server w) [] (w_log w))
| es_start w s s' :
    w_up w = false → store (w_server w) = Some s →
    NewFileCompletionStore (fs_dir s) maxRecords maxExecutions = Ok s' →
    estep w (mk_world true false (started s') [main lm] (w_log w)).

(** An executor that was never started, with an empty directory. *)
Definition einitial : world :=
  mk_world false false (started (mk_fstore ∅ 0 maxRecords 0 maxExecutions)) [] [].
Definition ereachable (w : world) : Prop := rtc estep einitial w.

(** ** What is kept of a run *)

Definition moment : Type := GRPCServer * list event.

Definition has_execution (runID : string) (g : GRPCServer) : Prop :=
  ∃ s q, store g = Some s ∧ fs_dir s !! executionFileName runID = Some (ExecutionFile q) ∧
         RunId q = runID.
Definition has_completion (runID : string) (g : GRPCServer) : Prop :=
  ∃ s r, store g = Some s ∧ fs_dir s !! completionFileName runID = Some (CompletionFile r) ∧
         co_RunID (unmarshal_record r) = runID.

(** The run is no longer the executor's business, or will be reported. *)
Definition covered (runID : string) (W : moment) : Prop :=
  has_completion runID W.1 ∨ Reported runID ∈ W.2 ∨ Awaited runID ∈ W.2 ∨ CancelAsked runID ∈ W.2.
Definition kept (runID : string) (W : moment) : Prop :=
  has_execution runID W.1 ∨ covered runID W.

(** Names that are not taken for interrupted writes. *)
Definition stable_id (runID : string) : Prop :=
  temporary_name (completionFileName runID) = false ∧
  temporary_name (executionFileName runID) = false.

(** Time passes: nothing that is kept is lost. *)
Definition passes (W W' : moment) : Prop :=
  W.2 ⊆ W'.2 ∧
  (∀ runID, stable_id runID → covered runID W → covered runID W') ∧
  (∀ runID, stable_id runID → kept runID W → kept runID W').
#[local] Instance passes_preorder : PreOrder passes.
Proof.
  split; [intros W; by split_and!|].
  intros W1 W2 W3 (? & ? & ?) (? & ? & ?). split_and!; [set_solver|naive_solver..].
Qed.

(** The executor remembers only runs it keeps. *)
Definition sound (W : moment) : Prop :=
  is_Some (store W.1) ∧
  ∀ runID, stable_id runID → is_Some (runs W.1 !! runID) → kept runID W.

Definition promised {B} (eff : io B) (W : moment) : Prop :=
  match eff with Answer runID true => stable_id runID → kept runID W | _ => True end.

(** What a goroutine does is allowed at every moment that follows [W], whatever
    other goroutines do in between; it ends with [Q]. *)
Fixpoint safe {A} (Q : A → moment → Prop) (W : moment) (p : prog A) : Prop :=
  match p with
  | Return a => ∀ W', passes W W' → Q a W'
  | Locked m k => ∀ W', passes W W' → sound W' →
      passes W' ((m W'.1).2, W'.2) ∧ sound ((m W'.1).2, W'.2) ∧
      safe Q ((m W'.1).2, W'.2) (k (m W'.1).1)
  | Effect eff k => ∀ W', passes W W' → sound W' → promised eff W' ∧
      ∀ b, safe Q (W'.1, W'.2 ++ events eff b) (k b)
  end.

Lemma safe_later {A} (Q : A → moment → Prop) W W' p : passes W W' → safe Q W p → safe Q W' p.
Proof. intros Hp. destruct p; cbn; intros Hs W2 H2; apply Hs; by etrans. Qed.

Lemma safe_bind {A B} (Q : B → moment → Prop) W (f : A → prog B) p :
  safe (λ a W', safe Q W' (f a)) W p → safe Q W (p ≫= f).
Proof.
  change (p ≫= f) with (prog_bind f p). revert W.
  induction p as [a|C m k IH|C eff k IH]; intros W; cbn.
  - intros Hs. by apply Hs.
  - intros Hs W' Hp Hw. destruct (Hs W' Hp Hw) as (? & ? & ?). split_and!; [done..|by apply IH].
  - intros Hs W' Hp Hw. destruct (Hs W' Hp Hw) as [? Hk]. split; [done|]. intros b. by apply IH.
Qed.

Lemma passes_log W es : passes W (W.1, W.2 ++ es).
Proof.
  assert (Hc : ∀ runID, covered runID W → covered runID (W.1, W.2 ++ es)).
  { unfold covered. intros runID. cbn. rewrite !elem_of_app. tauto. }
  split_and!; [set_solver|auto|]. intros runID _ [He|?]; [by left|right; auto].
Qed.

Lemma safe_mono {A} (Q Q' : A → moment → Prop) W p :
  (∀ a W', passes W W' → Q a W' → Q' a W') → safe Q W p → safe Q' W p.
Proof.
  revert W. induction p as [a|C m k IH|C eff k IH]; intros W HQ; cbn.
  - intros Hs W' Hp. apply HQ; auto.
  - intros Hs W' Hp Hw. destruct (Hs W' Hp Hw) as (? & ? & ?). split_and!; [done..|].
    eapply IH; [|done]. intros a W2 ?. apply HQ. by do 2 (etrans; [done|]).
  - intros Hs W' Hp Hw. destruct (Hs W' Hp Hw) as [? Hk]. split; [done|]. intros b.
    eapply IH; [|by apply Hk]. intros a W2 ?. apply HQ. etrans; [done|]. etrans; [apply passes_log|done].
Qed.

(** A critical section and a request, as programs of their own. *)
Lemma safe_locked {A} (Q : A → moment → Prop) W (m : GRPCServer → A * GRPCServer) :
  (∀ W', passes W W' → sound W' →
     passes W' ((m W'.1).2, W'.2) ∧ sound ((m W'.1).2, W'.2) ∧
     ∀ W2, passes ((m W'.1).2, W'.2) W2 → Q (m W'.1).1 W2) →
  safe Q W (locked m).
Proof. done. Qed.

Lemma safe_effect {A} (Q : A → moment → Prop) W (eff : io A) :
  (∀ W', passes W W' → sound W' → promised eff W' ∧
     ∀ b W2, passes (W'.1, W'.2 ++ events eff b) W2 → Q b W2) →
  safe Q W (effect eff).
Proof. intros Hs W' Hp Hw. destruct (Hs W' Hp Hw). by split. Qed.

(** ** Critical sections *)

(** Files of a run in a directory. *)
Definition execution_in (runID : string) (dir : gmap string file) : Prop :=
  ∃ q, dir !! executionFileName runID = Some (ExecutionFile q) ∧ RunId q = runID.
Definition completion_in (runID : string) (dir : gmap string file) : Prop :=
  ∃ r, dir !! completionFileName runID = Some (CompletionFile r) ∧
       co_RunID (unmarshal_record r) = runID.

Lemma has_execution_in runID g s :
  store g = Some s → has_execution runID g ↔ execution_in runID (fs_dir s).
Proof.
  intros Hs. unfold has_execution, execution_in. rewrite Hs. split; [|naive_solver].
  intros (s' & q & [= <-] & ?). by exists q.
Qed.
Lemma has_completion_in runID g s :
  store g = Some s → has_completion runID g ↔ completion_in runID (fs_dir s).
Proof.
  intros Hs. unfold has_completion, completion_in. rewrite Hs. split; [|naive_solver].
  intros (s' & r & [= <-] & ?). by exists r.
Qed.

(** A section that changes the directory from that of [s] to that of [s']. *)
Lemma passes_dir g g' log s s' :
  store g = Some s → store g' = Some s' →
  (∀ runID, stable_id runID → completion_in runID (fs_dir s) → covered runID (g', log)) →
  (∀ runID, stable_id runID → execution_in runID (fs_dir s) → kept runID (g', log)) →
  passes (g, log) (g', log).
Proof.
  intros Hs Hs' Hc He.
  assert (Hcov : ∀ runID, stable_id runID → covered runID (g, log) → covered runID (g', log)).
  { intros runID Hi [Hh|Hl]; [|by right]. apply Hc; [done|].
    by apply (has_completion_in runID g). }
  split_and!; [done|done|]. intros runID Hi [Hh|Hh]; [|right; auto].
  apply He; [done|]. by apply (has_execution_in runID g).
Qed.

(** A section that leaves the directory alone and forgets runs at most. *)
Lemma quiet_step g g' log :
  store g' = store g → (∀ runID, is_Some (runs g' !! runID) → is_Some (runs g !! runID)) →
  sound (g, log) → passes (g, log) (g', log) ∧ sound (g', log).
Proof.
  intros Hs Hr [[s Es] Hk]. cbn in Es.
  assert (Hp : passes (g, log) (g', log)).
  { apply (passes_dir g g' log s s); [done|congruence| |]; intros runID _ Hd.
    - left. apply (has_completion_in runID g' s); [congruence|done].
    - left. apply (has_execution_in runID g' s); [congruence|done]. }
  split; [done|]. split; [exists s; cbn; congruence|].
  intros runID Hi Hx. destruct Hp as (_ & _ & Hp). apply Hp; auto.
Qed.

(** A section that changes the store only. *)
Lemma store_step g g' log :
  runs g' = runs g → is_Some (store g') → passes (g, log) (g', log) → sound (g, log) → sound (g', log).
Proof.
  intros Hr Hs (_ & _ & Hp) [_ Hk]. split; [done|]. cbn. rewrite Hr. intros. apply Hp; auto.
Qed.

(** ** What the operations of the store keep *)

Lemma lookup_execution_completion runID runID' f (dir : gmap string file) :
  <[executionFileName runID := f]> dir !! completionFileName runID' = dir !! completionFileName runID'.
Proof. apply lookup_insert_ne. intros E. by apply (completion_not_execution runID' runID). Qed.

Lemma lookup_completion_execution runID runID' f (dir : gmap string file) :
  <[completionFileName runID := f]> dir !! executionFileName runID' = dir !! executionFileName runID'.
Proof. apply lookup_insert_ne. apply completion_not_execution. Qed.

Lemma execution_in_insert q runID dir :
  execution_in runID dir → execution_in runID (<[executionFileName (RunId q) := ExecutionFile q]> dir).
Proof.
  intros Hd. destruct (decide (RunId q = runID)) as [<-|Hn].
  - exists q. by rewrite lookup_insert_eq.
  - destruct Hd as (q' & Hl & Hr). exists q'. rewrite lookup_insert_ne; [done|].
    intros E%executionFileName_inj. done.
Qed.

Lemma execution_in_self q dir :
  execution_in (RunId q) (<[executionFileName (RunId q) := ExecutionFile q]> dir).
Proof. exists q. by rewrite lookup_insert_eq. Qed.

Lemma write_execution_keeps q n f s r s' :
  write_execution q n f s = (r, s') →
  (∀ runID, completion_in runID (fs_dir s) → completion_in runID (fs_dir s')) ∧
  (∀ runID, execution_in runID (fs_dir s) → execution_in runID (fs_dir s')) ∧
  (r = Ok tt → execution_in (RunId q) (fs_dir s')).
Proof.
  assert (Hc : ∀ runID dir, completion_in runID dir →
    completion_in runID (<[executionFileName (RunId q) := ExecutionFile q]> dir)).
  { intros runID dir (r0 & ? & ?). exists r0. by rewrite lookup_execution_completion. }
  destruct f; cbn; intros [= <- <-]; split_and!; try done; cbn; auto using execution_in_insert.
  intros _. apply execution_in_self.
Qed.

Lemma SaveExecution_keeps q f s r s' :
  SaveExecution q f s = (r, s') →
  (∀ runID, completion_in runID (fs_dir s) → completion_in runID (fs_dir s')) ∧
  (∀ runID, execution_in runID (fs_dir s) → execution_in runID (fs_dir s')) ∧
  (r = Ok tt → execution_in (RunId q) (fs_dir s')).
Proof.
  unfold SaveExecution. intros Hs.
  assert (Hn : ∀ e : error, (Err e, s) = (r, s') →
    (∀ runID, completion_in runID (fs_dir s) → completion_in runID (fs_dir s')) ∧
    (∀ runID, execution_in runID (fs_dir s) → execution_in runID (fs_dir s')) ∧
    (r = Ok tt → execution_in (RunId q) (fs_dir s'))) by (intros e [= <- <-]; done).
  destruct (validateCompletionRunID _); [|by eapply Hn].
  destruct (_ || _); [by eapply Hn|]. destruct (_ <? _); [by eapply Hn|].
  destruct (fs_dir s !! executionFileName (RunId q)) as [[r0|existing|]|] eqn:El.
  1,3: by eapply Hn.
  - case_bool_decide as Eq.
    + injection Hs as <- <-. subst. split_and!; auto. intros _. by exists q.
    + destruct (_ && _); [by eapply write_execution_keeps|by eapply Hn].
  - destruct (_ <=? _); [by eapply Hn|by eapply write_execution_keeps].
Qed.

Lemma Save_keeps c f s r s' :
  Save c f s = (r, s') →
  (∀ runID, completion_in runID (fs_dir s) → completion_in runID (fs_dir s')) ∧
  (∀ runID, execution_in runID (fs_dir s) → execution_in runID (fs_dir s')) ∧
  (r = Ok tt → completion_in (co_RunID c) (fs_dir s')).
Proof.
  unfold Save. intros Hs.
  destruct (validateCompletionRecord c) as [[]|] eqn:Ev; [|by injection Hs as <- <-]. cbv zeta in Hs.
  destruct (_ <? _); [by injection Hs as <- <-|]. destruct (_ <=? _); [by injection Hs as <- <-|].
  destruct (fs_dir s !! completionFileName (co_RunID c)) eqn:El; [by injection Hs as <- <-|].
  assert (Hc : ∀ runID, completion_in runID (fs_dir s) →
    completion_in runID (<[completionFileName (co_RunID c) := CompletionFile c]> (fs_dir s))).
  { intros runID (c' & Hl & Hi). exists c'. rewrite lookup_insert_ne; [done|].
    intros E%completionFileName_inj. congruence. }
  assert (He : ∀ runID, execution_in runID (fs_dir s) →
    execution_in runID (<[completionFileName (co_RunID c) := CompletionFile c]> (fs_dir s))).
  { intros runID (q & Hl & Hi). exists q. by rewrite lookup_completion_execution. }
  destruct f; injection Hs as <- <-; split_and!; try done; cbn; auto.
  intros _. exists c. rewrite lookup_insert_eq. split; [done|].
  by apply json_read_valid, valid_run_id, validate_record_id.
Qed.

Lemma removeExecutionLocked_keeps runID s :
  (∀ id, completion_in id (fs_dir s) → completion_in id (fs_dir (removeExecutionLocked runID s))) ∧
  (∀ id, execution_in id (fs_dir s) → id ≠ runID → execution_in id (fs_dir (removeExecutionLocked runID s))).
Proof.
  unfold removeExecutionLocked. destruct (fs_dir s !! executionFileName runID); [|done]. cbn. split.
  - intros id (r & ? & ?). exists r. rewrite lookup_delete_ne; [done|].
    intros E. by apply (completion_not_execution id runID).
  - intros id (q & ? & ?) Hn. exists q. rewrite lookup_delete_ne; [done|].
    intros E%executionFileName_inj. done.
Qed.

Lemma remove_completion_keeps runID s :
  (∀ id, completion_in id (fs_dir s) → id ≠ runID → completion_in id (fs_dir (remove_completion runID s))) ∧
  (∀ id, execution_in id (fs_dir s) → execution_in id (fs_dir (remove_completion runID s))).
Proof.
  unfold remove_completion. destruct (fs_dir s !! completionFileName runID); [|by split]. cbn. split.
  - intros id (r & ? & ?) Hn. exists r. rewrite lookup_delete_ne; [done|].
    intros E%completionFileName_inj. done.
  - intros id (q & ? & ?). exists q. rewrite lookup_delete_ne; [done|]. apply completion_not_execution.
Qed.

Lemma DeleteExecution_keeps runID f s r s' :
  DeleteExecution runID f s = (r, s') →
  (∀ id, completion_in id (fs_dir s) → completion_in id (fs_dir s')) ∧
  (∀ id, execution_in id (fs_dir s) → id ≠ runID → execution_in id (fs_dir s')).
Proof.
  unfold DeleteExecution. destruct (validateCompletionRunID runID); [|by intros [= _ <-]].
  destruct f; intros [= _ <-]; try done; apply removeExecutionLocked_keeps.
Qed.

Lemma Delete_keeps runID f s r s' :
  Delete runID f s = (r, s') →
  ∀ id, id ≠ runID → (completion_in id (fs_dir s) → completion_in id (fs_dir s')) ∧
                     (execution_in id (fs_dir s) → execution_in id (fs_dir s')).
Proof.
  unfold Delete. destruct (validateCompletionRunID runID); [|by intros [= _ <-]].
  cbv zeta. intros Hd id Hn. set (s1 := removeExecutionLocked runID s) in Hd.
  destruct (removeExecutionLocked_keeps runID s) as [Hc1 He1].
  destruct (remove_completion_keeps runID s1) as [Hc2 He2]. fold s1 in Hc1, He1.
  destruct f; injection Hd as _ <-; split; auto.
Qed.

(** ** Safe pieces of programs *)

Notation harmless := (safe (λ _ _, True)).

Lemma covered_later runID W W' :
  passes W W' → stable_id runID → covered runID W → covered runID W'.
Proof. intros (_ & Hc & _). apply Hc. Qed.
Lemma kept_later runID W W' : passes W W' → stable_id runID → kept runID W → kept runID W'.
Proof. intros (_ & _ & Hk). apply Hk. Qed.

(** A goroutine that only asks. *)
Lemma safe_ask {A} W (eff : io A) : (∀ W', promised eff W') → harmless W (effect eff).
Proof. intros Hp. apply safe_effect. intros W' _ _. by split. Qed.

Lemma safe_quiet {A} W (m : GRPCServer → A * GRPCServer) :
  (∀ g, store (m g).2 = store g ∧ ∀ runID, is_Some (runs (m g).2 !! runID) → is_Some (runs g !! runID)) →
  harmless W (locked m).
Proof.
  intros Hm. apply safe_locked. intros [g log] _ Hw. destruct (Hm g) as [Hs Hr].
  destruct (quiet_step g (m g).2 log Hs Hr Hw). by split_and!.
Qed.

(** Reading. *)
Lemma safe_read {A} W (f : GRPCServer → A) : harmless W (locked (λ g, (f g, g))).
Proof. by apply safe_quiet. Qed.

Lemma on_store_some {A} (absent : A) op g s :
  store g = Some s → on_store absent op g = ((op s).1, set_store (Some (op s).2) g).
Proof. intros Hs. unfold on_store. rewrite Hs. by destruct (op s). Qed.

(** A section on the store. *)
Lemma safe_store {A} (Q : A → moment → Prop) W absent (op : FileStore → A * FileStore) :
  (∀ g log s a s', passes W (g, log) → store g = Some s → op s = (a, s') →
     let g' := set_store (Some s') g in
     (∀ runID, stable_id runID → completion_in runID (fs_dir s) → covered runID (g', log)) ∧
     (∀ runID, stable_id runID → execution_in runID (fs_dir s) → kept runID (g', log)) ∧
     ∀ W2, passes (g', log) W2 → Q a W2) →
  safe Q W (locked (on_store absent op)).
Proof.
  intros Ho. apply safe_locked. intros [g log] Hp Hw. destruct (proj1 Hw) as [s Es]. cbn in Es.
  cbn [fst snd]. rewrite (on_store_some absent op g s Es). cbn [fst snd].
  destruct (op s) as [a s'] eqn:Eo. destruct (Ho g log s a s' Hp Es Eo) as (Hc & He & HQ).
  assert (Hp' : passes (g, log) (set_store (Some s') g, log)) by by apply (passes_dir _ _ _ s s').
  split_and!; [done| |done]. apply (store_step g); [done|by eexists|done|done].
Qed.

(** The fate of a disk operation is asked for first. *)
Lemma safe_disk {A} (Q : A → moment → Prop) W (op : fault → GRPCServer → A * GRPCServer) :
  (∀ f W', passes W W' → safe Q W' (locked (op f))) → safe Q W (disk op).
Proof.
  intros Ho. apply safe_bind, safe_effect. intros W' Hp _. split; [done|]. intros f W2 H2.
  apply Ho. etrans; [done|]. etrans; [apply passes_log|done].
Qed.

Lemma safe_delete_execution W runID :
  (stable_id runID → covered runID W) → harmless W (disk (delete_execution runID)).
Proof.
  intros Hc. apply safe_disk. intros f W1 H1. apply safe_store. intros g log s a s' Hp Es Ed g'.
  destruct (DeleteExecution_keeps _ _ _ _ _ Ed) as [Hkc Hke]. split_and!; [| |done]; intros id Hi Hd.
  - left. apply (has_completion_in id g' s'); auto.
  - destruct (decide (id = runID)) as [->|Hn].
    + right. destruct (covered_later runID W (g, log)) as [Hh|Hl]; [by etrans|done|auto| |by right].
      left. apply (has_completion_in runID g' s'); [done|]. apply Hkc.
      by apply (has_completion_in runID g s).
    + left. apply (has_execution_in id g' s'); auto.
Qed.

Lemma safe_save_completion W c :
  safe (λ r W', r = Ok tt → stable_id (co_RunID c) → covered (co_RunID c) W') W
    (disk (save_completion c)).
Proof.
  apply safe_disk. intros f W1 H1. apply safe_store. intros g log s a s' Hp Es Ed g'.
  destruct (Save_keeps _ _ _ _ _ Ed) as (Hkc & Hke & Hok). split_and!.
  - intros id Hi Hd. left. apply (has_completion_in id g' s'); auto.
  - intros id Hi Hd. left. apply (has_execution_in id g' s'); auto.
  - intros W2 H2 Ea Hi. apply (covered_later _ _ _ H2 Hi). left.
    apply (has_completion_in _ g' s'); auto.
Qed.

Lemma safe_delete_completion W runID :
  Reported runID ∈ W.2 → harmless W (disk (delete_completion runID)).
Proof.
  intros Hr. apply safe_disk. intros f W1 H1. apply safe_store. intros g log s a s' Hp Es Ed g'.
  pose proof (Delete_keeps _ _ _ _ _ Ed) as Hk.
  assert (Hcov : ∀ id, id = runID → covered id (g', log)).
  { intros id ->. right. left. destruct H1 as [Hs1 _], Hp as [Hs2 _]. set_solver. }
  split_and!; [| |done]; intros id Hi Hd; (destruct (decide (id = runID)) as [->|Hn]).
  - auto.
  - left. apply (has_completion_in id g' s'); [done|]. by apply Hk.
  - right. auto.
  - left. apply (has_execution_in id g' s'); [done|]. by apply Hk.
Qed.

(** *** Sections that leave the store alone *)

Definition forgets (g g' : GRPCServer) : Prop :=
  store g' = store g ∧ ∀ runID, is_Some (runs g' !! runID) → is_Some (runs g !! runID).
#[local] Instance forgets_preorder : PreOrder forgets.
Proof.
  split; [by intros g; split|]. intros g1 g2 g3 [H1 K1] [H2' K2]. split; [congruence|auto].
Qed.

Lemma drop_oldest_forgets runID t rs id :
  is_Some (drop_oldest runID t rs !! id) → is_Some (rs !! id).
Proof.
  unfold drop_oldest. destruct (rs !! runID); [|done]. destruct (_ && _); [|done].
  rewrite lookup_delete_is_Some. tauto.
Qed.

Lemma prune_forgets now done rs id :
  is_Some ((prune lm now done rs).2 !! id) → is_Some (rs !! id).
Proof.
  revert rs. induction done as [|[runID t] done IH]; intros rs; [by cbn|]. cbn [prune]. cbv zeta.
  destruct (_ && _); [by cbn|]. intros Hi%IH. by eapply drop_oldest_forgets.
Qed.

Lemma pruned_forgets now g : forgets g (pruneExecutionHistoryLocked lm now g).
Proof.
  unfold pruneExecutionHistoryLocked. pose proof (prune_forgets now (completed g) (runs g)) as Hp.
  destruct (prune lm now (completed g) (runs g)) as [done rs]. by split.
Qed.

Lemma insert_known (rs : gmap string execution) runID x id :
  is_Some (rs !! runID) → is_Some (<[runID := x]> rs !! id) → is_Some (rs !! id).
Proof. intros Hr. rewrite lookup_insert_is_Some. intros [<-|[_ ?]]; done. Qed.

Lemma end_execution_forgets runID state message now current g :
  runs g !! runID = Some current → forgets g (end_execution lm runID state message now current g).
Proof.
  intros Hr. unfold end_execution. etrans; [|apply pruned_forgets]. split; [done|].
  intros id. cbn. apply insert_known. by eexists.
Qed.

Lemma transition_forgets runID state message failed now g :
  forgets g (transition lm runID state message failed now g).2.
Proof.
  unfold transition. cbv zeta. set (g1 := if failed then set_failed true g else g).
  assert (H1 : forgets g g1) by (unfold g1; by destruct failed). etrans; [exact H1|].
  destruct (runs g1 !! runID) eqn:Er; [|done]. destruct (_ ==s _); [|done].
  by apply end_execution_forgets.
Qed.

Lemma cancel_in_memory_forgets runID reason now g :
  forgets g (cancel_in_memory lm runID reason now g).2.
Proof.
  unfold cancel_in_memory. destruct (runs g !! runID) eqn:Er; [|done].
  destruct (_ ==s _); [|done]. by apply end_execution_forgets.
Qed.

Lemma mark_waiting_forgets runID g : forgets g (mark_waiting runID g).
Proof.
  unfold mark_waiting. destruct (runs g !! runID) eqn:Er; [|done]. destruct (_ ==s _); [|done].
  split; [done|]. intros id. cbn. apply insert_known. by eexists.
Qed.

Lemma cancel_running_forgets g : forgets g (cancel_running g).
Proof. split; [done|]. intros id. cbn. by rewrite lookup_fmap, fmap_is_Some. Qed.

Lemma release_forgets slots g : forgets g (release slots g).
Proof. by destruct slots as [[]|]. Qed.

Lemma safe_update W f : (∀ g, forgets g (f g)) → harmless W (update f).
Proof. intros Hf. by apply safe_quiet. Qed.

(** *** Accepting a dispatch *)

Definition accepted {A} (r : rpc DispatchResponse * A) : bool :=
  match r.1 with inl response => Accepted response | inr _ => false end.

Lemma acquire_forgets slots g g' : acquire lm slots g = Some g' → forgets g g'.
Proof.
  unfold acquire. destruct slots as [c|]; [|by intros [= ->]].
  destruct (_ <? _); [|done]. by intros [= <-].
Qed.

Lemma safe_accept W q now f uuid :
  safe (λ r W', accepted r = true → stable_id (RunId q) → kept (RunId q) W') W
    (locked (accept lm q now f uuid)).
Proof.
  apply safe_locked. intros [g log] _ Hw. cbn [fst snd]. unfold accept.
  assert (Hno : ∀ g' (r : rpc DispatchResponse * option (option kind)), accepted r = false → forgets g g' →
    passes (g, log) (g', log) ∧ sound (g', log) ∧
    ∀ W2, passes (g', log) W2 → accepted r = true → stable_id (RunId q) → kept (RunId q) W2).
  { intros g' r Hr [Hs Hf]. destruct (quiet_step g g' log Hs Hf Hw). split_and!; [done..|congruence]. }
  destruct (draining g); [by apply Hno|]. destruct (completionStoreFailed g); [by apply Hno|].
  cbv zeta. pose proof (pruned_forgets now g) as Hpr. set (g1 := pruneExecutionHistoryLocked lm now g) in *.
  destruct (runs g1 !! RunId q) as [current|] eqn:Er.
  { destruct Hpr as [Hs Hf]. destruct (quiet_step g g1 log Hs Hf Hw) as [Hp Hw1]. split_and!; [done..|].
    intros W2 H2' _ Hi. apply (kept_later _ _ _ H2' Hi). apply Hw1; [done|]. by eexists. }
  destruct (acquire lm (slotsFor q) g1) as [g2|] eqn:Ea; [|by apply Hno].
  assert (Hf2 : forgets g g2) by (etrans; [exact Hpr|by eapply acquire_forgets]).
  destruct (quiet_step g g2 log (proj1 Hf2) (proj2 Hf2) Hw) as [Hp2 Hw2].
  destruct (proj1 Hw2) as [s Es]. cbn in Es. unfold save_execution. rewrite (on_store_some _ _ g2 s Es).
  destruct (SaveExecution q f s) as [r s'] eqn:Ee.
  destruct (SaveExecution_keeps _ _ _ _ _ Ee) as (Hkc & Hke & Hok). cbn [fst snd].
  assert (Hp3 : ∀ g3, store g3 = Some s' → passes (g, log) (g3, log)).
  { intros g3 E3. etrans; [exact Hp2|]. apply (passes_dir g2 g3 log s s'); [done..| |]; intros id Hi Hd.
    - left. apply (has_completion_in id g3 s'); auto.
    - left. apply (has_execution_in id g3 s'); auto. }
  destruct r as [[]|e]; cbn [fst snd].
  - set (g3 := set_executionWG _ _).
    assert (Hk3 : kept (RunId q) (g3, log)).
    { left. apply (has_execution_in _ g3 s'); auto. }
    split_and!; [by apply Hp3| |].
    + split; [by eexists|]. intros id Hi. cbn [fst runs g3 set_executionWG set_runs set_store].
      rewrite lookup_insert_is_Some. intros [<-|[_ Hx]]; [done|].
      apply (kept_later id (g, log)); [by apply Hp3|done|]. destruct Hw as [_ Hw]. apply Hw; [done|].
      by apply Hf2.
    + intros W2 H2' _ Hi. by apply (kept_later _ _ _ H2' Hi).
  - set (g3 := set_failed _ _). assert (E3 : store g3 = Some s') by (unfold g3; by destruct (slotsFor q) as [[]|]).
    split_and!; [by apply Hp3| |done]. apply (store_step g2); [|by eexists| |done].
    + unfold g3. by destruct (slotsFor q) as [[]|].
    + apply (passes_dir g2 g3 log s s'); [done..| |]; intros id Hi Hd.
      * left. apply (has_completion_in id g3 s'); auto.
      * left. apply (has_execution_in id g3 s'); auto.
Qed.

(** ** The programs of the executor *)

Lemma safe_after {A B} (P : A → moment → Prop) (Q : B → moment → Prop) W p (f : A → prog B) :
  safe P W p → (∀ a W', passes W W' → P a W' → safe Q W' (f a)) → safe Q W (p ≫= f).
Proof. intros Hp Hf. apply safe_bind. by eapply safe_mono. Qed.

Lemma safe_then {A B} (Q : B → moment → Prop) W (p : prog A) (f : A → prog B) :
  harmless W p → (∀ a W', passes W W' → safe Q W' (f a)) → safe Q W (p ≫= f).
Proof. intros Hp Hf. eapply safe_after; [exact Hp|auto]. Qed.

Lemma safe_ret {A} W (a : A) : harmless W (mret a).
Proof. done. Qed.

Lemma harmless_weaken {A} (Q : A → moment → Prop) W p : safe Q W p → harmless W p.
Proof. apply safe_mono. done. Qed.

Create HintDb harmless.
Hint Resolve safe_ret safe_read : harmless.
Hint Extern 1 (safe _ _ (effect _)) => apply safe_ask; done : harmless.
Hint Extern 1 (safe _ _ (update _)) => apply safe_update; done : harmless.

Lemma safe_report_attempts W n backoff r : harmless W (report_attempts n backoff r).
Proof.
  revert W backoff. induction n as [|n IH]; intros W backoff; [done|]. cbn [report_attempts].
  apply safe_then; [by auto with harmless|]. intros err W1 _. destruct (settled err); [done|].
  destruct n; [done|]. apply safe_then; [by auto with harmless|]. intros [] W2 _; [done|apply IH].
Qed.

Lemma safe_close_execution W r state stored failed :
  harmless W (close_execution lm r state stored failed).
Proof.
  apply safe_then; [by auto with harmless|]. intros now W1 _.
  apply safe_then; [apply safe_quiet; intros g; apply transition_forgets|]. intros t W2 _.
  destruct (_ && _); [|done]. apply safe_then; [apply safe_report_attempts|done].
Qed.

Lemma safe_finish_awaiting W runID :
  (stable_id runID → covered runID W) → harmless W (finish_awaiting runID).
Proof.
  intros Hc. apply safe_then; [apply safe_update, mark_waiting_forgets|]. intros _ W1 H1'.
  apply safe_then; [|done]. apply safe_delete_execution. intros Hi.
  by apply (covered_later _ W); auto.
Qed.

Lemma safe_finish_completed W q err : harmless W (finish_completed lm q err).
Proof.
  apply safe_then; [by auto with harmless|]. intros now W1 _. cbv zeta.
  apply safe_then; [by auto with harmless|]. intros stored W2 _.
  destruct (negb stored); [apply safe_close_execution|].
  apply safe_then; [by auto with harmless|]. intros running W3 _.
  destruct (negb running); [done|].
  eapply safe_after; [apply safe_save_completion|]. intros [[]|e] W4 _ Hs; cbn in Hs.
  2:{ apply safe_close_execution. }
  apply safe_then; [|intros; apply safe_close_execution]. unfold delete_completed.
  apply safe_then; [apply safe_delete_execution; auto|]. intros [] W5 _; [done|]. by auto with harmless.
Qed.

Lemma safe_execute W q slots : harmless W (execute lm q slots).
Proof.
  apply safe_then; [by auto with harmless|]. intros _ W1 _.
  apply safe_after with (P := λ err W', err = Some AwaitingCallback → Awaited (RunId q) ∈ W'.2).
  { apply safe_effect. intros W2 _ _. split; [done|]. intros err W3 [Hl _] ->. cbn in Hl. set_solver. }
  intros err W2 _ Ha. apply safe_then; [by auto with harmless|]. intros _ W3 H3.
  apply safe_then; [apply safe_update, release_forgets|]. intros _ W4 H4.
  apply safe_then; [|intros; by auto with harmless].
  destruct err as [[|text]|]; [|apply safe_finish_completed..].
  apply safe_finish_awaiting. intros _. right. right. left.
  destruct H3 as [H3 _], H4 as [H4 _]. set_solver.
Qed.

Lemma safe_deliver W r : harmless W (deliver r).
Proof.
  apply safe_after with (P := λ err W', settled err = true → Reported (co_RunID r) ∈ W'.2).
  { apply safe_effect. intros W2 _ _. split; [done|]. intros err W3 [Hl _] Hs. cbn in Hl.
    rewrite Hs in Hl. set_solver. }
  intros err W1 _ Hr. destruct (settled err); [|done].
  apply safe_then; [apply safe_delete_completion; auto|done].
Qed.

Lemma safe_each {A} W (f : A → prog unit) l :
  (∀ x W', harmless W' (f x)) → harmless W (each f l).
Proof.
  intros Hf. revert W. induction l as [|x l IH]; intros W; [done|].
  apply safe_then; [done|]. auto.
Qed.

Lemma on_store_read {A} (absent : A) (f : FileStore → A) g :
  forgets g (on_store absent (λ s, (f s, s)) g).2.
Proof. unfold on_store. destruct (store g) eqn:Es; [|done]. by split. Qed.

Lemma safe_deliverPersistedCompletions W : harmless W deliverPersistedCompletions.
Proof.
  apply safe_then; [apply safe_quiet; intros g; apply on_store_read|]. intros [rs|e] W1 _; [|done].
  apply safe_each. intros. by auto with harmless.
Qed.

Lemma safe_dispatch W q recovered :
  safe (λ r W', match r with inl response => Accepted response | inr _ => false end = true →
          stable_id (RunId q) → kept (RunId q) W') W (dispatch lm q recovered).
Proof.
  unfold dispatch. destruct (incomplete q); [done|].
  apply safe_then; [by auto with harmless|]. intros now W1 _. cbv zeta.
  set (q' := if _ || _ then _ else _). assert (Eq : RunId q' = RunId q) by (unfold q'; by destruct (_ || _)).
  rewrite <- Eq. generalize q'. clear. intros q.
  apply safe_then; [by auto with harmless|]. intros registered W2 _. destruct registered; [|done].
  apply safe_then; [by auto with harmless|]. intros now W3 _.
  apply safe_then; [by auto with harmless|]. intros uuid W4 _.
  eapply safe_after; [apply safe_disk; intros; apply safe_accept|].
  intros [response [slots|]] W5 _ Hk; unfold accepted in Hk; cbn [fst] in Hk.
  - apply safe_then; [by auto with harmless|]. intros _ W6 H6 W7 H7 Ha Hi.
    apply (kept_later _ W6); [done..|]. apply (kept_later _ W5); auto.
  - intros W6 H6 Ha Hi. apply (kept_later _ W5); auto.
Qed.

Lemma safe_Dispatch W q : harmless W (Dispatch lm q).
Proof.
  eapply safe_after; [apply safe_dispatch|]. intros r W1 _ Hk. cbn in Hk.
  apply safe_effect. intros W2 H2' _. split; [|done]. unfold promised. destruct r as [response|]; [|done].
  destruct (Accepted response); [|done]. intros Hi. apply (kept_later _ W1); auto.
Qed.

(** *** Recovery *)

Lemma covered_all (ids : list string) W W' :
  passes W W' → (∀ id, id ∈ ids → stable_id id → covered id W) →
  ∀ id, id ∈ ids → stable_id id → covered id W'.
Proof. intros Hp Hc id Hd Hi. apply (covered_later _ W); auto. Qed.

(** A completion that is listed is there. *)
Lemma safe_list_completions W :
  safe (λ r W', match r with
                | Ok rs => ∀ id, id ∈ map co_RunID rs → stable_id id → covered id W'
                | Err _ => True
                end) W (locked list_completions).
Proof.
  apply safe_locked. intros [g log] _ Hw. cbn [fst snd].
  pose proof (on_store_read (Ok []) List g) as [Hs Hr].
  destruct (quiet_step g _ log Hs Hr Hw) as [Hp Hw']. split_and!; [done..|]. intros W2 Hp2.
  unfold list_completions in *. destruct (proj1 Hw) as [s Es]. cbn in Es.
  rewrite (on_store_some _ _ g s Es) in *. cbn [fst snd] in *. destruct (List s) as [rs|] eqn:El; [|done].
  intros id (r & -> & Hd)%list_elem_of_fmap Hi. apply (covered_later _ _ _ Hp2 Hi). left.
  apply (has_completion_in _ _ s); [done|]. unfold List in El.
  destruct (read_completions _) as [rs'|] eqn:Er; [|done]. injection El as <-.
  apply elem_of_sort_by in Hd. apply (read_completions_elem _ _ _ Er) in Hd as ([name f] & He & Hf).
  apply read_completion_file in Hf as (_ & r0 & -> & -> & _ & Hv & ->). exists r0.
  by apply elem_of_entries in He.
Qed.

Lemma safe_cancelRecovered W q : harmless W (cancelRecoveredExternalExecution q).
Proof.
  apply safe_then; [by auto with harmless|]. intros known W1 _. destruct (negb known); [done|].
  apply safe_then; [by auto with harmless|done].
Qed.

Lemma safe_replace_execution W q message :
  safe (λ r W', r = Ok tt → stable_id (RunId q) → covered (RunId q) W') W (replace_execution q message).
Proof.
  apply safe_then; [by auto with harmless|]. intros now W1 _.
  eapply safe_after; [apply safe_save_completion|]. intros [[]|e] W2 _ Hc; [|done]. cbn in Hc.
  eapply safe_mono; [|apply (safe_delete_execution W2 (RunId q)); auto].
  intros r W3 H3 _ _ Hi. apply (covered_later _ W2); auto.
Qed.

Lemma safe_settle W requests ids :
  (∀ id, id ∈ ids → stable_id id → covered id W) → harmless W (settle requests ids).
Proof.
  revert W ids. induction requests as [|q rest IH]; intros W ids Hc; [done|]. cbn [settle].
  case_bool_decide as Hd.
  { apply safe_then; [apply safe_delete_execution; auto|]. intros [[]|] W1 Hp; [|done].
    apply IH. by apply (covered_all ids W). }
  destruct (isExternallyRecoverable q).
  - apply safe_then.
    { unfold before_deadline. destruct (_ =? _); [done|].
      apply safe_then; [by auto with harmless|done]. }
    intros [] W1 Hp1; [apply IH; by apply (covered_all ids W)|].
    apply safe_then; [apply safe_cancelRecovered|]. intros [[]|] W2 Hp2; [|done].
    eapply safe_after; [apply safe_replace_execution|]. intros [[]|] W3 Hp3 Hr; [|done].
    apply IH. intros id [->|Hi]%elem_of_cons Hid; [by apply Hr|].
    apply (covered_all ids W); [by do 2 (etrans; [done|])|done..].
  - eapply safe_after; [apply safe_replace_execution|]. intros [[]|] W1 Hp1 _; [|done].
    apply IH. by apply (covered_all ids W).
Qed.

Lemma safe_resume W requests ids : harmless W (resume lm requests ids).
Proof.
  revert W. induction requests as [|q rest IH]; intros W; [done|]. cbn [resume].
  destruct (_ || _); [apply IH|].
  apply safe_then; [eapply harmless_weaken, safe_dispatch|]. intros [] W1 _; [apply IH|done].
Qed.

Lemma safe_main W : harmless W (main lm).
Proof.
  apply safe_then; [|intros [] W1 _; [by auto with harmless|done]].
  apply safe_then; [by auto with harmless|]. intros stored W1 _. destruct (negb stored); [done|].
  eapply safe_after; [apply safe_list_completions|]. intros [rs|] W2 _ Hc; [|done].
  apply safe_then; [apply safe_quiet; intros g; apply on_store_read|]. intros [qs|] W3 H3; [|done].
  apply safe_then; [apply safe_settle; by apply (covered_all _ W2)|].
  intros [ids|] W4 _; [apply safe_resume|done].
Qed.

(** *** Cancellation, shutdown, the HTTP protocol *)

Lemma safe_persist_cancellation W runID :
  CancelAsked runID ∈ W.2 → harmless W (persist_cancellation runID).
Proof.
  intros Hc. apply safe_then; [|done]. apply safe_then.
  { apply safe_delete_execution. intros _. by right; right; right. }
  intros [] W1 _; [done|]. apply safe_then; [by auto with harmless|done].
Qed.

Lemma safe_cancel_run W request :
  CancelAsked (cr_RunId request) ∈ W.2 → harmless W (cancel_run request).
Proof.
  intros Hc. apply safe_then; [|done]. unfold Cancel. destruct (_ ==s _); [done|].
  apply safe_then; [by auto with harmless|]. intros now W1 [H1' _].
  apply safe_then; [apply safe_quiet; intros g; apply cancel_in_memory_forgets|]. intros c W2 [H2' _].
  assert (Hc2 : ∀ W3, passes W2 W3 → CancelAsked (cr_RunId request) ∈ W3.2) by (intros W3 [H3' _]; set_solver).
  destruct (_ || _). { destruct c; [apply safe_persist_cancellation; set_solver|done]. }
  apply safe_then; [by auto with harmless|]. intros known W3 H3'. destruct (negb known).
  { destruct (_ || _); [done|]. apply safe_persist_cancellation; auto. }
  apply safe_then; [by auto with harmless|]. intros [e|] W4 H4'; [done|].
  apply safe_persist_cancellation. apply Hc2. by etrans.
Qed.

Lemma safe_drain W : harmless W drain.
Proof.
  apply safe_then; [|done]. apply safe_then; [by auto with harmless|]. intros _ W1 _.
  apply safe_then; [by auto with harmless|]. intros [] W2 _; [done|].
  apply safe_then; [apply safe_update, cancel_running_forgets|done].
Qed.

Lemma safe_http_execute W q : harmless W (http_execute q).
Proof.
  apply safe_then; [by auto with harmless|]. intros _ W1 _.
  apply safe_then; [by auto with harmless|]. intros err W2 _.
  apply safe_then; [by auto with harmless|done].
Qed.

Lemma safe_http_run W request : harmless W (http_run request).
Proof.
  apply safe_then.
  - apply safe_then; [by auto with harmless|]. intros urls W1 _. destruct (_ || _); [done|].
    apply safe_then; [by auto with harmless|]. intros [[]|] W2 _; [done| |done].
    apply safe_then; [apply safe_http_execute|done].
  - intros [code []] W1 _; [|done]. apply safe_then; [apply safe_http_execute|]. intros err W2 _.
    by auto with harmless.
Qed.

(** ** Reachable worlds *)

Definition moment_of (w : world) : moment := (w_server w, w_log w).

Record durable (w : world) : Prop := {
  durable_threads : Forall (harmless (moment_of w)) (w_threads w);
  durable_sound : sound (moment_of w);
  durable_answers : ∀ runID, stable_id runID → Accepted_ runID ∈ w_log w → kept runID (moment_of w);
}.

Lemma durable_later W W' (ths : list (prog unit)) :
  passes W W' → Forall (harmless W) ths → Forall (harmless W') ths.
Proof. intros Hp Ht. eapply Forall_impl; [exact Ht|]. intros p. by apply safe_later. Qed.

Lemma answers_later (log : list event) W W' :
  passes W W' → (∀ runID, stable_id runID → Accepted_ runID ∈ log → kept runID W) →
  ∀ runID, stable_id runID → Accepted_ runID ∈ log → kept runID W'.
Proof. intros Hp Ha runID Hi Hl. apply (kept_later _ W); auto. Qed.

Lemma spawned_harmless {B} W (eff : io B) : Forall (harmless W) (spawns lm eff).
Proof.
  destruct eff; cbn [spawns]; try apply Forall_nil_2; apply Forall_singleton;
    [apply safe_execute|apply safe_deliver].
Qed.

Lemma accepted_promised {B} (eff : io B) b runID W :
  promised eff W → stable_id runID → Accepted_ runID ∈ events eff b → kept runID W.
Proof.
  intros Hp Hi He. destruct eff; cbn in *; try (by apply elem_of_nil in He).
  - destruct b as [[]|]; set_solver.
  - destruct (settled b); set_solver.
  - destruct accepted0; [|by apply elem_of_nil in He]. apply list_elem_of_singleton in He as [= <-]. auto.
Qed.

Lemma durable_live w w' : live_step w w' → durable w → durable w'.
Proof.
  intros Hst [Ht Hs Ha].
  destruct Hst as [B m k b g' serving g l1 l2 log Em|B eff k b serving g l1 l2 log _
    |serving g l1 l2 log|es p g l log Harr]; cbn [w_threads w_log moment_of w_server] in *.
  - apply Forall_app in Ht as [Ht1 [Ht Ht2]%Forall_cons].
    destruct (Ht (g, log)) as (Hp & Hs' & Hk); [done|done|]. cbn [fst snd] in Hp, Hs', Hk. rewrite Em in Hp, Hs', Hk.
    cbn [fst snd] in Hp, Hs', Hk. split; cbn; [|done|by apply (answers_later log (g, log))].
    apply Forall_app; split; [|constructor; [done|]]; by apply (durable_later (g, log)).
  - apply Forall_app in Ht as [Ht1 [Ht Ht2]%Forall_cons].
    destruct (Ht (g, log)) as [Hpr Hk]; [done|done|]. cbn [fst snd] in *.
    pose proof (passes_log (g, log) (events eff b)) as Hp. cbn [fst snd] in Hp.
    split; cbn.
    + apply Forall_app; split; [by apply (durable_later (g, log))|]. constructor; [apply Hk|].
      apply Forall_app; split; [by apply (durable_later (g, log))|apply spawned_harmless].
    + destruct Hs as [Hs Hr]. split; [done|]. intros id Hi Hx. apply (kept_later _ _ _ Hp Hi). by apply Hr.
    + intros id Hi [Hl|Hl]%elem_of_app; apply (kept_later _ _ _ Hp Hi); [by apply Ha|].
      by eapply accepted_promised.
  - split; cbn; [|done|done]. apply Forall_app in Ht as [Ht1 [_ Ht2]%Forall_cons]. by apply Forall_app.
  - pose proof (passes_log (g, log) es) as Hp. cbn [fst snd] in Hp. split; cbn.
    + apply Forall_app; split; [by apply (durable_later (g, log))|]. constructor; [|done].
      destruct Harr; [apply safe_Dispatch|apply safe_cancel_run; set_solver|apply safe_http_run
        |apply safe_deliverPersistedCompletions|apply safe_drain].
    + destruct Hs as [Hs Hr]. split; [done|]. intros id Hi Hx. apply (kept_later _ _ _ Hp Hi). by apply Hr.
    + intros id Hi [Hl|Hl]%elem_of_app; [apply (kept_later _ _ _ Hp Hi); by apply Ha|].
      destruct Harr; set_solver.
Qed.

(** Opening the directory removes interrupted writes only. *)
Lemma reopen_passes g log s s' :
  store g = Some s → NewFileCompletionStore (fs_dir s) maxRecords maxExecutions = Ok s' →
  passes (g, log) (started s', log).
Proof.
  intros Es En. assert (Ed : fs_dir s' = without_temporaries (fs_dir s)).
  { unfold NewFileCompletionStore in En. cbv zeta in En. destruct (_ || _); [done|].
    destruct (_ || _); [done|]. destruct (List _); [|done]. cbn in En.
    destruct (ListExecutions _); [|done]. by injection En as <-. }
  apply (passes_dir g _ log s s'); [done|done| |]; intros id [Hc He] Hd; left.
  - apply (has_completion_in id _ s'); [done|]. destruct Hd as (r & Hl & Hi). exists r.
    rewrite Ed. split; [|done]. by apply map_lookup_filter_Some.
  - apply (has_execution_in id _ s'); [done|]. destruct Hd as (q & Hl & Hi). exists q.
    rewrite Ed. split; [|done]. by apply map_lookup_filter_Some.
Qed.

Lemma durable_step w w' : estep w w' → durable w → durable w'.
Proof.
  intros Hst Hd. destruct Hst as [w w' Hl|w|w s s' _ Es En]; [by eapply durable_live|..].
  - destruct Hd as [_ Hs Ha]. by split; cbn.
  - destruct Hd as [_ Hs Ha]. pose proof (reopen_passes (w_server w) (w_log w) s s' Es En) as Hp.
    split; cbn.
    + constructor; [apply safe_main|done].
    + split; [by eexists|]. intros id _. cbn. rewrite lookup_empty. by intros [].
    + by apply (answers_later _ (moment_of w)).
Qed.

Lemma ereachable_durable w : ereachable w → durable w.
Proof.
  unfold ereachable. apply (rtc_ind_r (λ w', durable w')).
  - split; cbn; [done| |set_solver]. split; [by eexists|]. intros id _. cbn.
    rewrite lookup_empty. by intros [].
  - intros w1 w2 _ Hst Hd. by eapply durable_step.
Qed.

(** C12: accepted work is never lost, unless the identifier of the run begins with
    [.completion-] or [.execution-], when its files are taken for interrupted
    writes at the next start.  Whatever the interleaving of the goroutines,
    whichever disk operations fail and however often the process dies, a run whose
    dispatch was answered with "accepted" has its execution or its completion in
    the state directory, unless Core answered its completion, its handler left it
    to a callback, or Core asked to cancel it. *)
Theorem accepted_work_is_durable w runID :
  ereachable w → stable_id runID → Accepted_ runID ∈ w_log w →
  has_execution runID (w_server w) ∨ has_completion runID (w_server w) ∨
  Reported runID ∈ w_log w ∨ Awaited runID ∈ w_log w ∨ CancelAsked runID ∈ w_log w.
Proof. intros Hw Hi Hl. by apply (durable_answers w (ereachable_durable w Hw) runID Hi). Qed.

(** ** One goroutine at a time *)

Fixpoint run_first (h : ∀ B, io B → B) (p : prog unit) (serving : bool) (g : GRPCServer)
    (l : list (prog unit)) (log : list event) : world :=
  match p with
  | Return _ => mk_world true serving g l log
  | Locked m k => let '(b, g') := m g in run_first h (k b) serving g' l log
  | Effect eff k => run_first h (k (h _ eff)) (serving || serves eff) g (l ++ spawns lm eff)
                      (log ++ events eff (h _ eff))
  end.

Lemma run_first_live (h : ∀ B, io B → B) p serving g l log :
  h _ WaitExecutions = false →
  rtc live_step (mk_world true serving g (p :: l) log) (run_first h p serving g l log).
Proof.
  intros Hh. revert serving g l log. induction p as [[]|B m k IH|B eff k IH]; intros serving g l log; cbn.
  - apply rtc_once. apply (ls_end serving g [] l log).
  - destruct (m g) as [b g'] eqn:Em. eapply rtc_l; [|apply IH].
    by apply (ls_locked m k b g' serving g [] l log).
  - eapply rtc_l; [|apply IH].
    apply (ls_effect eff k (h _ eff) serving g [] l log). destruct eff; try done. cbn. congruence.
Qed.

Lemma live_reachable w w' : ereachable w → rtc live_step w w' → ereachable w'.
Proof.
  intros Hw Hs. unfold ereachable in *. etrans; [exact Hw|].
  eapply rtc_congruence with (f := id); [|exact Hs]. apply es_live.
Qed.
End world.
End ExecutorWorld.
