(* ===== verification/ExecutorLedger.v ===== *)
(** * Slots, busy jobs and the wait group of an executor

    Every slot that is taken, every execution counted for a job and every
    member of the wait group belongs to exactly one goroutine, which gives it
    back.  So the numbers of running handlers respect the configured limits, a
    job that is reported idle has no handler running, and a drained executor
    stays idle. *)
From Stdlib Require Import ZArith Lia Ascii String.
From stdpp Require Import base list strings gmap relations.
From S2P Require Import Prelude GoStrings GoUrl Utf8 GoJson Proto CompletionStore ExecutorServer ExecutorWorld.

Module ExecutorLedger.
Import GoJson Proto CompletionStore CompletionProofs ExecutorServer ExecutorWorld.

(** ** Resources *)

Inductive resource := Slot (c : kind) | Busy (jobID : string) | Member.
#[export] Instance resource_eq_dec : EqDecision resource.
Proof. solve_decision. Defined.

Definition balance (g : GRPCServer) (ρ : resource) : Z :=
  match ρ with
  | Slot c => used c g
  | Busy jobID => active_count jobID (server g)
  | Member => executionWG g
  end.

(** What a goroutine holds. *)
Definition holdings : Type := resource → Z.
Definition one (ρ0 : resource) : holdings := λ ρ, if decide (ρ = ρ0) then 1 else 0.
Definition slot_of (slots : option kind) : holdings :=
  match slots with Some c => one (Slot c) | None => λ _, 0 end.
Definition total (hs : list holdings) : holdings := λ ρ, foldr (λ h sum, h ρ + sum) 0 hs.

(** The kind of slot of a task. *)
Definition task_kind (handler : string) (t : Task) : option kind :=
  if tk_ScriptLanguage t ==s "kubernetes" then None
  else if tk_ScriptLanguage t ==s "docker" then Some DockerSlots
  else if bool_decide (is_Some (tk_HTTP t)) || (handler ==s "__http__") then Some HttpSlots
  else Some ScriptSlots.

(** What is handed to a goroutine that is started, and what running a handler
    requires. *)
Definition given {B} (eff : io B) : holdings :=
  match eff with
  | Go _ slots => λ ρ, slot_of slots ρ + one Member ρ
  | _ => λ _, 0
  end.
Definition required {B} (eff : io B) : holdings :=
  match eff with
  | Go q slots => λ ρ, slot_of slots ρ + one Member ρ
  | Invoke handler t => λ ρ, slot_of (task_kind handler t) ρ + one Member ρ + one (Busy (tk_JobID t)) ρ
  | InvokeHTTP _ t => one (Busy (tk_JobID t))
  | _ => λ _, 0
  end.
Definition proper_go {B} (eff : io B) : Prop :=
  match eff with Go q slots => slots = slotsFor q | _ => True end.

Section ledger.
Context `{RecordFormat} `{IPLiterals}.
Context (lm : Limits) (sv : Server) (maxRecords maxExecutions : Z).

Definition within (g : GRPCServer) : Prop := ∀ c, used c g ≤ capacity c lm.

(** Limits are respected; while the executor drains no execution is added. *)
Definition orderly (g g' : GRPCServer) : Prop :=
  (within g → within g') ∧
  (draining g = true → draining g' = true ∧ executionWG g' ≤ executionWG g).
#[local] Instance orderly_preorder : PreOrder orderly.
Proof.
  split; [intros g; split; [done|intros; split; [done|lia]]|].
  intros g1 g2 g3 [W1 D1] [W2 D2]. split; [auto|]. intros Hd. destruct (D1 Hd) as [Hd2 ?].
  destruct (D2 Hd2). split; [done|lia].
Qed.

Definition non_negative (h : holdings) : Prop := ∀ ρ, 0 ≤ h ρ.

(** A goroutine that holds [h] changes the balances by what it takes and gives
    back, and ends with [Q]. *)
Fixpoint accounts {A} (Q : A → holdings → Prop) (h : holdings) (p : prog A) : Prop :=
  match p with
  | Return a => Q a h
  | Locked m k => ∀ g, (∀ ρ, h ρ ≤ balance g ρ) → non_negative (balance g) →
      orderly g (m g).2 ∧
      ∃ h', non_negative h' ∧ (∀ ρ, balance (m g).2 ρ = balance g ρ + h' ρ - h ρ) ∧
            accounts Q h' (k (m g).1)
  | Effect eff k => proper_go eff ∧ (∀ ρ, required eff ρ ≤ h ρ) ∧
      ∀ b, accounts Q (λ ρ, h ρ - given eff ρ) (k b)
  end.

Lemma accounts_bind {A B} (Q : B → holdings → Prop) h (f : A → prog B) p :
  accounts (λ a h', accounts Q h' (f a)) h p → accounts Q h (p ≫= f).
Proof.
  change (p ≫= f) with (prog_bind f p). revert h.
  induction p as [a|C m k IH|C eff k IH]; intros h; cbn; [done| |].
  - intros Ha g Hb Hn. destruct (Ha g Hb Hn) as (Ho & h' & ? & ? & ?). split; [done|].
    exists h'. split_and!; [done..|by apply IH].
  - intros (? & ? & Hk). split_and!; [done..|]. intros b. by apply IH.
Qed.

Lemma accounts_mono {A} (Q Q' : A → holdings → Prop) h p :
  (∀ a h', Q a h' → Q' a h') → accounts Q h p → accounts Q' h p.
Proof.
  intros HQ. revert h. induction p as [a|C m k IH|C eff k IH]; intros h; cbn; [auto| |].
  - intros Ha g Hb Hn. destruct (Ha g Hb Hn) as (Ho & h' & ? & ? & ?). split; [done|].
    exists h'. split_and!; [done..|by apply IH].
  - intros (? & ? & Hk). split_and!; [done..|]. intros b. by apply IH.
Qed.

(** A piece that takes and gives nothing. *)
Definition neutral {A} (p : prog A) : Prop :=
  ∀ h, non_negative h → accounts (λ _ h', ∀ ρ, h' ρ = h ρ) h p.

(** Holdings count pointwise. *)
Definition total_neutral {A} (Q : A → holdings → Prop) : Prop :=
  ∀ a h h', (∀ ρ, h' ρ = h ρ) → Q a h → Q a h'.

Lemma accounts_ext {A} (Q : A → holdings → Prop) h h' p :
  total_neutral Q → (∀ ρ, h' ρ = h ρ) → accounts Q h p → accounts Q h' p.
Proof.
  intros HQ. revert h h'. induction p as [a|C m k IH|C eff k IH]; intros h h' E; cbn; [by apply HQ| |].
  - intros Ha g Hb Hn. destruct (Ha g) as (Ho & h2 & ? & Hd & ?); [intros ρ; rewrite <- E; auto|done|].
    split; [done|]. exists h2. split_and!; [done| |done]. intros ρ. by rewrite E.
  - intros (? & Hr & Hk). split_and!; [done|intros ρ; by rewrite E|]. intros b.
    apply (IH b (λ ρ, h ρ - given eff ρ)); [|done]. intros ρ. by rewrite E.
Qed.

Lemma accounts_then {A B} (Q : B → holdings → Prop) h (p : prog A) (f : A → prog B) :
  total_neutral Q → non_negative h → neutral p → (∀ a, accounts Q h (f a)) → accounts Q h (p ≫= f).
Proof.
  intros HQ Hn Hp Hf. apply accounts_bind. eapply accounts_mono; [|by apply Hp].
  intros a h' E. by apply (accounts_ext _ h).
Qed.

Lemma neutral_bind {A B} (p : prog A) (f : A → prog B) :
  neutral p → (∀ a, neutral (f a)) → neutral (p ≫= f).
Proof.
  intros Hp Hf h Hn. apply accounts_then; [|done..|by intros; apply Hf].
  intros a h1 h2 E Hq ρ. by rewrite E.
Qed.

Lemma neutral_ret {A} (a : A) : neutral (mret a).
Proof. by intros h. Qed.

Lemma neutral_effect {A} (eff : io A) :
  (∀ ρ, required eff ρ = 0) → (∀ ρ, given eff ρ = 0) → proper_go eff → neutral (effect eff).
Proof.
  intros Hr Hg Hp h Hn. split_and!; [done|intros ρ; rewrite Hr; apply Hn|].
  intros b ρ. cbn. rewrite Hg. lia.
Qed.

(** Sections that change none of the balances. *)
Definition steady (g g' : GRPCServer) : Prop := orderly g g' ∧ ∀ ρ, balance g' ρ = balance g ρ.
#[local] Instance steady_preorder : PreOrder steady.
Proof.
  split; [by intros g; split|]. intros g1 g2 g3 [O1 E1] [O2 E2]. split; [by etrans|].
  intros ρ. by rewrite E2, E1.
Qed.

Lemma neutral_locked {A} (m : GRPCServer → A * GRPCServer) :
  (∀ g, steady g (m g).2) → neutral (locked m).
Proof.
  intros Hm h Hn g Hb Hg. destruct (Hm g) as [Ho Hs]. split; [done|]. exists h.
  split_and!; [done| |done]. intros ρ. rewrite Hs. lia.
Qed.

Lemma neutral_disk {A} (op : fault → GRPCServer → A * GRPCServer) :
  (∀ f g, steady g (op f g).2) → neutral (disk op).
Proof.
  intros Ho. apply neutral_bind; [by apply neutral_effect|]. intros f. by apply neutral_locked.
Qed.

(** Everything the balances depend on. *)
Lemma steady_same g g' :
  server g' = server g → scriptSlots g' = scriptSlots g → httpSlots g' = httpSlots g →
  dockerSlots g' = dockerSlots g → executionWG g' = executionWG g →
  (draining g = true → draining g' = true) → steady g g'.
Proof.
  intros Es E1 E2 E3 Ew Ed.
  assert (Hu : ∀ c, used c g' = used c g) by by intros [].
  split; [split|].
  - intros Hw c. rewrite Hu. apply Hw.
  - intros Hd. split; [auto|lia].
  - intros [c|jobID|]; cbn; [apply Hu|by rewrite Es|done].
Qed.

(** ** Sections *)

Ltac same := apply steady_same; done.

Lemma on_store_steady {A} (absent : A) op g : steady g (on_store absent op g).2.
Proof. unfold on_store. destruct (store g) as [s|]; [|done]. destruct (op s). same. Qed.

Lemma pruned_steady now g : steady g (pruneExecutionHistoryLocked lm now g).
Proof. unfold pruneExecutionHistoryLocked. destruct (prune _ _ _ _). same. Qed.

Lemma end_execution_steady runID state message now current g :
  steady g (end_execution lm runID state message now current g).
Proof. unfold end_execution. etrans; [|apply pruned_steady]. same. Qed.

Lemma transition_steady runID state message failed now g :
  steady g (transition lm runID state message failed now g).2.
Proof.
  unfold transition. cbv zeta. set (g1 := if failed then _ else _).
  assert (H1 : steady g g1) by (unfold g1; destruct failed; [same|done]). etrans; [exact H1|].
  destruct (runs g1 !! runID); [|done]. destruct (_ ==s _); [|done]. apply end_execution_steady.
Qed.

Lemma cancel_in_memory_steady runID reason now g :
  steady g (cancel_in_memory lm runID reason now g).2.
Proof.
  unfold cancel_in_memory. destruct (runs g !! runID); [|done].
  destruct (_ ==s _); [|done]. apply end_execution_steady.
Qed.

Lemma mark_waiting_steady runID g : steady g (mark_waiting runID g).
Proof.
  unfold mark_waiting. destruct (runs g !! runID); [|done]. destruct (_ ==s _); [same|done].
Qed.

Lemma used_add c c' n g : used c' (add_used c n g) = used c' g + (if decide (c = c') then n else 0).
Proof. by destruct c, c'. Qed.

(** ** Programs that hold nothing *)

Create HintDb neutral.
Hint Resolve neutral_ret : neutral.
Hint Extern 1 (neutral (effect _)) => by apply neutral_effect : neutral.
Hint Extern 1 (neutral (disk _)) => apply neutral_disk; intros ??; apply on_store_steady : neutral.
Hint Extern 2 (neutral (locked (λ _, (_, _)))) => apply neutral_locked; intros ?; done : neutral.
Hint Extern 1 (neutral (update (set_failed _))) =>
  apply neutral_locked; intros ?; apply steady_same; done : neutral.
Hint Extern 2 (neutral (_ ≫= _)) => apply neutral_bind; [|intros] : neutral.
Ltac neutral := auto with neutral.

Lemma neutral_report_attempts n backoff r : neutral (report_attempts n backoff r).
Proof.
  revert backoff. induction n as [|n IH]; intros backoff; [apply neutral_ret|]. cbn [report_attempts].
  apply neutral_bind; [neutral|]. intros err. destruct (settled err); [neutral|].
  destruct n; [neutral|]. apply neutral_bind; [neutral|]. intros []; [neutral|apply IH].
Qed.

Lemma neutral_close_execution r state stored failed :
  neutral (close_execution lm r state stored failed).
Proof.
  apply neutral_bind; [neutral|]. intros now.
  apply neutral_bind; [apply neutral_locked; intros g; apply transition_steady|]. intros t.
  destruct (_ && _); [|neutral]. apply neutral_bind; [apply neutral_report_attempts|neutral].
Qed.

Lemma neutral_finish q err : neutral (finish lm q err).
Proof.
  assert (Hc : neutral (finish_completed lm q err)).
  { apply neutral_bind; [neutral|]. intros now. cbv zeta. apply neutral_bind; [neutral|].
    intros stored. destruct (negb stored); [apply neutral_close_execution|].
    apply neutral_bind; [neutral|]. intros running. destruct (negb running); [neutral|].
    apply neutral_bind; [neutral|]. intros []; [|apply neutral_close_execution].
    apply neutral_bind; [|intros; apply neutral_close_execution].
    apply neutral_bind; [neutral|]. intros []; neutral. }
  unfold finish. destruct err as [[|text]|]; [|done..].
  apply neutral_bind; [apply neutral_locked; intros; apply mark_waiting_steady|]. intros _.
  apply neutral_bind; neutral.
Qed.

Lemma neutral_deliver r : neutral (deliver r).
Proof. apply neutral_bind; [neutral|]. intros err. destruct (settled err); neutral. Qed.

Lemma neutral_each {A} (f : A → prog unit) l : (∀ x, neutral (f x)) → neutral (each f l).
Proof. intros Hf. induction l as [|x l IH]; [apply neutral_ret|]. by apply neutral_bind. Qed.

Lemma neutral_deliverPersistedCompletions : neutral deliverPersistedCompletions.
Proof.
  apply neutral_bind; [apply neutral_locked; intros; apply on_store_steady|].
  intros []; [apply neutral_each|]; neutral.
Qed.

(** ** Dispatch and execution *)

Lemma balance_add_used c n g ρ :
  balance (add_used c n g) ρ = balance g ρ + n * one (Slot c) ρ.
Proof.
  unfold one. destruct ρ as [c'|jobID|]; cbn [balance].
  - rewrite used_add. destruct (decide (c = c')), (decide (Slot c' = Slot c)); congruence || lia.
  - destruct (decide _); [done|]. cbn. lia.
  - destruct (decide _); [done|]. cbn. lia.
Qed.

Lemma acquire_balance slots g g' :
  acquire lm slots g = Some g' →
  orderly g g' ∧ ∀ ρ, balance g' ρ = balance g ρ + slot_of slots ρ.
Proof.
  destruct slots as [c|]; cbn; [|intros [= ->]; split; [done|intros ρ; lia]].
  destruct (Z.ltb_spec (used c g) (capacity c lm)) as [Hc|]; [|done]. intros [= <-]. split.
  - split; [|intros ?; split; [done|cbn; lia]]. intros Hw c'. rewrite used_add.
    destruct (decide (c = c')) as [<-|]; [lia|]. rewrite Z.add_0_r. apply Hw.
  - intros ρ. rewrite balance_add_used. lia.
Qed.

Lemma release_balance slots g ρ : balance (release slots g) ρ = balance g ρ - slot_of slots ρ.
Proof. destruct slots as [c|]; cbn [release slot_of]; [rewrite balance_add_used|]; lia. Qed.

Lemma release_orderly slots g : orderly g (release slots g).
Proof.
  split.
  - intros Hw c. destruct slots as [c'|]; [|apply Hw]. cbn [release]. rewrite used_add.
    specialize (Hw c). destruct (decide _); lia.
  - destruct slots as [[]|]; cbn; intros ?; (split; [done|lia]).
Qed.

Lemma balance_join rs g ρ :
  balance (set_executionWG (executionWG g + 1) (set_runs rs g)) ρ = balance g ρ + one Member ρ.
Proof. unfold one. destruct (decide _), ρ as [[]|jobID|]; try done; cbn; lia. Qed.

(** Accepting takes a slot and a membership exactly when an execution is to be
    started. *)
Lemma accept_balance q now f uuid g :
  let r := accept lm q now f uuid g in
  orderly g r.2 ∧
  match r.1.2 with
  | None => ∀ ρ, balance r.2 ρ = balance g ρ
  | Some slots => slots = slotsFor q ∧ ∀ ρ, balance r.2 ρ = balance g ρ + slot_of slots ρ + one Member ρ
  end.
Proof.
  unfold accept. destruct (draining g) eqn:Ed; [done|]. destruct (completionStoreFailed g); [done|].
  cbv zeta. destruct (pruned_steady now g) as [Ho Hb]. set (g1 := pruneExecutionHistoryLocked lm now g) in *.
  destruct (runs g1 !! RunId q); [by split|].
  destruct (acquire lm (slotsFor q) g1) as [g2|] eqn:Ea; [|by split].
  destruct (acquire_balance _ _ _ Ea) as [Ho2 Hb2]. unfold save_execution.
  destruct (on_store_steady (Ok tt) (SaveExecution q f) g2) as [Ho3 Hb3].
  destruct (on_store (Ok tt) (SaveExecution q f) g2) as [[[]|e] g3]; cbn [fst snd] in *.
  - split; [|split; [done|]].
    + split; [|congruence]. intros Hw c. apply Ho3, Ho2, Ho, Hw.
    + intros ρ. rewrite balance_join, Hb3, Hb2, Hb. lia.
  - assert (Hs : steady (release (slotsFor q) g3) (set_failed true (release (slotsFor q) g3))) by same.
    destruct Hs as [Ho4 Hb4]. split.
    + etrans; [|exact Ho4]. etrans; [|apply release_orderly]. by do 2 (etrans; [done|]).
    + intros ρ. rewrite Hb4, release_balance, Hb3, Hb2, Hb. lia.
Qed.

Lemma neutral_dispatch q recovered : neutral (dispatch lm q recovered).
Proof.
  unfold dispatch. destruct (incomplete q); [neutral|].
  apply neutral_bind; [neutral|]. intros now. cbv zeta. set (q' := if _ || _ then _ else _). clearbody q'.
  apply neutral_bind; [neutral|]. intros [registered|]; [|neutral].
  apply neutral_bind; [neutral|]. intros now'. apply neutral_bind; [neutral|]. intros uuid h Hn.
  apply accounts_bind, accounts_bind. split_and!; [done|intros ρ; apply Hn|].
  intros f. cbn -[accept given]. intros g Hb Hg. pose proof (accept_balance q' now' f uuid g) as [Ho Ha].
  split; [done|]. destruct (accept lm q' now' f uuid g) as [[response [slots|]] g']; cbn -[given] in *.
  - destruct Ha as [-> Ha]. exists (λ ρ, h ρ + slot_of (slotsFor q') ρ + one Member ρ).
    assert (Hs : ∀ ρ, 0 ≤ slot_of (slotsFor q') ρ ∧ 0 ≤ one Member ρ).
    { intros ρ. unfold slot_of, one. destruct (slotsFor q'); repeat case_decide; lia. }
    split_and!.
    + intros ρ. specialize (Hs ρ). specialize (Hn ρ). lia.
    + intros ρ. rewrite Ha. cbn. lia.
    + done.
    + intros ρ. specialize (Hn ρ). cbn. lia.
    + intros _ ρ. cbn. lia.
  - exists h. split_and!; [done| |].
    + intros ρ. rewrite Ha. cbn. lia.
    + done.
Qed.

Lemma active_count_mark jobID delta sv' j :
  0 ≤ active_count jobID sv' + delta →
  active_count j (markActive jobID delta sv') =
    active_count j sv' + (if decide (j = jobID) then delta else 0).
Proof.
  intros Hn. unfold markActive, active_count at 1. cbn [active].
  destruct (Z.leb_spec (active_count jobID sv' + delta) 0), (decide (j = jobID)) as [->|Hj].
  - rewrite lookup_delete_eq. cbn. lia.
  - rewrite lookup_delete_ne by done. unfold active_count. lia.
  - by rewrite lookup_insert_eq.
  - rewrite lookup_insert_ne by done. unfold active_count. lia.
Qed.

Lemma mark_balance jobID delta g ρ :
  0 ≤ balance g (Busy jobID) + delta →
  balance (mark_active jobID delta g) ρ = balance g ρ + delta * one (Busy jobID) ρ.
Proof.
  intros Hn. unfold one. destruct ρ as [[]|j|]; cbn [balance].
  1-3,5: destruct (decide _); [done|cbn; lia].
  cbn [server mark_active set_server]. rewrite active_count_mark by done.
  destruct (decide (j = jobID)), (decide (Busy j = Busy jobID)); congruence || lia.
Qed.

Lemma mark_orderly jobID delta g : orderly g (mark_active jobID delta g).
Proof. split; [done|]. intros ?. split; [done|]. cbn. lia. Qed.

Lemma one_range ρ0 ρ : 0 ≤ one ρ0 ρ ≤ 1.
Proof. unfold one. destruct (decide _); lia. Qed.
Lemma slot_of_range slots ρ : 0 ≤ slot_of slots ρ ≤ 1.
Proof. destruct slots; [apply one_range|cbn; lia]. Qed.
Lemma one_self ρ : one ρ ρ = 1.
Proof. unfold one. by destruct (decide _). Qed.

(** One critical section that moves [d] from the balances to the goroutine. *)
Lemma accounts_move {A B} (Q : B → holdings → Prop) (d : holdings) h
    (m : GRPCServer → A * GRPCServer) (k : A → prog B) :
  non_negative (λ ρ, h ρ + d ρ) →
  (∀ g, (∀ ρ, h ρ ≤ balance g ρ) → non_negative (balance g) →
     orderly g (m g).2 ∧ ∀ ρ, balance (m g).2 ρ = balance g ρ + d ρ) →
  (∀ a, accounts Q (λ ρ, h ρ + d ρ) (k a)) →
  accounts Q h (locked m ≫= k).
Proof.
  intros Hn Hm Hk g Hb Hg. destruct (Hm g Hb Hg) as [Ho Hd]. split; [done|].
  exists (λ ρ, h ρ + d ρ). split_and!; [done| |apply Hk]. intros ρ. rewrite Hd. cbn. lia.
Qed.

Lemma accounts_mark {B} (Q : B → holdings → Prop) jobID h (k : unit → prog B) :
  non_negative h → (∀ a, accounts Q (λ ρ, h ρ + one (Busy jobID) ρ) (k a)) →
  accounts Q h (update (mark_active jobID 1) ≫= k).
Proof.
  intros Hn Hk. apply (accounts_move _ (one (Busy jobID))); [|intros g Hb Hg|done].
  - intros ρ. specialize (Hn ρ). pose proof (one_range (Busy jobID) ρ). cbn. lia.
  - split; [apply mark_orderly|]. intros ρ. cbn [fst snd]. rewrite mark_balance; [lia|].
    specialize (Hg (Busy jobID)). lia.
Qed.

Lemma accounts_unmark {B} (Q : B → holdings → Prop) jobID h (k : unit → prog B) :
  total_neutral Q → non_negative h → (∀ a, accounts Q h (k a)) →
  accounts Q (λ ρ, h ρ + one (Busy jobID) ρ) (update (mark_active jobID (-1)) ≫= k).
Proof.
  intros HQ Hn Hk. apply (accounts_move _ (λ ρ, - one (Busy jobID) ρ)); [|intros g Hb Hg|].
  - intros ρ. specialize (Hn ρ). cbn. lia.
  - split; [apply mark_orderly|]. intros ρ. cbn [fst snd]. rewrite mark_balance; [lia|].
    specialize (Hb (Busy jobID)). rewrite one_self in Hb. specialize (Hn (Busy jobID)). lia.
  - intros a. apply (accounts_ext _ h); [done| |apply Hk]. intros ρ. lia.
Qed.

(** Ends with what it began with. *)
Notation returns h := (λ _ h', ∀ ρ, h' ρ = h ρ).

Lemma returns_neutral {A} h : @total_neutral A (returns h).
Proof. intros a h1 h2 E Hq ρ. by rewrite E. Qed.

Lemma neutral_http_execute q : neutral (http_execute q).
Proof.
  intros h Hn. apply accounts_mark; [done|]. intros _. split_and!; [done| |].
  - intros ρ. specialize (Hn ρ). cbn. lia.
  - intros err. apply (accounts_ext _ (λ ρ, h ρ + one (Busy (JobId q)) ρ)); [apply returns_neutral| |].
    { intros ρ. cbn. lia. }
    apply accounts_unmark; [apply returns_neutral|done|]. by intros _.
Qed.

(** An execution starts with its slot and its membership, and ends with
    nothing. *)
Lemma accounts_execute q slots :
  slots = slotsFor q →
  accounts (returns (λ _, 0)) (given (Go q slots)) (execute lm q slots).
Proof.
  intros ->. set (h0 := given (Go q (slotsFor q))).
  assert (Hn : non_negative h0).
  { intros ρ. cbn. pose proof (slot_of_range (slotsFor q) ρ). pose proof (one_range Member ρ). lia. }
  apply accounts_mark; [done|]. intros _. split_and!; [done| |].
  - intros ρ. cbn. change (task_kind (Handler q) (task_of q)) with (slotsFor q). lia.
  - intros err. apply (accounts_ext _ (λ ρ, h0 ρ + one (Busy (JobId q)) ρ)); [apply returns_neutral| |].
    { intros ρ. cbn. lia. }
    apply accounts_unmark; [apply returns_neutral|done|]. intros _.
    apply (accounts_move _ (λ ρ, - slot_of (slotsFor q) ρ)); [|intros g Hb Hg|].
    { intros ρ. cbn. pose proof (one_range Member ρ). lia. }
    { split; [apply release_orderly|]. intros ρ. cbn [fst snd]. rewrite release_balance. lia. }
    intros _. apply accounts_then; [apply returns_neutral| |apply neutral_finish|].
    { intros ρ. cbn. pose proof (one_range Member ρ). lia. }
    intros _ g Hb Hg. split; [split; [done|intros ?; split; [done|cbn; lia]]|].
    exists (λ _, 0). split_and!; [done| |done]. intros ρ. cbn [fst snd].
    unfold h0, given, one. destruct (decide (ρ = Member)), ρ as [[]|j|]; try done; cbn; lia.
Qed.

(** ** The other programs *)

Lemma neutral_settle requests ids : neutral (settle requests ids).
Proof.
  assert (Hr : ∀ q message, neutral (replace_execution q message)).
  { intros q message. apply neutral_bind; [neutral|]. intros now.
    apply neutral_bind; [neutral|]. intros []; neutral. }
  revert ids. induction requests as [|q rest IH]; intros ids; [apply neutral_ret|]. cbn [settle].
  case_bool_decide. { apply neutral_bind; [neutral|]. intros []; [apply IH|neutral]. }
  destruct (isExternallyRecoverable q).
  - apply neutral_bind. { unfold before_deadline. destruct (_ =? _); neutral. }
    intros []; [apply IH|]. apply neutral_bind.
    { apply neutral_bind; [neutral|]. intros known. destruct (negb known); neutral. }
    intros []; [|neutral]. apply neutral_bind; [apply Hr|]. intros []; [apply IH|neutral].
  - apply neutral_bind; [apply Hr|]. intros []; [apply IH|neutral].
Qed.

Lemma neutral_main : neutral (main lm).
Proof.
  assert (Hres : ∀ requests ids, neutral (resume lm requests ids)).
  { intros requests ids. induction requests as [|q rest IH]; [apply neutral_ret|]. cbn [resume].
    destruct (_ || _); [done|]. apply neutral_bind; [apply neutral_dispatch|]. intros []; [done|neutral]. }
  apply neutral_bind; [|intros []; neutral]. apply neutral_bind; [neutral|]. intros stored.
  destruct (negb stored); [neutral|].
  apply neutral_bind; [apply neutral_locked; intros; apply on_store_steady|]. intros []; [|neutral].
  apply neutral_bind; [apply neutral_locked; intros; apply on_store_steady|]. intros []; [|neutral].
  apply neutral_bind; [apply neutral_settle|]. intros []; [apply Hres|neutral].
Qed.

Lemma neutral_cancel_run request : neutral (cancel_run lm request).
Proof.
  assert (Hp : neutral (persist_cancellation (cr_RunId request))).
  { apply neutral_bind; [|neutral]. apply neutral_bind; [neutral|]. intros []; neutral. }
  apply neutral_bind; [|neutral]. unfold Cancel. destruct (_ ==s _); [neutral|].
  apply neutral_bind; [neutral|]. intros now.
  apply neutral_bind; [apply neutral_locked; intros; apply cancel_in_memory_steady|]. intros c.
  destruct (_ || _); [destruct c; [done|neutral]|]. apply neutral_bind; [neutral|]. intros known.
  destruct (negb known); [destruct (_ || _); [neutral|done]|].
  apply neutral_bind; [neutral|]. intros []; [neutral|done].
Qed.

Lemma neutral_arrives es p : arrives lm es p → neutral p.
Proof.
  destruct 1 as [q|request|request| |].
  - apply neutral_bind; [apply neutral_dispatch|]. neutral.
  - apply neutral_cancel_run.
  - apply neutral_bind.
    + apply neutral_bind; [neutral|]. intros urls. destruct (_ || _); [neutral|].
      apply neutral_bind; [neutral|]. intros [[]|]; [neutral| |neutral].
      apply neutral_bind; [apply neutral_http_execute|neutral].
    + intros [code []]; [|apply neutral_ret]. apply neutral_bind; [apply neutral_http_execute|].
      intros err. by apply neutral_effect.
  - apply neutral_deliverPersistedCompletions.
  - apply neutral_bind; [|neutral].
    apply neutral_bind; [apply neutral_locked; intros g; same|]. intros _.
    apply neutral_bind; [neutral|]. intros []; [neutral|].
    apply neutral_bind; [apply neutral_locked; intros g; same|neutral].
Qed.

(** ** Reachable worlds *)

(** A goroutine that gives back everything it holds. *)
Definition fair (h : holdings) (p : prog unit) : Prop :=
  non_negative h ∧ accounts (returns (λ _, 0)) h p.

(** Holdings of the goroutines, which are all that is taken. *)
Definition settled_books (g : GRPCServer) (hs : list holdings) (ths : list (prog unit)) : Prop :=
  Forall2 fair hs ths ∧
  (∀ ρ, balance g ρ = total hs ρ) ∧ within g.

Definition balanced (w : world) : Prop :=
  w_up w = true → ∃ hs, settled_books (w_server w) hs (w_threads w).

Lemma total_app hs1 hs2 ρ : total (hs1 ++ hs2) ρ = total hs1 ρ + total hs2 ρ.
Proof. unfold total. induction hs1 as [|h hs1 IH]; [done|]. cbn. rewrite IH. lia. Qed.

Lemma total_cons h hs ρ : total (h :: hs) ρ = h ρ + total hs ρ.
Proof. done. Qed.

Lemma total_non_negative hs : Forall non_negative hs → non_negative (total hs).
Proof.
  intros Hh ρ. unfold total. induction Hh as [|h hs Hh _ IH]; cbn; [lia|]. specialize (Hh ρ). lia.
Qed.

Lemma books_non_negative hs (ths : list (prog unit)) :
  Forall2 fair hs ths → Forall non_negative hs.
Proof. induction 1 as [|h p hs ths [? _] _ IH]; by constructor. Qed.

(** The goroutine in the middle and the rest of the books. *)
Lemma books_split g hs l1 p l2 :
  settled_books g hs (l1 ++ p :: l2) →
  ∃ hs1 h hs2, hs = hs1 ++ h :: hs2 ∧ non_negative h ∧ accounts (returns (λ _, 0)) h p ∧
    Forall2 fair hs1 l1 ∧
    Forall2 fair hs2 l2 ∧
    (∀ ρ, balance g ρ = total hs1 ρ + h ρ + total hs2 ρ) ∧
    (∀ ρ, h ρ ≤ balance g ρ) ∧ non_negative (balance g).
Proof.
  intros (Hf & Hb & _). pose proof (books_non_negative _ _ Hf) as Hn.
  apply Forall2_app_inv_r in Hf as (hs1 & hs2 & Hf1 & Hf2 & ->).
  apply Forall2_cons_inv_r in Hf2 as (h & hs2' & [Hh Ha] & Hf2 & ->).
  apply Forall_app in Hn as [Hn1%total_non_negative [_ Hn2%total_non_negative]%Forall_cons].
  assert (Hs : ∀ ρ, balance g ρ = total hs1 ρ + h ρ + total hs2' ρ).
  { intros ρ. rewrite Hb, total_app, total_cons. lia. }
  exists hs1, h, hs2'. split_and!; [done..| |];
    intros ρ; rewrite Hs; specialize (Hn1 ρ); specialize (Hn2 ρ); specialize (Hh ρ); cbn in *; lia.
Qed.

Lemma books_spawn {B} (eff : io B) :
  proper_go eff →
  ∃ hs, Forall2 fair hs (spawns lm eff) ∧
        ∀ ρ, total hs ρ = given eff ρ.
Proof.
  assert (Hno : ∃ hs, Forall2 fair hs [] ∧
    ∀ ρ, total hs ρ = 0) by by exists [].
  destruct eff; cbn [spawns given proper_go]; try (by intros _). 
  - intros ->. exists [given (Go q (slotsFor q))]. split.
    + constructor; [|done]. split; [|by apply accounts_execute].
      intros ρ. cbn. pose proof (slot_of_range (slotsFor q) ρ). pose proof (one_range Member ρ). lia.
    + intros ρ. cbn. lia.
  - intros _. exists [λ _, 0]. split; [|done]. constructor; [|done]. split; [done|].
    by apply neutral_deliver.
Qed.

Lemma balanced_live w w' : live_step lm w w' → balanced w → balanced w'.
Proof.
  intros Hst Hb _. destruct Hst as [B m k b g' serving g l1 l2 log Em|B eff k b serving g l1 l2 log _
    |serving g l1 l2 log|es p g l log Harr]; destruct (Hb eq_refl) as [hs Hs];
    cbn [w_server w_threads] in *.
  - destruct (books_split _ _ _ _ _ Hs) as (hs1 & h & hs2 & -> & Hn & Ha & Hf1 & Hf2 & Ht & Hle & Hg).
    destruct (Ha g Hle Hg) as ([Hw _] & h' & Hn' & Hd & Hk). rewrite Em in Hw, Hd, Hk. cbn in Hw, Hd, Hk.
    exists (hs1 ++ h' :: hs2). split_and!.
    + apply Forall2_app; [done|]. by constructor.
    + intros ρ. rewrite Hd, Ht, total_app, total_cons. lia.
    + apply Hw, Hs.
  - destruct (books_split _ _ _ _ _ Hs) as (hs1 & h & hs2 & -> & Hn & (Hg & Hr & Hk) & Hf1 & Hf2 & Ht & _ & _).
    destruct (books_spawn eff Hg) as (hs3 & Hf3 & Ht3).
    exists (hs1 ++ (λ ρ, h ρ - given eff ρ) :: hs2 ++ hs3). split_and!.
    + apply Forall2_app; [done|]. constructor; [|by apply Forall2_app]. split; [|apply Hk].
      intros ρ. specialize (Hr ρ). specialize (Hn ρ).
      destruct eff; cbn in *; lia.
    + intros ρ. rewrite Ht, total_app, total_cons, total_app, Ht3. lia.
    + apply Hs.
  - destruct (books_split _ _ _ _ _ Hs) as (hs1 & h & hs2 & -> & Hn & Ha & Hf1 & Hf2 & Ht & _ & _).
    exists (hs1 ++ hs2). split_and!; [by apply Forall2_app| |apply Hs].
    intros ρ. rewrite Ht, total_app, (Ha ρ). lia.
  - exists (hs ++ [λ _, 0]). destruct Hs as (Hf & Ht & Hw). split_and!; [|intros ρ|done].
    + apply Forall2_app; [done|]. constructor; [|done]. split; [done|].
      by apply (neutral_arrives es).
    + rewrite Ht, total_app, total_cons. cbn. lia.
Qed.

(** The configuration is the one [NewServer] and [NewGRPCServer] allow. *)
Context (Hidle : active sv = ∅) (Hpositive : ∀ c, 1 ≤ capacity c lm).

Lemma balanced_step w w' : estep lm sv maxRecords maxExecutions w w' → balanced w → balanced w'.
Proof.
  intros Hst Hb. destruct Hst as [w w' Hl|w|w s s' _ _ _]; [by eapply balanced_live|done|].
  intros _. exists [λ _, 0]. split_and!.
  - constructor; [|done]. split; [done|]. by apply neutral_main.
  - intros [c|jobID|]; [by destruct c| |done]. cbn. unfold active_count. by rewrite Hidle.
  - intros c. cbn. specialize (Hpositive c). destruct c; cbn in *; lia.
Qed.

Lemma ereachable_balanced w : ereachable lm sv maxRecords maxExecutions w → balanced w.
Proof.
  unfold ereachable. apply (rtc_ind_r (λ w', balanced w')); [done|].
  intros w1 w2 _ Hst Hb. by eapply balanced_step.
Qed.

(** The handler a goroutine is in: its name and task, its kind of slot, its job. *)
Definition in_handler (p : prog unit) : option (string * Task) :=
  match p with
  | Effect eff _ => match eff with Invoke handler t => Some (handler, t) | _ => None end
  | _ => None
  end.
(** The slot of a handler that runs; those of [POST /run] ([InvokeHTTP]) take none. *)
Definition slot_in (p : prog unit) : option kind :=
  match in_handler p with Some (handler, t) => task_kind handler t | None => None end.
Definition job_in (p : prog unit) : option string :=
  match p with
  | Effect eff _ =>
      match eff with
      | Invoke _ t | InvokeHTTP _ t => Some (tk_JobID t)
      | _ => None
      end
  | _ => None
  end.

(** A goroutine in a handler holds what that requires. *)
Lemma fair_slot h p c : fair h p → slot_in p = Some c → 1 ≤ h (Slot c).
Proof.
  intros [_ Ha]. unfold slot_in, in_handler. destruct p as [|B m k|B eff k]; try done.
  destruct eff; try done. destruct Ha as (_ & Hr & _). specialize (Hr (Slot c)). cbn in Hr.
  intros E. rewrite E in Hr. cbn in Hr. rewrite one_self in Hr.
  pose proof (one_range Member (Slot c)). pose proof (one_range (Busy (tk_JobID t)) (Slot c)). lia.
Qed.

Lemma fair_job h p jobID : fair h p → job_in p = Some jobID → 1 ≤ h (Busy jobID).
Proof.
  intros [_ Ha]. unfold job_in. destruct p as [|B m k|B eff k]; try done.
  destruct eff; try done; intros [= <-]; destruct Ha as (_ & Hr & _);
    specialize (Hr (Busy (tk_JobID t))); cbn in Hr; rewrite one_self in Hr; [|done].
  pose proof (slot_of_range (task_kind handler t) (Busy (tk_JobID t))).
  pose proof (one_range Member (Busy (tk_JobID t))). lia.
Qed.

Lemma fair_member h p : fair h p → is_Some (in_handler p) → 1 ≤ h Member.
Proof.
  intros [_ Ha] [x Hx]. unfold in_handler in Hx. destruct p as [|B m k|B eff k]; try done.
  destruct eff; try done. destruct Ha as (_ & Hr & _). specialize (Hr Member). cbn in Hr.
  rewrite one_self in Hr. pose proof (slot_of_range (task_kind handler t) Member).
  pose proof (one_range (Busy (tk_JobID t)) Member). lia.
Qed.

(** Goroutines that each hold one of a resource are as many as there are at
    most. *)
Lemma count_held (test : prog unit → bool) ρ hs ths :
  (∀ h p, fair h p → test p = true → 1 ≤ h ρ) →
  Forall2 fair hs ths → Z.of_nat (length (List.filter test ths)) ≤ total hs ρ.
Proof.
  intros Ht. induction 1 as [|h p hs ths Hf _ IH]; [done|]. rewrite total_cons. cbn [List.filter].
  destruct (test p) eqn:E; cbn [length].
  - pose proof (Ht h p Hf E). lia.
  - destruct Hf as [Hn _]. specialize (Hn ρ). lia.
Qed.

Lemma none_held (test : prog unit → bool) ths :
  Z.of_nat (length (List.filter test ths)) ≤ 0 → Forall (λ p, test p = false) ths.
Proof.
  induction ths as [|p ths IH]; [done|]. cbn. destruct (test p) eqn:E; cbn; [lia|]. auto.
Qed.

(** C13: limits and the answer to "idle".  In every reachable state, of the handlers
    that were dispatched over gRPC no more scripts, HTTP requests and containers
    are running than configured ([POST /run], the older protocol, starts handlers
    without a slot, and these are not counted); and a job the executor calls idle
    has no handler running, dispatched over gRPC or over HTTP. *)
Theorem executor_respects_limits w :
  ereachable lm sv maxRecords maxExecutions w → w_up w = true →
  (∀ c, Z.of_nat (length (List.filter (λ p, bool_decide (slot_in p = Some c)) (w_threads w)))
          ≤ capacity c lm) ∧
  (∀ jobID, jobBusy jobID (server (w_server w)) = false →
     Forall (λ p, job_in p ≠ Some jobID) (w_threads w)).
Proof.
  intros Hr Hu. destruct (ereachable_balanced w Hr Hu) as (hs & Hf & Hb & Hw). split.
  - intros c. etrans; [apply (count_held _ (Slot c) hs); [|done]|rewrite <- Hb; apply Hw].
    intros h p Hp E%bool_decide_eq_true. by eapply fair_slot.
  - intros jobID E. unfold jobBusy in E. apply Z.ltb_ge in E.
    assert (Hn : Forall (λ p, bool_decide (job_in p = Some jobID) = false) (w_threads w)).
    { apply none_held. etrans; [apply (count_held _ (Busy jobID) hs); [|done]|rewrite <- Hb; exact E].
      intros h p Hp E'%bool_decide_eq_true. by eapply fair_job. }
    eapply Forall_impl; [exact Hn|]. intros p Hp. by apply bool_decide_eq_false in Hp.
Qed.

(** ** Draining *)

Definition drained (w : world) : Prop :=
  w_up w = true ∧ draining (w_server w) = true ∧ executionWG (w_server w) = 0.

Lemma drained_live w w' : live_step lm w w' → balanced w → drained w → drained w'.
Proof.
  intros Hst Hb (Hu & Hd & Hwg). pose proof (balanced_live w w' Hst Hb) as Hb'.
  destruct Hst as [B m k b g' serving g l1 l2 log Em| | |]; cbn [w_server w_up] in *; [|done..].
  destruct (Hb eq_refl) as [hs Hs].
  destruct (books_split _ _ _ _ _ Hs) as (hs1 & h & hs2 & -> & Hn & Ha & Hf1 & Hf2 & Ht & Hle & Hg).
  destruct (Ha g Hle Hg) as ([_ Ho] & _). rewrite Em in Ho. cbn in Ho. destruct (Ho Hd) as [Hd' Hle'].
  split_and!; [done|done|]. destruct (Hb' eq_refl) as (hs' & Hf' & Ht' & _). cbn in Hf', Ht'.
  pose proof (total_non_negative _ (books_non_negative _ _ Hf') Member) as Hnn.
  rewrite <- Ht' in Hnn. cbn in *. lia.
Qed.

(** A drained executor stays idle.  When [Drain] has seen all executions
    end, no handler of a dispatched execution is running, and none is started
    by anything the process does afterwards. *)
Theorem drained_executor_stays_idle w w' :
  ereachable lm sv maxRecords maxExecutions w → drained w → rtc (live_step lm) w w' →
  drained w' ∧ Forall (λ p, in_handler p = None) (w_threads w').
Proof.
  intros Hr Hd Hs. apply ereachable_balanced in Hr as Hb.
  assert (Hinv : balanced w' ∧ drained w').
  { clear Hr. induction Hs as [w|w w1 w2 Hst _ IH]; [done|].
    apply IH; [by eapply drained_live|by eapply balanced_live]. }
  destruct Hinv as [Hb' Hd']. split; [done|]. destruct Hd' as (Hu & _ & Hwg).
  destruct (Hb' Hu) as (hs & Hf & Ht & _).
  assert (Hn : Forall (λ p, bool_decide (is_Some (in_handler p)) = false) (w_threads w')).
  { apply none_held. etrans; [apply (count_held _ Member hs); [|done]|rewrite <- Ht; cbn; lia].
    intros h p Hp E%bool_decide_eq_true. by eapply fair_member. }
  eapply Forall_impl; [exact Hn|]. intros p Hp%bool_decide_eq_false. by apply eq_None_not_Some.
Qed.
End ledger.
End ExecutorLedger.
