(* ===== verification/Executors.v ===== *)
(** * Executor nodes: labels, overrides and broadcast shards

    The queries and pure helpers the trigger and scheduling transactions share:
    [internal/store/executor.go] (addresses and overrides),
    [internal/store/executor_labels.go] and [internal/store/broadcast.go]. *)
From Stdlib Require Import ZArith Lia Ascii String Sorted.
From stdpp Require Import base list strings.
From S2P Require Import Prelude GoStrings Tables.

(** [fmt.Sprintf("%x", sha256.Sum256(..)[:8])] *)
Class Digest := { sha256_hex8 : string → string }.

Module Executors.

Record ExecutorNode := mk_enode {
  GroupID : string;
  NodeID : string;
  Address : string;
  Labels : list string;
  ExpiresAt : time;
  UpdatedAt : time;
  UseCount : Z;
  LastUsedAt : time;
  Static : bool;
}.

(** ** Addresses *)

Definition normalizeExecutorAddress (address : string) : string :=
  TrimRightSlash (TrimSpace address).

Definition unregisteredOverrideAddresses (nodes : list ExecutorNode) (addresses : list string)
    : list string :=
  let registered := map (λ n, normalizeExecutorAddress (Address n)) nodes in
  List.filter (λ a, negb (existsb (String.eqb (normalizeExecutorAddress a)) registered)) addresses.

Definition OverrideExecutorNodes `{Digest} (addresses : list string) : list ExecutorNode :=
  map (λ a, mk_enode "" (("override-" ++ sha256_hex8 a)%string) a [] 0 0 0 0 true) addresses.

(** ** Live nodes *)

(** The row as the query of [liveExecutorNodesTx] loads it. *)
Definition live_node (n : node_row) : ExecutorNode :=
  mk_enode (n_group_id n) (n_node_id n) (n_address n) (n_labels n) (n_expires_at n)
           (n_updated_at n) 0 0 false.

Definition node_is_live (t : time) (n : node_row) : bool :=
  n_is_static n || After (n_expires_at n) t.

Definition live_nodes (t : time) (groupID : string) (s : db) : list ExecutorNode :=
  map live_node
    (sort_by (λ a b, String.leb (n_node_id a) (n_node_id b))
       (sql_select (λ n, (n_group_id n ==s groupID) && node_is_live t n) (executor_nodes s))).

Definition liveExecutorNodesTx (groupID : string) : tx (list ExecutorNode) :=
  t ← now; s ← get; mret (live_nodes t groupID s).

(** ** Labels *)

(** [ORDER BY excluded,label] *)
Definition label_le (a b : label_row) : bool :=
  if Bool.eqb (l_excluded a) (l_excluded b) then String.leb (l_label a) (l_label b)
  else negb (l_excluded a).

Definition job_labels (jobID : string) (s : db) : list string * list string :=
  let rows := sort_by label_le (sql_select (λ l, l_job_id l ==s jobID) (job_executor_labels s)) in
  (map l_label (List.filter (λ l, negb (l_excluded l)) rows),
   map l_label (List.filter l_excluded rows)).

Definition jobExecutorLabels (jobID : string) : tx (list string * list string) :=
  s ← get; mret (job_labels jobID s).

Definition has_label (n : ExecutorNode) (label : string) : bool :=
  existsb (String.eqb label) (Labels n).

Definition node_matches (required excluded : list string) (n : ExecutorNode) : bool :=
  forallb (has_label n) required && forallb (λ l, negb (has_label n l)) excluded.

Definition FilterExecutorNodes (nodes : list ExecutorNode) (required excluded : list string)
    : list ExecutorNode :=
  List.filter (node_matches required excluded) nodes.

(** [CHECK (label ~ '^[a-z0-9][a-z0-9._-]{0,62}$')] *)
Definition label_start (c : ascii) : bool := nat_in 97 122 c || is_digit c.
Definition label_char (c : ascii) : bool :=
  label_start c || existsb (Ascii.eqb c) ["."; "_"; "-"]%char.
Definition valid_label (l : string) : bool :=
  match l with
  | String c rest => label_start c && forall_char label_char rest && (len rest <=? 62)
  | EmptyString => false
  end.

(** One [INSERT INTO job_executor_labels]: the key is the whole row. *)
Definition insert_label (row : label_row) : tx unit :=
  s ← get;
  if negb (valid_label (l_label row))
     || sql_exists (λ l, (l_job_id l ==s l_job_id row) && (l_label l ==s l_label row)
                         && Bool.eqb (l_excluded l) (l_excluded row)) (job_executor_labels s)
  then fail (ErrMsg "insert job executor label")
  else modify (λ s, set_job_executor_labels (job_executor_labels s ++ [row]) s).

Definition replaceJobExecutorLabels (jobID : string) (required excluded : list string)
    : tx unit :=
  _ ← modify (λ s, set_job_executor_labels
                     (sql_delete (λ l, l_job_id l ==s jobID) (job_executor_labels s)) s);
  _ ← for_each required (λ x, insert_label (mk_label jobID x false));
  for_each excluded (λ x, insert_label (mk_label jobID x true)).

(** ** Broadcast shards *)

Record BroadcastShard := mk_shard {
  sh_NodeID : string;
  sh_Address : string;
  sh_Index : Z;
  sh_Total : Z;
}.

Definition int32 (z : Z) : Z := wrap_signed 32 z.

Fixpoint number_shards (index total : Z) (nodes : list ExecutorNode) : list BroadcastShard :=
  match nodes with
  | [] => []
  | n :: rest =>
      mk_shard (NodeID n) (Address n) (int32 index) (int32 total)
      :: number_shards (index + 1) total rest
  end.

Definition planBroadcastShards (nodes : list ExecutorNode) : list BroadcastShard :=
  let sorted := sort_by (λ a b, String.leb (NodeID a) (NodeID b)) nodes in
  number_shards 0 (Z.of_nat (length sorted)) sorted.
End Executors.
