(* ===== verification/RunStore.v ===== *)
(** * The run store: triggering, completing, retrying and cancelling runs

    [internal/store/run_state.go], [internal/store/runs.go],
    [internal/store/trigger.go] and the run statements of
    [internal/store/executor.go] and [internal/store/run_logs.go].  Each store
    method is a transaction [tx] with the statements in the order of the
    source; a failed statement or check rolls it back. *)
From Stdlib Require Import ZArith Lia Ascii String Sorted.
From stdpp Require Import base list strings.
From S2P Require Import Prelude GoStrings Tables Executors.

(** What the store uses of the package [internal/schedule]. *)
Class ScheduleCalc := {
  sched_Next : string → string → string → time → result time;
  sched_Due : string → string → string → string → time → time → Z → result (list time * time);
}.

(** Every clock reading is in this range: later than the year 293, the largest
    [time.Duration] after the zero time. *)
Definition recent (t : time) : Prop := int64_max + 1 < t.

(** What it promises of fixed-delay schedules: whether a next time exists does
    not depend on the time asked for, it is never the zero time, and a due job
    has a run to start or a next time. *)
Class ScheduleLaws `{ScheduleCalc} : Prop := {
  next_fixed_delay_total : ∀ ex tz t u t',
    sched_Next "fixed_delay" ex tz t = Ok u → ∃ u', sched_Next "fixed_delay" ex tz t' = Ok u';
  next_fixed_delay_nonzero : ∀ ex tz t u,
    recent t → sched_Next "fixed_delay" ex tz t = Ok u → u ≠ 0;
  due_fixed_delay_progress : ∀ ex tz policy first t limit due next,
    recent t → sched_Due "fixed_delay" ex tz policy first t limit = Ok (due, next) →
    due ≠ [] ∨ next ≠ 0;
  next_known_type : ∀ ty ex tz t u,
    sched_Next ty ex tz t = Ok u →
    existsb (String.eqb ty) ["cron"; "once"; "fixed_interval"; "fixed_rate"; "fixed_delay"] = true;
}.

Module RunStore.
Import Executors.

(** ** Runs as the Go code sees them *)
Record Run := mk_Run {
  ID : string;
  TenantID : string;
  JobID : string;
  TriggerType : trigger_type;
  Status : run_status;
  RuntimeInput : string;
  ParentRunID : string;
  RetryOfRunID : string;
  ExternalExecutionID : string;
  ExecutorNodeID : string;
  ExecutorAddress : string;
  LeaseToken : string;
  BroadcastGroupID : string;
  ShardIndex : Z;
  ShardTotal : Z;
  RescheduleOnTerminal : bool;
  OverrideAddresses : list string;
  Attempt : Z;
  ScheduledAt : time;
  StartedAt : option time;
  FinishedAt : option time;
  ResponseStatus : Z;
  ErrorMessage : string;
}.

(** [runColumns] and [runSelectColumns]: NULL becomes the empty string or zero;
    the lease token is not selected. *)
Definition scanRun (r : run_row) : Run :=
  let i := r_info r in
  {| ID := i_id i; TenantID := i_tenant_id i; JobID := i_job_id i;
     TriggerType := i_trigger_type i; Status := r_status r;
     RuntimeInput := i_runtime_input i; ParentRunID := coalesce (i_parent_run_id i) "";
     RetryOfRunID := coalesce (i_retry_of_run_id i) "";
     ExternalExecutionID := i_external_execution_id i;
     ExecutorNodeID := coalesce (r_executor_node_id r) "";
     ExecutorAddress := coalesce (r_executor_address r) ""; LeaseToken := "";
     BroadcastGroupID := coalesce (i_broadcast_group_id i) "";
     ShardIndex := coalesce (i_shard_index i) 0; ShardTotal := coalesce (i_shard_total i) 0;
     RescheduleOnTerminal := i_reschedule_on_terminal i;
     OverrideAddresses := i_override_addresses i; Attempt := i_attempt i;
     ScheduledAt := i_scheduled_at i; StartedAt := r_started_at r;
     FinishedAt := r_finished_at r; ResponseStatus := coalesce (r_response_status r) 0;
     ErrorMessage := coalesce (r_error_message r) "" |}.

Definition with_lease_token (token : string) (r : Run) : Run :=
  {| ID := ID r; TenantID := TenantID r; JobID := JobID r; TriggerType := TriggerType r;
     Status := Status r; RuntimeInput := RuntimeInput r; ParentRunID := ParentRunID r;
     RetryOfRunID := RetryOfRunID r; ExternalExecutionID := ExternalExecutionID r;
     ExecutorNodeID := ExecutorNodeID r; ExecutorAddress := ExecutorAddress r;
     LeaseToken := token; BroadcastGroupID := BroadcastGroupID r;
     ShardIndex := ShardIndex r; ShardTotal := ShardTotal r;
     RescheduleOnTerminal := RescheduleOnTerminal r;
     OverrideAddresses := OverrideAddresses r; Attempt := Attempt r;
     ScheduledAt := ScheduledAt r; StartedAt := StartedAt r; FinishedAt := FinishedAt r;
     ResponseStatus := ResponseStatus r; ErrorMessage := ErrorMessage r |}.

Definition requireRunLease (r : Run) : result unit :=
  if (ID r ==s "") || (LeaseToken r ==s "") then Err ErrConflict else Ok tt.

(** ** Statements on [job_runs] *)

(** [UPDATE job_runs SET f WHERE p RETURNING ..]: the updated rows. *)
Definition update_runs (p : run_row → bool) (f : run_row → run_row) : tx (list run_row) :=
  s ← get;
  _ ← modify (set_job_runs (sql_update p f (job_runs s)));
  mret (map f (sql_select p (job_runs s))).

Definition insert_run (r : run_row) : tx unit :=
  modify (λ s, set_job_runs (job_runs s ++ [r]) s).

(** [SET status=..,finished_at=..,..,lease_*=NULL,callback_*=NULL] *)
Definition close_run (st : run_status) (finished : option time) (response : option Z)
    (body message : option string) (r : run_row) : run_row :=
  {| r_info := r_info r; r_status := st; r_lease_owner := None; r_lease_token := None;
     r_lease_until := None; r_started_at := r_started_at r; r_finished_at := finished;
     r_response_status := response; r_response_body := body; r_error_message := message;
     r_executor_node_id := r_executor_node_id r; r_executor_address := r_executor_address r;
     r_callback_token_hash := None; r_callback_deadline := None;
     r_callback_consumed_at := r_callback_consumed_at r |}.

(** The same for a run that waits for its callback: the lease columns are not
    in the [SET] list. *)
Definition close_waiting (st : run_status) (finished : time) (message : string)
    (consumed : option time) (r : run_row) : run_row :=
  {| r_info := r_info r; r_status := st; r_lease_owner := r_lease_owner r;
     r_lease_token := r_lease_token r; r_lease_until := r_lease_until r;
     r_started_at := r_started_at r; r_finished_at := Some finished;
     r_response_status := r_response_status r; r_response_body := r_response_body r;
     r_error_message := Some message; r_executor_node_id := r_executor_node_id r;
     r_executor_address := r_executor_address r; r_callback_token_hash := None;
     r_callback_deadline := None; r_callback_consumed_at := consumed |}.

(** [SET status='waiting_callback',response_status=..,callback_*=..,lease_*=NULL],
    with or without an executor. *)
Definition await_callback (executor : option (string * string)) (response : Z)
    (token_hash : string) (deadline : time) (r : run_row) : run_row :=
  {| r_info := r_info r; r_status := WaitingCallback; r_lease_owner := None;
     r_lease_token := None; r_lease_until := None; r_started_at := r_started_at r;
     r_finished_at := r_finished_at r; r_response_status := Some response;
     r_response_body := r_response_body r; r_error_message := r_error_message r;
     r_executor_node_id :=
       match executor with Some (n, _) => Some n | None => r_executor_node_id r end;
     r_executor_address :=
       match executor with Some (_, a) => Some a | None => r_executor_address r end;
     r_callback_token_hash := Some token_hash; r_callback_deadline := Some deadline;
     r_callback_consumed_at := r_callback_consumed_at r |}.

Definition assign_executor (node address : string) (r : run_row) : run_row :=
  {| r_info := r_info r; r_status := r_status r; r_lease_owner := r_lease_owner r;
     r_lease_token := r_lease_token r; r_lease_until := r_lease_until r;
     r_started_at := r_started_at r; r_finished_at := r_finished_at r;
     r_response_status := r_response_status r; r_response_body := r_response_body r;
     r_error_message := r_error_message r; r_executor_node_id := Some node;
     r_executor_address := Some address; r_callback_token_hash := r_callback_token_hash r;
     r_callback_deadline := r_callback_deadline r;
     r_callback_consumed_at := r_callback_consumed_at r |}.

Definition activate_token (token_hash : string) (deadline : time) (r : run_row) : run_row :=
  {| r_info := r_info r; r_status := r_status r; r_lease_owner := r_lease_owner r;
     r_lease_token := r_lease_token r; r_lease_until := r_lease_until r;
     r_started_at := r_started_at r; r_finished_at := r_finished_at r;
     r_response_status := r_response_status r; r_response_body := r_response_body r;
     r_error_message := r_error_message r; r_executor_node_id := r_executor_node_id r;
     r_executor_address := r_executor_address r; r_callback_token_hash := Some token_hash;
     r_callback_deadline := Some deadline; r_callback_consumed_at := r_callback_consumed_at r |}.

(** [id=$1 AND status='running' AND lease_token=$n] *)
Definition holds_lease (r : Run) (row : run_row) : bool :=
  run_has (ID r) Running row && bool_decide (r_lease_token row = Some (LeaseToken r)).

(** [job_id=$1 AND status IN ('pending','running','waiting_callback')] *)
Definition active_of_job (jobID : string) (row : run_row) : bool :=
  (r_job_id row ==s jobID) && r_active row.

Definition pending_of_job (jobID : string) (row : run_row) : bool :=
  (r_job_id row ==s jobID) && (r_status row =st Pending).

(** ** Fixed-delay jobs are armed again when a run ends *)
Section fixed_delay.
Context `{ScheduleCalc}.

Definition set_next_run (next : option time) (last : option time) (updated : time)
    (j : job_row) : job_row :=
  {| j_id := j_id j; j_tenant_id := j_tenant_id j; j_conf := j_conf j;
     j_sealed := j_sealed j; j_enabled := j_enabled j; j_next_run_at := next; j_last_run_at := last;
     j_version := j_version j; j_created_at := j_created_at j; j_updated_at := updated |}.

Definition is_fixed_delay (j : job_row) : bool := j_schedule_type j ==s "fixed_delay".

(** The query of the unfinished shards of a broadcast. *)
Definition unfinished_shards (groupID : string) (s : db) : bool :=
  sql_exists (λ row, bool_decide (r_broadcast_group_id row = Some groupID)
                     && r_reschedule row && r_active row) (job_runs s).

Definition rearmFixedDelay (r : Run) (terminalAt : time) : tx unit :=
  s ← get;
  t ← now;
  if negb (RescheduleOnTerminal r) then mret tt
  else if (BroadcastGroupID r !=s "") && unfinished_shards (BroadcastGroupID r) s then mret tt
  else
    match sql_select (λ j, (j_id j ==s JobID r) && is_fixed_delay j) (jobs s) with
    | [] => mret tt
    | j :: _ =>
        if negb (j_enabled j) || bool_decide (j_next_run_at j ≠ None) then mret tt
        else
          next ← lift (sched_Next "fixed_delay" (j_schedule_expression j) (j_timezone j)
                                  terminalAt);
          modify (λ s, set_jobs
            (sql_update (λ j, (j_id j ==s JobID r) && j_enabled j && is_fixed_delay j
                              && bool_decide (j_next_run_at j = None))
                        (set_next_run (Some next) (Some terminalAt) t) (jobs s)) s)
    end.
End fixed_delay.

(** ** Cancellation commands and the block policy *)

Inductive blockAction := blockEnqueue | blockSkip | blockCancelAndEnqueue.

#[export] Instance blockAction_eq_dec : EqDecision blockAction.
Proof. solve_decision. Defined.

Definition canonicalBlockPolicy (policy : string) : string :=
  if policy ==s "queue" then "serial"
  else if policy ==s "skip" then "discard_later"
  else policy.

Definition decideBlockAction (policy : string) (hasActive : bool) : blockAction :=
  if negb hasActive then blockEnqueue
  else if canonicalBlockPolicy policy ==s "discard_later" then blockSkip
  else if canonicalBlockPolicy policy ==s "cover_early" then blockCancelAndEnqueue
  else blockEnqueue.

(** [ON CONFLICT DO UPDATE SET payload=old||(new-'reason')]: the new object
    without its reason replaces the rest of the old one. *)
Definition merge_payload (new : command_payload) (m : command_row) : command_row :=
  {| m_id := m_id m; m_tenant_id := m_tenant_id m; m_run_id := m_run_id m;
     m_executor_address := m_executor_address m;
     m_payload := {| p_reason := p_reason (m_payload m);
                     p_external_execution_id := p_external_execution_id new;
                     p_job_id := p_job_id new; p_script_language := p_script_language new;
                     p_kubernetes_cluster_id := p_kubernetes_cluster_id new |};
     m_delivered := m_delivered m; m_attempts := m_attempts m;
     m_available_at := m_available_at m; m_locked_by := m_locked_by m;
     m_locked_until := m_locked_until m; m_last_error := m_last_error m;
     m_delivered_at := m_delivered_at m; m_created_at := m_created_at m |}.

Definition same_command (tenantID runID : string) (m : command_row) : bool :=
  (m_tenant_id m ==s tenantID) && (m_run_id m ==s runID).

Section store.
Context `{Host} `{ScheduleCalc} `{Digest}.

Definition upsert_command (r : Run) (payload : command_payload) (id : string) (t : time)
    (s : db) : db :=
  if sql_exists (same_command (TenantID r) (ID r)) (executor_commands s)
  then set_executor_commands
         (sql_update (same_command (TenantID r) (ID r)) (merge_payload payload)
                     (executor_commands s)) s
  else set_executor_commands
         (executor_commands s ++
          [mk_command id (TenantID r) (ID r) (ExecutorAddress r) payload false 0 t
                      None None None None t]) s.

Definition enqueueExecutorCancellationTx (r : Run) (reason : string) : tx unit :=
  s ← get;
  t ← now;
  match sql_select (λ j, (j_tenant_id j ==s TenantID r) && (j_id j ==s JobID r)) (jobs s) with
  | [] => fail (ErrMsg "read cancellation execution target")
  | j :: _ =>
      id ← new_uuid;
      modify (upsert_command r
        {| p_reason := reason; p_external_execution_id := ExternalExecutionID r;
           p_job_id := JobID r; p_script_language := c_script_language (j_conf j);
           p_kubernetes_cluster_id := coalesce (j_kubernetes_cluster_id j) "" |} id t)
  end.

Definition covered_message : string := "block strategy: covered by newer trigger".

(** The [RETURNING] row of a covered run: only these fields of the [Run] are
    scanned, the others keep their zero value. *)
Definition scan_covered (r : run_row) : Run :=
  mk_Run (r_id r) (r_tenant_id r) (r_job_id r) Schedule Pending "" "" ""
    (i_external_execution_id (r_info r)) "" (coalesce (r_executor_address r) "") ""
    (coalesce (r_broadcast_group_id r) "") 0 0 (r_reschedule r) [] 0 0 None None 0 "".

(** What follows for one covered run. *)
Definition after_cover (finishedAt : time) (row : run_row) : tx unit :=
  let run := scan_covered row in
  _ ← emitRunLifecycleEventTx (ID run) Cancelled;
  _ ← (if ExecutorAddress run !=s "" then enqueueExecutorCancellationTx run covered_message
       else mret tt);
  rearmFixedDelay run finishedAt.

Definition applyBlockAction (jobID : string) (action : blockAction) : tx blockAction :=
  match action with
  | blockCancelAndEnqueue =>
      t ← now;
      covered ← update_runs (active_of_job jobID)
                  (λ r, close_run Cancelled (Some t) (r_response_status r)
                          (r_response_body r) (Some covered_message) r);
      _ ← for_each covered (after_cover t);
      mret action
  | _ => mret action
  end.

Definition applyBlockPolicy (jobID policy : string) : tx blockAction :=
  s ← get;
  applyBlockAction jobID
    (decideBlockAction policy (sql_exists (active_of_job jobID) (job_runs s))).

(** ** Dependent runs *)

Record dependent := mk_dependent {
  child_id : string; child_policy : string; child_max_queue : Z;
  child_group : string; child_strategy : string;
}.

Definition group_strategy (groupID : option string) (s : db) : string :=
  match groupID with
  | None => ""
  | Some g =>
      match sql_select (λ x, g_id x ==s g) (executor_groups s) with
      | x :: _ => g_route_strategy x
      | [] => ""
      end
  end.

(** The join of dependencies, jobs and groups, [ORDER BY d.child_job_id]. *)
Definition dependents_of (tenantID parentJobID : string) (s : db) : list dependent :=
  flat_map
    (λ d, map (λ j, mk_dependent (j_id j) (j_overlap_policy j) (j_max_queue_size j)
                      (coalesce (j_executor_group_id j) "")
                      (group_strategy (j_executor_group_id j) s))
              (sql_select (λ j, j_id j ==s d_child_job_id d) (jobs s)))
    (sort_by (λ a b, String.leb (d_child_job_id a) (d_child_job_id b))
       (sql_select (λ d, (d_tenant_id d ==s tenantID) && (d_parent_job_id d ==s parentJobID))
                   (job_dependencies s))).

Definition count_pending (jobID : string) (s : db) : Z :=
  Z.of_nat (sql_count (pending_of_job jobID) (job_runs s)).

(** Inserting the shards of a broadcast, each a pending run with its event.
    The first shard takes the identifier [first] when the caller has one. *)
Fixpoint insert_shards (first : option string) (index : nat)
    (info : string → nat → BroadcastShard → run_info) (shards : list BroadcastShard) : tx unit :=
  match shards with
  | [] => mret tt
  | shard :: rest =>
      fresh ← new_uuid;
      let id := match index, first with O, Some runID => runID | _, _ => fresh end in
      _ ← insert_run (new_run (info id index shard) Pending None None
                        (Some (sh_NodeID shard)) (Some (sh_Address shard)));
      _ ← emitRunLifecycleEventTx id Pending;
      insert_shards first (S index) info rest
  end.

(** The nodes a broadcast of a job goes to. *)
Definition broadcast_nodes (groupID jobID : string) : tx (list ExecutorNode) :=
  nodes ← liveExecutorNodesTx groupID;
  '(required, excluded) ← jobExecutorLabels jobID;
  mret (FilterExecutorNodes nodes required excluded).

(** [INSERT INTO job_dependency_dispatches .. ON CONFLICT DO NOTHING]: whether
    a row was inserted. *)
Definition reserve_dispatch (parentRunID childJobID runID : string) (scheduledAt : time)
    : tx bool :=
  s ← get;
  t ← now;
  if sql_exists (λ x, (x_parent_run_id x ==s parentRunID) && (x_child_job_id x ==s childJobID))
                (job_dependency_dispatches s)
  then mret false
  else
    _ ← modify (λ s, set_job_dependency_dispatches
          (job_dependency_dispatches s ++
           [mk_dispatch parentRunID childJobID runID scheduledAt t]) s);
    mret true.

Definition dependency_info (parent : Run) (childID : string) (scheduledAt available : time)
    (group : option string) (id : string) (shard : option BroadcastShard) : run_info :=
  mk_info id (TenantID parent) childID Dependency 1 scheduledAt available "" None
    (Some (ID parent)) None id group (sh_Index <$> shard) (sh_Total <$> shard) false [].

Definition skipped_at (status : run_status) (t : time) : option time :=
  if status =st Skipped then Some t else None.

(** One child of a succeeded run. *)
Definition enqueue_dependent (parent : Run) (child : dependent) : tx unit :=
  runID ← new_uuid;
  scheduledAt ← time_now;
  t ← now;
  reserved ← reserve_dispatch (ID parent) (child_id child) runID scheduledAt;
  if negb reserved then mret tt
  else
    s ← get;
    let pending := count_pending (child_id child) s in
    action ← applyBlockPolicy (child_id child) (child_policy child);
    let skip := bool_decide (action = blockSkip)
                || (bool_decide (action = blockEnqueue) && (child_max_queue child <=? pending)) in
    let insert_one (state : run_status) (message : string) : tx unit :=
      _ ← insert_run (new_run (dependency_info parent (child_id child) scheduledAt t None runID None)
                        state (skipped_at state t) (nullif_empty message) None None);
      emitRunLifecycleEventTx runID state in
    if skip then
      insert_one Skipped "dependency trigger skipped by block strategy or queue limit"
    else if child_strategy child ==s "sharding_broadcast" then
      nodes ← broadcast_nodes (child_group child) (child_id child);
      let shards := planBroadcastShards nodes in
      if Nat.eqb (length shards) 0 then
        fail (ErrMsg "no live executor nodes for dependent broadcast job")
      else if bool_decide (action = blockEnqueue)
              && (child_max_queue child <? pending + Z.of_nat (length shards))
      then insert_one Skipped "dependency trigger skipped by queue limit"
      else
        groupID ← new_uuid;
        insert_shards (Some runID) 0
          (λ id _ shard, dependency_info parent (child_id child) scheduledAt t (Some groupID) id
                           (Some shard)) shards
    else insert_one Pending "".

Definition enqueueDependentRuns (parent : Run) : tx unit :=
  s ← get;
  for_each (dependents_of (TenantID parent) (JobID parent) s) (enqueue_dependent parent).

(** ** Completion *)

Definition CompleteRun (r : Run) (success : bool) (status : Z) (body errorMessage : string)
    : tx unit :=
  _ ← lift (requireRunLease r);
  let state := if success then Succeeded else Failed in
  t ← now;
  updated ← update_runs (holds_lease r)
              (close_run state (Some t) (Some status) (Some body) (Some errorMessage));
  match updated with
  | [] => fail ErrConflict
  | _ :: _ =>
      _ ← emitRunLifecycleEventTx (ID r) state;
      _ ← (if negb success then emitRunEventTx (ID r) state "exhausted" else mret tt);
      _ ← (if success then enqueueDependentRuns r else mret tt);
      rearmFixedDelay r t
  end.

(** ** Retries *)

Definition callbackRetryDelay (attempt : Z) : duration :=
  let attempt := if attempt <? 1 then 1 else attempt in
  let shift := attempt - 1 in
  let shift := if 6 <? shift then 6 else shift in
  dur_mul second (Z.shiftl 1 shift).

(** The run struct [insertRetryRunTx] builds. *)
Definition retry_of (previous : Run) (id : string) (scheduledAt : time) : Run :=
  mk_Run id (TenantID previous) (JobID previous) Retry Pending (RuntimeInput previous)
    (ParentRunID previous) (ID previous) id (ExecutorNodeID previous)
    (ExecutorAddress previous) "" (BroadcastGroupID previous) (ShardIndex previous)
    (ShardTotal previous) (RescheduleOnTerminal previous) (OverrideAddresses previous)
    (Attempt previous + 1) scheduledAt None None 0 "".

(** The row of its [INSERT]. *)
Definition retry_row (next : Run) (delay : duration) : run_row :=
  let group := nullif_empty (BroadcastGroupID next) in
  new_run
    (mk_info (ID next) (TenantID next) (JobID next) Retry (Attempt next) (ScheduledAt next)
       (Add (ScheduledAt next) delay) (RuntimeInput next) None
       (nullif_empty (ParentRunID next)) (Some (RetryOfRunID next)) (ExternalExecutionID next)
       group (match group with None => None | Some _ => Some (ShardIndex next) end)
       (match group with None => None | Some _ => Some (ShardTotal next) end)
       (RescheduleOnTerminal next) (OverrideAddresses next))
    Pending None None (nullif_empty (ExecutorNodeID next)) (nullif_empty (ExecutorAddress next)).

Definition insertRetryRunTx (previous : Run) (delay : duration) : tx Run :=
  id ← new_uuid;
  scheduledAt ← time_now;
  let next := retry_of previous id scheduledAt in
  _ ← insert_run (retry_row next delay);
  _ ← emitRunLifecycleEventTx (ID next) Pending;
  mret next.

Definition failure_state (state : string) : option run_status :=
  if state ==s "failed" then Some Failed
  else if state ==s "timed_out" then Some TimedOut
  else None.

Definition FailRun (r : Run) (state : string) (status : Z) (errorMessage : string)
    (retryDelay : option duration) : tx (option Run) :=
  match failure_state state with
  | None => fail (ErrMsg "invalid failure state")
  | Some st =>
      _ ← lift (requireRunLease r);
      t ← now;
      updated ← update_runs (holds_lease r)
                  (λ row, close_run st (Some t) (Some status) (r_response_body row)
                            (Some errorMessage) row);
      match updated with
      | [] => fail ErrConflict
      | _ :: _ =>
          _ ← emitRunLifecycleEventTx (ID r) st;
          match retryDelay with
          | None =>
              _ ← emitRunEventTx (ID r) st "exhausted";
              _ ← rearmFixedDelay r t;
              mret None
          | Some delay => next ← insertRetryRunTx r delay; mret (Some next)
          end
      end
  end.

(** ** Callbacks *)

(** An [UPDATE] that must affect exactly one row. *)
Definition update_one (p : run_row → bool) (f : run_row → run_row) : tx unit :=
  updated ← update_runs p f;
  if Nat.eqb (length updated) 1 then mret tt else fail ErrConflict.

Definition MarkClaimedWaitingCallback (run : Run) (status : Z) (tokenHash : string)
    (deadline : time) : tx unit :=
  _ ← lift (requireRunLease run);
  _ ← update_one (holds_lease run) (await_callback None status tokenHash deadline);
  emitRunLifecycleEventTx (ID run) WaitingCallback.

Definition PrepareClaimedExecutorDispatch (run : Run) (nodeID address tokenHash : string)
    (deadline : time) : tx unit :=
  _ ← lift (requireRunLease run);
  _ ← update_one (holds_lease run)
        (await_callback (Some (nodeID, address)) 202 tokenHash deadline);
  emitRunLifecycleEventTx (ID run) WaitingCallback.

Definition AssignClaimedRunExecutor (run : Run) (nodeID address : string) : tx unit :=
  _ ← lift (requireRunLease run);
  update_one (holds_lease run) (assign_executor nodeID address).

Definition ActivateClaimedRunToken (run : Run) (tokenHash : string) (deadline : time) : tx unit :=
  _ ← lift (requireRunLease run);
  update_one (holds_lease run) (activate_token tokenHash deadline).

(** [JOIN jobs j ON j.id=r.job_id] *)
Definition job_of_run (row : run_row) (s : db) : option job_row :=
  head (sql_select (λ j, j_id j ==s r_job_id row) (jobs s)).

Definition callback_open (runID tokenHash : string) (t : time) (row : run_row) : bool :=
  run_has runID WaitingCallback row
  && bool_decide (r_callback_token_hash row = Some tokenHash)
  && match r_callback_deadline row with Some d => After d t | None => false end.

Definition CompleteCallback (runID tokenHash : string) (succeeded : bool) (message : string)
    : tx unit :=
  t ← now;
  s ← get;
  let state := if succeeded then Succeeded else Failed in
  updated ← update_runs (callback_open runID tokenHash t)
              (close_waiting state t (if succeeded then "" else message) (Some t));
  match updated with
  | [] => fail ErrNotFound
  | row :: _ =>
      match job_of_run row s with
      | None => fail ErrNotFound
      | Some j =>
          let terminal := scanRun row in
          _ ← emitRunLifecycleEventTx runID state;
          let willRetry := negb succeeded && (Attempt terminal <=? j_max_retries j) in
          _ ← (if negb succeeded && negb willRetry
               then emitRunEventTx runID state "exhausted" else mret tt);
          _ ← (if willRetry then
                 _ ← insertRetryRunTx terminal (callbackRetryDelay (Attempt terminal)); mret tt
               else if succeeded then
                 enqueueDependentRuns
                   (mk_Run runID (TenantID terminal) (JobID terminal) Schedule Pending
                      "" "" "" "" "" "" "" "" 0 0 false [] 0 0 None None 0 "")
               else mret tt);
          if negb willRetry then rearmFixedDelay terminal t else mret tt
      end
  end.

Definition callbackExpiryBatchSize : nat := 200.

Definition callback_expired (t : time) (row : run_row) : bool :=
  (r_status row =st WaitingCallback)
  && match r_callback_deadline row with Some d => d <=? t | None => false end.

(** The expired runs with the retry limit of their jobs, those locked by
    other transactions left out. *)
Definition expired_callbacks (t : time) (locks : string → bool) (s : db) : list (Run * Z) :=
  take callbackExpiryBatchSize
    (flat_map (λ row, match job_of_run row s with
                      | Some j => [(scanRun row, j_max_retries j)]
                      | None => []
                      end)
       (sql_select (λ row, callback_expired t row && negb (locks (r_id row))) (job_runs s))).

Definition expire_callback (item : Run * Z) : tx unit :=
  let '(run, maxRetries) := item in
  t ← now;
  updated ← update_runs (run_has (ID run) WaitingCallback)
              (λ row, close_waiting TimedOut t "callback deadline exceeded"
                        (r_callback_consumed_at row) row);
  match updated with
  | [] => fail (ErrMsg "no rows in result set")
  | _ :: _ =>
      _ ← emitRunLifecycleEventTx (ID run) TimedOut;
      if Attempt run <=? maxRetries then
        _ ← insertRetryRunTx run (callbackRetryDelay (Attempt run)); mret tt
      else
        _ ← emitRunEventTx (ID run) TimedOut "exhausted";
        rearmFixedDelay run t
  end.

Definition ExpireCallbacks : tx unit :=
  t ← now;
  locks ← locked;
  s ← get;
  for_each (expired_callbacks t locks s) expire_callback.

(** ** Cancellation and queries *)

Definition cancellable (tenantID runID : string) (row : run_row) : bool :=
  (r_tenant_id row ==s tenantID) && (r_id row ==s runID) && r_active row.

Definition tenant_run (tenantID runID : string) (row : run_row) : bool :=
  (r_tenant_id row ==s tenantID) && (r_id row ==s runID).

Definition CancelRun (tenantID runID reason : string) : tx Run :=
  t ← now;
  updated ← update_runs (cancellable tenantID runID)
              (λ row, close_run Cancelled (Some (coalesce (r_finished_at row) t))
                        (r_response_status row) (r_response_body row) (Some reason) row);
  match updated with
  | row :: _ =>
      let run := scanRun row in
      _ ← emitRunLifecycleEventTx (ID run) Cancelled;
      _ ← (if ExecutorAddress run !=s "" then enqueueExecutorCancellationTx run reason
           else mret tt);
      _ ← (match FinishedAt run with Some f => rearmFixedDelay run f | None => mret tt end);
      mret run
  | [] =>
      s ← get;
      match sql_select (tenant_run tenantID runID) (job_runs s) with
      | [] => fail ErrNotFound
      | row :: _ =>
          let run := scanRun row in
          if Status run =st Cancelled then
            _ ← (if ExecutorAddress run !=s ""
                 then enqueueExecutorCancellationTx run (ErrorMessage run) else mret tt);
            mret run
          else fail ErrNotCancellable
      end
  end.

Definition IsRunRunning (runID : string) (s : db) : bool :=
  match sql_select (λ row, r_id row ==s runID) (job_runs s) with
  | row :: _ => r_status row =st Running
  | [] => false
  end.

Definition GetRun (tenantID runID : string) (s : db) : result Run :=
  match sql_select (tenant_run tenantID runID) (job_runs s) with
  | row :: _ => Ok (scanRun row)
  | [] => Err ErrNotFound
  end.

(** [ORDER BY scheduled_at DESC,shard_index] (NULLs last) *)
Definition list_order (a b : run_row) : bool :=
  let sa := i_scheduled_at (r_info a) in let sb := i_scheduled_at (r_info b) in
  (sb <? sa) ||
  (sa =? sb) && match i_shard_index (r_info a), i_shard_index (r_info b) with
                | Some x, Some y => x <=? y
                | _, None => true
                | None, Some _ => false
                end.

Definition ListRunsFiltered (tenantID jobID broadcastGroupID : string) (limit : Z) (s : db)
    : list Run :=
  let limit := if (limit <? 1) || (200 <? limit) then 50 else limit in
  map scanRun (take (Z.to_nat limit)
    (sort_by list_order
       (sql_select (λ row, (r_tenant_id row ==s tenantID)
                           && ((jobID ==s "") || (r_job_id row ==s jobID))
                           && ((broadcastGroupID ==s "")
                               || bool_decide (r_broadcast_group_id row = Some broadcastGroupID)))
                   (job_runs s)))).

Definition ListRuns (tenantID jobID : string) (limit : Z) (s : db) : list Run :=
  ListRunsFiltered tenantID jobID "" limit s.

(** ** Manual triggers *)

(** [INSERT INTO job_run_idempotency .. ON CONFLICT DO NOTHING RETURNING run_id] *)
Definition same_key (tenantID jobID key : string) (k : idempotency_row) : bool :=
  (k_tenant_id k ==s tenantID) && (k_job_id k ==s jobID) && (k_key k ==s key).

Definition reserve_key (tenantID jobID key runID : string) (scheduledAt : time) : tx bool :=
  s ← get;
  t ← now;
  if sql_exists (same_key tenantID jobID key) (job_run_idempotency s) then mret false
  else
    _ ← modify (λ s, set_job_run_idempotency
          (job_run_idempotency s ++ [mk_idem tenantID jobID key runID scheduledAt t]) s);
    mret true.

(** [SELECT .. WHERE (id,scheduled_at)=(SELECT run_id,scheduled_at ..)] *)
Definition idempotent_run (tenantID jobID key : string) (s : db) : option Run :=
  match sql_select (same_key tenantID jobID key) (job_run_idempotency s) with
  | [] => None
  | k :: _ =>
      scanRun <$> head (sql_select (λ row, (r_id row ==s k_run_id k)
                          && (i_scheduled_at (r_info row) =? k_scheduled_at k)) (job_runs s))
  end.

Definition manual_info (tenantID jobID : string) (scheduledAt available : time)
    (input : string) (key : option string) (override : list string) (group : option string)
    (id : string) (shard : option BroadcastShard) : run_info :=
  mk_info id tenantID jobID Manual 1 scheduledAt available input key None None id group
    (sh_Index <$> shard) (sh_Total <$> shard) false override.

Definition manual_run (id tenantID jobID : string) (status : run_status) (scheduledAt : time)
    (input group : string) (override : list string) (index total : Z) (node address : string)
    : Run :=
  mk_Run id tenantID jobID Manual status input "" "" id node address "" group index total false
    override 1 scheduledAt None None 0 "".

(** The insertion of a manual run that the block policy has admitted: the
    shards of a broadcast, or one run. *)
Definition insert_manual (tenantID jobID key input id : string) (scheduledAt : time)
    (override : list string) (groupID strategy : string) (action : blockAction)
    (pending maxQueue : Z) : tx Run :=
  t ← now;
  let status := if bool_decide (action = blockSkip) then Skipped else Pending in
  if (strategy ==s "sharding_broadcast") && (status =st Pending) then
    nodes ← (match override with
             | _ :: _ => mret (OverrideExecutorNodes override)
             | [] => broadcast_nodes groupID jobID
             end);
    let shards := planBroadcastShards nodes in
    match shards with
    | [] => fail (ErrMsg "no live executor nodes")
    | shard0 :: _ =>
        if bool_decide (action = blockEnqueue)
           && (maxQueue <? pending + Z.of_nat (length shards))
        then fail ErrQueueFull
        else
          group ← new_uuid;
          _ ← insert_shards (Some id) 0
                (λ runID index shard,
                   manual_info tenantID jobID scheduledAt t input
                     (match index with O => nullif_empty key | S _ => None end)
                     override (Some group) runID (Some shard)) shards;
          mret (manual_run id tenantID jobID Pending scheduledAt input group override 0
                  (int32 (Z.of_nat (length shards))) (sh_NodeID shard0) (sh_Address shard0))
    end
  else
    _ ← insert_run (new_run
          (manual_info tenantID jobID scheduledAt t input (nullif_empty key) override None id None)
          status (skipped_at status t)
          (if status =st Skipped then Some "block strategy: discard later" else None) None None);
    _ ← emitRunLifecycleEventTx id status;
    mret (manual_run id tenantID jobID status scheduledAt input "" override 0 0 "" "").

(** The part of a trigger that comes after the idempotency key. *)
Definition trigger_fresh (tenantID jobID key input id : string) (scheduledAt : time)
    (override : list string) (job : job_row) (strategy : string) (pending : Z) : tx Run :=
  let groupID := coalesce (j_executor_group_id job) "" in
  _ ← (match override with
       | [] => mret tt
       | _ :: _ =>
           nodes ← liveExecutorNodesTx groupID;
           match unregisteredOverrideAddresses nodes override with
           | [] => mret tt
           | missing => fail (ErrOverrideAddressNotRegistered missing)
           end
       end);
  action ← applyBlockPolicy jobID (j_overlap_policy job);
  if bool_decide (action = blockEnqueue) && (j_max_queue_size job <=? pending)
  then fail ErrQueueFull
  else insert_manual tenantID jobID key input id scheduledAt override groupID strategy action
         pending (j_max_queue_size job).

Definition TriggerJobWithOptions (tenantID jobID key input : string) (override : list string)
    : tx Run :=
  id ← new_uuid;
  scheduledAt ← time_now;
  s ← get;
  match sql_select (λ j, (j_id j ==s jobID) && (j_tenant_id j ==s tenantID)) (jobs s) with
  | [] => fail ErrNotFound
  | job :: _ =>
      let strategy := group_strategy (j_executor_group_id job) s in
      let pending := count_pending jobID s in
      if negb (Nat.eqb (length override) 0) && (coalesce (j_executor_group_id job) "" ==s "")
      then fail ErrOverrideRequiresExecutorGroup
      else
        reserved ← (if key !=s "" then reserve_key tenantID jobID key id scheduledAt
                    else mret true);
        if negb reserved then
          s ← get;
          match idempotent_run tenantID jobID key s with
          | Some run => mret run
          | None => fail (ErrMsg "read idempotent run")
          end
        else trigger_fresh tenantID jobID key input id scheduledAt override job strategy pending
  end.

Definition TriggerJob (tenantID jobID key input : string) : tx Run :=
  TriggerJobWithOptions tenantID jobID key input [].
End store.
End RunStore.
