(* ===== verification/Scheduling.v ===== *)
(** * The schedule package behind the store's interface

    The store asks the schedule package for the next run of a job and for the
    runs that are due.  [Calculator] implements both; its fixed-delay schedules
    keep the promises the store relies on. *)
From Stdlib Require Import ZArith Lia Ascii String.
From stdpp Require Import base list strings.
From S2P Require Import Prelude GoStrings GoTime Quartz Calculator Tables Executors RunStore.

Module Scheduling.
Import Calculator.

Section scheduling.
Context `{CronLib} `{TZData}.

#[export] Instance calculator_schedule : ScheduleCalc := {|
  sched_Next := Next;
  sched_Due := Due;
|}.

(** A fixed delay is a number of seconds, whatever the time asked for. *)
Lemma fixed_delay_Next expression timezone t u :
  Next "fixed_delay" expression timezone t = Ok u →
  ∃ d, int64_min ≤ d ∧ ∀ t', Next "fixed_delay" expression timezone t' = Ok (Add t' d).
Proof.
  unfold Next. destruct (LoadLocation timezone) as [loc|]; [|done]. cbn.
  destruct (ParseInt expression) as [s|]; [|done]. destruct (s <? 1); [done|]. intros _.
  exists (dur_mul s second). split; [|done]. apply wrap64_range.
Qed.

Lemma fixed_delay_nonzero expression timezone t u :
  recent t → Next "fixed_delay" expression timezone t = Ok u → u ≠ 0.
Proof.
  intros Hr E. destruct (fixed_delay_Next _ _ _ _ E) as (d & Hd & Hn).
  rewrite Hn in E. injection E as <-. unfold recent, Add, int64_min, int64_max in *. lia.
Qed.

#[export] Instance calculator_laws : ScheduleLaws.
Proof.
  constructor; cbn.
  - intros ex tz t u t' E. destruct (fixed_delay_Next _ _ _ _ E) as (d & _ & Hn). eauto.
  - apply fixed_delay_nonzero.
  - intros ex tz policy first t limit due next Hr. unfold Due, After.
    destruct (t <? first) eqn:E; bool_to_prop.
    { intros [= <- <-]. right. unfold recent, int64_max in Hr. lia. }
    cbn. destruct (_ <? _); [|intros [= <- <-]; by left].
    destruct (policy ==s "skip").
    + rewrite result_bind_Ok. intros (u & Hu & [= <- <-]). right. by eapply fixed_delay_nonzero.
    + destruct (_ || _); [|done]. intros [= <- <-]. by left.
  - intros ty ex tz t u. unfold Next, is_fixed. destruct (LoadLocation tz); [|done].
    destruct (ty ==s "cron"); [done|]. destruct (ty ==s "once"); [done|].
    destruct (ty ==s "fixed_interval"); [done|]. destruct (ty ==s "fixed_rate"); [done|].
    by destruct (ty ==s "fixed_delay").
Qed.
End scheduling.
End Scheduling.
