(* ===== verification/Routing.v ===== *)
(** * Choosing an executor

    [internal/core/routing.go]: the node a route strategy selects among the
    live ones.  [sort.Slice] is not stable, so it is a parameter with the order
    it documents; the MD5 prefix of the hash strategy is a parameter too. *)
From Stdlib Require Import ZArith Lia Ascii String Sorted.
From stdpp Require Import base list strings.
From S2P Require Import Prelude GoStrings.

(** [sort.Slice(l, less)]: some permutation in which no element is less than
    an earlier one, provided [less] is a strict weak order. *)
Definition weak_order {A} (less : A → A → bool) : Prop :=
  (∀ x, less x x = false) ∧
  (∀ x y z, less x y = true → less y z = true → less x z = true) ∧
  (∀ x y z, less x y = false → less y z = false → less x z = false).

Class SliceSort := { sort_Slice : ∀ {A}, (A → A → bool) → list A → list A }.
Class SliceSortLaws `{SliceSort} : Prop := {
  sort_Slice_perm : ∀ A (less : A → A → bool) l, sort_Slice less l ≡ₚ l;
  sort_Slice_sorted : ∀ A (less : A → A → bool) l,
    weak_order less → StronglySorted (λ a b, less b a = false) (sort_Slice less l);
}.

(** The first four bytes of [md5.Sum], little endian. *)
Class RouteHash := { md5_prefix : string → Z }.

Module Routing.

Record executorCandidate := mk_ecand {
  ec_ID : string;
  ec_Address : string;
  ec_UseCount : Z;
  ec_LastUsedAt : time;
}.

(** [sort.Search(n, f)]: the binary search of the standard library. *)
Fixpoint search_loop (fuel : nat) (f : nat → bool) (i j : nat) : nat :=
  match fuel with
  | O => i
  | S fuel =>
      if Nat.ltb i j then
        let h := Nat.div2 (i + j) in
        if negb (f h) then search_loop fuel f (S h) j else search_loop fuel f i h
      else i
  end.

Definition sort_Search (n : nat) (f : nat → bool) : nat := search_loop n f 0 n.

(** [l[i]]; an index out of range panics. *)
Definition index {A} (l : list A) (i : nat) : result A :=
  match l !! i with Some x => Ok x | None => Err (ErrMsg "index out of range") end.

Section routing.
Context `{SliceSort} `{RouteHash}.

Definition xxlRouteHash (key : string) : Z := md5_prefix key.

Record virtualNode := mk_vnode { v_hash : Z; v_node : executorCandidate }.

Definition ring_replicas : nat := 100.

Definition virtual_nodes (node : executorCandidate) : list virtualNode :=
  map (λ index, mk_vnode (xxlRouteHash ("SHARD-" ++ ec_Address node ++ "-NODE-" ++
                                        Itoa (Z.of_nat index))%string) node)
      (seq 0 ring_replicas).

Definition consistentHashExecutor (nodes : list executorCandidate) (routeKey : string)
    : result executorCandidate :=
  let ring := sort_Slice (λ a b, v_hash a <? v_hash b) (flat_map virtual_nodes nodes) in
  let jobHash := xxlRouteHash routeKey in
  let i := sort_Search (length ring)
             (λ index, match ring !! index with Some v => jobHash <=? v_hash v | None => false end) in
  let i := if Nat.eqb i (length ring) then O else i in
  v ← index ring i; Ok (v_node v).

Definition sortAndFirst (nodes : list executorCandidate)
    (less : executorCandidate → executorCandidate → bool) : result executorCandidate :=
  index (sort_Slice less nodes) 0.

Definition less_id (a b : executorCandidate) : bool := String.ltb (ec_ID a) (ec_ID b).

Definition less_lfu (left right : executorCandidate) : bool :=
  (ec_UseCount left <? ec_UseCount right)
  || ((ec_UseCount left =? ec_UseCount right) && String.ltb (ec_ID left) (ec_ID right)).

Definition less_lru (left right : executorCandidate) : bool :=
  if ec_LastUsedAt left =? ec_LastUsedAt right then String.ltb (ec_ID left) (ec_ID right)
  else ec_LastUsedAt left <? ec_LastUsedAt right.

Definition selectExecutorNode (nodes : list executorCandidate) (strategy : string)
    (cursor random : Z) (routeKey : string) : result executorCandidate :=
  if Nat.eqb (length nodes) 0 then Err (ErrMsg "no live executor nodes")
  else
    let sorted := sort_Slice less_id nodes in
    let n := Z.of_nat (length sorted) in
    if strategy ==s "first" then index sorted 0
    else if strategy ==s "last" then index sorted (length sorted - 1)
    else if strategy ==s "round" then
      let cursor := if cursor <? 0 then 0 else cursor in
      index sorted (Z.to_nat (Z.rem cursor n))
    else if strategy ==s "random" then index sorted (Z.to_nat (random mod n))
    else if strategy ==s "hash" then consistentHashExecutor sorted routeKey
    else if strategy ==s "lfu" then sortAndFirst sorted less_lfu
    else if strategy ==s "lru" then sortAndFirst sorted less_lru
    else Err (ErrMsg "unsupported executor route strategy").
End routing.

(** ** Binary search *)

Lemma search_loop_spec fuel f i j n :
  (i ≤ j)%nat → (j ≤ n)%nat → (j - i ≤ fuel)%nat →
  (∀ a b, (a ≤ b)%nat → (b < n)%nat → f a = true → f b = true) →
  (∀ k, (k < i)%nat → f k = false) → (∀ k, (j ≤ k)%nat → (k < n)%nat → f k = true) →
  let r := search_loop fuel f i j in
  (r ≤ n)%nat ∧ (∀ k, (k < r)%nat → f k = false) ∧ ((r < n)%nat → f r = true).
Proof.
  revert i j. induction fuel as [|fuel IH]; intros i j Hij Hjn Hf Hmono Hlo Hhi; cbn [search_loop].
  { assert (i = j) as -> by lia. split_and!; [lia|done|auto with lia]. }
  destruct (Nat.ltb i j) eqn:E.
  2: { apply Nat.ltb_ge in E. assert (i = j) as -> by lia. split_and!; [lia|done|auto with lia]. }
  apply Nat.ltb_lt in E. cbv zeta. rewrite Nat.div2_div. set (h := ((i + j) / 2)%nat).
  assert (i ≤ h < j)%nat as [Hih Hhj].
  { unfold h. split; [apply Nat.div_le_lower_bound; lia|apply Nat.Div0.div_lt_upper_bound; lia]. }
  destruct (f h) eqn:Efh; cbn [negb]; apply IH; try lia; try done.
  - intros k Hk Hkn. apply (Hmono h k); [done|done|done].
  - intros k Hk. destruct (f k) eqn:Efk; [|done].
    rewrite (Hmono k h) in Efh; [done|lia|lia|done].
Qed.

Lemma sort_Search_spec n f :
  (∀ a b, (a ≤ b)%nat → (b < n)%nat → f a = true → f b = true) →
  (sort_Search n f ≤ n)%nat ∧ (∀ k, (k < sort_Search n f)%nat → f k = false) ∧
  ((sort_Search n f < n)%nat → f (sort_Search n f) = true).
Proof. intros Hm. apply search_loop_spec; [lia|lia|lia|done|lia|lia]. Qed.

Lemma search_loop_le fuel f i j : (i ≤ j)%nat → (search_loop fuel f i j ≤ j)%nat.
Proof.
  revert i j. induction fuel as [|fuel IH]; intros i j Hij; cbn [search_loop]; [done|].
  destruct (Nat.ltb i j) eqn:E; [|done]. apply Nat.ltb_lt in E. cbv zeta. rewrite Nat.div2_div.
  assert (i ≤ (i + j) / 2 < j)%nat
    by (split; [apply Nat.div_le_lower_bound; lia|apply Nat.Div0.div_lt_upper_bound; lia]).
  destruct (negb _); [apply IH; lia|]. etrans; [apply IH|]; lia.
Qed.

Lemma sort_Search_le n f : (sort_Search n f ≤ n)%nat.
Proof. apply search_loop_le. lia. Qed.

(** ** Orders *)

Lemma less_id_weak : weak_order less_id.
Proof.
  unfold weak_order, less_id. setoid_rewrite str_ltb_leb. setoid_rewrite negb_true_iff.
  setoid_rewrite negb_false_iff. split_and!.
  - intros. apply str_leb_refl.
  - intros x y z Hxy Hyz. destruct (String.leb (ec_ID z) (ec_ID x)) eqn:E; [|done].
    destruct (str_leb_total (ec_ID z) (ec_ID y)) as [?|Hy]; [congruence|].
    rewrite (str_leb_trans _ _ _ Hy E) in Hxy. done.
  - intros x y z Hxy Hyz. by eapply str_leb_trans.
Qed.

(** A lexicographic order on a number and the identifier. *)
Definition less_key (key : executorCandidate → Z) (a b : executorCandidate) : bool :=
  (key a <? key b) || ((key a =? key b) && String.ltb (ec_ID a) (ec_ID b)).

Lemma less_key_weak key : weak_order (less_key key).
Proof.
  destruct less_id_weak as (Hirr & Htr & Hneg). unfold less_key, less_id in *. split_and!.
  - intros x. rewrite Z.ltb_irrefl, Z.eqb_refl. cbn. apply Hirr.
  - intros x y z. rewrite !orb_true_iff, !andb_true_iff, !Z.ltb_lt, !Z.eqb_eq.
    intros [?|[? ?]] [?|[? ?]]; [left; lia|left; lia|left; lia|right]. split; [lia|by eapply Htr].
  - intros x y z. rewrite !orb_false_iff, !andb_false_iff, !Z.ltb_ge, !Z.eqb_neq.
    intros [Hxy Hx] [Hyz Hy]. split; [lia|].
    destruct (Z.eq_dec (key x) (key z)); [right|by left].
    destruct Hx as [?|Hx]; [lia|]. destruct Hy as [?|Hy]; [lia|]. by eapply Hneg.
Qed.

Lemma less_lfu_key a b : less_lfu a b = less_key ec_UseCount a b.
Proof. done. Qed.

Lemma less_lru_key a b : less_lru a b = less_key ec_LastUsedAt a b.
Proof.
  unfold less_lru, less_key. destruct (_ =? _) eqn:E; bool_to_prop.
  - rewrite E, Z.ltb_irrefl. done.
  - by rewrite orb_false_r.
Qed.

Lemma weak_order_ext {A} (f g : A → A → bool) :
  (∀ a b, f a b = g a b) → weak_order g → weak_order f.
Proof. intros E (? & ? & ?). split_and!; intros *; rewrite !E; eauto. Qed.

(** ** What each strategy selects *)

Section selection.
Context `{SliceSortLaws} `{RouteHash}.

Lemma index_ok {A} (l : list A) i : (i < length l)%nat → ∃ x, index l i = Ok x ∧ x ∈ l.
Proof.
  intros Hi. unfold index. destruct (lookup_lt_is_Some_2 l i Hi) as [x E]. rewrite E.
  exists x. split; [done|]. by eapply list_elem_of_lookup_2.
Qed.

Lemma length_sort_Slice {A} (less : A → A → bool) l : length (sort_Slice less l) = length l.
Proof. apply Permutation_length, sort_Slice_perm. Qed.

Lemma elem_of_sort_Slice {A} (less : A → A → bool) l x : x ∈ sort_Slice less l ↔ x ∈ l.
Proof. by rewrite (sort_Slice_perm A less l). Qed.

Lemma sorted_first less l c :
  weak_order less → sortAndFirst l less = Ok c → c ∈ l ∧ ∀ x, x ∈ l → less x c = false.
Proof.
  intros Hw. unfold sortAndFirst, index.
  pose proof (sort_Slice_sorted _ less l Hw) as Hs. pose proof (elem_of_sort_Slice less l) as Hin.
  destruct (sort_Slice less l) as [|y k]; cbn; [done|]. intros [= ->].
  apply StronglySorted_inv in Hs as [_ Hs]. rewrite Forall_forall in Hs. split; [apply Hin; left|].
  intros x [->|Hx]%Hin%elem_of_cons; [apply Hw|by apply Hs].
Qed.

(** *** The hash ring *)

(** The order the ring is searched in: hashes from the job's hash upwards,
    then those below it. *)
Definition ring_before (h : Z) (a b : virtualNode) : Prop :=
  (v_hash a <? h) = (v_hash b <? h) ∧ v_hash a ≤ v_hash b ∨
  (v_hash a <? h) = false ∧ (v_hash b <? h) = true.

Lemma ring_less_weak : weak_order (λ a b : virtualNode, v_hash a <? v_hash b).
Proof. unfold weak_order. split_and!; intros; bool_to_prop; rewrite ?Z.ltb_lt, ?Z.ltb_ge; lia. Qed.

Lemma sorted_lookup_le {A} (R : A → A → Prop) l i j x y :
  StronglySorted R l → (i < j)%nat → l !! i = Some x → l !! j = Some y → R x y.
Proof.
  intros Hs. revert i j. induction Hs as [|z l _ IH Hz]; intros i j Hij Hi Hj; [done|].
  destruct i as [|i], j as [|j]; cbn in *; try lia.
  - injection Hi as ->. rewrite Forall_forall in Hz. by apply Hz, (list_elem_of_lookup_2 l j).
  - by apply (IH i j); [lia|..].
Qed.

(** The search finds the first virtual node in that order. *)
Lemma consistent_hash_first nodes key c :
  consistentHashExecutor nodes key = Ok c →
  ∃ v, v ∈ flat_map virtual_nodes nodes ∧ v_node v = c ∧
    ∀ w, w ∈ flat_map virtual_nodes nodes → ring_before (xxlRouteHash key) v w.
Proof.
  unfold consistentHashExecutor. cbv zeta. set (h := xxlRouteHash key).
  pose proof (sort_Slice_sorted _ _ (flat_map virtual_nodes nodes) ring_less_weak) as Hs.
  pose proof (elem_of_sort_Slice (λ a b, v_hash a <? v_hash b) (flat_map virtual_nodes nodes)) as Hin.
  set (ring := sort_Slice _ _) in *. clearbody ring.
  set (f := λ index, match ring !! index with Some v => h <=? v_hash v | None => false end).
  assert (Hle : ∀ a b v w, (a ≤ b)%nat → ring !! a = Some v → ring !! b = Some w →
            v_hash v ≤ v_hash w).
  { intros a b v w Hab Ha Hb. destruct (decide (a = b)) as [->|]; [by simplify_eq|].
    assert (Hlt : (v_hash w <? v_hash v) = false)
      by (apply (sorted_lookup_le _ ring a b v w Hs); [lia|done|done]).
    by apply Z.ltb_ge in Hlt. }
  destruct (sort_Search_spec (length ring) f) as (Hn & Hlo & Hhi).
  { intros a b Hab Hb. unfold f. destruct (lookup_lt_is_Some_2 ring b Hb) as [w Ew].
    destruct (lookup_lt_is_Some_2 ring a ltac:(lia)) as [v Ev]. rewrite Ew, Ev, !Z.leb_le.
    pose proof (Hle a b v w Hab Ev Ew). lia. }
  set (i := sort_Search (length ring) f) in *. clearbody i. rewrite result_bind_Ok.
  intros (v & Ev & [= <-]). unfold index in Ev. exists v.
  destruct (Nat.eqb i (length ring)) eqn:Ei.
  - apply Nat.eqb_eq in Ei. destruct (ring !! 0%nat) as [v0|] eqn:E0; [|done]. injection Ev as ->.
    split_and!; [apply Hin; by eapply list_elem_of_lookup_2|done|].
    assert (Hbelow : ∀ k w, ring !! k = Some w → v_hash w < h).
    { intros k w Ek. assert (Hk : f k = false) by (apply Hlo; apply lookup_lt_Some in Ek; lia).
      unfold f in Hk. rewrite Ek in Hk. by apply Z.leb_gt. }
    intros w [k Hk]%Hin%list_elem_of_lookup_1. left.
    rewrite (proj2 (Z.ltb_lt _ _) (Hbelow _ _ E0)), (proj2 (Z.ltb_lt _ _) (Hbelow _ _ Hk)).
    split; [done|]. eapply Hle; [|done..]. lia.
  - apply Nat.eqb_neq in Ei. destruct (ring !! i) as [vi|] eqn:E0; [|done]. injection Ev as ->.
    split_and!; [apply Hin; by eapply list_elem_of_lookup_2|done|].
    assert (Hv : (v_hash v <? h) = false).
    { specialize (Hhi ltac:(lia)). unfold f in Hhi. rewrite E0 in Hhi. bool_to_prop. by apply Z.ltb_ge. }
    intros w [k Hk]%Hin%list_elem_of_lookup_1. unfold ring_before. rewrite Hv.
    destruct (decide (k < i)%nat) as [Hki|Hki].
    + right. split; [done|]. specialize (Hlo k Hki). unfold f in Hlo. rewrite Hk in Hlo.
      apply Z.leb_gt in Hlo. by apply Z.ltb_lt.
    + left. assert (v_hash v ≤ v_hash w) by (eapply (Hle i k); [lia|done..]).
      apply Z.ltb_ge in Hv. rewrite (proj2 (Z.ltb_ge _ _)) by lia. done.
Qed.

Lemma ring_nonempty nodes : nodes ≠ [] → flat_map virtual_nodes nodes ≠ [].
Proof. by destruct nodes. Qed.

Lemma consistent_hash_total nodes key :
  nodes ≠ [] → ∃ c, consistentHashExecutor nodes key = Ok c ∧ c ∈ nodes.
Proof.
  intros Hne. unfold consistentHashExecutor. cbv zeta.
  set (ring := sort_Slice _ _).
  assert (Hlen : (0 < length ring)%nat).
  { unfold ring. rewrite length_sort_Slice. apply ring_nonempty in Hne.
    destruct (flat_map _ nodes); cbn; [done|lia]. }
  set (i := if Nat.eqb _ _ then _ else _).
  destruct (index_ok ring i) as (v & Ev & Hv).
  { unfold i. destruct (Nat.eqb _ _) eqn:Ei; [done|]. apply Nat.eqb_neq in Ei.
    match type of Ei with sort_Search ?n ?f ≠ _ => pose proof (sort_Search_le n f) end. lia. }
  exists (v_node v). rewrite Ev. split; [done|]. apply elem_of_sort_Slice in Hv.
  apply list_elem_of_In, in_flat_map in Hv as (c & Hc & Hv).
  apply in_map_iff in Hv as (k & <- & _). by apply list_elem_of_In.
Qed.

(** The strategies [selectExecutorNode] knows. *)
Definition pure_strategies : list string :=
  ["first"; "last"; "round"; "random"; "hash"; "lfu"; "lru"].

(** With at least one node, every strategy but the probing and broadcast
    ones selects one of the nodes; without nodes, or for another strategy,
    the selection is an error. *)
Theorem selection_total nodes strategy cursor random key :
  (nodes ≠ [] ∧ strategy ∈ pure_strategies →
     ∃ c, selectExecutorNode nodes strategy cursor random key = Ok c ∧ c ∈ nodes) ∧
  (nodes = [] ∨ strategy ∉ pure_strategies →
     ∃ err, selectExecutorNode nodes strategy cursor random key = Err err).
Proof.
  unfold selectExecutorNode. split.
  - intros [Hne Hs]. destruct nodes as [|n0 ns]; [done|]. cbn [length Nat.eqb].
    set (nodes := n0 :: ns) in *. cbv zeta.
    assert (Hlen : (0 < length (sort_Slice less_id nodes))%nat)
      by (rewrite length_sort_Slice; cbn; lia).
    assert (Hi : ∀ i, (i < length (sort_Slice less_id nodes))%nat →
              ∃ c, index (sort_Slice less_id nodes) i = Ok c ∧ c ∈ nodes).
    { intros i Hi. destruct (index_ok _ i Hi) as (c & E & Hc). exists c. split; [done|].
      by apply elem_of_sort_Slice in Hc. }
    assert (Hf : ∀ less, ∃ c, sortAndFirst (sort_Slice less_id nodes) less = Ok c ∧ c ∈ nodes).
    { intros less. unfold sortAndFirst.
      destruct (index_ok (sort_Slice less (sort_Slice less_id nodes)) 0) as (c & E & Hc);
        [by rewrite length_sort_Slice|]. exists c. split; [done|].
      by apply elem_of_sort_Slice, elem_of_sort_Slice in Hc. }
    repeat (destruct (strategy ==s _) eqn:?; bool_to_prop).
    + by apply Hi.
    + apply Hi. lia.
    + apply Hi. destruct (cursor <? 0) eqn:?; bool_to_prop;
        pose proof (Z.rem_bound_pos (if cursor <? 0 then 0 else cursor)
          (Z.of_nat (length (sort_Slice less_id nodes)))); rewrite ?Z.rem_0_l in *; try lia.
      destruct (cursor <? 0) eqn:?; bool_to_prop; lia.
    + apply Hi. pose proof (Z.mod_pos_bound random (Z.of_nat (length (sort_Slice less_id nodes)))).
      lia.
    + destruct (consistent_hash_total (sort_Slice less_id nodes) key) as (c & E & Hc).
      { intros E. rewrite E in Hlen. cbn in Hlen. lia. }
      exists c. split; [done|]. by apply elem_of_sort_Slice in Hc.
    + apply Hf.
    + apply Hf.
    + exfalso. unfold pure_strategies in Hs. rewrite !elem_of_cons, elem_of_nil in Hs. tauto.
  - intros [-> | Hs]; [by eexists|]. destruct (Nat.eqb _ _); [by eexists|]. cbv zeta.
    repeat (destruct (strategy ==s _) eqn:?; bool_to_prop); [..|by eexists];
      subst strategy; exfalso; apply Hs; unfold pure_strategies; rewrite !elem_of_cons; tauto.
Qed.

(** least frequently used picks a node with the smallest use count,
    least recently used one with the oldest use. *)
Theorem least_used_is_selected nodes cursor random key c :
  (selectExecutorNode nodes "lfu" cursor random key = Ok c →
     c ∈ nodes ∧ ∀ x, x ∈ nodes → ec_UseCount c ≤ ec_UseCount x) ∧
  (selectExecutorNode nodes "lru" cursor random key = Ok c →
     c ∈ nodes ∧ ∀ x, x ∈ nodes → ec_LastUsedAt c ≤ ec_LastUsedAt x).
Proof.
  unfold selectExecutorNode. split; (destruct (Nat.eqb _ _); [done|]); cbn.
  - intros [Hc Hmin]%sorted_first; [|eapply weak_order_ext; [apply less_lfu_key|apply less_key_weak]].
    apply elem_of_sort_Slice in Hc. split; [done|]. intros x Hx.
    assert (Hl := Hmin x (proj2 (elem_of_sort_Slice less_id nodes x) Hx)).
    unfold less_lfu in Hl. bool_to_prop. lia.
  - intros [Hc Hmin]%sorted_first; [|eapply weak_order_ext; [apply less_lru_key|apply less_key_weak]].
    apply elem_of_sort_Slice in Hc. split; [done|]. intros x Hx.
    assert (Hl := Hmin x (proj2 (elem_of_sort_Slice less_id nodes x) Hx)).
    rewrite less_lru_key in Hl. unfold less_key in Hl. bool_to_prop. lia.
Qed.

(** *** Round robin *)

Lemma rotate_Permutation {A} r (l : list A) : drop r l ++ take r l ≡ₚ l.
Proof. rewrite Permutation_app_comm. by rewrite take_drop. Qed.

Lemma rotate_index {A} (l : list A) (k : Z) :
  0 ≤ k → l ≠ [] →
  map (λ i, index l (Z.to_nat (Z.rem (k + Z.of_nat i) (Z.of_nat (length l))))) (seq 0 (length l))
  = map Ok (drop (Z.to_nat (k mod Z.of_nat (length l))) l
            ++ take (Z.to_nat (k mod Z.of_nat (length l))) l).
Proof.
  intros Hk Hne. assert (Hn : (0 < length l)%nat) by (destruct l; cbn; [done|lia]).
  set (n := length l) in *. set (r := Z.to_nat (k mod Z.of_nat n)).
  assert (Hr : (r < n)%nat) by (unfold r; pose proof (Z.mod_pos_bound k (Z.of_nat n)); lia).
  apply list_eq. intros i. rewrite !list_lookup_fmap.
  destruct (decide (i < n)%nat) as [Hi|Hi].
  2: { rewrite (lookup_ge_None_2 (seq 0 n)) by (rewrite length_seq; lia).
       rewrite (lookup_ge_None_2 (drop r l ++ take r l)); [done|].
       rewrite length_app, length_drop, length_take. unfold n in *. lia. }
  rewrite lookup_seq_lt by done. cbn [fmap option_fmap option_map].
  rewrite Z.rem_mod_nonneg by lia.
  assert (Em : Z.to_nat ((k + Z.of_nat i) mod Z.of_nat n)
               = if Nat.ltb (r + i) n then (r + i)%nat else (r + i - n)%nat).
  { pose proof (Z.mod_pos_bound k (Z.of_nat n) ltac:(lia)) as Hb.
    unfold r in *. destruct (Nat.ltb _ _) eqn:E; [apply Nat.ltb_lt in E|apply Nat.ltb_ge in E].
    - rewrite <- Z.add_mod_idemp_l by lia. rewrite Z.mod_small; lia.
    - rewrite <- Z.add_mod_idemp_l by lia.
      replace (k mod Z.of_nat n + Z.of_nat i) with
        (k mod Z.of_nat n + Z.of_nat i - Z.of_nat n + 1 * Z.of_nat n) by lia.
      rewrite Z.mod_add, Z.mod_small by lia. lia. }
  rewrite Nat.add_0_l, Em. unfold index. destruct (Nat.ltb (r + i) n) eqn:E.
  - apply Nat.ltb_lt in E. rewrite lookup_app_l by (rewrite length_drop; unfold n in *; lia).
    rewrite lookup_drop. destruct (lookup_lt_is_Some_2 l (r + i) E) as [x Ex]. by rewrite Ex.
  - apply Nat.ltb_ge in E. rewrite lookup_app_r by (rewrite length_drop; unfold n in *; lia).
    rewrite length_drop. replace (i - (length l - r))%nat with (r + i - n)%nat by (unfold n in *; lia).
    rewrite lookup_take_lt by lia.
    destruct (lookup_lt_is_Some_2 l (r + i - n)%nat ltac:(unfold n in *; lia)) as [x Ex]. by rewrite Ex.
Qed.

(** round robin is fair: from any cursor on, as many consecutive
    selections as there are nodes visit every node exactly once. *)
Theorem round_robin_visits_all nodes cursor random key :
  0 ≤ cursor → nodes ≠ [] →
  map (λ i, selectExecutorNode nodes "round" (cursor + Z.of_nat i) random key)
      (seq 0 (length nodes))
  ≡ₚ map Ok nodes.
Proof.
  intros Hc Hne.
  assert (E : map (λ i, selectExecutorNode nodes "round" (cursor + Z.of_nat i) random key)
      (seq 0 (length nodes))
    = map (λ i, index (sort_Slice less_id nodes) (Z.to_nat (Z.rem (cursor + Z.of_nat i)
        (Z.of_nat (length (sort_Slice less_id nodes)))))) (seq 0 (length (sort_Slice less_id nodes)))).
  { rewrite length_sort_Slice. apply map_ext. intros i. unfold selectExecutorNode.
    destruct nodes; [done|]. cbn -[Z.rem Z.of_nat]. rewrite length_sort_Slice. cbn -[Z.rem Z.of_nat].
    by rewrite (proj2 (Z.ltb_ge (cursor + Z.of_nat i) 0)) by lia. }
  rewrite E, rotate_index; [|done|].
  - apply Permutation_map. by rewrite rotate_Permutation, (sort_Slice_perm _ less_id nodes).
  - intros E0. apply (f_equal length) in E0. rewrite length_sort_Slice in E0. by destruct nodes.
Qed.

(** *** Consistent hashing *)

(** No two nodes share a hash on the ring. *)
Definition no_collisions (nodes : list executorCandidate) : Prop :=
  ∀ v w, v ∈ flat_map virtual_nodes nodes → w ∈ flat_map virtual_nodes nodes →
    v_hash v = v_hash w → v_node v = v_node w.

Lemma virtual_node_in v nodes :
  v ∈ flat_map virtual_nodes nodes ↔ v ∈ virtual_nodes (v_node v) ∧ v_node v ∈ nodes.
Proof.
  rewrite !list_elem_of_In, in_flat_map. unfold virtual_nodes. split.
  - intros (c & Hc & Hv). apply in_map_iff in Hv as Hv'. destruct Hv' as (k & <- & _). done.
  - intros [Hv Hc]. exists (v_node v). done.
Qed.

Lemma ring_before_antisym h v w : ring_before h v w → ring_before h w v → v_hash v = v_hash w.
Proof. unfold ring_before. intros [[? ?]|[? ?]] [[? ?]|[? ?]]; try lia; congruence. Qed.

(** Consistent hashing moves no key needlessly: as long as the node a
    job hashes to stays, adding or removing other nodes does not change it. *)
Theorem consistent_hash_stable nodes nodes' key c c' :
  no_collisions nodes → (∀ x, x ∈ nodes' → x ∈ nodes) → c ∈ nodes' →
  consistentHashExecutor nodes key = Ok c → consistentHashExecutor nodes' key = Ok c' → c' = c.
Proof.
  intros Hnc Hsub Hc E E'.
  destruct (consistent_hash_first _ _ _ E) as (v & Hv & <- & Hmin).
  destruct (consistent_hash_first _ _ _ E') as (v' & Hv' & <- & Hmin').
  apply virtual_node_in in Hv' as Hx. destruct Hx as [Hvv' Hn'].
  assert (Hin' : v' ∈ flat_map virtual_nodes nodes) by (apply virtual_node_in; auto).
  apply Hnc; [done|done|]. apply (ring_before_antisym (xxlRouteHash key)).
  - apply Hmin', virtual_node_in. apply virtual_node_in in Hv as [? _]. done.
  - by apply Hmin.
Qed.
End selection.
End Routing.
