(* ===== verification/JobStore.v ===== *)
(** * The job store

    [internal/store/jobs.go], [internal/store/script_versions.go] and
    [internal/store/job_dependencies.go]: creating, updating, starting,
    stopping and deleting jobs, the history of their scripts, and the graph of
    their dependencies. *)
From Stdlib Require Import ZArith Lia Ascii String Sorted.
From stdpp Require Import base list strings gmap fin_sets relations.
From S2P Require Import Prelude GoStrings Tables Executors RunStore.

(** The cipher the store is given (the interface [HeaderCipher]), and the JSON
    form of headers and credentials. *)
Record HeaderCipher := mk_cipher {
  Encrypt : string → result (string * Z);
  Decrypt : string → Z → result string;
}.

Record DockerRegistryAuth := mk_auth {
  Server : string; Username : string; Password : string; Configured : bool;
}.

Definition no_auth : DockerRegistryAuth := mk_auth "" "" "" false.

Class JobCodec := {
  headerCipher : option HeaderCipher;
  marshal_headers : list (string * string) → string;
  unmarshal_headers : string → result (list (string * string));
  marshal_auth : DockerRegistryAuth → string;
  unmarshal_auth : string → result DockerRegistryAuth;
}.

Module JobStore.
Import Executors RunStore.

(** The Go struct [Job]: the plain columns, and the decoded secrets. *)
Record Job := mk_Job {
  Job_ID : string;
  Job_TenantID : string;
  Job_Conf : job_conf;
  RequiredExecutorLabels : list string;
  ExcludedExecutorLabels : list string;
  Headers : list (string * string);
  RegistryAuth : DockerRegistryAuth;
  Enabled : bool;
  NextRunAt : option time;
  Version : Z;
}.

Section codec.
Context `{JobCodec}.

Definition decrypt_with (encrypted : string) (keyVersion : option Z) (missing : string)
    : result string :=
  match headerCipher, keyVersion with
  | Some c, Some v => Decrypt c encrypted v
  | _, _ => Err (ErrMsg missing)
  end.

(** The bytes of a nullable column; NULL and the empty value are alike. *)
Definition present (o : option string) : option string :=
  match o with Some s => if s ==s "" then None else Some s | None => None end.

Definition decryptDockerRegistryAuth (z : sealed_columns) : result DockerRegistryAuth :=
  match present (z_encrypted_docker_registry_auth z) with
  | None => Ok no_auth
  | Some encrypted =>
      plain ← decrypt_with encrypted (z_docker_registry_auth_key_version z)
                "encrypted docker registry credentials require store cipher";
      auth ← unmarshal_auth plain;
      Ok (mk_auth (Server auth) (Username auth) (Password auth) true)
  end.

Definition decrypt_headers (z : sealed_columns) : result (list (string * string)) :=
  plain ← (match present (z_encrypted_headers z) with
           | None => Ok (z_headers z)
           | Some encrypted =>
               decrypt_with encrypted (z_encryption_key_version z)
                 "encrypted headers require store cipher"
           end);
  unmarshal_headers plain.

Definition scanJob (j : job_row) : result Job :=
  headers ← decrypt_headers (j_sealed j);
  auth ← decryptDockerRegistryAuth (j_sealed j);
  Ok (mk_Job (j_id j) (j_tenant_id j) (j_conf j) [] [] headers auth (j_enabled j)
             (j_next_run_at j) (j_version j)).

Definition encryptDockerRegistryAuth (auth : DockerRegistryAuth)
    : result (option string * option Z) :=
  if negb (Configured auth) then Ok (None, None)
  else
    match headerCipher with
    | None => Err (ErrMsg "docker registry credentials require store cipher")
    | Some c =>
        if (Server auth ==s "") || (Username auth ==s "") || (Password auth ==s "")
        then Err (ErrMsg "docker registry server, username and password are required")
        else '(encrypted, version) ← Encrypt c (marshal_auth auth);
             Ok (Some encrypted, Some version)
    end.

(** The sealed columns [CreateJob] and [UpdateJob] write. *)
Definition seal_job (j : Job) : result sealed_columns :=
  let headers := marshal_headers (Headers j) in
  '(headers, encrypted, keyVersion) ←
    (match headerCipher with
     | None => Ok (headers, None, None)
     | Some c => '(ciphertext, version) ← Encrypt c headers;
                 Ok ("{}", Some ciphertext, Some version)
     end);
  '(dockerAuth, dockerVersion) ← encryptDockerRegistryAuth (RegistryAuth j);
  Ok (mk_sealed headers encrypted keyVersion dockerAuth dockerVersion).
End codec.

(** ** Constraints of the table [jobs] *)

Definition one_of (x : string) (l : list string) : bool := existsb (String.eqb x) l.
Definition between (lo hi x : Z) : bool := (lo <=? x) && (x <=? hi).

Lemma one_of_true x l : one_of x l = true ↔ x ∈ l.
Proof.
  unfold one_of. rewrite existsb_exists. setoid_rewrite String.eqb_eq.
  rewrite list_elem_of_In. split; [by intros (y & ? & ->)|eauto].
Qed.

(** [jobs_script_definition_check] *)
Definition script_check (c : job_conf) : bool :=
  let lang := c_script_language c in
  let group := bool_decide (c_executor_group_id c ≠ None) in
  let cluster := bool_decide (c_kubernetes_cluster_id c ≠ None) in
  let has_source := c_script_source c !=s "" in
  ((lang ==s "") && (c_script_source c ==s "") && negb cluster)
  || (one_of lang ["shell"; "python"; "nodejs"; "php"; "powershell"] && has_source && group
      && (c_executor_handler c ==s "__script__") && negb cluster)
  || ((lang ==s "docker") && has_source && group && (c_executor_handler c ==s "__docker__")
      && negb cluster)
  || ((lang ==s "kubernetes") && has_source && group
      && (c_executor_handler c ==s "__kubernetes__") && cluster).

(** The column checks of the migrations. *)
Definition job_check (c : job_conf) (z : sealed_columns) : bool :=
  one_of (c_schedule_type c) ["cron"; "once"; "fixed_interval"; "fixed_rate"; "fixed_delay"]
  && between 1 3600 (c_timeout_seconds c)
  && between 0 20 (c_max_retries c)
  && one_of (c_overlap_policy c) ["serial"; "discard_later"; "cover_early"; "parallel"]
  && one_of (c_misfire_policy c) ["skip"; "fire_once"; "catch_up"]
  && (0 <? c_max_concurrent_runs c)
  && between 1 100000 (c_max_queue_size c)
  && between 1 1000 (c_max_catch_up c)
  && between 1 86400 (c_callback_timeout_seconds c)
  && script_check c
  && Bool.eqb (bool_decide (z_encrypted_docker_registry_auth z = None))
              (bool_decide (z_docker_registry_auth_key_version z = None)).

(** Foreign keys of a job. *)
Definition job_references (tenantID : string) (c : job_conf) (s : db) : bool :=
  sql_exists (λ t, t_id t ==s tenantID) (tenants s)
  && match c_executor_group_id c with
     | None => true
     | Some g => sql_exists (λ x, (g_id x ==s g) && (g_tenant_id x ==s tenantID))
                            (executor_groups s)
     end
  && match c_kubernetes_cluster_id c with
     | None => true
     | Some k => sql_exists (λ x, (q_id x ==s k) && (q_tenant_id x ==s tenantID))
                            (kubernetes_clusters s)
     end.

Definition name_taken (tenantID id name : string) (s : db) : bool :=
  sql_exists (λ j, (j_tenant_id j ==s tenantID) && (c_name (j_conf j) ==s name)
                   && (j_id j !=s id)) (jobs s).

(** [NULLIF($n,'')::uuid] of the two references *)
Definition set_references (c : job_conf) (group cluster : option string) : job_conf :=
  mk_conf (c_name c) (c_description c) (c_schedule_type c) (c_schedule_expression c)
    (c_timezone c) (c_target_url c) (c_http_method c) (c_body_template c)
    (c_timeout_seconds c) (c_max_retries c) (c_overlap_policy c) (c_misfire_policy c)
    (c_max_concurrent_runs c) (c_max_catch_up c) (c_callback_timeout_seconds c)
    (c_max_queue_size c) group (c_executor_handler c) (c_script_language c)
    (c_script_source c) cluster.

Definition stored_conf (c : job_conf) : job_conf :=
  set_references c (c_executor_group_id c ≫= nullif_empty) (c_kubernetes_cluster_id c ≫= nullif_empty).

(** Policies and limits as [CreateJob] completes them. *)
Definition set_limits (c : job_conf) (policy : string) (conc catch cb queue : Z) : job_conf :=
  mk_conf (c_name c) (c_description c) (c_schedule_type c) (c_schedule_expression c)
    (c_timezone c) (c_target_url c) (c_http_method c) (c_body_template c)
    (c_timeout_seconds c) (c_max_retries c) policy (c_misfire_policy c)
    conc catch cb queue (c_executor_group_id c) (c_executor_handler c) (c_script_language c)
    (c_script_source c) (c_kubernetes_cluster_id c).

Definition with_defaults (c : job_conf) : job_conf :=
  set_limits c (canonicalBlockPolicy (c_overlap_policy c))
    (if c_max_concurrent_runs c <? 1 then 1 else c_max_concurrent_runs c)
    (if c_max_catch_up c <? 1 then 10 else c_max_catch_up c)
    (if c_callback_timeout_seconds c <? 1 then 3600 else c_callback_timeout_seconds c)
    (if c_max_queue_size c <? 1 then 1000 else c_max_queue_size c).

Definition with_policy (c : job_conf) : job_conf :=
  set_limits c (canonicalBlockPolicy (c_overlap_policy c)) (c_max_concurrent_runs c)
    (c_max_catch_up c) (c_callback_timeout_seconds c) (c_max_queue_size c).

Section jobs.
Context `{Host} `{ScheduleCalc} `{JobCodec}.

(** ** Script versions *)

Definition max_revision (jobID : string) (s : db) : Z :=
  fold_right Z.max 0
    (map s_revision (sql_select (λ v, s_job_id v ==s jobID) (job_script_versions s))).

(** [CHECK]s of [job_script_versions]; the remark has at most 200 characters. *)
Fixpoint char_length (s : string) : Z :=
  match s with
  | EmptyString => 0
  | String c rest => (if nat_in 128 191 c then 0 else 1) + char_length rest
  end.

Definition script_version_check (language source remark : string) : bool :=
  one_of language ["shell"; "python"; "nodejs"; "php"; "powershell"; "docker"; "kubernetes"]
  && between 1 1048576 (len source) && between 1 200 (char_length remark).

Definition insertJobScriptVersion (tenantID jobID language source remark : string) : tx Z :=
  let remark := TrimSpace remark in
  let remark := if remark ==s "" then "job update" else remark in
  id ← new_uuid;
  t ← now;
  s ← get;
  let revision := max_revision jobID s + 1 in
  if negb (script_version_check language source remark)
  then fail (ErrMsg "insert job script version")
  else
    _ ← modify (λ s, set_job_script_versions
          (job_script_versions s ++
           [mk_script id tenantID jobID revision language source remark t]) s);
    mret revision.

(** ** Creating and updating jobs *)

(** [next_run_at] of an enabled job; zero times are stored as NULL. *)
Definition next_arg (enabled : bool) (next : time) : option time :=
  if enabled && negb (IsZero next) then Some next else None.

Definition with_stored (j : Job) (id : string) (c : job_conf) (next : option time)
    (version : Z) : Job :=
  mk_Job id (Job_TenantID j) c (RequiredExecutorLabels j) (ExcludedExecutorLabels j)
         (Headers j) (RegistryAuth j) (Enabled j) next version.

Definition CreateJob (j : Job) : tx Job :=
  let c := with_defaults (Job_Conf j) in
  wall ← time_now;
  next ← lift (sched_Next (c_schedule_type c) (c_schedule_expression c) (c_timezone c) wall);
  id ← (if Job_ID j ==s "" then new_uuid else mret (Job_ID j));
  z ← lift (seal_job j);
  t ← now;
  s ← get;
  let row := mk_job id (Job_TenantID j) (stored_conf c) z (Enabled j)
               (next_arg (Enabled j) next) None 1 t t in
  if negb (job_check (j_conf row) z) || negb (job_references (Job_TenantID j) (j_conf row) s)
     || name_taken (Job_TenantID j) id (c_name c) s
     || sql_exists (λ x, j_id x ==s id) (jobs s)
  then fail (ErrMsg "insert job")
  else
    _ ← modify (λ s, set_jobs (jobs s ++ [row]) s);
    _ ← (if c_script_language c !=s "" then
           _ ← insertJobScriptVersion (Job_TenantID j) id (c_script_language c)
                 (c_script_source c) "initial version";
           mret tt
         else mret tt);
    _ ← replaceJobExecutorLabels id (RequiredExecutorLabels j) (ExcludedExecutorLabels j);
    mret (with_stored j id c (j_next_run_at row) 1).

Definition tenant_job (tenantID id : string) (j : job_row) : bool :=
  (j_tenant_id j ==s tenantID) && (j_id j ==s id).

(** [scanJob(tx.QueryRow(..))]: the row with its decoded form. *)
Definition load_job (tenantID id : string) : tx (job_row * Job) :=
  s ← get;
  match sql_select (tenant_job tenantID id) (jobs s) with
  | [] => fail ErrNotFound
  | row :: _ => j ← lift (scanJob row); mret (row, j)
  end.

(** [UPDATE jobs SET <configuration>,version=version+1,updated_at=now()] *)
Definition replace_conf (c : job_conf) (z : sealed_columns) (enabled : bool)
    (next : option time) (t : time) (j : job_row) : job_row :=
  mk_job (j_id j) (j_tenant_id j) c z enabled next (j_last_run_at j) (j_version j + 1)
         (j_created_at j) t.

Definition UpdateJob (j : Job) : tx Job :=
  let c := with_policy (Job_Conf j) in
  wall ← time_now;
  next ← lift (sched_Next (c_schedule_type c) (c_schedule_expression c) (c_timezone c) wall);
  z ← lift (seal_job j);
  t ← now;
  s ← get;
  match sql_select (tenant_job (Job_TenantID j) (Job_ID j)) (jobs s) with
  | [] => fail ErrConflict
  | row :: _ =>
      current ← lift (scanJob row);
      if negb (Version current =? Version j) then fail ErrConflict
      else
        let old := j_conf row in
        let scriptChanged := (c_script_language old !=s c_script_language c)
                             || (c_script_source old !=s c_script_source c) in
        if negb (job_check (stored_conf c) z)
           || negb (job_references (Job_TenantID j) (stored_conf c) s)
           || name_taken (Job_TenantID j) (Job_ID j) (c_name c) s
        then fail (ErrMsg "update job")
        else
          _ ← modify (λ s, set_jobs
                (sql_update (tenant_job (Job_TenantID j) (Job_ID j))
                   (replace_conf (stored_conf c) z (Enabled j) (next_arg (Enabled j) next) t)
                   (jobs s)) s);
          _ ← (if scriptChanged && (c_script_language c !=s "") then
                 _ ← insertJobScriptVersion (Job_TenantID j) (Job_ID j) (c_script_language c)
                       (c_script_source c) "job update";
                 mret tt
               else mret tt);
          _ ← replaceJobExecutorLabels (Job_ID j) (RequiredExecutorLabels j)
                (ExcludedExecutorLabels j);
          mret (with_stored j (Job_ID j) c (next_arg (Enabled j) next) (j_version row + 1))
  end.

Definition nextRunForEnabledState (c : job_conf) (enabled : bool) (wall : time)
    : result (option time) :=
  if negb enabled then Ok None
  else
    next ← sched_Next (c_schedule_type c) (c_schedule_expression c) (c_timezone c) wall;
    Ok (if IsZero next then None else Some next).

Definition SetJobEnabled (tenantID id : string) (enabled : bool) (version : Z) : tx Job :=
  '(row, job) ← load_job tenantID id;
  if negb (Version job =? version) then fail ErrConflict
  else if Bool.eqb (Enabled job) enabled then mret job
  else
    wall ← time_now;
    next ← lift (nextRunForEnabledState (Job_Conf job) enabled wall);
    t ← now;
    _ ← modify (λ s, set_jobs
          (sql_update (tenant_job tenantID id)
             (λ j, replace_conf (j_conf j) (j_sealed j) enabled next t j) (jobs s)) s);
    '(_, job) ← load_job tenantID id;
    mret job.

(** [ON DELETE CASCADE] from [jobs]. *)
Definition cascade_job (doomed : string → bool) (s : db) : db :=
  set_jobs (sql_delete (λ j, doomed (j_id j)) (jobs s))
  (set_job_runs (sql_delete (λ r, doomed (r_job_id r)) (job_runs s))
  (set_job_dependencies
     (sql_delete (λ d, doomed (d_parent_job_id d) || doomed (d_child_job_id d))
                 (job_dependencies s))
  (set_job_dependency_dispatches
     (sql_delete (λ x, doomed (x_child_job_id x)) (job_dependency_dispatches s))
  (set_job_executor_labels (sql_delete (λ l, doomed (l_job_id l)) (job_executor_labels s))
  (set_route_counters (sql_delete (λ u, doomed (u_job_id u)) (route_counters s))
  (set_route_state (sql_delete (λ v, doomed (v_job_id v)) (route_state s))
  (set_override_route_state (sql_delete (λ o, doomed (o_job_id o)) (override_route_state s))
  (set_job_script_versions (sql_delete (λ v, doomed (s_job_id v)) (job_script_versions s))
  (set_channel_jobs (sql_delete (λ b, doomed (b_job_id b)) (channel_jobs s)) s))))))))).

Definition DeleteJob (tenantID id : string) (version : Z) : tx unit :=
  s ← get;
  let p j := tenant_job tenantID id j && (j_version j =? version) in
  if sql_exists p (jobs s) then modify (cascade_job (String.eqb id)) else fail ErrConflict.

Definition GetJob (tenantID id : string) (s : db) : result Job :=
  match sql_select (tenant_job tenantID id) (jobs s) with
  | [] => Err ErrNotFound
  | row :: _ => scanJob row
  end.

(** ** Script history *)

Definition set_script (language source : string) (t : time) (j : job_row) : job_row :=
  let c := j_conf j in
  mk_job (j_id j) (j_tenant_id j)
    (mk_conf (c_name c) (c_description c) (c_schedule_type c) (c_schedule_expression c)
       (c_timezone c) (c_target_url c) (c_http_method c) (c_body_template c)
       (c_timeout_seconds c) (c_max_retries c) (c_overlap_policy c) (c_misfire_policy c)
       (c_max_concurrent_runs c) (c_max_catch_up c) (c_callback_timeout_seconds c)
       (c_max_queue_size c) (c_executor_group_id c) (c_executor_handler c) language source
       (c_kubernetes_cluster_id c))
    (j_sealed j) (j_enabled j) (j_next_run_at j) (j_last_run_at j) (j_version j + 1)
    (j_created_at j) t.

Definition RollbackJobScriptVersion (tenantID jobID versionID : string) (jobVersion : Z)
    (remark : string) : tx Job :=
  let remark := TrimSpace remark in
  if 200 <? len remark then fail (ErrMsg "remark must not exceed 200 characters")
  else
    '(row, job) ← load_job tenantID jobID;
    if negb (Version job =? jobVersion) then fail ErrConflict
    else
      s ← get;
      t ← now;
      match sql_select (λ v, (s_tenant_id v ==s tenantID) && (s_job_id v ==s jobID)
                             && (s_id v ==s versionID)) (job_script_versions s) with
      | [] => fail ErrNotFound
      | target :: _ =>
          let changed := set_script (s_script_language target) (s_script_source target) t row in
          if negb (job_check (j_conf changed) (j_sealed changed))
          then fail (ErrMsg "update job script")
          else
            _ ← modify (λ s, set_jobs
                  (sql_update (tenant_job tenantID jobID)
                     (set_script (s_script_language target) (s_script_source target) t)
                     (jobs s)) s);
            '(_, job) ← load_job tenantID jobID;
            let remark := if remark ==s ""
                          then ("rollback to revision " ++ Itoa (s_revision target))%string
                          else remark in
            _ ← insertJobScriptVersion tenantID jobID (s_script_language target)
                  (s_script_source target) remark;
            mret job
      end.

(** ** Dependencies *)

(** [WITH RECURSIVE descendants(id) AS (.. UNION ..)]: the children, and the
    children of descendants, until nothing is added; each round adds one of
    the children of the table, so their number bounds the rounds. *)
Definition children_of (deps : list dependency_row) (parents : gset string) : gset string :=
  list_to_set (map d_child_job_id
    (List.filter (λ d, bool_decide (d_parent_job_id d ∈ parents)) deps)).

Fixpoint descend (rounds : nat) (deps : list dependency_row) (found : gset string)
    : gset string :=
  match rounds with
  | O => found
  | S n => descend n deps (found ∪ children_of deps found)
  end.

Definition descendants (deps : list dependency_row) (id : string) : gset string :=
  descend (length deps) deps (children_of deps {[ id ]}).

Definition insert_dependency (tenantID parentJobID childID : string) : tx unit :=
  s ← get;
  if childID ==s parentJobID then fail ErrDependencyCycle
  else if bool_decide (parentJobID ∈ descendants (job_dependencies s) childID)
  then fail ErrDependencyCycle
  else if sql_exists (λ d, (d_parent_job_id d ==s parentJobID) && (d_child_job_id d ==s childID))
                     (job_dependencies s)
  then fail (ErrMsg "duplicate key")
  else modify (λ s, set_job_dependencies
                      (job_dependencies s ++ [mk_dep tenantID parentJobID childID]) s).

Definition SetJobDependencies (tenantID parentJobID : string) (childJobIDs : list string)
    : tx unit :=
  s ← get;
  let count := sql_count (λ j, (j_tenant_id j ==s tenantID)
                               && one_of (j_id j) (parentJobID :: childJobIDs)) (jobs s) in
  if negb (Nat.eqb count (length childJobIDs + 1)) then fail ErrNotFound
  else
    _ ← modify (λ s, set_job_dependencies
          (sql_delete (λ d, (d_tenant_id d ==s tenantID) && (d_parent_job_id d ==s parentJobID))
                      (job_dependencies s)) s);
    for_each childJobIDs (insert_dependency tenantID parentJobID).

Definition JobDependencies (tenantID parentJobID : string) (s : db) : result (list string) :=
  if sql_exists (tenant_job tenantID parentJobID) (jobs s) then
    Ok (sort_by String.leb
          (map d_child_job_id
             (sql_select (λ d, (d_tenant_id d ==s tenantID) && (d_parent_job_id d ==s parentJobID))
                         (job_dependencies s))))
  else Err ErrNotFound.
End jobs.
End JobStore.
