(* ===== verification/Clusters.v ===== *)
(** * Kubernetes clusters

    The cluster store of [internal/store/kubernetes_clusters.go]: validation,
    credentials encrypted at rest, updates guarded by the version, and the
    foreign key that keeps a cluster while a job names it. *)
From Stdlib Require Import ZArith Lia Ascii String.
From stdpp Require Import base list strings.
From S2P Require Import Prelude GoStrings GoUrl Tables Executors RunStore JobStore.

Record KubernetesCredentials := mk_credentials {
  Kubeconfig : string; kc_Token : string; CAData : string;
}.

(** The JSON form of the credentials. *)
Class CredentialCodec := {
  marshal_credentials : KubernetesCredentials → string;
  unmarshal_credentials : string → result KubernetesCredentials;
}.

Module Clusters.
Import GoUrl JobStore.

Record KubernetesCluster := mk_kcluster {
  kc_ID : string; kc_TenantID : string; kc_Name : string; AuthMode : string;
  APIServer : string; Namespace : string; kc_Credentials : KubernetesCredentials;
  InsecureSkipTLSVerify : bool; MaxConcurrentJobs : Z; kc_Version : Z;
  kc_CreatedAt : time; kc_UpdatedAt : time;
}.

Definition set_max_jobs (max : Z) (c : KubernetesCluster) : KubernetesCluster :=
  mk_kcluster (kc_ID c) (kc_TenantID c) (kc_Name c) (AuthMode c) (APIServer c) (Namespace c)
    (kc_Credentials c) (InsecureSkipTLSVerify c) max (kc_Version c) (kc_CreatedAt c) (kc_UpdatedAt c).
Definition set_names (id name namespace : string) (c : KubernetesCluster) : KubernetesCluster :=
  mk_kcluster id (kc_TenantID c) name (AuthMode c) (APIServer c) namespace (kc_Credentials c)
    (InsecureSkipTLSVerify c) (MaxConcurrentJobs c) (kc_Version c) (kc_CreatedAt c) (kc_UpdatedAt c).
Definition set_credentials (x : KubernetesCredentials) (c : KubernetesCluster) : KubernetesCluster :=
  mk_kcluster (kc_ID c) (kc_TenantID c) (kc_Name c) (AuthMode c) (APIServer c) (Namespace c) x
    (InsecureSkipTLSVerify c) (MaxConcurrentJobs c) (kc_Version c) (kc_CreatedAt c) (kc_UpdatedAt c).
Definition set_stamps (version : Z) (created updated : time) (c : KubernetesCluster)
    : KubernetesCluster :=
  mk_kcluster (kc_ID c) (kc_TenantID c) (kc_Name c) (AuthMode c) (APIServer c) (Namespace c)
    (kc_Credentials c) (InsecureSkipTLSVerify c) (MaxConcurrentJobs c) version created updated.

(** [if cluster.MaxConcurrentJobs == 0 { cluster.MaxConcurrentJobs = 100 }] *)
Definition default_capacity (c : KubernetesCluster) : KubernetesCluster :=
  if MaxConcurrentJobs c =? 0 then set_max_jobs 100 c else c.

Section clusters.
Context `{Host} `{JobCodec} `{CredentialCodec} `{IPLiterals}.

Definition validateKubernetesCluster (cluster : KubernetesCluster) : result unit :=
  let name := TrimSpace (kc_Name cluster) in
  let namespace := TrimSpace (Namespace cluster) in
  if (name ==s "") || (128 <? len name) then
    Err (ErrMsg "cluster name must be between 1 and 128 characters")
  else if (namespace ==s "") || (253 <? len namespace) then
    Err (ErrMsg "namespace must be between 1 and 253 characters")
  else if (MaxConcurrentJobs cluster <? 1) || (1000000 <? MaxConcurrentJobs cluster) then
    Err (ErrMsg "max_concurrent_jobs must be between 1 and 1000000")
  else if AuthMode cluster ==s "kubeconfig" then
    if TrimSpace (Kubeconfig (kc_Credentials cluster)) ==s "" then Err (ErrMsg "kubeconfig is required")
    else Ok tt
  else if AuthMode cluster ==s "service_account" then
    if (TrimSpace (APIServer cluster) ==s "") || (TrimSpace (kc_Token (kc_Credentials cluster)) ==s "")
    then Err (ErrMsg "api_server and token are required")
    else
      match ParseRequestURI (APIServer cluster) with
      | Ok parsed =>
          if (url_Host parsed ==s "")
             || ((url_Scheme parsed !=s "https") && (url_Scheme parsed !=s "http"))
          then Err (ErrMsg "api_server must be an absolute HTTP or HTTPS URL")
          else Ok tt
      | Err _ => Err (ErrMsg "api_server must be an absolute HTTP or HTTPS URL")
      end
  else Err (ErrMsg "auth_mode must be kubeconfig or service_account").

(** The sealed credentials and the version of their key. *)
Definition seal_credentials (x : KubernetesCredentials) : result (string * Z) :=
  match headerCipher with
  | None => Err (ErrMsg "kubernetes credentials require store cipher")
  | Some c => Encrypt c (marshal_credentials x)
  end.

Definition cluster_name_taken (tenantID name id : string) (s : db) : bool :=
  sql_exists (λ q, (q_tenant_id q ==s tenantID) && (q_name q ==s name) && (q_id q !=s id))
             (kubernetes_clusters s).

Definition CreateKubernetesCluster (cluster : KubernetesCluster) : tx KubernetesCluster :=
  let cluster := default_capacity cluster in
  _ ← lift (validateKubernetesCluster cluster);
  id ← new_uuid;
  let cluster := set_names id (TrimSpace (kc_Name cluster)) (TrimSpace (Namespace cluster)) cluster in
  '(encrypted, keyVersion) ← lift (seal_credentials (kc_Credentials cluster));
  s ← get;
  t ← now;
  if negb (sql_exists (λ x, t_id x ==s kc_TenantID cluster) (tenants s))
     || cluster_name_taken (kc_TenantID cluster) (kc_Name cluster) id s
     || sql_exists (λ q, q_id q ==s id) (kubernetes_clusters s)
  then fail (ErrMsg "insert kubernetes cluster")
  else
    _ ← modify (λ s, set_kubernetes_clusters (kubernetes_clusters s ++
          [mk_cluster id (kc_TenantID cluster) (kc_Name cluster) (AuthMode cluster)
             (TrimSpace (APIServer cluster)) (Namespace cluster) encrypted keyVersion
             (InsecureSkipTLSVerify cluster) (MaxConcurrentJobs cluster) 1 t t]) s);
    mret (set_stamps 1 t t cluster).

Definition scanKubernetesCluster (q : cluster_row) : result KubernetesCluster :=
  match headerCipher with
  | None => Err (ErrMsg "encrypted kubernetes credentials require store cipher")
  | Some c =>
      plain ← Decrypt c (q_encrypted_credentials q) (q_encryption_key_version q);
      credentials ← unmarshal_credentials plain;
      Ok (mk_kcluster (q_id q) (q_tenant_id q) (q_name q) (q_auth_mode q) (q_api_server q)
            (q_namespace q) credentials (q_insecure_skip_tls_verify q) (q_max_concurrent_jobs q)
            (q_version q) (q_created_at q) (q_updated_at q))
  end.

Definition tenant_cluster (tenantID id : string) (q : cluster_row) : bool :=
  (q_tenant_id q ==s tenantID) && (q_id q ==s id).

Definition GetKubernetesCluster (tenantID id : string) : tx KubernetesCluster :=
  s ← get;
  match sql_select (tenant_cluster tenantID id) (kubernetes_clusters s) with
  | [] => fail ErrNotFound
  | q :: _ => lift (scanKubernetesCluster q)
  end.

(** [ORDER BY name,id] *)
Definition cluster_le (a b : cluster_row) : bool :=
  if q_name a ==s q_name b then String.leb (q_id a) (q_id b) else String.leb (q_name a) (q_name b).

Fixpoint scan_clusters (qs : list cluster_row) : result (list KubernetesCluster) :=
  match qs with
  | [] => Ok []
  | q :: rest => c ← scanKubernetesCluster q; cs ← scan_clusters rest; Ok (c :: cs)
  end.

Definition ListKubernetesClusters (tenantID : string) : tx (list KubernetesCluster) :=
  s ← get;
  lift (scan_clusters (sort_by cluster_le
          (sql_select (λ q, q_tenant_id q ==s tenantID) (kubernetes_clusters s)))).

Definition replace_cluster (c : KubernetesCluster) (encrypted : string) (keyVersion : Z) (t : time)
    (q : cluster_row) : cluster_row :=
  mk_cluster (q_id q) (q_tenant_id q) (TrimSpace (kc_Name c)) (AuthMode c)
    (TrimSpace (APIServer c)) (TrimSpace (Namespace c)) encrypted keyVersion
    (InsecureSkipTLSVerify c) (MaxConcurrentJobs c) (q_version q + 1) (q_created_at q) t.

Definition UpdateKubernetesCluster (cluster : KubernetesCluster) : tx KubernetesCluster :=
  let cluster := default_capacity cluster in
  _ ← lift (validateKubernetesCluster cluster);
  '(encrypted, keyVersion) ← lift (seal_credentials (kc_Credentials cluster));
  s ← get;
  t ← now;
  let p q := tenant_cluster (kc_TenantID cluster) (kc_ID cluster) q
             && (q_version q =? kc_Version cluster) in
  match sql_select p (kubernetes_clusters s) with
  | [] => fail ErrConflict
  | q :: _ =>
      if cluster_name_taken (kc_TenantID cluster) (TrimSpace (kc_Name cluster)) (kc_ID cluster) s
      then fail (ErrMsg "update kubernetes cluster")
      else
        _ ← modify (λ s, set_kubernetes_clusters
              (sql_update p (replace_cluster cluster encrypted keyVersion t) (kubernetes_clusters s)) s);
        mret (set_stamps (q_version q + 1) (q_created_at q) t cluster)
  end.

(** [jobs_kubernetes_cluster_fk .. ON DELETE RESTRICT] *)
Definition cluster_in_use (tenantID id : string) (s : db) : bool :=
  sql_exists (λ j, (j_tenant_id j ==s tenantID) && bool_decide (j_kubernetes_cluster_id j = Some id))
             (jobs s).

Definition DeleteKubernetesCluster (tenantID id : string) (version : Z) : tx unit :=
  s ← get;
  let p q := tenant_cluster tenantID id q && (q_version q =? version) in
  if negb (sql_exists p (kubernetes_clusters s)) then fail ErrConflict
  else if cluster_in_use tenantID id s then fail ErrKubernetesClusterInUse
  else modify (λ s, set_kubernetes_clusters (sql_delete p (kubernetes_clusters s)) s).
End clusters.
End Clusters.
