(* ===== verification/Cryptox.v ===== *)
(** * Encryption at rest

    The key ring of [internal/cryptox/aesgcm.go] and the round trip of the
    secrets the store seals with it: the headers and registry credentials of a
    job, and the credentials of a Kubernetes cluster.  AES-GCM itself is a
    parameter ([Aead]). *)
From Stdlib Require Import ZArith Lia Ascii String Sorted.
From stdpp Require Import base list strings.
From S2P Require Import Prelude GoStrings GoUrl Utf8 Base64 Tables Executors RunStore JobStore Clusters.

(** [cipher.AEAD] of AES-GCM under a key: [Seal] and [Open] without additional
    data. *)
Class Aead := {
  aead_seal : string → string → string → string;          (* key, nonce, plain text *)
  aead_open : string → string → string → option string;   (* key, nonce, ciphertext *)
}.
Class AeadLaws `{Aead} : Prop := {
  aead_open_seal : ∀ key nonce plain, aead_open key nonce (aead_seal key nonce plain) = Some plain;
}.

(** A map of headers, by increasing name. *)
Definition header_map (h : list (string * string)) : Prop :=
  StronglySorted (λ a b, String.ltb a.1 b.1 = true) h ∧
  Forall (λ kv, Utf8.valid_utf8 kv.1 ∧ Utf8.valid_utf8 kv.2) h.

(** Decoding undoes encoding for texts JSON can carry. *)
Class CodecLaws `{JobCodec} `{CredentialCodec} : Prop := {
  unmarshal_marshal_headers : ∀ h, header_map h → unmarshal_headers (marshal_headers h) = Ok h;
  unmarshal_marshal_auth : ∀ a,
    Utf8.valid_utf8 (Server a) → Utf8.valid_utf8 (Username a) → Utf8.valid_utf8 (Password a) →
    unmarshal_auth (marshal_auth a) = Ok a;
  unmarshal_marshal_credentials : ∀ c,
    Utf8.valid_utf8 (Kubeconfig c) → Utf8.valid_utf8 (kc_Token c) → Utf8.valid_utf8 (CAData c) →
    unmarshal_credentials (marshal_credentials c) = Ok c;
}.

Module Cryptox.
Import Utf8 Base64 Executors JobStore Clusters.

(** ** The key ring *)

Record Keyring := mk_keyring { kr_version : Z; kr_key : string }.

Definition nonce_size : nat := 12.

(** [aes.NewCipher] takes keys of 16, 24 or 32 bytes. *)
Definition NewKeyring (version : Z) (encodedKey : string) : result Keyring :=
  match DecodeString encodedKey with
  | None => Err (ErrMsg "decode master key")
  | Some raw =>
      if existsb (Nat.eqb (String.length raw)) [16; 24; 32]%nat then
        if version <? 1 then Err (ErrMsg "key version must be positive")
        else Ok (mk_keyring version raw)
      else Err (ErrMsg "create AES cipher")
  end.

Section keyring.
Context `{Aead}.

(** [Encrypt] with the nonce it drew: the nonce goes before the sealed text. *)
Definition Keyring_Encrypt (k : Keyring) (nonce plain : string) : result (string * Z) :=
  Ok (nonce +:+ aead_seal (kr_key k) nonce plain, kr_version k).

Definition Keyring_Decrypt (k : Keyring) (ciphertext : string) (version : Z) : result string :=
  if negb (version =? kr_version k) then Err (ErrMsg "unsupported key version")
  else if Nat.ltb (String.length ciphertext) nonce_size then Err (ErrMsg "ciphertext is too short")
  else
    match aead_open (kr_key k) (str_take nonce_size ciphertext) (str_drop nonce_size ciphertext) with
    | Some plain => Ok plain
    | None => Err (ErrMsg "decrypt")
    end.

(** The cipher the store is given. *)
Definition keyring_cipher (k : Keyring) (nonce : string) : HeaderCipher :=
  mk_cipher (Keyring_Encrypt k nonce) (Keyring_Decrypt k).
End keyring.

(** ** Round trips *)

Lemma str_take_app x y : str_take (String.length x) (x +:+ y) = x.
Proof. induction x as [|c x IH]; [by destruct y|]. rewrite app_cons. cbn. by rewrite IH. Qed.
Lemma str_drop_app x y : str_drop (String.length x) (x +:+ y) = y.
Proof. induction x as [|c x IH]; [by destruct y|]. rewrite app_cons. cbn. apply IH. Qed.

Section round_trip.
Context `{AeadLaws}.

Lemma keyring_round_trip k nonce plain ciphertext version :
  String.length nonce = nonce_size → Keyring_Encrypt k nonce plain = Ok (ciphertext, version) →
  Keyring_Decrypt k ciphertext version = Ok plain ∧ present (Some ciphertext) = Some ciphertext.
Proof.
  unfold Keyring_Encrypt, Keyring_Decrypt, present. intros Hn [= <- <-].
  assert (Hl : (nonce_size ≤ String.length (nonce +:+ aead_seal (kr_key k) nonce plain))%nat)
    by (rewrite length_app_string; lia).
  split.
  - rewrite Z.eqb_refl. cbn [negb]. rewrite (proj2 (Nat.ltb_ge _ _) Hl).
    rewrite <- Hn, str_take_app, str_drop_app. by rewrite aead_open_seal.
  - destruct (_ ==s "") eqn:E; [|done]. apply String.eqb_eq in E. rewrite E in Hl. cbn in Hl.
    unfold nonce_size in Hl. lia.
Qed.

Context `{CodecLaws} (k : Keyring) (nonce : string).
Context (Hnonce : String.length nonce = nonce_size).
Context (Hcipher : headerCipher = Some (keyring_cipher k nonce)).

Definition readable_auth (a : DockerRegistryAuth) : Prop :=
  valid_utf8 (Server a) ∧ valid_utf8 (Username a) ∧ valid_utf8 (Password a).

Lemma seal_job_round_trip j z :
  header_map (Headers j) → readable_auth (RegistryAuth j) → seal_job j = Ok z →
  decrypt_headers z = Ok (Headers j) ∧
  decryptDockerRegistryAuth z = Ok (if Configured (RegistryAuth j) then RegistryAuth j else no_auth).
Proof.
  intros Hh (Ha1 & Ha2 & Ha3). unfold seal_job, encryptDockerRegistryAuth. rewrite Hcipher.
  cbn [Encrypt keyring_cipher mbind result_bind].
  destruct (Keyring_Encrypt k nonce (marshal_headers (Headers j))) as [[c1 v1]|] eqn:E1; [|done].
  destruct (keyring_round_trip _ _ _ _ _ Hnonce E1) as [D1 P1]. cbn [mbind result_bind].
  destruct (Configured (RegistryAuth j)) eqn:Ec; cbn [negb].
  - destruct (_ || _); [done|].
    destruct (Keyring_Encrypt k nonce (marshal_auth (RegistryAuth j))) as [[c2 v2]|] eqn:E2; [|done].
    destruct (keyring_round_trip _ _ _ _ _ Hnonce E2) as [D2 P2]. cbn. intros [= <-].
    unfold decrypt_headers, decryptDockerRegistryAuth, decrypt_with. cbn [z_encrypted_headers
      z_encryption_key_version z_encrypted_docker_registry_auth z_docker_registry_auth_key_version].
    rewrite P1, P2, Hcipher. cbn. rewrite D1, D2. cbn.
    rewrite unmarshal_marshal_headers, unmarshal_marshal_auth by done. cbn.
    destruct (RegistryAuth j); cbn in *; by subst.
  - cbn. intros [= <-]. unfold decrypt_headers, decryptDockerRegistryAuth, decrypt_with.
    cbn [z_encrypted_headers z_encryption_key_version z_encrypted_docker_registry_auth].
    rewrite P1, Hcipher. cbn. rewrite D1. cbn. by rewrite unmarshal_marshal_headers.
Qed.

Definition same_jobs (s s' : db) : Prop := jobs s' = jobs s.
#[local] Instance same_jobs_preorder : PreOrder same_jobs.
Proof. split; [done|]. unfold same_jobs. intros s s1 s2. congruence. Qed.

Lemma select_added {A} (p : A → bool) l x :
  (∀ y, y ∈ l → p y = false) → p x = true → sql_select p (l ++ [x]) = [x].
Proof.
  intros Hl Hx. unfold sql_select. rewrite List.filter_app. cbn. rewrite Hx.
  by rewrite (filter_none p l).
Qed.

Context `{Host} `{ScheduleCalc} `{IPLiterals}.

Lemma same_jobs_new_uuid : preserves same_jobs new_uuid.
Proof. by intros e s. Qed.
Hint Resolve same_jobs_new_uuid : preserves.

Lemma wp_CreateJob_secrets j e s :
  header_map (Headers j) → readable_auth (RegistryAuth j) →
  wp (CreateJob j) (λ j' s', ∃ j'', GetJob (Job_TenantID j) (Job_ID j') s' = Ok j'' ∧
    Headers j'' = Headers j ∧
    RegistryAuth j'' = (if Configured (RegistryAuth j) then RegistryAuth j else no_auth) ∧
    Job_Conf j'' = stored_conf (with_defaults (Job_Conf j))) e s.
Proof.
  intros Hh Ha. unfold CreateJob. cbv zeta.
  do 3 (apply wp_bind, wp_any; intros ? ?).
  apply wp_bind, wp_lift. intros z Hz. destruct (seal_job_round_trip j z Hh Ha Hz) as [Dh Da].
  apply wp_bind, wp_now, wp_bind, wp_get.
  set (row := mk_job _ _ _ _ _ _ _ _ _ _). destruct (_ || _) eqn:Ec; [done|].
  apply orb_false_iff in Ec as [_ Hfresh]. rewrite sql_exists_false in Hfresh.
  apply wp_bind, wp_modify.
  match goal with |- wp (?m ≫= _) _ _ _ => assert (Hq : preserves same_jobs m) end.
  { unfold insertJobScriptVersion. preserve. }
  apply wp_bind, (preserves_wp same_jobs _ _ _ _ Hq). intros _ s3 E3. apply wp_bind.
  apply (preserves_wp same_jobs).
  { unfold replaceJobExecutorLabels, insert_label. preserve; by apply preserves_modify. }
  intros _ s4 E4. apply wp_ret. unfold same_jobs in *. unfold GetJob. rewrite E4, E3. cbn [jobs set_jobs].
  rewrite select_added.
  - unfold scanJob. cbn [j_sealed row]. rewrite Dh, Da. cbn. eauto.
  - intros y Hy. specialize (Hfresh y Hy). unfold tenant_job. cbn. rewrite Hfresh. apply andb_false_r.
  - unfold tenant_job. cbn. by rewrite !String.eqb_refl.
Qed.

Lemma wp_CreateKubernetesCluster_secrets c e s :
  valid_utf8 (Kubeconfig (kc_Credentials c)) → valid_utf8 (kc_Token (kc_Credentials c)) →
  valid_utf8 (CAData (kc_Credentials c)) →
  wp (CreateKubernetesCluster c) (λ c' s', ∀ e',
    GetKubernetesCluster (kc_TenantID c) (kc_ID c') e' s' =
      Ok (mk_kcluster (kc_ID c') (kc_TenantID c) (TrimSpace (kc_Name c)) (AuthMode c)
            (TrimSpace (APIServer c)) (TrimSpace (Namespace c)) (kc_Credentials c)
            (InsecureSkipTLSVerify c) (MaxConcurrentJobs (default_capacity c)) 1 (tx_now e)
            (tx_now e), s')) e s.
Proof.
  intros V1 V2 V3. unfold CreateKubernetesCluster. cbv zeta.
  do 2 (apply wp_bind, wp_any; intros ? ?). apply wp_bind, wp_lift. intros [encrypted version] Hz.
  unfold seal_credentials in Hz. rewrite Hcipher in Hz.
  apply wp_bind, wp_get, wp_bind, wp_now. destruct (_ || _) eqn:Ec; [done|].
  apply orb_false_iff in Ec as [_ Hfresh]. rewrite sql_exists_false in Hfresh.
  apply wp_bind, wp_modify, wp_ret. intros e'. unfold GetKubernetesCluster, mbind, tx_bind. cbn.
  assert (Ed : kc_Credentials (default_capacity c) = kc_Credentials c ∧
    kc_TenantID (default_capacity c) = kc_TenantID c ∧ kc_Name (default_capacity c) = kc_Name c ∧
    AuthMode (default_capacity c) = AuthMode c ∧ APIServer (default_capacity c) = APIServer c ∧
    Namespace (default_capacity c) = Namespace c ∧
    InsecureSkipTLSVerify (default_capacity c) = InsecureSkipTLSVerify c)
    by (unfold default_capacity; by destruct (_ =? 0)).
  destruct Ed as (Ecr & Et & En & Em & Ea & Es & Ei). cbn in Hz. rewrite Ecr in Hz.
  destruct (keyring_round_trip _ _ _ _ _ Hnonce Hz) as [D _].
  rewrite select_added.
  - unfold scanKubernetesCluster. rewrite Hcipher. cbn. rewrite D. cbn.
    rewrite unmarshal_marshal_credentials by done. cbn. unfold lift. cbn.
    by rewrite Et, En, Em, Ea, Es, Ei.
  - intros y Hy. specialize (Hfresh y Hy). unfold tenant_cluster. cbn in *. rewrite Hfresh.
    apply andb_false_r.
  - unfold tenant_cluster. cbn. by rewrite Et, !String.eqb_refl.
Qed.

(** C33: secrets survive encryption at rest.  The headers and registry
    credentials of a job, and the credentials of a Kubernetes cluster, are read
    back as they were given once they were stored under a key ring; the
    configuration of the job is the one given, with its defaults filled in. *)
Theorem secrets_round_trip :
  (∀ j j' e s s', header_map (Headers j) → readable_auth (RegistryAuth j) →
     CreateJob j e s = Ok (j', s') →
     ∃ j'', GetJob (Job_TenantID j) (Job_ID j') s' = Ok j'' ∧ Headers j'' = Headers j ∧
       RegistryAuth j'' = (if Configured (RegistryAuth j) then RegistryAuth j else no_auth) ∧
       Job_Conf j'' = stored_conf (with_defaults (Job_Conf j))) ∧
  (∀ c c' e s s', valid_utf8 (Kubeconfig (kc_Credentials c)) →
     valid_utf8 (kc_Token (kc_Credentials c)) → valid_utf8 (CAData (kc_Credentials c)) →
     CreateKubernetesCluster c e s = Ok (c', s') →
     ∃ c'', GetKubernetesCluster (kc_TenantID c) (kc_ID c') e s' = Ok (c'', s') ∧
       kc_Credentials c'' = kc_Credentials c).
Proof.
  split.
  - intros j j' e s s' Hh Ha E. pose proof (wp_CreateJob_secrets j e s Hh Ha) as W.
    unfold wp in W. by rewrite E in W.
  - intros c c' e s s' V1 V2 V3 E.
    pose proof (wp_CreateKubernetesCluster_secrets c e s V1 V2 V3) as W.
    unfold wp in W. rewrite E in W. rewrite W. eauto.
Qed.

End round_trip.

Example key_example :
  match NewKeyring 3 "BwcHBwcHBwcHBwcHBwcHBwcHBwcHBwcHBwcHBwcHBwc=" with
  | Ok k => Nat.eqb (String.length (kr_key k)) 32
  | Err _ => false
  end = true ∧ EncodeToString "any carnal pleas" = "YW55IGNhcm5hbCBwbGVhcw".
Proof. vm_compute. done. Qed.
End Cryptox.
