(* ===== verification/Samples.v ===== *)
(** * Sample data

    A host, a digest, a codec and a schedule calculator to evaluate the model
    with, and a small database: a tenant with a fixed-delay job, a cron job and
    a job on an executor group. *)
From Stdlib Require Import ZArith Lia Ascii String Sorted.
From stdpp Require Import base list strings.
From S2P Require Import Prelude GoStrings GoUrl GoTime Quartz Calculator Tables Executors RunStore Scheduling JobStore Clusters Routing.

Module Samples.
Import Executors RunStore JobStore.

(** Identifiers are unary numbers; each reading of the clock is five minutes after the last. *)
Fixpoint tally (n : nat) : string :=
  match n with O => "u" | S n => String "u" (tally n) end.

Lemma tally_inj n m : tally n = tally m → n = m.
Proof.
  revert m. induction n as [|n IH]; intros [|m]; cbn; [done| | |].
  - intros E. by destruct m.
  - intros E. by destruct n.
  - intros E. f_equal. apply IH. congruence.
Qed.

Definition start : time := Date 2024 1 31 12 0 0 0 UTC.

#[export] Instance sample_host : Host := {|
  uuid := tally;
  wall_clock := λ n, start + Z.of_nat n * 5 * minute;
|}.

#[export] Instance sample_host_laws : HostLaws.
Proof. split; [intros n m; apply tally_inj|by intros []]. Qed.

#[export] Instance sample_digest : Digest := {| sha256_hex8 := λ s, substring 0 8 s |}.

#[export] Instance sample_codec : JobCodec := {|
  headerCipher := Some (mk_cipher (λ s, Ok (s, 1)) (λ s _, Ok s));
  marshal_headers := λ h, match h with [] => "{}" | _ => "{..}" end;
  unmarshal_headers := λ s, if s ==s "{}" then Ok [] else Err (ErrMsg "headers");
  marshal_auth := λ _, "{}";
  unmarshal_auth := λ _, Err (ErrMsg "auth");
|}.

#[export] Instance sample_credentials : CredentialCodec := {|
  marshal_credentials := λ _, "{}";
  unmarshal_credentials := λ _, Err (ErrMsg "credentials");
|}.
#[export] Instance sample_literals : IPLiterals := λ _, false.

(** A cron library that fires on every full minute, and no zone files. *)
#[export] Instance sample_cron : CronLib := {|
  cron_schedule := unit;
  cron_parse := λ _, Some tt;
  cron_next := λ _ _ t, (t / minute + 1) * minute;
|}.

#[export] Instance sample_cron_laws : CronLaws.
Proof.
  constructor. intros s loc t. right. cbn. unfold minute, second.
  Z.to_euclidean_division_equations. lia.
Qed.

#[export] Instance sample_zones : TZData := {| tz_file := λ _, None; tz_local := UTC |}.

#[export] Instance sample_schedule : ScheduleCalc := Scheduling.calculator_schedule.

Definition no_secrets : sealed_columns :=
  {| z_headers := "{}"; z_encrypted_headers := None; z_encryption_key_version := None;
     z_encrypted_docker_registry_auth := None; z_docker_registry_auth_key_version := None |}.

Definition conf (name kind expression overlap : string) (retries limit : Z)
    (group : option string) : job_conf :=
  {| c_name := name; c_description := ""; c_schedule_type := kind;
     c_schedule_expression := expression; c_timezone := "UTC";
     c_target_url := "http://example"; c_http_method := "POST"; c_body_template := "";
     c_timeout_seconds := 30; c_max_retries := retries; c_overlap_policy := overlap;
     c_misfire_policy := "fire_once"; c_max_concurrent_runs := limit; c_max_catch_up := 10;
     c_callback_timeout_seconds := 60; c_max_queue_size := 0; c_executor_group_id := group;
     c_executor_handler := ""; c_script_language := ""; c_script_source := "";
     c_kubernetes_cluster_id := None |}.

Definition job (id : string) (c : job_conf) (next : option time) : job_row :=
  {| j_id := id; j_tenant_id := "t"; j_conf := c; j_sealed := no_secrets; j_enabled := true;
     j_next_run_at := next; j_last_run_at := None; j_version := 1;
     j_created_at := start; j_updated_at := start |}.

Definition delay_job : job_row :=
  job "delay" (conf "delay" "fixed_delay" "60" "parallel" 1 1 None) (Some start).
Definition cron_job : job_row :=
  job "cron" (conf "cron" "cron" "0 * * * * ?" "parallel" 0 2 None) (Some start).
Definition quiet_job : job_row :=
  job "quiet" (conf "quiet" "cron" "0 * * * * ?" "parallel" 2 2 None) None.

Definition empty_db : db :=
  mk_db [] [] [] [] [] [] [] [] [] [] [] [] [] [] [] [] 0 [] 0 0 (mk_notify [] [] []).

Definition sample_db (js : list job_row) : db :=
  mk_db [mk_tenant "t" "tenant" 2] js [] [] [] [] [] [] [] [] [] [] [] [] [] [] 0 [] 0 0 (mk_notify [] [] []).

(** A transaction [ms] milliseconds after the start that meets no locks. *)
Definition at_ms (ms : Z) : env := mk_env (start + ms * millisecond) (λ _, false).

Definition no_run : run_row :=
  new_run (mk_info "" "" "" Schedule 0 0 0 "" None None None "" None None None false [])
    Pending None None None None.

Lemma nth_elem {A} n (l : list A) d : Nat.ltb n (length l) = true → nth n l d ∈ l.
Proof.
  intros Hn%Nat.ltb_lt. apply list_elem_of_In. by apply nth_In.
Qed.

(** ** Routing *)

#[export] Instance sample_sort : SliceSort :=
  {| sort_Slice := λ A less, sort_by (λ a b, negb (less b a)) |}.

Lemma sorted_impl {A} (R Q : A → A → Prop) l :
  (∀ a b, R a b → Q a b) → StronglySorted R l → StronglySorted Q l.
Proof.
  intros HRQ. induction 1 as [|x l _ IH Hx]; constructor; [done|].
  eapply Forall_impl; [exact Hx|]. auto.
Qed.

#[export] Instance sample_sort_laws : SliceSortLaws.
Proof.
  split; cbn; [intros; apply sort_by_Permutation|]. intros A less l (Hirr & Htr & Hneg).
  eapply sorted_impl; [|apply sort_by_sorted].
  - intros a b Hab. by apply negb_true_iff.
  - intros x y. rewrite !negb_true_iff. destruct (less y x) eqn:E1, (less x y) eqn:E2; auto.
    pose proof (Htr x y x E2 E1). specialize (Hirr x). congruence.
  - intros x y z. rewrite !negb_true_iff. intros H1 H2. by eapply Hneg.
Qed.

(** An injective hash: the text as a number. *)
Fixpoint text_number (s : string) : Z :=
  match s with
  | EmptyString => 0
  | String c s => Z.of_nat (nat_of_ascii c) + 1 + 257 * text_number s
  end.

Lemma text_number_pos s : 0 ≤ text_number s.
Proof. induction s as [|c s IH]; cbn -[Z.mul]; lia. Qed.

Lemma text_number_inj s t : text_number s = text_number t → s = t.
Proof.
  revert t. induction s as [|c s IH]; intros [|d t]; cbn -[Z.mul Z.of_nat]; [done| | |].
  - pose proof (text_number_pos t). lia.
  - pose proof (text_number_pos s). lia.
  - intros E. pose proof (nat_ascii_bounded c). pose proof (nat_ascii_bounded d).
    assert (Z.of_nat (nat_of_ascii c) = Z.of_nat (nat_of_ascii d)) as Ec by lia.
    f_equal; [|apply IH; lia]. rewrite <- (ascii_nat_embedding c), <- (ascii_nat_embedding d).
    f_equal. lia.
Qed.

#[export] Instance sample_hash : RouteHash := {| md5_prefix := text_number |}.
End Samples.
