(* ===== verification/SecretScenario.v ===== *)
(** * A job with secrets

    Key ring, ciphers and encodings to evaluate the model with, and a job whose
    headers and registry credentials are stored and read back. *)
From Stdlib Require Import ZArith Lia Ascii String Sorted.
From stdpp Require Import base list strings countable.
From S2P Require Import Prelude GoStrings GoUrl Utf8 Tables Executors RunStore Scheduling JobStore Clusters Cryptox Samples.

Module SecretScenario.
Import Utf8 JobStore Clusters Cryptox Samples.

(** Any countable type as a text of binary digits. *)
Fixpoint pos_text (p : positive) : string :=
  match p with
  | xH => ""
  | xO p => String "0" (pos_text p)
  | xI p => String "1" (pos_text p)
  end.
Fixpoint text_pos (s : string) : positive :=
  match s with
  | EmptyString => xH
  | String c s => if Ascii.eqb c "0" then xO (text_pos s) else xI (text_pos s)
  end.
Lemma text_pos_text p : text_pos (pos_text p) = p.
Proof. induction p as [p IH|p IH|]; cbn; [by rewrite IH|by rewrite IH|done]. Qed.

Definition to_text {A} `{Countable A} (a : A) : string := pos_text (encode a).
Definition of_text {A} `{Countable A} (s : string) : result A :=
  match decode (text_pos s) with Some a => Ok a | None => Err (ErrMsg "json") end.
Lemma of_to_text {A} `{Countable A} (a : A) : of_text (to_text a) = Ok a.
Proof. unfold of_text, to_text. by rewrite text_pos_text, decode_encode. Qed.

#[local] Instance plain_aead : Aead :=
  {| aead_seal := λ _ _ plain, plain; aead_open := λ _ _ text, Some text |}.
#[local] Instance plain_aead_laws : AeadLaws.
Proof. by split. Qed.

Definition ring : Keyring :=
  match NewKeyring 3 "BwcHBwcHBwcHBwcHBwcHBw==" with Ok k => k | Err _ => mk_keyring 0 "" end.
Definition nonce : string := "twelve bytes".

#[local] Instance secret_codec : JobCodec := {|
  headerCipher := Some (keyring_cipher ring nonce);
  marshal_headers := to_text;
  unmarshal_headers := of_text;
  marshal_auth := λ a, to_text (Server a, Username a, Password a, Configured a);
  unmarshal_auth := λ s,
    '(server, username, password, configured) ← of_text s;
    Ok (mk_auth server username password configured);
|}.
#[local] Instance secret_credentials : CredentialCodec := {|
  marshal_credentials := λ c, to_text (Kubeconfig c, kc_Token c, CAData c);
  unmarshal_credentials := λ s,
    '(kubeconfig, token, ca) ← of_text s; Ok (mk_credentials kubeconfig token ca);
|}.
#[local] Instance secret_laws : CodecLaws.
Proof.
  split.
  - intros h _. apply of_to_text.
  - intros a _ _ _. cbn. rewrite of_to_text. by destruct a.
  - intros c _ _ _. cbn. rewrite of_to_text. by destruct c.
Qed.

Definition secret_job : Job :=
  mk_Job "" "t" (conf "secret" "fixed_delay" "60" "parallel" 1 1 None) [] []
    [("Accept", "a"); ("X-Key", "k")] (mk_auth "hub" "u" "p" true) true None 0.

Definition ascii_text (s : string) : bool := forall_char (in_range 0 127) s.
Lemma ascii_valid s : ascii_text s = true → valid_utf8 s.
Proof.
  unfold ascii_text. induction s as [|c s IH]; cbn; [constructor|].
  intros [Hc Hs]%andb_true_iff. apply (valid_rune 0); [|by apply IH].
  destruct s as [|? [|? [|? ?]]]; cbn; by rewrite Hc.
Qed.

Definition stored_job : Job * db :=
  match CreateJob secret_job (at_ms 0) (sample_db []) with
  | Ok r => r
  | Err _ => (secret_job, empty_db)
  end.

Lemma secrets_round_trip_witness :
  ∃ j, GetJob "t" (Job_ID stored_job.1) stored_job.2 = Ok j ∧
    Headers j = [("Accept", "a"); ("X-Key", "k")] ∧
    RegistryAuth j = mk_auth "hub" "u" "p" true ∧
    Job_Conf j = stored_conf (with_defaults (Job_Conf secret_job)).
Proof.
  refine (proj1 (secrets_round_trip ring nonce eq_refl eq_refl) secret_job stored_job.1 (at_ms 0)
            (sample_db []) stored_job.2 _ _ _).
  - split; [|by repeat constructor; apply ascii_valid]. by repeat constructor.
  - split_and!; by apply ascii_valid.
  - vm_compute. reflexivity.
Defined.
End SecretScenario.
