(* ===== verification/Scheduler.v ===== *)
(** * Scheduling: enqueueing due jobs and claiming runs

    [internal/store/scheduler.go]: [EnqueueDue] turns due jobs into runs and
    moves their next run time; [ClaimRuns] hands runs to a worker under a lease,
    within the concurrency limits of jobs, tenants and clusters. *)
From Stdlib Require Import ZArith Lia Ascii String Sorted.
From stdpp Require Import base list strings.
From S2P Require Import Prelude GoStrings Tables Executors RunStore JobStore.

Module Scheduler.
Import Executors RunStore JobStore.

(** ** [EnqueueDue] *)

(** The statements queued for the batch that ends the transaction. *)
Inductive batch_item :=
| QueueInsert (r : run_row)
| QueueEvent (runID id : string)
| QueueUpdate (jobID : string) (next : option time).

(** [SELECT .. WHERE enabled AND next_run_at<=now() ORDER BY next_run_at
    FOR UPDATE SKIP LOCKED LIMIT $1] *)
Definition due_at (t : time) (j : job_row) : bool :=
  j_enabled j && match j_next_run_at j with Some n => n <=? t | None => false end.

Definition due_jobs (t : time) (locks : string → bool) (batch : nat) (s : db) : list job_row :=
  take batch
    (List.filter (λ j, negb (locks (j_id j)))
       (sort_by (λ a b, default 0 (j_next_run_at a) <=? default 0 (j_next_run_at b))
          (sql_select (due_at t) (jobs s)))).

(** [UPDATE jobs SET last_run_at=next_run_at,next_run_at=$2,enabled=CASE ..] *)
Definition advance_job (next : option time) (t : time) (j : job_row) : job_row :=
  {| j_id := j_id j; j_tenant_id := j_tenant_id j; j_conf := j_conf j; j_sealed := j_sealed j;
     j_enabled := if bool_decide (next = None) && (j_schedule_type j ==s "once")
                  then false else j_enabled j;
     j_next_run_at := next; j_last_run_at := j_next_run_at j; j_version := j_version j;
     j_created_at := j_created_at j; j_updated_at := t |}.

Definition update_next (jobID : string) (next : option time) : tx unit :=
  t ← now;
  modify (λ s, set_jobs (sql_update (λ j, j_id j ==s jobID) (advance_job next t) (jobs s)) s).

(** [executorRouteStrategies]: the strategy of every group the jobs name, or
    an error when a group is missing; jobs without a group have none. *)
Definition route_strategies (js : list job_row) (s : db) : result (list (string * string)) :=
  let ids := remove_dups (List.filter (λ g, negb (g ==s ""))
               (map (λ j, coalesce (j_executor_group_id j) "") js)) in
  let rows := sql_select (λ g, one_of (g_id g) ids) (executor_groups s) in
  if Nat.eqb (length (remove_dups (map g_id rows))) (length ids)
  then Ok (map (λ g, (g_id g, g_route_strategy g)) rows)
  else Err ErrNotFound.

Definition strategy_of (strategies : list (string * string)) (group : string) : string :=
  match List.find (λ x, x.1 ==s group) strategies with Some x => x.2 | None => "" end.

Section scheduler.
Context `{Host} `{ScheduleCalc} `{Digest} `{JobCodec}.

Definition schedule_info (j : job_row) (scheduledAt available : time) (group : option string)
    (id : string) (shard : option BroadcastShard) : run_info :=
  mk_info id (j_tenant_id j) (j_id j) Schedule 1 scheduledAt available "" None None None id
    group (sh_Index <$> shard) (sh_Total <$> shard) (is_fixed_delay j) [].

(** One occurrence on the fast path: queued for the final batch. *)
Definition enqueue_fast (j : job_row) (scheduledAt : time) : tx (list batch_item) :=
  runID ← new_uuid;
  eventID ← new_uuid;
  t ← now;
  mret [QueueInsert (new_run (schedule_info j scheduledAt t None runID None)
                       Pending None None None None);
        QueueEvent runID eventID].

Definition skip_message : string := "block strategy: discard later or queue full".

(** One run of the occurrence, pending or skipped; a skipped fixed-delay job
    gets its next time from now. *)
Definition enqueue_one (j : job_row) (scheduledAt wall : time) (status : run_status)
    (next : time) : tx time :=
  runID ← new_uuid;
  t ← now;
  _ ← insert_run (new_run (schedule_info j scheduledAt t None runID None) status
        (skipped_at status t) (if status =st Skipped then Some skip_message else None) None None);
  _ ← emitRunLifecycleEventTx runID status;
  if is_fixed_delay j && (status =st Skipped)
  then lift (sched_Next (j_schedule_type j) (j_schedule_expression j) (j_timezone j) wall)
  else mret next.

(** One occurrence on the slow path; the value is the variable [next]. *)
Definition enqueue_slow (j : job_row) (strategy : string) (wall : time) (scheduledAt : time)
    (next : time) : tx time :=
  s ← get;
  t ← now;
  let queued := count_pending (j_id j) s in
  let hasActive := sql_exists (active_of_job (j_id j)) (job_runs s) in
  action ← applyBlockAction (j_id j) (decideBlockAction (j_overlap_policy j) hasActive);
  let skip := bool_decide (action = blockSkip)
              || (bool_decide (action = blockEnqueue) && (j_max_queue_size j <=? queued)) in
  if skip then enqueue_one j scheduledAt wall Skipped next
  else if strategy ==s "sharding_broadcast" then
    nodes ← broadcast_nodes (coalesce (j_executor_group_id j) "") (j_id j);
    let shards := planBroadcastShards nodes in
    if Nat.eqb (length shards) 0 then fail (ErrMsg "no live executor nodes for broadcast job")
    else if bool_decide (action = blockEnqueue)
            && (j_max_queue_size j <? queued + Z.of_nat (length shards))
    then enqueue_one j scheduledAt wall Skipped next
    else
      groupID ← new_uuid;
      _ ← insert_shards None 0
            (λ id _ shard, schedule_info j scheduledAt t (Some groupID) id (Some shard)) shards;
      mret next
  else enqueue_one j scheduledAt wall Pending next.

(** The loop over the due occurrences of a job. *)
Fixpoint enqueue_occurrences (j : job_row) (strategy : string) (fast : bool) (wall : time)
    (due : list time) (next : time) : tx (time * list batch_item) :=
  match due with
  | [] => mret (next, [])
  | scheduledAt :: rest =>
      '(next, items) ←
        (if fast then items ← enqueue_fast j scheduledAt; mret (next, items)
         else next ← enqueue_slow j strategy wall scheduledAt next; mret (next, []));
      '(next, later) ← enqueue_occurrences j strategy fast wall rest next;
      mret (next, items ++ later)
  end.

Definition zero_to_null (t : time) : option time := if IsZero t then None else Some t.

Definition enqueue_job (strategies : list (string * string)) (j : job_row)
    : tx (list batch_item) :=
  match j_next_run_at j with
  | None => mret []
  | Some firstDue =>
      wall ← time_now;
      '(due, next) ← lift (sched_Due (j_schedule_type j) (j_schedule_expression j)
                             (j_timezone j) (c_misfire_policy (j_conf j)) firstDue wall
                             (c_max_catch_up (j_conf j)));
      let strategy := strategy_of strategies (coalesce (j_executor_group_id j) "") in
      let fast := (j_overlap_policy j ==s "parallel") && (strategy !=s "sharding_broadcast") in
      '(next, items) ← enqueue_occurrences j strategy fast wall due next;
      if fast then mret (items ++ [QueueUpdate (j_id j) (zero_to_null next)])
      else _ ← update_next (j_id j) (zero_to_null next); mret items
  end.

Definition run_item (item : batch_item) : tx unit :=
  match item with
  | QueueInsert r => insert_run r
  | QueueEvent runID id => exec_run_event runID Pending (status_text Pending) id
  | QueueUpdate jobID next => update_next jobID next
  end.

Fixpoint enqueue_jobs (strategies : list (string * string)) (js : list job_row)
    : tx (list batch_item) :=
  match js with
  | [] => mret []
  | j :: rest =>
      items ← enqueue_job strategies j;
      later ← enqueue_jobs strategies rest;
      mret (items ++ later)
  end.

(** [scanJob] of every row: a row that cannot be decoded fails the batch. *)
Fixpoint scan_all (js : list job_row) : result unit :=
  match js with
  | [] => Ok tt
  | j :: rest => _ ← scanJob j; scan_all rest
  end.

Definition EnqueueDue (batch : nat) : tx unit :=
  t ← now;
  locks ← locked;
  s ← get;
  let js := due_jobs t locks batch s in
  _ ← lift (scan_all js);
  strategies ← lift (route_strategies js s);
  items ← enqueue_jobs strategies js;
  for_each items run_item.

(** ** [ClaimRuns] *)

(** A run with its job and tenant, as the candidate query joins them. *)
Record candidate := mk_candidate {
  cd_run : run_row; cd_job : job_row; cd_tenant : tenant_row;
}.

(** The CTE [active]: leased runs and runs that wait for a callback. *)
Definition holds_slot (t : time) (r : run_row) : bool :=
  match r_status r with
  | Running => match r_lease_until r with Some u => t <=? u | None => false end
  | WaitingCallback => true
  | _ => false
  end.

(** Runs to claim: pending and available, or running with an expired lease. *)
Definition claimable (t : time) (r : run_row) : bool :=
  match r_status r with
  | Pending => r_available_at r <=? t
  | Running => match r_lease_until r with Some u => u <? t | None => false end
  | _ => false
  end.

Definition candidates (t : time) (s : db) : list candidate :=
  flat_map (λ r, match job_of_run r s,
                       head (sql_select (λ x, t_id x ==s r_tenant_id r) (tenants s)) with
                 | Some j, Some tn => [mk_candidate r j tn]
                 | _, _ => []
                 end)
    (sql_select (claimable t) (job_runs s)).

(** [ORDER BY available_at,id] *)
Definition claim_order (a b : run_row) : bool :=
  (r_available_at a <? r_available_at b)
  || ((r_available_at a =? r_available_at b) && String.leb (r_id a) (r_id b)).

(** [row_number() OVER (PARTITION BY .. ORDER BY available_at,id)] *)
Definition rank_in (same : candidate → bool) (c : candidate) (cs : list candidate) : Z :=
  Z.of_nat (sql_count (λ x, same x && claim_order (cd_run x) (cd_run c)) cs).

Definition job_active (t : time) (jobID : string) (s : db) : Z :=
  Z.of_nat (sql_count (λ r, holds_slot t r && (r_job_id r ==s jobID)) (job_runs s)).
Definition tenant_active (t : time) (tenantID : string) (s : db) : Z :=
  Z.of_nat (sql_count (λ r, holds_slot t r && (r_tenant_id r ==s tenantID)) (job_runs s)).

(** The cluster of the job of a run. *)
Definition run_cluster (r : run_row) (s : db) : option string :=
  job_of_run r s ≫= j_kubernetes_cluster_id.
Definition cluster_active (t : time) (cluster : string) (s : db) : Z :=
  Z.of_nat (sql_count (λ r, holds_slot t r && bool_decide (run_cluster r s = Some cluster))
                      (job_runs s)).
Definition cluster_max (cluster : string) (s : db) : Z :=
  match sql_select (λ k, q_id k ==s cluster) (kubernetes_clusters s) with
  | k :: _ => q_max_concurrent_jobs k
  | [] => 1
  end.

(** A broadcast may run all its shards at once. *)
Definition job_limit (c : candidate) : Z :=
  let j := j_max_concurrent_runs (cd_job c) in
  if bool_decide (r_broadcast_group_id (cd_run c) = None) then j
  else Z.max j (default j (i_shard_total (r_info (cd_run c)))).

Definition free (limit used : Z) : Z := Z.max (limit - used) 0.

Definition within_limits (t : time) (s : db) (cs : list candidate) (c : candidate) : bool :=
  let r := cd_run c in
  (rank_in (λ x, r_job_id (cd_run x) ==s r_job_id r) c cs
     <=? free (job_limit c) (job_active t (r_job_id r) s))
  && (rank_in (λ x, r_tenant_id (cd_run x) ==s r_tenant_id r) c cs
        <=? free (t_max_concurrent_runs (cd_tenant c)) (tenant_active t (r_tenant_id r) s))
  && match j_kubernetes_cluster_id (cd_job c) with
     | None => true
     | Some k =>
         rank_in (λ x, bool_decide (j_kubernetes_cluster_id (cd_job x) = Some k)) c cs
           <=? free (cluster_max k s) (cluster_active t k s)
     end.

(** The CTE [eligible]. *)
Definition eligible (t : time) (locks : string → bool) (limit : nat) (s : db) : list candidate :=
  let cs := candidates t s in
  take limit
    (List.filter (λ c, negb (locks (r_id (cd_run c))))
       (sort_by (λ a b, claim_order (cd_run a) (cd_run b))
          (List.filter (within_limits t s cs) cs))).

(** [SET status='running',lease_owner=$2,lease_token=..,lease_until=..,started_at=..] *)
Definition claim_row (owner token : string) (until t : time) (r : run_row) : run_row :=
  {| r_info := r_info r; r_status := Running; r_lease_owner := Some owner;
     r_lease_token := Some token; r_lease_until := Some until;
     r_started_at := Some (coalesce (r_started_at r) t); r_finished_at := r_finished_at r;
     r_response_status := r_response_status r; r_response_body := r_response_body r;
     r_error_message := r_error_message r; r_executor_node_id := r_executor_node_id r;
     r_executor_address := r_executor_address r;
     r_callback_token_hash := r_callback_token_hash r;
     r_callback_deadline := r_callback_deadline r;
     r_callback_consumed_at := r_callback_consumed_at r |}.

Record ClaimedRun := mk_claimed { cl_run : Run; cl_job : Job }.

(** The columns of a run the claim returns. *)
Definition claim_scan (token : string) (r : run_row) : Run :=
  let i := r_info r in
  mk_Run (i_id i) (i_tenant_id i) (i_job_id i) (i_trigger_type i) Running (i_runtime_input i)
    (coalesce (i_parent_run_id i) "") (coalesce (i_retry_of_run_id i) "")
    (i_external_execution_id i) (coalesce (r_executor_node_id r) "")
    (coalesce (r_executor_address r) "") token (coalesce (i_broadcast_group_id i) "")
    (coalesce (i_shard_index i) 0) (coalesce (i_shard_total i) 0)
    (i_reschedule_on_terminal i) (i_override_addresses i) (i_attempt i) (i_scheduled_at i)
    None None 0 "".

Definition lease_end (t : time) (lease : duration) (c : candidate) : time :=
  t + Z.max lease ((c_timeout_seconds (j_conf (cd_job c)) + 30) * second).

(** One claimed run: the update with its fresh token, and the event of a run
    that was pending. *)
Definition claim_one (owner : string) (lease : duration) (c : candidate) : tx ClaimedRun :=
  t ← now;
  token ← new_uuid;
  let r := cd_run c in
  _ ← update_runs (λ x, (r_id x ==s r_id r) && claimable t x)
        (claim_row owner token (lease_end t lease c) t);
  _ ← (if r_status r =st Pending then emitRunLifecycleEventTx (r_id r) Running else mret tt);
  job ← lift (scanJob (cd_job c));
  mret (mk_claimed (claim_scan token r) job).

Fixpoint claim_all (owner : string) (lease : duration) (cs : list candidate)
    : tx (list ClaimedRun) :=
  match cs with
  | [] => mret []
  | c :: rest =>
      x ← claim_one owner lease c;
      xs ← claim_all owner lease rest;
      mret (x :: xs)
  end.

Definition ClaimRuns (owner : string) (limit : nat) (lease : duration) : tx (list ClaimedRun) :=
  t ← now;
  locks ← locked;
  s ← get;
  claim_all owner lease (eligible t locks limit s).
End scheduler.
End Scheduler.
