(* ===== verification/ExecutorStore.v ===== *)
(** * Executor groups, registration and route reservation

    [internal/store/executor.go], and [routeClaimedExecutor] of
    [internal/core/engine_dispatch.go], which turns a claimed run into the node
    it is sent to. *)
From Stdlib Require Import ZArith Lia Ascii String Sorted.
From stdpp Require Import base list strings.
From S2P Require Import Prelude GoStrings Tables Executors RunStore JobStore Scheduler Routing.

Module ExecutorStore.
Import Executors RunStore JobStore Scheduler Routing.

Record ExecutorGroup := mk_xgroup {
  xg_ID : string;
  xg_TenantID : string;
  xg_Name : string;
  xg_RouteStrategy : string;
  xg_RegistrationMode : string;
  xg_ManualAddresses : list string;
  xg_Version : Z;
}.

Record ExecutorRoutingSnapshot := mk_snapshot {
  Strategy : string;
  Cursor : Z;
  Nodes : list ExecutorNode;
}.

Definition ExecutorSelector : Type := ExecutorRoutingSnapshot → result ExecutorNode.

(** ** Groups *)

(** [CHECK (route_strategy IN (..))] and [CHECK (registration_mode IN (..))] *)
Definition route_strategy_names : list string :=
  ["first"; "last"; "round"; "random"; "hash"; "lfu"; "lru"; "failover"; "busyover";
   "sharding_broadcast"].
Definition group_check (strategy mode : string) : bool :=
  one_of strategy route_strategy_names && one_of mode ["automatic"; "manual"].

(** [UNIQUE (tenant_id,name)] *)
Definition group_name_taken (tenantID name id : string) (s : db) : bool :=
  sql_exists (λ g, (g_tenant_id g ==s tenantID) && (g_name g ==s name) && (g_id g !=s id))
             (executor_groups s).

Definition registration_mode (group : ExecutorGroup) : string :=
  if xg_RegistrationMode group ==s "" then "automatic" else xg_RegistrationMode group.

Definition stored_group (group : ExecutorGroup) (id mode : string) (version : Z) : ExecutorGroup :=
  mk_xgroup id (xg_TenantID group) (xg_Name group) (xg_RouteStrategy group) mode
    (xg_ManualAddresses group) version.

(** [ON DELETE CASCADE] from [executor_nodes] to the route state. *)
Definition delete_nodes (p : node_row → bool) (s : db) : db :=
  set_route_state
    (sql_delete (λ v, sql_exists (λ n, p n && (n_group_id n ==s v_group_id v)
                                       && (n_node_id n ==s v_node_id v)) (executor_nodes s))
                (route_state s))
  (set_executor_nodes (sql_delete p (executor_nodes s)) s).

Section groups.
Context `{Host} `{Digest}.

(** One [INSERT INTO executor_nodes]; the key is the group and the node. *)
Definition insert_manual_node (groupID address : string) : tx unit :=
  let nodeID := ("manual-" ++ sha256_hex8 address)%string in
  s ← get;
  t ← now;
  if sql_exists (λ n, (n_group_id n ==s groupID) && (n_node_id n ==s nodeID)) (executor_nodes s)
  then fail (ErrMsg "duplicate executor node")
  else modify (λ s, set_executor_nodes
                      (executor_nodes s ++ [mk_node groupID nodeID address t t true []]) s).

Definition replaceManualExecutorNodes (groupID : string) (addresses : list string) : tx unit :=
  for_each addresses (insert_manual_node groupID).

Definition CreateExecutorGroup (group : ExecutorGroup) : tx ExecutorGroup :=
  let mode := registration_mode group in
  id ← new_uuid;
  s ← get;
  if negb (group_check (xg_RouteStrategy group) mode)
     || group_name_taken (xg_TenantID group) (xg_Name group) id s
     || negb (sql_exists (λ x, t_id x ==s xg_TenantID group) (tenants s))
  then fail (ErrMsg "insert executor group")
  else
    _ ← modify (λ s, set_executor_groups
          (executor_groups s ++
           [mk_group id (xg_TenantID group) (xg_Name group) (xg_RouteStrategy group) mode 1]) s);
    _ ← replaceManualExecutorNodes id (xg_ManualAddresses group);
    mret (stored_group group id mode 1).

Definition UpdateExecutorGroup (group : ExecutorGroup) : tx ExecutorGroup :=
  let mode := registration_mode group in
  s ← get;
  let p g := (g_tenant_id g ==s xg_TenantID group) && (g_id g ==s xg_ID group)
             && (g_version g =? xg_Version group) in
  match sql_select p (executor_groups s) with
  | [] => fail ErrConflict
  | _ :: _ =>
      if negb (group_check (xg_RouteStrategy group) mode)
         || group_name_taken (xg_TenantID group) (xg_Name group) (xg_ID group) s
      then fail (ErrMsg "update executor group")
      else
        _ ← modify (λ s, set_executor_groups
              (sql_update p (λ g, mk_group (g_id g) (g_tenant_id g) (xg_Name group)
                                    (xg_RouteStrategy group) mode (g_version g + 1))
                          (executor_groups s)) s);
        _ ← modify (delete_nodes (λ n, (n_group_id n ==s xg_ID group) && n_is_static n));
        _ ← (if mode ==s "manual"
             then modify (delete_nodes (λ n, (n_group_id n ==s xg_ID group)
                                             && negb (n_is_static n)))
             else mret tt);
        _ ← replaceManualExecutorNodes (xg_ID group) (xg_ManualAddresses group);
        mret (stored_group group (xg_ID group) mode (xg_Version group + 1))
  end.

(** Jobs refer to their group ([ON DELETE RESTRICT], SQLSTATE 23503); nodes and
    route state go with the group. *)
Definition DeleteExecutorGroup (tenantID groupID : string) (version : Z) : tx unit :=
  s ← get;
  let p g := (g_tenant_id g ==s tenantID) && (g_id g ==s groupID) && (g_version g =? version) in
  if negb (sql_exists p (executor_groups s)) then fail ErrConflict
  else if sql_exists (λ j, bool_decide (j_executor_group_id j = Some groupID)) (jobs s)
  then fail ErrExecutorGroupInUse
  else modify (λ s, set_executor_groups (sql_delete p (executor_groups s))
                 (delete_nodes (λ n, n_group_id n ==s groupID)
                 (set_route_state (sql_delete (λ v, v_group_id v ==s groupID) (route_state s)) s))).

(** [ORDER BY g.name,g.id] and [array_agg(address ORDER BY address) FILTER (WHERE is_static)] *)
Definition ListExecutorGroups (tenantID : string) (s : db) : list ExecutorGroup :=
  map (λ g, mk_xgroup (g_id g) (g_tenant_id g) (g_name g) (g_route_strategy g)
              (g_registration_mode g)
              (sort_by String.leb (map n_address
                 (sql_select (λ n, (n_group_id n ==s g_id g) && n_is_static n) (executor_nodes s))))
              (g_version g))
    (sort_by (λ a b, if g_name a ==s g_name b then String.leb (g_id a) (g_id b)
                     else String.leb (g_name a) (g_name b))
       (sql_select (λ g, g_tenant_id g ==s tenantID) (executor_groups s))).
End groups.

(** ** Nodes *)

(** [CHECK (cardinality(labels) <= 32 AND .. array_to_string(labels, ',') ~ ..)]:
    every comma-separated part of the joined labels is a label. *)
Definition node_labels_check (labels : list string) : bool :=
  Nat.leb (length labels) 32
  && (Nat.eqb (length labels) 0 || forallb valid_label (Split (Join labels ",") ",")).

Definition node_of_row (n : node_row) (useCount : Z) (lastUsedAt : time) : ExecutorNode :=
  mk_enode (n_group_id n) (n_node_id n) (n_address n) (n_labels n) (n_expires_at n)
    (n_updated_at n) useCount lastUsedAt (n_is_static n).

Definition same_node (groupID nodeID : string) (n : node_row) : bool :=
  (n_group_id n ==s groupID) && (n_node_id n ==s nodeID).

Definition group_of (tenantID groupID : string) (s : db) : option group_row :=
  head (sql_select (λ g, (g_tenant_id g ==s tenantID) && (g_id g ==s groupID)) (executor_groups s)).

Definition RegisterExecutorNode (tenantID groupID nodeID address : string) (ttl : duration)
    (labels : list string) : tx ExecutorNode :=
  s ← get;
  t ← now;
  match group_of tenantID groupID s with
  | None => fail ErrNotFound
  | Some g =>
      if g_registration_mode g !=s "automatic" then fail ErrRegistrationMode
      else if negb (node_labels_check labels) then fail (ErrMsg "insert executor node")
      else
        let row := mk_node groupID nodeID address (t + ttl) t false labels in
        _ ← modify (λ s, set_executor_nodes
              (if sql_exists (same_node groupID nodeID) (executor_nodes s)
               then sql_update (same_node groupID nodeID) (λ _, row) (executor_nodes s)
               else executor_nodes s ++ [row]) s);
        mret (node_of_row row 0 0)
  end.

Definition UnregisterExecutorNode (tenantID groupID nodeID : string) : tx unit :=
  s ← get;
  match group_of tenantID groupID s with
  | None => fail ErrNotFound
  | Some g =>
      if g_registration_mode g !=s "automatic" then fail ErrRegistrationMode
      else modify (delete_nodes (λ n, same_node groupID nodeID n && negb (n_is_static n)))
  end.

(** [ORDER BY CASE WHEN is_static THEN address ELSE node_id END] *)
Definition node_key (n : node_row) : string := if n_is_static n then n_address n else n_node_id n.
Definition sort_nodes : list node_row → list node_row :=
  sort_by (λ a b, String.leb (node_key a) (node_key b)).

Definition ListExecutorNodes (tenantID groupID : string) (liveOnly : bool) (t : time) (s : db)
    : list ExecutorNode :=
  match group_of tenantID groupID s with
  | None => []
  | Some _ =>
      map (λ n, node_of_row n 0 0)
        (sort_nodes (sql_select (λ n, (n_group_id n ==s groupID)
                                      && (negb liveOnly || node_is_live t n)) (executor_nodes s)))
  end.

(** ** Route candidates *)

(** [executor_groups g JOIN jobs j ON j.executor_group_id=g.id WHERE
    g.tenant_id=$1 AND g.id=$2 AND j.id=$3] *)
Definition job_route_group (tenantID groupID jobID : string) (s : db) : option group_row :=
  match group_of tenantID groupID s with
  | Some g =>
      if sql_exists (λ j, (j_id j ==s jobID) && bool_decide (j_executor_group_id j = Some groupID))
                    (jobs s)
      then Some g else None
  | None => None
  end.

Definition ExecutorRouteStrategy (tenantID groupID jobID : string) (s : db) : result string :=
  match job_route_group tenantID groupID jobID s with
  | Some g => Ok (g_route_strategy g)
  | None => Err ErrNotFound
  end.

(** [NOT EXISTS (SELECT 1 FROM job_executor_labels l WHERE ..)]: no label of
    the job is required and missing, or excluded and present. *)
Definition labels_admit (jobID : string) (labels : list string) (s : db) : bool :=
  negb (sql_exists (λ l, (l_job_id l ==s jobID)
                         && ((negb (l_excluded l) && negb (one_of (l_label l) labels))
                             || (l_excluded l && one_of (l_label l) labels)))
                   (job_executor_labels s)).

Definition ExecutorRouteCandidates (tenantID groupID jobID : string) (t : time) (s : db)
    : result (string * list ExecutorNode) :=
  match job_route_group tenantID groupID jobID s with
  | None => Err ErrNotFound
  | Some g =>
      let nodes := map (λ n, node_of_row n 0 0)
            (sort_nodes (sql_select (λ n, (n_group_id n ==s groupID) && node_is_live t n
                                          && labels_admit jobID (n_labels n) s)
                                    (executor_nodes s))) in
      Ok (match nodes with [] => "" | _ :: _ => g_route_strategy g end, nodes)
  end.

(** ** Route reservations *)

(** [INSERT INTO executor_job_route_counters .. ON CONFLICT DO UPDATE ..
    RETURNING route_count] *)
Definition bump_counter (jobID : string) : tx Z :=
  s ← get;
  match sql_select (λ u, u_job_id u ==s jobID) (route_counters s) with
  | [] =>
      _ ← modify (λ s, set_route_counters (route_counters s ++ [mk_counter jobID 0]) s);
      mret 0
  | u :: _ =>
      _ ← modify (λ s, set_route_counters
            (sql_update (λ u, u_job_id u ==s jobID)
                        (λ u, mk_counter (u_job_id u) (u_route_count u + 1)) (route_counters s)) s);
      mret (u_route_count u + 1)
  end.

(** The live nodes with the job's use of them, as the snapshot query joins
    them. *)
Definition route_of (jobID groupID nodeID : string) (s : db) : option route_row :=
  head (sql_select (λ v, (v_group_id v ==s groupID) && (v_node_id v ==s nodeID)
                         && (v_job_id v ==s jobID)) (route_state s)).

Definition snapshot_node (jobID : string) (s : db) (n : node_row) : ExecutorNode :=
  match route_of jobID (n_group_id n) (n_node_id n) s with
  | Some v => node_of_row n (v_use_count v) (default 0 (v_last_used_at v))
  | None => node_of_row n 0 0
  end.

Definition snapshot_nodes (groupID jobID : string) (t : time) (s : db) : list ExecutorNode :=
  map (snapshot_node jobID s)
    (sort_nodes (sql_select (λ n, (n_group_id n ==s groupID) && node_is_live t n)
                            (executor_nodes s))).

(** [INSERT INTO executor_job_route_state .. ON CONFLICT(job_id,node_id) DO
    UPDATE SET use_count=use_count+1,last_used_at=now()]; a new row needs its
    node. *)
Definition record_route (jobID groupID nodeID : string) : tx unit :=
  s ← get;
  t ← now;
  let p v := (v_job_id v ==s jobID) && (v_node_id v ==s nodeID) in
  if sql_exists p (route_state s) then
    modify (λ s, set_route_state
      (sql_update p (λ v, mk_route (v_job_id v) (v_group_id v) (v_node_id v)
                            (v_use_count v + 1) (Some t)) (route_state s)) s)
  else if sql_exists (same_node groupID nodeID) (executor_nodes s) then
    modify (λ s, set_route_state
      (route_state s ++ [mk_route jobID groupID nodeID 1 (Some t)]) s)
  else fail (ErrMsg "record executor route").

Definition ReserveExecutorRoute (tenantID groupID jobID : string) (selector : ExecutorSelector)
    : tx ExecutorNode :=
  s ← get;
  t ← now;
  match job_route_group tenantID groupID jobID s with
  | None => fail ErrNotFound
  | Some g =>
      cursor ← bump_counter jobID;
      s ← get;
      selected ← lift (selector (mk_snapshot (g_route_strategy g) cursor
                                   (snapshot_nodes groupID jobID t s)));
      _ ← record_route jobID groupID (NodeID selected);
      mret selected
  end.

Definition record_override (jobID address : string) : tx unit :=
  s ← get;
  t ← now;
  let p o := (o_job_id o ==s jobID) && (o_address o ==s address) in
  modify (λ s, set_override_route_state
    (if sql_exists p (override_route_state s)
     then sql_update p (λ o, mk_override (o_job_id o) (o_address o) (o_use_count o + 1) t)
                     (override_route_state s)
     else override_route_state s ++ [mk_override jobID address 1 t]) s).

(** The override nodes with the job's use of their addresses. *)
Definition override_snapshot `{Digest} (jobID : string) (addresses : list string) (s : db)
    : list ExecutorNode :=
  map (λ n, match sql_select (λ o, (o_job_id o ==s jobID) && (o_address o ==s Address n))
                             (override_route_state s) with
            | o :: _ => mk_enode (GroupID n) (NodeID n) (Address n) (Labels n) (ExpiresAt n)
                          (UpdatedAt n) (o_use_count o) (o_last_used_at o) (Static n)
            | [] => n
            end) (OverrideExecutorNodes addresses).

Definition ReserveExecutorOverrideRoute `{Digest} (tenantID groupID jobID : string)
    (addresses : list string) (selector : ExecutorSelector) : tx ExecutorNode :=
  s ← get;
  match job_route_group tenantID groupID jobID s with
  | None => fail ErrNotFound
  | Some g =>
      cursor ← bump_counter jobID;
      s ← get;
      selected ← lift (selector (mk_snapshot (g_route_strategy g) cursor
                                   (override_snapshot jobID addresses s)));
      _ ← record_override jobID (Address selected);
      mret selected
  end.

(** ** Routing a claimed run *)

Definition fixedExecutorForRecovery (run : Run) (job : Job) : bool :=
  (c_script_language (Job_Conf job) ==s "docker") && (ExecutorAddress run !=s "").

Definition fixed_node (run : Run) : ExecutorNode :=
  mk_enode "" (ExecutorNodeID run) (ExecutorAddress run) [] 0 0 0 0 false.

Definition candidate_of (n : ExecutorNode) : executorCandidate :=
  mk_ecand (NodeID n) (Address n) (UseCount n) (LastUsedAt n).

(** The loop that turns the selected candidate back into its node. *)
Definition selected_node (nodes : list ExecutorNode) (selected : executorCandidate)
    : result ExecutorNode :=
  match List.find (λ n, NodeID n ==s ec_ID selected) nodes with
  | Some n => Ok n
  | None => Err (ErrMsg "selected executor disappeared")
  end.

Section route.
Context `{Host} `{Digest} `{SliceSort} `{RouteHash}.
Context (probe : string → string → string → bool) (random : Z).

(** The nodes are probed in the order of their identifiers. *)
Definition selectActiveExecutor (strategy jobID : string) (nodes : list executorCandidate)
    : result executorCandidate :=
  if Nat.eqb (length nodes) 0 then Err (ErrMsg "no live executor nodes")
  else
    match List.find (λ n, probe strategy jobID (ec_Address n)) (sort_Slice less_id nodes) with
    | Some n => Ok n
    | None => Err (ErrMsg "no executor available")
    end.

(** The selector [routeClaimedExecutor] passes to the reservation. *)
Definition route_selector (override : bool) (required excluded : list string) (jobID : string)
    : ExecutorSelector := λ snapshot,
  let nodes := if override then Nodes snapshot
               else FilterExecutorNodes (Nodes snapshot) required excluded in
  selected ← selectExecutorNode (map candidate_of nodes) (Strategy snapshot) (Cursor snapshot)
               random jobID;
  selected_node nodes selected.

Definition probe_nodes (strategy jobID : string) (activeNodes : list ExecutorNode)
    : result ExecutorNode :=
  selected ← selectActiveExecutor strategy jobID
               (map (λ n, mk_ecand (NodeID n) (Address n) 0 0) activeNodes);
  selected_node activeNodes selected.

Definition routeClaimedExecutor (c : ClaimedRun) (e : env) (s : db) : result ExecutorNode * db :=
  let run := cl_run c in
  let job := cl_job c in
  let tenantID := Job_TenantID job in
  let groupID := coalesce (c_executor_group_id (Job_Conf job)) "" in
  let jobID := Job_ID job in
  if BroadcastGroupID run !=s "" then
    if (ExecutorNodeID run ==s "") || (ExecutorAddress run ==s "") || (ShardTotal run <? 1)
    then (Err (ErrMsg "broadcast run is missing fixed executor or shard metadata"), s)
    else (Ok (fixed_node run), s)
  else if fixedExecutorForRecovery run job then (Ok (fixed_node run), s)
  else
    let override := negb (Nat.eqb (length (OverrideAddresses run)) 0) in
    let '(required, excluded) := job_labels jobID s in
    let routes :=
      if override then
        strategy ← ExecutorRouteStrategy tenantID groupID jobID s;
        Ok (strategy, OverrideExecutorNodes (OverrideAddresses run))
      else
        '(strategy, nodes) ← ExecutorRouteCandidates tenantID groupID jobID (tx_now e) s;
        Ok (strategy, FilterExecutorNodes nodes [] []) in
    match routes with
    | Err err => (Err err, s)
    | Ok (strategy, activeNodes) =>
        if (strategy ==s "failover") || (strategy ==s "busyover") then
          (probe_nodes strategy jobID activeNodes, s)
        else
          match activeNodes with
          | [n] => (Ok n, s)
          | _ =>
              let selector := route_selector override required excluded jobID in
              if override
              then commit (ReserveExecutorOverrideRoute tenantID groupID jobID
                             (OverrideAddresses run) selector) e s
              else commit (ReserveExecutorRoute tenantID groupID jobID selector) e s
          end
    end.
End route.
End ExecutorStore.
