(* ===== verification/Notifications.v ===== *)
(** * Notification channels and the delivery queue

    [internal/store/outbox.go]: channels subscribe to run events; every event
    of the outbox is turned into one delivery per matching channel; workers
    claim deliveries under a lease and complete, retry or dead-letter them; the
    event is published when none of its deliveries is pending. *)
From Stdlib Require Import ZArith Lia Ascii String Sorted.
From stdpp Require Import base list strings.
From S2P Require Import Prelude GoStrings Tables Utf8 Executors RunStore JobStore.

(** [uuid.Parse] followed by [String]: the canonical text of an identifier. *)
Class UuidParser := { parse_uuid : string → result string }.

Module Notifications.
Import Utf8 Executors RunStore JobStore.

Record OutboxEvent := mk_oevent {
  oe_ID : string; oe_TenantID : string; oe_Topic : string; oe_Payload : event_row;
  oe_Attempts : Z;
}.

Record NotificationChannel := mk_nchannel {
  nc_ID : string;
  nc_TenantID : string;
  nc_Kind : string;
  nc_Name : string;
  nc_Config : string;
  nc_Events : list string;
  nc_AllJobs : bool;
  nc_Enabled : bool;
  nc_JobIDs : list string;
  nc_MaxAttempts : Z;
  nc_BackoffInitialSeconds : Z;
  nc_BackoffMaxSeconds : Z;
  nc_Version : Z;
}.

Record NotificationDelivery := mk_ndelivery {
  nd_ID : string;
  nd_EventID : string;
  nd_Event : OutboxEvent;
  nd_Channel : NotificationChannel;
  nd_Attempts : Z;
  nd_LoadError : option error;
}.

Record NotificationHistoryEntry := mk_nhistory {
  nh_DeliveryID : string; nh_EventID : string; nh_ChannelID : string;
  nh_ChannelName : string; nh_ChannelKind : string; nh_Topic : string;
  nh_JobID : string; nh_RunID : string; nh_Status : string; nh_LastError : string;
  nh_Attempts : Z; nh_CreatedAt : time; nh_DeliveredAt : option time; nh_DeadAt : option time;
}.

Definition delivery_text (s : delivery_status) : string :=
  match s with
  | DeliveryPending => "pending" | DeliveryDelivered => "delivered" | DeliveryDead => "dead"
  end.

(** ** Channels *)

(** The [CHECK] constraints of [notification_channels]. *)
Definition channel_check (channel : NotificationChannel) : bool :=
  one_of (nc_Kind channel) ["webhook"; "email"; "dingtalk"]
  && (1 <=? nc_MaxAttempts channel) && (nc_MaxAttempts channel <=? 100)
  && (1 <=? nc_BackoffInitialSeconds channel) && (nc_BackoffInitialSeconds channel <=? 3600)
  && (1 <=? nc_BackoffMaxSeconds channel) && (nc_BackoffMaxSeconds channel <=? 86400)
  && (nc_BackoffInitialSeconds channel <=? nc_BackoffMaxSeconds channel)
  && negb (Nat.eqb (length (nc_Events channel)) 0).

(** [channel.AllJobs == (len(channel.JobIDs) > 0)] *)
Definition scope_invalid (channel : NotificationChannel) : bool :=
  Bool.eqb (nc_AllJobs channel) (Nat.ltb 0 (length (nc_JobIDs channel))).

Definition set_identity (channel : NotificationChannel) (id : string) (enabled : bool)
    (version : Z) : NotificationChannel :=
  mk_nchannel id (nc_TenantID channel) (nc_Kind channel) (nc_Name channel) (nc_Config channel)
    (nc_Events channel) (nc_AllJobs channel) enabled (nc_JobIDs channel)
    (nc_MaxAttempts channel) (nc_BackoffInitialSeconds channel)
    (nc_BackoffMaxSeconds channel) version.

Section channels.
Context `{Host} `{JobCodec}.

Definition encodeNotificationConfig (config : string)
    : result (string * option string * option Z) :=
  match headerCipher with
  | None => Err (ErrMsg "notification channel config requires store cipher")
  | Some c =>
      '(ciphertext, keyVersion) ← Encrypt c config;
      Ok ("{}", Some ciphertext, Some keyVersion)
  end.

Definition validateNotificationChannelJobs (channel : NotificationChannel) : tx unit :=
  if nc_AllJobs channel then mret tt
  else
    s ← get;
    let count := sql_count (λ j, (j_tenant_id j ==s nc_TenantID channel)
                                 && one_of (j_id j) (nc_JobIDs channel)) (jobs s) in
    if Nat.eqb count (length (nc_JobIDs channel)) then mret tt else fail ErrNotFound.

(** One [INSERT INTO notification_channel_jobs], whose key is the pair. *)
Definition bind_channel_job (channelID jobID : string) : tx unit :=
  s ← get;
  if sql_exists (λ b, (b_channel_id b ==s channelID) && (b_job_id b ==s jobID)) (channel_jobs s)
     || negb (sql_exists (λ j, j_id j ==s jobID) (jobs s))
  then fail (ErrMsg "bind notification job")
  else modify (λ s, set_channel_jobs (channel_jobs s ++ [mk_channel_job channelID jobID]) s).

Definition CreateNotificationChannel (channel : NotificationChannel) : tx NotificationChannel :=
  if scope_invalid channel then fail ErrInvalidNotificationScope
  else
    id ← new_uuid;
    '(storedConfig, encrypted, keyVersion) ← lift (encodeNotificationConfig (nc_Config channel));
    _ ← validateNotificationChannelJobs channel;
    s ← get;
    t ← now;
    if negb (channel_check channel)
       || negb (sql_exists (λ x, t_id x ==s nc_TenantID channel) (tenants s))
    then fail (ErrMsg "create notification channel")
    else
      _ ← modify (λ s, set_channels
            (channels s ++
             [mk_channel id (nc_TenantID channel) (nc_Kind channel) (nc_Name channel)
                storedConfig encrypted keyVersion (nc_Events channel) (nc_AllJobs channel)
                (nc_MaxAttempts channel) (nc_BackoffInitialSeconds channel)
                (nc_BackoffMaxSeconds channel) true None 1 t]) s);
      _ ← for_each (nc_JobIDs channel) (bind_channel_job id);
      mret (set_identity channel id true 1).

(** [tenant_id=$1 AND id=$2 AND version=$3 AND deleted_at IS NULL] *)
Definition channel_version (tenantID id : string) (version : Z) (h : channel_row) : bool :=
  (h_tenant_id h ==s tenantID) && (h_id h ==s id) && (h_version h =? version)
  && bool_decide (h_deleted_at h = None).

Definition UpdateNotificationChannel (channel : NotificationChannel) : tx NotificationChannel :=
  if scope_invalid channel then fail ErrInvalidNotificationScope
  else
    '(storedConfig, encrypted, keyVersion) ← lift (encodeNotificationConfig (nc_Config channel));
    _ ← validateNotificationChannelJobs channel;
    s ← get;
    let p := channel_version (nc_TenantID channel) (nc_ID channel) (nc_Version channel) in
    match sql_select p (channels s) with
    | [] => fail ErrConflict
    | h :: _ =>
        if negb (channel_check channel) then fail (ErrMsg "update notification channel")
        else
          _ ← modify (λ s, set_channels
                (sql_update p (λ h,
                   mk_channel (h_id h) (h_tenant_id h) (nc_Kind channel) (nc_Name channel)
                     storedConfig encrypted keyVersion (nc_Events channel) (nc_AllJobs channel)
                     (nc_MaxAttempts channel) (nc_BackoffInitialSeconds channel)
                     (nc_BackoffMaxSeconds channel) (h_enabled h) (h_deleted_at h)
                     (h_version h + 1) (h_created_at h)) (channels s)) s);
          _ ← modify (λ s, set_channel_jobs
                (sql_delete (λ b, b_channel_id b ==s nc_ID channel) (channel_jobs s)) s);
          _ ← for_each (nc_JobIDs channel) (bind_channel_job (nc_ID channel));
          mret (set_identity channel (nc_ID channel) (h_enabled h) (h_version h + 1))
    end.

(** [array_agg(j.job_id::text ORDER BY j.job_id)] of the joined bindings. *)
Definition bound_jobs (channelID : string) (s : db) : list string :=
  sort_by String.leb
    (map b_job_id (sql_select (λ b, b_channel_id b ==s channelID) (channel_jobs s))).

Definition scanNotificationChannel (h : channel_row) (jobIDs : list string) (tenantID : string)
    : result NotificationChannel :=
  let channel config :=
    mk_nchannel (h_id h) tenantID (h_kind h) (h_name h) config (h_event_types h) (h_all_jobs h)
      (h_enabled h) jobIDs (h_max_attempts h) (h_backoff_initial_seconds h)
      (h_backoff_max_seconds h) (h_version h) in
  match present (h_encrypted_config h) with
  | None => Ok (channel (h_config h))
  | Some encrypted =>
      plain ← decrypt_with encrypted (h_encryption_key_version h)
                "encrypted notification config requires store cipher";
      Ok (channel plain)
  end.

Definition live_channel (tenantID id : string) (h : channel_row) : bool :=
  (h_tenant_id h ==s tenantID) && (h_id h ==s id) && bool_decide (h_deleted_at h = None).

Definition get_channel_row (tenantID id : string) (s : db) : result channel_row :=
  match sql_select (live_channel tenantID id) (channels s) with
  | [] => Err ErrNotFound
  | h :: _ => Ok h
  end.

Definition GetNotificationChannel (tenantID id : string) (s : db) : result NotificationChannel :=
  h ← get_channel_row tenantID id s;
  scanNotificationChannel h (bound_jobs (h_id h) s) tenantID.

(** [ORDER BY n.created_at,n.id] *)
Definition channel_le (a b : channel_row) : bool :=
  if h_created_at a =? h_created_at b then String.leb (h_id a) (h_id b)
  else h_created_at a <? h_created_at b.

Definition NotificationChannels (tenantID : string) (s : db) : result (list NotificationChannel) :=
  foldr (λ h out,
           c ← scanNotificationChannel h (bound_jobs (h_id h) s) tenantID;
           rest ← out;
           Ok (c :: rest))
    (Ok [])
    (sort_by channel_le
       (sql_select (λ h, (h_tenant_id h ==s tenantID) && bool_decide (h_deleted_at h = None))
                   (channels s))).
End channels.

(** ** The outbox *)

Definition publish_row (t : time) (x : event_row) : event_row :=
  mk_event (e_id x) (e_tenant_id x) (e_topic x) (e_run_id x) (e_job_id x) (e_status x)
    (e_attempt x) (e_trigger_type x) (e_occurred_at x) (e_available_at x) (Some t)
    (e_attempts x) None None None.
Definition publish (p : event_row → bool) (t : time) (s : db) : db :=
  set_outbox_events (sql_update p (publish_row t) (outbox_events s)) s.

Definition PublishOutbox (id : string) : tx unit :=
  t ← now;
  modify (publish (λ x, e_id x ==s id) t).

Definition RetryOutbox (id message : string) (delay : duration) : tx unit :=
  t ← now;
  modify (λ s, set_outbox_events
    (sql_update (λ x, e_id x ==s id)
       (λ x, mk_event (e_id x) (e_tenant_id x) (e_topic x) (e_run_id x) (e_job_id x)
               (e_status x) (e_attempt x) (e_trigger_type x) (e_occurred_at x)
               (t + delay) (e_published_at x) (e_attempts x) None None (Some message))
       (outbox_events s)) s).

(** [published_at IS NULL AND available_at<=now() AND (locked_until IS NULL OR
    locked_until<now())] *)
Definition event_claimable (t : time) (x : event_row) : bool :=
  bool_decide (e_published_at x = None) && (e_available_at x <=? t)
  && match e_locked_until x with None => true | Some u => u <? t end.

Definition outbox_event (x : event_row) : OutboxEvent :=
  mk_oevent (e_id x) (e_tenant_id x) (e_topic x) x (e_attempts x).

Definition ClaimOutbox (owner : string) (limit : nat) : tx (list OutboxEvent) :=
  s ← get;
  t ← now;
  locks ← locked;
  let picked := map e_id (take limit (List.filter (λ x, negb (locks (e_id x)))
    (sort_by (λ a b, e_available_at a <=? e_available_at b)
       (sql_select (event_claimable t) (outbox_events s))))) in
  _ ← modify (λ s, set_outbox_events
    (sql_update (λ x, one_of (e_id x) picked)
       (λ x, mk_event (e_id x) (e_tenant_id x) (e_topic x) (e_run_id x) (e_job_id x)
               (e_status x) (e_attempt x) (e_trigger_type x) (e_occurred_at x)
               (e_available_at x) (e_published_at x) (e_attempts x + 1)
               (Some owner) (Some (t + 30 * second)) (e_last_error x))
       (outbox_events s)) s);
  s ← get;
  mret (map outbox_event (sql_select (λ x, one_of (e_id x) picked) (outbox_events s))).

(** ** Deliveries *)

Definition y_pending (y : delivery_row) : bool := bool_decide (y_status y = DeliveryPending).

(** The columns an [UPDATE] of a delivery replaces. *)
Definition finish_delivery (status : delivery_status) (t : time) (message : option string)
    (y : delivery_row) : delivery_row :=
  mk_delivery (y_id y) (y_event_id y) (y_channel_id y) status (y_attempts y) (y_available_at y)
    None None message
    (if bool_decide (status = DeliveryDelivered) then Some t else None)
    (if bool_decide (status = DeliveryDead) then Some t else None) (y_created_at y).

(** The common table expressions read the deliveries as they were before the
    statement, so the pending ones of the channel itself are passed over. *)
Definition terminalizePendingNotificationDeliveries (channelID message : string) : tx unit :=
  t ← now;
  modify (λ s,
    let p y := (y_channel_id y ==s channelID) && y_pending y in
    let affected x := sql_exists (λ y, p y && (y_event_id y ==s e_id x)) (deliveries s) in
    let others x := sql_exists (λ y, (y_event_id y ==s e_id x) && y_pending y
                                     && (y_channel_id y !=s channelID)) (deliveries s) in
    publish (λ x, affected x && negb (others x)) t
      (set_deliveries
         (sql_update p (λ y, mk_delivery (y_id y) (y_event_id y) (y_channel_id y) DeliveryDead
                                (y_attempts y) (y_available_at y) None None
                                (Some (boundedNotificationError message)) (y_delivered_at y)
                                (Some t) (y_created_at y))
                     (deliveries s)) s)).

Definition set_channel_state (enabled : bool) (deleted_at : option time) (h : channel_row)
    : channel_row :=
  mk_channel (h_id h) (h_tenant_id h) (h_kind h) (h_name h) (h_config h) (h_encrypted_config h)
    (h_encryption_key_version h) (h_event_types h) (h_all_jobs h) (h_max_attempts h)
    (h_backoff_initial_seconds h) (h_backoff_max_seconds h) enabled deleted_at
    (h_version h + 1) (h_created_at h).

Definition SetNotificationChannelEnabled `{JobCodec} (tenantID id : string) (enabled : bool)
    (version : Z) : tx NotificationChannel :=
  s ← get;
  let p := channel_version tenantID id version in
  if negb (Nat.eqb (sql_count p (channels s)) 1) then fail ErrConflict
  else
    _ ← modify (λ s, set_channels
          (sql_update p (λ h, set_channel_state enabled (h_deleted_at h) h) (channels s)) s);
    _ ← (if enabled then mret tt
         else terminalizePendingNotificationDeliveries id "notification channel disabled");
    s ← get;
    lift (GetNotificationChannel tenantID id s).

Definition DeleteNotificationChannel (tenantID id : string) (version : Z) : tx unit :=
  s ← get;
  t ← now;
  let p := channel_version tenantID id version in
  if negb (Nat.eqb (sql_count p (channels s)) 1) then fail ErrConflict
  else
    _ ← modify (λ s, set_channels
          (sql_update p (set_channel_state false (Some t)) (channels s)) s);
    terminalizePendingNotificationDeliveries id "notification channel deleted".

(** ** Matching events with channels *)

Definition validNotificationEventJobID `{UuidParser} (raw : string) : string :=
  match parse_uuid raw with Ok id => id | Err _ => "" end.

(** [n.tenant_id=$2 AND n.enabled AND n.deleted_at IS NULL AND e.topic=ANY(n.event_types)
    AND (n.all_jobs OR EXISTS(..))] *)
Definition channel_matches (topic tenantID jobID : string) (s : db) (h : channel_row) : bool :=
  (h_tenant_id h ==s tenantID) && h_enabled h && bool_decide (h_deleted_at h = None)
  && one_of topic (h_event_types h)
  && (h_all_jobs h
      || sql_exists (λ b, (b_channel_id b ==s h_id h) && (b_job_id b ==s jobID))
                    (channel_jobs s)).

(** The join with the event gives no channel when the event is gone. *)
Definition matchingNotificationChannelIDs (eventID tenantID jobID : string) (s : db)
    : list string :=
  match head (sql_select (λ x, e_id x ==s eventID) (outbox_events s)) with
  | None => []
  | Some x =>
      sort_by String.leb
        (map h_id (sql_select (channel_matches (e_topic x) tenantID jobID s) (channels s)))
  end.

(** One row of [INSERT .. SELECT $1,unnest($2) ON CONFLICT DO NOTHING]; the
    unique key is the event and the channel. *)
Definition insert_delivery `{Host} (eventID channelID : string) : tx unit :=
  id ← new_uuid;
  t ← now;
  s ← get;
  if sql_exists (λ y, (y_event_id y ==s eventID) && (y_channel_id y ==s channelID)) (deliveries s)
  then mret tt
  else modify (λ s, set_deliveries
         (deliveries s ++ [mk_delivery id eventID channelID DeliveryPending 0 t None None None
                                       None None t]) s).

(** [ORDER BY e.available_at,e.id] *)
Definition event_le (a b : event_row) : bool :=
  if e_available_at a =? e_available_at b then String.leb (e_id a) (e_id b)
  else e_available_at a <? e_available_at b.

Definition unprepared (t : time) (s : db) (x : event_row) : bool :=
  bool_decide (e_published_at x = None) && (e_available_at x <=? t)
  && negb (sql_exists (λ y, y_event_id y ==s e_id x) (deliveries s)).

Definition prepare_event `{Host} `{UuidParser} (x : event_row) : tx unit :=
  s ← get;
  t ← now;
  match matchingNotificationChannelIDs (e_id x) (e_tenant_id x)
          (validNotificationEventJobID (e_job_id x)) s with
  | [] => modify (publish (λ x', e_id x' ==s e_id x) t)
  | channelIDs => for_each channelIDs (insert_delivery (e_id x))
  end.

Definition unprepared_events (limit : nat) (t : time) (locks : string → bool) (s : db)
    : list event_row :=
  take limit (List.filter (λ x, negb (locks (e_id x)))
    (sort_by event_le (sql_select (unprepared t s) (outbox_events s)))).

Definition PrepareNotificationDeliveries `{Host} `{UuidParser} (limit : nat) : tx unit :=
  s ← get;
  t ← now;
  locks ← locked;
  for_each (unprepared_events limit t locks s) prepare_event.

(** ** The queue of the workers *)

(** [status='pending' AND available_at<=now() AND (locked_until IS NULL OR
    locked_until<now())] *)
Definition delivery_claimable (t : time) (y : delivery_row) : bool :=
  y_pending y && (y_available_at y <=? t)
  && match y_locked_until y with None => true | Some u => u <? t end.

(** [ORDER BY available_at,id] *)
Definition delivery_le (a b : delivery_row) : bool :=
  if y_available_at a =? y_available_at b then String.leb (y_id a) (y_id b)
  else y_available_at a <? y_available_at b.

Definition picked_deliveries (limit : nat) (t : time) (locks : string → bool) (s : db)
    : list string :=
  map y_id (take limit (List.filter (λ y, negb (locks (y_id y)))
    (sort_by delivery_le (sql_select (delivery_claimable t) (deliveries s))))).

Definition lease_delivery (owner : string) (until : time) (y : delivery_row) : delivery_row :=
  mk_delivery (y_id y) (y_event_id y) (y_channel_id y) (y_status y) (y_attempts y + 1)
    (y_available_at y) (Some owner) (Some until) (y_last_error y) (y_delivered_at y)
    (y_dead_at y) (y_created_at y).

Section workers.
Context `{JobCodec}.

Definition loadNotificationDeliveryConfig (encrypted : string) (version : option Z)
    : result string :=
  match headerCipher, version with
  | Some c, Some v =>
      match Decrypt c encrypted v with
      | Ok plain => Ok plain
      | Err _ => Err ErrNotificationConfigUnreadable
      end
  | _, _ => Err ErrNotificationConfigUnreadable
  end.

(** The channel of a claimed delivery: the columns the query does not select
    keep their zero values. *)
Definition claimed_channel (h : channel_row) (config : string) : NotificationChannel :=
  mk_nchannel (h_id h) (h_tenant_id h) (h_kind h) (h_name h) config [] false false []
    (h_max_attempts h) (h_backoff_initial_seconds h) (h_backoff_max_seconds h) 0.

Definition load_delivery (y : delivery_row) (x : event_row) (h : channel_row)
    : NotificationDelivery :=
  let '(config, loadError) :=
    match present (h_encrypted_config h) with
    | None => (h_config h, None)
    | Some encrypted =>
        match loadNotificationDeliveryConfig encrypted (h_encryption_key_version h) with
        | Ok plain => (plain, None)
        | Err err => ("", Some err)
        end
    end in
  mk_ndelivery (y_id y) (y_event_id y) (outbox_event x) (claimed_channel h config)
    (y_attempts y) loadError.

(** The join of a claimed delivery with its event and its channel. *)
Definition join_delivery (s : db) (y : delivery_row) : list NotificationDelivery :=
  flat_map (λ x, map (load_delivery y x)
                     (sql_select (λ h, h_id h ==s y_channel_id y) (channels s)))
    (sql_select (λ x, e_id x ==s y_event_id y) (outbox_events s)).

Definition ClaimNotificationDeliveries (owner : string) (limit : nat)
    : tx (list NotificationDelivery) :=
  s ← get;
  t ← now;
  locks ← locked;
  let picked := picked_deliveries limit t locks s in
  _ ← modify (λ s, set_deliveries
        (sql_update (λ y, one_of (y_id y) picked) (lease_delivery owner (t + 30 * second))
                    (deliveries s)) s);
  s ← get;
  mret (flat_map (join_delivery s)
          (sql_select (λ y, one_of (y_id y) picked) (deliveries s))).
End workers.

(** [status='pending' AND locked_by=$n AND locked_until>=now()] *)
Definition delivery_held (owner : string) (t : time) (y : delivery_row) : bool :=
  y_pending y && bool_decide (y_locked_by y = Some owner)
  && match y_locked_until y with Some u => t <=? u | None => false end.

Definition finishNotificationDelivery (owner deliveryID eventID : string)
    (deliveryStatus : delivery_status) (message : string) : tx unit :=
  s ← get;
  t ← now;
  let p y := (y_id y ==s deliveryID) && (y_event_id y ==s eventID) && delivery_held owner t y in
  if negb (Nat.eqb (sql_count p (deliveries s)) 1) then fail ErrNotificationLeaseLost
  else
    _ ← modify (λ s, set_deliveries
          (sql_update p (finish_delivery deliveryStatus t (nullif_empty message))
                      (deliveries s)) s);
    s ← get;
    if sql_exists (λ y, (y_event_id y ==s eventID) && y_pending y) (deliveries s)
    then mret tt
    else modify (publish (λ x, e_id x ==s eventID) t).

Definition CompleteNotificationDelivery (owner deliveryID eventID : string) : tx unit :=
  finishNotificationDelivery owner deliveryID eventID DeliveryDelivered "".

Definition DeadLetterNotificationDelivery (owner deliveryID eventID message : string) : tx unit :=
  finishNotificationDelivery owner deliveryID eventID DeliveryDead
    (boundedNotificationError message).

Definition RetryNotificationDelivery (owner id message : string) (delay : duration) : tx unit :=
  s ← get;
  t ← now;
  let p y := (y_id y ==s id) && delivery_held owner t y in
  if negb (Nat.eqb (sql_count p (deliveries s)) 1) then fail ErrNotificationLeaseLost
  else modify (λ s, set_deliveries
         (sql_update p (λ y, mk_delivery (y_id y) (y_event_id y) (y_channel_id y) (y_status y)
                               (y_attempts y) (t + delay) None None
                               (Some (boundedNotificationError message)) (y_delivered_at y)
                               (y_dead_at y) (y_created_at y)) (deliveries s)) s).

(** ** Reading the queue *)

(** The age is computed with floating-point seconds; here it is exact. *)
Definition NotificationQueueStats (t : time) (s : db) : Z * duration :=
  let pending := sql_select y_pending (deliveries s) in
  (Z.of_nat (length pending),
   match map y_created_at pending with
   | [] => 0
   | c :: rest => Z.max 0 (t - foldr Z.min c rest)
   end).

(** [d.created_at DESC,d.id DESC] *)
Definition history_le (a b : delivery_row) : bool :=
  if y_created_at a =? y_created_at b then String.leb (y_id b) (y_id a)
  else y_created_at b <? y_created_at a.

(** [$5 IS NULL OR (d.created_at,d.id)<($5,$6)] *)
Definition history_before (beforeCreatedAt : option time) (beforeID : option string)
    (y : delivery_row) : bool :=
  match beforeCreatedAt with
  | None => true
  | Some c => (y_created_at y <? c)
              || ((y_created_at y =? c)
                  && match beforeID with Some i => String.ltb (y_id y) i | None => false end)
  end.

Definition history_entry (y : delivery_row) (x : event_row) (h : channel_row)
    : NotificationHistoryEntry :=
  mk_nhistory (y_id y) (y_event_id y) (h_id h) (h_name h) (h_kind h) (e_topic x) (e_job_id x)
    (e_run_id x) (delivery_text (y_status y)) (coalesce (y_last_error y) "") (y_attempts y)
    (y_created_at y) (y_delivered_at y) (y_dead_at y).

Definition history_row (tenantID channelID jobID deliveryStatus : string) (y : delivery_row)
    (x : event_row) (h : channel_row) : bool :=
  (e_id x ==s y_event_id y) && (h_id h ==s y_channel_id y) && (e_tenant_id x ==s tenantID)
  && ((channelID ==s "") || (h_id h ==s channelID))
  && ((jobID ==s "") || (e_job_id x ==s jobID))
  && ((deliveryStatus ==s "") || (delivery_text (y_status y) ==s deliveryStatus)).

(** The rows the [WHERE] clause keeps, in the order of the query. *)
Definition history_rows (tenantID channelID jobID deliveryStatus : string)
    (beforeCreatedAt : option time) (beforeID : option string) (s : db) : list delivery_row :=
  sort_by history_le
    (sql_select (λ y, sql_exists (λ x, sql_exists (history_row tenantID channelID jobID
                                                     deliveryStatus y x) (channels s))
                                 (outbox_events s)
                      && history_before beforeCreatedAt beforeID y) (deliveries s)).

Definition NotificationHistory (tenantID channelID jobID deliveryStatus : string)
    (beforeCreatedAt : option time) (beforeID : option string) (limit : nat) (s : db)
    : list NotificationHistoryEntry :=
  flat_map (λ y,
    flat_map (λ x, map (history_entry y x)
                       (sql_select (history_row tenantID channelID jobID deliveryStatus y x)
                                   (channels s))) (outbox_events s))
    (take limit (history_rows tenantID channelID jobID deliveryStatus
                              beforeCreatedAt beforeID s)).

(** ** Pages of the history *)

Lemma history_le_spec a b :
  history_le a b = true ↔ y_created_at b < y_created_at a ∨
    y_created_at a = y_created_at b ∧ String.leb (y_id b) (y_id a) = true.
Proof.
  unfold history_le. destruct (Z.eqb_spec (y_created_at a) (y_created_at b)) as [E|E].
  - split; [tauto|]. intros [?|[_ ?]]; [lia|done].
  - rewrite Z.ltb_lt. split; [tauto|]. intros [?|[? _]]; [done|lia].
Qed.

Lemma history_le_total a b : history_le a b = true ∨ history_le b a = true.
Proof.
  rewrite !history_le_spec. destruct (str_leb_total (y_id a) (y_id b)); 
    destruct (Z.lt_trichotomy (y_created_at a) (y_created_at b)) as [?|[?|?]]; auto.
Qed.

Lemma history_le_trans a b c :
  history_le a b = true → history_le b c = true → history_le a c = true.
Proof.
  rewrite !history_le_spec. intros [?|[? Hab]] [?|[? Hbc]]; [left; lia..|].
  right. split; [lia|]. by eapply str_leb_trans.
Qed.

Lemma history_keyed p s :
  NoDup (map y_id (deliveries s)) → keyed history_le (sql_select p (deliveries s)).
Proof.
  intros Hn. split; [by apply (NoDup_fmap_1 y_id), NoDup_map_filter|].
  intros x y [_ Hx]%elem_of_sql_select [_ Hy]%elem_of_sql_select.
  rewrite !history_le_spec. intros [?|[? H1]] [?|[? H2]]; try lia.
  apply (NoDup_key_inj y_id (deliveries s)); [done..|]. by apply str_leb_antisym.
Qed.

(** Behind [c] in the order of the query is before [c] in its condition. *)
Lemma history_before_le c y :
  history_before (Some (y_created_at c)) (Some (y_id c)) y = negb (history_le y c).
Proof.
  unfold history_before, history_le. rewrite str_ltb_leb.
  destruct (Z.eqb_spec (y_created_at y) (y_created_at c)) as [->|]; cbn.
  - by rewrite Z.ltb_irrefl.
  - rewrite orb_false_r, <- Z.leb_antisym. destruct (Z.ltb_spec (y_created_at y) (y_created_at c)),
      (Z.leb_spec (y_created_at y) (y_created_at c)); try done; lia.
Qed.

Lemma history_before_trans b i c y :
  history_before b i c = true → history_le y c = false → history_before b i y = true.
Proof.
  unfold history_before. destruct b as [b|]; [|done]. rewrite <- not_true_iff_false, history_le_spec.
  rewrite !orb_true_iff, !andb_true_iff, !Z.ltb_lt, !Z.eqb_eq. destruct i as [i|].
  - rewrite !str_ltb_leb, !negb_true_iff, <- !not_true_iff_false.
    intros Hc Hy. destruct (Z.lt_trichotomy (y_created_at y) (y_created_at c)) as [?|[E|?]]; [left; lia| |tauto].
    destruct Hc as [?|[? Hi]]; [left; lia|]. right. split; [lia|]. intros Hle. apply Hy. right.
    split; [done|]. destruct (str_leb_total (y_id c) (y_id y)) as [|Hyc]; [done|].
    exfalso. apply Hi. by eapply str_leb_trans.
  - intros [?|[_ ?]] Hy; [|done]. left.
    destruct (Z.lt_trichotomy (y_created_at y) (y_created_at c)) as [?|[E|?]]; [lia|lia|tauto].
Qed.

(** The history of deliveries can be read page by page: the query that
    continues behind the last delivery of a page gives exactly the deliveries
    that follow it in the order of the history, none twice and none left out. *)
Theorem history_pages tenantID channelID jobID status before beforeID limit n c s :
  NoDup (map y_id (deliveries s)) →
  last (take n (history_rows tenantID channelID jobID status before beforeID s)) = Some c →
  history_rows tenantID channelID jobID status (Some (y_created_at c)) (Some (y_id c)) s =
    drop n (history_rows tenantID channelID jobID status before beforeID s) ∧
  NotificationHistory tenantID channelID jobID status (Some (y_created_at c)) (Some (y_id c)) limit s =
    flat_map (λ y, flat_map (λ x, map (history_entry y x)
        (sql_select (history_row tenantID channelID jobID status y x) (channels s))) (outbox_events s))
      (take limit (drop n (history_rows tenantID channelID jobID status before beforeID s))).
Proof.
  intros Hn Hc.
  assert (E : history_rows tenantID channelID jobID status (Some (y_created_at c)) (Some (y_id c)) s =
    drop n (history_rows tenantID channelID jobID status before beforeID s)).
  { pose proof Hc as Hin. apply last_Some_elem_of, elem_of_take in Hin as (i & Hin%list_elem_of_lookup_2 & _).
    apply elem_of_sort_by, elem_of_sql_select in Hin as [[_ Hb]%andb_true_iff _].
    unfold history_rows in Hc |- *.
    rewrite <- (page_after history_le history_le_total history_le_trans _ n c
                  (history_before (Some (y_created_at c)) (Some (y_id c)))).
    - f_equal. unfold sql_select. rewrite filter_filter_and. apply List.filter_ext. intros y.
      destruct (sql_exists _ _); [|done]. cbn [andb]. rewrite history_before_le.
      destruct (history_le y c) eqn:El; [by rewrite andb_false_r|]. cbn [negb].
      by rewrite (history_before_trans before beforeID c y).
    - by apply history_keyed.
    - exact Hc.
    - intros y _. apply history_before_le. }
  split; [exact E|]. unfold NotificationHistory. by rewrite E.
Qed.
End Notifications.
