(* ===== verification/ExecutorCommands.v ===== *)
(** * The queue of commands to executors

    [internal/store/executor_commands.go]: cancellations wait in
    [executor_commands] until the executor that runs the job has confirmed
    them. *)
From Stdlib Require Import ZArith Lia Ascii String Sorted.
From stdpp Require Import base list strings.
From S2P Require Import Prelude GoStrings Tables Utf8 Executors RunStore JobStore Samples.

Module ExecutorCommands.
Import Utf8 Executors RunStore JobStore.

Definition maxExecutorCommandErrorBytes : nat := Z.to_nat 4096.

Record ExecutorCommand := mk_ecommand {
  xc_ID : string; xc_TenantID : string; xc_RunID : string; xc_ExecutorAddress : string;
  xc_Type : string; xc_Reason : string; xc_ExternalExecutionID : string; xc_JobID : string;
  xc_ScriptLanguage : string; xc_KubernetesClusterID : string; xc_Attempts : Z;
}.

(** The age is computed with floating-point seconds; here it is exact. *)
Definition ExecutorCommandQueueStats (t : time) (s : db) : Z * duration :=
  let pending := sql_select (λ m, negb (m_delivered m)) (executor_commands s) in
  (Z.of_nat (length pending),
   match map m_created_at pending with
   | [] => 0
   | c :: rest => Z.max 0 (t - foldr Z.min c rest)
   end).

(** [status='pending' AND available_at<=now() AND (locked_until IS NULL OR
    locked_until<now())] *)
Definition command_claimable (t : time) (m : command_row) : bool :=
  negb (m_delivered m) && (m_available_at m <=? t)
  && match m_locked_until m with None => true | Some u => u <? t end.

(** [ORDER BY available_at,id] *)
Definition command_le (a b : command_row) : bool :=
  if m_available_at a =? m_available_at b then String.leb (m_id a) (m_id b)
  else m_available_at a <? m_available_at b.

Definition picked_commands (limit : nat) (t : time) (locks : string → bool) (s : db)
    : list string :=
  map m_id (take limit (List.filter (λ m, negb (locks (m_id m)))
    (sort_by command_le (sql_select (command_claimable t) (executor_commands s))))).

Definition lease_command (owner : string) (until : time) (m : command_row) : command_row :=
  {| m_id := m_id m; m_tenant_id := m_tenant_id m; m_run_id := m_run_id m;
     m_executor_address := m_executor_address m; m_payload := m_payload m;
     m_delivered := m_delivered m; m_attempts := m_attempts m + 1;
     m_available_at := m_available_at m; m_locked_by := Some owner;
     m_locked_until := Some until; m_last_error := m_last_error m;
     m_delivered_at := m_delivered_at m; m_created_at := m_created_at m |}.

(** The payload always has its five members, and ['cancel'] is the only type. *)
Definition scan_command (m : command_row) : ExecutorCommand :=
  mk_ecommand (m_id m) (m_tenant_id m) (m_run_id m) (m_executor_address m) "cancel"
    (p_reason (m_payload m)) (p_external_execution_id (m_payload m)) (p_job_id (m_payload m))
    (p_script_language (m_payload m)) (p_kubernetes_cluster_id (m_payload m)) (m_attempts m).

Definition ClaimExecutorCommands (owner : string) (limit : nat) : tx (list ExecutorCommand) :=
  if Nat.ltb limit 1 then mret []
  else
    s ← get;
    t ← now;
    locks ← locked;
    let picked := picked_commands limit t locks s in
    _ ← modify (λ s, set_executor_commands
          (sql_update (λ m, one_of (m_id m) picked) (lease_command owner (t + 30 * second))
                      (executor_commands s)) s);
    s ← get;
    mret (map scan_command (sql_select (λ m, one_of (m_id m) picked) (executor_commands s))).

(** [id=$1 AND status='pending' AND locked_by=$2 AND locked_until>=now()] *)
Definition command_held (owner id : string) (t : time) (m : command_row) : bool :=
  (m_id m ==s id) && negb (m_delivered m) && bool_decide (m_locked_by m = Some owner)
  && match m_locked_until m with Some u => t <=? u | None => false end.

Definition CompleteExecutorCommand (owner id : string) : tx unit :=
  s ← get;
  t ← now;
  let p := command_held owner id t in
  if negb (Nat.eqb (sql_count p (executor_commands s)) 1) then fail ErrConflict
  else modify (λ s, set_executor_commands
         (sql_update p (λ m,
            {| m_id := m_id m; m_tenant_id := m_tenant_id m; m_run_id := m_run_id m;
               m_executor_address := m_executor_address m; m_payload := m_payload m;
               m_delivered := true; m_attempts := m_attempts m;
               m_available_at := m_available_at m; m_locked_by := None;
               m_locked_until := None; m_last_error := None;
               m_delivered_at := Some t; m_created_at := m_created_at m |})
            (executor_commands s)) s).

(** The message is cut to a number of bytes; the database refuses a text that
    is not valid UTF-8. *)
Definition RetryExecutorCommand (owner id message : string) (delay : duration) : tx unit :=
  let message := if Nat.ltb maxExecutorCommandErrorBytes (String.length message)
                 then str_take maxExecutorCommandErrorBytes message else message in
  s ← get;
  t ← now;
  let p := command_held owner id t in
  if negb (pg_text message) then fail (ErrMsg "retry executor command")
  else if negb (Nat.eqb (sql_count p (executor_commands s)) 1) then fail ErrConflict
  else modify (λ s, set_executor_commands
         (sql_update p (λ m,
            {| m_id := m_id m; m_tenant_id := m_tenant_id m; m_run_id := m_run_id m;
               m_executor_address := m_executor_address m; m_payload := m_payload m;
               m_delivered := m_delivered m; m_attempts := m_attempts m;
               m_available_at := t + delay; m_locked_by := None;
               m_locked_until := None; m_last_error := Some message;
               m_delivered_at := m_delivered_at m; m_created_at := m_created_at m |})
            (executor_commands s)) s).

(** ** A message cut inside a rune is lost *)

Lemma cut_is_refused limit message :
  valid_utf8 message → (limit < String.length message)%nat →
  continuation (byte_at message limit) = true →
  pg_text (if Nat.ltb limit (String.length message) then str_take limit message else message) = false.
Proof.
  intros Hv Hl Hc. apply Nat.ltb_lt in Hl as Hb. rewrite Hb. apply not_true_iff_false.
  intros [Ep%ValidString_spec _]%andb_true_iff. revert Ep. by apply split_rune_invalid.
Qed.

(** when the 4096-byte limit falls inside a multi-byte rune of a valid
    error message, recording the failed attempt of a command is refused by the
    database: the transaction fails for every state, so the attempt's error and
    its back-off are not stored. *)
Theorem long_message_is_refused (owner id message : string) (delay : duration) e s :
  valid_utf8 message → (maxExecutorCommandErrorBytes < String.length message)%nat →
  continuation (byte_at message maxExecutorCommandErrorBytes) = true →
  commit (RetryExecutorCommand owner id message delay) e s =
    (Err (ErrMsg "retry executor command"), s).
Proof.
  intros Hv Hl Hc. unfold commit, RetryExecutorCommand. cbv zeta.
  by rewrite (cut_is_refused _ _ Hv Hl Hc).
Qed.

(** 4095 letters and a two-byte letter. *)
Definition long_message : string :=
  repeated (Z.to_nat 4095) "a" +:+ String (ascii_of_nat 195) (String (ascii_of_nat 169) "").

Lemma long_message_is_refused_witness :
  commit (RetryExecutorCommand "dispatcher" "command" long_message second) (Samples.at_ms 0)
    Samples.empty_db = (Err (ErrMsg "retry executor command"), Samples.empty_db).
Proof.
  assert (E : maxExecutorCommandErrorBytes = (Z.to_nat 4095 + 1)%nat)
    by (unfold maxExecutorCommandErrorBytes; lia).
  apply long_message_is_refused.
  - apply valid_repeated. by apply (valid_rune 1); [|constructor].
  - unfold long_message. rewrite length_repeated, E. cbn [String.length]. lia.
  - rewrite E. unfold long_message. by rewrite byte_repeated.
Defined.
End ExecutorCommands.
