(* ===== verification/RunLogs.v ===== *)
(** * Run logs

    [internal/store/run_logs.go]: an executor that holds the callback token of
    a run appends log entries; readers follow them with a cursor. *)
From Stdlib Require Import ZArith Lia Ascii String Sorted.
From stdpp Require Import base list strings sorting.
From S2P Require Import Prelude GoStrings Tables Utf8 Executors RunStore JobStore.

Module RunLogs.
Import Utf8 Executors RunStore JobStore.

Record RunLogInput := mk_log_input {
  li_EntryID : string; li_Stream : string; li_Content : string;
}.

Record RunLogEntry := mk_log_entry {
  le_Cursor : Z; le_EntryID : string; le_Stream : string; le_Content : string;
  le_CreatedAt : time;
}.

(** [length(entry_id)] counts characters. *)
Fixpoint char_length (s : string) : Z :=
  match s with
  | EmptyString => 0
  | String c rest => (if continuation c then 0 else 1) + char_length rest
  end.

(** The [CHECK] constraints of [job_run_logs]. *)
Definition log_check (entry : RunLogInput) : bool :=
  (1 <=? char_length (li_EntryID entry)) && (char_length (li_EntryID entry) <=? 128)
  && one_of (li_Stream entry) ["stdout"; "stderr"] && (len (li_Content entry) <=? 65536).

(** [id=$1 AND status IN ('running','waiting_callback') AND
    callback_deadline>now() AND callback_token_hash=$2] *)
Definition log_target (runID tokenHash : string) (t : time) (r : run_row) : bool :=
  (r_id r ==s runID) && ((r_status r =st Running) || (r_status r =st WaitingCallback))
  && match r_callback_deadline r with Some d => t <? d | None => false end
  && bool_decide (r_callback_token_hash r = Some tokenHash).

Definition log_key (runID entryID : string) (w : log_row) : bool :=
  (w_run_id w ==s runID) && (w_entry_id w ==s entryID).

(** One row of [INSERT .. ON CONFLICT(run_id,entry_id) DO UPDATE SET
    entry_id=EXCLUDED.entry_id RETURNING id]: the sequence advances in any case,
    an entry that is there keeps its row. *)
Definition insert_log (r : run_row) (entry : RunLogInput) : tx Z :=
  t ← now;
  _ ← modify (λ s, set_log_sequence (log_sequence s + 1) s);
  s ← get;
  if negb (log_check entry) then fail (ErrMsg "append run log")
  else
    match sql_select (log_key (r_id r) (li_EntryID entry)) (job_run_logs s) with
    | w :: _ => mret (w_id w)
    | [] =>
        _ ← modify (λ s, set_job_run_logs
              (job_run_logs s ++
               [mk_log (log_sequence s) (r_tenant_id r) (r_id r) (li_EntryID entry)
                       (li_Stream entry) (li_Content entry) t]) s);
        mret (log_sequence s)
    end.

(** The rows of the batch; a statement may not update a row twice. *)
Fixpoint insert_logs (r : run_row) (touched : list string) (entries : list RunLogInput)
    : tx (list Z) :=
  match entries with
  | [] => mret []
  | entry :: rest =>
      if one_of (li_EntryID entry) touched then fail (ErrMsg "append run logs")
      else
        id ← insert_log r entry;
        ids ← insert_logs r (li_EntryID entry :: touched) rest;
        mret (id :: ids)
  end.

(** The statement for a single entry, and the one for a batch. *)
Definition append_to (r : run_row) (entries : list RunLogInput) : tx Z :=
  match entries with
  | [entry] => insert_log r entry
  | _ =>
      ids ← insert_logs r [] entries;
      match ids with
      | [] => fail ErrNotFound
      | id :: rest => mret (foldr Z.max id rest)
      end
  end.

Definition AppendRunLogs (runID tokenHash : string) (entries : list RunLogInput) : tx Z :=
  s ← get;
  t ← now;
  match sql_select (log_target runID tokenHash t) (job_runs s) with
  | [] => fail ErrNotFound
  | r :: _ => append_to r entries
  end.

Definition clamp_limit (limit : Z) : Z := if (limit <? 1) || (500 <? limit) then 100 else limit.

Definition log_entry (w : log_row) : RunLogEntry :=
  mk_log_entry (w_id w) (w_entry_id w) (w_stream w) (w_content w) (w_created_at w).

(** [WHERE tenant_id=$1 AND run_id=$2 AND id>$3 ORDER BY id] *)
Definition log_rows (tenantID runID : string) (after : Z) (s : db) : list log_row :=
  sort_by (λ a b, w_id a <=? w_id b)
    (sql_select (λ w, (w_tenant_id w ==s tenantID) && (w_run_id w ==s runID) && (after <? w_id w))
                (job_run_logs s)).

Definition ListRunLogs (tenantID runID : string) (after limit : Z) (s : db)
    : result (list RunLogEntry * Z) :=
  if negb (sql_exists (λ r, (r_tenant_id r ==s tenantID) && (r_id r ==s runID)) (job_runs s))
  then Err ErrNotFound
  else
    let logs := map log_entry (take (Z.to_nat (clamp_limit limit))
                                    (log_rows tenantID runID after s)) in
    Ok (logs, foldl (λ _ e, le_Cursor e) after logs).

(** ** The table

    Identifiers come from the sequence; a run has an entry once. *)
Record log_inv (s : db) : Prop := {
  li_ids : NoDup (map w_id (job_run_logs s));
  li_sequence : ∀ w, w ∈ job_run_logs s → w_id w ≤ log_sequence s;
  li_entries : NoDup (map (λ w, (w_run_id w, w_entry_id w)) (job_run_logs s));
}.

(** An append leaves the older rows alone; the new ones come from the sequence. *)
Record appended (s s' : db) : Prop := {
  ap_rows : ∃ new, job_run_logs s' = job_run_logs s ++ new ∧
    ∀ w, w ∈ new → log_sequence s < w_id w;
  ap_sequence : log_sequence s ≤ log_sequence s';
  ap_runs : job_runs s' = job_runs s;
  ap_inv : log_inv s → log_inv s';
}.

#[export] Instance appended_preorder : PreOrder appended.
Proof.
  split.
  - intros s. constructor; try done. exists []. split; [by rewrite app_nil_r|].
    by intros w ?%elem_of_nil.
  - intros s0 s1 s2 [(n1 & E1 & L1) S1 R1 I1] [(n2 & E2 & L2) S2 R2 I2].
    constructor; [|lia|congruence|auto]. exists (n1 ++ n2). split; [by rewrite E2, E1, app_assoc|].
    intros w [Hw|Hw]%elem_of_app; [by apply L1|]. specialize (L2 w Hw). lia.
Qed.

Lemma log_key_true runID entryID w :
  log_key runID entryID w = true ↔ w_run_id w = runID ∧ w_entry_id w = entryID.
Proof. unfold log_key. by rewrite andb_true_iff, !String.eqb_eq. Qed.

Lemma log_inv_app s w :
  log_inv s → log_sequence s < w_id w →
  sql_select (log_key (w_run_id w) (w_entry_id w)) (job_run_logs s) = [] →
  log_inv (set_job_run_logs (job_run_logs s ++ [w]) (set_log_sequence (w_id w) s)).
Proof.
  intros [G1 G2 G3] Hw Hk. constructor; cbn.
  - rewrite map_app. apply NoDup_app. split_and!; [done| |apply NoDup_singleton].
    intros i Hi ->%list_elem_of_singleton. apply list_elem_of_In, in_map_iff in Hi as (w' & E & Hw').
    apply list_elem_of_In, G2 in Hw'. lia.
  - intros w' [Hw'| ->%list_elem_of_singleton]%elem_of_app; [|lia]. apply G2 in Hw'. lia.
  - rewrite map_app. apply NoDup_app. split_and!; [done| |apply NoDup_singleton].
    intros i Hi ->%list_elem_of_singleton. apply list_elem_of_In, in_map_iff in Hi as (w' & E & Hw').
    apply list_elem_of_In in Hw'. injection E as E1 E2. apply (not_elem_of_nil w'). rewrite <- Hk.
    apply elem_of_sql_select. split; [|done]. by apply log_key_true.
Qed.

Lemma insert_log_effect r entry e s id s' :
  insert_log r entry e s = Ok (id, s') →
  appended s s' ∧ log_check entry = true ∧
  ∃ w, head (sql_select (log_key (r_id r) (li_EntryID entry)) (job_run_logs s')) = Some w ∧
       w_id w = id.
Proof.
  unfold insert_log, mbind, tx_bind, now, get, modify. cbn.
  destruct (log_check entry); [|done]. cbn.
  fold (sql_select (log_key (r_id r) (li_EntryID entry)) (job_run_logs s)).
  destruct (sql_select (log_key _ _) (job_run_logs s)) as [|w l] eqn:Ek; cbn;
    intros E; injection E as <- <-.
  - split_and!; [|done|].
    + constructor; cbn; [|lia|done|].
      * eexists. split; [done|]. intros w ->%list_elem_of_singleton. cbn. lia.
      * intros Hs. apply (log_inv_app s (mk_log (log_sequence s + 1) (r_tenant_id r) (r_id r)
          (li_EntryID entry) (li_Stream entry) (li_Content entry) (tx_now e))); [done|cbn; lia|done].
    + eexists. cbn. rewrite sql_select_app, Ek. cbn. rewrite (proj2 (log_key_true _ _ _)) by done.
      done.
  - split_and!; [|done|].
    + constructor; cbn; [|lia|done|].
      * exists []. split; [by rewrite app_nil_r|]. by intros ? ?%elem_of_nil.
      * intros [G1 G2 G3]. constructor; cbn; [done| |done]. intros w' Hw'. apply G2 in Hw'. lia.
    + exists w. split; [|done]. exact (f_equal head Ek).
Qed.

(** Rows that are there stay first of their key. *)
Lemma head_select_app p (l k : list log_row) w :
  head (sql_select p l) = Some w → head (sql_select p (l ++ k)) = Some w.
Proof. rewrite sql_select_app. by destruct (sql_select p l). Qed.

Definition stored (r : run_row) (s : db) (entry : RunLogInput) (id : Z) : Prop :=
  log_check entry = true ∧
  ∃ w, head (sql_select (log_key (r_id r) (li_EntryID entry)) (job_run_logs s)) = Some w ∧
       w_id w = id.

Lemma stored_appended r s s' entry id : appended s s' → stored r s entry id → stored r s' entry id.
Proof.
  intros [(new & E & _) _ _ _] [Hc (w & Hw & Hid)]. split; [done|]. exists w.
  split; [|done]. rewrite E. by apply head_select_app.
Qed.

Lemma insert_log_again r s entry id e :
  stored r s entry id → ∃ n, insert_log r entry e s = Ok (id, set_log_sequence n s).
Proof.
  intros [Hc (w & Hw & <-)]. unfold insert_log, mbind, tx_bind, now, get, modify. cbn.
  rewrite Hc. cbn. fold (sql_select (log_key (r_id r) (li_EntryID entry)) (job_run_logs s)).
  destruct (sql_select _ (job_run_logs s)) as [|w' l]; [done|]. injection Hw as ->. by eexists.
Qed.

Lemma insert_logs_effect r touched entries e s ids s' :
  insert_logs r touched entries e s = Ok (ids, s') →
  appended s s' ∧ Forall2 (stored r s') entries ids ∧
  ∀ e' s1, Forall2 (stored r s1) entries ids →
    ∃ n, insert_logs r touched entries e' s1 = Ok (ids, set_log_sequence n s1).
Proof.
  revert touched s ids s'. induction entries as [|entry entries IH]; intros touched s ids s' Hi;
    cbn [insert_logs] in Hi.
  { injection Hi as <- <-. split_and!; [done|constructor|]. intros e' s1 _.
    exists (log_sequence s1). cbn. by destruct s1. }
  destruct (one_of _ _) eqn:Et; [done|]. unfold mbind, tx_bind in Hi.
  destruct (insert_log r entry e s) as [[id s1]|] eqn:E1; [|done].
  destruct (insert_logs r _ entries e s1) as [[ids' s2]|] eqn:E2; [|done].
  injection Hi as <- <-. apply insert_log_effect in E1 as (A1 & Hc & Hw).
  destruct (IH _ _ _ _ E2) as (A2 & F2 & Hre). split_and!.
  - by transitivity s1.
  - constructor; [|done]. apply (stored_appended r s1); [done|]. by split.
  - intros e' s3 [Hs3 F3]%Forall2_cons_1. cbn [insert_logs]. rewrite Et.
    destruct (insert_log_again r s3 entry id e' Hs3) as [n1 E3].
    unfold mbind, tx_bind. rewrite E3. destruct (Hre e' (set_log_sequence n1 s3)) as [n ->]; [exact F3|].
    by exists n.
Qed.

(** The row an append is for, when run identifiers are unique. *)
Lemma log_target_unique runID tokenHash t t' s r l :
  NoDup (map r_id (job_runs s)) →
  sql_select (log_target runID tokenHash t) (job_runs s) = r :: l →
  log_target runID tokenHash t' r = true →
  ∃ l', sql_select (log_target runID tokenHash t') (job_runs s) = r :: l'.
Proof.
  intros Hn E Ht'. assert (Hr : r ∈ sql_select (log_target runID tokenHash t) (job_runs s))
    by (rewrite E; left).
  apply elem_of_sql_select in Hr as [Ht Hr].
  assert (Hr' : r ∈ sql_select (log_target runID tokenHash t') (job_runs s))
    by by apply elem_of_sql_select.
  destruct (sql_select (log_target runID tokenHash t') (job_runs s)) as [|r' l'] eqn:E';
    [by apply elem_of_nil in Hr'|].
  exists l'. f_equal. assert (Hr2 : r' ∈ sql_select (log_target runID tokenHash t') (job_runs s))
    by (rewrite E'; left).
  apply elem_of_sql_select in Hr2 as [Ht2 Hr2]. apply (NoDup_key_inj r_id (job_runs s)); try done.
  unfold log_target in Ht, Ht2. bool_to_prop. congruence.
Qed.


Lemma append_to_effect r entries e s cursor s' :
  append_to r entries e s = Ok (cursor, s') →
  appended s s' ∧ ∀ e' s2, appended s' s2 →
    ∃ n, append_to r entries e' s2 = Ok (cursor, set_log_sequence n s2).
Proof.
  assert (Hgen : ∀ ids, insert_logs r [] entries e s = Ok (ids, s') →
    appended s s' ∧ ∀ e' s2, appended s' s2 →
      ∃ n, insert_logs r [] entries e' s2 = Ok (ids, set_log_sequence n s2)).
  { intros ids E. destruct (insert_logs_effect _ _ _ _ _ _ _ E) as (A & F & Hre). split; [done|].
    intros e' s2 A2. apply Hre. eapply Forall2_impl; [exact F|]. intros. by eapply stored_appended. }
  assert (Hbatch : (ids ← insert_logs r [] entries;
      match ids with [] => fail ErrNotFound | id :: rest => mret (foldr Z.max id rest) end) e s
        = Ok (cursor, s') →
    appended s s' ∧ ∀ e' s2, appended s' s2 → ∃ n, (ids ← insert_logs r [] entries;
      match ids with [] => fail ErrNotFound | id :: rest => mret (foldr Z.max id rest) end) e' s2
        = Ok (cursor, set_log_sequence n s2)).
  { unfold mbind, tx_bind. destruct (insert_logs r [] entries e s) as [[[|id ids] s1]|]; [done| |done].
    intros E. injection E as <- ->. destruct (Hgen (id :: ids) eq_refl) as [A Hre].
    split; [done|]. intros e' s2 A2. destruct (Hre e' s2 A2) as [n ->]. by exists n. }
  unfold append_to. destruct entries as [|entry [|entry2 entries]]; [done| |exact Hbatch].
  intros E. apply insert_log_effect in E as (A & Hc & Hw). split; [done|]. intros e' s2 A2.
  apply insert_log_again, (stored_appended r s'); [done|]. by split.
Qed.

(** sending a batch of log entries again, whatever was appended meanwhile,
    gives the same cursor and adds no row, as long as the run still accepts
    logs under the token. *)
Theorem append_is_idempotent runID tokenHash entries e s cursor s1 s2 e' :
  NoDup (map r_id (job_runs s)) →
  AppendRunLogs runID tokenHash entries e s = Ok (cursor, s1) → appended s1 s2 →
  (∀ r, r ∈ job_runs s → log_target runID tokenHash (tx_now e) r = true →
     log_target runID tokenHash (tx_now e') r = true) →
  ∃ s3, AppendRunLogs runID tokenHash entries e' s2 = Ok (cursor, s3) ∧
    job_run_logs s3 = job_run_logs s2.
Proof.
  intros Hn Hc A2 Ht.
  change (match sql_select (log_target runID tokenHash (tx_now e)) (job_runs s) with
          | [] => fail ErrNotFound | r :: _ => append_to r entries end e s = Ok (cursor, s1)) in Hc.
  destruct (sql_select (log_target runID tokenHash (tx_now e)) (job_runs s)) as [|r l] eqn:Er; [done|].
  assert (Hr : r ∈ sql_select (log_target runID tokenHash (tx_now e)) (job_runs s)) by (rewrite Er; left).
  apply elem_of_sql_select in Hr as [Hr1 Hr].
  destruct (log_target_unique _ _ _ (tx_now e') _ _ _ Hn Er (Ht r Hr Hr1)) as [l' Er'].
  destruct (append_to_effect _ _ _ _ _ _ Hc) as [A1 Hre]. destruct (Hre e' s2 A2) as [n En].
  exists (set_log_sequence n s2). split; [|done].
  change (match sql_select (log_target runID tokenHash (tx_now e')) (job_runs s2) with
          | [] => fail ErrNotFound | r :: _ => append_to r entries end e' s2
          = Ok (cursor, set_log_sequence n s2)).
  replace (job_runs s2) with (job_runs s) by (rewrite (ap_runs _ _ A2), (ap_runs _ _ A1); done).
  by rewrite Er'.
Qed.

(** ** Readers *)

Definition log_le (a b : log_row) : bool := w_id a <=? w_id b.
Definition log_wanted (tenantID runID : string) (after : Z) (w : log_row) : bool :=
  (w_tenant_id w ==s tenantID) && (w_run_id w ==s runID) && (after <? w_id w).

Lemma log_le_total x y : log_le x y = true ∨ log_le y x = true.
Proof. unfold log_le. rewrite !Z.leb_le. lia. Qed.
Lemma log_le_trans x y z : log_le x y = true → log_le y z = true → log_le x z = true.
Proof. unfold log_le. rewrite !Z.leb_le. lia. Qed.

Lemma log_inv_keyed p s : log_inv s → keyed log_le (sql_select p (job_run_logs s)).
Proof.
  intros Hs. split.
  - apply (NoDup_fmap_1 w_id), NoDup_map_filter, Hs.
  - intros x y Hx Hy. unfold log_le. rewrite !Z.leb_le. intros ? ?.
    apply elem_of_sql_select in Hx as [_ Hx], Hy as [_ Hy].
    apply (NoDup_key_inj w_id (job_run_logs s)); [apply Hs|done|done|lia].
Qed.

(** Rows appended later come behind the rows that were there. *)
Lemma log_rows_appended tenantID runID after s s' :
  log_inv s → appended s s' →
  ∃ more, log_rows tenantID runID after s' = log_rows tenantID runID after s ++ more.
Proof.
  intros Hs [(new & E & Hnew) _ _ Hi]. exists (sort_by log_le (sql_select (log_wanted tenantID runID after) new)).
  change (log_rows tenantID runID after s')
    with (sort_by log_le (sql_select (log_wanted tenantID runID after) (job_run_logs s'))).
  change (log_rows tenantID runID after s)
    with (sort_by log_le (sql_select (log_wanted tenantID runID after) (job_run_logs s))).
  pose proof (log_inv_keyed (log_wanted tenantID runID after) s' (Hi Hs)) as [_ Hk].
  apply (StronglySorted_unique_strong (λ x y, log_le x y = true)).
  - intros x y Hx%elem_of_sort_by Hy. apply Hk; [done|].
    rewrite E, sql_select_app. apply elem_of_app in Hy as [Hy|Hy]; apply elem_of_sort_by in Hy;
      apply elem_of_app; auto.
  - apply sort_by_sorted; [apply log_le_total|apply log_le_trans].
  - apply StronglySorted_app_2; try (apply sort_by_sorted; [apply log_le_total|apply log_le_trans]).
    intros x y Hx Hy. apply elem_of_sort_by, elem_of_sql_select in Hx as [_ Hx], Hy as [_ Hy].
    apply (li_sequence s Hs) in Hx. apply Hnew in Hy. unfold log_le. apply Z.leb_le. lia.
  - by rewrite !sort_by_Permutation, E, sql_select_app.
Qed.

(** Moving the cursor to the last row of a page. *)
Lemma log_rows_next tenantID runID after s n c :
  log_inv s → last (take n (log_rows tenantID runID after s)) = Some c →
  log_rows tenantID runID (w_id c) s = drop n (log_rows tenantID runID after s).
Proof.
  intros Hs Hc. unfold log_rows in Hc |- *. fold log_le in Hc |- *.
  assert (Hin : c ∈ sql_select (log_wanted tenantID runID after) (job_run_logs s)).
  { apply (elem_of_sort_by log_le). apply last_Some_elem_of in Hc.
    apply elem_of_take in Hc as (i & Hc & _). by apply list_elem_of_lookup_2 in Hc. }
  apply elem_of_sql_select in Hin as [Hw _]. unfold log_wanted in Hw. bool_to_prop.
  rewrite <- (page_after log_le log_le_total log_le_trans _ n c (λ w, w_id c <? w_id w)).
  - f_equal. unfold sql_select. rewrite filter_filter_and. apply List.filter_ext. intros w.
    destruct (w_tenant_id w ==s tenantID), (w_run_id w ==s runID); cbn; try done.
    destruct (Z.ltb_spec (w_id c) (w_id w)), (Z.ltb_spec after (w_id w)); try done. lia.
  - by apply log_inv_keyed.
  - exact Hc.
  - intros x _. unfold log_le. by rewrite Z.ltb_antisym.
Qed.

Lemma foldl_cursor l c after :
  last l = Some c → foldl (λ _ e, le_Cursor e) after (map log_entry l) = w_id c.
Proof. intros [l' ->]%last_Some. by rewrite map_app, foldl_app. Qed.

(** A reader that follows the log of a run with the returned cursors sees
    every entry once and in order: what can be read from the old cursor at any
    later time is the page it got, followed by what the new cursor gives.  A
    page has at most 500 entries. *)
Theorem log_reader_misses_nothing tenantID runID after limit s page next s' :
  log_inv s → ListRunLogs tenantID runID after limit s = Ok (page, next) → appended s s' →
  map log_entry (log_rows tenantID runID after s') =
    page ++ map log_entry (log_rows tenantID runID next s') ∧
  (length page ≤ 500)%nat.
Proof.
  intros Hs Hl A. unfold ListRunLogs in Hl. destruct (negb _); [done|].
  set (n := Z.to_nat (clamp_limit limit)) in Hl. injection Hl as <- <-.
  assert (Hlen : (n ≤ 500)%nat).
  { unfold n, clamp_limit. destruct ((limit <? 1) || (500 <? limit)) eqn:E; bool_to_prop; lia. }
  split; [|rewrite length_map, length_take; lia].
  destruct (log_rows_appended tenantID runID after s s' Hs A) as [more Em].
  set (L := log_rows tenantID runID after s) in *. set (k := length (take n L)).
  assert (Ek : take k (log_rows tenantID runID after s') = take n L).
  { rewrite Em. unfold k. rewrite take_app_le by (rewrite length_take; lia).
    rewrite length_take. destruct (Nat.min_spec n (length L)) as [[? ->]|[? ->]]; [done|].
    by rewrite !take_ge by lia. }
  destruct (last (take n L)) as [c|] eqn:Ec.
  - rewrite (foldl_cursor _ c) by done. rewrite <- Ek in Ec |- *.
    rewrite (log_rows_next tenantID runID after s' k c) by (done || by apply A).
    rewrite <- map_app. by rewrite take_drop.
  - apply last_None in Ec. by rewrite Ec.
Qed.
End RunLogs.
