(* ===== verification/RouteProofs.v ===== *)
(** * Runs go to nodes that may run them, in turn

    The label filter of the SQL query and the one of the Go code agree, a
    claimed run is only routed to a live node its job's labels admit, and
    round-robin reservations visit every such node in turn. *)
From Stdlib Require Import ZArith Lia Ascii String Sorted.
From stdpp Require Import base list strings sorting.
From S2P Require Import Prelude GoStrings GoTime Tables Executors RunStore Routing JobStore Samples Scheduler ExecutorStore.

Module RouteProofs.
Import Executors RunStore JobStore Scheduler Routing ExecutorStore.

(** ** Labels *)

Lemma has_label_one_of n label : has_label n label = one_of label (Labels n).
Proof. done. Qed.

Lemma forallb_job_labels (p : string → bool) jobID excl s rows :
  (∀ l, l ∈ rows ↔ l ∈ job_executor_labels s ∧ l_job_id l = jobID) →
  forallb p (map l_label (List.filter (λ l, Bool.eqb (l_excluded l) excl) rows)) = true ↔
  ∀ l, l ∈ job_executor_labels s → l_job_id l = jobID → l_excluded l = excl → p (l_label l) = true.
Proof.
  intros Hrows. rewrite forallb_forall. setoid_rewrite in_map_iff. setoid_rewrite filter_In. split.
  - intros Hp l Hl Hj He. apply Hp. exists l. split; [done|]. split.
    + apply list_elem_of_In, Hrows. done.
    + rewrite He. apply Bool.eqb_reflx.
  - intros Hp x (l & <- & Hl & He). apply list_elem_of_In, Hrows in Hl as [? ?].
    apply Hp; [done|done|]. by apply Bool.eqb_prop.
Qed.

Lemma filter_ext_in' {A} (p q : A → bool) l : (∀ x, p x = q x) → List.filter p l = List.filter q l.
Proof. intros E. induction l as [|x l IH]; cbn; [done|]. by rewrite E, IH. Qed.

(** The predicate of the query and [FilterExecutorNodes] agree on a node. *)
Lemma labels_admit_matches jobID s n :
  labels_admit jobID (Labels n) s = node_matches (job_labels jobID s).1 (job_labels jobID s).2 n.
Proof.
  unfold job_labels. cbn.
  set (rows := sort_by _ _).
  assert (Hrows : ∀ l, l ∈ rows ↔ l ∈ job_executor_labels s ∧ l_job_id l = jobID).
  { intros l. unfold rows. rewrite elem_of_sort_by, elem_of_sql_select, String.eqb_eq. tauto. }
  rewrite (filter_ext_in' _ (λ l, Bool.eqb (l_excluded l) false)) by (intros l; by destruct (l_excluded l)).
  rewrite (filter_ext_in' l_excluded (λ l, Bool.eqb (l_excluded l) true))
    by (intros l; by destruct (l_excluded l)).
  unfold node_matches, labels_admit. apply eq_iff_eq_true.
  rewrite andb_true_iff, (forallb_job_labels _ _ false s rows Hrows),
    (forallb_job_labels _ _ true s rows Hrows), negb_true_iff, sql_exists_false.
  setoid_rewrite has_label_one_of. split.
  - intros Hn. split; intros l Hl Hj He; specialize (Hn l Hl); rewrite Hj, He, String.eqb_refl in Hn;
      cbn in Hn; destruct (one_of _ _); done.
  - intros [Hr Hx] l Hl. destruct (l_job_id l ==s jobID) eqn:Ej; [|done].
    apply String.eqb_eq in Ej. destruct (l_excluded l) eqn:He; cbn.
    + specialize (Hx l Hl Ej He). by destruct (one_of _ _).
    + specialize (Hr l Hl Ej He). by rewrite Hr.
Qed.

Lemma Permutation_filter' {A} (p : A → bool) l k : l ≡ₚ k → List.filter p l ≡ₚ List.filter p k.
Proof.
  induction 1 as [|x l k _ IH|x y l|l k m _ IH1 _ IH2]; cbn; [done| | |by etrans].
  - destruct (p x); [by constructor|done].
  - destruct (p x), (p y); try done. constructor.
Qed.

(** The routing query with its [NOT EXISTS] and the Go filter agree: the
    candidates of a job are exactly the live nodes of its group that
    [FilterExecutorNodes] keeps for the job's labels. *)
Theorem candidates_match_filter tenantID groupID jobID t s strategy nodes :
  ExecutorRouteCandidates tenantID groupID jobID t s = Ok (strategy, nodes) →
  nodes ≡ₚ FilterExecutorNodes (ListExecutorNodes tenantID groupID true t s)
             (job_labels jobID s).1 (job_labels jobID s).2.
Proof.
  unfold ExecutorRouteCandidates, ListExecutorNodes, job_route_group.
  destruct (group_of tenantID groupID s); [|done]. destruct (sql_exists _ _); [|done].
  cbv zeta. set (cands := map _ _). intros [= _ <-]. unfold cands, FilterExecutorNodes, sort_nodes.
  rewrite sort_by_Permutation.
  assert (E : ∀ l : list node_row, List.filter (node_matches (job_labels jobID s).1 (job_labels jobID s).2)
      (map (λ n, node_of_row n 0 0) l)
    = map (λ n, node_of_row n 0 0) (List.filter (λ n, labels_admit jobID (n_labels n) s) l)).
  { induction l as [|n l IH]; [done|]. cbn [map List.filter].
    rewrite <- (labels_admit_matches jobID s (node_of_row n 0 0)). cbn [node_of_row Labels].
    destruct (labels_admit _ _ _); cbn [map]; by rewrite IH. }
  rewrite E. apply Permutation_map. etrans; [|symmetry; apply Permutation_filter', sort_by_Permutation].
  unfold sql_select. cbn [negb orb]. clear.
  induction (executor_nodes s) as [|n l IH]; cbn; [done|].
  destruct ((n_group_id n ==s groupID) && node_is_live t n); cbn; [|done].
  destruct (labels_admit _ _ _); [by constructor|done].
Qed.

(** ** Where a claimed run goes *)

(** A live node of the group that the job's labels admit. *)
Definition routable (groupID jobID : string) (t : time) (s : db) (n : ExecutorNode) : Prop :=
  ∃ row, row ∈ executor_nodes s ∧ n_group_id row = groupID ∧ node_is_live t row = true ∧
    labels_admit jobID (n_labels row) s = true ∧
    NodeID n = n_node_id row ∧ Address n = n_address row.

(** Where the run may go: broadcast shards and recovered containers to the node
    they have, overridden runs to one of their addresses, others to a routable
    node. *)
Definition may_go (c : ClaimedRun) (t : time) (s : db) (n : ExecutorNode) : Prop :=
  if (BroadcastGroupID (cl_run c) !=s "") || fixedExecutorForRecovery (cl_run c) (cl_job c) then
    NodeID n = ExecutorNodeID (cl_run c) ∧ Address n = ExecutorAddress (cl_run c)
  else if negb (Nat.eqb (length (OverrideAddresses (cl_run c))) 0) then
    Address n ∈ OverrideAddresses (cl_run c)
  else routable (coalesce (c_executor_group_id (Job_Conf (cl_job c))) "") (Job_ID (cl_job c)) t s n.

Lemma selected_node_in nodes c n : selected_node nodes c = Ok n → n ∈ nodes ∧ NodeID n = ec_ID c.
Proof.
  unfold selected_node. destruct (List.find _ nodes) as [m|] eqn:E; [|done]. intros [= <-].
  apply find_some in E as [Hin He%String.eqb_eq]. by apply list_elem_of_In in Hin.
Qed.

Lemma snapshot_routable groupID jobID t s n :
  n ∈ FilterExecutorNodes (snapshot_nodes groupID jobID t s)
        (job_labels jobID s).1 (job_labels jobID s).2 →
  routable groupID jobID t s n.
Proof.
  unfold FilterExecutorNodes, snapshot_nodes. intros Hn.
  apply list_elem_of_In, filter_In in Hn as [Hn Hm]. apply in_map_iff in Hn as (row & <- & Hrow).
  unfold sort_nodes in Hrow.
  apply list_elem_of_In, elem_of_sort_by, elem_of_sql_select in Hrow
    as [[Hg%String.eqb_eq Hl]%andb_true_iff Hrow].
  exists row. rewrite <- labels_admit_matches in Hm.
  unfold snapshot_node in *. destruct (route_of _ _ _ _); cbn in *; done.
Qed.

Lemma candidates_routable tenantID groupID jobID t s strategy nodes n :
  ExecutorRouteCandidates tenantID groupID jobID t s = Ok (strategy, nodes) → n ∈ nodes →
  routable groupID jobID t s n.
Proof.
  unfold ExecutorRouteCandidates. destruct (job_route_group _ _ _ _) as [g|]; [|done]. cbv zeta.
  set (cands := map _ _). intros [= _ <-] Hn. unfold cands, sort_nodes in Hn.
  apply list_elem_of_In, in_map_iff in Hn as (row & <- & Hrow).
  apply list_elem_of_In, elem_of_sort_by, elem_of_sql_select in Hrow
    as [[[Hg%String.eqb_eq Hl]%andb_true_iff Ha]%andb_true_iff Hrow].
  by exists row.
Qed.

Lemma override_nodes_in `{Digest} addresses n :
  n ∈ OverrideExecutorNodes addresses → Address n ∈ addresses.
Proof.
  unfold OverrideExecutorNodes. intros Hn. apply list_elem_of_In, in_map_iff in Hn as (a & <- & Ha).
  by apply list_elem_of_In.
Qed.

Lemma override_snapshot_in `{Digest} jobID addresses s n :
  n ∈ override_snapshot jobID addresses s → Address n ∈ addresses.
Proof.
  unfold override_snapshot. intros Hn. apply list_elem_of_In, in_map_iff in Hn as (m & <- & Hm).
  apply list_elem_of_In, override_nodes_in in Hm. by destruct (sql_select _ _).
Qed.

(** The counter is the only thing that changes before the snapshot. *)
Lemma wp_bump_counter jobID (Q : Z → db → Prop) e s :
  (∀ cursor s', executor_nodes s' = executor_nodes s → job_executor_labels s' = job_executor_labels s →
     route_state s' = route_state s → override_route_state s' = override_route_state s →
     Q cursor s') → wp (bump_counter jobID) Q e s.
Proof.
  intros HQ. unfold bump_counter. apply wp_bind, wp_get.
  destruct (sql_select _ _); apply wp_bind, wp_modify, wp_ret; by apply HQ.
Qed.

Lemma wp_record_route jobID groupID nodeID e s :
  wp (record_route jobID groupID nodeID) (λ _ _, True) e s.
Proof. unfold wp. by destruct (record_route _ _ _ e s) as [[]|]. Qed.

Lemma snapshot_same groupID jobID t s s' :
  executor_nodes s' = executor_nodes s → route_state s' = route_state s →
  snapshot_nodes groupID jobID t s' = snapshot_nodes groupID jobID t s.
Proof. intros En Er. unfold snapshot_nodes, snapshot_node, route_of. by rewrite En, Er. Qed.

Lemma routable_same groupID jobID t s s' n :
  executor_nodes s' = executor_nodes s → job_executor_labels s' = job_executor_labels s →
  routable groupID jobID t s' n → routable groupID jobID t s n.
Proof. intros En El. unfold routable, labels_admit. by rewrite En, El. Qed.

Section routes.
Context `{Host} `{Digest} `{SliceSortLaws} `{RouteHash}.
Context (probe : string → string → string → bool) (random : Z).

Lemma reserve_routable tenantID groupID jobID e s n s' :
  ReserveExecutorRoute tenantID groupID jobID
    (route_selector random false (job_labels jobID s).1 (job_labels jobID s).2 jobID) e s = Ok (n, s') →
  routable groupID jobID (tx_now e) s n.
Proof.
  intros Hres.
  assert (Hw : wp (ReserveExecutorRoute tenantID groupID jobID
     (route_selector random false (job_labels jobID s).1 (job_labels jobID s).2 jobID))
     (λ n _, routable groupID jobID (tx_now e) s n) e s); [|unfold wp in Hw; by rewrite Hres in Hw].
  unfold ReserveExecutorRoute. apply wp_bind, wp_get, wp_bind, wp_now.
  destruct (job_route_group _ _ _ _) as [g|]; [|done]. apply wp_bind, wp_bump_counter.
  intros cursor s1 En El Er _. apply wp_bind, wp_get, wp_bind, wp_lift. intros sel Hsel.
  apply wp_bind. eapply wp_mono; [apply wp_record_route|]. intros [] s2 _. apply wp_ret.
  unfold route_selector in Hsel. cbn [Nodes Strategy Cursor] in Hsel.
  apply result_bind_Ok in Hsel as (c & _ & Hin). apply selected_node_in in Hin as [Hin _].
  rewrite (snapshot_same _ _ _ s s1 En Er) in Hin. by apply snapshot_routable.
Qed.

Lemma reserve_override_in tenantID groupID jobID addresses req exc e s n s' :
  ReserveExecutorOverrideRoute tenantID groupID jobID addresses
    (route_selector random true req exc jobID) e s = Ok (n, s') → Address n ∈ addresses.
Proof.
  intros Hres.
  assert (Hw : wp (ReserveExecutorOverrideRoute tenantID groupID jobID addresses
     (route_selector random true req exc jobID)) (λ n _, Address n ∈ addresses) e s);
    [|unfold wp in Hw; by rewrite Hres in Hw].
  unfold ReserveExecutorOverrideRoute. apply wp_bind, wp_get.
  destruct (job_route_group _ _ _ _) as [g|]; [|done]. apply wp_bind, wp_bump_counter.
  intros cursor s1 _ _ _ _. apply wp_bind, wp_get, wp_bind, wp_lift. intros sel Hsel.
  unfold record_override. apply wp_bind, wp_bind, wp_get, wp_bind, wp_now, wp_modify, wp_ret.
  unfold route_selector in Hsel. cbn [Nodes Strategy Cursor] in Hsel.
  apply result_bind_Ok in Hsel as (c & _ & Hin). apply selected_node_in in Hin as [Hin _].
  by apply override_snapshot_in in Hin.
Qed.

Lemma commit_Ok {A} (m : tx A) e s a s' : commit m e s = (Ok a, s') → m e s = Ok (a, s').
Proof. unfold commit. destruct (m e s) as [[b s1]|]; intros [= -> ->]; done. Qed.

(** C36: a run is never sent to a node that must not run it: a broadcast
    shard or a container to be recovered goes to the node it was given, a run
    with override addresses to one of them, any other run to a node of its
    job's group that is live and that the job's labels admit, whatever the
    strategy, the probes' answers and the random number. *)
Theorem routed_node_is_allowed c e s n s' :
  routeClaimedExecutor probe random c e s = (Ok n, s') → may_go c (tx_now e) s n.
Proof.
  unfold routeClaimedExecutor, may_go. cbv zeta.
  destruct (BroadcastGroupID (cl_run c) !=s "") eqn:Eb; cbn [orb].
  { destruct (_ || _); [done|]. by intros [= <- _]. }
  destruct (fixedExecutorForRecovery _ _); [by intros [= <- _]|].
  destruct (job_labels (Job_ID (cl_job c)) s) as [required excluded] eqn:El.
  destruct (negb (Nat.eqb _ _)) eqn:Eo.
  - destruct (ExecutorRouteStrategy _ _ _ _) as [strategy|] eqn:Er; [|done]. cbn [mbind result_bind].
    destruct (_ || _).
    { unfold probe_nodes. intros [= Hn _]. apply result_bind_Ok in Hn as (sel & _ & Hin).
      apply selected_node_in in Hin as [Hin _]. by apply override_nodes_in in Hin. }
    assert (Hres : commit (ReserveExecutorOverrideRoute (Job_TenantID (cl_job c))
        (coalesce (c_executor_group_id (Job_Conf (cl_job c))) "") (Job_ID (cl_job c))
        (OverrideAddresses (cl_run c)) (route_selector random true required excluded (Job_ID (cl_job c))))
        e s = (Ok n, s') → Address n ∈ OverrideAddresses (cl_run c))
      by (intros Hc%commit_Ok; by eapply reserve_override_in).
    destruct (OverrideExecutorNodes _) as [|n1 [|n2 ns]] eqn:En; [exact Hres| |exact Hres].
    intros [= <- _]. apply override_nodes_in. rewrite En. left.
  - destruct (ExecutorRouteCandidates _ _ _ _ _) as [[strategy nodes]|] eqn:Er; [|done].
    cbn [mbind result_bind].
    assert (Hnodes : FilterExecutorNodes nodes [] [] = nodes)
      by (unfold FilterExecutorNodes; clear; induction nodes as [|x l IH]; cbn in *; congruence).
    rewrite Hnodes. destruct (_ || _).
    { unfold probe_nodes. intros [= Hn _]. apply result_bind_Ok in Hn as (sel & _ & Hin).
      apply selected_node_in in Hin as [Hin _]. by eapply candidates_routable. }
    assert (Hres : commit (ReserveExecutorRoute (Job_TenantID (cl_job c))
        (coalesce (c_executor_group_id (Job_Conf (cl_job c))) "") (Job_ID (cl_job c))
        (route_selector random false required excluded (Job_ID (cl_job c))))
        e s = (Ok n, s') → routable (coalesce (c_executor_group_id (Job_Conf (cl_job c))) "")
          (Job_ID (cl_job c)) (tx_now e) s n).
    { intros Hc%commit_Ok. apply (reserve_routable (Job_TenantID (cl_job c)) _ _ _ _ _ s').
      by rewrite El. }
    destruct nodes as [|n1 [|n2 ns]]; [exact Hres| |exact Hres].
    intros [= <- _]. eapply candidates_routable; [exact Er|left].
Qed.

(** ** Taking turns *)

Fixpoint reserve_all (tenantID groupID jobID : string) (selector : ExecutorSelector)
    (es : list env) (s : db) : list (result ExecutorNode) * db :=
  match es with
  | [] => ([], s)
  | e :: es =>
      let '(r, s1) := commit (ReserveExecutorRoute tenantID groupID jobID selector) e s in
      let '(rs, s2) := reserve_all tenantID groupID jobID selector es s1 in
      (r :: rs, s2)
  end.

(** The nodes the selector chooses among. *)
Definition route_ids (groupID jobID : string) (required excluded : list string) (t : time) (s : db)
    : list string :=
  map NodeID (FilterExecutorNodes (snapshot_nodes groupID jobID t s) required excluded).

(** The next value of the job's counter. *)
Definition next_cursor (jobID : string) (s : db) : Z :=
  match sql_select (λ u, u_job_id u ==s jobID) (route_counters s) with
  | [] => 0
  | u :: _ => u_route_count u + 1
  end.

Lemma snapshot_node_id jobID s n : NodeID (snapshot_node jobID s n) = n_node_id n.
Proof. unfold snapshot_node. by destruct (route_of _ _ _ _). Qed.

Lemma snapshot_node_labels jobID s n : Labels (snapshot_node jobID s n) = n_labels n.
Proof. unfold snapshot_node. by destruct (route_of _ _ _ _). Qed.

Lemma node_matches_labels req exc a b :
  Labels a = Labels b → node_matches req exc a = node_matches req exc b.
Proof. intros E. unfold node_matches, has_label. by rewrite E. Qed.

(** They depend on the nodes only, not on their use. *)
Lemma route_ids_same groupID jobID req exc t s s' :
  executor_nodes s' = executor_nodes s →
  route_ids groupID jobID req exc t s' = route_ids groupID jobID req exc t s.
Proof.
  intros En. unfold route_ids, snapshot_nodes, FilterExecutorNodes. rewrite En.
  induction (sort_nodes _) as [|n l IH]; [done|]. cbn [map List.filter].
  rewrite (node_matches_labels _ _ (snapshot_node jobID s' n) (snapshot_node jobID s n))
    by (by rewrite !snapshot_node_labels).
  destruct (node_matches _ _ _); [|done]. cbn [map]. by rewrite !snapshot_node_id, IH.
Qed.

#[local] Instance leb_antisym : AntiSymm (=) (λ a b, String.leb a b = true).
Proof. intros a b. apply str_leb_antisym. Qed.

(** Sorting candidates sorts their identifiers. *)
Lemma sorted_ids cands : map ec_ID (sort_Slice less_id cands) = sort_by String.leb (map ec_ID cands).
Proof.
  apply (StronglySorted_unique (λ a b, String.leb a b = true)).
  - pose proof (sort_Slice_sorted _ less_id cands less_id_weak) as Hs.
    induction Hs as [|c l _ IH Hc]; cbn; constructor; [done|].
    apply Forall_fmap. eapply Forall_impl; [exact Hc|]. intros x Hx. cbn.
    unfold less_id in Hx. rewrite str_ltb_leb in Hx. by apply negb_false_iff in Hx.
  - apply sort_by_sorted; [apply str_leb_total|apply str_leb_trans].
  - rewrite sort_by_Permutation. apply Permutation_map, sort_Slice_perm.
Qed.

Lemma round_selects cands cursor key :
  0 ≤ cursor → cands ≠ [] →
  ∃ c, selectExecutorNode cands "round" cursor random key = Ok c ∧ c ∈ cands ∧
    index (sort_by String.leb (map ec_ID cands))
          (Z.to_nat (Z.rem cursor (Z.of_nat (length cands)))) = Ok (ec_ID c).
Proof.
  intros Hc Hne. assert (Hlen : (0 < length cands)%nat) by (destruct cands; cbn; [done|lia]).
  unfold selectExecutorNode. rewrite (proj2 (Nat.eqb_neq _ _)) by lia.
  cbn -[Z.rem]. rewrite (proj2 (Z.ltb_ge _ _) Hc), length_sort_Slice.
  set (i := Z.to_nat _).
  assert (Hi : (i < length cands)%nat).
  { unfold i. pose proof (Z.rem_bound_pos cursor (Z.of_nat (length cands))). lia. }
  destruct (index_ok (sort_Slice less_id cands) i) as (c & Ec & Hin);
    [by rewrite length_sort_Slice|]. exists c. apply elem_of_sort_Slice in Hin.
  split_and!; [done|done|]. rewrite <- sorted_ids. unfold index in *.
  rewrite list_lookup_fmap. by destruct (_ !! i) as [x|]; [injection Ec as ->|].
Qed.

Lemma bump_counter_next jobID e s :
  ∃ s1, bump_counter jobID e s = Ok (next_cursor jobID s, s1) ∧
    next_cursor jobID s1 = next_cursor jobID s + 1 ∧ executor_nodes s1 = executor_nodes s ∧
    executor_groups s1 = executor_groups s ∧ jobs s1 = jobs s ∧ route_state s1 = route_state s.
Proof.
  unfold bump_counter, next_cursor, mbind, tx_bind. cbn.
  destruct (sql_select _ (route_counters s)) as [|u us] eqn:E; cbn; eexists; split_and!; try done; cbn.
  - rewrite sql_select_app, E. cbn. unfold sql_select. cbn. by rewrite String.eqb_refl.
  - assert (Hsel : ∀ l, sql_select (λ u, u_job_id u ==s jobID)
        (sql_update (λ u, u_job_id u ==s jobID) (λ u, mk_counter (u_job_id u) (u_route_count u + 1)) l)
      = map (λ u, mk_counter (u_job_id u) (u_route_count u + 1))
          (sql_select (λ u, u_job_id u ==s jobID) l)).
    { unfold sql_select, sql_update. induction l as [|x l IH]; [done|]. cbn [map List.filter].
      destruct (u_job_id x ==s jobID) eqn:Ex; cbn [map u_job_id]; rewrite Ex; [by rewrite IH|done]. }
    rewrite Hsel, E. cbn. lia.
Qed.

Lemma selected_node_total nodes c :
  c ∈ map candidate_of nodes → ∃ n, selected_node nodes c = Ok n ∧ n ∈ nodes ∧ NodeID n = ec_ID c.
Proof.
  intros Hc. apply list_elem_of_In, in_map_iff in Hc as (n & <- & Hn). unfold selected_node.
  destruct (List.find _ nodes) as [m|] eqn:E.
  - exists m. apply find_some in E as [Hm He%String.eqb_eq]. by apply list_elem_of_In in Hm.
  - exfalso. apply (find_none _ _ E) in Hn. cbn in Hn. by rewrite String.eqb_refl in Hn.
Qed.

Lemma record_route_total jobID groupID nodeID e s :
  sql_exists (same_node groupID nodeID) (executor_nodes s) = true →
  ∃ s', record_route jobID groupID nodeID e s = Ok (tt, s') ∧ executor_nodes s' = executor_nodes s ∧
    executor_groups s' = executor_groups s ∧ jobs s' = jobs s ∧ route_counters s' = route_counters s.
Proof.
  intros He. unfold record_route, mbind, tx_bind. cbn. rewrite He.
  destruct (sql_exists _ (route_state s)); by eexists.
Qed.

(** One reservation: the node at the cursor, and the cursor moves on. *)
Lemma reserve_step tenantID groupID jobID req exc g ids e s :
  job_route_group tenantID groupID jobID s = Some g → g_route_strategy g = "round" →
  route_ids groupID jobID req exc (tx_now e) s = ids → ids ≠ [] → 0 ≤ next_cursor jobID s →
  ∃ n s', commit (ReserveExecutorRoute tenantID groupID jobID
                    (route_selector random false req exc jobID)) e s = (Ok n, s') ∧
    index (sort_by String.leb ids)
      (Z.to_nat (Z.rem (next_cursor jobID s) (Z.of_nat (length ids)))) = Ok (NodeID n) ∧
    next_cursor jobID s' = next_cursor jobID s + 1 ∧ executor_nodes s' = executor_nodes s ∧
    executor_groups s' = executor_groups s ∧ jobs s' = jobs s.
Proof.
  intros Hg Hr Hids Hne Hcur.
  destruct (bump_counter_next jobID e s) as (s1 & Eb & En1 & Hn1 & Hg1 & Hj1 & Hr1).
  set (nodes := FilterExecutorNodes (snapshot_nodes groupID jobID (tx_now e) s1) req exc).
  assert (Enodes : map ec_ID (map candidate_of nodes) = ids).
  { rewrite map_map, <- Hids, <- (route_ids_same _ _ _ _ _ s s1 Hn1). done. }
  destruct (round_selects (map candidate_of nodes) (next_cursor jobID s) jobID)
    as (c & Esel & Hin & Eidx); [done|by intros E; rewrite E in Enodes; destruct ids|].
  destruct (selected_node_total nodes c Hin) as (n & Enode & Hn & Hid).
  destruct (record_route_total jobID groupID (NodeID n) e s1) as (s2 & Er & ? & ? & ? & Hc2).
  { apply sql_exists_true. unfold nodes, FilterExecutorNodes, snapshot_nodes, sort_nodes in Hn.
    apply list_elem_of_In, filter_In in Hn as [Hn _]. apply in_map_iff in Hn as (row & <- & Hrow).
    apply list_elem_of_In, elem_of_sort_by, elem_of_sql_select in Hrow
      as [[Hgr%String.eqb_eq _]%andb_true_iff Hrow].
    exists row. split; [done|]. unfold same_node.
    by rewrite Hgr, snapshot_node_id, !String.eqb_refl. }
  exists n, s2. split_and!; [| | |congruence..].
  - unfold commit, ReserveExecutorRoute. unfold mbind, tx_bind. cbn. rewrite Hg, Eb. cbn.
    unfold lift, route_selector. cbn [Nodes Strategy Cursor]. fold nodes. rewrite Hr, Esel. cbn.
    by rewrite Enode, Er.
  - rewrite Enodes in Eidx. rewrite Hid, <- Eidx. f_equal. f_equal. f_equal.
    by rewrite <- Enodes, !length_map.
  - unfold next_cursor at 1. rewrite Hc2. exact En1.
Qed.

Lemma job_route_group_same tenantID groupID jobID s s' :
  executor_groups s' = executor_groups s → jobs s' = jobs s →
  job_route_group tenantID groupID jobID s' = job_route_group tenantID groupID jobID s.
Proof. intros Eg Ej. unfold job_route_group, group_of. by rewrite Eg, Ej. Qed.

Definition node_id_of (r : result ExecutorNode) : result string := n ← r; Ok (NodeID n).

Lemma reserve_all_ids tenantID groupID jobID req exc g ids es s :
  job_route_group tenantID groupID jobID s = Some g → g_route_strategy g = "round" →
  (∀ e, e ∈ es → route_ids groupID jobID req exc (tx_now e) s = ids) → ids ≠ [] →
  0 ≤ next_cursor jobID s →
  map node_id_of (reserve_all tenantID groupID jobID
                    (route_selector random false req exc jobID) es s).1
  = map (λ i, index (sort_by String.leb ids)
                (Z.to_nat (Z.rem (next_cursor jobID s + Z.of_nat i) (Z.of_nat (length ids)))))
        (seq 0 (length es)).
Proof.
  intros Hg Hr Hids Hne. revert s Hg Hids.
  induction es as [|e es IH]; intros s Hg Hids Hcur; [done|]. cbn [reserve_all length seq].
  destruct (reserve_step tenantID groupID jobID req exc g ids e s) as (n & s1 & Ec & Ei & Hcur1 & ? & ? & ?);
    [done|done|apply Hids; left|done|done|].
  rewrite Ec. specialize (IH s1).
  destruct (reserve_all _ _ _ _ es s1) as [rs s2] eqn:Er. cbn [fst map] in *. f_equal.
  - cbn. by rewrite Z.add_0_r.
  - rewrite IH.
    + rewrite <- seq_shift, map_map. apply map_ext. intros i. rewrite Hcur1.
      by replace (next_cursor jobID s + 1 + Z.of_nat i) with (next_cursor jobID s + Z.of_nat (S i)) by lia.
    + by rewrite (job_route_group_same _ _ _ s s1).
    + intros e' He'. rewrite (route_ids_same _ _ _ _ _ s s1) by done. apply Hids. by right.
    + lia.
Qed.

(** Round-robin reservations take turns: as many reservations of a
    job, in any transactions, as its group has live nodes that the labels
    admit, all succeed and visit each of these nodes exactly once. *)
Theorem reservations_take_turns tenantID groupID jobID req exc g ids es s :
  job_route_group tenantID groupID jobID s = Some g → g_route_strategy g = "round" →
  (∀ e, e ∈ es → route_ids groupID jobID req exc (tx_now e) s = ids) →
  ids ≠ [] → length es = length ids → 0 ≤ next_cursor jobID s →
  map node_id_of (reserve_all tenantID groupID jobID
                    (route_selector random false req exc jobID) es s).1 ≡ₚ map Ok ids.
Proof.
  intros Hg Hr Hids Hne Hlen Hcur. rewrite (reserve_all_ids _ _ _ _ _ g ids) by done.
  rewrite Hlen, <- (length_sort_by String.leb ids).
  rewrite rotate_index; [|done|].
  - apply Permutation_map. by rewrite rotate_Permutation, sort_by_Permutation.
  - intros E. by apply sort_by_nil_inv in E.
Qed.
End routes.
End RouteProofs.

(** * A group of two nodes

    The theorems on routing at a concrete group, and a node whose use is lost
    when its job moves to another group. *)

Module RouteScenario.
Import Executors RunStore JobStore Routing Samples Scheduler ExecutorStore RouteProofs.

Definition cand_a : executorCandidate := mk_ecand "a" "10.0.0.1" 3 20.
Definition cand_b : executorCandidate := mk_ecand "b" "10.0.0.2" 1 30.
Definition cand_c : executorCandidate := mk_ecand "c" "10.0.0.3" 2 10.
Definition cands : list executorCandidate := [cand_b; cand_c; cand_a].

Lemma selection_total_witness :
  ∃ c, selectExecutorNode cands "hash" 0 0 "job" = Ok c ∧ c ∈ cands.
Proof.
  apply (proj1 (selection_total cands "hash" 0 0 "job")).
  split; [done|]. unfold pure_strategies. rewrite !elem_of_cons. tauto.
Defined.

Lemma least_used_is_selected_witness :
  cand_b ∈ cands ∧ ∀ x, x ∈ cands → 1 ≤ ec_UseCount x.
Proof.
  apply (proj1 (least_used_is_selected cands 0 0 "job" cand_b)). vm_compute. reflexivity.
Defined.

Lemma round_robin_visits_all_witness :
  map (λ i, selectExecutorNode cands "round" (7 + Z.of_nat i) 0 "job") (seq 0 3) ≡ₚ map Ok cands.
Proof. apply (round_robin_visits_all cands 7 0 "job"); [lia|done]. Defined.

(** The hashes of two nodes differ: their addresses do. *)
Lemma cands_no_collisions : no_collisions cands.
Proof.
  intros v w Hv Hw E. apply virtual_node_in in Hv as [Hv Hnv]. apply virtual_node_in in Hw as [Hw Hnw].
  unfold virtual_nodes in Hv, Hw.
  apply list_elem_of_In, in_map_iff in Hv as (i & Ev & _).
  apply list_elem_of_In, in_map_iff in Hw as (k & Ew & _).
  apply (f_equal v_hash) in Ev, Ew. rewrite <- Ev, <- Ew in E. cbn [v_hash] in E.
  apply text_number_inj in E. unfold cands in *.
  rewrite !elem_of_cons, elem_of_nil in Hnv, Hnw.
  destruct Hnv as [Hv|[Hv|[Hv|[]]]]; rewrite Hv in E |- *;
    destruct Hnw as [Hx|[Hx|[Hx|[]]]]; rewrite Hx in E |- *; try reflexivity; discriminate E.
Qed.

Definition hashed : executorCandidate :=
  match consistentHashExecutor cands "job" with Ok c => c | Err _ => cand_a end.
Definition others : list executorCandidate := List.filter (λ c, ec_ID c !=s "b") cands.

Lemma consistent_hash_stable_witness :
  hashed ∈ others ∧ consistentHashExecutor others "job" = Ok hashed.
Proof.
  assert (Hin : hashed ∈ others) by (vm_compute; right; left).
  split; [exact Hin|].
  destruct (consistent_hash_total others "job") as (c & E & _); [done|]. rewrite E.
  apply (f_equal (@Ok executorCandidate)).
  apply (consistent_hash_stable cands others "job" hashed c).
  - apply cands_no_collisions.
  - intros x Hx. apply list_elem_of_In, filter_In in Hx as [Hx _]. by apply list_elem_of_In.
  - exact Hin.
  - vm_compute. reflexivity.
  - exact E.
Defined.

(** ** A group *)

Definition live_until : time := start + hour.
Definition node_1 : node_row := mk_node "g" "n1" "10.0.0.1" live_until start false ["ssd"].
Definition node_2 : node_row := mk_node "g" "n2" "10.0.0.2" live_until start false ["ssd"; "gpu"].
Definition node_3 : node_row := mk_node "g" "n3" "10.0.0.3" live_until start false [].

Definition routed_job : job_row :=
  job "routed" (conf "routed" "cron" "0 * * * * ?" "parallel" 0 5 (Some "g")) None.

Definition route_db (strategy : string) : db :=
  set_executor_groups [mk_group "g" "t" "group" strategy "automatic" 1]
  (set_executor_nodes [node_3; node_2; node_1]
  (set_job_executor_labels [mk_label "routed" "ssd" false] (sample_db [routed_job]))).

Lemma candidates_match_filter_witness :
  map (λ n, node_of_row n 0 0) [node_1; node_2]
  ≡ₚ FilterExecutorNodes (ListExecutorNodes "t" "g" true start (route_db "lfu")) ["ssd"] [].
Proof.
  apply (candidates_match_filter "t" "g" "routed" start (route_db "lfu") "lfu").
  vm_compute. reflexivity.
Defined.

Definition claimed : ClaimedRun :=
  mk_claimed (mk_Run "r" "t" "routed" Schedule Running "" "" "" "r" "" "" "token" "" 0 0 false []
                1 start None None 0 "")
    (mk_Job "routed" "t" (j_conf routed_job) ["ssd"] [] [] no_auth true None 1).

Definition never (_ _ _ : string) : bool := false.

Definition routed : result ExecutorNode * db :=
  routeClaimedExecutor never 0 claimed (at_ms 10) (route_db "lfu").

Lemma routed_node_is_allowed_witness :
  may_go claimed (start + 10 * millisecond) (route_db "lfu") (node_of_row node_1 0 0).
Proof.
  apply (routed_node_is_allowed never 0 claimed (at_ms 10) (route_db "lfu")
           (node_of_row node_1 0 0) (snd routed)).
  vm_compute. reflexivity.
Defined.

Lemma reservations_take_turns_witness :
  map node_id_of (reserve_all "t" "g" "routed" (route_selector 0 false ["ssd"] [] "routed")
                    [at_ms 10; at_ms 20] (route_db "round")).1 ≡ₚ map Ok ["n1"; "n2"].
Proof.
  apply (reservations_take_turns 0 "t" "g" "routed" ["ssd"] []
           (mk_group "g" "t" "group" "round" "automatic" 1) ["n1"; "n2"]).
  - vm_compute. reflexivity.
  - reflexivity.
  - intros e He. rewrite !elem_of_cons, elem_of_nil in He.
    destruct He as [->|[->|[]]]; vm_compute; reflexivity.
  - done.
  - reflexivity.
  - vm_compute. discriminate.
Defined.

(** ** A job that changes its group

    Two groups have a node "n1"; the job ran on the one of group "g" before it
    moved to group "h". *)
Definition moved_job : job_row :=
  job "moved" (conf "moved" "cron" "0 * * * * ?" "parallel" 0 5 (Some "h")) None.
Definition moved_db : db :=
  set_executor_groups [mk_group "g" "t" "old" "lfu" "automatic" 1; mk_group "h" "t" "new" "lfu" "automatic" 1]
  (set_executor_nodes [mk_node "g" "n1" "10.0.0.1" live_until start false [];
                       mk_node "h" "n1" "10.1.0.1" live_until start false [];
                       mk_node "h" "n2" "10.1.0.2" live_until start false []]
  (set_route_state [mk_route "moved" "g" "n1" 1 (Some start)] (sample_db [moved_job]))).

Definition moved_runs : list (result ExecutorNode) * db :=
  reserve_all "t" "h" "moved" (route_selector 0 false [] [] "moved")
    [at_ms 10; at_ms 20; at_ms 30; at_ms 40] moved_db.

(** The use of a node is recorded under the job and node only, so after
    the job moved to a group with a node of the same name the count goes to
    the row of the old group, which the snapshot of the new group does not
    read: least frequently used sends every run to that node and never uses
    the idle one. *)
Theorem moved_job_starves_node :
  map node_id_of moved_runs.1 = [Ok "n1"; Ok "n1"; Ok "n1"; Ok "n1"] ∧
  map (λ v, (v_group_id v, v_node_id v, v_use_count v)) (route_state moved_runs.2)
  = [("g", "n1", 5)] ∧
  map (λ n, (NodeID n, UseCount n)) (snapshot_nodes "h" "moved" start moved_runs.2)
  = [("n1", 0); ("n2", 0)].
Proof. vm_compute. split_and!; reflexivity. Qed.
End RouteScenario.
