(* ===== verification/History.v ===== *)
(** * History retention

    [internal/store/history.go]: purging the terminal runs of a tenant, and
    trimming the auxiliary tables. *)
From Stdlib Require Import ZArith Lia Ascii String Sorted.
From stdpp Require Import base list strings.
From S2P Require Import Prelude GoStrings Tables Executors RunStore JobStore.

Module History.
Import RunStore JobStore.

(** [WITH doomed AS (SELECT .. WHERE p ORDER BY key LIMIT n FOR UPDATE SKIP
    LOCKED) DELETE ..]: the [n] oldest unlocked rows [p] accepts are removed.
    Rows are told apart by [same]. *)
Definition delete_oldest {A} (same : A → A → bool) (p : A → bool) (key : A → time)
    (locks : A → bool) (n : nat) (l : list A) : list A :=
  let doomed := take n (List.filter (λ x, negb (locks x))
                          (sort_by (λ a b, key a <=? key b) (sql_select p l))) in
  sql_delete (λ x, existsb (same x) doomed) l.

Definition historyCleanupBatchSize : nat := Z.to_nat 10000.

Definition before_cutoff (t : time) (retention : duration) (x : time) : bool :=
  x <? t - retention.

(** Events go with their deliveries ([ON DELETE CASCADE]). *)
Definition delete_events (keep : list event_row → list event_row) (s : db) : db :=
  let kept := keep (outbox_events s) in
  set_outbox_events kept
    (set_deliveries (sql_select (λ y, sql_exists (λ x, e_id x ==s y_event_id y) kept)
                                (deliveries s)) s).

Definition CleanupAuxiliaryHistory (retention : duration) : tx unit :=
  t ← now;
  locks ← locked;
  let old := before_cutoff t retention in
  let n := historyCleanupBatchSize in
  _ ← modify (λ s, set_job_run_idempotency
        (delete_oldest (λ a b, same_key (k_tenant_id b) (k_job_id b) (k_key b) a)
           (λ k, old (k_created_at k)) k_created_at (λ k, locks (k_key k)) n
           (job_run_idempotency s)) s);
  _ ← modify (λ s, set_job_run_logs
        (delete_oldest (λ a b, w_id a =? w_id b) (λ w, old (w_created_at w)) w_created_at
           (λ w, locks (w_entry_id w)) n (job_run_logs s)) s);
  _ ← modify (delete_events (delete_oldest (λ a b, e_id a ==s e_id b)
           (λ x, match e_published_at x with Some p => old p | None => false end)
           (λ x, default 0 (e_published_at x)) (λ x, locks (e_id x)) n));
  _ ← modify (λ s, set_job_dependency_dispatches
        (delete_oldest
           (λ a b, (x_parent_run_id a ==s x_parent_run_id b)
                   && (x_child_job_id a ==s x_child_job_id b))
           (λ x, old (x_created_at x)) x_created_at (λ x, locks (x_child_run_id x)) n
           (job_dependency_dispatches s)) s);
  modify (λ s, set_executor_commands
        (delete_oldest (λ a b, m_id a ==s m_id b)
           (λ m, match m_delivered_at m with Some d => old d | None => false end)
           (λ m, default 0 (m_delivered_at m)) (λ m, locks (m_id m)) n (executor_commands s)) s).

(** [tenant_id=$1 AND ($2='' OR job_id=$2) AND scheduled_at<$3 AND status IN
    ('succeeded','failed','timed_out','cancelled','skipped')] *)
Definition purgeable (tenantID jobID : string) (before : time) (r : run_row) : bool :=
  (r_tenant_id r ==s tenantID) && ((jobID ==s "") || (r_job_id r ==s jobID))
  && (i_scheduled_at (r_info r) <? before) && terminal (r_status r).

Definition purge_ids (tenantID jobID : string) (before : time) (limit : nat)
    (locks : string → bool) (s : db) : list string :=
  map r_id (take limit (List.filter (λ r, negb (locks (r_id r)))
    (sort_by (λ a b, i_scheduled_at (r_info a) <=? i_scheduled_at (r_info b))
       (sql_select (purgeable tenantID jobID before) (job_runs s))))).

(** The four [DELETE]s of a purge. *)
Definition purge_runs (tenantID : string) (ids : list string) (s : db) : db :=
  set_job_runs (sql_delete (λ r, (r_tenant_id r ==s tenantID) && one_of (r_id r) ids) (job_runs s))
  (set_job_dependency_dispatches
     (sql_delete (λ x, one_of (x_parent_run_id x) ids || one_of (x_child_run_id x) ids)
                 (job_dependency_dispatches s))
  (set_job_run_idempotency (sql_delete (λ k, one_of (k_run_id k) ids) (job_run_idempotency s))
  (set_job_run_logs (sql_delete (λ w, one_of (w_run_id w) ids) (job_run_logs s)) s))).

Definition PurgeRunHistory (tenantID jobID : string) (before : time) (limit : nat) : tx Z :=
  locks ← locked;
  s ← get;
  let ids := purge_ids tenantID jobID before limit locks s in
  match ids with
  | [] => mret 0
  | _ :: _ =>
      _ ← modify (purge_runs tenantID ids);
      mret (Z.of_nat (sql_count (λ r, (r_tenant_id r ==s tenantID) && one_of (r_id r) ids)
                                (job_runs s)))
  end.

(** One purge per tenant, each a transaction of its own; the first error ends
    the sweep with the purges before it committed. *)
Fixpoint purge_tenants (tenantIDs : list string) (before : time) (e : env) (s : db)
    : result unit * db :=
  match tenantIDs with
  | [] => (Ok tt, s)
  | id :: rest =>
      match commit (PurgeRunHistory id "" before (Z.to_nat 10000)) e s with
      | (Ok _, s') => purge_tenants rest before e s'
      | (Err err, s') => (Err err, s')
      end
  end.

Definition CleanupRunHistory `{Host} (retention : duration) (e : env) (s : db)
    : result unit * db :=
  let before := Add (wall_clock (clock_reads s)) (- retention) in
  purge_tenants (sort_by String.leb (map t_id (tenants s))) before e
                (set_clock_reads (S (clock_reads s)) s).

(** What a purge leaves behind: only terminal runs of the tenant that were
    scheduled before the cutoff can go. *)
Lemma elem_of_purge_ids tenantID jobID before limit locks s id :
  id ∈ purge_ids tenantID jobID before limit locks s →
  ∃ r, r ∈ job_runs s ∧ r_id r = id ∧ purgeable tenantID jobID before r = true.
Proof.
  unfold purge_ids. intros Hid. apply list_elem_of_In, in_map_iff in Hid as (r & <- & Hr).
  apply list_elem_of_In, elem_of_take in Hr as (i & Hr & _). apply list_elem_of_lookup_2 in Hr.
  apply list_elem_of_In, filter_In in Hr as [Hr _].
  apply list_elem_of_In, elem_of_sort_by, elem_of_sql_select in Hr as [? ?]. eauto.
Qed.
End History.
