(* ===== verification/Partitions.v ===== *)
(** * Partitions of the run table

    [internal/store/partitions.go]: the monthly partitions of [job_runs] that the
    application makes ahead of time and drops when they are past the retention. *)
From Stdlib Require Import ZArith Lia Ascii String.
From stdpp Require Import base list strings option.
From S2P Require Import Prelude GoStrings GoTime Utf8 TimeFormat Tables RunStore Samples.

Module Partitions.
Import Utf8 TimeFormat RunStore.

(** [Time.AddDate] of a time in UTC *)
Definition AddDate (t : time) (years months days : Z) : time :=
  let '(y, m, d) := DateOf UTC t in
  Date (y + years) (m + months) (d + days) 0 0 (seconds_of t mod 86400) (t mod second) UTC.

(** [%04d] *)
Definition Sprintf04d (n : Z) : string :=
  if (0 <=? n) && (n <? 10000) then pad4 n ""
  else if (-1000 <? n) && (n <? 0)
  then String "-" (String (digit_char (- n / 100)) (pad2 (- n mod 100) ""))
  else Itoa n.

Record monthPartition := mk_month { mp_Name : string; mp_Start : time; mp_End : time }.

Definition partition_name (year month : Z) : string :=
  "job_runs_y" +:+ Sprintf04d year +:+ "m" +:+ pad2 month "".

(** One partition per month from [start] to [last]. *)
Fixpoint months_from (fuel : nat) (start last : time) : list monthPartition :=
  match fuel with
  | O => []
  | S fuel =>
      if After start last then []
      else
        let '(year, month, _) := DateOf UTC start in
        mk_month (partition_name year month) start (AddDate start 0 1 0)
          :: months_from fuel (AddDate start 0 1 0) last
  end.

Definition requiredRunPartitions (now : time) (retention : duration) (premake : Z)
    : list monthPartition :=
  let '(y, m, _) := DateOf UTC (Add now (- retention)) in
  let first := Date y m 1 0 0 0 0 UTC in
  let '(y', m', _) := DateOf UTC now in
  let last := Date y' (m' + premake) 1 0 0 0 0 UTC in
  months_from (Z.to_nat (month_of UTC last - month_of UTC first + 1)) first last.

Definition parseRunPartitionEnd (name : string) : option time :=
  if negb (len name =? 17) || negb (HasPrefix name "job_runs_y")
     || negb (bool_decide (String.get 14 name = Some "m"%char))
  then None
  else
    match Atoi (String.substring 10 4 name), Atoi (String.substring 15 2 name) with
    | Some year, Some month =>
        if (month <? 1) || (12 <? month) then None
        else Some (Date year (month + 1) 1 0 0 0 0 UTC)
    | _, _ => None
    end.

(** ** The catalogue

    The children of [job_runs] with their ranges; the default partition has none,
    and holds the rows that no other child takes. *)
Record child := mk_child { ch_name : string; ch_range : option (time * time) }.
Record pstate := mk_pstate { ps_children : list child; ps_db : db }.

Definition in_range (t : time) (range : time * time) : bool := (range.1 <=? t) && (t <? range.2).
Definition takes (t : time) (c : child) : bool :=
  match ch_range c with Some range => in_range t range | None => false end.
Definition stored_in (children : list child) (c : child) (r : run_row) : bool :=
  let at_ := i_scheduled_at (r_info r) in
  match ch_range c with
  | Some range => in_range at_ range
  | None => negb (existsb (takes at_) children)
  end.
Definition overlaps (p : monthPartition) (c : child) : bool :=
  match ch_range c with
  | Some (start, end_) => (start <? mp_End p) && (mp_Start p <? end_)
  | None => false
  end.

(** [CREATE TABLE IF NOT EXISTS .. PARTITION OF ..]: refused when the range
    overlaps another child's, or when the default partition has rows of it. *)
Definition create_partition (p : monthPartition) (st : pstate) : result pstate :=
  let children := ps_children st in
  if existsb (λ c, ch_name c ==s mp_Name p) children then Ok st
  else if existsb (overlaps p) children
          || existsb (λ r, let at_ := i_scheduled_at (r_info r) in
                           in_range at_ (mp_Start p, mp_End p) && negb (existsb (takes at_) children))
                     (job_runs (ps_db st))
  then Err (ErrMsg ("create run partition " +:+ mp_Name p))
  else Ok (mk_pstate (children ++ [mk_child (mp_Name p) (Some (mp_Start p, mp_End p))]) (ps_db st)).

Fixpoint create_partitions (ps : list monthPartition) (st : pstate) : result pstate :=
  match ps with
  | [] => Ok st
  | p :: rest => st ← create_partition p st; create_partitions rest st
  end.

(** [DROP TABLE] takes the rows of the partition with it. *)
Definition drop_partition (c : child) (st : pstate) : pstate :=
  mk_pstate (sql_delete (λ d, ch_name d ==s ch_name c) (ps_children st))
    (set_job_runs (sql_delete (stored_in (ps_children st) c) (job_runs (ps_db st))) (ps_db st)).

Definition expired (cutoff : time) (name : string) : bool :=
  match parseRunPartitionEnd name with Some end_ => negb (After end_ cutoff) | None => false end.
Definition has_active (st : pstate) (c : child) : bool :=
  existsb (λ r, stored_in (ps_children st) c r && negb (terminal (r_status r))) (job_runs (ps_db st)).

Fixpoint drop_expired (cutoff : time) (names : list child) (dropped : Z) (st : pstate) : Z * pstate :=
  match names with
  | [] => (dropped, st)
  | c :: rest =>
      if negb (expired cutoff (ch_name c)) || has_active st c then drop_expired cutoff rest dropped st
      else drop_expired cutoff rest (dropped + 1) (drop_partition c st)
  end.

(** Whether [pg_partman] is installed and configured, and its procedure; whether
    the advisory lock is free. *)
Record partman := mk_partman {
  pm_configured : bool; pm_run_maintenance : pstate → result pstate; pm_locked : bool;
}.

Definition MaintainRunPartitions (pm : partman) (now : time) (retention : duration) (st : pstate)
    : result (string * Z) * pstate :=
  if pm_configured pm then
    match pm_run_maintenance pm st with
    | Ok st' => (Ok ("pg_partman", 0), st')
    | Err _ => (Err (ErrMsg "run pg_partman maintenance"), st)
    end
  else if negb (pm_locked pm) then (Ok ("application", 0), st)
  else
    match create_partitions (requiredRunPartitions now retention 3) st with
    | Err err => (Err err, st)
    | Ok st' =>
        let '(dropped, st'') := drop_expired (Add now (- retention)) (ps_children st') 0 st' in
        (Ok ("application", dropped), st'')
    end.
End Partitions.

(** * The partitions cover the months ahead, and nothing alive is dropped *)

Module PartitionProofs.
Import Utf8 TimeFormat RunStore Partitions Samples.

(** ** Months, counted from year 0 *)

Definition month_begin (k : Z) : time := Date 0 k 1 0 0 0 0 UTC.
Definition month_year (k : Z) : Z := (k - 1) / 12.
Definition month_number (k : Z) : Z := (k - 1) mod 12 + 1.
Definition month_name (k : Z) : string := partition_name (month_year k) (month_number k).
Definition month (k : Z) : monthPartition :=
  mk_month (month_name k) (month_begin k) (month_begin (k + 1)).
(** The months whose year has four digits. *)
Definition four_digit_month (k : Z) : Prop := 1 ≤ k ≤ 120000.

Lemma Date_UTC y m d sec nsec :
  Date y m d 0 0 sec nsec UTC = (date_days y m d * 86400 + sec) * second + nsec.
Proof. unfold Date, UTC, fixed_zone. cbn [zone_lookup Z.eqb]. f_equal. f_equal. lia. Qed.

Lemma Date_first y m : Date y m 1 0 0 0 0 UTC = month_begin (12 * y + m).
Proof.
  unfold month_begin. rewrite !Date_UTC. unfold date_days. do 5 f_equal.
  - f_equal; Z.to_euclidean_division_equations; lia.
Qed.

Lemma month_begin_days k :
  month_begin k = days_of_civil (month_year k) (month_number k) 1 * 86400 * second.
Proof. unfold month_begin. rewrite Date_UTC. unfold date_days, month_year, month_number. rewrite Z.add_0_l. lia. Qed.

Lemma first_valid k : valid_civil (month_year k) (month_number k) 1 = true.
Proof.
  apply valid_civil_true. unfold month_number.
  pose proof (Z.mod_pos_bound (k - 1) 12 ltac:(lia)).
  pose proof (days_in_month_range (month_year k) ((k - 1) mod 12 + 1)). lia.
Qed.

Lemma DateOf_month_begin k : DateOf UTC (month_begin k) = (month_year k, month_number k, 1).
Proof.
  unfold DateOf, local_days, zone_offset. cbn [zone_lookup UTC fixed_zone fst].
  rewrite month_begin_days. unfold seconds_of. rewrite Z.div_mul by done.
  rewrite Z.add_0_r, Z.div_mul by done. apply days_of_civil_inv, first_valid.
Qed.

Lemma month_index_of k : month_index (month_year k) (month_number k) = k.
Proof. unfold month_index, month_year, month_number. Z.to_euclidean_division_equations. lia. Qed.

Lemma month_of_begin k : month_of UTC (month_begin k) = k.
Proof. unfold month_of. rewrite DateOf_month_begin. apply month_index_of. Qed.

Lemma month_begin_lt j k : j < k → month_begin j < month_begin k.
Proof.
  intros H. rewrite !month_begin_days.
  pose proof (days_of_civil_month_lt _ _ 1 _ _ 1 (first_valid j) (first_valid k)) as L.
  rewrite !month_index_of in L. unfold second. specialize (L H). lia.
Qed.
Lemma month_begin_le j k : j ≤ k → month_begin j ≤ month_begin k.
Proof. intros H. destruct (Z.eq_dec j k) as [->|]; [done|]. pose proof (month_begin_lt j k). lia. Qed.
Lemma month_begin_lt_inv j k : month_begin j < month_begin k → j < k.
Proof. intros H. destruct (Z.lt_ge_cases j k) as [|L]; [done|]. pose proof (month_begin_le _ _ L). lia. Qed.

Lemma AddDate_month k : AddDate (month_begin k) 0 1 0 = month_begin (k + 1).
Proof.
  unfold AddDate. rewrite DateOf_month_begin, Z.add_0_r.
  assert (E : seconds_of (month_begin k) mod 86400 = 0 ∧ month_begin k mod second = 0).
  { rewrite month_begin_days. unfold seconds_of. rewrite Z.div_mul by done.
    split; apply Z.mod_mul; done. }
  destruct E as [-> ->]. rewrite Z.add_0_r, Date_first. f_equal.
  pose proof (month_index_of k) as E. unfold month_index in E. lia.
Qed.

(** Every instant is in the month it is dated in. *)
Lemma month_of_range t : month_begin (month_of UTC t) ≤ t < month_begin (month_of UTC t + 1).
Proof.
  unfold month_of, DateOf. set (n := local_days UTC t).
  pose proof (civil_of_days_spec n) as Hn. destruct (civil_of_days n) as [[y m] d].
  destruct Hn as [Hv Hn]. unfold month_index. rewrite <- Date_first, Date_UTC.
  replace (12 * y + m + 1) with (12 * y + (m + 1)) by lia. rewrite <- Date_first, Date_UTC.
  apply valid_civil_true in Hv as [Hm Hd]. rewrite date_days_valid by done.
  assert (E : date_days y (m + 1) 1 = days_of_civil y m (days_in_month y m) + 1).
  { rewrite <- (date_days_last y m) by done. unfold date_days. lia. }
  rewrite E. unfold days_of_civil in *.
  assert (Ht : n * 86400 * second ≤ t < (n + 1) * 86400 * second).
  { unfold n, local_days, zone_offset, seconds_of. cbn. unfold second.
    Z.to_euclidean_division_equations. lia. }
  unfold second in *. lia.
Qed.

(** ** The partitions that are required *)

Lemma months_from_spec fuel k last :
  k + Z.of_nat fuel > last →
  months_from fuel (month_begin k) (month_begin last)
    = map month (seqZ k (last - k + 1)).
Proof.
  revert k. induction fuel as [|fuel IH]; intros k H.
  { rewrite seqZ_nil by lia. done. }
  cbn [months_from]. unfold After. destruct (Z.ltb_spec (month_begin last) (month_begin k)) as [L|L].
  { apply month_begin_lt_inv in L. by rewrite seqZ_nil by lia. }
  assert (k ≤ last).
  { destruct (Z.le_gt_cases k last) as [|G]; [done|]. pose proof (month_begin_lt last k). lia. }
  rewrite DateOf_month_begin, AddDate_month, IH by lia.
  rewrite (seqZ_cons k) by lia. cbn [map]. f_equal. do 2 f_equal; lia.
Qed.

(** The required partitions are the months from that of the cutoff to the third
    after the current one, without a gap. *)
Lemma required_months now retention premake :
  requiredRunPartitions now retention premake
    = map month (seqZ (month_of UTC (Add now (- retention)))
                   (month_of UTC now + premake - month_of UTC (Add now (- retention)) + 1)).
Proof.
  unfold requiredRunPartitions. unfold month_of at 3 4 5.
  destruct (DateOf UTC (Add now (- retention))) as [[y m] d], (DateOf UTC now) as [[y' m'] d'].
  rewrite !Date_first. replace (12 * y' + (m' + premake)) with (12 * y' + m' + premake) by lia.
  unfold month_index. rewrite !month_of_begin. apply months_from_spec. lia.
Qed.

(** ** Names *)

Lemma partition_name_text k :
  four_digit_month k →
  month_name k = "job_runs_y" +:+ pad4 (month_year k) (String "m" (pad2 (month_number k) ""))
  ∧ 0 ≤ month_year k < 10000 ∧ 1 ≤ month_number k ≤ 12.
Proof.
  intros Hk. unfold four_digit_month in Hk.
  assert (Hy : 0 ≤ month_year k < 10000) by (unfold month_year; Z.to_euclidean_division_equations; lia).
  assert (Hm : 1 ≤ month_number k ≤ 12)
    by (unfold month_number; pose proof (Z.mod_pos_bound (k - 1) 12); lia).
  split; [|done]. unfold month_name, partition_name, Sprintf04d.
  destruct (Z.leb_spec 0 (month_year k)), (Z.ltb_spec (month_year k) 10000); try lia. done.
Qed.

Lemma Atoi_digit c s :
  is_digit c = true → Atoi (String c s) = v ← digits_value (String c s) 0; in_int64 v.
Proof. destruct c as [[] [] [] [] [] [] [] []]; intros H; solve [done | vm_compute in H; done]. Qed.

Lemma digits_value_pad2 n rest acc :
  0 ≤ n < 100 → digits_value (pad2 n rest) acc = digits_value rest (100 * acc + n).
Proof.
  intros Hn. unfold pad2.
  destruct (digit_char_spec (n / 10)) as [E1 V1]; [Z.to_euclidean_division_equations; lia|].
  destruct (digit_char_spec (n mod 10)) as [E2 V2]; [apply Z.mod_pos_bound; lia|].
  cbn [digits_value]. rewrite E1, E2, V1, V2. f_equal. pose proof (Z.div_mod n 10). lia.
Qed.

Lemma Atoi_pad2 n rest v :
  0 ≤ n < 100 → digits_value rest n = Some v → 0 ≤ v ≤ 9999 → Atoi (pad2 n rest) = Some v.
Proof.
  intros Hn E Hv. unfold pad2 at 1. rewrite Atoi_digit
    by (apply digit_char_spec; Z.to_euclidean_division_equations; lia).
  pose proof (digits_value_pad2 n rest 0 Hn) as D. unfold pad2 in D. rewrite D, Z.mul_0_r, Z.add_0_l, E.
  cbn [mbind option_bind]. unfold in_int64, int64_min, int64_max.
  destruct (Z.leb_spec (-9223372036854775808) v), (Z.leb_spec v 9223372036854775807); cbn; done || lia.
Qed.

Lemma Atoi_year n : 0 ≤ n < 10000 → Atoi (pad4 n "") = Some n.
Proof.
  intros Hn. unfold pad4. apply Atoi_pad2; [Z.to_euclidean_division_equations; lia| |lia].
  rewrite digits_value_pad2 by (apply Z.mod_pos_bound; lia). cbn.
  f_equal. pose proof (Z.div_mod n 100). lia.
Qed.

(** The end of a partition is read back from its name. *)
Lemma parse_month_name k :
  four_digit_month k → parseRunPartitionEnd (month_name k) = Some (month_begin (k + 1)).
Proof.
  intros Hk. destruct (partition_name_text k Hk) as (-> & Hy & Hm). unfold parseRunPartitionEnd.
  assert (Ey : String.substring 10 4 ("job_runs_y" +:+ pad4 (month_year k) (String "m" (pad2 (month_number k) "")))
               = pad4 (month_year k) "") by done.
  assert (Em : String.substring 15 2 ("job_runs_y" +:+ pad4 (month_year k) (String "m" (pad2 (month_number k) "")))
               = pad2 (month_number k) "") by done.
  rewrite Ey, Em, Atoi_year by done.
  rewrite (Atoi_pad2 (month_number k) "" (month_number k)) by (done || lia).
  destruct (Z.ltb_spec (month_number k) 1); [lia|]. destruct (Z.ltb_spec 12 (month_number k)); [lia|].
  cbn - [Date]. f_equal. rewrite Date_first. f_equal.
  pose proof (month_index_of k) as E. unfold month_index in E. lia.
Qed.

Lemma month_name_inj j k :
  four_digit_month j → four_digit_month k → month_name j = month_name k → j = k.
Proof.
  intros Hj Hk E. pose proof (parse_month_name j Hj) as Pj. rewrite E, (parse_month_name k Hk) in Pj.
  injection Pj as Pj.
  destruct (Z.lt_trichotomy j k) as [L|[L|L]]; [|done|].
  - pose proof (month_begin_lt (j + 1) (k + 1)). lia.
  - pose proof (month_begin_lt (k + 1) (j + 1)). lia.
Qed.

Opaque month_begin month_name.

(** ** The catalogue *)

Definition month_child (k : Z) : child :=
  mk_child (month_name k) (Some (month_begin k, month_begin (k + 1))).

(** Every child is a month of the calendar under its own name, or the default
    partition. *)
Definition catalogued (l : list child) : Prop :=
  NoDup (map ch_name l) ∧
  Forall (λ c, (∃ k, four_digit_month k ∧ c = month_child k)
               ∨ (ch_range c = None ∧ parseRunPartitionEnd (ch_name c) = None)) l.

(** No row of these months is in the default partition. *)
Definition placed (children : list child) (a b : Z) (s : db) : Prop :=
  ∀ r, r ∈ job_runs s → month_begin a ≤ i_scheduled_at (r_info r) < month_begin (b + 1) →
  existsb (takes (i_scheduled_at (r_info r))) children = true.

Lemma takes_month k t : takes t (month_child k) = true ↔ month_begin k ≤ t < month_begin (k + 1).
Proof. unfold takes, in_range. cbn. rewrite andb_true_iff, Z.leb_le, Z.ltb_lt. lia. Qed.

Lemma months_disjoint j k : overlaps (month k) (month_child j) = true → j = k.
Proof.
  unfold overlaps. cbn. rewrite andb_true_iff, !Z.ltb_lt.
  intros [L1%month_begin_lt_inv L2%month_begin_lt_inv]. lia.
Qed.

Lemma catalogued_named l k c :
  catalogued l → four_digit_month k → c ∈ l → ch_name c = month_name k → c = month_child k.
Proof.
  intros [_ Hl] Hk Hc E. rewrite Forall_forall in Hl.
  destruct (Hl c) as [(j & Hj & ->)|[_ N]]; [by apply list_elem_of_In| |].
  - by rewrite (month_name_inj j k).
  - by rewrite E, parse_month_name in N.
Qed.

Lemma create_month k st :
  catalogued (ps_children st) → four_digit_month k → placed (ps_children st) k k (ps_db st) →
  ∃ added, create_partition (month k) st = Ok (mk_pstate (ps_children st ++ added) (ps_db st)) ∧
    catalogued (ps_children st ++ added) ∧ month_child k ∈ ps_children st ++ added.
Proof.
  intros Hc Hk Hp. unfold create_partition. cbn [mp_Name mp_Start mp_End month].
  destruct (existsb _ (ps_children st)) eqn:En.
  - apply existsb_exists in En as (c & Hin & E). apply String.eqb_eq in E.
    exists []. rewrite app_nil_r. split; [by destruct st|]. split; [done|].
    apply list_elem_of_In in Hin. rewrite (catalogued_named _ k c Hc Hk Hin E) in Hin. exact Hin.
  - assert (Ho : existsb (overlaps (month k)) (ps_children st) = false).
    { apply not_true_is_false. rewrite existsb_exists. intros (c & Hin & Ov).
      destruct Hc as [_ Hl]. rewrite Forall_forall in Hl. destruct (Hl c Hin) as [(j & Hj & ->)|[N _]].
      - apply months_disjoint in Ov as ->. apply not_true_iff_false in En. destruct En.
        apply existsb_exists. exists (month_child k). split; [done|]. apply String.eqb_refl.
      - unfold overlaps in Ov. by rewrite N in Ov. }
    rewrite Ho. match goal with |- context [existsb ?f (job_runs _)] => set (g := f) end.
    assert (Hd : existsb g (job_runs (ps_db st)) = false).
    { apply not_true_is_false. rewrite existsb_exists. intros (r & Hin & G). unfold g, in_range in G.
      cbn [fst snd] in G. rewrite !andb_true_iff, Z.leb_le, Z.ltb_lt, negb_true_iff in G.
      destruct G as [G1 G2]. apply list_elem_of_In in Hin. rewrite Hp in G2 by done. done. }
    rewrite Hd. cbn [orb]. exists [month_child k]. split; [done|].
    split; [|apply list_elem_of_In, in_or_app; right; by left].
    destruct Hc as [Hn Hl]. split.
    + rewrite map_app. apply list_relations.list.NoDup_app. split; [done|]. split; [|apply NoDup_singleton].
      intros n Hin ->%list_elem_of_singleton. apply not_true_iff_false in En. destruct En.
      apply list_elem_of_In, in_map_iff in Hin as (c & E & Hin).
      apply existsb_exists. exists c. split; [done|]. by apply String.eqb_eq.
    + apply Forall_app. split; [done|]. apply Forall_cons_2; [|apply Forall_nil_2]. eauto.
Qed.

Lemma placed_grow children added a b s : placed children a b s → placed (children ++ added) a b s.
Proof. intros H r Hr Ht. rewrite existsb_app, H by done. done. Qed.

Lemma placed_sub children a b j k s :
  a ≤ j → k ≤ b → placed children a b s → placed children j k s.
Proof.
  intros ?? H r Hr Ht. apply H; [done|]. pose proof (month_begin_le a j). pose proof (month_begin_le (k + 1) (b + 1)). lia.
Qed.

Lemma create_months n : ∀ a st,
  catalogued (ps_children st) → (∀ k, a ≤ k < a + Z.of_nat n → four_digit_month k) →
  placed (ps_children st) a (a + Z.of_nat n - 1) (ps_db st) →
  ∃ added, create_partitions (map month (seqZ a (Z.of_nat n))) st
             = Ok (mk_pstate (ps_children st ++ added) (ps_db st)) ∧
    catalogued (ps_children st ++ added) ∧
    ∀ k, a ≤ k < a + Z.of_nat n → month_child k ∈ ps_children st ++ added.
Proof.
  induction n as [|n IH]; intros a st Hc Hk Hp.
  { exists []. rewrite seqZ_nil by lia. rewrite app_nil_r. destruct st. split; [done|]. split; [done|]. intros; lia. }
  rewrite seqZ_cons by lia. cbn [map create_partitions].
  destruct (create_month a st Hc) as (added & -> & Hc1 & Ha);
    [apply Hk; lia|eapply placed_sub; [..|exact Hp]; lia|]. cbn [mbind result_bind].
  replace (Z.pred (Z.of_nat (S n))) with (Z.of_nat n) by lia.
  destruct (IH (Z.succ a) (mk_pstate (ps_children st ++ added) (ps_db st))) as (more & E & Hc2 & Hall);
    [done|intros; apply Hk; lia|apply placed_grow; eapply placed_sub; [..|exact Hp]; lia|].
  cbn [ps_children ps_db] in *. exists (added ++ more). rewrite E, app_assoc. split; [done|].
  split; [done|]. intros k Hin. destruct (Z.eq_dec k a) as [->|].
  - apply list_elem_of_In, in_or_app. left. by apply list_elem_of_In.
  - apply Hall. lia.
Qed.

(** ** Dropping *)

(** What dropping partitions may do to the runs. *)
Definition trimmed (cutoff : time) (st st' : pstate) : Prop :=
  ∃ runs, ps_db st' = set_job_runs runs (ps_db st) ∧ sublist runs (job_runs (ps_db st)) ∧
    ∀ r, r ∈ job_runs (ps_db st) →
      r ∈ runs ∨ (terminal (r_status r) = true ∧ i_scheduled_at (r_info r) < cutoff).

Lemma trimmed_refl cutoff st : trimmed cutoff st st.
Proof. exists (job_runs (ps_db st)). split; [by destruct (ps_db st)|]. split; [done|]. by left. Qed.

Lemma trimmed_trans cutoff st1 st2 st3 :
  trimmed cutoff st1 st2 → trimmed cutoff st2 st3 → trimmed cutoff st1 st3.
Proof.
  intros (l1 & E1 & S1 & R1) (l2 & E2 & S2 & R2). exists l2. rewrite E2, E1 in *. cbn in *.
  split; [done|]. split; [by etrans|]. intros r Hr.
  destruct (R1 r Hr) as [H|]; [by apply R2|by right].
Qed.

Lemma sql_delete_sublist {A} (p : A → bool) l : sublist (sql_delete p l) l.
Proof. unfold sql_delete. induction l as [|x l IH]; cbn; [constructor|]. destruct (negb (p x)); by constructor. Qed.

Lemma expired_month cutoff c l :
  catalogued l → c ∈ l → expired cutoff (ch_name c) = true →
  ∃ k, c = month_child k ∧ month_begin (k + 1) ≤ cutoff.
Proof.
  intros [_ Hl] Hc He. rewrite Forall_forall in Hl. unfold expired, After in He.
  destruct (Hl c) as [(k & Hk & ->)|[_ N]]; [by apply list_elem_of_In| |by rewrite N in He].
  exists k. cbn [ch_name month_child] in He. rewrite parse_month_name in He by done.
  split; [done|]. by apply negb_true_iff, Z.ltb_ge in He.
Qed.

Lemma drop_trims cutoff c st l :
  catalogued l → c ∈ l → expired cutoff (ch_name c) = true → has_active st c = false →
  trimmed cutoff st (drop_partition c st).
Proof.
  intros Hl Hc He Ha. destruct (expired_month _ _ _ Hl Hc He) as (k & -> & Hk).
  exists (sql_delete (stored_in (ps_children st) (month_child k)) (job_runs (ps_db st))). split; [done|].
  split; [apply sql_delete_sublist|]. intros r Hr.
  destruct (stored_in (ps_children st) (month_child k) r) eqn:Es.
  - right. split.
    + apply not_false_is_true. intros Et. apply not_true_iff_false in Ha. destruct Ha.
      apply existsb_exists. exists r. split; [by apply list_elem_of_In|]. by rewrite Es, Et.
    + unfold stored_in, in_range in Es. cbn [ch_range month_child fst snd] in Es.
      apply andb_true_iff in Es as [_ Es%Z.ltb_lt]. lia.
  - left. apply elem_of_sql_delete. done.
Qed.

Lemma drop_expired_spec cutoff l all n st :
  catalogued all → l ⊆ all →
  let '(_, st') := drop_expired cutoff l n st in
  trimmed cutoff st st' ∧ sublist (ps_children st') (ps_children st) ∧
  ∀ c, c ∈ ps_children st → expired cutoff (ch_name c) = false → c ∈ ps_children st'.
Proof.
  intros Hall. revert n st. induction l as [|c l IH]; intros n st Hl; cbn [drop_expired].
  { split; [apply trimmed_refl|]. done. }
  assert (Hin : c ∈ all) by (apply Hl; left).
  assert (Hl' : l ⊆ all) by (intros x Hx; apply Hl; by right).
  destruct (expired cutoff (ch_name c)) eqn:Ee, (has_active st c) eqn:Ea; cbn [negb orb];
    try by apply IH.
  specialize (IH (n + 1) (drop_partition c st) Hl').
  destruct (drop_expired _ _ _ _) as [n' st']. destruct IH as (T & Sub & Keep).
  split; [by eapply trimmed_trans; [eapply drop_trims|]|].
  split; [etrans; [exact Sub|apply sql_delete_sublist]|].
  intros d Hd Hne. apply Keep; [|done]. apply elem_of_sql_delete. split; [|done].
  apply not_true_is_false. intros E%String.eqb_eq. congruence.
Qed.

Lemma sublist_catalogued l l' : sublist l l' → catalogued l' → catalogued l.
Proof.
  intros Hs [Hn Hl]. split.
  - eapply sublist_NoDup; [exact Hn|]. clear -Hs. induction Hs; cbn; by constructor.
  - clear Hn. induction Hs; [done|..]; inversion Hl; subst; [apply Forall_cons_2|]; auto.
Qed.

(** C24: maintenance of the partitions of the run table by the application, that is
    where [pg_partman] is not configured.  If another process holds the advisory lock
    nothing happens.  Otherwise, with a catalogue of calendar months, no run of the
    months from the cutoff on in the default partition, and years of four digits, it
    succeeds; every instant from the month of the cutoff to the end of the third
    month ahead then has a partition of its own, so that runs do not fall into the
    default partition; and of the runs only finished ones that were due before the
    cutoff are dropped. *)
Theorem partition_maintenance_is_safe pm now retention st :
  let cutoff := Add now (- retention) in
  let a := month_of UTC cutoff in
  let b := month_of UTC now + 3 in
  pm_configured pm = false → 0 ≤ retention →
  four_digit_month a → four_digit_month b →
  catalogued (ps_children st) → placed (ps_children st) a b (ps_db st) →
  if negb (pm_locked pm) then MaintainRunPartitions pm now retention st = (Ok ("application", 0), st)
  else ∃ n st', MaintainRunPartitions pm now retention st = (Ok ("application", n), st') ∧
    catalogued (ps_children st') ∧
    (∀ t, month_begin a ≤ t < month_begin (b + 1) → ∃ c, c ∈ ps_children st' ∧ takes t c = true) ∧
    trimmed cutoff st st'.
Proof.
  intros cutoff a b Hpm Hr Ha Hb Hc Hp. unfold MaintainRunPartitions. rewrite Hpm.
  destruct (negb (pm_locked pm)); [done|].
  assert (Hab : a ≤ b).
  { pose proof (month_of_range cutoff) as R1. pose proof (month_of_range now) as R2.
    assert (cutoff ≤ now) by (unfold cutoff, Add; lia).
    assert (month_begin a < month_begin (month_of UTC now + 1)) as L%month_begin_lt_inv by (unfold a; lia).
    unfold b. lia. }
  rewrite required_months. fold cutoff a b.
  replace (b - a + 1) with (Z.of_nat (Z.to_nat (b - a + 1))) by lia.
  destruct (create_months (Z.to_nat (b - a + 1)) a st) as (added & -> & Hc' & Hall);
    [done|unfold four_digit_month in *; lia|by replace (a + Z.of_nat (Z.to_nat (b - a + 1)) - 1) with b by lia|].
  pose proof (drop_expired_spec cutoff (ps_children st ++ added) _ 0
                (mk_pstate (ps_children st ++ added) (ps_db st)) Hc' ltac:(done)) as Hd.
  cbn [ps_children] in *. destruct (drop_expired _ _ _ _) as [n st']. destruct Hd as (T & Sub & Keep).
  exists n, st'. split; [done|]. split; [by eapply sublist_catalogued|]. split; [|exact T].
  intros t Ht. pose proof (month_of_range t) as Rt. set (k := month_of UTC t) in *.
  assert (month_begin a < month_begin (k + 1)) as L1%month_begin_lt_inv by lia.
  assert (month_begin k < month_begin (b + 1)) as L2%month_begin_lt_inv by lia.
  exists (month_child k). split; [|by apply takes_month].
  apply Keep; [apply Hall; lia|]. unfold expired. cbn [ch_name month_child].
  rewrite parse_month_name by (unfold four_digit_month in *; lia).
  apply negb_false_iff, Z.ltb_lt. pose proof (month_of_range cutoff) as Rc. fold a in Rc.
  pose proof (month_begin_le (a + 1) (k + 1)). lia.
Qed.

(** ** Partitions of another time zone *)

Lemma overlap_refuses ps k offset st :
  four_digit_month (k + 1) → 0 < offset → offset < month_begin (k + 2) - month_begin k →
  Forall (λ p, ∃ j, four_digit_month j ∧ p = month j) ps → month (k + 1) ∈ ps →
  mk_child (month_name k) (Some (month_begin k + offset, month_begin (k + 1) + offset)) ∈ ps_children st →
  Forall (λ c, ch_name c ≠ month_name (k + 1)) (ps_children st) →
  ∃ err, create_partitions ps st = Err err.
Proof.
  intros Hk Ho1 Ho2 Hps. revert st. induction Hps as [|p ps (j & Hj & ->) Hps IH]; intros st Hin Hc Hn.
  { by apply not_elem_of_nil in Hin. }
  cbn [create_partitions]. destruct (Z.eq_dec j (k + 1)) as [->|Hne].
  - unfold create_partition. cbn [mp_Name month].
    destruct (existsb (λ c, ch_name c ==s month_name (k + 1)) (ps_children st)) eqn:E.
    { apply existsb_exists in E as (c & Hcin & E%String.eqb_eq). rewrite Forall_forall in Hn. by apply Hn in Hcin. }
    assert (existsb (overlaps (month (k + 1))) (ps_children st) = true) as ->; [|by eexists].
    apply existsb_exists. eexists. split; [by apply list_elem_of_In|]. unfold overlaps. cbn.
    replace (k + 1 + 1) with (k + 2) by lia. rewrite andb_true_iff, !Z.ltb_lt. lia.
  - destruct (create_partition (month j) st) as [st1|err] eqn:E; [|by exists err]. cbn [mbind result_bind].
    apply IH.
    + apply elem_of_cons in Hin as [E'|]; [|done]. injection E' as _ E' _.
      destruct Hne. destruct (Z.lt_trichotomy j (k + 1)) as [L|[L|L]]; [|done|];
        pose proof (month_begin_lt _ _ L); lia.
    + unfold create_partition in E. destruct (existsb _ _); [by injection E as <-|].
      destruct (_ || _); [done|]. injection E as <-. cbn. apply list_elem_of_In, in_or_app. left. by apply list_elem_of_In.
    + unfold create_partition in E. destruct (existsb _ _); [by injection E as <-|].
      destruct (_ || _); [done|]. injection E as <-. cbn. apply Forall_app. split; [done|].
      apply Forall_cons_2; [|apply Forall_nil_2]. cbn. intros E%month_name_inj; done.
Qed.

(** Partitions that a database west of UTC made.  The migration makes the
    first partitions with the months of the session's time zone, which begin later
    than those of UTC; the first month it did not make then overlaps the last one
    it made, and maintenance fails as a whole, whatever it should drop. *)
Theorem west_of_UTC_maintenance_fails pm now retention st k offset :
  pm_configured pm = false → pm_locked pm = true →
  month_of UTC (Add now (- retention)) ≤ k + 1 ≤ month_of UTC now + 3 →
  four_digit_month (month_of UTC (Add now (- retention))) → four_digit_month (month_of UTC now + 3) →
  0 < offset → offset < month_begin (k + 2) - month_begin k →
  mk_child (month_name k) (Some (month_begin k + offset, month_begin (k + 1) + offset)) ∈ ps_children st →
  Forall (λ c, ch_name c ≠ month_name (k + 1)) (ps_children st) →
  ∃ err, MaintainRunPartitions pm now retention st = (Err err, st).
Proof.
  intros Hpm Hlock Hk Ha Hb Ho1 Ho2 Hc Hn. unfold MaintainRunPartitions. rewrite Hpm, Hlock. cbn [negb].
  unfold four_digit_month in *. rewrite required_months.
  destruct (overlap_refuses (map month (seqZ (month_of UTC (Add now (- retention)))
      (month_of UTC now + 3 - month_of UTC (Add now (- retention)) + 1))) k offset st) as [err ->]; eauto.
  - unfold four_digit_month. lia.
  - apply Forall_forall. intros p (j & <- & Hj)%in_map_iff. apply list_elem_of_In, elem_of_seqZ in Hj.
    exists j. unfold four_digit_month. split; [lia|done].
  - apply list_elem_of_In, in_map. apply list_elem_of_In, elem_of_seqZ. lia.
Qed.

(** ** Examples *)

Definition sample_partman : partman := mk_partman false Ok true.
(** January and February 2023, and January 2024. *)
Definition sample_children : list child :=
  mk_child "job_runs_default" None :: map month_child [24277; 24278; 24289].

(** A finished run of January 2023, one of February 2023 that still runs, and a
    finished one of today. *)
Definition run_at (id : string) (t : time) (status : run_status) : run_row :=
  new_run (mk_info id "t" "j" Schedule 1 t t "" None None None "" None None None false [])
    status None None None None.
Definition sample_runs : db :=
  set_job_runs [run_at "old" (start - 390 * 24 * hour) Succeeded;
                run_at "stuck" (start - 350 * 24 * hour) Running;
                run_at "fresh" start Succeeded] empty_db.

Lemma sample_months :
  month_of UTC (Add start (- (90 * 24 * hour))) = 24287 ∧ month_of UTC start + 3 = 24292.
Proof. vm_compute. done. Qed.

Lemma sample_catalogued : catalogued sample_children.
Proof.
  split; [apply (bool_decide_unpack _); vm_compute; exact I|].
  apply Forall_cons_2; [by right|]. apply Forall_fmap, Forall_forall. intros k Hk. left. exists k.
  split; [|done]. unfold four_digit_month.
  destruct Hk as [<-|[<-|[<-|[]]]]; lia.
Qed.

Lemma sample_placed : placed sample_children 24287 24292 sample_runs.
Proof.
  intros r Hr Ht. cbn [sample_runs job_runs set_job_runs] in Hr.
  rewrite !elem_of_cons, elem_of_nil in Hr. destruct Hr as [->|[->|[->|[]]]].
  - exfalso. destruct Ht as [Ht _]. by vm_compute in Ht.
  - exfalso. destruct Ht as [Ht _]. by vm_compute in Ht.
  - vm_compute. reflexivity.
Qed.

(** The partition of January 2023 goes with its run, that of February stays. *)
Lemma partition_maintenance_is_safe_witness :
  ∃ st', MaintainRunPartitions sample_partman start (90 * 24 * hour) (mk_pstate sample_children sample_runs)
           = (Ok ("application", 1), st') ∧
    map r_id (job_runs (ps_db st')) = ["stuck"; "fresh"] ∧
    trimmed (Add start (- (90 * 24 * hour))) (mk_pstate sample_children sample_runs) st'.
Proof.
  assert (E : ((λ r : result (string * Z) * pstate, (r.1, map r_id (job_runs (ps_db r.2))))
     (MaintainRunPartitions sample_partman start (90 * 24 * hour) (mk_pstate sample_children sample_runs)))
     = (Ok ("application", 1), ["stuck"; "fresh"])) by (vm_compute; reflexivity).
  destruct (partition_maintenance_is_safe sample_partman start (90 * 24 * hour)
              (mk_pstate sample_children sample_runs)) as (n & st' & Em & _ & _ & Ht).
  - reflexivity.
  - apply Z.leb_le. reflexivity.
  - rewrite (proj1 sample_months). unfold four_digit_month. lia.
  - rewrite (proj2 sample_months). unfold four_digit_month. lia.
  - exact sample_catalogued.
  - rewrite (proj1 sample_months), (proj2 sample_months). exact sample_placed.
  - rewrite Em in E. cbn [fst snd] in E. injection E as -> Er. exists st'.
    split; [exact Em|]. split; [exact Er|exact Ht].
Defined.

Lemma west_of_UTC_maintenance_fails_witness :
  ∃ err, let st := mk_pstate [mk_child (month_name 24291)
           (Some (month_begin 24291 + 5 * hour, month_begin (24291 + 1) + 5 * hour))] empty_db in
    MaintainRunPartitions sample_partman start (90 * 24 * hour) st = (Err err, st).
Proof.
  apply (west_of_UTC_maintenance_fails sample_partman start (90 * 24 * hour) _ 24291 (5 * hour)).
  - done.
  - done.
  - rewrite (proj1 sample_months), (proj2 sample_months). lia.
  - rewrite (proj1 sample_months). unfold four_digit_month. lia.
  - rewrite (proj2 sample_months). unfold four_digit_month. lia.
  - done.
  - vm_compute. done.
  - by apply list_elem_of_singleton.
  - apply Forall_cons_2; [|apply Forall_nil_2]. vm_compute. done.
Defined.
End PartitionProofs.
