(* ===== verification/Engine.v ===== *)
(** * The scheduler engine

    [internal/core/engine*.go] and [active_routing.go]: claiming runs, routing
    and dispatching a claimed run to an executor, reporting its failure,
    delivering cancellations, and the maintenance of history.  Each worker is a
    program: its transactions are separate, and other processes work between
    them. *)
From Stdlib Require Import ZArith Lia Ascii String Sorted.
From stdpp Require Import base list strings.
From S2P Require Import Prelude GoStrings GoUrl GoTime Utf8 Base64 Tables Programs Proto Executors RunStore JobStore Clusters Cryptox Scheduler Routing ExecutorStore ExecutorCommands History.

(** [sha256.Sum256] *)
Class Sha256 := sha256 : string → string.

Module Engine.
Import Programs Proto GoUrl Base64 Cryptox Executors RunStore JobStore Clusters Scheduler Routing ExecutorStore ExecutorCommands History.

Record Engine := mk_engine {
  en_owner : string; en_interval : duration; en_workers : nat; en_publicBaseURL : string;
  en_historyRetention : duration; en_executorGRPC : bool;
}.

Definition NewEngine (owner : string) (interval : duration) (workers : nat)
    (publicBaseURL : string) (historyRetention : duration) (grpc : bool) : Engine :=
  mk_engine owner interval workers (TrimRightSlash publicBaseURL) historyRetention grpc.

(** ** What workers ask for *)

(** What a worker asks of the world: the clock, random numbers, the state of its
    context, executors over HTTP and gRPC. *)
Inductive call : Type → Type :=
| TimeNow : call time
| RandomUint16 : call Z
| RandRead (n : nat) : call (option string)
| CtxErr : call (option error)
| GrpcHealthy (address : string) : call bool
| GrpcInspect (address jobID : string) : call (result string)
| HttpDo (method url : string) : call (result Z)
| DispatchTo (address : string) (request : DispatchRequest) : call (result unit)
| CancelOn (address : string) (request : CancelRequest) : call (result unit).

Notation worker := (prog call).

(** ** Delays *)

Definition shouldRetry (attempt maxRetries : Z) : bool := attempt <=? maxRetries.

(** [attempt] is an [int32], [random] an [uint16]. *)
Definition retryDelay (attempt random : Z) : duration :=
  let attempt := if attempt <? 1 then 1 else attempt in
  let shift := attempt - 1 in
  let shift := if 6 <? shift then 6 else shift in
  let base := wrap64 (second * wrap64 (Z.shiftl 1 shift)) in
  let jitterSlots := (Z.shiftl 500 shift) mod 65536 in
  wrap64 (base + wrap64 (random mod jitterSlots * millisecond)).

Definition executorCommandRetryDelay (attempt : Z) : duration :=
  let attempt := if attempt <? 1 then 1 else attempt in
  let shift := Z.min (attempt - 1) 9 in
  Z.min (wrap64 (second * wrap64 (Z.shiftl 1 shift))) (5 * minute).

(** ** Failures *)

(** [errors.Is(err, context.DeadlineExceeded)] *)
Definition classifyRunFailure (err : error) : string :=
  if bool_decide (err = DeadlineExceeded) then "timed_out" else "failed".

Definition truncateMessage (value : string) (limit : nat) : string :=
  if Nat.leb (String.length value) limit then value else Utf8.str_take limit value.

Section engine.
Context `{Host} `{ScheduleCalc} `{Digest} `{Sha256} `{JobCodec} `{CredentialCodec}
        `{SliceSort} `{RouteHash} `{IPLiterals}.

Definition failWithState (c : ClaimedRun) (state : string) (statusCode : Z) (message : string)
    : worker unit :=
  let run := cl_run c in
  delay ← (if shouldRetry (Attempt run) (c_max_retries (Job_Conf (cl_job c))) then
             random ← effect RandomUint16;
             mret (Some (retryDelay (Attempt run) random))
           else mret None);
  _ ← store (FailRun run state statusCode message delay);
  mret tt.

Definition fail_run (c : ClaimedRun) (err : error) : worker unit :=
  failWithState c (classifyRunFailure err) 0 (error_text err).

(** ** Probing executors *)

Definition executorAddressUsesGRPC (address : string) : bool :=
  let address := TrimSpace address in
  if address ==s "" then false
  else if negb (Contains address "://") then true
  else
    match Parse address with
    | Err _ => false
    | Ok parsed =>
        if url_Host parsed ==s "" then false
        else
          let scheme := ToLower (url_Scheme parsed) in
          if (scheme ==s "grpc") || (scheme ==s "grpcs") then true
          else negb ((scheme ==s "http") || (scheme ==s "https"))
    end.

(** [executorGRPCPool.probe] *)
Definition grpc_probe (strategy jobID address : string) : worker bool :=
  if strategy ==s "failover" then effect (GrpcHealthy address)
  else if strategy ==s "busyover" then
    state ← effect (GrpcInspect address jobID);
    mret (match state with Ok st => st !=s "busy" | Err _ => false end)
  else mret false.

Definition http_probe (method url : string) : worker bool :=
  status ← effect (HttpDo method url);
  mret (match status with Ok code => (200 <=? code) && (code <? 300) | Err _ => false end).

Definition probeHTTPExecutor (strategy jobID address : string) : worker bool :=
  if strategy ==s "busyover" then http_probe "POST" (TrimRightSlash address +:+ "/idle")
  else if strategy ==s "failover" then http_probe "GET" (TrimRightSlash address +:+ "/health")
  else mret false.

Definition probeExecutor (grpc : bool) (strategy jobID address : string) : worker bool :=
  if grpc && executorAddressUsesGRPC address then grpc_probe strategy jobID address
  else probeHTTPExecutor strategy jobID address.

Fixpoint probe_all (grpc : bool) (strategy jobID : string) (nodes : list executorCandidate)
    : worker (result executorCandidate) :=
  match nodes with
  | [] => mret (Err (ErrMsg "no executor available"))
  | node :: rest =>
      err ← effect CtxErr;
      match err with
      | Some err => mret (Err err)
      | None =>
          healthy ← probeExecutor grpc strategy jobID (ec_Address node);
          if (healthy : bool) then mret (Ok node) else probe_all grpc strategy jobID rest
      end
  end.

Definition probe_active (grpc : bool) (strategy jobID : string) (nodes : list executorCandidate)
    : worker (result executorCandidate) :=
  if Nat.eqb (length nodes) 0 then mret (Err (ErrMsg "no live executor nodes"))
  else probe_all grpc strategy jobID (sort_Slice less_id nodes).

(** ** Routing *)

Definition JobExecutorLabels (jobID : string) : tx (list string * list string) :=
  query (λ _ s, Ok (job_labels jobID s)).

Definition job_group (job : Job) : string := coalesce (c_executor_group_id (Job_Conf job)) "".

(** The choice of the last part of [routeClaimedExecutor]: one transaction. *)
Definition reserve (c : ClaimedRun) (required excluded : list string)
    : worker (result ExecutorNode) :=
  let run := cl_run c in
  let job := cl_job c in
  let override := negb (Nat.eqb (length (OverrideAddresses run)) 0) in
  random ← effect RandomUint16;
  let selector := route_selector random override required excluded (Job_ID job) in
  if override
  then store (ReserveExecutorOverrideRoute (Job_TenantID job) (job_group job) (Job_ID job)
                (OverrideAddresses run) selector)
  else store (ReserveExecutorRoute (Job_TenantID job) (job_group job) (Job_ID job) selector).

(** The strategy and the nodes a run may go to, with the labels that were
    loaded on the way. *)
Definition route_nodes (c : ClaimedRun)
    : worker (result (string * list ExecutorNode * (list string * list string))) :=
  let run := cl_run c in
  let job := cl_job c in
  let tenantID := Job_TenantID job in
  if negb (Nat.eqb (length (OverrideAddresses run)) 0) then
    labels ← store (JobExecutorLabels (Job_ID job));
    match labels with
    | Err err => mret (Err err)
    | Ok labels =>
        strategy ← store (query (λ _, ExecutorRouteStrategy tenantID (job_group job) (Job_ID job)));
        mret (strategy ← strategy;
              Ok (strategy, OverrideExecutorNodes (OverrideAddresses run), labels))
    end
  else
    routes ← store (query (ExecutorRouteCandidates tenantID (job_group job) (Job_ID job)));
    mret ('(strategy, nodes) ← routes; Ok (strategy, FilterExecutorNodes nodes [] [], ([], []))).

(** The choice among the nodes: by probing, the only one, or by a reservation. *)
Definition choose_node (grpc : bool) (c : ClaimedRun) (strategy : string)
    (activeNodes : list ExecutorNode) (labels : list string * list string)
    : worker (result ExecutorNode) :=
  let job := cl_job c in
  if (strategy ==s "failover") || (strategy ==s "busyover") then
    selected ← probe_active grpc strategy (Job_ID job)
                 (map (λ n, mk_ecand (NodeID n) (Address n) 0 0) activeNodes);
    mret (selected ← selected; selected_node activeNodes selected)
  else
    match activeNodes with
    | [n] => mret (Ok n)
    | _ =>
        labels ← (if Nat.eqb (length (OverrideAddresses (cl_run c))) 0
                  then store (JobExecutorLabels (Job_ID job))
                  else mret (Ok labels));
        match labels with
        | Err err => mret (Err err)
        | Ok (required, excluded) => reserve c required excluded
        end
    end.

(** [routeClaimedExecutor], transaction by transaction. *)
Definition route (grpc : bool) (c : ClaimedRun) : worker (result ExecutorNode) :=
  let run := cl_run c in
  if BroadcastGroupID run !=s "" then
    if (ExecutorNodeID run ==s "") || (ExecutorAddress run ==s "") || (ShardTotal run <? 1)
    then mret (Err (ErrMsg "broadcast run is missing fixed executor or shard metadata"))
    else mret (Ok (fixed_node run))
  else if fixedExecutorForRecovery run (cl_job c) then mret (Ok (fixed_node run))
  else
    routes ← route_nodes c;
    match routes with
    | Err err => mret (Err err)
    | Ok (strategy, activeNodes, labels) => choose_node grpc c strategy activeNodes labels
    end.

(** ** Executing a claimed run *)

Definition newCallbackToken : worker (result (string * string)) :=
  raw ← effect (RandRead 32);
  mret (match raw with
        | None => Err (ErrMsg "generate callback token")
        | Some raw => let token := EncodeToString raw in Ok (token, sha256 token)
        end).

(** [headers[key] = value] *)
Fixpoint set_header (key value : string) (h : list (string * string)) : list (string * string) :=
  match h with
  | [] => [(key, value)]
  | (k, v) :: rest => if k ==s key then (key, value) :: rest else (k, v) :: set_header key value rest
  end.

Definition http_request (en : Engine) (c : ClaimedRun) (callbackToken body : string)
    : option HttpExecution :=
  let conf := Job_Conf (cl_job c) in
  let id := ID (cl_run c) in
  if c_target_url conf ==s "" then None
  else
    let headers := set_header "X-Job-Run-ID" id (Headers (cl_job c)) in
    let headers := set_header "X-Job-Callback-URL" (en_publicBaseURL en +:+ "/api/v1/callbacks/" +:+ id) headers in
    let headers := set_header "X-Job-Log-URL" (en_publicBaseURL en +:+ "/api/v1/runs/" +:+ id +:+ "/logs") headers in
    let headers := set_header "X-Job-Callback-Token" callbackToken headers in
    Some (mk_http (c_target_url conf) (c_http_method conf) headers body).

Definition cluster_access (cluster : KubernetesCluster) : ClusterAccess :=
  let x := kc_Credentials cluster in
  mk_access (AuthMode cluster) (APIServer cluster) (Namespace cluster) (Kubeconfig x) (kc_Token x)
    (CAData x) (InsecureSkipTLSVerify cluster).

Definition dispatch_request (en : Engine) (c : ClaimedRun) (callbackToken : string)
    (cluster : option KubernetesCluster) : DispatchRequest :=
  let run := cl_run c in
  let job := cl_job c in
  let conf := Job_Conf job in
  let external := if ExternalExecutionID run ==s "" then ID run else ExternalExecutionID run in
  let body := ReplaceAll (c_body_template conf) "{{input}}" (RuntimeInput run) in
  mk_dispatch (ID run) external (Job_ID job) (Attempt run) (c_executor_handler conf)
    (RuntimeInput run) callbackToken (c_timeout_seconds conf) (BroadcastGroupID run)
    (ShardIndex run) (ShardTotal run) (c_script_language conf) (c_script_source conf)
    (cluster_access <$> cluster) (http_request en c callbackToken body)
    (let auth := RegistryAuth job in
     if Configured auth
     then Some (mk_registry (Server auth) (Username auth) (Password auth)) else None) 0.

(** The cluster of a job that has one. *)
Definition load_cluster (c : ClaimedRun) : worker (result (option KubernetesCluster)) :=
  let job := cl_job c in
  let id := coalesce (c_kubernetes_cluster_id (Job_Conf job)) "" in
  if id ==s "" then mret (Ok None)
  else
    cluster ← store (GetKubernetesCluster (Job_TenantID job) id);
    mret (match cluster with Ok q => Ok (Some q) | Err err => Err err end).

(** The end of [execute]: the run waits for its callback, then goes out. *)
Definition hand_over (c : ClaimedRun) (node : ExecutorNode) (tokenHash : string) (deadline : time)
    (request : DispatchRequest) : worker unit :=
  prepared ← store (PrepareClaimedExecutorDispatch (cl_run c) (NodeID node) (Address node)
                      tokenHash deadline);
  match prepared with
  | Err err => fail_run c err
  | Ok _ =>
      accepted ← effect (DispatchTo (Address node) request);
      match accepted with
      | Ok _ => mret tt
      | Err err =>
          _ ← store (CompleteCallback (ID (cl_run c)) tokenHash false
                       (truncateMessage (error_text err) (Z.to_nat 4096)));
          mret tt
      end
  end.

Definition execute (en : Engine) (c : ClaimedRun) : worker unit :=
  if negb (en_executorGRPC en) then fail_run c (ErrMsg "executor gRPC transport is required")
  else if job_group (cl_job c) ==s "" then fail_run c (ErrMsg "job requires an executor group")
  else
    token ← newCallbackToken;
    match token with
    | Err err => fail_run c err
    | Ok (callbackToken, tokenHash) =>
        t ← effect TimeNow;
        let deadline := Add t (wrap64 (c_callback_timeout_seconds (Job_Conf (cl_job c)) * second)) in
        node ← route true c;
        match node with
        | Err err => fail_run c err
        | Ok node =>
            cluster ← load_cluster c;
            match cluster with
            | Err err => fail_run c err
            | Ok cluster =>
                hand_over c node tokenHash deadline (dispatch_request en c callbackToken cluster)
            end
        end
    end.

(** ** Claiming *)

Definition shouldWakeDispatcher (active capacity : Z) : bool :=
  if active =? 0 then true
  else
    let threshold := Z.max (capacity / 4) 1 in
    threshold <=? capacity - active.

Definition availableWorkerSlots (capacity active : nat) : nat := capacity - active.

(** The claim of [dispatch]: nothing without a free slot. *)
Definition claim_slots (en : Engine) (active : nat) : option (tx (list ClaimedRun)) :=
  let available := availableWorkerSlots (en_workers en) active in
  if Nat.eqb available 0 then None
  else Some (ClaimRuns (en_owner en) available (2 * minute)).

(** [dispatch]: the runs to start workers for. *)
Definition dispatch (en : Engine) (active : nat) : worker (result (list ClaimedRun)) :=
  match claim_slots en active with
  | None => mret (Ok [])
  | Some claim => store claim
  end.

Definition tick (en : Engine) (active : nat) : worker (result (list ClaimedRun)) :=
  enqueued ← store (EnqueueDue (Z.to_nat 500));
  match enqueued with
  | Err err => mret (Err err)
  | Ok _ =>
      expired ← store ExpireCallbacks;
      match expired with
      | Err err => mret (Err err)
      | Ok _ => dispatch en active
      end
  end.

(** ** Cancellations *)

Definition executorCommandBatchSize : nat := 16.

(** The goroutine of one command in [processExecutorCommands]. *)
Definition deliver_command (en : Engine) (command : ExecutorCommand) : worker unit :=
  cluster ← (if xc_ScriptLanguage command ==s "kubernetes" then
               q ← store (GetKubernetesCluster (xc_TenantID command) (xc_KubernetesClusterID command));
               mret (match q with Ok q => Ok (Some q) | Err err => Err err end)
             else mret (Ok None));
  delivered ← (match cluster with
               | Err err => mret (Err err)
               | Ok cluster =>
                   effect (CancelOn (xc_ExecutorAddress command)
                     (mk_cancel (xc_RunID command) (xc_Reason command)
                        (xc_ExternalExecutionID command) (xc_JobID command)
                        (xc_ScriptLanguage command) (cluster_access <$> cluster)))
               end);
  match delivered with
  | Ok _ => _ ← store (CompleteExecutorCommand (en_owner en) (xc_ID command)); mret tt
  | Err err =>
      _ ← store (RetryExecutorCommand (en_owner en) (xc_ID command) (error_text err)
                   (executorCommandRetryDelay (xc_Attempts command)));
      mret tt
  end.

Definition processExecutorCommands (en : Engine) : worker nat :=
  commands ← store (ClaimExecutorCommands (en_owner en) executorCommandBatchSize);
  match commands with
  | Err _ => mret 0%nat
  | Ok commands => _ ← each (deliver_command en) commands; mret (length commands)
  end.
End engine.
End Engine.
