(* ===== verification/Pool.v ===== *)
(** * Connections to executors

    [internal/core/executor_grpc.go]: the pool of gRPC connections that the engine
    and the control plane share.  The pool is the state under its mutex; calls are
    programs that hold one connection while they wait for the executor. *)
From Stdlib Require Import ZArith Lia Ascii String.
From stdpp Require Import base list strings gmap relations.
From S2P Require Import Prelude GoStrings GoUrl Tables Proto Programs.

Module Pool.
Import GoUrl Programs Proto.

(** A connection is told apart from others by the number it was made under. *)
Record executorGRPCConnection := mk_connection {
  gc_connection : nat; gc_lastUsed : time; gc_inUse : nat;
}.
#[global] Instance connection_eq_dec : EqDecision executorGRPCConnection.
Proof. solve_decision. Defined.

Record executorGRPCPool := mk_pool {
  gp_conns : gmap string executorGRPCConnection; gp_made : nat; gp_closed : list nat;
}.
Definition newExecutorGRPCPool : executorGRPCPool := mk_pool ∅ 0 [].

Definition maxExecutorGRPCConnections : nat := 256.

Definition executorGRPCTarget `{IPLiterals} (address : string) : result string :=
  let address := TrimSpace address in
  if address ==s "" then Err (ErrMsg "executor address is empty")
  else if negb (Contains address "://") then Ok address
  else
    match Parse address with
    | Ok parsed =>
        if (url_Host parsed ==s "") || ((url_Path parsed !=s "") && (url_Path parsed !=s "/"))
        then Err (ErrMsg "invalid executor gRPC address") else Ok (url_Host parsed)
    | Err _ => Err (ErrMsg "invalid executor gRPC address")
    end.

(** ** The pool *)

(** What a caller holds: the target, and the connection it was given. *)
Notation handle := (string * nat)%type.

(** The map is ranged over in the order of [l]. *)
Fixpoint oldest_idle (l : list (string * executorGRPCConnection))
    (oldest : option (string * executorGRPCConnection)) : option (string * executorGRPCConnection) :=
  match l with
  | [] => oldest
  | (target, entry) :: rest =>
      if negb (Nat.eqb (gc_inUse entry) 0)
         || match oldest with
            | Some (_, o) => negb (Before (gc_lastUsed entry) (gc_lastUsed o))
            | None => false
            end
      then oldest_idle rest oldest
      else oldest_idle rest (Some (target, entry))
  end.

Definition evictIdleLocked (order : list (string * executorGRPCConnection)) (p : executorGRPCPool)
    : bool * executorGRPCPool :=
  match oldest_idle order None with
  | None => (false, p)
  | Some (target, entry) =>
      (true, mk_pool (delete target (gp_conns p)) (gp_made p) (gp_closed p ++ [gc_connection entry]))
  end.

Section pool.
Context `{IPLiterals}.

(** [dialled] tells whether [grpc.NewClient] succeeds. *)
Definition acquireConn (address : string) (now : time)
    (order : list (string * executorGRPCConnection)) (dialled : bool) (p : executorGRPCPool)
    : result handle * executorGRPCPool :=
  match executorGRPCTarget address with
  | Err err => (Err err, p)
  | Ok target =>
      match gp_conns p !! target with
      | Some entry =>
          (Ok (target, gc_connection entry),
           mk_pool (<[target := mk_connection (gc_connection entry) now (S (gc_inUse entry))]> (gp_conns p))
             (gp_made p) (gp_closed p))
      | None =>
          let '(room, p) :=
            if Nat.leb maxExecutorGRPCConnections (size (gp_conns p)) then evictIdleLocked order p
            else (true, p) in
          if negb room then (Err (ErrMsg "executor gRPC connection pool is full"), p)
          else if negb dialled then (Err (ErrMsg "connect executor"), p)
          else
            (Ok (target, gp_made p),
             mk_pool (<[target := mk_connection (gp_made p) now 1]> (gp_conns p))
               (S (gp_made p)) (gp_closed p))
      end
  end.
End pool.

(** The closure of [releaseFunc]: the entry may have been replaced since. *)
Definition releaseFunc (h : handle) (now : time) (p : executorGRPCPool) : executorGRPCPool :=
  match gp_conns p !! h.1 with
  | Some entry =>
      if negb (Nat.eqb (gc_connection entry) h.2) || Nat.eqb (gc_inUse entry) 0 then p
      else mk_pool (<[h.1 := mk_connection (gc_connection entry) now (pred (gc_inUse entry))]> (gp_conns p))
             (gp_made p) (gp_closed p)
  | None => p
  end.

Definition close (p : executorGRPCPool) : executorGRPCPool :=
  mk_pool ∅ (gp_made p) (gp_closed p ++ map (λ te, gc_connection te.2) (map_to_list (gp_conns p))).

(** ** Calls *)

(** A health check answers whether the executor serves, an inspection its state, a
    dispatch or cancellation whether it was accepted. *)
Inductive pool_call : Type → Type :=
| AcquireConn (address : string) : pool_call (result handle)
| Release (h : handle) : pool_call unit
| HealthCheck (h : handle) : pool_call (result bool)
| InspectState (h : handle) (jobID : string) : pool_call (result string)
| SendDispatch (h : handle) (request : DispatchRequest) : pool_call (result bool)
| SendCancel (h : handle) (request : CancelRequest) : pool_call (result bool).
Notation caller := (prog pool_call).

Definition healthy (address : string) : caller bool :=
  acquired ← effect (AcquireConn address);
  match acquired with
  | Err _ => mret false
  | Ok h =>
      response ← effect (HealthCheck h);
      _ ← effect (Release h);
      mret (match response with Ok serving => serving | Err _ => false end)
  end.

Definition idle (address jobID : string) : caller bool :=
  acquired ← effect (AcquireConn address);
  match acquired with
  | Err _ => mret false
  | Ok h =>
      response ← effect (InspectState h jobID);
      _ ← effect (Release h);
      mret (match response with Ok state => state !=s "busy" | Err _ => false end)
  end.

Definition probe (strategy jobID address : string) : caller bool :=
  if strategy ==s "failover" then healthy address
  else if strategy ==s "busyover" then idle address jobID
  else mret false.

Definition dispatch (address : string) (request : DispatchRequest) : caller (result unit) :=
  acquired ← effect (AcquireConn address);
  match acquired with
  | Err err => mret (Err err)
  | Ok h =>
      response ← effect (SendDispatch h request);
      _ ← effect (Release h);
      mret (match response with
            | Err _ => Err (ErrMsg "dispatch executor")
            | Ok accepted => if (accepted : bool) then Ok tt else Err (ErrMsg "executor rejected run")
            end)
  end.

Definition cancel (address : string) (request : CancelRequest) : caller (result unit) :=
  acquired ← effect (AcquireConn address);
  match acquired with
  | Err err => mret (Err err)
  | Ok h =>
      response ← effect (SendCancel h request);
      _ ← effect (Release h);
      mret (match response with
            | Err _ => Err (ErrMsg "cancel executor run")
            | Ok accepted => if (accepted : bool) then Ok tt else Err (ErrMsg "executor rejected cancellation")
            end)
  end.
End Pool.

(** * Connections in use are not closed

    Any number of calls that share the pool, interleaved; each waits for its
    executor with the pool's mutex released. *)

Module PoolProofs.
Import GoUrl Programs Proto Pool.

(** ** Calls in progress *)

(** A call, the handle it holds, and what it does next. *)
Record thread := mk_thread { th_held : option (string * nat); th_prog : caller unit }.
Record world := mk_world { w_pool : executorGRPCPool; w_shut : bool; w_threads : list thread }.

Definition started {A} (p : caller A) : thread := mk_thread None (_ ← p; mret tt).

Section world.
Context `{IPLiterals}.

(** [answers eff b]: effects other than those on the pool get any answer. *)
Definition answers {B} (eff : pool_call B) (b : B) : Prop :=
  match eff with AcquireConn _ | Release _ => False | _ => True end.

Inductive step : world → world → Prop :=
| step_probe pl shut ts strategy jobID address :
    step (mk_world pl shut ts) (mk_world pl shut (ts ++ [started (probe strategy jobID address)]))
| step_dispatch pl shut ts address request :
    step (mk_world pl shut ts) (mk_world pl shut (ts ++ [started (dispatch address request)]))
| step_cancel pl shut ts address request :
    step (mk_world pl shut ts) (mk_world pl shut (ts ++ [started (cancel address request)]))
| step_acquire pl shut ts1 ts2 held address k now order dialled r pl' :
    order ≡ₚ map_to_list (gp_conns pl) →
    acquireConn address now order dialled pl = (r, pl') →
    step (mk_world pl shut (ts1 ++ mk_thread held (Effect (AcquireConn address) k) :: ts2))
         (mk_world pl' shut (ts1 ++ mk_thread (match r with Ok h => Some h | Err _ => held end) (k r) :: ts2))
| step_release pl shut ts1 ts2 held h k now :
    step (mk_world pl shut (ts1 ++ mk_thread held (Effect (Release h) k) :: ts2))
         (mk_world (releaseFunc h now pl) shut (ts1 ++ mk_thread None (k tt) :: ts2))
| step_answer {B} pl shut ts1 ts2 held (eff : pool_call B) k b :
    answers eff b →
    step (mk_world pl shut (ts1 ++ mk_thread held (Effect eff k) :: ts2))
         (mk_world pl shut (ts1 ++ mk_thread held (k b) :: ts2))
| step_return pl shut ts1 ts2 held :
    step (mk_world pl shut (ts1 ++ mk_thread held (Return tt) :: ts2)) (mk_world pl shut (ts1 ++ ts2))
| step_close pl shut ts : step (mk_world pl shut ts) (mk_world (close pl) true ts).

Definition reachable (w : world) : Prop := rtc step (mk_world newExecutorGRPCPool false []) w.

(** ** Calls release what they acquire *)

(** With [held], the program uses that connection only, gives it back, and ends
    without one. *)
Fixpoint bracketed (held : option (string * nat)) (p : caller unit) : Prop :=
  match p with
  | Return _ => held = None
  | Store _ _ => False
  | @Effect _ _ B eff k =>
      match eff in pool_call B' return (B' → caller unit) → Prop with
      | AcquireConn _ => λ k, held = None ∧ (∀ h, bracketed (Some h) (k (Ok h))) ∧
                              ∀ err, bracketed None (k (Err err))
      | Release h => λ k, held = Some h ∧ bracketed None (k tt)
      | HealthCheck h | InspectState h _ | SendDispatch h _ | SendCancel h _ =>
          λ k, held = Some h ∧ ∀ b, bracketed held (k b)
      end k
  end.

Lemma probe_bracketed strategy jobID address : bracketed None (th_prog (started (probe strategy jobID address))).
Proof.
  unfold probe. destruct (strategy ==s "failover"); [|destruct (strategy ==s "busyover")]; [..|done];
    (split; [done|split; [|done]]; intros h; split; [done|]; intros b; split; done).
Qed.
Lemma dispatch_bracketed address request : bracketed None (th_prog (started (dispatch address request))).
Proof. split; [done|split; [|done]]. intros h. split; [done|]. intros b. split; done. Qed.
Lemma cancel_bracketed address request : bracketed None (th_prog (started (cancel address request))).
Proof. split; [done|split; [|done]]. intros h. split; [done|]. intros b. split; done. Qed.

(** ** The invariant *)

Definition holds (h : string * nat) (th : thread) : bool := bool_decide (th_held th = Some h).
Definition holders (h : string * nat) (ts : list thread) : nat := sql_count (holds h) ts.
#[local] Arguments holders : simpl never.
#[local] Opaque maxExecutorGRPCConnections.

Record consistent (w : world) : Prop := {
  c_made : ∀ t e, gp_conns (w_pool w) !! t = Some e → (gc_connection e < gp_made (w_pool w))%nat;
  c_open : ∀ t e, gp_conns (w_pool w) !! t = Some e → gc_connection e ∉ gp_closed (w_pool w);
  c_closed : ∀ i, i ∈ gp_closed (w_pool w) → (i < gp_made (w_pool w))%nat;
  c_unique : ∀ t e t' e', gp_conns (w_pool w) !! t = Some e → gp_conns (w_pool w) !! t' = Some e' →
               gc_connection e = gc_connection e' → t = t';
  c_counted : ∀ t e, gp_conns (w_pool w) !! t = Some e →
                gc_inUse e = holders (t, gc_connection e) (w_threads w);
  c_bounded : (size (gp_conns (w_pool w)) ≤ maxExecutorGRPCConnections)%nat;
  c_bracketed : ∀ th, th ∈ w_threads w → bracketed (th_held th) (th_prog th);
  c_past : ∀ th h, th ∈ w_threads w → th_held th = Some h → (h.2 < gp_made (w_pool w))%nat;
  c_held : w_shut w = false → ∀ th h, th ∈ w_threads w → th_held th = Some h →
             ∃ e, gp_conns (w_pool w) !! h.1 = Some e ∧ gc_connection e = h.2;
}.

Lemma holders_app h ts ts' : holders h (ts ++ ts') = (holders h ts + holders h ts')%nat.
Proof. apply sql_count_app. Qed.
Lemma holders_cons h th ts :
  holders h (th :: ts) = ((if holds h th then 1 else 0) + holders h ts)%nat.
Proof. apply sql_count_cons. Qed.

Lemma holders_zero h ts th : holders h ts = 0%nat → th ∈ ts → th_held th ≠ Some h.
Proof.
  intros Hz Hth E. induction ts as [|x ts IH]; [by apply not_elem_of_nil in Hth|].
  rewrite holders_cons in Hz. apply elem_of_cons in Hth as [->|Hth].
  - unfold holds in Hz. rewrite bool_decide_true in Hz by done. lia.
  - apply IH; [lia|done].
Qed.

Lemma holders_none h ts : (∀ th, th ∈ ts → th_held th ≠ Some h) → holders h ts = 0%nat.
Proof.
  induction ts as [|x ts IH]; intros Hn; [done|]. rewrite holders_cons, IH.
  - unfold holds. rewrite bool_decide_false; [done|]. apply Hn. left.
  - intros th Hth. apply Hn. by right.
Qed.

(** A thread that holds as much as before does not matter to the pool. *)
Lemma holders_swap h ts1 ts2 held p p' :
  holders h (ts1 ++ mk_thread held p :: ts2) = holders h (ts1 ++ mk_thread held p' :: ts2).
Proof. by rewrite !holders_app, !holders_cons. Qed.

Lemma elem_of_middle {A} (x y : A) l1 l2 : x ∈ l1 ++ y :: l2 ↔ x = y ∨ x ∈ l1 ++ l2.
Proof. rewrite !elem_of_app, elem_of_cons. tauto. Qed.

Lemma oldest_idle_spec l best :
  match oldest_idle l best with
  | Some (t, e) => best = Some (t, e) ∨ ((t, e) ∈ l ∧ gc_inUse e = 0%nat)
  | None => best = None ∧ ∀ t e, (t, e) ∈ l → gc_inUse e ≠ 0%nat
  end.
Proof.
  revert best. induction l as [|[t e] l IH]; intros best; cbn [oldest_idle].
  { destruct best as [[t e]|]; [by left|]. split; [done|]. intros t e He. by apply not_elem_of_nil in He. }
  destruct (Nat.eqb (gc_inUse e) 0) eqn:Eu; cbn [negb orb].
  - apply Nat.eqb_eq in Eu. destruct best as [[t' e']|]; [destruct (negb _)|].
    + specialize (IH (Some (t', e'))). destruct (oldest_idle _ _) as [[t0 e0]|]; [|by destruct IH].
      destruct IH as [|[? ?]]; [by left|right; split; [by right|done]].
    + specialize (IH (Some (t, e))). destruct (oldest_idle _ _) as [[t0 e0]|]; [|by destruct IH].
      destruct IH as [[= <- <-]|[? ?]]; right; (split; [|done]); [left|by right].
    + specialize (IH (Some (t, e))). destruct (oldest_idle _ _) as [[t0 e0]|]; [|by destruct IH].
      destruct IH as [[= <- <-]|[? ?]]; right; (split; [|done]); [left|by right].
  - apply Nat.eqb_neq in Eu. specialize (IH best). destruct (oldest_idle _ _) as [[t0 e0]|].
    + destruct IH as [|[? ?]]; [by left|right; split; [by right|done]].
    + destruct IH as [? IH]. split; [done|]. intros t' e' [[= -> ->]|He]%elem_of_cons; eauto.
Qed.

(** ** Every step keeps it *)

Lemma consistent_continue pl shut ts1 ts2 held p p' :
  consistent (mk_world pl shut (ts1 ++ mk_thread held p :: ts2)) → bracketed held p' →
  consistent (mk_world pl shut (ts1 ++ mk_thread held p' :: ts2)).
Proof.
  intros [] Hp. cbn in *.
  assert (Hin : ∀ th, th ∈ ts1 ++ mk_thread held p' :: ts2 →
            ∃ th0, th0 ∈ ts1 ++ mk_thread held p :: ts2 ∧ th_held th0 = th_held th).
  { intros th [->|Hth]%elem_of_middle; eexists; (split; [apply elem_of_middle|]); eauto. }
  split; cbn; eauto.
  - intros t e He. rewrite (c_counted0 t e He). apply holders_swap.
  - intros th [->|Hth]%elem_of_middle; [done|]. apply c_bracketed0, elem_of_middle. by right.
  - intros th h Hth E. destruct (Hin th Hth) as (th0 & Hth0 & E0). eapply c_past0; [done|congruence].
  - intros Hs th h Hth E. destruct (Hin th Hth) as (th0 & Hth0 & E0). eapply c_held0; [done|done|congruence].
Qed.

(** What an idle entry leaves behind. *)
Lemma consistent_evict pl shut ts t e :
  consistent (mk_world pl shut ts) → gp_conns pl !! t = Some e → gc_inUse e = 0%nat →
  consistent (mk_world (mk_pool (delete t (gp_conns pl)) (gp_made pl) (gp_closed pl ++ [gc_connection e])) shut ts).
Proof.
  intros [] He Hu. cbn in *.
  assert (Hz : ∀ th, th ∈ ts → th_held th ≠ Some (t, gc_connection e)).
  { intros th. apply holders_zero. rewrite <- c_counted0; done. }
  assert (Hne : ∀ t' e', delete t (gp_conns pl) !! t' = Some e' → t' ≠ t ∧ gp_conns pl !! t' = Some e').
  { intros t' e' [? ?]%lookup_delete_Some. done. }
  split; cbn.
  - intros t' e' [_ H']%Hne. eauto.
  - intros t' e' [N H']%Hne. rewrite elem_of_app, list_elem_of_singleton. intros [Hc|E].
    + by eapply c_open0.
    + apply N. by eapply c_unique0.
  - intros i [Hi| ->%list_elem_of_singleton]%elem_of_app; eauto.
  - intros t1 e1 t2 e2 [_ H1]%Hne [_ H2]%Hne. eauto.
  - intros t' e' [_ H']%Hne. eauto.
  - rewrite map_size_delete, He. cbn. lia.
  - done.
  - done.
  - intros Hs th h Hth E. destruct (c_held0 Hs th h Hth E) as (e' & He' & Ei). exists e'. split; [|done].
    apply lookup_delete_Some. split; [|done]. intros Et. apply (Hz th Hth). rewrite E.
    destruct h as [t1 i]. cbn in *. subst. congruence.
Qed.

Lemma consistent_insert pl shut ts1 ts2 k p t now :
  consistent (mk_world pl shut (ts1 ++ mk_thread None p :: ts2)) →
  gp_conns pl !! t = None → (size (gp_conns pl) < maxExecutorGRPCConnections)%nat →
  bracketed (Some (t, gp_made pl)) k →
  consistent (mk_world (mk_pool (<[t := mk_connection (gp_made pl) now 1]> (gp_conns pl))
                          (S (gp_made pl)) (gp_closed pl))
                shut (ts1 ++ mk_thread (Some (t, gp_made pl)) k :: ts2)).
Proof.
  intros [] Ht Hs Hk. cbn in *.
  assert (Hold : ∀ th, th ∈ ts1 ++ ts2 → th ∈ ts1 ++ mk_thread None p :: ts2)
    by (intros; apply elem_of_middle; by right).
  assert (Hcount : ∀ h, holders h (ts1 ++ mk_thread (Some (t, gp_made pl)) k :: ts2)
            = ((if bool_decide (h = (t, gp_made pl)) then 1 else 0) + holders h (ts1 ++ mk_thread None p :: ts2))%nat).
  { intros h. rewrite !holders_app, !holders_cons. unfold holds. cbn [th_held].
    rewrite (bool_decide_ext (Some (t, gp_made pl) = Some h) (h = (t, gp_made pl))) by (split; congruence).
    rewrite (bool_decide_false (None = Some h)) by done. lia. }
  split; cbn.
  - intros t' e' [[<- <-]|[_ H']]%lookup_insert_Some; cbn; [lia|]. apply c_made0 in H'. lia.
  - intros t' e' [[<- <-]|[_ H']]%lookup_insert_Some; cbn; [|eauto]. intros Hc%c_closed0. lia.
  - intros i Hi%c_closed0. lia.
  - intros t1 e1 t2 e2 [[<- <-]|[_ H1]]%lookup_insert_Some [[<- <-]|[_ H2]]%lookup_insert_Some; cbn; eauto.
    + apply c_made0 in H2. lia.
    + apply c_made0 in H1. lia.
  - intros t' e' [[<- <-]|[N H']]%lookup_insert_Some; cbn; rewrite Hcount.
    + rewrite bool_decide_true by done. rewrite holders_none; [done|].
      intros th Hth E. specialize (c_past0 th _ Hth E). cbn in c_past0. lia.
    + rewrite bool_decide_false by congruence. rewrite (c_counted0 _ _ H'). done.
  - rewrite map_size_insert_None by done. lia.
  - intros th [->|Hth]%elem_of_middle; [done|eauto].
  - intros th h [->|Hth]%elem_of_middle E; cbn in *; [injection E as <-; cbn; lia|].
    specialize (c_past0 th h (Hold _ Hth) E). lia.
  - intros Hsh th h [->|Hth]%elem_of_middle E; cbn in *.
    + injection E as <-. eexists. by rewrite lookup_insert_eq.
    + destruct (c_held0 Hsh th h (Hold _ Hth) E) as (e & He & Ei). exists e.
      rewrite lookup_insert_ne; [done|]. intros E1. rewrite <- E1 in He. congruence.
Qed.

(** Counting a use up or down. *)
Lemma consistent_count pl shut ts1 ts2 held held' k p t e n now :
  consistent (mk_world pl shut (ts1 ++ mk_thread held p :: ts2)) → gp_conns pl !! t = Some e →
  n = holders (t, gc_connection e) (ts1 ++ mk_thread held' k :: ts2) →
  (∀ h, h ≠ (t, gc_connection e) → holds h (mk_thread held' k) = holds h (mk_thread held p)) →
  bracketed held' k →
  consistent (mk_world (mk_pool (<[t := mk_connection (gc_connection e) now n]> (gp_conns pl))
                          (gp_made pl) (gp_closed pl))
                shut (ts1 ++ mk_thread held' k :: ts2)).
Proof.
  intros [] Ht Hn Hother Hk. cbn in *.
  assert (Hold : ∀ th, th ∈ ts1 ++ ts2 → th ∈ ts1 ++ mk_thread held p :: ts2)
    by (intros; apply elem_of_middle; by right).
  assert (Hmine : ∀ h, held' = Some h → h = (t, gc_connection e) ∨ held = Some h).
  { intros h E. destruct (decide (h = (t, gc_connection e))) as [|N]; [by left|right].
    specialize (Hother h N). unfold holds in Hother. cbn in Hother. symmetry in Hother.
    rewrite (bool_decide_true (held' = Some h)) in Hother by done. by apply bool_decide_eq_true in Hother. }
  split; cbn.
  - intros t' e' [[<- <-]|[_ H']]%lookup_insert_Some; cbn; eauto.
  - intros t' e' [[<- <-]|[_ H']]%lookup_insert_Some; cbn; eauto.
  - done.
  - intros t1 e1 t2 e2 [[<- <-]|[_ H1]]%lookup_insert_Some [[<- <-]|[_ H2]]%lookup_insert_Some; cbn; eauto.
  - intros t' e' [[<- <-]|[N H']]%lookup_insert_Some; cbn; [done|]. rewrite (c_counted0 t' e' H').
    rewrite !holders_app, !holders_cons, Hother; [done|congruence].
  - rewrite map_size_insert_Some by eauto. done.
  - intros th [->|Hth]%elem_of_middle; [done|eauto].
  - intros th h [->|Hth]%elem_of_middle E; cbn in *; [|eauto].
    destruct (Hmine h E) as [->|E']; cbn; [by eapply c_made0|].
    eapply (c_past0 (mk_thread held p)); [apply elem_of_middle; by left|done].
  - intros Hsh th h Hth E.
    assert (∃ e0, gp_conns pl !! h.1 = Some e0 ∧ gc_connection e0 = h.2) as (e0 & He0 & Ei).
    { apply elem_of_middle in Hth as [->|Hth]; [|eauto]. cbn in E.
      destruct (Hmine h E) as [->|E']; cbn; [eauto|].
      eapply (c_held0 Hsh (mk_thread held p)); [apply elem_of_middle; by left|done]. }
    destruct (decide (h.1 = t)) as [E1|N].
    + rewrite E1 in He0. rewrite He0 in Ht. injection Ht as <-. eexists. rewrite E1, lookup_insert_eq. done.
    + exists e0. by rewrite lookup_insert_ne.
Qed.

Lemma consistent_acquire pl shut ts1 ts2 address k now order dialled r pl' :
  order ≡ₚ map_to_list (gp_conns pl) →
  acquireConn address now order dialled pl = (r, pl') →
  consistent (mk_world pl shut (ts1 ++ mk_thread None (Effect (AcquireConn address) k) :: ts2)) →
  consistent (mk_world pl' shut
    (ts1 ++ mk_thread (match r with Ok h => Some h | Err _ => None end) (k r) :: ts2)).
Proof.
  intros Ho Ha Hc.
  assert (Hb : (∀ h, bracketed (Some h) (k (Ok h))) ∧ ∀ err, bracketed None (k (Err err))).
  { destruct (c_bracketed _ Hc (mk_thread None (Effect (AcquireConn address) k))) as (_ & ? & ?); [|done].
    apply elem_of_middle. by left. }
  destruct Hb as [Hok Herr]. unfold acquireConn in Ha.
  destruct (executorGRPCTarget address) as [target|err];
    [|injection Ha as <- <-; by eapply consistent_continue].
  destruct (gp_conns pl !! target) as [e|] eqn:Et.
  { injection Ha as <- <-. eapply consistent_count; [exact Hc|exact Et| |..].
    - rewrite (c_counted _ Hc target e Et). cbn [w_threads]. rewrite !holders_app, !holders_cons.
      unfold holds. cbn [th_held]. rewrite bool_decide_false, bool_decide_true by done. lia.
    - intros h N. unfold holds. cbn. rewrite !bool_decide_false; congruence.
    - apply Hok. }
  destruct (if Nat.leb maxExecutorGRPCConnections (size (gp_conns pl)) then evictIdleLocked order pl
            else (true, pl)) as [room pl1] eqn:Er.
  assert (Hc1 : consistent (mk_world pl1 shut (ts1 ++ mk_thread None (Effect (AcquireConn address) k) :: ts2)) ∧
    (room = true → gp_conns pl1 !! target = None ∧ (size (gp_conns pl1) < maxExecutorGRPCConnections)%nat)).
  { destruct (Nat.leb_spec maxExecutorGRPCConnections (size (gp_conns pl))) as [Hfull|Hroom];
      [|by injection Er as <- <-].
    unfold evictIdleLocked in Er. pose proof (oldest_idle_spec order None) as Hi.
    destruct (oldest_idle order None) as [[t e]|]; [|by injection Er as <- <-].
    injection Er as <- <-. destruct Hi as [|[Hi Hu]]; [done|].
    rewrite Ho in Hi. apply elem_of_map_to_list in Hi. split; [by apply consistent_evict|].
    intros _. cbn. split; [by apply lookup_delete_None; right|].
    rewrite map_size_delete, Hi. pose proof (c_bounded _ Hc) as Hb. cbn in Hb.
    assert (size (gp_conns pl) ≠ 0%nat) by (intros E%map_size_empty_inv; rewrite E in Hi; done). cbn. lia. }
  destruct Hc1 as [Hc1 Hroom]. destruct room; cbn [negb] in Ha;
    [|injection Ha as <- <-; by eapply consistent_continue].
  destruct dialled; cbn [negb] in Ha; injection Ha as <- <-; [|by eapply consistent_continue].
  destruct Hroom as [Ht Hs]; [done|]. eapply consistent_insert; [exact Hc1|done|done|apply Hok].
Qed.

Lemma consistent_release pl shut ts1 ts2 held h k now :
  consistent (mk_world pl shut (ts1 ++ mk_thread held (Effect (Release h) k) :: ts2)) →
  consistent (mk_world (releaseFunc h now pl) shut (ts1 ++ mk_thread None (k tt) :: ts2)).
Proof.
  intros Hc.
  assert (held = Some h ∧ bracketed None (k tt)) as [-> Hk].
  { apply (c_bracketed _ Hc (mk_thread held (Effect (Release h) k))), elem_of_middle. by left. }
  assert (Hcount : ∀ i, holders (h.1, i) (ts1 ++ mk_thread (Some h) (Effect (Release h) k) :: ts2)
     = ((if bool_decide (i = h.2) then 1 else 0) + holders (h.1, i) (ts1 ++ mk_thread None (k tt) :: ts2))%nat).
  { intros i. rewrite !holders_app, !holders_cons. unfold holds. cbn [th_held].
    rewrite (bool_decide_ext (Some h = Some (h.1, i)) (i = h.2))
      by (destruct h; cbn; split; congruence).
    rewrite (bool_decide_false (None = Some (h.1, i))) by done. lia. }
  assert (Hdrop : (∀ e, gp_conns pl !! h.1 = Some e → gc_connection e ≠ h.2) →
    consistent (mk_world pl shut (ts1 ++ mk_thread None (k tt) :: ts2))).
  { intros Hn. destruct Hc. cbn in *.
    assert (Hold : ∀ th, th ∈ ts1 ++ ts2 → th ∈ ts1 ++ mk_thread (Some h) (Effect (Release h) k) :: ts2)
      by (intros; apply elem_of_middle; by right).
    split; cbn; eauto.
    - intros t e He. rewrite (c_counted0 t e He), !holders_app, !holders_cons. unfold holds. cbn [th_held].
      rewrite (bool_decide_false (None = _)) by done. rewrite bool_decide_false; [done|].
      intros [= E]. apply (Hn e); rewrite E; done.
    - intros th [->|Hth]%elem_of_middle; [done|eauto].
    - intros th h' [->|Hth]%elem_of_middle E; [done|eauto].
    - intros Hs th h' [->|Hth]%elem_of_middle E; [done|eauto]. }
  unfold releaseFunc. destruct (gp_conns pl !! h.1) as [e|] eqn:Eh; [|by apply Hdrop].
  pose proof (c_counted _ Hc h.1 e Eh) as Hu. cbn [w_threads] in Hu. rewrite Hcount in Hu.
  destruct (Nat.eqb_spec (gc_connection e) h.2) as [Ei|Ni]; cbn [negb orb];
    [|apply Hdrop; intros e' [= <-]; done].
  rewrite bool_decide_true in Hu by done. destruct (Nat.eqb_spec (gc_inUse e) 0); [lia|].
  eapply consistent_count; [exact Hc|exact Eh|rewrite Hu; cbn; done| |done].
  intros h' N. unfold holds. cbn [th_held]. rewrite (bool_decide_false (None = _)) by done.
  rewrite bool_decide_false; [done|].
  intros [= <-]. apply N. rewrite Ei. by destruct h.
Qed.

Lemma consistent_close pl shut ts : consistent (mk_world pl shut ts) → consistent (mk_world (close pl) true ts).
Proof.
  intros []. cbn in *. split; cbn; try done.
  - intros i [Hi|Hi]%elem_of_app; [eauto|]. apply list_elem_of_fmap in Hi as ([t e] & -> & Hi).
    apply elem_of_map_to_list in Hi. eauto.
  - rewrite map_size_empty. lia.
Qed.

Lemma consistent_start pl shut ts p :
  consistent (mk_world pl shut ts) → bracketed None (th_prog p) → th_held p = None →
  consistent (mk_world pl shut (ts ++ [p])).
Proof.
  intros [] Hp Hh. cbn in *. split; cbn; eauto.
  - intros t e He. rewrite (c_counted0 t e He), holders_app, holders_cons. unfold holds.
    rewrite Hh, bool_decide_false by done. change (holders (t, gc_connection e) []) with 0%nat. lia.
  - intros th [Hth| ->%list_elem_of_singleton]%elem_of_app; [eauto|by rewrite Hh].
  - intros th h [Hth| ->%list_elem_of_singleton]%elem_of_app E; [eauto|congruence].
  - intros Hs th h [Hth| ->%list_elem_of_singleton]%elem_of_app E; [eauto|congruence].
Qed.

Lemma consistent_return pl shut ts1 ts2 held :
  consistent (mk_world pl shut (ts1 ++ mk_thread held (Return tt) :: ts2)) →
  consistent (mk_world pl shut (ts1 ++ ts2)).
Proof.
  intros [].
  assert (held = None) as ->.
  { apply (c_bracketed0 (mk_thread held (Return tt))), elem_of_middle. by left. }
  cbn in *.
  assert (Hold : ∀ th, th ∈ ts1 ++ ts2 → th ∈ ts1 ++ mk_thread None (Return tt) :: ts2)
    by (intros; apply elem_of_middle; by right).
  split; cbn; eauto.
  intros t e He. rewrite (c_counted0 t e He), !holders_app, holders_cons. unfold holds.
  cbn [th_held]. by rewrite bool_decide_false.
Qed.

Lemma consistent_step w w' : step w w' → consistent w → consistent w'.
Proof.
  intros Hs Hc. destruct Hs as [| | |pl shut ts1 ts2 held address k now order dialled r pl' Ho Ha| | | |].
  - apply consistent_start; [done|apply probe_bracketed|done].
  - apply consistent_start; [done|apply dispatch_bracketed|done].
  - apply consistent_start; [done|apply cancel_bracketed|done].
  - assert (held = None) as ->.
    { apply (c_bracketed _ Hc (mk_thread held (Effect (AcquireConn address) k))), elem_of_middle. by left. }
    eapply consistent_acquire; [exact Ho|exact Ha|exact Hc].
  - eapply consistent_release. exact Hc.
  - assert (Hb : bracketed held (Effect eff k))
      by (apply (c_bracketed _ Hc (mk_thread held (Effect eff k))), elem_of_middle; by left).
    eapply consistent_continue; [exact Hc|]. destruct eff; try done; cbn in Hb; by destruct Hb as [_ Hb].
  - eapply consistent_return. exact Hc.
  - eapply consistent_close. exact Hc.
Qed.

Lemma reachable_consistent w : reachable w → consistent w.
Proof.
  intros Hr. unfold reachable in Hr. remember (mk_world newExecutorGRPCPool false []) as w0 eqn:E.
  assert (H0 : consistent w0).
  { subst. split; cbn; try done.
    all: try by intros ? ?%not_elem_of_nil.
    all: try by intros ? ? ?%not_elem_of_nil.
    all: try by intros _ ? ? ?%not_elem_of_nil.
    exact (Nat.le_0_l _). }
  clear E. induction Hr as [|w1 w2 w3 Hs _ IH]; [done|]. apply IH. by eapply consistent_step.
Qed.

Lemma holders_pos h ts : holders h ts ≠ 0%nat → ∃ th, th ∈ ts ∧ th_held th = Some h.
Proof.
  induction ts as [|x ts IH]; intros Hn; [done|]. rewrite holders_cons in Hn. unfold holds in Hn.
  destruct (decide (th_held x = Some h)) as [E|N]; [exists x; split; [left|done]|].
  rewrite bool_decide_false in Hn by done. destruct IH as (th & ? & ?); [done|]. exists th. split; [by right|done].
Qed.

(** C19: the pool of connections.  Whatever calls are in progress, it has at most
    256 connections; one that a call is using is not closed before the pool is shut
    down; the uses counted are the calls in progress, so that none leaks; and a call
    to a valid address is refused only when every one of 256 connections is in use. *)
Theorem connections_in_use_stay_open w :
  reachable w →
  (size (gp_conns (w_pool w)) ≤ maxExecutorGRPCConnections)%nat ∧
  (∀ th h, w_shut w = false → th ∈ w_threads w → th_held th = Some h → h.2 ∉ gp_closed (w_pool w)) ∧
  (∀ t e, gp_conns (w_pool w) !! t = Some e → gc_inUse e = holders (t, gc_connection e) (w_threads w)) ∧
  (∀ address target now order,
     executorGRPCTarget address = Ok target → order ≡ₚ map_to_list (gp_conns (w_pool w)) →
     (∃ h pl, acquireConn address now order true (w_pool w) = (Ok h, pl)) ∨
     (size (gp_conns (w_pool w)) = maxExecutorGRPCConnections ∧
      ∀ t e, gp_conns (w_pool w) !! t = Some e →
        ∃ th, th ∈ w_threads w ∧ th_held th = Some (t, gc_connection e))).
Proof.
  intros Hc%reachable_consistent. split_and!.
  - apply (c_bounded _ Hc).
  - intros th h Hs Hth E. destruct (c_held _ Hc Hs th h Hth E) as (e & He & <-). by eapply c_open.
  - apply (c_counted _ Hc).
  - intros address target now order Et Ho. unfold acquireConn. rewrite Et.
    destruct (gp_conns (w_pool w) !! target); [left; eauto|].
    destruct (Nat.leb_spec maxExecutorGRPCConnections (size (gp_conns (w_pool w)))) as [Hfull|]; [|left; cbn; eauto].
    unfold evictIdleLocked. pose proof (oldest_idle_spec order None) as Hi.
    destruct (oldest_idle order None) as [[t e]|]; [left; cbn; eauto|]. destruct Hi as [_ Hi]. right.
    split; [pose proof (c_bounded _ Hc); lia|]. intros t e He. apply holders_pos.
    rewrite <- (c_counted _ Hc t e He). apply (Hi t e). rewrite Ho. by apply elem_of_map_to_list.
Qed.
End world.

(** ** Example *)

#[local] Instance no_literals : IPLiterals := λ _, false.

Definition sample_call : thread := started (cancel "grpc://node-1:9000" (mk_cancel "r" "" "" "" "" None)).
Definition sample_used : executorGRPCPool :=
  mk_pool {["node-1:9000" := mk_connection 0 7 1]} 1 [].

Lemma sample_reachable :
  ∃ k, reachable (mk_world sample_used false [mk_thread (Some ("node-1:9000", 0%nat)) k]).
Proof.
  eexists. unfold reachable.
  eapply rtc_l; [apply (step_cancel _ _ [] "grpc://node-1:9000" (mk_cancel "r" "" "" "" "" None))|].
  eapply rtc_l; [|apply rtc_refl].
  eapply (step_acquire _ _ [] [] None "grpc://node-1:9000" _ 7 [] true (Ok ("node-1:9000", 0%nat))).
  - done.
  - vm_compute. done.
Qed.

Lemma connections_in_use_stay_open_witness :
  ∃ k, let w := mk_world sample_used false [mk_thread (Some ("node-1:9000", 0%nat)) k] in
    (size (gp_conns (w_pool w)) ≤ maxExecutorGRPCConnections)%nat.
Proof.
  destruct sample_reachable as [k Hk]. exists k. apply (connections_in_use_stay_open _ Hk).
Defined.
End PoolProofs.
