(* ===== verification/EngineLoops.v ===== *)
(** * The goroutines of the engine

    [internal/core/engine.go], [engine_dispatch.go], [engine_commands.go] and
    [engine_maintenance.go]: the loop that ticks and dispatches, the slots of its
    workers with the channel that wakes it, the pace of the loop for commands, the
    watcher of a worker ([engine_execution.go]), and the duties of the maintenance loop. *)
From Stdlib Require Import ZArith Lia Ascii String.
From stdpp Require Import base list strings relations.
From S2P Require Import Prelude GoStrings GoTime Calculator Tables Programs Executors RunStore JobStore Samples History Partitions Engine.

Module EngineLoops.
Import Programs History Partitions Engine.

(** ** Slots and the dispatcher *)

(** Where the goroutine of [loop] is: at its [select]; in a tick that has enqueued and
    expired, about to count the free slots; in [dispatch], about to count them; with
    a claim for so many runs on its way; with so many claimed runs to start. *)
Inductive position :=
| Selecting
| Ticked
| Dispatching
| Claiming (available : nat)
| Starting (runs : nat)
| Stopped.

(** The slots in use ([len(sem)]) and whether [dispatchWake] holds its element. *)
Record slots := mk_slots { sl_active : nat; sl_wake : bool; sl_position : position }.

(** A send on a channel of capacity one that does not block. *)
Definition WakeDispatch (s : slots) : slots := mk_slots (sl_active s) true (sl_position s).

Definition releaseWorker (capacity : nat) (s : slots) : slots :=
  let active := pred (sl_active s) in
  mk_slots active
    (sl_wake s || shouldWakeDispatcher (Z.of_nat active) (Z.of_nat capacity)) (sl_position s).

Definition at_position (p : position) (s : slots) : slots := mk_slots (sl_active s) (sl_wake s) p.

(** [tick] after its transactions, and [dispatch], up to the claim. *)
Definition count_slots (capacity : nat) (s : slots) : slots :=
  let available := availableWorkerSlots capacity (sl_active s) in
  match sl_position s with
  | Ticked => at_position (if Nat.eqb available 0 then Selecting else Dispatching) s
  | Dispatching => at_position (if Nat.eqb available 0 then Selecting else Claiming available) s
  | _ => s
  end.

(** [sem <- struct{}{}] and the goroutine of one claimed run. *)
Definition start_run (s : slots) : slots :=
  match sl_position s with
  | Starting (S runs) => mk_slots (S (sl_active s)) (sl_wake s) (Starting runs)
  | _ => s
  end.

(** The steps of [loop] and of everything that uses its channels.  A select takes
    any branch that is ready; transactions may fail; the context may end at a
    select or while runs are started. *)
Inductive lstep (capacity : nat) : slots → slots → Prop :=
| ls_tick s : sl_position s = Selecting → lstep capacity s (at_position Ticked s)
| ls_tick_failed s : sl_position s = Ticked → lstep capacity s (at_position Selecting s)
| ls_woken s : sl_position s = Selecting → sl_wake s = true →
    lstep capacity s (mk_slots (sl_active s) false Dispatching)
| ls_count s : sl_position s = Ticked ∨ sl_position s = Dispatching → lstep capacity s (count_slots capacity s)
| ls_claimed s available runs : sl_position s = Claiming available → (runs ≤ available)%nat →
    lstep capacity s (at_position (Starting runs) s)
| ls_claim_failed s available : sl_position s = Claiming available → lstep capacity s (at_position Selecting s)
| ls_start s runs : sl_position s = Starting (S runs) → (sl_active s < capacity)%nat → lstep capacity s (start_run s)
| ls_started s : sl_position s = Starting 0 → lstep capacity s (at_position Selecting s)
| ls_cancelled s runs : sl_position s = Starting (S runs) → lstep capacity s (at_position Selecting s)
| ls_stopped s : sl_position s = Selecting → lstep capacity s (at_position Stopped s)
| ls_release s : (0 < sl_active s)%nat → lstep capacity s (releaseWorker capacity s)
| ls_wake s : lstep capacity s (WakeDispatch s).

(** [loop] ticks before its first select. *)
Definition loop_start : slots := mk_slots 0 false Ticked.

(** ** Commands *)

Definition executorCommandMaxPoll : duration := second.
Definition command_poll (en : Engine) : duration :=
  let poll := Z.min (en_interval en) executorCommandMaxPoll in
  if poll <=? 0 then executorCommandMaxPoll else poll.
(** The delay after a batch: none when there may be more. *)
Definition next_command_delay (en : Engine) (claimed : nat) : duration :=
  if Nat.eqb claimed executorCommandBatchSize then 0 else command_poll en.

(** ** The watcher of a worker *)

Definition cancelWatchInterval : duration := 2 * second.
(** The next tick of the watcher; [false] when the context of the worker ends. *)
Inductive watching : Type → Type := CancelTick (interval : duration) : watching bool.
(** [watchCancellation], for [fuel] ticks at most: whether it cancels the context. *)
Fixpoint watchCancellation (fuel : nat) (runID : string) : prog watching bool :=
  match fuel with
  | O => mret false
  | S fuel =>
      ticked ← effect (CancelTick cancelWatchInterval);
      if negb ticked then mret false
      else
        running ← store (query (λ _ s, Ok (RunStore.IsRunRunning runID s)));
        match running with
        | Err _ => watchCancellation fuel runID
        | Ok running => if negb running then mret true else watchCancellation fuel runID
        end
  end.

(** ** Maintenance *)

Definition auxiliaryHistoryCleanupInterval : duration := 10 * second.

Record duty_times := mk_times { lastPartitionRun : time; lastCleanup : time; lastRunCleanup : time }.
(** The fields of a new engine are the zero time. *)
Definition never_run : duty_times := mk_times 0 0 0.

(** What maintenance asks for: whether the context ended, the clock, the three
    operations of the repository, and the next tick, refused when the context ends. *)
Inductive duty : Type → Type :=
| DutyCtxErr : duty bool
| DutyNow : duty time
| PartitionDuty (now : time) (retention : duration) : duty (result (string * Z))
| AuxiliaryDuty (retention : duration) : duty (result unit)
| RunsDuty (retention : duration) : duty (result unit)
| DutyTick (interval : duration) : duty bool.
Notation maintenance := (prog duty).

(** One duty: it is due an [interval] after it last succeeded. *)
Definition when_due {A} (last : time) (interval : duration) (work : maintenance (result A)) : maintenance time :=
  now ← effect DutyNow;
  if interval <=? Sub now last then
    done ← work;
    match done with
    | Ok _ => effect DutyNow
    | Err _ => mret last
    end
  else mret last.

Definition maintain (retention : duration) (c : duty_times) : maintenance duty_times :=
  gone ← effect DutyCtxErr;
  if (gone : bool) then mret c
  else
    p ← when_due (lastPartitionRun c) hour
          (now ← effect DutyNow; effect (PartitionDuty now retention));
    a ← when_due (lastCleanup c) auxiliaryHistoryCleanupInterval (effect (AuxiliaryDuty retention));
    r ← when_due (lastRunCleanup c) hour (effect (RunsDuty retention));
    mret (mk_times p a r).

(** [fuel] ticks at most. *)
Fixpoint maintain_ticks (fuel : nat) (retention : duration) (c : duty_times) : maintenance duty_times :=
  match fuel with
  | O => mret c
  | S fuel =>
      more ← effect (DutyTick auxiliaryHistoryCleanupInterval);
      if (more : bool) then c ← maintain retention c; maintain_ticks fuel retention c else mret c
  end.
Definition maintenanceLoop (fuel : nat) (retention : duration) : maintenance duty_times :=
  c ← maintain retention never_run; maintain_ticks fuel retention c.
End EngineLoops.

(** * The goroutines of the engine: theorems

    The dispatcher is woken when workers become free, and maintenance removes no run
    that is not finished or was due within the retention. *)

Module LoopProofs.
Import Programs RunStore JobStore History Partitions PartitionProofs Engine EngineLoops Samples.

(** ** The dispatcher *)

(** The slots, and whether the last dispatch was limited by them: it found none
    free, or as many runs as there were free ones. *)
Record traced := mk_traced { tr_slots : slots; tr_full : bool }.

(** What a step tells about that. *)
Definition full_after (capacity : nat) (s s' : slots) (full : bool) : bool :=
  match sl_position s, sl_position s' with
  | Ticked, Selecting | Dispatching, Selecting =>
      if Nat.eqb (availableWorkerSlots capacity (sl_active s)) 0 then true else full
  | Claiming available, Starting runs => Nat.eqb runs available
  | Claiming _, Selecting => false
  | Starting (S _), Selecting => false
  | _, _ => full
  end.

Inductive tstep (capacity : nat) : traced → traced → Prop :=
| ts s s' full : lstep capacity s s' → tstep capacity (mk_traced s full) (mk_traced s' (full_after capacity s s' full)).
Definition treachable (capacity : nat) (t : traced) : Prop :=
  rtc (tstep capacity) (mk_traced loop_start false) t.

Definition threshold (capacity : nat) : Z := Z.max (Z.of_nat capacity / 4) 1.

Lemma should_wake capacity active :
  (0 < capacity)%nat → (active ≤ capacity)%nat →
  shouldWakeDispatcher (Z.of_nat active) (Z.of_nat capacity) = true ↔
  threshold capacity ≤ Z.of_nat capacity - Z.of_nat active.
Proof.
  intros Hc Ha. unfold shouldWakeDispatcher, threshold. destruct (Z.eqb_spec (Z.of_nat active) 0) as [E|E].
  - split; [|done]. intros _. pose proof (Z.div_le_upper_bound (Z.of_nat capacity) 4 (Z.of_nat capacity)). lia.
  - apply Z.leb_le.
Qed.

(** The workers freed since the dispatcher last counted them, or all that are free,
    do not reach the threshold without waking it. *)
Definition freed (capacity : nat) (s : slots) : Z :=
  Z.of_nat capacity - Z.of_nat (sl_active s) -
  match sl_position s with Claiming n | Starting n => Z.of_nat n | _ => 0 end.
Definition woken (capacity : nat) (t : traced) : Prop :=
  (sl_active (tr_slots t) ≤ capacity)%nat ∧
  match sl_position (tr_slots t) with
  | Dispatching => True
  | Claiming _ => 0 ≤ freed capacity (tr_slots t) ∧
      (threshold capacity ≤ freed capacity (tr_slots t) → sl_wake (tr_slots t) = true)
  | _ => tr_full t = true → threshold capacity ≤ freed capacity (tr_slots t) → sl_wake (tr_slots t) = true
  end.

Lemma woken_step capacity t t' : (0 < capacity)%nat → woken capacity t → tstep capacity t t' → woken capacity t'.
Proof.
  intros Hc [Ha Hw] Hs. destruct Hs as [s s' full Hs]. cbn [tr_slots tr_full] in *.
  destruct s as [active wake position]. unfold woken, freed in *. cbn [sl_active sl_position sl_wake tr_slots tr_full] in *.
  assert (Ht : 1 ≤ threshold capacity) by (unfold threshold; lia).
  inversion Hs; subst; cbn [sl_active sl_position sl_wake at_position] in *; subst; unfold full_after;
    cbn [sl_active sl_position sl_wake at_position count_slots start_run WakeDispatch releaseWorker] in *.
  - by split.
  - split; [done|]. unfold availableWorkerSlots. destruct (Nat.eqb_spec (capacity - active) 0); [lia|exact Hw].
  - by split.
  - unfold count_slots, full_after, availableWorkerSlots in *.
    destruct H as [->| ->]; cbn; destruct (Nat.eqb_spec (capacity - active) 0); cbn; (split; [done|]); try done; [lia..|].
    split; lia.
  - split; [done|]. intros ->%Nat.eqb_eq. apply Hw.
  - by split.
  - split; [lia|]. intros Hf Hle. apply Hw; [done|]. lia.
  - by split.
  - by split.
  - by split.
  - assert (Hs' : threshold capacity ≤ Z.of_nat capacity - Z.of_nat (pred active) →
      wake || shouldWakeDispatcher (Z.of_nat (pred active)) (Z.of_nat capacity) = true).
    { intros Hle. apply orb_true_iff. right. apply should_wake; lia. }
    split; [lia|]. destruct position; cbn in *; try (intros _ ?; apply Hs'; lia); [done|].
    split; [lia|]. intros ?. apply Hs'. lia.
  - split; [done|]. destruct position; cbn in *; try done. by split; [apply Hw|].
Qed.

(** C18: free workers are not forgotten.  When the last dispatch was limited by the
    number of free workers and a quarter of the workers is free again, the loop is
    about to dispatch: its wake-up is pending whenever it waits.  Wake-ups by
    workers that end while a dispatch is under way are not lost. *)
Theorem freed_workers_wake_dispatcher capacity t :
  (0 < capacity)%nat → treachable capacity t →
  sl_position (tr_slots t) = Selecting → tr_full t = true →
  shouldWakeDispatcher (Z.of_nat (sl_active (tr_slots t))) (Z.of_nat capacity) = true →
  sl_wake (tr_slots t) = true.
Proof.
  intros Hc Hr Hp Hf Hs. assert (Hw : woken capacity t).
  { unfold treachable in Hr. assert (H0 : woken capacity (mk_traced loop_start false)) by (split; [cbn; lia|done]).
    revert H0. generalize dependent (mk_traced loop_start false). clear Hp Hf Hs. intros t0 Hr.
    induction Hr as [|t1 t2 t3 Hst _ IH]; [done|]. intros H1. by apply IH, (woken_step capacity t1). }
  destruct Hw as [Ha Hw]. unfold freed in Hw. rewrite Hp in Hw. apply Hw; [done|].
  apply should_wake in Hs; [lia..].
Qed.

(** Two workers take the only two runs, and one of them ends. *)
Definition woken_slots : slots := mk_slots 1 true Selecting.
Lemma freed_workers_wake_dispatcher_witness : sl_wake woken_slots = true.
Proof.
  apply (freed_workers_wake_dispatcher 2 (mk_traced woken_slots true)); [lia| |done|done|done].
  unfold treachable, loop_start, woken_slots.
  eapply rtc_l; [apply (ts 2 (mk_slots 0 false Ticked) (mk_slots 0 false Dispatching) false); by apply (ls_count 2 (mk_slots 0 false Ticked)); left|].
  eapply rtc_l; [apply (ts 2 (mk_slots 0 false Dispatching) (mk_slots 0 false (Claiming 2)) false); by apply (ls_count 2 (mk_slots 0 false Dispatching)); right|].
  eapply rtc_l; [apply (ts 2 (mk_slots 0 false (Claiming 2)) (mk_slots 0 false (Starting 2)) false); by apply (ls_claimed 2 (mk_slots 0 false (Claiming 2)) 2 2)|].
  eapply rtc_l; [apply (ts 2 (mk_slots 0 false (Starting 2)) (mk_slots 1 false (Starting 1)) true); apply (ls_start 2 (mk_slots 0 false (Starting 2)) 1); [done|cbn; lia]|].
  eapply rtc_l; [apply (ts 2 (mk_slots 1 false (Starting 1)) (mk_slots 2 false (Starting 0)) true); apply (ls_start 2 (mk_slots 1 false (Starting 1)) 0); [done|cbn; lia]|].
  eapply rtc_l; [apply (ts 2 (mk_slots 2 false (Starting 0)) (mk_slots 2 false Selecting) true); by apply (ls_started 2 (mk_slots 2 false (Starting 0)))|].
  eapply rtc_l; [apply (ts 2 (mk_slots 2 false Selecting) (mk_slots 1 true Selecting) true); apply (ls_release 2 (mk_slots 2 false Selecting)); cbn; lia|].
  apply rtc_refl.
Defined.

(** ** Maintenance *)

(** The runs after maintenance: of those before, only finished ones that were due
    before the cutoff are missing. *)
Definition kept (cutoff : time) (l l' : list run_row) : Prop :=
  sublist l' l ∧
  ∀ r, r ∈ l → r ∈ l' ∨ (terminal (r_status r) = true ∧ i_scheduled_at (r_info r) < cutoff).

Lemma kept_refl cutoff l : kept cutoff l l.
Proof. split; [done|]. by left. Qed.
Lemma kept_trans cutoff l1 l2 l3 : kept cutoff l1 l2 → kept cutoff l2 l3 → kept cutoff l1 l3.
Proof.
  intros [S1 R1] [S2 R2]. split; [by etrans|]. intros r Hr. destruct (R1 r Hr) as [H|]; [by apply R2|by right].
Qed.
Lemma kept_cutoff cutoff cutoff' l l' : cutoff ≤ cutoff' → kept cutoff l l' → kept cutoff' l l'.
Proof.
  intros Hc [S R]. split; [done|]. intros r Hr. destruct (R r Hr) as [|[? ?]]; [by left|]. right. split; [done|lia].
Qed.

Lemma commit_purge_kept tenantID before limit e s :
  NoDup (map r_id (job_runs s)) →
  kept before (job_runs s) (job_runs (commit (PurgeRunHistory tenantID "" before limit) e s).2).
Proof.
  intros Hn. unfold commit, PurgeRunHistory, mbind, tx_bind. cbn.
  destruct (purge_ids _ _ _ _ _ _) as [|i rest] eqn:Ei; [apply kept_refl|].
  cbn. split; [apply sql_delete_sublist|]. intros r Hr.
  destruct ((r_tenant_id r ==s tenantID) && one_of (r_id r) (i :: rest)) eqn:Ed; [|left; by apply elem_of_sql_delete].
  right. apply andb_true_iff in Ed as [_ Ed%one_of_true]. rewrite <- Ei in Ed.
  apply elem_of_purge_ids in Ed as (r0 & Hr0 & Eid & Hp).
  assert (r0 = r) as -> by (eapply (NoDup_key_inj r_id); done).
  unfold purgeable in Hp. bool_to_prop. done.
Qed.

Lemma kept_NoDup cutoff l l' : kept cutoff l l' → NoDup (map r_id l) → NoDup (map r_id l').
Proof. intros [S _] Hn. eapply sublist_NoDup; [exact Hn|]. clear Hn. induction S; cbn; by constructor. Qed.

Lemma purge_tenants_kept tenantIDs before e s :
  NoDup (map r_id (job_runs s)) → kept before (job_runs s) (job_runs (purge_tenants tenantIDs before e s).2).
Proof.
  revert s. induction tenantIDs as [|id rest IH]; intros s Hn; cbn [purge_tenants]; [apply kept_refl|].
  pose proof (commit_purge_kept id before (Z.to_nat 10000) e s Hn) as Hk.
  destruct (commit _ e s) as [[n|err] s']; cbn [snd] in *; [|done].
  eapply kept_trans; [exact Hk|]. apply IH. by eapply kept_NoDup.
Qed.

#[local] Opaque month_begin month_name.

(** A success keeps the catalogue one of calendar months, and no run is touched. *)
Lemma created_month k st st' :
  catalogued (ps_children st) → four_digit_month k → create_partition (month k) st = Ok st' →
  catalogued (ps_children st') ∧ ps_db st' = ps_db st.
Proof.
  intros Hc Hk E. unfold create_partition in E. destruct (existsb _ (ps_children st)) eqn:En; [by simplify_eq|].
  destruct (_ || _) eqn:Eo; [done|]. simplify_eq. cbn [ps_children ps_db]. split; [|done].
  destruct Hc as [Hn Hl]. split.
  - rewrite map_app. apply list_relations.list.NoDup_app. split; [done|]. split; [|apply NoDup_singleton].
    intros n Hin ->%list_elem_of_singleton. apply not_true_iff_false in En. destruct En.
    apply list_elem_of_In, in_map_iff in Hin as (c & E & Hin). apply existsb_exists. exists c. split; [done|].
    by apply String.eqb_eq.
  - apply Forall_app. split; [done|]. apply Forall_cons_2; [|apply Forall_nil_2]. eauto.
Qed.

Lemma created_months ks : ∀ st st',
  catalogued (ps_children st) → Forall four_digit_month ks → create_partitions (map month ks) st = Ok st' →
  catalogued (ps_children st') ∧ ps_db st' = ps_db st.
Proof.
  induction ks as [|k ks IH]; intros st st' Hc Hk E; cbn [map create_partitions] in E; [by simplify_eq|].
  apply Forall_cons in Hk as [Hk Hks]. destruct (create_partition (month k) st) as [st1|err] eqn:E1; [|done].
  cbn [mbind result_bind] in E. destruct (created_month k st st1) as [Hc1 Ed1]; [done..|].
  destruct (IH st1 st') as [Hc2 Ed2]; [done..|]. split; [done|congruence].
Qed.

Lemma month_of_mono t u : t ≤ u → month_of UTC t ≤ month_of UTC u.
Proof.
  intros Hle. pose proof (month_of_range t). pose proof (month_of_range u).
  assert (month_begin (month_of UTC t) < month_begin (month_of UTC u + 1)) as L%month_begin_lt_inv by lia. lia.
Qed.

(** ** The duties on the store *)

Section duties.
Context `{Host} (pm : partman) (retention : duration) (earliest latest : time).

(** The answers between two instants: the clock tells an instant between them; a
    duty is done on the tables, or fails before anything is changed. *)
Definition performs (B : Type) (d : duty B) (st : pstate) : B → pstate → Prop :=
  match d in duty B return B → pstate → Prop with
  | DutyCtxErr | DutyTick _ => λ _ st', st' = st
  | DutyNow => λ t st', st' = st ∧ earliest ≤ t ≤ latest
  | PartitionDuty now retention => λ r st',
      (r, st') = MaintainRunPartitions pm now retention st ∨ (∃ err, r = Err err ∧ st' = st)
  | AuxiliaryDuty retention => λ _ st',
      st' = st ∨ ∃ e, st' = mk_pstate (ps_children st) (commit (CleanupAuxiliaryHistory retention) e (ps_db st)).2
  | RunsDuty retention => λ _ st',
      st' = st ∨ ∃ e, st' = mk_pstate (ps_children st) (CleanupRunHistory retention e (ps_db st)).2
  end.
Fixpoint conducted {A} (p : maintenance A) (st : pstate) (Q : A → pstate → Prop) : Prop :=
  match p with
  | Return a => Q a st
  | Store _ _ => False
  | Effect d k => ∀ b st', performs _ d st b st' → conducted (k b) st' Q
  end.

Lemma conducted_bind {A B} (p : maintenance A) (f : A → maintenance B) st Q :
  conducted p st (λ a st', conducted (f a) st' Q) → conducted (p ≫= f) st Q.
Proof.
  change (p ≫= f) with (prog_bind f p). revert st.
  induction p as [a|C m k IH|C d k IH]; intros st Hp; cbn in *; [done|done|]. intros b st' Hb. apply IH, Hp, Hb.
Qed.
Lemma conducted_mono {A} (p : maintenance A) st (Q Q' : A → pstate → Prop) :
  (∀ a st', Q a st' → Q' a st') → conducted p st Q → conducted p st Q'.
Proof.
  intros HQ. revert st. induction p as [a|C m k IH|C d k IH]; intros st Hp; cbn in *; [by apply HQ|done|].
  intros b st' Hb. by apply IH, Hp.
Qed.

Context (Hpm : pm_configured pm = false) (Hret : 0 ≤ retention) (Hwall : ∀ n, wall_clock n ≤ latest).
Context (Hfirst : four_digit_month (month_of UTC (Add earliest (- retention)))).
Context (Hlast : four_digit_month (month_of UTC latest + 3)).

(** The catalogue is one of months, and only what may be dropped was. *)
Definition maintained (l : list run_row) (st : pstate) : Prop :=
  catalogued (ps_children st) ∧ NoDup (map r_id l) ∧ kept (Add latest (- retention)) l (job_runs (ps_db st)).

Lemma partitions_maintained l now st r st' :
  maintained l st → earliest ≤ now ≤ latest → (r, st') = MaintainRunPartitions pm now retention st → maintained l st'.
Proof.
  intros (Hc & Hn & Hk) Ht E. unfold MaintainRunPartitions in E. rewrite Hpm in E.
  destruct (negb (pm_locked pm)); [injection E as -> ->; by split_and!|].
  destruct (create_partitions _ st) as [st1|err] eqn:E1; [|injection E as -> ->; by split_and!].
  rewrite required_months in E1.
  set (cutoff := Add now (- retention)) in *.
  assert (Hcut : Add earliest (- retention) ≤ cutoff ≤ now) by (unfold cutoff, Add; lia).
  apply created_months in E1 as [Hc1 Ed1]; [|done|].
  - pose proof (drop_expired_spec cutoff (ps_children st1) (ps_children st1) 0 st1 Hc1 ltac:(done)) as Hd.
    destruct (drop_expired _ _ _ _) as [n st2]. injection E as -> ->. destruct Hd as ((runs & E2 & S & R) & Sub & _).
    split; [by eapply sublist_catalogued|]. split; [done|]. eapply kept_trans; [exact Hk|].
    apply (kept_cutoff cutoff); [unfold cutoff, Add; lia|]. rewrite E2, Ed1 in *. by split.
  - apply Forall_forall. intros k Hin. apply elem_of_seqZ in Hin.
    pose proof (month_of_mono (Add earliest (- retention)) cutoff). pose proof (month_of_mono now latest).
    unfold four_digit_month in *. lia.
Qed.

Lemma performed B (d : duty B) l st b st' :
  maintained l st → performs B d st b st' →
  match d with
  | PartitionDuty now r => r = retention ∧ earliest ≤ now ≤ latest
  | AuxiliaryDuty r | RunsDuty r => r = retention
  | _ => True
  end → maintained l st'.
Proof.
  intros Hm Hp Hd. destruct d; cbn in Hp.
  - by subst.
  - by destruct Hp as [-> _].
  - destruct Hd as [-> Ht]. destruct Hp as [Hp|(err & _ & ->)]; [by eapply partitions_maintained|done].
  - subst. destruct Hp as [->|[e ->]]; [done|]. destruct Hm as (Hc & Hn & Hk). by split_and!.
  - subst. destruct Hp as [->|[e ->]]; [done|]. destruct Hm as (Hc & Hn & Hk). split; [done|]. split; [done|].
    cbn [ps_db]. unfold CleanupRunHistory. eapply kept_trans; [exact Hk|].
    eapply kept_cutoff; [|apply (purge_tenants_kept _ _ _ (set_clock_reads _ (ps_db st)))].
    + unfold Add. pose proof (Hwall (clock_reads (ps_db st))). lia.
    + cbn. by eapply kept_NoDup.
  - by subst.
Qed.

Lemma due_maintained {A} last interval (work : maintenance (result A)) l st :
  maintained l st → (∀ st, maintained l st → conducted work st (λ _ st', maintained l st')) →
  conducted (when_due last interval work) st (λ _ st', maintained l st').
Proof.
  intros Hm Hw. unfold when_due. apply conducted_bind. intros t st1 Hp. cbn [conducted].
  assert (Hm1 : maintained l st1) by by eapply (performed _ DutyNow).
  destruct (interval <=? _); [|done]. apply conducted_bind. eapply conducted_mono; [|by apply Hw].
  intros [a|err] st2 Hm2; [|done]. intros t' st3 Hp3. by eapply (performed _ DutyNow).
Qed.

Lemma maintain_maintained c l st :
  maintained l st → conducted (maintain retention c) st (λ _ st', maintained l st').
Proof.
  intros Hm. unfold maintain. apply conducted_bind. intros gone st1 Hp. cbn [conducted].
  assert (Hm1 : maintained l st1) by by eapply (performed _ DutyCtxErr). destruct gone; [done|].
  apply conducted_bind. eapply conducted_mono; [|apply (due_maintained _ _ _ l); [done|]].
  2:{ intros st2 Hm2. apply conducted_bind. intros t st3 Hp3. cbn [conducted]. intros r st4 Hp4.
      assert (Hm3 : maintained l st3) by by eapply (performed _ DutyNow). eapply performed; [done|exact Hp4|].
      split; [done|]. apply Hp3. }
  intros p st2 Hm2. apply conducted_bind. eapply conducted_mono; [|apply (due_maintained _ _ _ l); [done|]].
  2:{ intros st3 Hm3 r st4 Hp4. by eapply performed. }
  intros a st3 Hm3. apply conducted_bind. eapply conducted_mono; [|apply (due_maintained _ _ _ l); [done|]].
  2:{ intros st4 Hm4 r st5 Hp5. by eapply performed. }
  intros r st4 Hm4. exact Hm4.
Qed.

Lemma ticks_maintained fuel l : ∀ c st,
  maintained l st → conducted (maintain_ticks fuel retention c) st (λ _ st', maintained l st').
Proof.
  induction fuel as [|fuel IH]; intros c st Hm; [done|]. cbn [maintain_ticks]. apply conducted_bind.
  intros more st1 Hp. cbn [conducted]. assert (Hm1 : maintained l st1) by by eapply (performed _ (DutyTick _)).
  destruct more; [|done]. apply conducted_bind. eapply conducted_mono; [|by apply maintain_maintained].
  intros c' st2 Hm2. by apply IH.
Qed.
End duties.

(** C25: where [pg_partman] is not configured, so that the engine manages the
    partitions itself, the maintenance loop keeps recent runs.  However long it runs
    between two instants, in years of four digits, whichever of its duties fail, and
    whatever the retention, it removes no run that is not finished and none that was
    due within the retention before the later instant; and it keeps a catalogue of
    calendar months. *)
Theorem maintenance_keeps_recent_runs `{Host} pm retention earliest latest fuel st :
  pm_configured pm = false → 0 ≤ retention → (∀ n, wall_clock n ≤ latest) →
  four_digit_month (month_of UTC (Add earliest (- retention))) → four_digit_month (month_of UTC latest + 3) →
  catalogued (ps_children st) → NoDup (map r_id (job_runs (ps_db st))) →
  conducted pm earliest latest (maintenanceLoop fuel retention) st (λ _ st',
    catalogued (ps_children st') ∧
    kept (Add latest (- retention)) (job_runs (ps_db st)) (job_runs (ps_db st'))).
Proof.
  intros Hpm Hret Hwall Hf Hl Hc Hn. unfold maintenanceLoop. apply conducted_bind.
  assert (Hm : maintained retention latest (job_runs (ps_db st)) st) by (split_and!; [done..|apply kept_refl]).
  eapply conducted_mono; [|by apply (maintain_maintained pm retention earliest latest Hpm Hret Hwall Hf Hl never_run (job_runs (ps_db st)))].
  intros c st1 Hm1. eapply conducted_mono;
    [|by apply (ticks_maintained pm retention earliest latest Hpm Hret Hwall Hf Hl fuel (job_runs (ps_db st)))].
  by intros c' st2 (? & _ & ?).
Qed.

Definition still_host : Host := {| uuid := λ _, "uuid"; wall_clock := λ _, start |}.
Lemma maintenance_keeps_recent_runs_witness :
  conducted (H := still_host) sample_partman start start (maintenanceLoop 3 (90 * 24 * hour))
    (mk_pstate sample_children sample_runs) (λ _ st', catalogued (ps_children st') ∧
      run_at "stuck" (start - 350 * 24 * hour) Running ∈ job_runs (ps_db st') ∧
      run_at "fresh" start Succeeded ∈ job_runs (ps_db st')).
Proof.
  eapply conducted_mono; [|apply (@maintenance_keeps_recent_runs still_host sample_partman (90 * 24 * hour) start start 3)].
  - intros c st' [Hc [_ Hk]]. split; [exact Hc|]. split.
    + destruct (Hk (run_at "stuck" (start - 350 * 24 * hour) Running)) as [Hr|[Hr _]];
        [right; left|exact Hr|discriminate Hr].
    + destruct (Hk (run_at "fresh" start Succeeded)) as [Hr|[_ Hr]];
        [do 2 right; left|exact Hr|exfalso; by vm_compute in Hr].
  - done.
  - vm_compute. done.
  - intros n. apply Z.le_refl.
  - rewrite (proj1 sample_months). unfold four_digit_month. lia.
  - rewrite (proj2 sample_months). unfold four_digit_month. lia.
  - exact sample_catalogued.
  - apply (bool_decide_unpack _). vm_compute. exact I.
Defined.
End LoopProofs.
