(* ===== verification/Config.v ===== *)
(** * Configuration

    [internal/config/config.go]: the environment of the processes, and what is
    checked of it before they start. *)
From Stdlib Require Import ZArith Lia Ascii String.
From stdpp Require Import base list strings.
From S2P Require Import Prelude GoStrings GoUrl Utf8 GoNet CompletionStore.

(** [time.ParseDuration] *)
Class Durations := { ParseDuration : string → result duration }.

Module Config.
Import GoUrl Utf8 GoPath.
Import CompletionStore (HasSuffix).

Record Config := mk_config {
  ServiceName : string; InstanceID : string; HTTPAddress : string; APIContextPath : string;
  CoreHTTPAddress : string; GRPCAddress : string; AdvertiseGRPC : string; AdvertiseHTTP : string;
  PublicBaseURL : string; DatabaseURL : string; DiscoveryMode : string; CoreGRPCTarget : string;
  EtcdEndpoints : list string; EtcdPrefix : string; EtcdUsername : string; EtcdPassword : string;
  EtcdCA : string; EtcdCert : string; EtcdKey : string; ServiceToken : string; PreviousToken : string;
  MasterKey : string; MasterKeyVersion : Z; JWTSecret : string; CookieSecure : bool;
  SMTPAddress : string; SMTPUsername : string; SMTPPassword : string; SMTPFrom : string;
  SMTPTLSMode : string; GRPCTLSCert : string; GRPCTLSKey : string; GRPCTLSCA : string;
  GRPCTLSServerName : string; ExecutorGRPCTLSCA : string; ExecutorGRPCTLSServerName : string;
  SchedulerInterval : duration; Workers : Z; APIDatabaseMaxConns : Z; APIDatabaseMinConns : Z;
  CoreDatabaseMaxConns : Z; CoreDatabaseMinConns : Z; HistoryRetention : duration;
}.

(** [strconv.ParseBool] and [strconv.ParseInt(s, 10, 32)] *)
Definition ParseBool (s : string) : option bool :=
  if bool_decide (s ∈ ["1"; "t"; "T"; "TRUE"; "true"; "True"]) then Some true
  else if bool_decide (s ∈ ["0"; "f"; "F"; "FALSE"; "false"; "False"]) then Some false
  else None.
Definition ParseInt32 (s : string) : option Z :=
  match ParseInt s with
  | Some v => if (-2147483648 <=? v) && (v <=? 2147483647) then Some v else None
  | None => None
  end.

(** ** Context paths *)

Definition normalizeContextPath (value : string) : result string :=
  let value := TrimSpace value in
  if (value ==s "") || (value ==s "/") then Ok ""
  else if ContainsAny value "?#\"
  then Err (ErrMsg "API_CONTEXT_PATH must be a URL path without query, fragment, or backslash")
  else
    let value := if HasPrefix value "/" then value else "/" +:+ value in
    let value := TrimRightSlash value in
    let cleaned := Clean value in
    if (cleaned !=s value) || Contains value "//" then Err (ErrMsg "API_CONTEXT_PATH must be a clean URL path")
    else Ok cleaned.

Definition appendContextPath (baseURL contextPath : string) : string :=
  let baseURL := TrimRightSlash baseURL in
  if (contextPath ==s "") || HasSuffix baseURL contextPath then baseURL
  else baseURL +:+ contextPath.

(** ** The environment *)

Definition validatePoolSize (name : string) (minConns maxConns : Z) : result unit :=
  if (maxConns <? 1) || (10000 <? maxConns) || (minConns <? 0) || (maxConns <? minConns)
  then Err (ErrMsg (name +:+ " database pool requires 1 <= max <= 10000 and 0 <= min <= max"))
  else Ok tt.

Section environment.
Context `{Durations} (Getenv : string → string) (hostname : string).

Definition env (key fallback : string) : string :=
  if Getenv key !=s "" then Getenv key else fallback.
Definition boolean (key : string) (fallback : bool) : bool :=
  default fallback (ParseBool (Getenv key)).
Definition duration_env (key : string) (fallback : duration) : duration :=
  match ParseDuration (Getenv key) with Ok v => v | Err _ => fallback end.
Definition integer (key : string) (fallback : Z) : Z := default fallback (Atoi (Getenv key)).
Definition integer32 (key : string) (fallback : Z) : Z := default fallback (ParseInt32 (Getenv key)).

(** The first key with a value that the check refuses. *)
Fixpoint check_keys (check : string → bool) (what : string) (keys : list string) : result unit :=
  match keys with
  | [] => Ok tt
  | key :: rest =>
      if (Getenv key ==s "") || check (Getenv key) then check_keys check what rest
      else Err (ErrMsg (key +:+ " must be " +:+ what))
  end.

Definition validateTypedEnvironment : result unit :=
  _ ← check_keys (λ v, bool_decide (is_Some (ParseInt32 v))) "an integer"
        ["MASTER_KEY_VERSION"; "WORKERS"; "API_DATABASE_MAX_CONNS"; "API_DATABASE_MIN_CONNS";
         "CORE_DATABASE_MAX_CONNS"; "CORE_DATABASE_MIN_CONNS"];
  _ ← check_keys (λ v, match ParseDuration v with Ok _ => true | Err _ => false end) "a duration"
        ["SCHEDULER_INTERVAL"; "HISTORY_RETENTION"];
  check_keys (λ v, bool_decide (is_Some (ParseBool v))) "a boolean" ["COOKIE_SECURE"].

Definition require (condition : bool) (message : string) : result unit :=
  if condition then Ok tt else Err (ErrMsg message).

(** The values before they are checked. *)
Definition collect (serviceName contextPath : string) : Config := {|
  ServiceName := serviceName;
  InstanceID := env "INSTANCE_ID" hostname;
  HTTPAddress := env "HTTP_ADDRESS" ":8080";
  APIContextPath := contextPath;
  CoreHTTPAddress := env "CORE_HTTP_ADDRESS" ":8081";
  GRPCAddress := env "GRPC_ADDRESS" ":9090";
  AdvertiseGRPC := env "ADVERTISE_GRPC_ADDRESS" "127.0.0.1:9090";
  AdvertiseHTTP := appendContextPath (env "ADVERTISE_HTTP_ADDRESS" "http://127.0.0.1:8080") contextPath;
  PublicBaseURL := appendContextPath (env "PUBLIC_BASE_URL" "http://127.0.0.1:8080") contextPath;
  DatabaseURL := Getenv "DATABASE_URL";
  DiscoveryMode := ToLower (env "DISCOVERY_MODE" "etcd");
  CoreGRPCTarget := env "CORE_GRPC_TARGET" "dns:///scheduler-core:9090";
  EtcdEndpoints := Split (env "ETCD_ENDPOINTS" "127.0.0.1:2379") ",";
  EtcdPrefix := env "ETCD_PREFIX" "/go-scheduler/dev/services";
  EtcdUsername := Getenv "ETCD_USERNAME";
  EtcdPassword := Getenv "ETCD_PASSWORD";
  EtcdCA := Getenv "ETCD_CA";
  EtcdCert := Getenv "ETCD_CERT";
  EtcdKey := Getenv "ETCD_KEY";
  ServiceToken := Getenv "SERVICE_TOKEN";
  PreviousToken := Getenv "PREVIOUS_SERVICE_TOKEN";
  MasterKey := Getenv "MASTER_KEY";
  MasterKeyVersion := integer "MASTER_KEY_VERSION" 1;
  JWTSecret := Getenv "JWT_SECRET";
  CookieSecure := boolean "COOKIE_SECURE" true;
  SMTPAddress := Getenv "SMTP_ADDRESS";
  SMTPUsername := Getenv "SMTP_USERNAME";
  SMTPPassword := Getenv "SMTP_PASSWORD";
  SMTPFrom := Getenv "SMTP_FROM";
  SMTPTLSMode := ToLower (env "SMTP_TLS_MODE" "starttls");
  GRPCTLSCert := Getenv "GRPC_TLS_CERT";
  GRPCTLSKey := Getenv "GRPC_TLS_KEY";
  GRPCTLSCA := Getenv "GRPC_TLS_CA";
  GRPCTLSServerName := Getenv "GRPC_TLS_SERVER_NAME";
  ExecutorGRPCTLSCA := Getenv "EXECUTOR_GRPC_TLS_CA";
  ExecutorGRPCTLSServerName := Getenv "EXECUTOR_GRPC_TLS_SERVER_NAME";
  SchedulerInterval := duration_env "SCHEDULER_INTERVAL" second;
  Workers := integer "WORKERS" 64;
  APIDatabaseMaxConns := integer32 "API_DATABASE_MAX_CONNS" 8;
  APIDatabaseMinConns := integer32 "API_DATABASE_MIN_CONNS" 1;
  CoreDatabaseMaxConns := integer32 "CORE_DATABASE_MAX_CONNS" 24;
  CoreDatabaseMinConns := integer32 "CORE_DATABASE_MIN_CONNS" 2;
  HistoryRetention := duration_env "HISTORY_RETENTION" (90 * 24 * hour);
|}.

Definition Load (serviceName : string) : result Config :=
  _ ← validateTypedEnvironment;
  contextPath ← normalizeContextPath (Getenv "API_CONTEXT_PATH");
  let c := collect serviceName contextPath in
  _ ← require (DatabaseURL c !=s "") "DATABASE_URL is required";
  _ ← require ((DiscoveryMode c ==s "etcd") || (DiscoveryMode c ==s "kubernetes"))
        "DISCOVERY_MODE must be etcd or kubernetes";
  _ ← require (negb ((DiscoveryMode c ==s "kubernetes") && (TrimSpace (CoreGRPCTarget c) ==s "")))
        "CORE_GRPC_TARGET is required in kubernetes discovery mode";
  _ ← require (ServiceToken c !=s "") "SERVICE_TOKEN is required";
  _ ← require (MasterKey c !=s "") "MASTER_KEY is required";
  _ ← require (32 <=? len (JWTSecret c)) "JWT_SECRET must contain at least 32 bytes";
  _ ← require ((0 <? HistoryRetention c) && (HistoryRetention c <=? 90 * 24 * hour))
        "HISTORY_RETENTION must be positive and at most 2160h";
  _ ← require (0 <? SchedulerInterval c) "SCHEDULER_INTERVAL must be positive";
  _ ← require (0 <? Workers c) "WORKERS must be positive";
  _ ← require ((SMTPTLSMode c ==s "starttls") || (SMTPTLSMode c ==s "tls") || (SMTPTLSMode c ==s "none"))
        "SMTP_TLS_MODE must be starttls, tls, or none";
  _ ← validatePoolSize "API" (APIDatabaseMinConns c) (APIDatabaseMaxConns c);
  _ ← validatePoolSize "CORE" (CoreDatabaseMinConns c) (CoreDatabaseMaxConns c);
  _ ← require (negb ((serviceName !=s "scheduler-server") && (DiscoveryMode c ==s "etcd")
                     && xorb (EtcdCert c ==s "") (EtcdKey c ==s "")))
        "ETCD_CERT and ETCD_KEY must be configured together";
  Ok c.
End environment.
End Config.

(** * Configuration: theorems

    What an accepted configuration guarantees to the rest of the program. *)

Module ConfigProofs.
Import GoUrl Utf8 GoPath Config.
Import CompletionStore (HasSuffix) CompletionProofs.

(** ** Checks *)

Lemma require_true condition message : require condition message = Ok tt → condition = true.
Proof. unfold require. by destruct condition. Qed.
Lemma bind_ok {A B} (r : result A) (f : A → result B) b : r ≫= f = Ok b → ∃ a, r = Ok a ∧ f a = Ok b.
Proof. destruct r as [a|err]; [|done]. intros E. by exists a. Qed.

Lemma pool_size name minConns maxConns :
  validatePoolSize name minConns maxConns = Ok tt → 1 ≤ maxConns ≤ 10000 ∧ 0 ≤ minConns ≤ maxConns.
Proof. unfold validatePoolSize. destruct (_ || _) eqn:E; [done|]. bool_to_prop. lia. Qed.

Lemma ParseInt32_spec s v : ParseInt32 s = Some v → ParseInt s = Some v ∧ -2147483648 ≤ v ≤ 2147483647.
Proof.
  unfold ParseInt32. destruct (ParseInt s) as [w|]; [|done]. destruct (_ && _) eqn:E; [|done].
  intros [= ->]. bool_to_prop. split; [done|lia].
Qed.

Section load.
Context `{Durations} (Getenv : string → string) (hostname : string).

Lemma check_keys_ok check what keys key :
  check_keys Getenv check what keys = Ok tt → key ∈ keys → Getenv key = "" ∨ check (Getenv key) = true.
Proof.
  induction keys as [|k keys IH]; cbn [check_keys]; intros E Hk; [by apply not_elem_of_nil in Hk|].
  destruct (_ || _) eqn:Eb; [|done]. apply elem_of_cons in Hk as [->|Hk]; [|by apply IH].
  apply orb_true_iff in Eb as [Eb|Eb]; [left; by apply String.eqb_eq|by right].
Qed.

(** What the rest of the program relies on. *)
Record valid (c : Config) : Prop := {
  v_retention : 0 < HistoryRetention c ≤ 90 * 24 * hour;
  v_interval : 0 < SchedulerInterval c;
  v_workers : 1 ≤ Workers c ≤ 2147483647;
  v_api_pool : 1 ≤ APIDatabaseMaxConns c ≤ 10000 ∧ 0 ≤ APIDatabaseMinConns c ≤ APIDatabaseMaxConns c;
  v_core_pool : 1 ≤ CoreDatabaseMaxConns c ≤ 10000 ∧ 0 ≤ CoreDatabaseMinConns c ≤ CoreDatabaseMaxConns c;
  v_secrets : DatabaseURL c ≠ "" ∧ ServiceToken c ≠ "" ∧ MasterKey c ≠ "" ∧ 32 ≤ len (JWTSecret c);
  v_modes : DiscoveryMode c ∈ ["etcd"; "kubernetes"] ∧ SMTPTLSMode c ∈ ["starttls"; "tls"; "none"];
  v_path : APIContextPath c = "" ∨
    ∃ l, l ≠ [] ∧ Forall (λ e, plain e = true) l ∧ APIContextPath c = "/" +:+ Join l "/";
}.

Lemma trimmed_head p s c t : TrimRightFunc p s = String c t → ∃ s', s = String c s' ∧ (t = "" → p c = false).
Proof.
  revert c t. induction s as [|d s IH]; intros c t; cbn [TrimRightFunc]; [done|].
  destruct (TrimRightFunc p s) as [|e u] eqn:E.
  - destruct (p d) eqn:Ep; [done|]. intros [= <- <-]. by exists s.
  - intros [= <- <-]. by exists s.
Qed.

Lemma normalized_path value p :
  normalizeContextPath value = Ok p →
  p = "" ∨ ∃ l, l ≠ [] ∧ Forall (λ e, plain e = true) l ∧ p = "/" +:+ Join l "/".
Proof.
  unfold normalizeContextPath. cbv zeta. destruct (_ || _); [intros [= <-]; by left|].
  destruct (ContainsAny _ _); [done|]. set (v' := if HasPrefix _ _ then _ else _). set (v := TrimRightSlash v').
  assert (Hv' : rooted v' = true).
  { unfold v'. destruct (HasPrefix (TrimSpace value) "/") eqn:E; [done|apply rooted_slash]. }
  destruct (Clean v !=s v) eqn:Ec; [done|]. cbn [orb]. destruct (Contains v "//"); [done|]. intros [= <-].
  apply negb_false_iff, String.eqb_eq in Ec. right. rewrite Ec. unfold TrimRightSlash in v.
  destruct v as [|c t] eqn:Ev; [by vm_compute in Ec|].
  apply trimmed_head in Ev as (s' & Ev & Hc). rewrite Ev in Hv'.
  assert (Hr : rooted (String c t) = true).
  { unfold rooted in *. cbn [HasPrefix] in *. apply andb_true_iff in Hv' as [-> _]. by destruct t. }
  assert (Hcs : c = "/"%char).
  { unfold rooted in Hr. cbn [HasPrefix] in Hr. apply andb_true_iff in Hr as [Hr _]. symmetry. by apply Ascii.eqb_eq. }
  pose proof (elements_plain _ Hr) as Hp. unfold Clean in Ec. rewrite Hr in Ec. cbv zeta in Ec.
  change (("/" +:+ ?x) ==s "") with false in Ec. cbv iota in Ec.
  exists (elements (String c t)). split_and!; [|done|by symmetry].
  intros En. rewrite En in Ec. injection Ec as _ <-. rewrite Hcs in Hc. by discriminate Hc.
Qed.

Lemma workers_bound serviceName contextPath :
  validateTypedEnvironment Getenv = Ok tt → Workers (collect Getenv hostname serviceName contextPath) ≤ 2147483647.
Proof.
  intros E. unfold validateTypedEnvironment in E. apply bind_ok in E as ([] & E & _).
  apply (check_keys_ok _ _ _ "WORKERS") in E; [|rewrite !elem_of_cons; tauto].
  cbn [Workers collect]. unfold integer. destruct E as [->|E]; [done|].
  apply bool_decide_eq_true in E as [v Ev]. apply ParseInt32_spec in Ev as [Ev Hv]. unfold Atoi. rewrite Ev. cbn. lia.
Qed.

(** The accepted configuration.  A process only starts with positive numbers of
    workers and polling interval, a retention of at most ninety days, pool sizes that
    PostgreSQL connections can have, secrets that are set, known modes, and a context
    path that is empty or made of plain segments. *)
Theorem loaded_configuration_is_valid serviceName c : Load Getenv hostname serviceName = Ok c → valid c.
Proof.
  unfold Load. intros E. apply bind_ok in E as ([] & Et & E). apply bind_ok in E as (contextPath & Ep & E).
  cbv zeta in E. set (c0 := collect Getenv hostname serviceName contextPath) in E.
  do 10 (apply bind_ok in E as ([] & ?%require_true & E)).
  apply bind_ok in E as ([] & Hapi%pool_size & E). apply bind_ok in E as ([] & Hcore%pool_size & E).
  apply bind_ok in E as ([] & _ & E). injection E as <-. bool_to_prop. split; try done.
  - split; [lia|]. by apply workers_bound.
  - rewrite !elem_of_cons, <- !String.eqb_eq. rewrite orb_true_iff in H9. tauto.
  - by apply normalized_path in Ep.
Qed.
End load.

(** ** Context paths *)

Lemma trim_plain e : ContainsChar e "/" = false → TrimRightSlash e = e.
Proof.
  unfold ContainsChar, TrimRightSlash. induction e as [|c e IH]; cbn [exists_char TrimRightFunc]; [done|].
  intros [Hc He]%orb_false_iff. rewrite IH by done. destruct e; [|done]. by rewrite Hc.
Qed.
Lemma trim_after s t : t ≠ "" → TrimRightSlash t = t → TrimRightSlash (s +:+ t) = s +:+ t.
Proof.
  intros Hn Ht. unfold TrimRightSlash in *. induction s as [|c s IH]; [done|]. rewrite app_cons. cbn [TrimRightFunc].
  rewrite IH. destruct s, t; done.
Qed.
Lemma HasSuffix_itself s t : HasSuffix (s +:+ t) t = true.
Proof.
  unfold HasSuffix. rewrite length_app_string, (proj2 (Nat.leb_le _ _)) by lia.
  replace (String.length s + String.length t - String.length t)%nat with (String.length s + 0)%nat by lia.
  rewrite str_drop_suffix. apply String.eqb_refl.
Qed.

(** A context path that is lost.  When the base address names a host equal to the
    context path, as in [http://api] with the path [/api], the address ends in the
    path already and the path is not appended: callbacks then miss it. *)
Theorem context_path_is_lost host :
  plain host = true → appendContextPath ("http://" +:+ host) ("/" +:+ host) = "http://" +:+ host.
Proof.
  intros Hp. assert (Hn : host ≠ "") by (intros ->; done).
  assert (Hs : ContainsChar host "/" = false).
  { unfold plain in Hp. bool_to_prop. done. }
  unfold appendContextPath. rewrite (trim_after "http://" host) by (done || by apply trim_plain). cbv zeta.
  change ("http://" +:+ host) with ("http:/" +:+ ("/" +:+ host)). rewrite HasSuffix_itself. by rewrite orb_true_r.
Qed.

Lemma context_path_is_lost_witness : appendContextPath "http://api" "/api" = "http://api".
Proof. apply (context_path_is_lost "api"). reflexivity. Defined.

(** ** Example *)

Definition sample_env (key : string) : string :=
  if key ==s "DATABASE_URL" then "postgres://db" else if key ==s "SERVICE_TOKEN" then "token"
  else if key ==s "MASTER_KEY" then "key" else if key ==s "JWT_SECRET" then "0123456789abcdef0123456789abcdef"
  else if key ==s "API_CONTEXT_PATH" then "scheduler/" else if key ==s "WORKERS" then "8" else "".
Definition no_durations : Durations := {| ParseDuration := λ _, Err (ErrMsg "invalid duration") |}.

Lemma loaded_configuration_is_valid_witness :
  match @Load no_durations sample_env "host" "scheduler-core" with
  | Ok c => Workers c = 8 ∧ APIContextPath c = "/scheduler" ∧ valid c
  | Err _ => False
  end.
Proof.
  destruct (@Load no_durations sample_env "host" "scheduler-core") as [c|err] eqn:E; [|by vm_compute in E].
  pose proof (@loaded_configuration_is_valid no_durations sample_env "host" "scheduler-core" c E) as Hv.
  assert (Ec : c = @collect no_durations sample_env "host" "scheduler-core" "/scheduler").
  { vm_compute in E. injection E as <-. vm_compute. reflexivity. }
  split; [by rewrite Ec|]. split; [by rewrite Ec|exact Hv].
Defined.
End ConfigProofs.
