(* ===== verification/Handlers.v ===== *)
(** * Scripts and HTTP requests

    [pkg/executor]: the operating system as handlers use it, the loggers of a task
    ([executor.go], [grpc.go]), the handler of scripts ([script_unix.go]) and the
    handler of HTTP requests ([http.go]).  A handler is a program over the effects
    [os]; the time that passes, and the end of its context, show in the answers. *)
From Stdlib Require Import ZArith Lia Ascii String.
From stdpp Require Import base list strings option.
From S2P Require Import Prelude GoStrings GoUrl Utf8 GoNet GoJson Tables Proto Programs Traces CompletionStore ExecutorServer.

(** The verb [%q]. *)
Class Quoting := { quoted : string → string }.

Module Handlers.
Import GoUrl Utf8 GoNet GoJson Programs Proto.
Import (notations) ExecutorServer.

Notation Task := ExecutorServer.Task.
Notation mk_task := ExecutorServer.mk_task.
Notation failure := ExecutorServer.failure.
Notation Failure := ExecutorServer.Failure.
Notation AwaitingCallback := ExecutorServer.AwaitingCallback.

(** ** The world of a handler *)

(** The error of a command: the exit status if it ran to its end, and its text. *)
Record exec_error := mk_exec_error { xe_code : option Z; xe_text : string }.
(** What a command wrote, piece by piece, and how it ended. *)
Record output := mk_output {
  ou_stdout : list string; ou_stderr : list string; ou_error : option exec_error;
}.

(** Everything that was written. *)
Fixpoint all_of (pieces : list string) : string :=
  match pieces with
  | [] => ""
  | piece :: rest => piece +:+ all_of rest
  end.

(** [exec.Cmd]: [Dir] is never set. *)
Record SysProcAttr := mk_attr { Setpgid : bool; Pdeathsig : option string }.
Record Cmd := mk_cmd {
  cmd_Path : string; cmd_Args : list string; cmd_Env : list string; cmd_SysProcAttr : SysProcAttr;
}.
(** The end of [command.Wait], with its error, or of the context, with [ctx.Err]. *)
Inductive selected := Done (err : option error) | Cancelled (err : error).

(** A stream: the bytes that can be read, and the error after the last of them,
    [None] for the end of the stream. *)
Record stream := mk_stream { sm_bytes : string; sm_error : option error }.
Record Request := mk_request {
  req_Method : string; req_URL : string; req_Header : Header; req_Body : string;
}.
Record Response := mk_answer { StatusCode : Z; rs_Body : stream }.

(** Jobs of Kubernetes as far as the code looks at them. *)
Record condition := mk_condition { cd_Type : string; cd_Status : string; cd_Message : string }.
Record Container := mk_container {
  co_Image : string; co_Command : list string; co_Args : list string; co_Env : list (string * string);
}.
Record KubeJob := mk_kube_job {
  kj_Name : string; kj_Labels : list (string * string); kj_BackoffLimit : Z; kj_TTL : Z;
  kj_PodLabels : list (string * string); kj_ServiceAccount : string; kj_PullSecrets : list string;
  kj_Container : Container; kj_Conditions : list condition;
}.
(** A configuration is known by the kubeconfig it was made from, or by its fields. *)
Inductive rest_Config :=
| FromKubeconfig (kubeconfig : string)
| ServiceAccount (Host BearerToken CAData : string) (Insecure : bool).
Inductive kube_error := KubeNotFound | KubeAlreadyExists | KubeOther (text : string).

(** What handlers ask for. *)
Inductive os : Type → Type :=
| LookPath (file : string) : os (result string)
| Environ : os (list string)
| RunCommand (binary : string) (environment : option (list string)) (arguments : list string) : os output
| MkdirTemp (pattern : string) : os (result string)
| WriteFile (path content : string) : os (option error)
| RemoveAll (path : string) : os unit
| CreateTemp (pattern : string) : os (result string)
| Chmod (path : string) (mode : Z) : os (option error)
| WriteString (path content : string) : os (option error)
| CloseFile (path : string) : os (option error)
| Remove (path : string) : os unit
| Start (command : Cmd) : os (result Z)
| Select (pid : Z) : os selected
| KillGroup (pid : Z) : os unit
| WaitDone (pid : Z) : os unit
| Written (pid : Z) : os (list string * list string)
| AppendLog (runID token stream content : string) : os (option error)
| RandomHex (bytes : nat) : os (result string)
| HttpDo (r : Request) : os (result Response)
| NewClient (config : rest_Config) : os (option error)
| GetJob (namespace name : string) : os (KubeJob + kube_error)
| CreateJob (namespace : string) (job : KubeJob) : os (option kube_error)
| DeleteJob (namespace name : string) : os (option kube_error)
| ListPods (namespace selector : string) : os (result (list string))
| StreamLogs (namespace pod container : string) : os (result stream)
| PollWait (d : duration) : os (option error)      (* [ctx.Err] if the context ended first *)
| CtxErr : os bool.
Notation handler := (prog os).

Definition failed (err : error) : handler (option failure) := mret (Some (Failure (error_text err))).
Definition refused (text : string) : handler (option failure) := mret (Some (Failure text)).
Definition wrapped (context : string) (err : error) : error :=
  ErrMsg (context +:+ ": " +:+ error_text err).

(** [io.ReadAll(io.LimitReader(s, limit))] *)
Definition ReadLimited (limit : Z) (s : stream) : result string :=
  if limit <=? len (sm_bytes s) then Ok (str_take (Z.to_nat limit) (sm_bytes s))
  else match sm_error s with Some err => Err err | None => Ok (sm_bytes s) end.

(** ** Loggers *)

Record TaskLogger := mk_logger {
  Info : string → handler (option error); LogError : string → handler (option error);
}.

Definition maxLogContent : Z := 65536.

(** [grpcLogger.write] *)
Definition grpc_write (runID token stream content : string) : handler (option error) :=
  if maxLogContent <? len content then mret (Some (ErrMsg "log content exceeds 65536 bytes"))
  else effect (AppendLog runID token stream content).
Definition grpcLogger (runID token : string) : TaskLogger :=
  mk_logger (grpc_write runID token "stdout") (grpc_write runID token "stderr").

Section http_logger.
Context `{IPLiterals}.

(** At most 4096 bytes of the answer are read and forgotten. *)
Definition postJSON (target raw : string) : handler (option error) :=
  match Parse target with
  | Err err => mret (Some err)
  | Ok _ =>
      response ← effect (HttpDo (mk_request "POST" target (header_set [] "Content-Type" "application/json") raw));
      mret (match response with
            | Err err => Some err
            | Ok r =>
                if (StatusCode r <? 200) || (300 <=? StatusCode r)
                then Some (ErrMsg ("scheduler returned HTTP " +:+ Itoa (StatusCode r))) else None
            end)
  end.

(** The payload of [Logger.write]: the keys of a map are written in order. *)
Definition log_payload (token entryID stream content : string) : string :=
  "{" +:+ json_field "entries"
    ("[{" +:+ json_field "entry_id" (json_string entryID) +:+ "," +:+ json_field "stream" (json_string stream)
     +:+ "," +:+ json_field "content" (json_string content) +:+ "}]")
  +:+ "," +:+ json_field "token" (json_string token) +:+ "}".

(** [Logger.write] *)
Definition http_write (url token stream content : string) : handler (option error) :=
  if maxLogContent <? len content then mret (Some (ErrMsg "log content exceeds 65536 bytes"))
  else
    random ← effect (RandomHex 12);
    match random with
    | Err err => mret (Some err)
    | Ok entryID => postJSON url (log_payload token entryID stream content)
    end.
Definition Logger (url token : string) : TaskLogger :=
  mk_logger (http_write url token "stdout") (http_write url token "stderr").
End http_logger.

(** ** Output *)

Definition maxScriptOutputBytes : Z := Z.shiftl 1 20.

Record limitedBuffer := mk_buffer { lb_buffer : string; lb_limit : Z; lb_exceeded : bool }.
Definition Write (w : limitedBuffer) (p : string) : limitedBuffer :=
  let remaining := lb_limit w - len (lb_buffer w) in
  if remaining <=? 0 then mk_buffer (lb_buffer w) (lb_limit w) true
  else if remaining <? len p
  then mk_buffer (lb_buffer w +:+ str_take (Z.to_nat remaining) p) (lb_limit w) true
  else mk_buffer (lb_buffer w +:+ p) (lb_limit w) (lb_exceeded w).
(** A buffer after the writes of a command. *)
Definition buffered (pieces : list string) : limitedBuffer :=
  foldl Write (mk_buffer "" maxScriptOutputBytes false) pieces.

(** Every round writes at least one byte; [fuel] is the length of [value]. *)
Fixpoint write_chunks (fuel : nat) (write : string → handler (option error)) (value : string)
    : handler (option error) :=
  match fuel with
  | O => mret None
  | S fuel =>
      if len value <=? 0 then mret None
      else
        let size := Z.to_nat (Z.min (len value) 65536) in
        err ← write (str_take size value);
        match err with
        | Some err => mret (Some err)
        | None => write_chunks fuel write (str_drop size value)
        end
  end.

Definition writeScriptOutput (logger : option TaskLogger) (stdout stderr : string) : handler (option error) :=
  match logger with
  | None => mret None
  | Some logger =>
      err ← write_chunks (String.length stdout) (Info logger) stdout;
      match err with
      | Some err => mret (Some err)
      | None => write_chunks (String.length stderr) (LogError logger) stderr
      end
  end.

(** ** Scripts *)

Definition kept_variable (item : string) : bool :=
  match Cut item "=" with
  | (_, None) => false
  | (key, Some _) => (key ==s "PATH") || (key ==s "HOME") || (key ==s "LANG")
  end.
Definition scriptProcessEnv (t : Task) (environ : list string) : list string :=
  List.filter kept_variable environ ++
  ["SCHEDULER_INPUT=" +:+ ExecutorServer.tk_Input t; "SCHEDULER_RUN_ID=" +:+ ExecutorServer.tk_RunID t;
   "SCHEDULER_JOB_ID=" +:+ ExecutorServer.tk_JobID t;
   "SCHEDULER_SHARD_INDEX=" +:+ Itoa (ExecutorServer.tk_BroadcastIndex t);
   "SCHEDULER_SHARD_TOTAL=" +:+ Itoa (ExecutorServer.tk_BroadcastTotal t)].

(** The two files of the function, by operating system. *)
Definition configureScriptProcess (linux : bool) : SysProcAttr :=
  mk_attr true (if linux then Some "SIGKILL" else None).

(** The table of interpreters: a language it lacks gives the empty name. *)
Definition interpreter (language : string) : string :=
  if language ==s "shell" then "sh" else if language ==s "python" then "python3"
  else if language ==s "nodejs" then "node" else if language ==s "php" then "php"
  else if language ==s "powershell" then "pwsh" else "".

(** After the process was started: its end or the end of the context. *)
Definition finish_script (pid : Z) (logger : option TaskLogger) : handler (option failure) :=
  first ← effect (Select pid);
  err ← (match first with
         | Done err => mret err
         | Cancelled err =>
             _ ← effect (KillGroup pid);
             _ ← effect (WaitDone pid);
             mret (Some err)
         end);
  written ← effect (Written pid);
  let stdout := buffered written.1 in
  let stderr := buffered written.2 in
  logErr ← writeScriptOutput logger (lb_buffer stdout) (lb_buffer stderr);
  let err := match err with Some _ => err | None => logErr end in
  if lb_exceeded stdout || lb_exceeded stderr then refused "script output exceeded 1 MiB"
  else mret (match err with Some err => Some (Failure (error_text err)) | None => None end).

(** The body of the handler after [os.CreateTemp]: its deferred call is made by the
    caller. *)
Definition run_script (linux : bool) (t : Task) (path scriptName : string) (logger : option TaskLogger)
    : handler (option failure) :=
  err ← effect (Chmod scriptName 448);
  err ← (match err with
         | Some err => mret (Some err)
         | None => effect (WriteString scriptName (ExecutorServer.tk_ScriptSource t))
         end);
  closeErr ← effect (CloseFile scriptName);
  match err, closeErr with
  | Some err, _ => failed err
  | None, Some closeErr => failed closeErr
  | None, None =>
      environ ← effect Environ;
      started ← effect (Start (mk_cmd path [scriptName] (scriptProcessEnv t environ) (configureScriptProcess linux)));
      match started with
      | Err err => failed err
      | Ok pid => finish_script pid logger
      end
  end.

Definition ScriptHandler `{Quoting} (linux : bool) (languages : list string) (t : Task) (logger : option TaskLogger)
    : handler (option failure) :=
  let language := ExecutorServer.tk_ScriptLanguage t in
  let source := ExecutorServer.tk_ScriptSource t in
  if negb (bool_decide (language ∈ languages))
  then refused ("script language " +:+ quoted language +:+ " is disabled")
  else if (source ==s "") || (Z.shiftl 1 20 <? len source)
  then refused "script source must be between 1 byte and 1 MiB"
  else
    path ← effect (LookPath (interpreter language));
    match path with
    | Err err => failed (wrapped ("find " +:+ language +:+ " interpreter") err)
    | Ok path =>
        script ← effect (CreateTemp "go-scheduler-script-*");
        match script with
        | Err err => failed err
        | Ok scriptName =>
            outcome ← run_script linux t path scriptName logger;
            _ ← effect (Remove scriptName);
            mret outcome
        end
    end.

(** ** HTTP requests *)

(** [if executionID == "" { executionID = task.RunID }] *)
Definition executionID (t : Task) : string :=
  if ExecutorServer.tk_ExternalExecutionID t ==s "" then ExecutorServer.tk_RunID t
  else ExecutorServer.tk_ExternalExecutionID t.

(** The headers of the job in the order the map is ranged over, then the identity
    headers. *)
Definition identity_headers (t : Task) (h : Header) : Header :=
  header_set (header_set (header_set (header_set h "Idempotency-Key" (executionID t))
    "X-Go-Scheduler-Execution-ID" (executionID t))
    "X-Go-Scheduler-Run-ID" (ExecutorServer.tk_RunID t))
    "X-Go-Scheduler-Job-ID" (ExecutorServer.tk_JobID t).

Section http.
Context `{IPLiterals} `{Quoting}.

Definition HTTPHandler (t : Task) (logger : option TaskLogger) : handler (option failure) :=
  match ExecutorServer.tk_HTTP t with
  | None => refused "HTTP execution configuration is required"
  | Some http =>
      if (Http_Url http ==s "") || (Http_Method http ==s "")
      then refused "HTTP execution configuration is required"
      else if negb (forall_char token_char (Http_Method http))
      then refused ("net/http: invalid method " +:+ quoted (Http_Method http))
      else
        match Parse (Http_Url http) with
        | Err err => failed err
        | Ok _ =>
            let header := foldl (λ h kv, header_set h kv.1 kv.2) [] (Http_Headers http) in
            response ← effect (HttpDo (mk_request (Http_Method http) (Http_Url http)
                                         (identity_headers t header) (Http_Body http)));
            match response with
            | Err err => failed err
            | Ok r =>
                match ReadLimited (Z.shiftl 64 10) (rs_Body r) with
                | Err readErr => failed readErr
                | Ok body =>
                    _ ← (match logger with
                         | Some logger => if 0 <? len body then Info logger body else mret None
                         | None => mret None
                         end);
                    if StatusCode r =? 202 then mret (Some AwaitingCallback)
                    else if (StatusCode r <? 200) || (300 <=? StatusCode r)
                    then refused ("HTTP target returned " +:+ Itoa (StatusCode r) +:+ ": "
                                  +:+ CompletionStore.truncate body (Z.to_nat 4096))
                    else mret None
                end
            end
        end
  end.
End http.
End Handlers.

(** * Scripts and HTTP requests: theorems

    What a handler may ask of the operating system after what happened before, and
    what its executions end with, whatever the answers are. *)

Module HandlerProofs.
Import GoUrl Utf8 GoNet Programs Traces Proto Handlers.

(** ** Executions *)

Definition saw (B : Type) (eff : os B) (b : B) : list (event os) := [happened eff b].
(** Handlers do not use the store. *)
Definition no_store (log : list (event os)) (B : Type) (m : tx B) : Prop := False.
Notation execution := (traces saw no_store).

(** What an event tells, as a function of its effect and answer. *)
Definition reading (T : Type) : Type := ∀ B, os B → B → option T.
Definition read {T} (r : reading T) (x : event os) : option T := r _ (projT2 x).1 (projT2 x).2.
Definition reads {T} (r : reading T) (log : list (event os)) : list T := omap (read r) log.

Lemma reads_app {T} (r : reading T) l k : reads r (l ++ k) = reads r l ++ reads r k.
Proof. apply omap_app. Qed.
Lemma reads_one {T} (r : reading T) {B} (eff : os B) b :
  reads r (saw B eff b) = match r B eff b with Some x => [x] | None => [] end.
Proof. unfold reads, saw. cbn. unfold read, happened. cbn. by destruct (r B eff b). Qed.
Lemma reads_nil {T} (r : reading T) : reads r [] = [].
Proof. done. Qed.

(** ** Logs *)

(** The content of a stream that the scheduler accepted, and what it refused. *)
Definition accepted_piece (stream : string) : reading string := λ B eff,
  match eff in os B return B → option string with
  | AppendLog _ _ s c => λ ans, if (s ==s stream) && bool_decide (ans = None) then Some c else None
  | _ => λ _, None
  end.
Definition accepted (stream : string) (log : list (event os)) : string :=
  all_of (reads (accepted_piece stream) log).

Lemma all_of_app l k : all_of (l ++ k) = all_of l +:+ all_of k.
Proof. induction l as [|x l IH]; cbn; [done|]. by rewrite IH, str_app_assoc. Qed.
Lemma accepted_app stream l k : accepted stream (l ++ k) = accepted stream l +:+ accepted stream k.
Proof. unfold accepted. by rewrite reads_app, all_of_app. Qed.

Definition log_event (runID token stream : string) (x : event os) : Prop :=
  ∃ c a, x = happened (AppendLog runID token stream c) a.

(** Readings that do not look at logs. *)
Definition ignores_logs {T} (r : reading T) : Prop :=
  ∀ runID token stream c a, r _ (AppendLog runID token stream c) a = None.
Lemma reads_logs {T} (r : reading T) runID token stream ev :
  ignores_logs r → Forall (log_event runID token stream) ev → reads r ev = [].
Proof.
  intros Hr. induction 1 as [|x ev (c & a & ->) _ IH]; [done|].
  change (happened (AppendLog runID token stream c) a :: ev)
    with (saw _ (AppendLog runID token stream c) a ++ ev).
  by rewrite reads_app, IH, reads_one, Hr.
Qed.
Lemma accepted_other runID token s s' ev :
  s ≠ s' → Forall (log_event runID token s) ev → accepted s' ev = "".
Proof.
  intros Hs He. unfold accepted. induction He as [|x ev (c & a & ->) _ IH]; [done|].
  change (happened (AppendLog runID token s c) a :: ev) with (saw _ (AppendLog runID token s c) a ++ ev).
  rewrite reads_app, all_of_app, IH, reads_one. cbn. destruct (s ==s s') eqn:E; [by bool_to_prop|done].
Qed.

Section logs.
Context (P : list (event os) → ∀ B, os B → Prop) (runID token : string).
Context (HP : ∀ log s c, 0 < len c ≤ maxLogContent → P log _ (AppendLog runID token s c)).

(** The pieces of a text are logged in order; at a refusal the rest is not. *)
Lemma execution_chunks stream fuel value log (Q : list (event os) → option error → Prop) :
  (String.length value ≤ fuel)%nat →
  (∀ ev err, Forall (log_event runID token stream) ev →
     (err = None ↔ accepted stream ev = value) → Q (log ++ ev) err) →
  execution P (write_chunks fuel (grpc_write runID token stream) value) log Q.
Proof.
  revert value log Q. induction fuel as [|fuel IH]; intros value log Q Hf HQ; cbn [write_chunks].
  - destruct value; [|cbn in Hf; lia]. cbn. rewrite <- (app_nil_r log). by apply HQ.
  - destruct (Z.leb_spec (len value) 0) as [Hv|Hv].
    { destruct value; [|unfold len in Hv; cbn in Hv; lia]. cbn. rewrite <- (app_nil_r log). by apply HQ. }
    set (size := Z.to_nat (Z.min (len value) 65536)).
    assert (Hs : (0 < size ≤ String.length value)%nat ∧ Z.of_nat size ≤ 65536) by (unfold size, len in *; lia).
    assert (Hl : len (str_take size value) = Z.of_nat size).
    { unfold len. f_equal. rewrite length_str_take. lia. }
    apply traces_bind. unfold grpc_write at 1. destruct (Z.ltb_spec maxLogContent (len (str_take size value))) as [Hm|Hm].
    { unfold maxLogContent in Hm. lia. }
    apply traces_effect; [apply HP; unfold maxLogContent; lia|].
    intros [err|].
    + cbn [traces mret prog_mret]. apply HQ; [repeat constructor; by eexists _, _|]. split; [done|]. intros E. exfalso.
      unfold accepted in E. rewrite reads_one in E. cbn in E. rewrite andb_false_r in E.
      subst value. unfold len in Hv. cbn in Hv. lia.
    + apply IH; [rewrite length_str_drop; lia|]. intros ev err He Hi. rewrite <- app_assoc. apply HQ.
      * constructor; [by eexists _, _|done].
      * rewrite Hi, accepted_app. unfold accepted at 2. rewrite reads_one. cbn. rewrite String.eqb_refl. cbn.
        rewrite str_app_nil_r. split; [intros ->; apply take_drop_id|]. intros E.
        apply (inj (String.append (str_take size value))). by rewrite E, take_drop_id.
Qed.

Lemma execution_output stdout stderr log (Q : list (event os) → option error → Prop) :
  (∀ ev1 ev2 err, Forall (log_event runID token "stdout") ev1 → Forall (log_event runID token "stderr") ev2 →
     (err = None ↔ accepted "stdout" ev1 = stdout ∧ accepted "stderr" ev2 = stderr) →
     Q (log ++ ev1 ++ ev2) err) →
  execution P (writeScriptOutput (Some (grpcLogger runID token)) stdout stderr) log Q.
Proof.
  intros HQ. cbn [writeScriptOutput grpcLogger Info LogError]. apply traces_bind, execution_chunks; [lia|].
  intros ev1 [err|] H1 E1.
  - cbn. rewrite <- (app_nil_r ev1). apply HQ; [done|constructor|]. split; [done|]. intros [E _].
    by apply E1 in E.
  - apply execution_chunks; [lia|]. intros ev2 err H2 E2. rewrite <- app_assoc. apply HQ; [done..|].
    rewrite E2. assert (accepted "stdout" ev1 = stdout) by by apply E1. naive_solver.
Qed.
End logs.

(** ** Output *)

Lemma len_app s t : len (s +:+ t) = len s + len t.
Proof. unfold len. rewrite length_app_string. lia. Qed.
Lemma len_positive s : s ≠ "" → 0 < len s.
Proof. destruct s; [done|]. unfold len. cbn [String.length]. lia. Qed.

(** Output that is not cut off is kept as it is. *)
Lemma written_whole pieces w :
  lb_exceeded (foldl Write w pieces) = false → lb_exceeded w = false → len (lb_buffer w) ≤ lb_limit w →
  lb_buffer (foldl Write w pieces) = lb_buffer w +:+ all_of pieces ∧
  len (lb_buffer w) + len (all_of pieces) ≤ lb_limit w.
Proof.
  revert w. induction pieces as [|p pieces IH]; intros w He Hw Hl; cbn [foldl all_of] in *.
  { rewrite str_app_nil_r. unfold len at 2. cbn. split; [done|lia]. }
  assert (Hx : lb_exceeded (Write w p) = false).
  { destruct (lb_exceeded (Write w p)) eqn:E; [|done]. exfalso. revert He E. clear. generalize (Write w p).
    induction pieces as [|q pieces IH]; cbn; [congruence|]. intros w' He E. apply (IH (Write w' q)); [done|].
    unfold Write. repeat case_match; done. }
  unfold Write in Hx, He. pose proof (Z.leb_spec (lb_limit w - len (lb_buffer w)) 0) as H1.
  destruct (_ <=? 0) in *; [done|].
  destruct (Z.ltb_spec (lb_limit w - len (lb_buffer w)) (len p)) as [H2|H2]; [done|].
  unfold Write at 2. inversion H1. rewrite (proj2 (Z.leb_gt _ _)) by lia. rewrite (proj2 (Z.ltb_ge _ _)) by lia.
  destruct (IH (mk_buffer (lb_buffer w +:+ p) (lb_limit w) (lb_exceeded w))) as [IH1 IH2];
    [done|done|cbn; rewrite len_app; lia|].
  cbn in IH1, IH2. rewrite IH1. rewrite !len_app in *. split; [apply str_app_assoc|lia].
Qed.

Lemma written_fits pieces w :
  Forall (λ p, p ≠ "") pieces → lb_exceeded w = false → len (lb_buffer w) + len (all_of pieces) ≤ lb_limit w →
  lb_exceeded (foldl Write w pieces) = false.
Proof.
  intros Hp. revert w. induction Hp as [|p pieces Hp%len_positive _ IH]; intros w Hw Hl; cbn [foldl all_of] in *; [done|].
  rewrite len_app in Hl. assert (0 ≤ len (all_of pieces)) by (unfold len; lia).
  unfold Write at 2. rewrite (proj2 (Z.leb_gt _ _)) by lia. rewrite (proj2 (Z.ltb_ge _ _)) by lia.
  apply IH; [done|]. cbn. rewrite len_app. lia.
Qed.

(** The output did not exceed 1 MiB. *)
Definition fits (pieces : list string) : Prop :=
  lb_exceeded (buffered pieces) = false.
Lemma fits_whole pieces : fits pieces → lb_buffer (buffered pieces) = all_of pieces ∧ len (all_of pieces) ≤ maxScriptOutputBytes.
Proof.
  intros Hf. exact (written_whole pieces (mk_buffer "" maxScriptOutputBytes false) Hf eq_refl ltac:(done)).
Qed.
Lemma fits_intro pieces :
  Forall (λ p, p ≠ "") pieces → len (all_of pieces) ≤ maxScriptOutputBytes → fits pieces.
Proof. intros Hp Hl. by apply (written_fits pieces (mk_buffer "" maxScriptOutputBytes false)). Qed.

(** ** Scripts *)

Definition looked : reading string := λ B eff,
  match eff in os B return B → option string with
  | LookPath _ => λ ans, match ans with Ok path => Some path | Err _ => None end
  | _ => λ _, None
  end.
Definition created : reading string := λ B eff,
  match eff in os B return B → option string with
  | CreateTemp _ => λ ans, match ans with Ok name => Some name | Err _ => None end
  | _ => λ _, None
  end.
Definition stored : reading (string * string) := λ B eff,
  match eff in os B return B → option (string * string) with
  | WriteString name content => λ ans, match ans with None => Some (name, content) | Some _ => None end
  | _ => λ _, None
  end.
Definition private : reading string := λ B eff,
  match eff in os B return B → option string with
  | Chmod name mode => λ ans, if bool_decide (ans = None) && (mode =? 448) then Some name else None
  | _ => λ _, None
  end.
Definition started : reading Z := λ B eff,
  match eff in os B return B → option Z with
  | Start _ => λ ans, match ans with Ok pid => Some pid | Err _ => None end
  | _ => λ _, None
  end.
Definition ended : reading (option error) := λ B eff,
  match eff in os B return B → option (option error) with
  | Select _ => λ ans, match ans with Done err => Some err | Cancelled _ => None end
  | _ => λ _, None
  end.
Definition interrupted : reading Z := λ B eff,
  match eff in os B return B → option Z with
  | Select pid => λ ans, match ans with Done _ => None | Cancelled _ => Some pid end
  | _ => λ _, None
  end.
Definition killed : reading Z := λ B eff,
  match eff in os B return B → option Z with KillGroup pid => λ _, Some pid | _ => λ _, None end.
Definition printed : reading (list string * list string) := λ B eff,
  match eff in os B return B → option (list string * list string) with
  | Written _ => λ ans, Some ans
  | _ => λ _, None
  end.
Definition removed : reading string := λ B eff,
  match eff in os B return B → option string with Remove name => λ _, Some name | _ => λ _, None end.

(** The variables a script is given. *)
Definition script_variable (t : Task) (item : string) : Prop :=
  kept_variable item = true ∨
  item ∈ ["SCHEDULER_INPUT=" +:+ ExecutorServer.tk_Input t; "SCHEDULER_RUN_ID=" +:+ ExecutorServer.tk_RunID t;
          "SCHEDULER_JOB_ID=" +:+ ExecutorServer.tk_JobID t;
          "SCHEDULER_SHARD_INDEX=" +:+ Itoa (ExecutorServer.tk_BroadcastIndex t);
          "SCHEDULER_SHARD_TOTAL=" +:+ Itoa (ExecutorServer.tk_BroadcastTotal t)].

(** What the handler may ask for after [log]. *)
Definition script_request (languages : list string) (t : Task) (runID token : string)
    (log : list (event os)) (B : Type) (eff : os B) : Prop :=
  match eff with
  | LookPath file =>
      ExecutorServer.tk_ScriptLanguage t ∈ languages ∧ file = interpreter (ExecutorServer.tk_ScriptLanguage t)
  | CreateTemp _ | Environ => True
  | Chmod name _ | CloseFile name | Remove name => reads created log = [name]
  | WriteString name content =>
      reads created log = [name] ∧ reads private log = [name] ∧ content = ExecutorServer.tk_ScriptSource t
  | Start command =>
      reads looked log = [cmd_Path command] ∧ reads created log = cmd_Args command ∧
      reads private log = cmd_Args command ∧
      reads stored log = map (λ name, (name, ExecutorServer.tk_ScriptSource t)) (cmd_Args command) ∧
      Forall (script_variable t) (cmd_Env command) ∧ Setpgid (cmd_SysProcAttr command) = true
  | Select pid | KillGroup pid | WaitDone pid | Written pid => reads started log = [pid]
  | AppendLog r k _ content => r = runID ∧ k = token ∧ 0 < len content ≤ maxLogContent
  | _ => False
  end.

(** What an execution of the handler ends with. *)
Definition script_outcome (log : list (event os)) (outcome : option failure) : Prop :=
  reads removed log = reads created log ∧
  reads killed log = reads interrupted log ∧
  (outcome = None → ∃ out err,
     reads printed log = [(out, err)] ∧ reads ended log = [None] ∧
     len (all_of out) ≤ maxScriptOutputBytes ∧ len (all_of err) ≤ maxScriptOutputBytes ∧
     accepted "stdout" log = all_of out ∧ accepted "stderr" log = all_of err) ∧
  (∀ out err,
     reads printed log = [(out, err)] → reads ended log = [None] →
     Forall (λ p, p ≠ "") (out ++ err) →
     len (all_of out) ≤ maxScriptOutputBytes → len (all_of err) ≤ maxScriptOutputBytes →
     accepted "stdout" log = all_of out → accepted "stderr" log = all_of err → outcome = None).

(** The next effect of a handler, and readings of the log. *)
Ltac next_effect := apply traces_bind, traces_effect; [|intros ?].
Ltac simpl_reads :=
  repeat first
    [ rewrite reads_app | rewrite reads_one | rewrite reads_nil
    | match goal with
      | H : Forall (log_event _ _ _) ?ev |- context [reads ?r ?ev] =>
          rewrite (reads_logs r _ _ _ ev ltac:(by intros ?????) H)
      end ];
  cbn -[Z.of_nat maxScriptOutputBytes maxLogContent len];
  rewrite ?app_nil_r.
Ltac script_side := unfold script_request; simpl_reads; try done.

Section script.
Context `{Quoting} (linux : bool) (languages : list string) (t : Task) (runID token : string).
Notation logger := (Some (grpcLogger runID token)).
Notation script := (execution (script_request languages t runID token)).

(** A handler that fails before it has read any output. *)
Lemma failed_script log text :
  reads removed log = reads created log → reads killed log = reads interrupted log →
  reads printed log = [] → script_outcome log (Some (Failure text)).
Proof. intros H1 H2 H3. split_and!; try done. intros out err E. by rewrite H3 in E. Qed.

Lemma script_environment environ : Forall (script_variable t) (scriptProcessEnv t environ).
Proof.
  unfold scriptProcessEnv. apply Forall_app. split; [|apply Forall_forall; intros x Hx; right; by apply list_elem_of_In].
  apply Forall_forall. intros x [_ Hx]%filter_In. by left.
Qed.

(** The state of an execution with its script in [name] and its process [pid]. *)
Record running (name : string) (pid : Z) (log : list (event os)) : Prop := {
  rn_created : reads created log = [name]; rn_started : reads started log = [pid];
  rn_removed : reads removed log = []; rn_killed : reads killed log = reads interrupted log;
  rn_stdout : accepted "stdout" log = ""; rn_stderr : accepted "stderr" log = "";
}.

(** The output is logged and the outcome decided. *)
Lemma report_execution name pid out err failed log :
  running name pid log → reads printed log = [(out, err)] → (failed = None ↔ reads ended log = [None]) →
  script (logErr ← writeScriptOutput logger (lb_buffer (buffered out)) (lb_buffer (buffered err));
          let failed := match failed with Some _ => failed | None => logErr end in
          if lb_exceeded (buffered out) || lb_exceeded (buffered err) then refused "script output exceeded 1 MiB"
          else mret (match failed with Some err => Some (Failure (error_text err)) | None => None end))
    log (λ log' outcome, reads created log' = [name] ∧ script_outcome (log' ++ saw _ (Remove name) tt) outcome).
Proof.
  intros [Hc Hs Hr Hk Ha Hb] Hp He. apply traces_bind, execution_output; [by script_side|].
  intros ev1 ev2 logErr H1 H2 Hl. cbv zeta.
  assert (Hcut : ∀ text, lb_exceeded (buffered out) || lb_exceeded (buffered err) = true →
    script_outcome ((log ++ ev1 ++ ev2) ++ saw _ (Remove name) tt) (Some (Failure text))).
  { intros text Hx. split_and!; simpl_reads; rewrite ?Hc, ?Hr, ?Hk; try done. intros out' err' E _ Hf Ho Hq.
    exfalso. rewrite Hp in E. injection E as <- <-. apply Forall_app in Hf as [F1 F2].
    apply (fits_intro _ F1) in Ho. apply (fits_intro _ F2) in Hq. unfold fits in *. by rewrite Ho, Hq in Hx. }
  destruct (_ || _) eqn:Ex; [split; [simpl_reads; by rewrite Hc|by apply Hcut]|].
  apply orb_false_iff in Ex as [[Eo Lo]%fits_whole [Er Lr]%fits_whole].
  split; [simpl_reads; by rewrite Hc|].
  assert (Hso : accepted "stdout" ((log ++ ev1 ++ ev2) ++ saw _ (Remove name) tt) = accepted "stdout" ev1).
  { rewrite !accepted_app, Ha, (accepted_other _ _ "stderr" "stdout" ev2) by done. cbn. by rewrite !str_app_nil_r. }
  assert (Hse : accepted "stderr" ((log ++ ev1 ++ ev2) ++ saw _ (Remove name) tt) = accepted "stderr" ev2).
  { rewrite !accepted_app, Hb, (accepted_other _ _ "stdout" "stderr" ev1) by done. cbn. by rewrite !str_app_nil_r. }
  unfold script_outcome. rewrite Hso, Hse. rewrite Eo, Er in Hl. simpl_reads. rewrite Hc, Hr, Hk, Hp.
  split_and!; [done|done| |].
  - intros E. destruct failed as [e|]; [done|]. destruct logErr as [e|]; [done|].
    exists out, err. destruct Hl as [Hl _], He as [He _]. destruct (Hl eq_refl). by rewrite He.
  - intros out' err' E Hn _ _ _ E1 E2. injection E as <- <-. destruct He as [_ He], Hl as [_ Hl].
    by rewrite (He Hn), Hl.
Qed.

(** After the process was started. *)
Lemma finish_execution name pid log :
  running name pid log → reads printed log = [] → reads ended log = [] → reads interrupted log = [] →
  script (finish_script pid logger) log (λ log' outcome,
    reads created log' = [name] ∧ script_outcome (log' ++ saw _ (Remove name) tt) outcome).
Proof.
  intros [Hc Hs Hr Hk Ha Hb] Hp He Hi. unfold finish_script. rewrite Hi in Hk.
  next_effect; [by script_side|]. apply traces_bind. destruct b as [err|err].
  - cbn [traces mret prog_mret]. next_effect; [script_side; by rewrite Hs|]. destruct b as [out err'].
    apply (report_execution name pid out err' err).
    + split; rewrite ?accepted_app; simpl_reads; rewrite ?Hc, ?Hs, ?Hr, ?Hk, ?Hi, ?Ha, ?Hb; done.
    + simpl_reads. by rewrite Hp.
    + simpl_reads. rewrite He. cbn. naive_solver.
  - next_effect; [script_side; by rewrite Hs|]. next_effect; [script_side; by rewrite Hs|].
    cbn [traces mret prog_mret]. next_effect; [script_side; by rewrite Hs|]. destruct b1 as [out err'].
    apply (report_execution name pid out err' (Some err)).
    + split; rewrite ?accepted_app; simpl_reads; rewrite ?Hc, ?Hs, ?Hr, ?Hk, ?Hi, ?Ha, ?Hb; done.
    + simpl_reads. by rewrite Hp.
    + simpl_reads. rewrite He. cbn. naive_solver.
Qed.

(** From the creation of the file to the end of the process. *)
Lemma run_execution path name log :
  reads looked log = [path] → reads created log = [name] → reads started log = [] → reads removed log = [] →
  reads private log = [] → reads stored log = [] → reads killed log = [] → reads interrupted log = [] →
  reads printed log = [] → reads ended log = [] → accepted "stdout" log = "" → accepted "stderr" log = "" →
  script (run_script linux t path name logger) log (λ log' outcome,
    reads created log' = [name] ∧ script_outcome (log' ++ saw _ (Remove name) tt) outcome).
Proof.
  intros Hl Hc Hs Hr Hv Hw Hk Hi Hp He Ha Hb. unfold run_script.
  assert (Hfail : ∀ ev text, reads created (log ++ ev) = [name] → reads removed (log ++ ev) = [] →
    reads killed (log ++ ev) = reads interrupted (log ++ ev) → reads printed (log ++ ev) = [] →
    reads created (log ++ ev) = [name] ∧ script_outcome ((log ++ ev) ++ saw _ (Remove name) tt) (Some (Failure text))).
  { intros ev text F1 F2 F3 F4. split; [done|]. apply failed_script; rewrite !reads_app, !reads_one in *; cbn.
    - by rewrite F1, F2.
    - by rewrite F3.
    - by rewrite F4. }
  next_effect; [by script_side; rewrite Hc|]. apply traces_bind. destruct b as [err|].
  { cbn [traces mret prog_mret]. next_effect; [by script_side; rewrite Hc|]. rewrite <- app_assoc. cbn.
    apply Hfail; rewrite ?reads_app; simpl_reads; by rewrite ?Hc, ?Hr, ?Hk, ?Hi, ?Hp. }
  apply traces_effect; [script_side; by rewrite Hc, Hv|]. intros err.
  next_effect; [by script_side; rewrite Hc|]. destruct err as [err|].
  { rewrite <- !app_assoc. cbn. apply Hfail; rewrite ?reads_app; simpl_reads; by rewrite ?Hc, ?Hr, ?Hk, ?Hi, ?Hp. }
  destruct b as [err|].
  { rewrite <- !app_assoc. cbn. apply Hfail; rewrite ?reads_app; simpl_reads; by rewrite ?Hc, ?Hr, ?Hk, ?Hi, ?Hp. }
  next_effect; [by script_side|]. next_effect.
  { script_side. cbn [cmd_Path cmd_Args cmd_Env cmd_SysProcAttr]. rewrite Hl, Hc, Hv, Hw.
    split_and!; try done. apply script_environment. }
  destruct b0 as [pid|err].
  - apply finish_execution; simpl_reads; rewrite ?Hp, ?He, ?Hi; try done.
    split; rewrite ?accepted_app; simpl_reads; rewrite ?Hc, ?Hs, ?Hr, ?Hk, ?Hi, ?Ha, ?Hb; done.
  - rewrite <- !app_assoc. cbn. apply Hfail; rewrite ?reads_app; simpl_reads; by rewrite ?Hc, ?Hr, ?Hk, ?Hi, ?Hp.
Qed.

(** C15: scripts.  Whatever the operating system answers: only a script of an
    enabled language is started, by the interpreter of that language, from a file
    that was made private before the source was written to it, in a process group
    of its own, with no variable of the executor but PATH, HOME and LANG.  The file is
    always removed and the process group killed when the context ends first.  The
    run succeeds exactly when the process did, each of its streams has at most
    1 MiB, and the scheduler accepted all of both in order, in pieces of at most
    64 KiB. *)
Theorem scripts_are_contained :
  script (ScriptHandler linux languages t logger) [] script_outcome.
Proof.
  unfold ScriptHandler. cbv zeta. case_bool_decide as Hl; cbn [negb]; [|by apply failed_script].
  destruct (_ || _); [by apply failed_script|].
  next_effect; [by script_side|]. destruct b as [path|err]; [|by apply failed_script].
  next_effect; [by script_side|]. destruct b as [name|err]; [|by apply failed_script].
  apply traces_bind. eapply traces_mono; [|by apply (run_execution path name)].
  intros log' outcome _ [Hc Ho]. next_effect; [by script_side|]. by destruct b.
Qed.
End script.

(** ** HTTP requests *)

Definition answered : reading (result Response) := λ B eff,
  match eff in os B return B → option (result Response) with HttpDo _ => λ ans, Some ans | _ => λ _, None end.

(** One request is sent, with the identity of the execution. *)
Definition http_request (t : Task) (log : list (event os)) (B : Type) (eff : os B) : Prop :=
  match eff with
  | HttpDo r =>
      reads answered log = [] ∧
      (∃ http, ExecutorServer.tk_HTTP t = Some http ∧ req_Method r = Http_Method http ∧
         req_URL r = Http_Url http ∧ req_Body r = Http_Body http) ∧
      header_get (req_Header r) "Idempotency-Key" = executionID t ∧
      header_get (req_Header r) "X-Go-Scheduler-Execution-ID" = executionID t ∧
      header_get (req_Header r) "X-Go-Scheduler-Run-ID" = ExecutorServer.tk_RunID t ∧
      header_get (req_Header r) "X-Go-Scheduler-Job-ID" = ExecutorServer.tk_JobID t
  | AppendLog _ _ s content => s = "stdout" ∧ 0 < len content ≤ maxLogContent
  | _ => False
  end.

(** The target answered with this status and a body that could be read. *)
Definition answered_with (log : list (event os)) (status : Z) : Prop :=
  ∃ r body, reads answered log = [Ok r] ∧ StatusCode r = status ∧ ReadLimited (Z.shiftl 64 10) (rs_Body r) = Ok body.
Definition http_outcome (log : list (event os)) (outcome : option failure) : Prop :=
  (outcome = Some AwaitingCallback ↔ answered_with log 202) ∧
  (outcome = None ↔ ∃ status, answered_with log status ∧ 200 ≤ status < 300 ∧ status ≠ 202).

Lemma identity_get t h :
  header_get (identity_headers t h) "Idempotency-Key" = executionID t ∧
  header_get (identity_headers t h) "X-Go-Scheduler-Execution-ID" = executionID t ∧
  header_get (identity_headers t h) "X-Go-Scheduler-Run-ID" = ExecutorServer.tk_RunID t ∧
  header_get (identity_headers t h) "X-Go-Scheduler-Job-ID" = ExecutorServer.tk_JobID t.
Proof.
  unfold identity_headers.
  split_and!; repeat (rewrite header_get_other by by vm_compute); apply header_get_set.
Qed.

Lemma failed_request log text :
  (∀ status, ¬ answered_with log status) → http_outcome log (Some (Failure text)).
Proof. intros Hn. split; split; try done; [by intros ?%Hn|]. by intros (status & ?%Hn & _). Qed.
Lemma not_answered log status : reads answered log = [] → ¬ answered_with log status.
Proof. intros E (r & body & E' & _). congruence. Qed.

(** The status decides. *)
Lemma decided log r body status :
  reads answered log = [Ok r] → ReadLimited (Z.shiftl 64 10) (rs_Body r) = Ok body →
  answered_with log status ↔ StatusCode r = status.
Proof.
  intros E Eb. split; [|intros <-; by exists r, body]. intros (r' & body' & E' & <- & _).
  rewrite E in E'. by injection E' as ->.
Qed.

Section http.
Context `{IPLiterals} `{Quoting}.

Lemma read_limited_bound limit s body :
  0 ≤ limit → ReadLimited limit s = Ok body → len body ≤ limit.
Proof.
  intros Hl. unfold ReadLimited. destruct (Z.leb_spec limit (len (sm_bytes s))) as [Hs|Hs]; [|destruct (sm_error s)];
    intros E; simplify_eq; [|lia]. unfold len in *. rewrite length_str_take. lia.
Qed.

(** HTTP jobs.  Whatever headers the job has, the one request that is sent
    carries the identity of the execution, its run and its job; the answer 202 and
    no other leaves the run waiting for a callback, and the run succeeds exactly on
    the other answers from 200 to 299. *)
Theorem http_requests_carry_identity t runID token :
  execution (http_request t) (HTTPHandler t (Some (grpcLogger runID token))) [] http_outcome.
Proof.
  unfold HTTPHandler. destruct (ExecutorServer.tk_HTTP t) as [http|] eqn:Et;
    [|apply failed_request; intros; by apply not_answered].
  destruct (_ || _); [apply failed_request; intros; by apply not_answered|].
  destruct (negb _); [apply failed_request; intros; by apply not_answered|].
  destruct (Parse _) as [u|err]; [|apply failed_request; intros; by apply not_answered].
  next_effect. { split_and!; [done|by exists http|apply identity_get..]. }
  destruct b as [r|err]; [|apply failed_request; intros status (r & body & E & _); by rewrite reads_app, reads_one in E].
  destruct (ReadLimited _ _) as [body|err] eqn:Eb.
  2:{ apply failed_request. intros status (r' & body & E & _ & Eb').
      rewrite reads_app, reads_one in E. injection E as <-. congruence. }
  assert (Hend : ∀ log, reads answered log = [Ok r] →
    execution (http_request t)
      (if StatusCode r =? 202 then mret (Some AwaitingCallback)
       else if (StatusCode r <? 200) || (300 <=? StatusCode r)
       then refused ("HTTP target returned " +:+ Itoa (StatusCode r) +:+ ": "
                     +:+ CompletionStore.CompletionStore.truncate body (Z.to_nat 4096))
       else mret None) log http_outcome).
  { intros log E. pose proof (λ s, decided log r body s E Eb) as Hd. unfold http_outcome.
    destruct (Z.eqb_spec (StatusCode r) 202) as [E2|E2]; cbn [traces mret prog_mret].
    - rewrite Hd. split; [done|]. split; [done|]. intros (s & Hs%Hd & _ & ?). lia.
    - destruct (_ || _) eqn:E3; cbn [traces refused mret prog_mret]; bool_to_prop; rewrite Hd.
      + split; [done|]. split; [done|]. intros (s & Hs%Hd & ? & ?). lia.
      + split; [done|]. split; [|done]. intros _. exists (StatusCode r). rewrite Hd. lia. }
  apply traces_bind. cbn [grpcLogger Info]. destruct (Z.ltb_spec 0 (len body)) as [Hb|Hb]; [|by apply Hend].
  apply read_limited_bound in Eb as Hlen; [|done]. unfold grpc_write. destruct (Z.ltb_spec maxLogContent (len body)).
  { change (Z.shiftl 64 10) with maxLogContent in Hlen. lia. }
  apply traces_effect; [split; [done|lia]|]. intros a. apply Hend. by rewrite reads_app, reads_one.
Qed.
End http.
End HandlerProofs.
