(* ===== verification/Docker.v ===== *)
(** * Containers

    [pkg/executor/docker_unix.go]: the handler that runs a task in a Docker
    container, named and labelled after the execution, and the canceller that
    removes it. *)
From Stdlib Require Import ZArith QArith Lia Ascii String.
From stdpp Require Import base list strings gmap sorting.
From S2P Require Import Prelude GoStrings GoUrl Utf8 Base64 GoJson Tables Proto Programs Traces ExecutorServer Handlers.

Open Scope Z_scope.

Module Docker.
Import GoUrl Base64 GoJson Programs Proto Handlers.

(** Finite numbers of type [float64] are rational. *)
Record DockerDefinition := mk_definition {
  dd_Image : string; dd_Command : list string; dd_Args : list string; dd_Env : gmap string string;
  dd_PullPolicy : string; dd_Network : string; dd_ReadOnlyRoot : option bool; dd_MemoryMB : Z; dd_CPUs : Q;
}.

(** The first JSON value of a text as a definition, without unknown fields, or the
    error; whether anything but white space follows it; the labels of the
    containers that [docker container inspect] printed; [strconv.FormatFloat]. *)
Class DockerFormats := {
  decode_definition : string → result DockerDefinition;
  more_input : string → bool;
  decode_inspection : string → option (list (gmap string string));
  FormatFloat : Q → string;
}.

(** ** Names and definitions *)

(** Runs of other characters than [a-zA-Z0-9_.-] become one hyphen. *)
Definition safe_char (c : ascii) : bool := alnum c || ContainsChar "_.-" c.
Fixpoint safeContainerName (inside : bool) (s : string) : string :=
  match s with
  | EmptyString => ""
  | String c s =>
      if safe_char c then String c (safeContainerName false s)
      else if inside then safeContainerName true s
      else String "-" (safeContainerName true s)
  end.
Definition Trim (s cutset : string) : string :=
  TrimRightFunc (ContainsChar cutset) (TrimLeftFunc (ContainsChar cutset) s).
Definition dockerContainerName (executionID : string) : string :=
  "go-scheduler-" +:+ Trim (safeContainerName false executionID) "-.".

Definition white : string :=
  " " +:+ char_string (ascii_of_nat 9) +:+ char_string (ascii_of_nat 13) +:+ char_string (ascii_of_nat 10).
Definition line_ends : string := char_string (ascii_of_nat 13) +:+ char_string (ascii_of_nat 10).

Definition label (labels : gmap string string) (key : string) : string := default "" (labels !! key).

Section docker.
Context `{DockerFormats}.

Definition parseDockerDefinition (source : string) : result DockerDefinition :=
  match decode_definition source with
  | Err err => Err (wrapped "decode Docker definition" err)
  | Ok d =>
      if more_input source then Err (ErrMsg "docker definition must contain exactly one JSON value")
      else
        let image := TrimSpace (dd_Image d) in
        let policy := if dd_PullPolicy d ==s "" then "if_not_present" else dd_PullPolicy d in
        if (image ==s "") || (512 <? len image) || ContainsAny image white
        then Err (ErrMsg "docker image must be a non-empty reference of at most 512 bytes")
        else if (policy !=s "always") && (policy !=s "if_not_present") && (policy !=s "never")
        then Err (ErrMsg "pull_policy must be always, if_not_present, or never")
        else if (256 <? len (dd_Network d)) || ContainsAny (dd_Network d) white
        then Err (ErrMsg "network must be a Docker network name without whitespace")
        else if (dd_MemoryMB d <? 0) || (1048576 <? dd_MemoryMB d)
                || negb (Qle_bool 0 (dd_CPUs d)) || negb (Qle_bool (dd_CPUs d) 1024)
        then Err (ErrMsg "invalid Docker resource limit")
        else if (256 <? Z.of_nat (length (dd_Command d) + length (dd_Args d)))
                || (128 <? Z.of_nat (size (dd_Env d)))
        then Err (ErrMsg "docker command, arguments, or environment exceeds limits")
        else Ok (mk_definition image (dd_Command d) (dd_Args d) (dd_Env d) policy (dd_Network d)
                   (dd_ReadOnlyRoot d) (dd_MemoryMB d) (dd_CPUs d))
  end.

(** [labels[..] == executionID || labels[..] == "" && labels[run-id] == executionID] *)
Definition validateManagedDockerInspection (raw : string) (t : Task) : option error :=
  match decode_inspection raw with
  | Some [labels] =>
      let identityMatches :=
        (label labels "go-scheduler.execution-id" ==s executionID t)
        || ((label labels "go-scheduler.execution-id" ==s "")
            && (label labels "go-scheduler.run-id" ==s executionID t)) in
      if (label labels "go-scheduler.managed-by" !=s "lihongjie0209") || negb identityMatches
         || (label labels "go-scheduler.job-id" !=s ExecutorServer.tk_JobID t)
      then Some (ErrMsg "docker container name is occupied by an unmanaged or different execution")
      else None
  | _ => Some (ErrMsg "decode Docker container inspection")
  end.

(** ** Arguments *)

#[global] Instance string_leb_dec : RelDecision (λ a b : string, is_true (String.leb a b)).
Proof. intros a b. unfold is_true. apply _. Defined.
(** [sort.Strings] *)
Definition sort_Strings (l : list string) : list string :=
  merge_sort (λ a b, is_true (String.leb a b)) l.

Definition docker_environment (t : Task) (env : gmap string string) : gmap string string :=
  <["SCHEDULER_SHARD_TOTAL" := Itoa (ExecutorServer.tk_BroadcastTotal t)]>
  (<["SCHEDULER_SHARD_INDEX" := Itoa (ExecutorServer.tk_BroadcastIndex t)]>
  (<["SCHEDULER_JOB_ID" := ExecutorServer.tk_JobID t]>
  (<["SCHEDULER_RUN_ID" := ExecutorServer.tk_RunID t]>
  (<["SCHEDULER_INPUT" := ExecutorServer.tk_Input t]> env)))).

Definition docker_labels (t : Task) : list string :=
  ["--label"; "go-scheduler.managed-by=lihongjie0209";
   "--label"; "go-scheduler.execution-id=" +:+ executionID t;
   "--label"; "go-scheduler.run-id=" +:+ ExecutorServer.tk_RunID t;
   "--label"; "go-scheduler.job-id=" +:+ ExecutorServer.tk_JobID t].

Definition docker_options (d : DockerDefinition) : list string :=
  (if dd_Network d !=s "" then ["--network"; dd_Network d] else [])
  ++ (if bool_decide (dd_ReadOnlyRoot d = Some true) then ["--read-only"] else [])
  ++ (if 0 <? dd_MemoryMB d then ["--memory"; Itoa (dd_MemoryMB d) +:+ "m"] else [])
  ++ (if negb (Qle_bool (dd_CPUs d) 0) then ["--cpus"; FormatFloat (dd_CPUs d)] else []).

Definition dockerRunArguments (name : string) (t : Task) (d : DockerDefinition) : list string :=
  let environment := docker_environment t (dd_Env d) in
  let keys := sort_Strings (map_to_list environment).*1 in
  ["run"; "--name"; name] ++ docker_labels t ++ docker_options d
  ++ flat_map (λ key, ["--env"; key +:+ "=" +:+ default "" (environment !! key)]) keys
  ++ [dd_Image d] ++ dd_Command d ++ dd_Args d.

(** ** Commands *)

Definition exec_failure (e : exec_error) : error := ErrMsg (xe_text e).

Definition inspectManagedDockerContainer (binary name : string) (t : Task) : handler (result bool) :=
  o ← effect (RunCommand binary None ["container"; "inspect"; name]);
  let stderr := all_of (ou_stderr o) in
  mret (match ou_error o with
        | Some e =>
            if bool_decide (xe_code e = Some 1)
               && (Contains stderr "No such object" || Contains stderr "No such container")
            then Ok false
            else Err (wrapped "inspect Docker container" (exec_failure e))
        | None =>
            match validateManagedDockerInspection (all_of (ou_stdout o)) t with
            | Some err => Err err
            | None => Ok true
            end
        end).

Definition runDockerCommandWithEnvironment (binary : string) (logger : option TaskLogger)
    (environment : list string) (arguments : list string) : handler (option error) :=
  o ← effect (RunCommand binary (Some environment) arguments);
  let stdout := buffered (ou_stdout o) in
  let stderr := buffered (ou_stderr o) in
  logErr ← writeScriptOutput logger (lb_buffer stdout) (lb_buffer stderr);
  mret (if lb_exceeded stdout || lb_exceeded stderr then Some (ErrMsg "docker output exceeded 1 MiB")
        else match ou_error o with Some e => Some (exec_failure e) | None => logErr end).

Definition runDockerCommand (binary : string) (logger : option TaskLogger) (arguments : list string)
    : handler (option error) :=
  environment ← effect Environ;
  runDockerCommandWithEnvironment binary logger environment arguments.

Definition dockerExitStatus (raw : string) : result Z :=
  match Atoi (TrimSpace raw) with
  | Some exitCode =>
      if (exitCode <? 0) || (255 <? exitCode)
      then Err (ErrMsg "decode existing Docker container exit code") else Ok exitCode
  | None => Err (ErrMsg "decode existing Docker container exit code")
  end.

Definition resumeDockerContainer (binary name : string) (logger : option TaskLogger) : handler (option failure) :=
  o ← effect (RunCommand binary None ["container"; "wait"; name]);
  match ou_error o with
  | Some e => failed (wrapped "wait for existing Docker container" (exec_failure e))
  | None =>
      match dockerExitStatus (all_of (ou_stdout o)) with
      | Err err => failed err
      | Ok exitCode =>
          err ← runDockerCommand binary logger ["container"; "logs"; name];
          match err with
          | Some err => failed (wrapped "read existing Docker container logs" err)
          | None =>
              if negb (exitCode =? 0)
              then refused ("existing Docker container exited with status " +:+ Itoa exitCode)
              else mret None
          end
      end
  end.

(** The file [config.json]: [{"auths":{server:{"auth":..}}}] *)
Definition docker_config (auth : RegistryAccess) : string :=
  "{" +:+ json_field "auths" ("{" +:+ json_field (TrimSpace (ra_Server auth))
    ("{" +:+ json_field "auth" (json_string (EncodeStd (TrimSpace (ra_Username auth) +:+ ":" +:+ ra_Password auth)))
     +:+ "}") +:+ "}") +:+ "}".

(** The environment, and the directory that [cleanup] removes, if any. *)
Definition dockerRegistryEnvironment (auth : option RegistryAccess)
    : handler (result (list string * option string)) :=
  match auth with
  | None => environ ← effect Environ; mret (Ok (environ, None))
  | Some auth =>
      if (TrimSpace (ra_Server auth) ==s "") || (TrimSpace (ra_Username auth) ==s "") || (ra_Password auth ==s "")
      then mret (Err (ErrMsg "docker registry server, username and password are required"))
      else if ContainsAny (ra_Server auth) white || ContainsAny (ra_Username auth) (":" +:+ line_ends)
      then mret (Err (ErrMsg "invalid docker registry server or username"))
      else
        made ← effect (MkdirTemp "go-scheduler-docker-auth-");
        match made with
        | Err err => mret (Err (wrapped "create temporary Docker credentials" err))
        | Ok directory =>
            err ← effect (WriteFile (directory +:+ "/config.json") (docker_config auth));
            match err with
            | Some err =>
                _ ← effect (RemoveAll directory);
                mret (Err (wrapped "write temporary Docker credentials" err))
            | None =>
                environ ← effect Environ;
                mret (Ok (List.filter (λ v, negb (HasPrefix v "DOCKER_CONFIG=")) environ
                            ++ ["DOCKER_CONFIG=" +:+ directory], Some directory))
            end
        end
  end.

(** ** The handler and the canceller *)

Definition pullImage (binary : string) (t : Task) (logger : option TaskLogger) (image : string)
    : handler (option error) :=
  prepared ← dockerRegistryEnvironment (ExecutorServer.tk_DockerRegistryAuth t);
  match prepared with
  | Err authErr => mret (Some authErr)
  | Ok (environment, directory) =>
      err ← runDockerCommandWithEnvironment binary logger environment ["pull"; image];
      _ ← (match directory with Some directory => effect (RemoveAll directory) | None => mret tt end);
      mret err
  end.

(** The image is pulled as the policy says. *)
Definition provide_image (binary : string) (t : Task) (logger : option TaskLogger) (d : DockerDefinition)
    : handler (option error) :=
  if dd_PullPolicy d ==s "always" then pullImage binary t logger (dd_Image d)
  else if dd_PullPolicy d ==s "if_not_present" then
    o ← effect (RunCommand binary None ["image"; "inspect"; dd_Image d]);
    match ou_error o with
    | Some _ => pullImage binary t logger (dd_Image d)
    | None => mret None
    end
  else mret None.

(** Errors of [docker rm --force] are ignored. *)
Definition cleanup (binary name : string) : handler unit :=
  _ ← effect (RunCommand binary None ["rm"; "--force"; name]);
  mret tt.

Definition DockerHandler (binary : string) (t : Task) (logger : option TaskLogger) : handler (option failure) :=
  let binary := if binary ==s "" then "docker" else binary in
  match parseDockerDefinition (ExecutorServer.tk_ScriptSource t) with
  | Err err => failed err
  | Ok d =>
      found ← effect (LookPath binary);
      match found with
      | Err err => failed (wrapped "find docker client" err)
      | Ok _ =>
          let name := dockerContainerName (executionID t) in
          if name ==s "go-scheduler-" then refused "run ID cannot form a container name"
          else
            inspected ← inspectManagedDockerContainer binary name t;
            match inspected with
            | Err err => failed err
            | Ok true =>
                outcome ← resumeDockerContainer binary name logger;
                _ ← cleanup binary name;
                mret outcome
            | Ok false =>
                err ← provide_image binary t logger d;
                match err with
                | Some err => failed (wrapped "pull image" err)
                | None =>
                    err ← runDockerCommand binary logger (dockerRunArguments name t d);
                    _ ← cleanup binary name;
                    match err with
                    | Some err => failed (wrapped "run container" err)
                    | None => mret None
                    end
                end
            end
      end
  end.

Definition DockerCanceller (binary : string) (c : ExecutorServer.ExternalCancellation) : handler (option error) :=
  let binary := if binary ==s "" then "docker" else binary in
  if (ExecutorServer.xc_RunID c ==s "") || (ExecutorServer.xc_ExternalExecutionID c ==s "")
     || (ExecutorServer.xc_JobID c ==s "")
  then mret (Some (ErrMsg "run, external execution, and job IDs are required for Docker cancellation"))
  else
    found ← effect (LookPath binary);
    match found with
    | Err err => mret (Some (wrapped "find docker client" err))
    | Ok _ =>
        let name := dockerContainerName (ExecutorServer.xc_ExternalExecutionID c) in
        if name ==s "go-scheduler-"
        then mret (Some (ErrMsg "external execution ID cannot form a container name"))
        else
          let t := mk_task (ExecutorServer.xc_RunID c) (ExecutorServer.xc_JobID c) "" ""
                     (ExecutorServer.xc_ExternalExecutionID c) "" "" None None None 0 0 in
          inspected ← inspectManagedDockerContainer binary name t;
          match inspected with
          | Err err => mret (Some err)
          | Ok false => mret None
          | Ok true =>
              o ← effect (RunCommand binary None ["rm"; "--force"; name]);
              mret (match ou_error o with
                    | Some e => Some (wrapped "remove managed Docker container" (exec_failure e))
                    | None => None
                    end)
          end
    end.
End docker.
End Docker.

(** * Containers: theorems

    Which commands the Docker handler and canceller give, after which answers, and
    how the labels of a container identify the execution it belongs to. *)

Open Scope Z_scope.

Module DockerProofs.
Import GoUrl Utf8 Programs Traces Proto Handlers HandlerProofs Docker.

(** ** Events *)

Definition commands : reading (list string * output) := λ B eff,
  match eff in os B return B → option (list string * output) with
  | RunCommand _ _ args => λ o, Some (args, o)
  | _ => λ _, None
  end.
(** Directories with credentials that were made, and that were removed. *)
Definition made : reading string := λ B eff,
  match eff in os B return B → option string with
  | MkdirTemp _ => λ ans, match ans with Ok name => Some name | Err _ => None end
  | _ => λ _, None
  end.
Definition dropped : reading string := λ B eff,
  match eff in os B return B → option string with RemoveAll name => λ _, Some name | _ => λ _, None end.

Definition inspect_container (name : string) : list string := ["container"; "inspect"; name].
Definition wait_container (name : string) : list string := ["container"; "wait"; name].
Definition container_logs (name : string) : list string := ["container"; "logs"; name].
Definition inspect_image (image : string) : list string := ["image"; "inspect"; image].
Definition pull_image (image : string) : list string := ["pull"; image].
Definition remove_container (name : string) : list string := ["rm"; "--force"; name].

Section docker.
Context `{DockerFormats}.

(** An inspection showed a container of the execution, or that there is none. *)
Definition verified (t : Task) (name : string) (log : list (event os)) : Prop :=
  ∃ o, (inspect_container name, o) ∈ reads commands log ∧ ou_error o = None ∧
    validateManagedDockerInspection (all_of (ou_stdout o)) t = None.
Definition absent (name : string) (log : list (event os)) : Prop :=
  ∃ o e, (inspect_container name, o) ∈ reads commands log ∧ ou_error o = Some e ∧ xe_code e = Some 1 ∧
    (Contains (all_of (ou_stderr o)) "No such object" || Contains (all_of (ou_stderr o)) "No such container") = true.
(** The command was given. *)
Definition given (args : list string) (log : list (event os)) : Prop := args ∈ (reads commands log).*1.

Lemma verified_app t name l k : verified t name l → verified t name (l ++ k).
Proof. intros (o & Ho & R). exists o. split; [rewrite reads_app; set_solver|done]. Qed.
Lemma absent_app name l k : absent name l → absent name (l ++ k).
Proof. intros (o & e & Ho & R). exists o, e. split; [rewrite reads_app; set_solver|done]. Qed.

(** The environment of commands, for their credentials. *)
Definition docker_request (binary : string) (t : Task) (d : DockerDefinition) (runID token : string)
    (log : list (event os)) (B : Type) (eff : os B) : Prop :=
  let name := dockerContainerName (executionID t) in
  match eff with
  | LookPath file => file = binary
  | Environ | MkdirTemp _ => True
  | WriteFile path content =>
      ∃ auth dir, ExecutorServer.tk_DockerRegistryAuth t = Some auth ∧ reads made log = [dir] ∧
        path = dir +:+ "/config.json" ∧ content = docker_config auth
  | RemoveAll path => reads made log = [path]
  | AppendLog r k _ content => r = runID ∧ k = token ∧ 0 < len content ≤ maxLogContent
  | RunCommand b _ args =>
      b = binary ∧ name ≠ "go-scheduler-" ∧
      (args = inspect_container name ∨
       (args = wait_container name ∨ args = container_logs name) ∧ verified t name log ∨
       (args = inspect_image (dd_Image d) ∨ args = pull_image (dd_Image d)) ∧ absent name log ∨
       args = dockerRunArguments name t d ∧ absent name log ∧ ¬ given args log ∧ reads dropped log = reads made log ∨
       args = remove_container name ∧
         (verified t name log ∨ absent name log ∧ given (dockerRunArguments name t d) log))
  | _ => False
  end.

(** What a command printed is the last that was logged. *)
Definition logged_last (o : output) (log : list (event os)) : Prop :=
  (∃ before, accepted "stdout" log = before +:+ all_of (ou_stdout o)) ∧
  (∃ before, accepted "stderr" log = before +:+ all_of (ou_stderr o)).

Definition docker_outcome (t : Task) (d : DockerDefinition) (log : list (event os)) (outcome : option failure) : Prop :=
  let name := dockerContainerName (executionID t) in
  let run := dockerRunArguments name t d in
  reads dropped log = reads made log ∧
  (verified t name log ∨ given run log → last (reads commands log).*1 = Some (remove_container name)) ∧
  (outcome = None →
     (verified t name log ∧ ∃ o o', (wait_container name, o) ∈ reads commands log ∧
        ou_error o = None ∧ dockerExitStatus (all_of (ou_stdout o)) = Ok 0 ∧
        (container_logs name, o') ∈ reads commands log ∧ logged_last o' log) ∨
     (absent name log ∧ ∃ o, (run, o) ∈ reads commands log ∧ ou_error o = None ∧ logged_last o log)).

Section executions.
Context (binary : string) (t : Task) (d : DockerDefinition) (runID token : string).
Notation logger := (Some (grpcLogger runID token)).
Notation docker := (execution (docker_request binary t d runID token)).
Notation name := (dockerContainerName (executionID t)).
Notation run_arguments := (dockerRunArguments name t d).
Context (Hname : name ≠ "go-scheduler-").

Ltac docker_side := unfold docker_request; cbv zeta; simpl_reads.

Lemma command_execution environment args log (Q : list (event os) → option error → Prop) :
  docker_request binary t d runID token log _ (RunCommand binary (Some environment) args) →
  (∀ o ev1 ev2 err, Forall (log_event runID token "stdout") ev1 → Forall (log_event runID token "stderr") ev2 →
     (err = None → ou_error o = None ∧ accepted "stdout" ev1 = all_of (ou_stdout o) ∧
                   accepted "stderr" ev2 = all_of (ou_stderr o)) →
     Q ((log ++ saw _ (RunCommand binary (Some environment) args) o) ++ ev1 ++ ev2) err) →
  docker (runDockerCommandWithEnvironment binary logger environment args) log Q.
Proof.
  intros Hp HQ. unfold runDockerCommandWithEnvironment. next_effect; [done|].
  apply traces_bind, execution_output; [by docker_side|]. intros ev1 ev2 err H1 H2 He.
  cbn [traces mret prog_mret]. apply HQ; [done..|]. destruct (_ || _) eqn:Ex; [done|].
  apply orb_false_iff in Ex as [[Eo _]%fits_whole [Er _]%fits_whole]. rewrite Eo, Er in He.
  destruct (ou_error b); [done|]. intros ->. by split; [|apply He].
Qed.

(** Events that prepare an image: they neither start nor remove containers and
    leave no credentials behind. *)
Definition preparing (ev : list (event os)) : Prop :=
  Forall (λ c, c.1 = inspect_image (dd_Image d) ∨ c.1 = pull_image (dd_Image d)) (reads commands ev) ∧
  reads dropped ev = reads made ev.

Lemma pull_execution log (Q : list (event os) → option error → Prop) :
  absent name log → reads made log = [] →
  (∀ ev err, preparing ev → Q (log ++ ev) err) →
  docker (pullImage binary t logger (dd_Image d)) log Q.
Proof.
  intros Ha Hm HQ. unfold pullImage. apply traces_bind. unfold dockerRegistryEnvironment.
  assert (Hpull : ∀ log' ev, log' = log ++ ev → docker_request binary t d runID token log' _
    (RunCommand binary (Some []) ["pull"; dd_Image d])).
  { intros log' ev ->. docker_side. split_and!; try done. right; right; left. split; [by right|by apply absent_app]. }
  destruct (ExecutorServer.tk_DockerRegistryAuth t) as [auth|] eqn:Et.
  - destruct (_ || _); [rewrite <- (app_nil_r log); apply HQ; by split|].
    destruct (_ || _); [rewrite <- (app_nil_r log); apply HQ; by split|].
    next_effect; [done|]. destruct b as [dir|err]; [|cbn; apply HQ; by split].
    next_effect; [docker_side; exists auth, dir; by rewrite Hm|]. destruct b as [err|].
    { next_effect; [docker_side; by rewrite Hm|]. cbn [traces mret prog_mret]. rewrite <- !app_assoc. apply HQ.
      split; simpl_reads; done. }
    next_effect; [done|]. cbn [traces mret prog_mret]. apply traces_bind, command_execution.
    { rewrite <- !app_assoc. by eapply Hpull. }
    intros o ev1 ev2 err H1 H2 _. next_effect; [docker_side; by rewrite Hm|]. cbn [traces mret prog_mret].
    rewrite <- !app_assoc. apply HQ. split; simpl_reads; [|done]. constructor; [by right|constructor].
  - next_effect; [done|]. cbn [traces mret prog_mret]. apply traces_bind, command_execution; [by eapply Hpull|].
    intros o ev1 ev2 err H1 H2 _. cbn [traces mret prog_mret mbind prog_mbind prog_bind].
    rewrite <- !app_assoc. apply HQ. split; simpl_reads; [|done]. constructor; [by right|constructor].
Qed.

Lemma provide_execution log (Q : list (event os) → option error → Prop) :
  absent name log → reads made log = [] →
  (∀ ev err, preparing ev → Q (log ++ ev) err) →
  docker (provide_image binary t logger d) log Q.
Proof.
  intros Ha Hm HQ. unfold provide_image. case_match; [by apply pull_execution|].
  case_match; [|cbn; rewrite <- (app_nil_r log); by apply HQ].
  next_effect. { docker_side. split_and!; try done. right; right; left. split; [by left|done]. }
  destruct (ou_error b).
  - apply pull_execution; [by apply absent_app|simpl_reads; by rewrite Hm|]. intros ev err [He Hd].
    rewrite <- app_assoc. apply HQ. split; simpl_reads; [|done]. constructor; [by left|done].
  - cbn [traces mret prog_mret]. apply HQ. split; simpl_reads; [|done]. constructor; [by left|constructor].
Qed.

Lemma logged_intro o log ev1 ev2 :
  Forall (log_event runID token "stdout") ev1 → Forall (log_event runID token "stderr") ev2 →
  accepted "stdout" ev1 = all_of (ou_stdout o) → accepted "stderr" ev2 = all_of (ou_stderr o) →
  logged_last o (log ++ ev1 ++ ev2).
Proof.
  intros H1 H2 E1 E2. split; rewrite !accepted_app.
  - rewrite E1, (accepted_other _ _ "stderr" "stdout" ev2), str_app_nil_r by done. by eexists.
  - rewrite E2, (accepted_other _ _ "stdout" "stderr" ev1) by done. by eexists.
Qed.
Lemma logged_command o log args o' :
  logged_last o log → logged_last o (log ++ saw _ (RunCommand binary None args) o').
Proof.
  intros [[b1 E1] [b2 E2]]. split; rewrite accepted_app; [rewrite E1; exists b1|rewrite E2; exists b2];
    cbn; by rewrite str_app_nil_r.
Qed.

Lemma resume_execution log :
  verified t name log →
  docker (resumeDockerContainer binary name logger) log (λ log' outcome, ∃ ev, log' = log ++ ev ∧
    reads made ev = [] ∧ reads dropped ev = [] ∧
    (outcome = None → ∃ o o', (wait_container name, o) ∈ reads commands ev ∧
       ou_error o = None ∧ dockerExitStatus (all_of (ou_stdout o)) = Ok 0 ∧
       (container_logs name, o') ∈ reads commands ev ∧ logged_last o' log')).
Proof.
  intros Hv. unfold resumeDockerContainer.
  next_effect. { docker_side. split_and!; try done. right; left. split; [by left|done]. }
  assert (Hfail : ∀ text, ∃ ev, log ++ saw _ (RunCommand binary None (wait_container name)) b = log ++ ev ∧
    reads made ev = [] ∧ reads dropped ev = [] ∧ (Some (Failure text) = None → ∃ o o',
      (wait_container name, o) ∈ reads commands ev ∧ ou_error o = None ∧
      dockerExitStatus (all_of (ou_stdout o)) = Ok 0 ∧ (container_logs name, o') ∈ reads commands ev ∧
      logged_last o' (log ++ saw _ (RunCommand binary None (wait_container name)) b))) by by eexists.
  destruct (ou_error b) eqn:Eb; [apply Hfail|]. destruct (dockerExitStatus _) as [exitCode|err] eqn:Ex; [|apply Hfail].
  clear Hfail. apply traces_bind. unfold runDockerCommand. next_effect; [done|]. apply command_execution.
  { docker_side. split_and!; try done. right; left. split; [by right|]. by do 2 apply verified_app. }
  intros o ev1 ev2 err H1 H2 He.
  set (log' := _ ++ ev1 ++ ev2). assert (Hlog : err = None → logged_last o log').
  { intros (_ & E1 & E2)%He. by apply logged_intro. }
  assert (Hev : ∀ outcome, (outcome = None → err = None ∧ exitCode = 0) → ∃ ev, log' = log ++ ev ∧
    reads made ev = [] ∧ reads dropped ev = [] ∧ (outcome = (None : option failure) → ∃ o o',
      (wait_container name, o) ∈ reads commands ev ∧ ou_error o = None ∧
      dockerExitStatus (all_of (ou_stdout o)) = Ok 0 ∧ (container_logs name, o') ∈ reads commands ev ∧
      logged_last o' log')).
  { intros outcome Hok. unfold log' at 1. rewrite <- !app_assoc. eexists. split; [done|].
    split; [by simpl_reads|]. split; [by simpl_reads|]. intros [-> ->]%Hok. exists b, o.
    split_and!; try done; [simpl_reads; set_solver..|by apply Hlog]. }
  destruct err as [err|]; [|destruct (Z.eqb_spec exitCode 0)]; cbn [traces failed refused mret prog_mret negb];
    apply Hev; naive_solver.
Qed.

End executions.

(** What an inspection answered. *)
Section inspections.
Context (t : Task).
Notation name := (dockerContainerName (executionID t)).
Definition inspection (o : output) : result bool :=
  match ou_error o with
  | Some e =>
      if bool_decide (xe_code e = Some 1)
         && (Contains (all_of (ou_stderr o)) "No such object" || Contains (all_of (ou_stderr o)) "No such container")
      then Ok false
      else Err (wrapped "inspect Docker container" (exec_failure e))
  | None =>
      match validateManagedDockerInspection (all_of (ou_stdout o)) t with
      | Some err => Err err
      | None => Ok true
      end
  end.

Lemma inspection_tells o log :
  reads commands log = [(inspect_container name, o)] →
  (inspection o = Ok true → verified t name log) ∧ (inspection o = Ok false → absent name log) ∧
  (verified t name log → inspection o = Ok true).
Proof.
  intros E. unfold inspection. split_and!.
  - destruct (ou_error o) eqn:Eo; [by case_match|]. destruct (validateManagedDockerInspection _ _) eqn:Ev; [done|].
    intros _. exists o. rewrite E. set_solver.
  - destruct (ou_error o) as [e|] eqn:Eo; [|by case_match]. case_match eqn:Eb; [|done].
    apply andb_true_iff in Eb as [Hc%bool_decide_eq_true Hm]. intros _. exists o, e. rewrite E. set_solver.
  - intros (o' & Ho & En & Ev). rewrite E in Ho. apply list_elem_of_singleton in Ho. injection Ho as ->.
    by rewrite En, Ev.
Qed.

Lemma preparing_commands d log o ev :
  reads commands log = [(inspect_container name, o)] → preparing d ev →
  (verified t name (log ++ ev) → verified t name log) ∧ ¬ given (dockerRunArguments name t d) (log ++ ev).
Proof.
  intros E [He _]. split.
  - intros (o' & Ho & R). exists o'. split; [|done]. rewrite reads_app in Ho.
    apply elem_of_app in Ho as [Ho|Ho]; [done|]. rewrite Forall_forall in He.
    by destruct (He _ Ho).
  - unfold given. rewrite reads_app, fmap_app, E. intros [Ho|Ho]%elem_of_app.
    + by apply list_elem_of_singleton in Ho.
    + apply list_elem_of_fmap in Ho as ([a o'] & Ea & Ho). rewrite Forall_forall in He.
      destruct (He _ Ho) as [Eq|Eq]; cbn in *; by rewrite Eq in Ea.
Qed.
End inspections.

(** The Docker client, [docker] unless another is configured. *)
Definition client (binary : string) : string := if binary ==s "" then "docker" else binary.

(** What the canceller may ask for, and what it reports. *)
Definition cancel_request (binary : string) (t : Task) (log : list (event os)) (B : Type) (eff : os B) : Prop :=
  let name := dockerContainerName (executionID t) in
  match eff with
  | LookPath file => file = binary
  | RunCommand b _ args =>
      b = binary ∧ (args = inspect_container name ∨ args = remove_container name ∧ verified t name log)
  | _ => False
  end.
Definition cancel_outcome (t : Task) (log : list (event os)) (r : option error) : Prop :=
  let name := dockerContainerName (executionID t) in
  r = None → absent name log ∨
    ∃ o, (remove_container name, o) ∈ reads commands log ∧ ou_error o = None.
Definition cancelled_task (c : ExecutorServer.ExternalCancellation) : Task :=
  mk_task (ExecutorServer.xc_RunID c) (ExecutorServer.xc_JobID c) "" ""
    (ExecutorServer.xc_ExternalExecutionID c) "" "" None None None 0 0.

Lemma cancel_execution binary c :
  execution (cancel_request (client binary) (cancelled_task c)) (DockerCanceller binary c) []
    (cancel_outcome (cancelled_task c)).
Proof.
  unfold DockerCanceller. fold (client binary). cbv zeta. destruct (_ || _) eqn:Er; [done|].
  next_effect; [done|]. destruct b as [path|err]; [|done].
  assert (Ei : executionID (cancelled_task c) = ExecutorServer.xc_ExternalExecutionID c).
  { unfold executionID, cancelled_task. cbn. bool_to_prop. by rewrite (proj2 (String.eqb_neq _ _)) by tauto. }
  destruct (_ ==s "go-scheduler-"); [done|]. fold (cancelled_task c). unfold inspectManagedDockerContainer.
  apply traces_bind. rewrite <- Ei.
  next_effect; [by split; [|left]|]. cbn [traces mret prog_mret]. fold (inspection (cancelled_task c) b).
  set (log := _ ++ saw _ (RunCommand _ _ _) _).
  destruct (inspection_tells (cancelled_task c) b log) as (Ht & Hf & _); [done|].
  destruct (inspection (cancelled_task c) b) as [[|]|err]; cbn [traces mret prog_mret]; [|by left; apply Hf|done].
  next_effect; [split; [done|]; right; split; [done|by apply Ht]|]. cbn [traces mret prog_mret].
  destruct (ou_error b0) eqn:Eo; [done|]. intros _. right. exists b0. split; [|done]. simpl_reads. set_solver.
Qed.

Section handler.
Context (binary : string) (t : Task) (d : DockerDefinition) (runID token : string).
Notation logger := (Some (grpcLogger runID token)).
Notation docker := (execution (docker_request binary t d runID token)).
Notation name := (dockerContainerName (executionID t)).
Notation run_arguments := (dockerRunArguments name t d).
Context (Hname : name ≠ "go-scheduler-").

Lemma failed_docker log text :
  reads dropped log = reads made log → ¬ verified t name log → ¬ given run_arguments log →
  docker_outcome t d log (Some (Failure text)).
Proof. intros. split; [done|]. split; [tauto|done]. Qed.

Lemma last_command log o :
  last (reads commands (log ++ saw _ (RunCommand binary None (remove_container name)) o)).*1 =
  Some (remove_container name).
Proof. rewrite reads_app, fmap_app, reads_one. cbn. by rewrite last_snoc. Qed.

Lemma resumed_execution log :
  verified t name log → reads made log = [] → reads dropped log = [] →
  docker (outcome ← resumeDockerContainer binary name logger; _ ← cleanup binary name; mret outcome) log
    (docker_outcome t d).
Proof.
  intros Hv Hm Hd. apply traces_bind. eapply traces_mono; [|by apply resume_execution].
  intros log' outcome _ (ev & -> & Em & Ed & Ho). unfold cleanup. apply traces_bind. next_effect.
  { split_and!; try done. do 4 right. split; [done|]. left. by apply verified_app. }
  cbn [traces mret prog_mret]. split; [|split].
  - rewrite !reads_app, !reads_one, Em, Ed. cbn. by rewrite Hm, Hd.
  - intros _. apply last_command.
  - intros (o & o' & H1 & H2 & H3 & H4 & H5)%Ho. left. split; [by do 2 apply verified_app|].
    exists o, o'. rewrite !reads_app. split_and!; try done; [set_solver..|by apply logged_command].
Qed.

Lemma fresh_execution log o :
  absent name log → ¬ verified t name log → reads commands log = [(inspect_container name, o)] →
  reads made log = [] → reads dropped log = [] →
  docker (err ← provide_image binary t logger d;
          match err with
          | Some err => failed (wrapped "pull image" err)
          | None =>
              err ← runDockerCommand binary logger run_arguments;
              _ ← cleanup binary name;
              match err with
              | Some err => failed (wrapped "run container" err)
              | None => mret None
              end
          end) log (docker_outcome t d).
Proof.
  intros Ha Hv Hc Hm Hd. apply traces_bind, provide_execution; [done..|]. intros ev err Hp.
  destruct (preparing_commands t d log o ev Hc Hp) as [Hver Hrun].
  assert (Hcred : reads dropped (log ++ ev) = reads made (log ++ ev)).
  { rewrite !reads_app, Hm, Hd. apply Hp. }
  destruct err as [err|]; [apply failed_docker; [done|tauto|done]|].
  apply traces_bind. unfold runDockerCommand. next_effect; [done|]. apply command_execution.
  { split_and!; try done. do 3 right. left. split; [done|]. split; [by do 2 apply absent_app|].
    unfold given in *. rewrite !(reads_app _ (log ++ ev)), fmap_app, !reads_one, !app_nil_r. by split. }
  intros o' ev1 ev2 err H1 H2 He. unfold cleanup. apply traces_bind.
  set (log' := ((log ++ ev) ++ saw _ Environ b) ++ saw _ (RunCommand binary (Some b) run_arguments) o').
  assert (Hin : (run_arguments, o') ∈ reads commands (log' ++ ev1 ++ ev2)).
  { unfold log'. rewrite !(reads_app _ _ (ev1 ++ ev2)), (reads_app _ _ (saw _ (RunCommand _ _ _) _)), reads_one. set_solver. }
  assert (Habs : absent name (log' ++ ev1 ++ ev2)) by (unfold log'; by repeat apply absent_app).
  next_effect.
  { split_and!; try done. do 4 right. split; [done|]. right. split; [done|].
    unfold given. apply list_elem_of_fmap. by exists (run_arguments, o'). }
  assert (Hcred' : reads dropped ((log' ++ ev1 ++ ev2) ++ saw _ (RunCommand binary None (remove_container name)) b0) =
                   reads made ((log' ++ ev1 ++ ev2) ++ saw _ (RunCommand binary None (remove_container name)) b0)).
  { unfold log'. rewrite (reads_app dropped), (reads_app made), (reads_app dropped _ (ev1 ++ ev2)), (reads_app made _ (ev1 ++ ev2)).
    rewrite (reads_app dropped _ (saw _ (RunCommand _ _ _) _)), (reads_app made _ (saw _ (RunCommand _ _ _) _)).
    rewrite (reads_app dropped _ (saw _ Environ _)), (reads_app made _ (saw _ Environ _)), Hcred. simpl_reads. done. }
  destruct err as [err|]; cbn [traces failed mret prog_mret]; (split; [exact Hcred'|]; split; [intros _; apply last_command|]).
  - done.
  - intros _. right. split; [by apply absent_app|]. exists o'. destruct (He eq_refl) as (E0 & E1 & E2). split_and!; try done.
    + rewrite reads_app. set_solver.
    + apply logged_command. by apply (logged_intro runID token).
Qed.
End handler.

Lemma handler_execution binary t d runID token :
  parseDockerDefinition (ExecutorServer.tk_ScriptSource t) = Ok d →
  execution (docker_request (client binary) t d runID token) (DockerHandler binary t (Some (grpcLogger runID token))) []
    (docker_outcome t d).
Proof.
  intros Ed. unfold DockerHandler. rewrite Ed. fold (client binary). cbv zeta.
  assert (Hnone : ∀ log text, reads dropped log = [] → reads made log = [] → reads commands log = [] →
    docker_outcome t d log (Some (Failure text))).
  { intros log text E1 E2 E. apply failed_docker; [congruence|intros (o & Ho & _)|unfold given; rewrite E; apply not_elem_of_nil].
    rewrite E in Ho. by apply not_elem_of_nil in Ho. }
  next_effect; [done|]. destruct b as [path|err]; [|by apply Hnone].
  destruct (_ ==s "go-scheduler-") eqn:En; [by apply Hnone|]. bool_to_prop.
  apply traces_bind. unfold inspectManagedDockerContainer. next_effect; [by split_and!; [..|left]|].
  cbn [traces mret prog_mret]. fold (inspection t b). set (log := _ ++ saw _ (RunCommand _ _ _) _).
  destruct (inspection_tells t b log) as (Ht & Hf & Hv); [done|].
  destruct (inspection t b) as [[|]|err].
  - by apply resumed_execution; [|apply Ht|..].
  - eapply fresh_execution; [done|by apply Hf|by intros ?%Hv|done..].
  - apply failed_docker; [done|by intros ?%Hv|]. unfold given. change (reads commands log) with [(inspect_container (dockerContainerName (executionID t)), b)].
    by intros ?%list_elem_of_singleton.
Qed.

(** C16: containers.  Whatever the Docker client answers, the handler and the
    canceller only wait for, read, or remove a container of the execution's name
    after an inspection showed that it belongs to this execution and job, or after
    there was none and the handler asked for it itself, once.  A container the
    handler found or asked for is removed at the end, credentials for the registry
    are removed before anything is run, and a run succeeds only if its container
    ended with status 0 and all of its output was accepted by the scheduler. *)
Theorem containers_are_guarded binary t runID token :
  match parseDockerDefinition (ExecutorServer.tk_ScriptSource t) with
  | Ok d =>
      execution (docker_request (client binary) t d runID token)
        (DockerHandler binary t (Some (grpcLogger runID token))) [] (docker_outcome t d)
  | Err err => DockerHandler binary t (Some (grpcLogger runID token)) = failed err
  end ∧
  ∀ c, execution (cancel_request (client binary) (cancelled_task c)) (DockerCanceller binary c) []
         (cancel_outcome (cancelled_task c)).
Proof.
  split; [|intros c; apply cancel_execution].
  destruct (parseDockerDefinition _) as [d|err] eqn:Ed; [by apply handler_execution|].
  unfold DockerHandler. by rewrite Ed.
Qed.
End docker.
End DockerProofs.

(** * Arguments of [docker run]

    The arguments that the Docker handler builds, read the way the Docker client
    documents: options with their values up to the first argument that is none,
    which is the image. *)

Open Scope Z_scope.

Module DockerArguments.
Import GoUrl Utf8 Proto Handlers Docker.

(** ** The command line of Docker *)

(** The options with a value that the handler uses; any other option is a flag. *)
Definition valued (option : string) : bool :=
  bool_decide (option ∈ ["--name"; "--label"; "--network"; "--memory"; "--cpus"; "--env"]).

(** The options, and the image with the command that follows it. *)
Fixpoint read_options (args : list string) : list (string * string) * list string :=
  match args with
  | [] => ([], [])
  | a :: rest =>
      if valued a then
        match rest with
        | v :: rest => let '(options, command) := read_options rest in ((a, v) :: options, command)
        | [] => ([], [])
        end
      else if HasPrefix a "-" then let '(options, command) := read_options rest in ((a, "") :: options, command)
      else ([], a :: rest)
  end.

(** The values of an option of the form [key=value], as a map: the last one wins. *)
Definition set_pair (m : gmap string string) (kv : string) : gmap string string :=
  match Cut kv "=" with
  | (key, Some value) => <[key := value]> m
  | (key, None) => <[key := ""]> m
  end.
Definition values (option : string) (options : list (string * string)) : list string :=
  map snd (List.filter (λ ov, ov.1 ==s option) options).
Definition pairs (option : string) (options : list (string * string)) : gmap string string :=
  foldl set_pair ∅ (values option options).

(** ** Reading back *)

Lemma read_valued a v rest options command :
  valued a = true → read_options rest = (options, command) →
  read_options (a :: v :: rest) = ((a, v) :: options, command).
Proof. intros Ha E. cbn [read_options]. by rewrite Ha, E. Qed.

Lemma read_flag a rest options command :
  valued a = false → HasPrefix a "-" = true → read_options rest = (options, command) →
  read_options (a :: rest) = ((a, "") :: options, command).
Proof. intros Ha Hp E. cbn [read_options]. by rewrite Ha, Hp, E. Qed.

Lemma Cut_first key value : ContainsChar key "=" = false → Cut (key +:+ "=" +:+ value) "=" = (key, Some value).
Proof.
  unfold ContainsChar. induction key as [|c key IH]; cbn [exists_char]; [done|].
  intros [Hc Hk]%orb_false_iff. rewrite app_cons. cbn [Cut]. rewrite (Ascii.eqb_sym c "=") in *.
  rewrite Hc. by rewrite (IH Hk).
Qed.

Lemma values_app option l k : values option (l ++ k) = values option l ++ values option k.
Proof. unfold values. by rewrite List.filter_app, map_app. Qed.

Section arguments.
Context `{DockerFormats} (t : Task) (d : DockerDefinition) (name : string).

Definition label_pairs : list (string * string) :=
  map (λ v, ("--label", v)) ["go-scheduler.managed-by=lihongjie0209"; "go-scheduler.execution-id=" +:+ executionID t;
    "go-scheduler.run-id=" +:+ ExecutorServer.tk_RunID t; "go-scheduler.job-id=" +:+ ExecutorServer.tk_JobID t].
Definition option_pairs : list (string * string) :=
  (if dd_Network d !=s "" then [("--network", dd_Network d)] else [])
  ++ (if bool_decide (dd_ReadOnlyRoot d = Some true) then [("--read-only", "")] else [])
  ++ (if 0 <? dd_MemoryMB d then [("--memory", Itoa (dd_MemoryMB d) +:+ "m")] else [])
  ++ (if negb (Qle_bool (dd_CPUs d) 0) then [("--cpus", FormatFloat (dd_CPUs d))] else []).
Definition variables : list (string * string) :=
  let environment := docker_environment t (dd_Env d) in
  map (λ key, (key, default "" (environment !! key))) (sort_Strings (map_to_list environment).*1).
Definition all_options : list (string * string) :=
  ("--name", name) :: label_pairs ++ option_pairs ++ map (λ kv, ("--env", kv.1 +:+ "=" +:+ kv.2)) variables.

(** The options are read back; what follows is read as image and command if the
    image is not an option itself. *)
Lemma read_arguments rest :
  let tail := read_options (dd_Image d :: rest) in
  rest = dd_Command d ++ dd_Args d →
  read_options (tl (dockerRunArguments name t d)) = (all_options ++ tail.1, tail.2).
Proof.
  intros tail ->. unfold dockerRunArguments, all_options, label_pairs, docker_labels. cbv zeta.
  cbn [app tl map]. do 5 (apply read_valued; [done|]). unfold docker_options, option_pairs.
  set (env := flat_map _ _). assert (Henv : read_options (env ++ [dd_Image d] ++ dd_Command d ++ dd_Args d) =
    (map (λ kv, ("--env", kv.1 +:+ "=" +:+ kv.2)) variables ++ tail.1, tail.2)).
  { unfold env, variables. cbv zeta. generalize (sort_Strings (map_to_list (docker_environment t (dd_Env d))).*1).
    induction l as [|key l IH]; [exact (surjective_pairing tail)|]. cbn [flat_map app map]. apply read_valued; [done|exact IH]. }
  destruct (dd_Network d !=s ""), (bool_decide _), (0 <? dd_MemoryMB d), (negb _); cbn [app];
    repeat first [apply read_valued; [done|] | apply read_flag; [done|done|]]; exact Henv.
Qed.

(** ** The maps *)

Lemma values_env : values "--env" (all_options) = map (λ kv, kv.1 +:+ "=" +:+ kv.2) variables.
Proof.
  unfold all_options. change (("--name", name) :: ?l) with ([("--name", name)] ++ l). rewrite !values_app.
  replace (values "--env" option_pairs) with (@nil string)
    by (unfold option_pairs; repeat case_match; done).
  cbn -[variables]. unfold values. induction variables as [|kv l IH]; [done|]. cbn. by rewrite IH.
Qed.

Lemma sorted_keys (l : list string) : sort_Strings l ≡ₚ l.
Proof. apply merge_sort_Permutation. Qed.

Lemma variables_keys : variables.*1 = sort_Strings (map_to_list (docker_environment t (dd_Env d))).*1.
Proof. unfold variables. cbv zeta. rewrite <- list_fmap_compose. apply list_fmap_id. Qed.

Lemma variables_permuted : variables ≡ₚ map_to_list (docker_environment t (dd_Env d)).
Proof.
  unfold variables. cbv zeta. set (m := docker_environment t (dd_Env d)).
  transitivity (map (λ key, (key, default "" (m !! key))) (map_to_list m).*1).
  { apply Permutation_map, sorted_keys. }
  replace (map (λ key, (key, default "" (m !! key))) (map_to_list m).*1) with (map_to_list m); [done|].
  assert (Hl : ∀ k v, (k, v) ∈ map_to_list m → m !! k = Some v) by (intros k v; apply elem_of_map_to_list).
  induction (map_to_list m) as [|[k v] l IH]; [done|]. cbn. rewrite (Hl k v) by set_solver. cbn. f_equal.
  apply IH. intros k' v' Hk. apply Hl. set_solver.
Qed.

(** Pairs with different keys, read one after the other. *)
Lemma pairs_map (l : list (string * string)) (m : gmap string string) :
  Forall (λ kv, ContainsChar kv.1 "=" = false) l → NoDup l.*1 →
  foldl set_pair m (map (λ kv, kv.1 +:+ "=" +:+ kv.2) l) = list_to_map l ∪ m.
Proof.
  intros Hl Hn. revert m. induction Hl as [|[k v] l Hk Hl IH]; intros m; cbn [map foldl].
  { by rewrite list_to_map_nil, (left_id_L ∅ (∪)). }
  cbn [fmap list_fmap fst] in Hn. apply NoDup_cons in Hn as [Hk' Hn].
  unfold set_pair at 2. cbn [fst snd] in *. rewrite Cut_first by done. rewrite IH by done. rewrite list_to_map_cons.
  rewrite <- insert_union_r, insert_union_l; [done|]. by apply not_elem_of_list_to_map_1.
Qed.

Definition plain_keys : Prop := map_Forall (λ key _, ContainsChar key "=" = false) (dd_Env d).

Lemma environment_read_back : plain_keys → pairs "--env" all_options = docker_environment t (dd_Env d).
Proof.
  intros Hp. unfold pairs. rewrite values_env, pairs_map.
  - rewrite (right_id_L ∅ (∪)). etransitivity; [|apply list_to_map_to_list].
    apply list_to_map_proper; [|apply variables_permuted]. rewrite variables_keys, sorted_keys. apply NoDup_fst_map_to_list.
  - rewrite variables_permuted. apply Forall_forall. intros [k v] Hk%elem_of_map_to_list.
    revert k v Hk. change (map_Forall (λ key _, ContainsChar key "=" = false) (docker_environment t (dd_Env d))).
    unfold docker_environment. by repeat apply map_Forall_insert_2.
  - rewrite variables_keys, sorted_keys. apply NoDup_fst_map_to_list.
Qed.

Lemma docker_labels_read_back :
  pairs "--label" all_options =
  <["go-scheduler.job-id" := ExecutorServer.tk_JobID t]> (<["go-scheduler.run-id" := ExecutorServer.tk_RunID t]>
  (<["go-scheduler.execution-id" := executionID t]> (<["go-scheduler.managed-by" := "lihongjie0209"]> ∅))).
Proof.
  unfold pairs, all_options. change (("--name", name) :: ?l) with ([("--name", name)] ++ l). rewrite !values_app.
  replace (values "--label" option_pairs) with (@nil string)
    by (unfold option_pairs; repeat case_match; done).
  replace (values "--label" (map _ variables)) with (@nil string)
    by (unfold values; induction variables as [|kv l IH]; [done|]; cbn; by rewrite <- IH).
  reflexivity.
Qed.
End arguments.

Lemma option_is_no_image image : HasPrefix image "-" = false → valued image = false.
Proof.
  intros Hi. unfold valued. apply bool_decide_eq_false. intros Hv. repeat (apply elem_of_cons in Hv as [->|Hv]; [done|]).
  by apply not_elem_of_nil in Hv.
Qed.

Section round_trip.
Context `{DockerFormats}.

(** The arguments of [docker run].  An image that is not an option and variables
    without an equals sign in their names are passed on as they are: Docker reads
    back the image with its command, the name, the variables of the job with those
    of the scheduler, which win, and labels by which an inspection recognises the
    container for the same execution of the same job and for no other, whatever
    labels the image has. *)
Theorem docker_arguments_round_trip name t u d raw (image_labels : gmap string string) :
  HasPrefix (dd_Image d) "-" = false → plain_keys d → executionID t ≠ "" →
  let options := (read_options (tl (dockerRunArguments name t d))).1 in
  decode_inspection raw = Some [pairs "--label" options ∪ image_labels] →
  (read_options (tl (dockerRunArguments name t d))).2 = dd_Image d :: dd_Command d ++ dd_Args d ∧
  values "--name" options = [name] ∧ pairs "--env" options = docker_environment t (dd_Env d) ∧
  (validateManagedDockerInspection raw u = None ↔
     executionID u = executionID t ∧ ExecutorServer.tk_JobID u = ExecutorServer.tk_JobID t).
Proof.
  intros Hi Hk He. cbv zeta. rewrite (read_arguments t d name _ eq_refl). cbn [read_options].
  rewrite (option_is_no_image _ Hi), Hi. cbn [fst snd]. rewrite app_nil_r, docker_labels_read_back, environment_read_back by done.
  intros Er. split; [done|]. split.
  { unfold all_options. change (("--name", name) :: ?l) with ([("--name", name)] ++ l). rewrite !values_app.
    replace (values "--name" (option_pairs d)) with (@nil string) by (unfold option_pairs; repeat case_match; done).
    cbn -[variables]. f_equal. unfold values. by induction (variables t d). }
  split; [done|]. unfold validateManagedDockerInspection. rewrite Er. unfold label.
  rewrite !lookup_union. simplify_map_eq.
  assert (Hu : ∀ (x : string) o, Some x ∪ o = Some x) by by intros ? []. rewrite !Hu. cbn [default from_option id].
  rewrite String.eqb_refl. cbn [negb orb].
  rewrite (proj2 (String.eqb_neq (executionID t) "") He). cbn [andb]. rewrite orb_false_r.
  destruct (String.eqb_spec (executionID t) (executionID u)) as [E1|E1]; cbn [negb orb].
  - destruct (String.eqb_spec (ExecutorServer.tk_JobID t) (ExecutorServer.tk_JobID u)) as [E2|E2]; cbn; naive_solver.
  - naive_solver.
Qed.

(** A definition whose image is an option of Docker, and whose variable has an
    equals sign in its name. *)
Definition forged : DockerDefinition :=
  mk_definition "--privileged" ["alpine"; "sh"] [] {["SCHEDULER_RUN_ID=forged" := ""]} "never" "" None 0 0.

Lemma forged_keys t :
  sort_Strings (map_to_list (docker_environment t (dd_Env forged))).*1 =
  ["SCHEDULER_INPUT"; "SCHEDULER_JOB_ID"; "SCHEDULER_RUN_ID"; "SCHEDULER_RUN_ID=forged";
   "SCHEDULER_SHARD_INDEX"; "SCHEDULER_SHARD_TOTAL"].
Proof. vm_compute. reflexivity. Qed.

(** Definitions that change more than they may.  A job whose image is
    ["--privileged"] and whose first argument is an image is accepted and starts a
    privileged container, and a variable named [SCHEDULER_RUN_ID=forged] replaces the
    identity of the run in the environment of the container. *)
Theorem definitions_inject_options source name t :
  decode_definition source = Ok forged → more_input source = false →
  parseDockerDefinition source = Ok forged ∧
  let options := (read_options (tl (dockerRunArguments name t forged))).1 in
  ("--privileged", "") ∈ options ∧
  (read_options (tl (dockerRunArguments name t forged))).2 = ["alpine"; "sh"] ∧
  pairs "--env" options !! "SCHEDULER_RUN_ID" = Some "forged=".
Proof.
  intros Es Em. split; [unfold parseDockerDefinition; by rewrite Es, Em|]. cbv zeta.
  rewrite (read_arguments t forged name _ eq_refl).
  change (read_options (dd_Image forged :: dd_Command forged ++ dd_Args forged)) with ([("--privileged", "")], ["alpine"; "sh"]).
  cbn [fst snd]. split; [apply elem_of_app; right; by apply list_elem_of_singleton|]. split; [done|].
  unfold pairs. rewrite values_app, values_env. unfold variables. cbv zeta. rewrite forged_keys.
  cbn -[docker_environment]. unfold set_pair. cbn -[docker_environment]. by simplify_map_eq.
Qed.
End round_trip.

(** ** Examples *)

Definition sample_task : Task :=
  mk_task "run" "job" "in" "" "execution" "docker" "" None None None 0 1.
Definition other_task : Task :=
  mk_task "run-2" "job" "in" "" "execution-2" "docker" "" None None None 0 1.
Definition sample_definition : DockerDefinition :=
  mk_definition "alpine" ["true"] [] {["MODE" := "fast"]} "never" "" (Some true) 64 0.

Definition sample_docker : DockerFormats := {|
  decode_definition := λ _, Ok forged; more_input := λ _, false;
  decode_inspection := λ _, Some [
    <["go-scheduler.job-id" := "job"]> (<["go-scheduler.run-id" := "run"]>
    (<["go-scheduler.execution-id" := "execution"]> (<["go-scheduler.managed-by" := "lihongjie0209"]>
    (<["go-scheduler.job-id" := "of the image"]> ∅))))];
  FormatFloat := λ _, "1";
|}.

Lemma docker_arguments_round_trip_witness :
  @validateManagedDockerInspection sample_docker "[...]" sample_task = None ∧
  @validateManagedDockerInspection sample_docker "[...]" other_task ≠ None.
Proof.
  destruct (@docker_arguments_round_trip sample_docker "name" sample_task sample_task sample_definition "[...]"
    (<["go-scheduler.job-id" := "of the image"]> ∅)) as (_ & _ & _ & [_ H1]);
    [reflexivity|by apply map_Forall_singleton|done|vm_compute; reflexivity|].
  destruct (@docker_arguments_round_trip sample_docker "name" sample_task other_task sample_definition "[...]"
    (<["go-scheduler.job-id" := "of the image"]> ∅)) as (_ & _ & _ & [H2 _]);
    [reflexivity|by apply map_Forall_singleton|done|vm_compute; reflexivity|].
  split; [by apply H1|]. intros [E _]%H2. discriminate E.
Defined.

Lemma definitions_inject_options_witness :
  @parseDockerDefinition sample_docker "{...}" = Ok forged ∧
  ("--privileged", "") ∈ (read_options (tl (@dockerRunArguments sample_docker "name" sample_task forged))).1.
Proof.
  destruct (@definitions_inject_options sample_docker "{...}" "name" sample_task) as [H1 [H2 _]];
    [reflexivity|reflexivity|]. by split.
Defined.
End DockerArguments.
