(* ===== verification/Kubernetes.v ===== *)
(** * Kubernetes jobs

    [pkg/executor/kubernetes.go]: the handler that runs a task as a job of a
    Kubernetes cluster, named and labelled after the execution, and the canceller
    that deletes it. *)
From Stdlib Require Import ZArith Lia Ascii String.
From stdpp Require Import base list strings sets.
From S2P Require Import Prelude GoStrings GoUrl Utf8 Tables Proto Programs Traces ExecutorServer Samples Handlers.

Module Kubernetes.
Import GoUrl Utf8 Programs Proto Handlers.

(** The environment is in the order in which the map is ranged over. *)
Record KubernetesJobSpec := mk_spec {
  ks_Image : string; ks_Command : list string; ks_Args : list string; ks_Env : list (string * string);
  ks_ImagePullSecrets : list string; ks_ServiceAccount : string; ks_BackoffLimit : Z;
  ks_TTLSecondsAfterFinished : Z;
}.

(** [json.Unmarshal] into a specification; the error of a kubeconfig that the client
    library does not accept. *)
Class KubernetesFormats := {
  decode_spec : string → result KubernetesJobSpec;
  kubeconfig_error : string → option error;
}.

Definition kubernetesManagedByLabel : string := "app.kubernetes.io/managed-by".
Definition kubernetesManagedByValue : string := "go-scheduler".
Definition kubernetesExecutionIDLabel : string := "go-scheduler/execution-id".
Definition kubernetesJobIDLabel : string := "go-scheduler/job-id".

(** Reading a map gives the empty string for a missing key. *)
Fixpoint label_of (labels : list (string * string)) (key : string) : string :=
  match labels with
  | [] => ""
  | (k, v) :: rest => if k ==s key then v else label_of rest key
  end.

Definition kubernetesJobName (executionID : string) : string :=
  let name := "scheduler-" +:+ ToLower (ReplaceAll executionID "-" "") in
  if 63 <? len name then str_take 63 name else name.

Section kubernetes.
Context `{KubernetesFormats} `{Quoting}.

(** Every caller passes the identifier of the job. *)
Definition validateManagedKubernetesJob (job : KubeJob) (executionID jobID : string) : option error :=
  if (label_of (kj_Labels job) kubernetesManagedByLabel !=s kubernetesManagedByValue)
     || (label_of (kj_Labels job) kubernetesExecutionIDLabel !=s executionID)
  then Some (ErrMsg ("kubernetes job name collision for execution " +:+ quoted executionID))
  else if jobID !=s "" then
    let storedJobID := label_of (kj_Labels job) kubernetesJobIDLabel in
    if (storedJobID !=s "") && (storedJobID !=s jobID)
    then Some (ErrMsg "kubernetes job belongs to a different scheduler job") else None
  else None.

Definition kubernetesRESTConfig (cluster : ClusterAccess) : result rest_Config :=
  if ca_AuthMode cluster ==s "kubeconfig" then
    match kubeconfig_error (ca_Kubeconfig cluster) with
    | Some err => Err (wrapped "parse kubeconfig" err)
    | None => Ok (FromKubeconfig (ca_Kubeconfig cluster))
    end
  else if (ca_AuthMode cluster !=s "service_account") || (TrimSpace (ca_ApiServer cluster) ==s "")
          || (TrimSpace (ca_Token cluster) ==s "")
  then Err (ErrMsg "invalid service account cluster configuration")
  else Ok (ServiceAccount (ca_ApiServer cluster) (ca_Token cluster) (ca_CaData cluster)
             (ca_InsecureSkipTlsVerify cluster)).

Definition cancellationIdentity (t : Task) : ExecutorServer.ExternalCancellation :=
  ExecutorServer.mk_ext_cancel (ExecutorServer.tk_RunID t) (executionID t) (ExecutorServer.tk_JobID t)
    (ExecutorServer.tk_ScriptLanguage t) (ExecutorServer.tk_KubernetesCluster t).

Definition kube_text (e : kube_error) : error :=
  match e with
  | KubeNotFound => ErrMsg "not found"
  | KubeAlreadyExists => ErrMsg "already exists"
  | KubeOther text => ErrMsg text
  end.

Definition namespace_of (cluster : ClusterAccess) : string :=
  let namespace := TrimSpace (ca_Namespace cluster) in
  if namespace ==s "" then "default" else namespace.

(** The object that is created. *)
Definition kubernetes_job (t : Task) (d : KubernetesJobSpec) : KubeJob :=
  let id := executionID t in
  let name := kubernetesJobName id in
  let ttl := ks_TTLSecondsAfterFinished d in
  mk_kube_job name
    [(kubernetesManagedByLabel, kubernetesManagedByValue); (kubernetesExecutionIDLabel, id);
     (kubernetesJobIDLabel, ExecutorServer.tk_JobID t)]
    (ks_BackoffLimit d) (if ttl <=? 0 then 86400 else ttl)
    [("job-name", name); (kubernetesExecutionIDLabel, id); (kubernetesJobIDLabel, ExecutorServer.tk_JobID t)]
    (ks_ServiceAccount d)
    (List.filter (λ secret, secret !=s "") (map TrimSpace (ks_ImagePullSecrets d)))
    (mk_container (ks_Image d) (ks_Command d) (ks_Args d)
       (ks_Env d ++ [("SCHEDULER_INPUT", ExecutorServer.tk_Input t)]))
    [].

Definition cancelManagedKubernetesJob (namespace : string) (c : ExecutorServer.ExternalCancellation)
    : handler (option error) :=
  let name := kubernetesJobName (ExecutorServer.xc_ExternalExecutionID c) in
  got ← effect (GetJob namespace name);
  match got with
  | inr KubeNotFound => mret None
  | inr e => mret (Some (wrapped "get Kubernetes Job for cancellation" (kube_text e)))
  | inl job =>
      match validateManagedKubernetesJob job (ExecutorServer.xc_ExternalExecutionID c) (ExecutorServer.xc_JobID c) with
      | Some err => mret (Some err)
      | None =>
          deleted ← effect (DeleteJob namespace name);
          mret (match deleted with
                | None | Some KubeNotFound => None
                | Some e => Some (wrapped "delete managed Kubernetes Job" (kube_text e))
                end)
      end
  end.

(** The job exists after this, and is the job of the execution. *)
Definition ensure_job (namespace : string) (job : KubeJob) (id jobID : string) : handler (option error) :=
  got ← effect (GetJob namespace (kj_Name job));
  match got with
  | inl existing => mret (validateManagedKubernetesJob existing id jobID)
  | inr KubeNotFound =>
      created ← effect (CreateJob namespace job);
      match created with
      | None => mret None
      | Some KubeAlreadyExists =>
          again ← effect (GetJob namespace (kj_Name job));
          mret (match again with
                | inr e => Some (wrapped "get concurrently created kubernetes job" (kube_text e))
                | inl existing => validateManagedKubernetesJob existing id jobID
                end)
      | Some e => mret (Some (wrapped "create kubernetes job" (kube_text e)))
      end
  | inr e => mret (Some (wrapped "get kubernetes job" (kube_text e)))
  end.

(** The first condition that holds and ends the job: [Some None] when it is
    complete, [Some (Some err)] when it failed. *)
Fixpoint ended (conditions : list condition) : option (option error) :=
  match conditions with
  | [] => None
  | c :: rest =>
      if cd_Status c !=s "True" then ended rest
      else if cd_Type c ==s "Complete" then Some None
      else if cd_Type c ==s "Failed"
      then Some (Some (ErrMsg ("kubernetes job failed: " +:+ cd_Message c)))
      else ended rest
  end.

(** [wait.PollUntilContextCancel] with the condition of the handler, tried at once
    and after every interval; [None] after [fuel] rounds without an end. *)
Fixpoint poll_job (fuel : nat) (interval : duration) (namespace name id jobID : string)
    : handler (option (option error)) :=
  match fuel with
  | O => mret None
  | S fuel =>
      got ← effect (GetJob namespace name);
      match got with
      | inr e => mret (Some (Some (kube_text e)))
      | inl current =>
          match validateManagedKubernetesJob current id jobID with
          | Some err => mret (Some (Some err))
          | None =>
              match ended (kj_Conditions current) with
              | Some outcome => mret (Some outcome)
              | None =>
                  interrupted ← effect (PollWait interval);
                  match interrupted with
                  | Some err => mret (Some (Some err))
                  | None => poll_job fuel interval namespace name id jobID
                  end
              end
          end
      end
  end.

Definition writeKubernetesPodLogs (namespace jobName : string) (logger : option TaskLogger)
    : handler (option error) :=
  match logger with
  | None => mret None
  | Some logger =>
      pods ← effect (ListPods namespace ("job-name=" +:+ jobName));
      match pods with
      | Err err => mret (Some err)
      | Ok [] => mret None
      | Ok (pod :: _) =>
          opened ← effect (StreamLogs namespace pod "task");
          match opened with
          | Err err => mret (Some (wrapped "open kubernetes pod logs" err))
          | Ok s =>
              match ReadLimited (Z.shiftl 1 20) s with
              | Err err => mret (Some err)
              | Ok raw => if 0 <? len raw then Info logger raw else mret None
              end
          end
      end
  end.

Definition failure_of (err : option error) : option failure :=
  match err with Some err => Some (Failure (error_text err)) | None => None end.

(** After the job was polled: it is deleted when the context ended. *)
Definition conclude (namespace : string) (t : Task) (logger : option TaskLogger) (err : option error)
    : handler (option failure) :=
  match err with
  | Some err =>
      gone ← effect CtxErr;
      if (gone : bool) then
        cleanupErr ← cancelManagedKubernetesJob namespace (cancellationIdentity t);
        mret (match cleanupErr with
              | Some c => Some (Failure (error_text err +:+ char_string (ascii_of_nat 10) +:+ error_text c))
              | None => Some (Failure (error_text err))
              end)
      else failed err
  | None =>
      err ← writeKubernetesPodLogs namespace (kubernetesJobName (executionID t)) logger;
      mret (failure_of err)
  end.

(** [None]: the job is still polled after [fuel] rounds. *)
Definition KubernetesHandler (fuel : nat) (pollInterval : duration) (t : Task) (logger : option TaskLogger)
    : handler (option (option failure)) :=
  let pollInterval := if pollInterval <=? 0 then second else pollInterval in
  let fail (err : error) := mret (Some (Some (Failure (error_text err)))) in
  if ExecutorServer.tk_ScriptLanguage t !=s "kubernetes"
  then fail (ErrMsg "kubernetes task and cluster configuration are required")
  else
    match ExecutorServer.tk_KubernetesCluster t with
    | None => fail (ErrMsg "kubernetes task and cluster configuration are required")
    | Some cluster =>
        match decode_spec (ExecutorServer.tk_ScriptSource t) with
        | Err err => fail (wrapped "decode kubernetes job definition" err)
        | Ok d =>
            if (TrimSpace (ks_Image d) ==s "") || (512 <? len (ks_Image d))
            then fail (ErrMsg "kubernetes job image is required and must not exceed 512 characters")
            else
              match kubernetesRESTConfig cluster with
              | Err err => fail err
              | Ok config =>
                  err ← effect (NewClient config);
                  match err with
                  | Some err => fail (wrapped "create kubernetes client" err)
                  | None =>
                      let namespace := namespace_of cluster in
                      let id := executionID t in
                      let jobID := ExecutorServer.tk_JobID t in
                      err ← ensure_job namespace (kubernetes_job t d) id jobID;
                      match err with
                      | Some err => fail err
                      | None =>
                          polled ← poll_job fuel pollInterval namespace (kubernetesJobName id) id jobID;
                          match polled with
                          | None => mret None
                          | Some err => outcome ← conclude namespace t logger err; mret (Some outcome)
                          end
                      end
                  end
              end
        end
    end.

Definition KubernetesCanceller (c : ExecutorServer.ExternalCancellation) : handler (option error) :=
  let required := ErrMsg "run, external execution, job, and cluster details are required for Kubernetes cancellation" in
  if (ExecutorServer.xc_RunID c ==s "") || (ExecutorServer.xc_ExternalExecutionID c ==s "")
     || (ExecutorServer.xc_JobID c ==s "")
  then mret (Some required)
  else
    match ExecutorServer.xc_KubernetesCluster c with
    | None => mret (Some required)
    | Some cluster =>
        match kubernetesRESTConfig cluster with
        | Err err => mret (Some err)
        | Ok config =>
            err ← effect (NewClient config);
            match err with
            | Some err => mret (Some (wrapped "create kubernetes client" err))
            | None => cancelManagedKubernetesJob (namespace_of cluster) c
            end
        end
    end.
End kubernetes.
End Kubernetes.

(** * Kubernetes jobs: theorems

    Which jobs the Kubernetes handler and canceller create and delete, after which
    answers of the cluster, and what a run succeeds on. *)

Module KubernetesProofs.
Import GoUrl Utf8 Programs Traces Proto Handlers HandlerProofs Kubernetes.

(** ** Events *)

Definition gets : reading (KubeJob + kube_error) := λ B eff,
  match eff in os B return B → option (KubeJob + kube_error) with
  | GetJob _ _ => λ ans, Some ans
  | _ => λ _, None
  end.
Definition creations : reading KubeJob := λ B eff,
  match eff in os B return B → option KubeJob with CreateJob _ job => λ _, Some job | _ => λ _, None end.
Definition deletions : reading (string * option kube_error) := λ B eff,
  match eff in os B return B → option (string * option kube_error) with
  | DeleteJob _ name => λ ans, Some (name, ans)
  | _ => λ _, None
  end.
(** The context had ended. *)
Definition gone : reading unit := λ B eff,
  match eff in os B return B → option unit with
  | CtxErr => λ ans, if (ans : bool) then Some tt else None
  | _ => λ _, None
  end.
(** An interval passed between two polls. *)
Definition intervals : reading unit := λ B eff,
  match eff in os B return B → option unit with
  | PollWait _ => λ ans, match ans with None => Some tt | Some _ => None end
  | _ => λ _, None
  end.

Section kubernetes.
Context `{KubernetesFormats} `{Quoting}.

(** The cluster showed a job of the execution; a completed one. *)
Definition managed (id jobID : string) (log : list (event os)) : Prop :=
  ∃ job, inl job ∈ reads gets log ∧ validateManagedKubernetesJob job id jobID = None.
Definition completed (id jobID : string) (log : list (event os)) : Prop :=
  ∃ job, inl job ∈ reads gets log ∧ validateManagedKubernetesJob job id jobID = None ∧
    ended (kj_Conditions job) = Some None.

Lemma managed_app id jobID l k : managed id jobID l → managed id jobID (l ++ k).
Proof. intros (job & Hj & R). exists job. split; [rewrite reads_app; set_solver|done]. Qed.
Lemma completed_app id jobID l k : completed id jobID l → completed id jobID (l ++ k).
Proof. intros (job & Hj & R). exists job. split; [rewrite reads_app; set_solver|done]. Qed.

(** A job that [validateManagedKubernetesJob] accepts has the labels of the
    execution, and no label of another job. *)
Lemma managed_labels job id jobID :
  validateManagedKubernetesJob job id jobID = None ↔
  label_of (kj_Labels job) kubernetesManagedByLabel = kubernetesManagedByValue ∧
  label_of (kj_Labels job) kubernetesExecutionIDLabel = id ∧
  (jobID = "" ∨ label_of (kj_Labels job) kubernetesJobIDLabel = "" ∨ label_of (kj_Labels job) kubernetesJobIDLabel = jobID).
Proof.
  unfold validateManagedKubernetesJob. cbv zeta.
  destruct (String.eqb_spec (label_of (kj_Labels job) kubernetesManagedByLabel) kubernetesManagedByValue); cbn [negb orb]; [|naive_solver].
  destruct (String.eqb_spec (label_of (kj_Labels job) kubernetesExecutionIDLabel) id); cbn [negb]; [|naive_solver].
  destruct (String.eqb_spec jobID ""); cbn [negb]; [naive_solver|].
  destruct (String.eqb_spec (label_of (kj_Labels job) kubernetesJobIDLabel) ""); cbn [negb andb]; [naive_solver|].
  destruct (String.eqb_spec (label_of (kj_Labels job) kubernetesJobIDLabel) jobID); cbn [negb]; naive_solver.
Qed.

(** ** Cancellation *)

Section cancellation.
Context (namespace id jobID : string).
Notation name := (kubernetesJobName id).

(** A job is looked up, and deleted if it is the job of the execution. *)
Lemma cancel_job_execution (P : list (event os) → ∀ B, os B → Prop) c log (Q : list (event os) → option error → Prop) :
  ExecutorServer.xc_ExternalExecutionID c = id → ExecutorServer.xc_JobID c = jobID →
  P log _ (GetJob namespace name) →
  (∀ log', log `prefix_of` log' → managed id jobID log' → P log' _ (DeleteJob namespace name)) →
  (∀ got, (∀ job, got = inl job → validateManagedKubernetesJob job id jobID ≠ None) →
     ∀ err, (err = None → got = inr KubeNotFound) → Q (log ++ saw _ (GetJob namespace name) got) err) →
  (∀ job ans err, validateManagedKubernetesJob job id jobID = None →
     (err = None ↔ ans = None ∨ ans = Some KubeNotFound) →
     Q ((log ++ saw _ (GetJob namespace name) (inl job)) ++ saw _ (DeleteJob namespace name) ans) err) →
  execution P (cancelManagedKubernetesJob namespace c) log Q.
Proof.
  intros <- <- Hg Hd Hn Hy. unfold cancelManagedKubernetesJob. cbv zeta. next_effect; [done|].
  destruct b as [job|e].
  - destruct (validateManagedKubernetesJob _ _ _) eqn:Ev; [cbn; apply Hn; [intros ? [= <-]; congruence|done]|].
    next_effect.
    { apply Hd; [by apply prefix_app_r|]. exists job. split; [|done]. rewrite reads_app, reads_one. set_solver. }
    cbn [traces mret prog_mret]. apply Hy; [done|]. destruct b as [[| |]|]; naive_solver.
  - destruct e; cbn; (apply Hn; [done|]); done.
Qed.
End cancellation.

(** ** The handler *)

Section handler.
Context (cluster : ClusterAccess) (t : Task) (d : KubernetesJobSpec) (runID token : string).
Notation id := (executionID t).
Notation jobID := (ExecutorServer.tk_JobID t).
Notation name := (kubernetesJobName (executionID t)).
Notation namespace := (namespace_of cluster).
Notation logger := (Some (grpcLogger runID token)).

(** What the handler may ask for after [log]. *)
Definition kube_request (log : list (event os)) (B : Type) (eff : os B) : Prop :=
  match eff with
  | NewClient config => kubernetesRESTConfig cluster = Ok config
  | GetJob ns n => ns = namespace ∧ n = name
  | CreateJob ns job =>
      ns = namespace ∧ job = kubernetes_job t d ∧ reads gets log = [inr KubeNotFound] ∧ reads creations log = []
  | DeleteJob ns n => ns = namespace ∧ n = name ∧ managed id jobID log ∧ reads gone log ≠ []
  | PollWait _ => managed id jobID log
  | CtxErr => True
  | ListPods ns selector => ns = namespace ∧ selector = "job-name=" +:+ name ∧ completed id jobID log
  | StreamLogs ns _ container => ns = namespace ∧ container = "task" ∧ completed id jobID log
  | AppendLog r k _ content =>
      r = runID ∧ k = token ∧ 0 < len content ≤ maxLogContent ∧ completed id jobID log
  | _ => False
  end.

(** What its executions end with; without a result every one of [fuel] intervals
    passed. *)
Definition kube_outcome (fuel : nat) (log : list (event os)) (r : option (option failure)) : Prop :=
  (r = Some None → completed id jobID log ∧ reads deletions log = []) ∧
  (∀ job, reads gone log ≠ [] → last (reads gets log) = Some (inl job) →
     validateManagedKubernetesJob job id jobID = None → ∃ ans, reads deletions log = [(name, ans)]) ∧
  (r = None → length (reads intervals log) = fuel).

Notation kube := (execution kube_request).
Definition untouched (log : list (event os)) : Prop := reads gone log = [] ∧ reads deletions log = [].

Lemma untouched_outcome fuel log text : untouched log → kube_outcome fuel log (Some (Some (Failure text))).
Proof. intros [Hg Hd]. split; [done|]. split; [by rewrite Hg|done]. Qed.

Lemma ensure_execution log :
  untouched log → reads gets log = [] → reads creations log = [] → reads intervals log = [] →
  kube (ensure_job namespace (kubernetes_job t d) id jobID) log
    (λ log' _, untouched log' ∧ reads intervals log' = []).
Proof.
  intros [Hg Hd] He Hc Hi. unfold ensure_job. next_effect; [done|]. unfold untouched. destruct b as [job|[| |text]].
  1,3,4: cbn [traces mret prog_mret]; simpl_reads; by rewrite Hg, Hd, Hi.
  next_effect; [unfold kube_request; simpl_reads; by rewrite He, Hc|].
  destruct b as [[| |text]|]; [|next_effect; [done|]|..]; cbn [traces mret prog_mret]; simpl_reads; by rewrite Hg, Hd, Hi.
Qed.

Lemma poll_execution interval fuel log :
  untouched log →
  kube (poll_job fuel interval namespace name id jobID) log (λ log' r, untouched log' ∧
    (r = None → length (reads intervals log') = (length (reads intervals log) + fuel)%nat) ∧
    (r = Some None → completed id jobID log')).
Proof.
  revert log. induction fuel as [|fuel IH]; intros log Hu; cbn [poll_job].
  { cbn [traces mret prog_mret]. split; [done|]. split; [lia|done]. }
  next_effect; [done|]. destruct Hu as [Hg Hd]. unfold untouched in *.
  destruct b as [job|e]; [|cbn [traces mret prog_mret]; simpl_reads; by rewrite Hg, Hd].
  destruct (validateManagedKubernetesJob _ _ _) eqn:Ev; [cbn [traces mret prog_mret]; simpl_reads; by rewrite Hg, Hd|].
  assert (Hj : inl job ∈ reads gets (log ++ saw _ (GetJob namespace name) (inl job))).
  { rewrite reads_app, reads_one. set_solver. }
  destruct (ended _) as [outcome|] eqn:Ee.
  { cbn [traces mret prog_mret]. simpl_reads. rewrite Hg, Hd. split; [done|]. split; [done|].
    intros [= ->]. by exists job. }
  next_effect; [by exists job|]. destruct b as [err|].
  { cbn [traces mret prog_mret]. simpl_reads. by rewrite Hg, Hd. }
  eapply traces_mono; [|apply IH; split; simpl_reads; by rewrite ?Hg, ?Hd].
  intros log' r _ (Hu & Hn & Hs). split; [done|]. split; [|done]. intros E. rewrite (Hn E). simpl_reads.
  rewrite length_app. cbn. lia.
Qed.

Lemma pod_logs_execution log :
  completed id jobID log → untouched log →
  kube (writeKubernetesPodLogs namespace name logger) log
    (λ log' _, completed id jobID log' ∧ untouched log').
Proof.
  intros Hc [Hg Hd]. unfold writeKubernetesPodLogs.
  assert (Hq : ∀ ev, reads gone ev = [] → reads deletions ev = [] → completed id jobID (log ++ ev) ∧ untouched (log ++ ev)).
  { intros ev E1 E2. split; [by apply completed_app|]. unfold untouched. by rewrite !reads_app, E1, E2, Hg, Hd. }
  next_effect; [done|]. destruct b as [[|pod pods]|err]; try by apply Hq.
  next_effect; [split_and!; try done; by apply completed_app|]. rewrite <- app_assoc.
  destruct b as [s|err]; [|by apply Hq]. destruct (ReadLimited _ _) as [raw|err]; [|by apply Hq].
  destruct (Z.ltb_spec 0 (len raw)); [|by apply Hq]. cbn [grpcLogger Info]. unfold grpc_write.
  destruct (Z.ltb_spec maxLogContent (len raw)); [by apply Hq|].
  apply traces_effect; [split_and!; try done; by apply completed_app|]. intros a. rewrite <- app_assoc. by apply Hq.
Qed.

Lemma conclude_execution fuel log err :
  untouched log → (err = None → completed id jobID log) →
  kube (conclude namespace t logger err) log (λ log' outcome, kube_outcome fuel log' (Some outcome)).
Proof.
  intros Hu He. unfold conclude. destruct err as [err|].
  - next_effect; [done|]. destruct b.
    + apply traces_bind. set (log' := log ++ saw _ CtxErr true).
      assert (Hg' : reads gone log' = [tt] ∧ reads deletions log' = []).
      { destruct Hu as [E1 E2]. unfold log'. simpl_reads. by rewrite E1, E2. }
      destruct Hg' as [Hg' Hd'].
      assert (Hend : ∀ ev (o : option error), reads gone ev = [] →
        (∀ job, last (reads gets (log' ++ ev)) = Some (inl job) →
           validateManagedKubernetesJob job id jobID = None → ∃ ans, reads deletions ev = [(name, ans)]) →
        kube_outcome fuel (log' ++ ev) (Some (match o with
          | Some c => Some (Failure (error_text err +:+ char_string (ascii_of_nat 10) +:+ error_text c))
          | None => Some (Failure (error_text err)) end))).
      { intros ev o Ho Hl. split; [by destruct o|]. split; [|done]. intros job _ El Ev.
        rewrite reads_app, Hd'. by apply (Hl job). }
      eapply (cancel_job_execution namespace id jobID); [done|done|done| | |].
      * intros log'' [k ->] Hm. split_and!; try done. by rewrite reads_app, Hg'.
      * intros got Hgot e _. cbn [traces mret prog_mret]. apply Hend; [done|]. intros job El Ev.
        rewrite reads_app, reads_one in El. cbn in El. rewrite last_snoc in El. injection El as ->.
        by destruct (Hgot job).
      * intros job ans e Ev _. cbn [traces mret prog_mret]. rewrite <- app_assoc. apply Hend; [done|]. intros. by exists ans.
    + apply untouched_outcome. destruct Hu as [E1 E2]. unfold untouched. simpl_reads. by rewrite E1, E2.
  - apply traces_bind. eapply traces_mono; [|apply pod_logs_execution; [by apply He|done]].
    intros log' e _ [Hc [Hg Hd]]. cbn [traces mret prog_mret]. split; [done|]. split; [by rewrite Hg|done].
Qed.

Lemma handler_execution_kube fuel interval :
  ExecutorServer.tk_KubernetesCluster t = Some cluster → decode_spec (ExecutorServer.tk_ScriptSource t) = Ok d →
  kube (KubernetesHandler fuel interval t logger) [] (kube_outcome fuel).
Proof.
  intros Ec Ed. unfold KubernetesHandler. cbv zeta. rewrite Ec, Ed.
  destruct (_ !=s "kubernetes"); [by apply untouched_outcome|].
  destruct (_ || _); [by apply untouched_outcome|].
  destruct (kubernetesRESTConfig cluster) as [config|err] eqn:Er; [|by apply untouched_outcome].
  next_effect; [done|]. destruct b as [err|]; [by apply untouched_outcome|].
  apply traces_bind. eapply traces_mono; [|by apply ensure_execution].
  intros log1 [err|] _ [Hu Hi]; [by apply untouched_outcome|].
  apply traces_bind. eapply traces_mono; [|by apply poll_execution].
  intros log2 [err|] _ (Hu2 & Hn & Hs).
  - apply traces_bind. eapply traces_mono; [|apply (conclude_execution fuel); [done|by intros ->; apply Hs]].
    intros log3 outcome _ Ho. exact Ho.
  - cbn [traces mret prog_mret]. split; [done|]. split; [by rewrite (proj1 Hu2)|].
    intros _. by rewrite Hn, Hi.
Qed.
End handler.

(** What the canceller may ask for, and what it reports. *)
Definition kube_cancel_request (cluster : ClusterAccess) (c : ExecutorServer.ExternalCancellation)
    (log : list (event os)) (B : Type) (eff : os B) : Prop :=
  let name := kubernetesJobName (ExecutorServer.xc_ExternalExecutionID c) in
  match eff with
  | NewClient config => kubernetesRESTConfig cluster = Ok config
  | GetJob ns n => ns = namespace_of cluster ∧ n = name
  | DeleteJob ns n =>
      ns = namespace_of cluster ∧ n = name ∧
      managed (ExecutorServer.xc_ExternalExecutionID c) (ExecutorServer.xc_JobID c) log
  | _ => False
  end.
Definition kube_cancel_outcome (c : ExecutorServer.ExternalCancellation) (log : list (event os)) (r : option error) : Prop :=
  let name := kubernetesJobName (ExecutorServer.xc_ExternalExecutionID c) in
  r = None → reads gets log = [inr KubeNotFound] ∨
    reads deletions log = [(name, None)] ∨ reads deletions log = [(name, Some KubeNotFound)].

Lemma canceller_execution c cluster :
  ExecutorServer.xc_KubernetesCluster c = Some cluster →
  execution (kube_cancel_request cluster c) (KubernetesCanceller c) [] (kube_cancel_outcome c).
Proof.
  intros Ec. unfold KubernetesCanceller. cbv zeta. rewrite Ec. destruct (_ || _); [done|].
  destruct (kubernetesRESTConfig cluster) as [config|err] eqn:Er; [|done].
  next_effect; [done|]. destruct b as [err|]; [done|].
  eapply (cancel_job_execution (namespace_of cluster) _ _); [done|done|done|by intros log' _ Hm| |].
  - intros got _ err Hn E. left. rewrite (Hn E). done.
  - intros job ans err Ev Hi E. right. simpl_reads. destruct (proj1 Hi E) as [->| ->]; [by left|by right].
Qed.

(** C17: jobs of Kubernetes.  Whatever the cluster answers, the handler creates at
    most one job, after the cluster had none of its name; the handler and the
    canceller delete a job only after they saw the labels of this execution on it,
    the handler only when its context has ended, and then it deletes the job that
    is still there.  A run succeeds only if a job with these labels was seen complete.
    The handler goes on polling only as long as its context lasts: without a result
    after some rounds, as many intervals have passed. *)
Theorem kubernetes_jobs_are_guarded fuel interval t runID token :
  match ExecutorServer.tk_KubernetesCluster t, decode_spec (ExecutorServer.tk_ScriptSource t) with
  | Some cluster, Ok d =>
      execution (kube_request cluster t d runID token)
        (KubernetesHandler fuel interval t (Some (grpcLogger runID token))) [] (kube_outcome t fuel)
  | _, _ => ∃ text, KubernetesHandler fuel interval t (Some (grpcLogger runID token)) = mret (Some (Some (Failure text)))
  end ∧
  ∀ c, match ExecutorServer.xc_KubernetesCluster c with
       | Some cluster =>
           execution (kube_cancel_request cluster c) (KubernetesCanceller c) [] (kube_cancel_outcome c)
       | None => ∃ err, KubernetesCanceller c = mret (Some err)
       end.
Proof.
  split.
  - destruct (ExecutorServer.tk_KubernetesCluster t) as [cluster|] eqn:Ec.
    + destruct (decode_spec _) as [d|err] eqn:Ed; [by apply handler_execution_kube|].
      unfold KubernetesHandler. cbv zeta. rewrite Ec, Ed. destruct (_ !=s "kubernetes"); by eexists.
    + unfold KubernetesHandler. cbv zeta. rewrite Ec. destruct (_ !=s "kubernetes"); by eexists.
  - intros c. destruct (ExecutorServer.xc_KubernetesCluster c) as [cluster|] eqn:Ec; [by apply canceller_execution|].
    unfold KubernetesCanceller. cbv zeta. rewrite Ec. destruct (_ || _); by eexists.
Qed.

(** ** Long logs *)

(** A world in which the job is complete, and whose first pod printed [text]. *)
Definition long_log (job : KubeJob) (pod text : string) (h : ∀ B, os B → B) : Prop :=
  (∀ config, h _ (NewClient config) = None) ∧ (∀ namespace name, h _ (GetJob namespace name) = inl job) ∧
  (∀ namespace selector, ∃ pods, h _ (ListPods namespace selector) = Ok (pod :: pods)) ∧
  (∀ namespace p container, h _ (StreamLogs namespace p container) = Ok (mk_stream text None)).

(** Long logs.  When the first pod of a completed job printed more than 64 KiB,
    the handler passes up to 1 MiB of it to the logger at once, which refuses more
    than 64 KiB: the run fails although its job succeeded. *)
Theorem long_pod_log_fails_run fuel interval t d cluster config job pod text runID token h e s :
  ExecutorServer.tk_ScriptLanguage t = "kubernetes" → ExecutorServer.tk_KubernetesCluster t = Some cluster →
  decode_spec (ExecutorServer.tk_ScriptSource t) = Ok d →
  TrimSpace (ks_Image d) ≠ "" → len (ks_Image d) ≤ 512 → kubernetesRESTConfig cluster = Ok config →
  validateManagedKubernetesJob job (executionID t) (ExecutorServer.tk_JobID t) = None →
  Kubernetes.ended (kj_Conditions job) = Some None →
  long_log job pod text h → maxLogContent < len text →
  (run h e (KubernetesHandler (S fuel) interval t (Some (grpcLogger runID token))) s).1 =
  Some (Some (Failure "log content exceeds 65536 bytes")).
Proof.
  intros El Ec Ed Hi Hl Er Ev Ee (Hn & Hg & Hp & Hs) Ht. unfold KubernetesHandler. cbv zeta. rewrite El, Ec, Ed.
  rewrite String.eqb_refl. cbn [negb]. rewrite (proj2 (String.eqb_neq _ _) Hi), (proj2 (Z.ltb_ge _ _) Hl), Er. cbn [orb].
  rewrite run_bind. cbn [run effect]. rewrite Hn, run_bind. unfold ensure_job. rewrite run_bind. cbn [run effect].
  rewrite Hg. cbn [run mret prog_mret]. rewrite Ev, run_bind. cbn [poll_job]. rewrite run_bind. cbn [run effect]. rewrite Hg, Ev, Ee.
  cbn [run mret prog_mret]. rewrite run_bind. cbn [conclude]. rewrite run_bind. unfold writeKubernetesPodLogs.
  rewrite run_bind. cbn [run effect]. destruct (Hp (namespace_of cluster) ("job-name=" +:+ kubernetesJobName (executionID t))) as [pods ->].
  rewrite run_bind. cbn [run effect]. rewrite Hs. unfold ReadLimited. cbn [sm_bytes sm_error]. cbn [grpcLogger Info].
  assert (Hr : ∀ raw, maxLogContent < len raw → 0 <? len raw = true ∧ maxLogContent <? len raw = true).
  { unfold maxLogContent. intros raw Hraw. split; apply Z.ltb_lt; lia. }
  unfold grpc_write. destruct (Z.leb_spec (Z.shiftl 1 20) (len text)) as [Hb|Hb].
  - destruct (Hr (str_take (Z.to_nat (Z.shiftl 1 20)) text)) as [-> ->]; [|done].
    unfold len, maxLogContent in *. rewrite length_str_take. change (Z.shiftl 1 20) with 1048576 in *. lia.
  - by destruct (Hr text Ht) as [-> ->].
Qed.
End kubernetes.

(** ** Example *)

Definition sample_access : ClusterAccess := mk_access "service_account" "https://k8s" "" "" "token" "" false.
Definition sample_task : Task :=
  mk_task "run" "job" "" "" "execution" "kubernetes" "{...}" (Some sample_access) None None 0 1.
Definition sample_spec : KubernetesJobSpec := mk_spec "alpine" [] [] [] [] "" 0 0.
Definition sample_kubernetes : KubernetesFormats :=
  {| decode_spec := λ _, Ok sample_spec; kubeconfig_error := λ _, None |}.
Definition sample_quoting : Quoting := {| quoted := λ s, s |}.
Definition complete_job : KubeJob :=
  let job := @kubernetes_job sample_task sample_spec in
  mk_kube_job (kj_Name job) (kj_Labels job) (kj_BackoffLimit job) (kj_TTL job) (kj_PodLabels job)
    (kj_ServiceAccount job) (kj_PullSecrets job) (kj_Container job) [mk_condition "Complete" "True" ""].
Definition long_text : string := repeated (Z.to_nat 65537) "a".

(** The cluster of the example; other effects are not asked for. *)
Definition sample_world (B : Type) (eff : os B) : B :=
  match eff in os B return B with
  | LookPath _ => Ok "" | Environ => [] | RunCommand _ _ _ => mk_output [] [] None
  | MkdirTemp _ => Ok "" | WriteFile _ _ => None | RemoveAll _ => tt | CreateTemp _ => Ok ""
  | Chmod _ _ => None | WriteString _ _ => None | CloseFile _ => None | Remove _ => tt
  | Start _ => Ok 1 | Select _ => Done None | KillGroup _ => tt | WaitDone _ => tt | Written _ => ([], [])
  | AppendLog _ _ _ _ => None | RandomHex _ => Ok "" | HttpDo _ => Ok (mk_answer 200 (mk_stream "" None))
  | NewClient _ => None | GetJob _ _ => inl complete_job | CreateJob _ _ => None | DeleteJob _ _ => None
  | ListPods _ _ => Ok ["pod"] | StreamLogs _ _ _ => Ok (mk_stream long_text None)
  | PollWait _ => None | CtxErr => false
  end.

Lemma long_text_length : maxLogContent < len long_text.
Proof.
  unfold long_text, len. rewrite <- (str_app_nil_r (repeated _ _)), length_repeated. cbn [String.length].
  unfold maxLogContent. lia.
Qed.

Lemma long_pod_log_fails_run_witness :
  (run sample_world (Samples.at_ms 0) (@KubernetesHandler sample_kubernetes sample_quoting 1 second sample_task
     (Some (grpcLogger "run" "token"))) Samples.empty_db).1 =
  Some (Some (Failure "log content exceeds 65536 bytes")).
Proof.
  apply (@long_pod_log_fails_run sample_kubernetes sample_quoting 0 second sample_task sample_spec sample_access
    (ServiceAccount "https://k8s" "token" "" false) complete_job "pod" long_text "run" "token" sample_world
    (Samples.at_ms 0) Samples.empty_db); [done|done|done|done|done|done|done|done| |].
  - split_and!; try done. intros. by exists [].
  - apply long_text_length.
Defined.
End KubernetesProofs.
