(* ===== verification/JobService.v ===== *)
(** * The job service

    [internal/core/job_service.go] and the normalisations of
    [internal/core/service_mapping.go] and [service_runs.go]: what is accepted
    as a job, and what is written for it.  A job that is accepted satisfies
    every constraint of the tables. *)
From Stdlib Require Import ZArith Lia Ascii String Sorted.
From stdpp Require Import base list strings gmap.
From S2P Require Import Prelude GoStrings GoUrl GoTime Quartz Calculator Tables Programs Executors RunStore JobStore Engine.

Module JobService.
Import GoUrl Calculator Programs Executors RunStore JobStore Engine.

(** What a service asks for besides the store: the clock, the executor that is
    to stop a run, and the hook for runs that have ended. *)
Inductive request : Type → Type :=
| ServiceNow : request time
| StopRun (address runID reason : string) : request (option error)
| RunTerminal : request unit.
Notation service := (prog request).

(** [&ValidationError{err: err}] *)
Definition invalid {A} (r : result A) : result A :=
  match r with Ok a => Ok a | Err err => Err (ErrValidation (error_text err)) end.

(** [fmt.Errorf("<context>: %w", err)] *)
Definition wrapped {A} (context : string) (r : result A) : result A :=
  match r with Ok a => Ok a | Err err => Err (ErrMsg (context +:+ ": " +:+ error_text err)) end.

Definition reject (b : bool) (message : string) : result unit :=
  if b then Err (ErrMsg message) else Ok tt.

(** ** Normalisation of lists *)

(** The loops that keep the first of equal elements. *)
Fixpoint collect (f : string → result string) (l acc : list string) : result (list string) :=
  match l with
  | [] => Ok acc
  | x :: rest => y ← f x; collect f rest (if one_of y acc then acc else acc ++ [y])
  end.

Definition sort_Strings : list string → list string := sort_by String.leb.

Definition label_punctuation (c : ascii) : bool := existsb (Ascii.eqb c) ["."; "_"; "-"]%char.

Definition normalize_label (value : string) : result string :=
  let label := ToLower (TrimSpace value) in
  _ ← reject ((label ==s "") || (63 <? len label)) "executor labels must contain 1 to 63 characters";
  _ ← reject (negb (forall_char (λ c, nat_in 97 122 c || nat_in 48 57 c || label_punctuation c) label)
              || match label with String c _ => label_punctuation c | EmptyString => false end)
        "executor label has invalid characters";
  Ok label.

Definition normalizeExecutorLabels (values : list string) : result (list string) :=
  labels ← collect normalize_label values [];
  _ ← reject (Nat.ltb 32 (length labels)) "at most 32 executor labels are allowed";
  Ok (sort_Strings labels).

Definition validExecutorAddressScheme (scheme : string) : bool :=
  one_of scheme ["http"; "https"; "grpc"].

Section addresses.
Context `{IPLiterals}.

Definition normalize_address (message raw : string) : result string :=
  let address := TrimRightSlash (TrimSpace raw) in
  match ParseRequestURI address with
  | Ok u => if (url_Host u ==s "") || negb (validExecutorAddressScheme (url_Scheme u)) || url_User u
            then Err (ErrMsg message) else Ok address
  | Err _ => Err (ErrMsg message)
  end.

Definition normalizeOverrideAddresses (addresses : list string) : result (list string) :=
  _ ← reject (Nat.ltb 100 (length addresses)) "override_addresses must contain at most 100 addresses";
  normalized ← collect (normalize_address
    "override addresses must be absolute HTTP(S) or gRPC URLs without userinfo") addresses [];
  Ok (sort_Strings normalized).
End addresses.

Definition normalizeDependencyIDs (ids : list string) : result (list string) :=
  _ ← reject (Nat.ltb 100 (length ids)) "at most 100 child jobs are allowed";
  out ← collect (λ id, if TrimSpace id ==s "" then Err (ErrMsg "child job id must not be empty")
                       else Ok (TrimSpace id)) ids [];
  Ok (sort_Strings out).

(** ** Validation *)

Definition group_text (c : job_conf) : string := default "" (c_executor_group_id c).
Definition cluster_text (c : job_conf) : string := default "" (c_kubernetes_cluster_id c).

Definition script_languages : list string :=
  ["shell"; "python"; "nodejs"; "php"; "powershell"; "docker"; "kubernetes"].

Definition expected_handler (language : string) : string :=
  if language ==s "docker" then "__docker__"
  else if language ==s "kubernetes" then "__kubernetes__" else "__script__".

Section validation.
Context `{IPLiterals} `{ScheduleCalc}.

Definition validate_target (url : string) : result unit :=
  if url ==s "" then Ok tt
  else
    match ParseRequestURI url with
    | Err _ => Err (ErrMsg "target_url must be an absolute HTTP or HTTPS URL")
    | Ok u =>
        _ ← reject ((url_Host u ==s "") || ((url_Scheme u !=s "http") && (url_Scheme u !=s "https")))
              "target_url must be an absolute HTTP or HTTPS URL";
        reject (url_User u) "target_url userinfo is not allowed"
    end.

Definition validate_script (c : job_conf) : result unit :=
  _ ← (if (c_script_language c ==s "") && (c_script_source c ==s "") then Ok tt
       else
         _ ← reject ((group_text c ==s "") || (c_executor_handler c !=s expected_handler (c_script_language c)))
               (c_script_language c +:+ " jobs require executor_group_id and "
                +:+ expected_handler (c_script_language c) +:+ " handler");
         _ ← reject (negb (one_of (c_script_language c) script_languages))
               "script_language must be shell, python, nodejs, php, powershell, docker or kubernetes";
         reject ((c_script_source c ==s "") || (1048576 <? len (c_script_source c)))
           "script_source must be between 1 byte and 1 MiB");
  _ ← reject ((c_script_language c ==s "kubernetes") && (cluster_text c ==s ""))
        "kubernetes_cluster_id is required for kubernetes jobs";
  reject ((c_script_language c !=s "kubernetes") && (cluster_text c !=s ""))
    "kubernetes_cluster_id is only valid for kubernetes jobs".

Definition validate_registry (language : string) (auth : DockerRegistryAuth) (has clear : bool)
    : result unit :=
  if negb (has || clear) then Ok tt
  else
    _ ← reject (language !=s "docker") "docker registry credentials are only valid for docker jobs";
    _ ← reject (has && clear) "docker_registry_auth and clear_docker_registry_auth are mutually exclusive";
    if negb has then Ok tt
    else
      _ ← reject (negb (Configured auth) || (TrimSpace (Server auth) ==s "")
                  || (TrimSpace (Username auth) ==s ""))
            "configured docker registry credentials require server and username";
      reject ((512 <? len (Server auth)) || (256 <? len (Username auth)) || (4096 <? len (Password auth))
              || exists_char (λ c, existsb (Nat.eqb (nat_of_ascii c)) [32; 9; 13; 10]%nat) (Server auth)
              || exists_char (λ c, existsb (Nat.eqb (nat_of_ascii c)) [58; 13; 10]%nat) (Username auth))
        "invalid docker registry credentials".

Definition validate_limits (c : job_conf) : result unit :=
  _ ← reject (negb (one_of (c_http_method c) ["GET"; "POST"; "PUT"; "PATCH"; "DELETE"]))
        "unsupported HTTP method";
  _ ← reject (Contains (ReplaceAll (c_body_template c) "{{input}}" "") "{{")
        "body_template only supports {{input}}";
  _ ← reject ((c_timeout_seconds c <? 1) || (3600 <? c_timeout_seconds c))
        "timeout_seconds must be between 1 and 3600";
  _ ← reject ((c_max_retries c <? 0) || (20 <? c_max_retries c)) "max_retries must be between 0 and 20";
  _ ← reject (negb (one_of (c_overlap_policy c)
        ["serial"; "discard_later"; "cover_early"; "parallel"; "skip"; "queue"])) "invalid overlap_policy";
  _ ← reject (negb (one_of (c_misfire_policy c) ["skip"; "fire_once"; "catch_up"])) "invalid misfire_policy";
  _ ← reject (c_max_concurrent_runs c <? 1) "max_concurrent_runs must be positive";
  _ ← reject ((c_max_catch_up c <? 1) || (1000 <? c_max_catch_up c)) "max_catch_up must be between 1 and 1000";
  _ ← reject ((c_callback_timeout_seconds c <? 1) || (86400 <? c_callback_timeout_seconds c))
        "callback_timeout_seconds must be between 1 and 86400";
  reject ((c_max_queue_size c <? 1) || (100000 <? c_max_queue_size c))
    "max_queue_size must be between 1 and 100000".

Definition set_labels (required excluded : list string) (j : Job) : Job :=
  mk_Job (Job_ID j) (Job_TenantID j) (Job_Conf j) required excluded (Headers j) (RegistryAuth j)
    (Enabled j) (NextRunAt j) (Version j).
Definition set_auth (auth : DockerRegistryAuth) (j : Job) : Job :=
  mk_Job (Job_ID j) (Job_TenantID j) (Job_Conf j) (RequiredExecutorLabels j)
    (ExcludedExecutorLabels j) (Headers j) auth (Enabled j) (NextRunAt j) (Version j).

Definition validateJobModel (job : Job) (hasAuth clearAuth : bool) (now : time) : result Job :=
  let c := Job_Conf job in
  _ ← reject (TrimSpace (c_name c) ==s "") "name is required";
  _ ← reject (Job_TenantID job ==s "") "tenant_id is required";
  _ ← reject (TrimSpace (group_text c) ==s "") "executor_group_id is required";
  _ ← reject (TrimSpace (c_executor_handler c) ==s "") "executor_handler is required";
  _ ← validate_target (c_target_url c);
  _ ← validate_script c;
  _ ← validate_registry (c_script_language c) (RegistryAuth job) hasAuth clearAuth;
  required ← wrapped "required_executor_labels" (normalizeExecutorLabels (RequiredExecutorLabels job));
  excluded ← wrapped "excluded_executor_labels" (normalizeExecutorLabels (ExcludedExecutorLabels job));
  _ ← reject (existsb (λ label, one_of label excluded) required)
        "executor label cannot be both required and excluded";
  _ ← validate_limits c;
  _ ← wrapped "invalid schedule"
        (sched_Next (c_schedule_type c) (c_schedule_expression c) (c_timezone c) now);
  Ok (set_labels required excluded job).
End validation.

(** ** Operations *)

Section operations.
Context `{Host} `{ScheduleCalc} `{Digest} `{JobCodec} `{IPLiterals}.

Record CreateJobInput := mk_create {
  ci_Job : Job;
  ci_DockerRegistryAuthProvided : bool;
}.

Definition Create (input : CreateJobInput) : service (result Job) :=
  now ← effect ServiceNow;
  match invalid (validateJobModel (ci_Job input) (ci_DockerRegistryAuthProvided input) false now) with
  | Err err => mret (Err err)
  | Ok job =>
      if Configured (RegistryAuth job) && (Password (RegistryAuth job) ==s "")
      then mret (Err (ErrValidation "docker registry password is required when creating credentials"))
      else store (CreateJob job)
  end.

Definition Get (tenantID id : string) : service (result Job) :=
  found ← store (query (λ _ s, GetJob tenantID id s));
  match found with
  | Err err => mret (Err err)
  | Ok job =>
      labels ← store (JobExecutorLabels (Job_ID job));
      mret (match labels with
            | Ok (required, excluded) => Ok (set_labels required excluded job)
            | Err err => Err err
            end)
  end.

Record UpdateJobInput := mk_update {
  ui_Job : Job;
  ui_DockerRegistryAuthProvided : bool;
  ui_ClearDockerRegistryAuth : bool;
}.

(** The credentials the updated job is stored with. *)
Definition updated_auth (input : UpdateJobInput) (job : Job) : service (result DockerRegistryAuth) :=
  let auth := RegistryAuth job in
  let provided := ui_DockerRegistryAuthProvided input in
  if ui_ClearDockerRegistryAuth input then mret (Ok no_auth)
  else if negb provided || (Configured auth && (Password auth ==s "")) then
    found ← store (query (λ _ s, GetJob (Job_TenantID job) (Job_ID job) s));
    mret (current ← found;
          let old := RegistryAuth current in
          if provided && (negb (Configured old) || (Server old !=s Server auth)
                          || (Username old !=s Username auth))
          then Err (ErrValidation "docker registry password is required when changing credentials")
          else Ok old)
  else mret (Ok auth).

Definition Update (input : UpdateJobInput) : service (result Job) :=
  now ← effect ServiceNow;
  match invalid (validateJobModel (ui_Job input) (ui_DockerRegistryAuthProvided input)
                   (ui_ClearDockerRegistryAuth input) now) with
  | Err err => mret (Err err)
  | Ok job =>
      auth ← updated_auth input job;
      match auth with
      | Err err => mret (Err err)
      | Ok auth => store (UpdateJob (set_auth auth job))
      end
  end.

(** [if <b> { return &ValidationError{..} }] before the only call. *)
Definition guarded {A} (b : bool) (message : string) (m : tx A) : service (result A) :=
  if b then mret (Err (ErrValidation message)) else store m.

Definition SetEnabled (tenantID id : string) (enabled : bool) (version : Z) : service (result Job) :=
  guarded ((tenantID ==s "") || (id ==s "") || (version <? 1))
    "tenant_id, id and positive version are required" (SetJobEnabled tenantID id enabled version).

Definition Delete (tenantID id : string) (version : Z) : service (result unit) :=
  store (DeleteJob tenantID id version).

Definition RollbackScriptVersion (tenantID jobID versionID : string) (jobVersion : Z)
    (remark : string) : service (result Job) :=
  if (tenantID ==s "") || (jobID ==s "") || (versionID ==s "") || (jobVersion <? 1)
  then mret (Err (ErrValidation "tenant_id, job_id, version_id and positive job_version are required"))
  else guarded (200 <? len (TrimSpace remark)) "remark must not exceed 200 characters"
         (RollbackJobScriptVersion tenantID jobID versionID jobVersion remark).

Definition Trigger (tenantID jobID key input : string) (override : list string)
    : service (result Run) :=
  match invalid
    (_ ← reject ((TrimSpace tenantID ==s "") || (TrimSpace jobID ==s ""))
           "tenant_id and job_id are required";
     _ ← reject (200 <? len key) "idempotency_key must not exceed 200 bytes";
     _ ← reject (1048576 <? len input) "input must not exceed 1 MiB";
     normalizeOverrideAddresses override) with
  | Err err => mret (Err err)
  | Ok addresses => store (TriggerJobWithOptions tenantID jobID key input addresses)
  end.

Definition SetDependencies (tenantID parentJobID : string) (childJobIDs : list string)
    : service (result (list string)) :=
  match invalid
    (_ ← reject ((tenantID ==s "") || (parentJobID ==s "")) "tenant_id and parent_job_id are required";
     ids ← normalizeDependencyIDs childJobIDs;
     _ ← reject (one_of parentJobID ids) "job cannot depend on itself";
     Ok ids) with
  | Err err => mret (Err err)
  | Ok ids =>
      r ← store (SetJobDependencies tenantID parentJobID ids);
      mret (_ ← r; Ok ids)
  end.
End operations.

(** A preview asks for five times, and starts now, unless told otherwise. *)
Definition PreviewSchedule `{CronLib} `{TZData} (scheduleType expression timezone : string)
    (after : time) (count : Z) (now : time) : result (list time) :=
  invalid
    (_ ← reject ((TrimSpace scheduleType ==s "") || (TrimSpace expression ==s ""))
           "schedule_type and schedule_expression are required";
     let timezone := if timezone ==s "" then "UTC" else timezone in
     _ ← wrapped "invalid timezone" (LoadLocation timezone);
     let count := if count =? 0 then 5 else count in
     _ ← reject ((count <? 1) || (100 <? count)) "count must be between 1 and 100";
     Preview scheduleType expression timezone (if IsZero after then now else after) count).
End JobService.

(** * What the job service accepts

    The lists it normalises are sorted and have no duplicates, an accepted job
    satisfies every constraint of the tables, and so it is stored, with the
    labels that were accepted. *)

Module JobServiceProofs.
Import GoUrl Calculator Programs Executors RunStore JobStore Engine JobService.

(** ** Rejections *)

Lemma reject_Ok b m u : reject b m = Ok u → b = false.
Proof. by destruct b. Qed.

Lemma wrapped_Ok {A} c (r : result A) a : wrapped c r = Ok a → r = Ok a.
Proof. by destruct r. Qed.

(** Read off the guards an accepted value has passed. *)
Ltac passed_step :=
  match goal with
  | H : mbind _ _ = Ok _ |- _ => apply result_bind_Ok in H as (? & ? & ?)
  | H : reject _ _ = Ok _ |- _ => apply reject_Ok in H
  | H : wrapped _ _ = Ok _ |- _ => apply wrapped_Ok in H
  | H : Ok _ = Ok _ |- _ => injection H as H
  end.
Ltac passed := repeat passed_step; bool_to_prop.

(** ** Normalised lists *)

Lemma collect_spec f (P : string → Prop) l acc out :
  (∀ x y, f x = Ok y → P y) → Forall P acc → NoDup acc → collect f l acc = Ok out →
  Forall P out ∧ NoDup out.
Proof.
  intros Hf. revert acc. induction l as [|x l IH]; intros acc Ha Hn; cbn; [by intros [= <-]|].
  intros (y & Hy & E)%result_bind_Ok. revert E. destruct (one_of y acc) eqn:Eo; [by apply IH|].
  apply IH.
  - apply Forall_app. split; [done|]. apply Forall_singleton. by eapply Hf.
  - apply NoDup_app. split_and!; [done| |apply NoDup_singleton].
    intros z Hz ->%list_elem_of_singleton. apply one_of_true in Hz. congruence.
Qed.

(** What a normalised list is: sorted, without duplicates, every element
    valid. *)
Definition normalized (P : string → Prop) (l : list string) : Prop :=
  Forall P l ∧ NoDup l ∧ StronglySorted (λ a b, String.leb a b = true) l.

Lemma sort_Strings_normalized P l : Forall P l → NoDup l → normalized P (sort_Strings l).
Proof.
  intros HP Hn. unfold normalized, sort_Strings. split_and!.
  - by rewrite sort_by_Permutation.
  - by rewrite sort_by_Permutation.
  - apply sort_by_sorted; [apply str_leb_total|apply str_leb_trans].
Qed.

Lemma normalize_label_valid x y : normalize_label x = Ok y → valid_label y = true.
Proof.
  unfold normalize_label. intros E. passed. subst.
  destruct (ToLower (TrimSpace x)) as [|c rest]; [done|].
  match goal with
  | Hl : len _ ≤ _, Ha : forall_char _ _ = true, Hp : label_punctuation c = false |- _ =>
      rename Hl into Hlen, Hp into Hc; cbn [forall_char] in Ha;
      apply andb_true_iff in Ha as [Hfirst Hrest]
  end.
  rewrite Hc, orb_false_r in Hfirst. unfold valid_label.
  rewrite !andb_true_iff. split_and!; [done|done|].
  apply Z.leb_le. unfold len in *. cbn in Hlen. lia.
Qed.

Lemma normalizeExecutorLabels_spec values labels :
  normalizeExecutorLabels values = Ok labels →
  normalized (λ l, valid_label l = true) labels ∧ (length labels ≤ 32)%nat.
Proof.
  unfold normalizeExecutorLabels. intros E. passed. subst.
  match goal with H : collect _ _ _ = Ok _ |- _ =>
    eapply (collect_spec _ (λ l, valid_label l = true)) in H as [HP Hn] end.
  - split; [by apply sort_Strings_normalized|]. unfold sort_Strings. rewrite length_sort_by.
    by apply Nat.ltb_ge.
  - apply normalize_label_valid.
  - constructor.
  - constructor.
Qed.

(** ** Accepted jobs *)

Lemma seal_check `{JobCodec} j z :
  seal_job j = Ok z →
  Bool.eqb (bool_decide (z_encrypted_docker_registry_auth z = None))
           (bool_decide (z_docker_registry_auth_key_version z = None)) = true.
Proof.
  unfold seal_job, encryptDockerRegistryAuth. intros E. passed.
  repeat match goal with x : _ * _ |- _ => destruct x end.
  generalize dependent z. split_match; intros; passed; subst; cbn;
    repeat match goal with x : _ * _ |- _ => destruct x end; passed; by simplify_eq/=.
Qed.

Lemma canonical_known p :
  one_of p ["serial"; "discard_later"; "cover_early"; "parallel"; "skip"; "queue"] = true →
  one_of (canonicalBlockPolicy p) ["serial"; "discard_later"; "cover_early"; "parallel"] = true.
Proof.
  rewrite !one_of_true. unfold canonicalBlockPolicy.
  destruct (p ==s "queue") eqn:Eq; [set_solver|].
  destruct (p ==s "skip") eqn:Es; [set_solver|]. bool_to_prop. set_solver.
Qed.

Lemma nullif_text o : o ≫= nullif_empty = None ↔ default "" o = "".
Proof.
  destruct o as [s|]; cbn; [|done]. unfold nullif_empty.
  destruct (s ==s "") eqn:E; bool_to_prop; naive_solver.
Qed.

(** The references a job has once stored, as their text. *)
Lemma script_accepted c :
  TrimSpace (group_text c) ≠ "" → validate_script c = Ok tt → script_check (stored_conf c) = true.
Proof.
  intros Hg. unfold validate_script. intros E. apply result_bind_Ok in E as (u & Es & E). passed.
  assert (group_text c ≠ "") as Hg' by (intros Eg; by rewrite Eg in Hg).
  unfold script_check, stored_conf, set_references. cbn [c_script_language c_executor_group_id
    c_kubernetes_cluster_id c_script_source c_executor_handler].
  rewrite (bool_decide_true (c_executor_group_id c ≫= nullif_empty ≠ None))
    by (rewrite nullif_text; exact Hg').
  rewrite (bool_decide_ext (c_kubernetes_cluster_id c ≫= nullif_empty ≠ None) (cluster_text c ≠ ""))
    by (by rewrite nullif_text).
  fold (group_text c) in *. revert Es.
  destruct (c_script_language c ==s "") eqn:El; bool_to_prop.
  - rewrite El in *. cbn in *. destruct (c_script_source c ==s ""); cbn in *.
    + intros _. destruct (cluster_text c ==s "") eqn:Ec; bool_to_prop; [|naive_solver].
      by rewrite Ec.
    + by destruct (_ || _).
  - cbn [andb orb]. intros Es. passed. rename select (one_of _ _ = true) into Hl.
    rename select (c_executor_handler c = _) into Hh. rename select (c_script_source c ≠ "") into Hs.
    apply one_of_true in Hl. unfold script_languages in Hl. apply String.eqb_neq in Hs.
    rewrite Hs, Hh. clear Hh Hs El Hg Hg'.
    repeat (apply elem_of_cons in Hl as [Hl|Hl]; [rewrite Hl in *; cbn in *;
      destruct (cluster_text c ==s "") eqn:Ec; bool_to_prop; [rewrite Ec|rewrite bool_decide_true by done];
      naive_solver|]).
    by apply elem_of_nil in Hl.
Qed.

Lemma script_version_accepted c :
  validate_script c = Ok tt → c_script_language c ≠ "" →
  script_version_check (c_script_language c) (c_script_source c) "initial version" = true.
Proof.
  unfold validate_script. intros E Hl. apply result_bind_Ok in E as (u & Es & _).
  apply String.eqb_neq in Hl. rewrite Hl in Es. cbn [andb] in Es. passed.
  unfold script_version_check, between. rewrite !andb_true_iff. split_and!; [done| | |done|done].
  - apply Z.leb_le. unfold len. destruct (c_script_source c); cbn [String.length]; [done|lia].
  - by apply Z.leb_le.
Qed.

Section accepted.
Context `{IPLiterals} `{ScheduleLaws} `{JobCodec}.

Lemma validated j has clear now j' :
  validateJobModel j has clear now = Ok j' →
  TrimSpace (group_text (Job_Conf j)) ≠ "" ∧ validate_script (Job_Conf j) = Ok tt ∧
  validate_limits (Job_Conf j) = Ok tt ∧
  (∃ u, sched_Next (c_schedule_type (Job_Conf j)) (c_schedule_expression (Job_Conf j))
          (c_timezone (Job_Conf j)) now = Ok u) ∧
  (∃ required excluded, j' = set_labels required excluded j ∧
     normalized (λ l, valid_label l = true) required ∧
     normalized (λ l, valid_label l = true) excluded ∧
     (∀ l, l ∈ required → l ∉ excluded)).
Proof.
  unfold validateJobModel. intros E. passed.
  repeat match goal with u : () |- _ => destruct u end.
  repeat match goal with H : normalizeExecutorLabels _ = Ok _ |- _ =>
    apply normalizeExecutorLabels_spec in H as [? _] end.
  split_and!; eauto. eexists _, _. split_and!; [done..|].
  intros l Hr He. rename select (existsb _ _ = false) into Hx.
  apply not_true_iff_false in Hx. apply Hx. apply existsb_exists.
  exists l. rewrite one_of_true. by rewrite <- list_elem_of_In.
Qed.

(** The limits the service accepts are those of the columns. *)
Lemma limits_accepted c z u now :
  validate_limits c = Ok tt → validate_script c = Ok tt → TrimSpace (group_text c) ≠ "" →
  sched_Next (c_schedule_type c) (c_schedule_expression c) (c_timezone c) now = Ok u →
  Bool.eqb (bool_decide (z_encrypted_docker_registry_auth z = None))
           (bool_decide (z_docker_registry_auth_key_version z = None)) = true →
  job_check (stored_conf (with_defaults c)) z = true.
Proof.
  intros Hl Hs Hg Hn Hz. apply script_accepted in Hs; [|done].
  apply next_known_type in Hn. unfold validate_limits in Hl. passed.
  repeat match goal with Hp : one_of (c_overlap_policy c) _ = true |- _ =>
    apply canonical_known in Hp end.
  unfold with_defaults.
  repeat match goal with |- context [if ?x <? 1 then _ else _] =>
    replace (x <? 1) with false by (symmetry; by apply Z.ltb_ge) end.
  unfold job_check, between. rewrite !andb_true_iff, Hz.
  split_and!; try done; cbn; try (apply Z.leb_le; lia); try (apply Z.ltb_lt; lia).
Qed.
End accepted.

(** ** Storing an accepted job *)

Definition label_rows (id : string) (excluded : bool) (l : list string) : list label_row :=
  map (λ x, mk_label id x excluded) l.

Lemma insert_label_fresh row e s :
  valid_label (l_label row) = true → row ∉ job_executor_labels s →
  insert_label row e s = Ok (tt, set_job_executor_labels (job_executor_labels s ++ [row]) s).
Proof.
  intros Hv Hr. unfold insert_label, mbind, tx_bind, get. rewrite Hv. cbn [negb orb].
  destruct (sql_exists _ _) eqn:E; [|done]. apply sql_exists_true in E as (r & Hin & Hp).
  bool_to_prop. destruct Hr. rename select (Bool.eqb _ _ = true) into Hb. apply eqb_prop in Hb.
  destruct r, row; cbn in *. congruence.
Qed.

Lemma insert_labels id b l e s :
  Forall (λ x, valid_label x = true) l → NoDup l →
  (∀ x, x ∈ l → mk_label id x b ∉ job_executor_labels s) →
  for_each l (λ x, insert_label (mk_label id x b)) e s =
  Ok (tt, set_job_executor_labels (job_executor_labels s ++ label_rows id b l) s).
Proof.
  intros Hv Hn. revert s. induction l as [|x l IH]; intros s Hf.
  { cbn. rewrite app_nil_r. by destruct s. }
  apply Forall_cons in Hv as [Hx Hv]. apply NoDup_cons in Hn as [Hxl Hn].
  cbn [for_each]. unfold mbind, tx_bind. rewrite insert_label_fresh; [|done|apply Hf; by left].
  rewrite IH; [by cbn; rewrite <- app_assoc|done..|].
  intros y Hy. cbn. intros [Hr|E%list_elem_of_singleton]%elem_of_app.
  - by eapply Hf; [right|].
  - by injection E as ->.
Qed.

Lemma replace_labels id required excluded e s :
  normalized (λ l, valid_label l = true) required →
  normalized (λ l, valid_label l = true) excluded →
  replaceJobExecutorLabels id required excluded e s =
  Ok (tt, set_job_executor_labels
            (sql_delete (λ l, l_job_id l ==s id) (job_executor_labels s)
             ++ label_rows id false required ++ label_rows id true excluded) s).
Proof.
  intros (Hr & Nr & _) (He & Ne & _). unfold replaceJobExecutorLabels.
  erewrite tx_bind_Ok by done. erewrite tx_bind_Ok.
  2:{ apply insert_labels; [done|done|]. intros x _ [Hp _]%elem_of_sql_delete.
      cbn in Hp. by rewrite String.eqb_refl in Hp. }
  rewrite insert_labels; [by cbn; rewrite <- app_assoc|done|done|].
  intros x _ [[Hp _]%elem_of_sql_delete|Hm]%elem_of_app.
  - cbn in Hp. by rewrite String.eqb_refl in Hp.
  - apply list_elem_of_fmap in Hm as (y & [=] & _).
Qed.

(** The labels read back are the lists that were stored. *)
Lemma label_rows_sorted id b l :
  StronglySorted (λ x y, String.leb x y = true) l →
  StronglySorted (λ x y, label_le x y = true) (label_rows id b l).
Proof.
  induction 1 as [|x l Hl IH Hx]; cbn; constructor; [done|].
  apply Forall_fmap. eapply Forall_impl; [exact Hx|]. intros y Hy. cbn. unfold label_le. cbn.
  by rewrite eqb_reflx.
Qed.

Lemma sorted_app {A} (R : A → A → Prop) l k :
  StronglySorted R l → StronglySorted R k → (∀ x y, x ∈ l → y ∈ k → R x y) →
  StronglySorted R (l ++ k).
Proof.
  intros Hl Hk HR. induction Hl as [|x l Hl IH Hx]; cbn; [done|]. constructor.
  - apply IH. intros a b Ha Hb. apply HR; [by right|done].
  - apply Forall_app. split; [done|]. apply Forall_forall. intros y Hy. apply HR; [by left|done].
Qed.

Lemma select_rows id id' b l :
  sql_select (λ r, l_job_id r ==s id') (label_rows id b l) =
  if id ==s id' then label_rows id b l else [].
Proof.
  induction l as [|x l IH]; cbn; [by destruct (_ ==s _)|]. unfold sql_select in *.
  cbn. fold (label_rows id b l). rewrite IH. by destruct (id ==s id').
Qed.

Lemma filter_rows id b b' l :
  map l_label (List.filter (λ r, Bool.eqb (l_excluded r) b') (label_rows id b l)) =
  if Bool.eqb b b' then l else [].
Proof.
  induction l as [|x l IH]; cbn; [by destruct (Bool.eqb _ _)|].
  fold (label_rows id b l). destruct (Bool.eqb b b'); cbn; by rewrite IH.
Qed.

Lemma labels_read_back id required excluded others s :
  normalized (λ l, valid_label l = true) required →
  normalized (λ l, valid_label l = true) excluded →
  job_executor_labels s = sql_delete (λ l, l_job_id l ==s id) others
                          ++ label_rows id false required ++ label_rows id true excluded →
  job_labels id s = (required, excluded).
Proof.
  intros (_ & _ & Hr) (_ & _ & He) Hs. unfold job_labels. rewrite Hs, !sql_select_app, !select_rows.
  rewrite String.eqb_refl, sql_select_deleted.
  cbn [app]. rewrite sort_by_id.
  - rewrite (List.filter_ext (λ l, negb (l_excluded l)) (λ l, Bool.eqb (l_excluded l) false))
      by (by intros [? ? []]).
    rewrite (List.filter_ext l_excluded (λ l, Bool.eqb (l_excluded l) true)) by (by intros [? ? []]).
    rewrite !List.filter_app, !map_app, !filter_rows. f_equal. apply app_nil_r.
  - apply sorted_app; [by apply label_rows_sorted..|].
    intros x y (? & -> & _)%list_elem_of_fmap (? & -> & _)%list_elem_of_fmap. done.
Qed.

Section creating.
Context `{Host} `{ScheduleLaws} `{JobCodec} `{IPLiterals}.

(** Credentials, and their removal, are refused for other jobs than docker's. *)
Lemma registry_refused j has clear now j' :
  validateJobModel j has clear now = Ok j' → c_script_language (Job_Conf j) ≠ "docker" →
  has = false ∧ clear = false.
Proof.
  unfold validateJobModel. intros E Hl. passed. rename select (validate_registry _ _ _ _ = _) into Hr.
  unfold validate_registry in Hr. apply String.eqb_neq in Hl.
  destruct has, clear; cbn in Hr; rewrite ?Hl in Hr; done.
Qed.

(** [UpdateJob] returns the credentials it was given. *)
Lemma updated_credentials j e s j' s' :
  UpdateJob j e s = Ok (j', s') → RegistryAuth j' = RegistryAuth j.
Proof.
  intros E. cut (wp (UpdateJob j) (λ j' _, RegistryAuth j' = RegistryAuth j) e s).
  { unfold wp. by rewrite E. }
  unfold UpdateJob. cbv zeta.
  repeat first [apply wp_bind; eapply wp_any; intros ? ?|progress split_match|apply wp_fail|by apply wp_ret].
Qed.

(** The identifier of a new job, and the row written for it. *)
Definition created_id (j : Job) (s : db) : string :=
  if Job_ID j ==s "" then uuid (uuids_drawn s) else Job_ID j.

Definition created_row (j : Job) (z : sealed_columns) (next t : time) (s : db) : job_row :=
  mk_job (created_id j s) (Job_TenantID j) (stored_conf (with_defaults (Job_Conf j))) z (Enabled j)
    (next_arg (Enabled j) next) None 1 t t.

(** What only the store can know: the job's references exist, and neither its
    name nor its identifier is in use. *)
Definition storable (j : Job) (s : db) : bool :=
  job_references (Job_TenantID j) (stored_conf (with_defaults (Job_Conf j))) s
  && negb (name_taken (Job_TenantID j) (created_id j s) (c_name (Job_Conf j)) s)
  && negb (sql_exists (λ x, j_id x ==s created_id j s) (jobs s)).

(** Recording the first version of a script touches neither jobs nor labels. *)
Lemma initial_version tenantID id c e s :
  (c_script_language c ≠ "" →
   script_version_check (c_script_language c) (c_script_source c) "initial version" = true) →
  ∃ s', (if c_script_language c !=s "" then
           _ ← insertJobScriptVersion tenantID id (c_script_language c) (c_script_source c)
                 "initial version";
           mret tt
         else mret tt) e s = Ok (tt, s') ∧
    jobs s' = jobs s ∧ job_executor_labels s' = job_executor_labels s.
Proof.
  intros Hv. destruct (c_script_language c ==s "") eqn:E; cbn [negb]; [by eexists|].
  bool_to_prop. specialize (Hv E). unfold insertJobScriptVersion.
  change (TrimSpace "initial version") with "initial version".
  change ("initial version" ==s "") with false. cbv zeta iota.
  unfold mbind, tx_bind, new_uuid, now, get, modify. rewrite Hv. cbn. eexists. split_and!; done.
Qed.

Lemma CreateJob_stores j z next e s :
  sched_Next (c_schedule_type (Job_Conf j)) (c_schedule_expression (Job_Conf j))
    (c_timezone (Job_Conf j)) (wall_clock (clock_reads s)) = Ok next →
  seal_job j = Ok z → storable j s = true →
  job_check (stored_conf (with_defaults (Job_Conf j))) z = true →
  (c_script_language (Job_Conf j) ≠ "" →
   script_version_check (c_script_language (Job_Conf j)) (c_script_source (Job_Conf j))
     "initial version" = true) →
  normalized (λ l, valid_label l = true) (RequiredExecutorLabels j) →
  normalized (λ l, valid_label l = true) (ExcludedExecutorLabels j) →
  ∃ j' s', CreateJob j e s = Ok (j', s') ∧ Job_ID j' = created_id j s ∧
    jobs s' = jobs s ++ [created_row j z next (tx_now e) s] ∧
    job_labels (created_id j s) s' = (RequiredExecutorLabels j, ExcludedExecutorLabels j).
Proof.
  intros Hn Hz Hst Hc Hv Hr He. unfold storable in Hst. bool_to_prop.
  unfold CreateJob. cbv zeta. erewrite tx_bind_Ok by done.
  erewrite tx_bind_Ok by (unfold lift; cbn; by rewrite Hn).
  set (s1 := set_clock_reads _ s).
  assert (∃ s2, (if Job_ID j ==s "" then new_uuid else mret (Job_ID j)) e s1 =
            Ok (created_id j s, s2) ∧ jobs s2 = jobs s ∧ tenants s2 = tenants s ∧
            executor_groups s2 = executor_groups s ∧ kubernetes_clusters s2 = kubernetes_clusters s)
    as (s2 & Hid & Ej & Et & Eg & Ek).
  { unfold created_id. destruct (Job_ID j ==s ""); eexists; split; done. }
  erewrite tx_bind_Ok by exact Hid. erewrite tx_bind_Ok by (unfold lift; by rewrite Hz).
  erewrite tx_bind_Ok by done. erewrite tx_bind_Ok by done.
  cbn [j_conf]. rewrite Hc, Ej.
  assert (job_references (Job_TenantID j) (stored_conf (with_defaults (Job_Conf j))) s2 = true) as ->
    by (unfold job_references in *; by rewrite Et, Eg, Ek).
  assert (name_taken (Job_TenantID j) (created_id j s) (c_name (with_defaults (Job_Conf j))) s2 = false)
    as -> by (unfold name_taken in *; by rewrite Ej).
  rename select (sql_exists _ _ = false) into Hfresh. rewrite Hfresh. cbn [negb orb].
  erewrite tx_bind_Ok by done.
  destruct (initial_version (Job_TenantID j) (created_id j s) (with_defaults (Job_Conf j)) e
    (set_jobs (jobs s2 ++ [created_row j z next (tx_now e) s]) s2) Hv) as (s4 & Hs4 & E4 & L4).
  erewrite tx_bind_Ok by exact Hs4.
  erewrite tx_bind_Ok by (by apply replace_labels).
  eexists _, _. split; [done|]. split_and!; [done| |].
  - cbn. by rewrite E4, <- Ej.
  - by eapply labels_read_back.
Qed.

(** C28: A job the service accepts is stored: when its references exist, its name and
    identifier are free and its secrets can be sealed, creating it succeeds; the
    table gets exactly its row, and the labels read back are the normalised ones. *)
Theorem accepted_job_is_stored (h : ∀ B, request B → B) e s input j z next :
  validateJobModel (ci_Job input) (ci_DockerRegistryAuthProvided input) false (h _ ServiceNow) = Ok j →
  (Configured (RegistryAuth j) = true → Password (RegistryAuth j) ≠ "") →
  sched_Next (c_schedule_type (Job_Conf j)) (c_schedule_expression (Job_Conf j))
    (c_timezone (Job_Conf j)) (wall_clock (clock_reads s)) = Ok next →
  seal_job j = Ok z → storable j s = true →
  ∃ j' s', run h e (Create input) s = (Ok j', s') ∧ Job_ID j' = created_id j s ∧
    jobs s' = jobs s ++ [created_row j z next (tx_now e) s] ∧
    job_labels (created_id j s) s' = (RequiredExecutorLabels j, ExcludedExecutorLabels j).
Proof.
  intros Hval Hpw Hn Hz Hst.
  destruct (validated _ _ _ _ _ Hval) as (Hg & Hs & Hl & _ & required & excluded & Ej & Nr & Ne & _).
  assert (Job_Conf j = Job_Conf (ci_Job input)) as Ec by (by subst).
  destruct (CreateJob_stores j z next e s) as (j' & s' & Hc & Hrest); [done|done|done| | | | |].
  - rewrite Ec in *. eapply limits_accepted; [done..|by eapply seal_check].
  - rewrite Ec. by apply script_version_accepted.
  - by subst.
  - by subst.
  - exists j', s'. split; [|done]. unfold Create. rewrite run_bind. cbn [run effect].
    rewrite Hval. cbn [invalid].
    destruct (Configured _ && _) eqn:Ep; bool_to_prop; [by destruct Hpw|].
    cbn. unfold commit. by rewrite Hc.
Qed.

(** An update that leaves a job with another language than docker never changes
    its registry credentials: they cannot be given or cleared, so those of the
    stored job are kept. *)
Theorem credentials_outlive_docker (h : ∀ B, request B → B) e s input j' s' :
  c_script_language (Job_Conf (ui_Job input)) ≠ "docker" →
  run h e (Update input) s = (Ok j', s') →
  ∃ current, GetJob (Job_TenantID (ui_Job input)) (Job_ID (ui_Job input)) s = Ok current ∧
    RegistryAuth j' = RegistryAuth current.
Proof.
  intros Hl. unfold Update. rewrite run_bind. cbn [run effect].
  destruct (validateJobModel _ _ _ _) as [j|] eqn:Hval; [|done]. cbn [invalid].
  assert (ui_DockerRegistryAuthProvided input = false ∧ ui_ClearDockerRegistryAuth input = false)
    as [Hp Hc] by (by apply (registry_refused _ _ _ _ _ Hval)).
  destruct (validated _ _ _ _ _ Hval) as (_ & _ & _ & _ & required & excluded & -> & _).
  rewrite run_bind. unfold updated_auth. rewrite Hp, Hc. cbn. unfold commit at 1.
  unfold query, mbind, tx_bind, get, now, lift. cbn.
  destruct (GetJob _ _ s) as [current|] eqn:Eg; [|done]. cbn. unfold commit.
  destruct (UpdateJob _ e s) as [[j1 s1]|] eqn:Eu; [|done]. intros [= -> ->].
  exists current. split; [done|]. by apply updated_credentials in Eu.
Qed.
End creating.
End JobServiceProofs.
