(* ===== verification/JobServiceScenario.v ===== *)
(** * Creating and updating a job

    A docker job with registry credentials is created through the service and
    then turned into a shell job. *)
From Stdlib Require Import ZArith Lia Ascii String Sorted.
From stdpp Require Import base list strings gmap.
From S2P Require Import Prelude GoStrings GoUrl GoTime Quartz Calculator Tables Programs Executors RunStore Scheduling JobStore Routing Samples Engine JobService.

Module JobServiceScenario.
Import Programs Executors RunStore JobStore Samples JobService JobServiceProofs.

(** Credentials are stored as one text, which stands for these. *)
Definition hub : DockerRegistryAuth := mk_auth "hub" "u" "p" true.
#[local] Instance hub_codec : JobCodec := {|
  headerCipher := Some (mk_cipher (λ s, Ok (s, 1)) (λ s _, Ok s));
  marshal_headers := λ _, "{}";
  unmarshal_headers := λ _, Ok [];
  marshal_auth := λ _, "{hub}";
  unmarshal_auth := λ _, Ok hub;
|}.

#[local] Instance sample_laws : ScheduleLaws := Scheduling.calculator_laws.

Definition answers (B : Type) (r : request B) : B :=
  match r in request B return B with
  | ServiceNow => start
  | StopRun _ _ _ => None
  | RunTerminal => tt
  end.

Definition group_db : db :=
  set_executor_groups [mk_group "g" "t" "group" "round" "automatic" 1] (sample_db []).

Definition image_job (id language handler : string) (auth : DockerRegistryAuth) (version : Z) : Job :=
  mk_Job id "t"
    (mk_conf "image" "" "fixed_delay" "60" "UTC" "" "POST" "" 30 1 "queue" "fire_once" 1 10 60 100
       (Some "g") handler language "run" None)
    [" GPU "; "eu-1"; "gpu"] ["old"] [] auth true None version.

Definition creation : CreateJobInput := mk_create (image_job "" "docker" "__docker__" hub 0) true.

Definition accepted : Job :=
  match validateJobModel (ci_Job creation) true false start with Ok j => j | Err _ => ci_Job creation end.
Definition sealed : sealed_columns :=
  match seal_job accepted with Ok z => z | Err _ => no_secrets end.

Lemma accepted_job_is_stored_witness :
  RequiredExecutorLabels accepted = ["eu-1"; "gpu"] ∧
  ∃ j' s', run answers (at_ms 0) (Create creation) group_db = (Ok j', s') ∧
    Job_ID j' = created_id accepted group_db ∧
    jobs s' = jobs group_db ++ [created_row accepted sealed (start + 60 * second)
                                  (tx_now (at_ms 0)) group_db] ∧
    job_labels (created_id accepted group_db) s' =
      (RequiredExecutorLabels accepted, ExcludedExecutorLabels accepted).
Proof.
  split; [vm_compute; reflexivity|].
  apply accepted_job_is_stored.
  - vm_compute; reflexivity.
  - intros _. vm_compute. discriminate.
  - vm_compute; reflexivity.
  - vm_compute; reflexivity.
  - vm_compute; reflexivity.
Defined.

Definition created : Job * db :=
  match run answers (at_ms 0) (Create creation) group_db with
  | (Ok j, s) => (j, s)
  | (Err _, s) => (accepted, s)
  end.
Definition to_shell : UpdateJobInput :=
  mk_update (image_job (Job_ID created.1) "shell" "__script__" no_auth 1) false false.
Definition updated : Job * db :=
  match run answers (at_ms 60000) (Update to_shell) created.2 with
  | (Ok j, s) => (j, s)
  | (Err _, s) => (accepted, s)
  end.

(** The shell job still has the credentials of the registry. *)
Lemma credentials_outlive_docker_witness :
  Configured (RegistryAuth updated.1) = true ∧
  c_script_language (Job_Conf updated.1) = "shell" ∧
  ∃ current, GetJob "t" (Job_ID created.1) created.2 = Ok current ∧
    RegistryAuth updated.1 = RegistryAuth current.
Proof.
  split; [vm_compute; reflexivity|]. split; [vm_compute; reflexivity|].
  apply (credentials_outlive_docker answers (at_ms 60000) created.2 to_shell updated.1 updated.2).
  - vm_compute. discriminate.
  - vm_compute; reflexivity.
Defined.
End JobServiceScenario.
