(* ===== verification/Services.v ===== *)
(** * The other services of the control plane

    [internal/core/executor_service.go], [run_service.go],
    [kubernetes_cluster_service.go], [notification_service.go] with the
    validation of [notifications.go], and the status codes of
    [service_errors.go]. *)
From Stdlib Require Import ZArith Lia Ascii String Sorted.
From stdpp Require Import base list strings gmap.
From S2P Require Import Prelude GoStrings GoUrl Utf8 Tables Programs Executors RunStore Routing JobStore Clusters Samples Scheduler ExecutorStore Notifications Engine JobService JobServiceScenario.

(** Webhook, DingTalk and e-mail configurations, decoded. *)
Record webhook_config := mk_webhook {
  wh_URL : string; wh_Headers : list (string * string); wh_Template : string;
}.
Record dingtalk_config := mk_dingtalk {
  dt_URL : string; dt_AuthType : string; dt_AccessToken : string; dt_Secret : string;
  dt_Template : string;
}.
Record email_config := mk_email { em_To : list string; em_Subject : string; em_Template : string }.

(** [json.Unmarshal] into them, [text/template]'s parser, [mail.ParseAddress],
    [httpguts] and [uuid.Validate]. *)
Class ChannelFormats := {
  decode_webhook : string → option webhook_config;
  decode_dingtalk : string → option dingtalk_config;
  decode_email : string → option email_config;
  template_parses : string → bool;
  mail_address : string → option string;
  ValidHeaderFieldName : string → bool;
  ValidHeaderFieldValue : string → bool;
  uuid_valid : string → bool;
}.

Module Services.
Import Utf8 GoUrl Programs Executors RunStore JobStore Clusters Routing ExecutorStore Notifications Engine JobService JobServiceProofs.

(** ** Status codes *)

Inductive code :=
| InvalidArgument | NotFound | Aborted | ResourceExhausted | FailedPrecondition | Internal
| Unavailable | OtherCode.

Definition toStatus (err : error) : code * string :=
  match err with
  | ErrValidation m => (InvalidArgument, m)
  | ErrNotFound => (NotFound, "resource not found")
  | ErrConflict => (Aborted, "resource version conflict")
  | ErrQueueFull => (ResourceExhausted, "job queue is full")
  | ErrNotCancellable => (FailedPrecondition, "run is already terminal")
  | ErrDependencyCycle => (FailedPrecondition, "job dependency would create a cycle")
  | ErrRegistrationMode => (FailedPrecondition, "executor group uses manual registration")
  | ErrExecutorGroupInUse => (FailedPrecondition, "executor group is still referenced by a job")
  | ErrOverrideRequiresExecutorGroup =>
      (FailedPrecondition, "executor address override requires an executor group job")
  | ErrOverrideAddressNotRegistered _ => (InvalidArgument, error_text err)
  | ErrInvalidNotificationScope =>
      (InvalidArgument, "notification channel must target all jobs or one or more specific jobs")
  | ErrKubernetesClusterInUse => (FailedPrecondition, "kubernetes cluster is referenced by a job")
  | _ => (Internal, "operation failed: " +:+ error_text err)
  end.

(** ** Executors *)

Section executors.
Context `{Host} `{Digest} `{IPLiterals}.

Definition validExecutorRouteStrategy (strategy : string) : bool :=
  one_of strategy ["first"; "last"; "round"; "random"; "hash"; "lfu"; "lru"; "failover";
                   "busyover"; "sharding_broadcast"].

Definition normalizeExecutorGroupModel (group : ExecutorGroup) : result ExecutorGroup :=
  _ ← reject ((xg_TenantID group ==s "") || (TrimSpace (xg_Name group) ==s ""))
        "tenant_id and name are required";
  _ ← reject (negb (validExecutorRouteStrategy (xg_RouteStrategy group))) "unsupported route_strategy";
  let mode := ToLower (TrimSpace (xg_RegistrationMode group)) in
  let mode := if mode ==s "" then "automatic" else mode in
  _ ← reject ((mode !=s "automatic") && (mode !=s "manual"))
        "registration_mode must be automatic or manual";
  addresses ← collect (normalize_address
    "manual addresses must be absolute HTTP(S) or gRPC URLs without userinfo")
    (xg_ManualAddresses group) [];
  let addresses := sort_Strings addresses in
  _ ← reject ((mode ==s "manual") && Nat.eqb (length addresses) 0)
        "manual registration requires at least one address";
  _ ← reject ((mode ==s "automatic") && negb (Nat.eqb (length addresses) 0))
        "automatic registration does not accept manual addresses";
  Ok (mk_xgroup (xg_ID group) (xg_TenantID group) (TrimSpace (xg_Name group))
        (xg_RouteStrategy group) mode addresses (xg_Version group)).

Definition CreateGroup (group : ExecutorGroup) : service (result ExecutorGroup) :=
  match invalid (normalizeExecutorGroupModel group) with
  | Err err => mret (Err err)
  | Ok normalized => store (CreateExecutorGroup normalized)
  end.

Definition UpdateGroup (group : ExecutorGroup) : service (result ExecutorGroup) :=
  match invalid (normalizeExecutorGroupModel group) with
  | Err err => mret (Err err)
  | Ok normalized =>
      guarded ((xg_ID normalized ==s "") || (xg_Version normalized <? 1))
        "id and positive version are required" (UpdateExecutorGroup normalized)
  end.

Definition DeleteGroup (tenantID id : string) (version : Z) : service (result unit) :=
  guarded ((tenantID ==s "") || (id ==s "") || (version <? 1))
    "tenant_id, id and positive version are required" (DeleteExecutorGroup tenantID id version).

Record RegisterExecutorNodeInput := mk_register {
  ri_TenantID : string; ri_GroupID : string; ri_NodeID : string; ri_Address : string;
  ri_TTLSeconds : Z; ri_Labels : list string;
}.

(** The checks of [RegisterNode], and the labels that are stored. *)
Definition registration_labels (input : RegisterExecutorNodeInput) : result (list string) :=
  _ ← reject ((ri_TenantID input ==s "") || (ri_GroupID input ==s "")
              || (TrimSpace (ri_NodeID input) ==s "")) "tenant_id, group_id and node_id are required";
  _ ← (match ParseRequestURI (ri_Address input) with
       | Ok u => reject ((url_Host u ==s "") || negb (validExecutorAddressScheme (url_Scheme u))
                         || url_User u) "address must be an absolute HTTP(S) or gRPC URL without userinfo"
       | Err _ => Err (ErrMsg "address must be an absolute HTTP(S) or gRPC URL without userinfo")
       end);
  _ ← reject ((ri_TTLSeconds input <? 5) || (300 <? ri_TTLSeconds input))
        "ttl_seconds must be between 5 and 300";
  normalizeExecutorLabels (ri_Labels input).

Definition RegisterNode (input : RegisterExecutorNodeInput) : service (result ExecutorNode) :=
  match invalid (registration_labels input) with
  | Err err => mret (Err err)
  | Ok labels =>
      store (RegisterExecutorNode (ri_TenantID input) (ri_GroupID input)
               (TrimSpace (ri_NodeID input)) (TrimRightSlash (ri_Address input))
               (dur_mul (ri_TTLSeconds input) second) labels)
  end.

Definition UnregisterNode (tenantID groupID nodeID : string) : service (result unit) :=
  guarded ((tenantID ==s "") || (groupID ==s "") || (TrimSpace nodeID ==s ""))
    "tenant_id, group_id and node_id are required"
    (UnregisterExecutorNode tenantID groupID (TrimSpace nodeID)).
End executors.

(** ** Accepted registrations *)

Lemma label_without_comma l :
  valid_label l = true → forall_char (λ c, negb (Ascii.eqb c ",")) l = true.
Proof.
  destruct l as [|c l]; [done|]. unfold valid_label. intros Hl. bool_to_prop.
  cbn [forall_char]. apply andb_true_iff. split.
  - destruct (Ascii.eqb_spec c ",") as [->|]; done.
  - rename select (forall_char _ _ = true) into Ha. clear -Ha.
    induction l as [|d l IH]; [done|]. cbn [forall_char] in *. bool_to_prop.
    apply andb_true_iff. split; [|by apply IH]. by destruct (Ascii.eqb_spec d ",") as [->|].
Qed.

Lemma node_labels_accepted raw labels :
  normalizeExecutorLabels raw = Ok labels → node_labels_check labels = true.
Proof.
  intros ((HP & _ & _) & Hlen)%normalizeExecutorLabels_spec.
  unfold node_labels_check. apply andb_true_iff. split; [by apply Nat.leb_le|].
  destruct labels as [|l labels]; [done|]. cbn [length Nat.eqb orb].
  change "," with (char_string ","). rewrite Split_Join; [|done|].
  - apply forallb_forall. intros x Hx. rewrite Forall_forall in HP. apply HP. by apply list_elem_of_In.
  - eapply Forall_impl; [exact HP|]. apply label_without_comma.
Qed.

(** [INSERT .. ON CONFLICT DO UPDATE]: afterwards the rows with the key are the
    row that was written. *)
Lemma upserted {A} (p : A → bool) row (l : list A) (Q : A → Prop) :
  p row = true → Q row →
  let l' := if sql_exists p l then sql_update p (λ _, row) l else l ++ [row] in
  sql_select p l' ≠ [] ∧ ∀ x, x ∈ l' → p x = true → Q x.
Proof.
  intros Hp HQ. cbv zeta. destruct (sql_exists p l) eqn:E.
  - apply sql_exists_true in E as (x & Hx & Hpx). split.
    + intros E. assert (row ∈ sql_select p (sql_update p (λ _, row) l)) as Hin.
      { apply elem_of_sql_select. split; [done|]. apply list_elem_of_In, in_map_iff.
        exists x. rewrite Hpx. by rewrite <- list_elem_of_In. }
      rewrite E in Hin. by apply elem_of_nil in Hin.
    + intros y Hy Hpy. apply list_elem_of_In, in_map_iff in Hy as (z & Hz & _).
      destruct (p z) eqn:Ez; [by subst|congruence].
  - split.
    + rewrite sql_select_app. intros E1. apply app_eq_nil in E1 as [_ E']. unfold sql_select in E'. cbn in E'. by rewrite Hp in E'.
    + intros y [Hy|Hy%list_elem_of_singleton]%elem_of_app Hpy; [|by subst].
      assert (sql_exists p l = true) by (apply sql_exists_true; eauto). congruence.
Qed.

Section registration.
Context `{Host} `{Digest} `{IPLiterals}.

(** An accepted registration with an automatic group succeeds; the node then
    has the normalised labels and expires after the lifetime asked for, between
    five seconds and five minutes. *)
Theorem accepted_node_is_registered (h : ∀ B, request B → B) e s input labels g :
  registration_labels input = Ok labels →
  group_of (ri_TenantID input) (ri_GroupID input) s = Some g → g_registration_mode g = "automatic" →
  ∃ s', run h e (RegisterNode input) s =
    (Ok (node_of_row (mk_node (ri_GroupID input) (TrimSpace (ri_NodeID input))
           (TrimRightSlash (ri_Address input)) (tx_now e + ri_TTLSeconds input * second)
           (tx_now e) false labels) 0 0), s') ∧
    sql_select (same_node (ri_GroupID input) (TrimSpace (ri_NodeID input))) (executor_nodes s') ≠ [] ∧
    ∀ n, n ∈ executor_nodes s' → same_node (ri_GroupID input) (TrimSpace (ri_NodeID input)) n = true →
      n_expires_at n = tx_now e + ri_TTLSeconds input * second ∧ n_labels n = labels ∧
      (5 * second ≤ n_expires_at n - tx_now e ≤ 300 * second).
Proof.
  intros Hl Hg Hm. pose proof Hl as Hv. unfold registration_labels in Hv. passed.
  assert (dur_mul (ri_TTLSeconds input) second = ri_TTLSeconds input * second) as Hd.
  { unfold dur_mul. apply wrap64_id. unfold int64_min, int64_max, second. lia. }
  rename select (normalizeExecutorLabels _ = _) into Hn. apply node_labels_accepted in Hn.
  unfold RegisterNode. rewrite Hl, Hd. cbn [invalid store run].
  unfold RegisterExecutorNode, commit, mbind, tx_bind, get, now. rewrite Hg, Hm, Hn. cbn [negb].
  eexists. split; [reflexivity|]. cbn [executor_nodes set_executor_nodes].
  set (p := same_node _ _). set (row := mk_node _ _ _ _ _ _ _).
  assert (p row = true) as Hp by (unfold p, same_node; cbn; by rewrite !String.eqb_refl).
  apply upserted; [done|]. cbn. unfold second. split_and!; [done..|lia|lia].
Qed.
End registration.

(** ** Runs *)

Section runs.
Context `{Host} `{ScheduleCalc} `{Sha256}.

Definition normalizeCancelReason (reason : string) : result string :=
  let reason := TrimSpace reason in
  let reason := if reason ==s "" then "cancelled by operator" else reason in
  _ ← reject (500 <? len reason) "reason must not exceed 500 bytes";
  Ok reason.

(** The executor is told within five seconds or not at all: the command the
    transaction left behind remains. *)
Definition Cancel (hasExecutor : bool) (tenantID runID reason : string) : service (result Run) :=
  match invalid (_ ← reject ((tenantID ==s "") || (runID ==s "")) "tenant_id and run_id are required";
                 normalizeCancelReason reason) with
  | Err err => mret (Err err)
  | Ok reason =>
      r ← store (CancelRun tenantID runID reason);
      match r with
      | Err err => mret (Err err)
      | Ok run =>
          _ ← (if hasExecutor && (ExecutorAddress run !=s "")
               then effect (StopRun (ExecutorAddress run) (ID run) reason) else mret None);
          mret (Ok run)
      end
  end.

Definition CompleteCallback (runID token : string) (succeeded : bool) (message : string)
    : service (result unit) :=
  if (runID ==s "") || (token ==s "")
  then mret (Err (ErrValidation "run_id and token are required"))
  else
    r ← store (RunStore.CompleteCallback runID (sha256 token) succeeded message);
    match r with
    | Err err => mret (Err err)
    | Ok _ => _ ← effect RunTerminal; mret (Ok tt)
    end.
End runs.

(** ** Kubernetes clusters *)

Section clusters.
Context `{Host} `{JobCodec} `{CredentialCodec} `{IPLiterals}.

Definition CreateCluster (cluster : KubernetesCluster) (provided : bool)
    : service (result KubernetesCluster) :=
  guarded (negb provided) "cluster is required" (CreateKubernetesCluster cluster).

Definition no_credentials (c : KubernetesCredentials) : bool :=
  (Kubeconfig c ==s "") && (kc_Token c ==s "") && (CAData c ==s "").

(** Without credentials in the request those of the cluster are kept. *)
Definition UpdateCluster (cluster : KubernetesCluster) (provided : bool)
    : service (result KubernetesCluster) :=
  if negb provided then mret (Err (ErrValidation "cluster is required"))
  else if no_credentials (kc_Credentials cluster) then
    found ← store (GetKubernetesCluster (kc_TenantID cluster) (kc_ID cluster));
    match found with
    | Err err => mret (Err err)
    | Ok current =>
        guarded (AuthMode current !=s AuthMode cluster)
          "credentials are required when changing auth_mode"
          (UpdateKubernetesCluster (set_credentials (kc_Credentials current) cluster))
    end
  else store (UpdateKubernetesCluster cluster).

Definition DeleteCluster (tenantID id : string) (version : Z) : service (result unit) :=
  store (DeleteKubernetesCluster tenantID id version).
End clusters.

(** ** Notification channels *)

Section notifications.
Context `{Host} `{JobCodec} `{IPLiterals} `{ChannelFormats}.

Definition notificationEventTypes : list string :=
  ["pending"; "running"; "waiting_callback"; "succeeded"; "failed"; "timed_out"; "cancelled";
   "skipped"; "exhausted"].
Definition maxNotificationConfigBytes : Z := Z.shiftl 256 10.
Definition maxNotificationTemplateBytes : Z := Z.shiftl 64 10.

Definition line_break (c : ascii) : bool := nat_in 13 13 c || nat_in 10 10 c.

(** A template that is too long, or does not parse. *)
Definition check_template (kind source : string) : result unit :=
  _ ← reject (maxNotificationTemplateBytes <? len source) (kind +:+ " template exceeds 64 KiB");
  reject ((source !=s "") && negb (template_parses source)) ("invalid " +:+ kind +:+ " template").

Definition url_refused (raw : string) (schemes : list string) : bool :=
  match ParseRequestURI raw with
  | Ok u => (url_Host u ==s "") || negb (one_of (url_Scheme u) schemes) || url_User u
  | Err _ => true
  end.

Definition header_refused (header : string * string) : bool :=
  (256 <? len header.1) || (8192 <? len header.2) || negb (ValidHeaderFieldName header.1)
  || negb (ValidHeaderFieldValue header.2).

Definition validate_webhook (raw : string) : result unit :=
  match decode_webhook raw with
  | None => Err (ErrMsg "invalid webhook config")
  | Some config =>
      _ ← reject (url_refused (wh_URL config) ["http"; "https"])
            "webhook url must be an absolute HTTP or HTTPS URL without userinfo";
      _ ← reject (Nat.ltb 100 (length (wh_Headers config)))
            "webhook config supports at most 100 headers";
      _ ← reject (existsb header_refused (wh_Headers config)) "invalid webhook header";
      check_template "webhook" (wh_Template config)
  end.

Definition validate_dingtalk (raw : string) : result unit :=
  match decode_dingtalk raw with
  | None => Err (ErrMsg "invalid dingtalk config")
  | Some config =>
      let auth := dt_AuthType config in
      _ ← reject (url_refused (dt_URL config) ["https"])
            "dingtalk url must be an absolute HTTPS URL without userinfo";
      _ ← (if (auth ==s "") || (auth ==s "none") then Ok tt
           else if auth ==s "access_token" then
             reject (dt_AccessToken config ==s "")
               "dingtalk access_token authentication requires access_token"
           else if auth ==s "hmac_sha256" then
             reject (dt_Secret config ==s "") "dingtalk hmac_sha256 authentication requires secret"
           else Err (ErrMsg "dingtalk auth_type must be none, access_token, or hmac_sha256"));
      check_template "dingtalk" (dt_Template config)
  end.

Definition recipient_refused (recipient : string) : bool :=
  negb (bool_decide (mail_address recipient = Some recipient)) || (320 <? len recipient)
  || exists_char line_break recipient.

(** The subject and the template are parsed in the order of a Go map, so only
    which of two errors is reported is not determined; the subject's is taken. *)
Definition validate_email (raw : string) : result unit :=
  match decode_email raw with
  | None => Err (ErrMsg "email config requires at least one recipient")
  | Some config =>
      _ ← reject (Nat.eqb (length (em_To config)) 0) "email config requires at least one recipient";
      _ ← reject (Nat.ltb 100 (length (em_To config))) "email config supports at most 100 recipients";
      _ ← reject (existsb recipient_refused (em_To config)) "invalid email recipient";
      _ ← reject ((998 <? len (em_Subject config)) || exists_char line_break (em_Subject config))
            "invalid email subject";
      _ ← reject (maxNotificationTemplateBytes <? len (em_Template config))
            "email template exceeds 64 KiB";
      _ ← reject ((em_Subject config !=s "") && negb (template_parses (em_Subject config)))
            "invalid email subject";
      reject ((em_Template config !=s "") && negb (template_parses (em_Template config)))
        "invalid email template"
  end.

Definition validateNotificationConfig (kind raw : string) : result unit :=
  _ ← reject ((len raw =? 0) || (maxNotificationConfigBytes <? len raw))
        "notification config must be between 1 byte and 256 KiB";
  if kind ==s "webhook" then validate_webhook raw
  else if kind ==s "dingtalk" then validate_dingtalk raw
  else if kind ==s "email" then validate_email raw
  else Err (ErrMsg "kind must be webhook, email, or dingtalk").

Definition normalizeNotificationEvents (events : list string) : result (list string) :=
  _ ← reject (Nat.ltb 100 (length events)) "at most 100 notification events are allowed";
  let events := if Nat.eqb (length events) 0 then ["exhausted"] else events in
  out ← collect (λ event,
    let event := TrimPrefix (TrimSpace event) "job.run." in
    if one_of event notificationEventTypes then Ok event
    else Err (ErrMsg "unsupported notification event")) events [];
  Ok (map (λ event, "job.run." +:+ event) out).

Definition normalizeNotificationJobIDs (ids : list string) : result (list string) :=
  _ ← reject (Nat.ltb 10000 (length ids)) "at most 10000 notification job IDs are allowed";
  collect (λ id, if uuid_valid (TrimSpace id) then Ok (TrimSpace id)
                 else Err (ErrMsg "invalid notification job id")) ids [].

Definition or_default (d z : Z) : Z := if z =? 0 then d else z.

Definition notificationChannelForWrite (tenantID id kind name config : string)
    (rawEvents : list string) (allJobs : bool) (rawJobIDs : list string)
    (rawMaxAttempts rawInitialBackoff rawMaxBackoff version : Z) : result NotificationChannel :=
  let name := TrimSpace name in
  _ ← reject ((tenantID ==s "") || (name ==s "")) "tenant_id and name are required";
  _ ← reject (200 <? len name) "name must not exceed 200 bytes";
  _ ← validateNotificationConfig kind config;
  events ← normalizeNotificationEvents rawEvents;
  jobIDs ← normalizeNotificationJobIDs rawJobIDs;
  _ ← reject (allJobs && negb (Nat.eqb (length jobIDs) 0)) "all_jobs cannot be combined with job_ids";
  let allJobs := allJobs || Nat.eqb (length jobIDs) 0 in
  let maxAttempts := or_default 8 rawMaxAttempts in
  let initialBackoff := or_default 2 rawInitialBackoff in
  let maxBackoff := or_default 300 rawMaxBackoff in
  _ ← reject ((maxAttempts <? 1) || (100 <? maxAttempts) || (initialBackoff <? 1)
              || (3600 <? initialBackoff) || (maxBackoff <? initialBackoff) || (86400 <? maxBackoff))
        "invalid retry policy";
  Ok (mk_nchannel id tenantID kind name config events allJobs false jobIDs maxAttempts
        initialBackoff maxBackoff version).

Record NotificationChannelInput := mk_channel_input {
  ni_TenantID : string; ni_ID : string; ni_Kind : string; ni_Name : string; ni_Config : string;
  ni_Events : list string; ni_JobIDs : list string; ni_AllJobs : bool;
  ni_MaxAttempts : Z; ni_InitialBackoff : Z; ni_MaxBackoff : Z; ni_Version : Z;
}.

Definition notificationChannelFromInput (input : NotificationChannelInput) (config : string)
    : result NotificationChannel :=
  notificationChannelForWrite (ni_TenantID input) (ni_ID input) (ni_Kind input) (ni_Name input)
    config (ni_Events input) (ni_AllJobs input) (ni_JobIDs input) (ni_MaxAttempts input)
    (ni_InitialBackoff input) (ni_MaxBackoff input) (ni_Version input).

Definition CreateChannel (input : NotificationChannelInput) : service (result NotificationChannel) :=
  match invalid (notificationChannelFromInput input (ni_Config input)) with
  | Err err => mret (Err err)
  | Ok channel => store (CreateNotificationChannel channel)
  end.

(** The configuration of the request, or that of the channel when there is none. *)
Definition updated_config (input : NotificationChannelInput) : service (result string) :=
  if len (ni_Config input) =? 0 then
    found ← store (query (λ _ s, GetNotificationChannel (ni_TenantID input) (ni_ID input) s));
    mret (current ← found;
          if nc_Kind current !=s ni_Kind input
          then Err (ErrValidation "config_json is required when changing notification channel kind")
          else Ok (nc_Config current))
  else mret (Ok (ni_Config input)).

Definition UpdateChannel (input : NotificationChannelInput) : service (result NotificationChannel) :=
  if (ni_TenantID input ==s "") || (ni_Version input <? 1) || negb (uuid_valid (ni_ID input))
  then mret (Err (ErrValidation "UUID id and positive version are required"))
  else
    config ← updated_config input;
    match config with
    | Err err => mret (Err err)
    | Ok config =>
        match invalid (notificationChannelFromInput input config) with
        | Err err => mret (Err err)
        | Ok channel => store (UpdateNotificationChannel channel)
        end
    end.

Definition SetChannelEnabled (tenantID id : string) (enabled : bool) (version : Z)
    : service (result NotificationChannel) :=
  guarded ((tenantID ==s "") || negb (uuid_valid id) || (version <? 1))
    "tenant_id, UUID id and positive version are required"
    (SetNotificationChannelEnabled tenantID id enabled version).

Definition DeleteChannel (tenantID id : string) (version : Z) : service (result unit) :=
  guarded ((tenantID ==s "") || negb (uuid_valid id) || (version <? 1))
    "tenant_id, UUID id and positive version are required"
    (DeleteNotificationChannel tenantID id version).

(** ** Accepted channels *)

Lemma collect_grows f l acc out : collect f l acc = Ok out → (length acc ≤ length out)%nat.
Proof.
  revert acc. induction l as [|x l IH]; intros acc; cbn; [by intros [= <-]|].
  intros (y & _ & E)%result_bind_Ok. apply IH in E. destruct (one_of y acc); [done|].
  rewrite length_app in E. lia.
Qed.

Lemma collect_nonempty f l out : collect f l [] = Ok out → l ≠ [] → out ≠ [].
Proof.
  destruct l as [|x l]; [done|]. cbn. intros (y & _ & E)%result_bind_Ok _ ->.
  apply collect_grows in E. cbn in E. lia.
Qed.

Lemma config_kind kind raw u :
  validateNotificationConfig kind raw = Ok u → one_of kind ["webhook"; "email"; "dingtalk"] = true.
Proof.
  unfold validateNotificationConfig. intros E. passed. rewrite one_of_true.
  destruct (kind ==s "webhook") eqn:E1; bool_to_prop; [set_solver|].
  destruct (kind ==s "dingtalk") eqn:E2; bool_to_prop; [set_solver|].
  destruct (kind ==s "email") eqn:E3; bool_to_prop; [set_solver|done].
Qed.

Lemma jobs_distinct raw ids : normalizeNotificationJobIDs raw = Ok ids → NoDup ids.
Proof.
  unfold normalizeNotificationJobIDs. intros E. passed.
  by eapply (collect_spec _ (λ _, True)); [done|constructor|constructor|].
Qed.

Lemma events_accepted raw events :
  normalizeNotificationEvents raw = Ok events →
  events ≠ [] ∧ NoDup events ∧
  Forall (λ topic, ∃ event, event ∈ notificationEventTypes ∧ topic = "job.run." +:+ event) events.
Proof.
  unfold normalizeNotificationEvents. intros E. passed. subst.
  rename select (collect _ _ _ = Ok _) into Hc. pose proof Hc as Hne.
  apply collect_nonempty in Hne; [|by destruct raw].
  eapply (collect_spec _ (λ event, event ∈ notificationEventTypes)) in Hc as [HP Hn];
    [|intros a b; destruct (one_of _ _) eqn:Eo; [|done]; intros [= <-]; by apply one_of_true
     |constructor|constructor].
  split_and!.
  - intros E. by apply fmap_nil_inv in E.
  - apply NoDup_fmap_2; [|done]. intros a b Hab. by apply (inj (String.app "job.run.")) in Hab.
  - apply Forall_fmap. eapply Forall_impl; [exact HP|]. naive_solver.
Qed.

(** An accepted notification channel satisfies the constraints of its table, has
    a consistent scope, distinct jobs, and distinct topics, all of them topics of
    run events. *)
Theorem accepted_channel_is_consistent tenantID id kind name config events allJobs jobIDs a b c version channel :
  notificationChannelForWrite tenantID id kind name config events allJobs jobIDs a b c version
    = Ok channel →
  channel_check channel = true ∧ scope_invalid channel = false ∧
  NoDup (nc_JobIDs channel) ∧ NoDup (nc_Events channel) ∧
  Forall (λ topic, ∃ event, event ∈ notificationEventTypes ∧ topic = "job.run." +:+ event)
    (nc_Events channel).
Proof.
  unfold notificationChannelForWrite. cbv zeta. intros E. passed. subst.
  rename select (normalizeNotificationEvents _ = Ok _) into Hev.
  apply events_accepted in Hev as (Hne & Hnd & Hall).
  rename select (validateNotificationConfig _ _ = Ok _) into Hk. apply config_kind in Hk.
  rename select (normalizeNotificationJobIDs _ = Ok _) into Hj. apply jobs_distinct in Hj.
  cbn. split_and!; try done.
  - unfold channel_check. cbn [nc_Kind nc_MaxAttempts nc_BackoffInitialSeconds nc_BackoffMaxSeconds nc_Events].
    rewrite Hk, !andb_true_iff. split_and!; try done; try (apply Z.leb_le; lia).
    match goal with |- negb (Nat.eqb (length ?l) 0) = true => by destruct l end.
  - unfold scope_invalid. cbn. match goal with |- context [length ?l] => destruct l end;
      rename select (_ ∨ _) into Ha; destruct allJobs; cbn in *; naive_solver.
Qed.
End notifications.
End Services.

(** * A channel and a node accepted by the services *)

Module ServicesScenario.
Import Programs JobStore ExecutorStore Notifications Samples JobService JobServiceScenario Services.

(** Every text is a webhook to one host, and every identifier is accepted. *)
#[local] Instance sample_formats : ChannelFormats := {|
  decode_webhook := λ _, Some (mk_webhook "https://hooks.example/x" [("Accept", "a")] "");
  decode_dingtalk := λ _, None;
  decode_email := λ _, None;
  template_parses := λ _, true;
  mail_address := Some;
  ValidHeaderFieldName := λ _, true;
  ValidHeaderFieldValue := λ _, true;
  uuid_valid := λ _, true;
|}.

Definition hook : result NotificationChannel :=
  notificationChannelForWrite "t" "" "webhook" " hook " "{}" ["failed"; "job.run.failed"; "exhausted"]
    false ["j"; " j "] 0 0 0 0.
Definition hook_channel : NotificationChannel :=
  match hook with Ok c => c | Err _ => mk_nchannel "" "" "" "" "" [] false false [] 0 0 0 0 end.

Lemma accepted_channel_is_consistent_witness :
  nc_Events hook_channel = ["job.run.failed"; "job.run.exhausted"] ∧
  nc_JobIDs hook_channel = ["j"] ∧ channel_check hook_channel = true ∧
  scope_invalid hook_channel = false.
Proof.
  split; [vm_compute; reflexivity|]. split; [vm_compute; reflexivity|].
  destruct (accepted_channel_is_consistent "t" "" "webhook" " hook " "{}"
    ["failed"; "job.run.failed"; "exhausted"] false ["j"; " j "] 0 0 0 0 hook_channel) as (Hc & Hs & _).
  - vm_compute; reflexivity.
  - exact (conj Hc Hs).
Defined.

Definition registration : RegisterExecutorNodeInput :=
  mk_register "t" "g" " n1 " "grpc://host:9000/" 30 ["GPU"; "eu-1"].

Lemma accepted_node_is_registered_witness :
  ∃ s', run answers (at_ms 0) (RegisterNode registration) group_db =
    (Ok (node_of_row (mk_node "g" "n1" "grpc://host:9000" (tx_now (at_ms 0) + 30 * second)
           (tx_now (at_ms 0)) false ["eu-1"; "gpu"]) 0 0), s') ∧
    sql_select (same_node "g" "n1") (executor_nodes s') ≠ [].
Proof.
  destruct (accepted_node_is_registered answers (at_ms 0) group_db registration ["eu-1"; "gpu"]
    (mk_group "g" "t" "group" "round" "automatic" 1)) as (s' & Hr & Hs & _).
  - vm_compute; reflexivity.
  - vm_compute; reflexivity.
  - reflexivity.
  - exists s'. exact (conj Hr Hs).
Defined.
End ServicesScenario.
