(* ===== verification/Operations.v ===== *)
(** * Reading and housekeeping

    [internal/core/operations_service.go], the history pages of
    [notification_service.go], and the listings, reports and the dashboard of
    [internal/store]. *)
From Stdlib Require Import ZArith Lia Ascii String.
From stdpp Require Import base list strings option.
From S2P Require Import Prelude GoStrings GoUrl GoTime Utf8 TimeFormat Base64 GoJson Calculator Tables Programs Executors RunStore JobStore Samples Notifications RunLogs History Engine JobService Services.

(** The instant PostgreSQL gives to midnight of a day in a zone; [json.Unmarshal]
    of a cursor. *)
Class PgZones := pg_midnight : Location → Z → time.
Class CursorJson := decode_payload : string → option (Z * string * string).

Module Operations.
Import Utf8 TimeFormat Base64 GoJson Calculator Programs Executors RunStore JobStore Notifications RunLogs History Engine JobService Services.

(** ** Listings *)

Section listings.
Context `{JobCodec}.

(** [ORDER BY created_at DESC LIMIT $2], then the labels of all jobs *)
Definition ListJobs (tenantID : string) (limit : Z) (s : db) : result (list Job) :=
  let limit := if (limit <? 1) || (200 <? limit) then 50 else limit in
  jobs ← mapM scanJob (take (Z.to_nat limit)
           (sort_by (λ a b, j_created_at b <=? j_created_at a)
              (sql_select (λ j, j_tenant_id j ==s tenantID) (jobs s))));
  Ok (map (λ j, let '(required, excluded) := job_labels (Job_ID j) s in
                set_labels required excluded j) jobs).

Record JobScriptVersion := mk_version {
  sv_ID : string; sv_JobID : string; sv_Revision : Z; sv_ScriptLanguage : string;
  sv_ScriptSource : string; sv_Remark : string; sv_CreatedAt : time;
}.

(** [ORDER BY revision DESC LIMIT 100] *)
Definition ListJobScriptVersions (tenantID jobID : string) (s : db) : result (list JobScriptVersion) :=
  if negb (sql_exists (λ j, tenant_job tenantID jobID j && (c_script_language (j_conf j) !=s "")) (jobs s))
  then Err ErrNotFound
  else Ok (map (λ v, mk_version (s_id v) (s_job_id v) (s_revision v) (s_script_language v)
                       (s_script_source v) (s_remark v) (s_created_at v))
    (take 100 (sort_by (λ a b, s_revision b <=? s_revision a)
       (sql_select (λ v, (s_tenant_id v ==s tenantID) && (s_job_id v ==s jobID))
                   (job_script_versions s))))).

Definition ListScriptVersions (tenantID jobID : string) : service (result (list JobScriptVersion)) :=
  guarded ((tenantID ==s "") || (jobID ==s "")) "tenant_id and job_id are required"
    (query (λ _ s, ListJobScriptVersions tenantID jobID s)).

(** ** The dashboard *)

Record Dashboard := mk_dashboard {
  db_Jobs : Z; db_EnabledJobs : Z; db_PendingRuns : Z; db_RunningRuns : Z;
  db_Succeeded24H : Z; db_Failed24H : Z; db_RecentFailures : list Run; db_Upcoming : list Job;
}.

Definition day24 : duration := 24 * hour.
Definition failure (st : run_status) : bool := (st =st Failed) || (st =st TimedOut).

(** The number of jobs, and how many are enabled. *)
Definition dashboard_jobs (tenantID : string) (s : db) : Z * Z :=
  let js := sql_select (λ j, j_tenant_id j ==s tenantID) (jobs s) in
  (Z.of_nat (length js), Z.of_nat (sql_count j_enabled js)).

(** Pending and running runs; those of the last day that succeeded, that failed. *)
Definition dashboard_runs (tenantID : string) (t : time) (s : db) : Z * Z * Z * Z :=
  let rs := sql_select (λ r, r_tenant_id r ==s tenantID) (job_runs s) in
  let count p := Z.of_nat (sql_count p rs) in
  let recent r := (t - day24 <=? i_scheduled_at (r_info r)) in
  (count (λ r, r_status r =st Pending),
   count (λ r, (r_status r =st Running) || (r_status r =st WaitingCallback)),
   count (λ r, (r_status r =st Succeeded) && recent r),
   count (λ r, failure (r_status r) && recent r)).

(** [ORDER BY next_run_at LIMIT 12] *)
Definition upcoming_jobs (tenantID : string) (s : db) : result (list Job) :=
  mapM scanJob (take 12
    (sort_by (λ a b, default 0 (j_next_run_at a) <=? default 0 (j_next_run_at b))
       (sql_select (λ j, (j_tenant_id j ==s tenantID) && j_enabled j
                         && bool_decide (j_next_run_at j ≠ None)) (jobs s)))).

(** Four queries one after the other; at most five failures among the latest
    twenty runs. *)
Definition dashboard (tenantID : string) : service (result Dashboard) :=
  js ← store (query (λ _ s, Ok (dashboard_jobs tenantID s)));
  match js with
  | Err err => mret (Err err)
  | Ok (total, enabled) =>
      rs ← store (query (λ t s, Ok (dashboard_runs tenantID t s)));
      match rs with
      | Err err => mret (Err err)
      | Ok (pending, running, succeeded, failed) =>
          latest ← store (query (λ _ s, Ok (ListRuns tenantID "" 20 s)));
          match latest with
          | Err err => mret (Err err)
          | Ok runs =>
              next ← store (query (λ _ s, upcoming_jobs tenantID s));
              mret (upcoming ← next;
                    Ok (mk_dashboard total enabled pending running succeeded failed
                          (take 5 (List.filter (λ r, failure (Status r)) runs)) upcoming))
          end
      end
  end.
End listings.

(** ** Reports *)

Record RunReportPoint := mk_point {
  pt_Date : string; pt_Total : Z; pt_Succeeded : Z; pt_Failed : Z; pt_Active : Z;
  pt_Cancelled : Z; pt_Skipped : Z;
}.

Definition active (st : run_status) : bool :=
  (st =st Pending) || (st =st Running) || (st =st WaitingCallback).

(** The days of a report, from the first to the last. *)
Definition report_days (first last : Z) : list Z :=
  map (λ k, first + Z.of_nat k) (seq 0 (Z.to_nat (last - first + 1))).

Section reports.
Context `{TZData} `{PgZones}.

Definition reported (tenantID : string) (loc : Location) (first last : Z) (r : run_row) : bool :=
  (r_tenant_id r ==s tenantID) && (pg_midnight loc first <=? i_scheduled_at (r_info r))
  && (i_scheduled_at (r_info r) <? pg_midnight loc (last + 1)).

Definition report_point (loc : Location) (runs : list run_row) (day : Z) : RunReportPoint :=
  let of_day := sql_select (λ r, local_days loc (i_scheduled_at (r_info r)) =? day) runs in
  let count p := Z.of_nat (sql_count (λ r, p (r_status r)) of_day) in
  mk_point (FormatDateOnly day) (Z.of_nat (length of_day)) (count (λ st, st =st Succeeded))
    (count failure) (count active) (count (λ st, st =st Cancelled)) (count (λ st, st =st Skipped)).

(** The [LEFT JOIN] of the days with the counts. *)
Definition run_report (tenantID : string) (from to : time) (loc : Location) (s : db)
    : list RunReportPoint :=
  let first := local_days loc from in
  let last := local_days loc to in
  map (report_point loc (sql_select (reported tenantID loc first last) (job_runs s)))
    (report_days first last).

Definition maxRunReportDays : Z := 90.

Record RunReportInput := mk_report_input {
  rr_TenantID : string; rr_FromDate : string; rr_ToDate : string; rr_Timezone : string;
}.

(** [int(toUTCDate.Sub(fromUTCDate).Hours()/24) + 1] *)
Definition report_length (loc : Location) (from to : time) : Z :=
  Z.quot (Sub (local_days loc to * 86400 * second) (local_days loc from * 86400 * second))
    (24 * hour) + 1.

Definition parsed_date (raw : string) (loc : Location) (d : time) (message : string) : result time :=
  if raw ==s "" then Ok d
  else match ParseDateOnly raw loc with Some t => Ok t | None => Err (ErrMsg message) end.

Definition normalizeRunReportInput (input : RunReportInput) (now : time)
    : result (time * time * Location) :=
  _ ← reject (rr_TenantID input ==s "") "tenant_id is required";
  let zoneName := if rr_Timezone input ==s "" then "UTC" else rr_Timezone input in
  loc ← (match LoadLocation zoneName with Ok loc => Ok loc | Err _ => Err (ErrMsg "invalid timezone") end);
  let '(y, m, d) := DateOf loc now in
  let to := Date y m d 0 0 0 0 loc in
  let '(y', m', d') := DateOf loc to in
  from ← parsed_date (rr_FromDate input) loc (Date y' m' (d' - 13) 0 0 0 0 loc)
           "from_date must use YYYY-MM-DD";
  to ← parsed_date (rr_ToDate input) loc to "to_date must use YYYY-MM-DD";
  _ ← reject (Before to from) "to_date must not precede from_date";
  _ ← reject (maxRunReportDays <? report_length loc from to) "date range must not exceed 90 days";
  Ok (from, to, loc).

Definition RunReport (input : RunReportInput) (now : time)
    : service (result (time * time * Location * list RunReportPoint)) :=
  match invalid (normalizeRunReportInput input now) with
  | Err err => mret (Err err)
  | Ok (from, to, loc) =>
      points ← store (query (λ _ s, Ok (run_report (rr_TenantID input) from to loc s)));
      mret (points ← points; Ok (from, to, loc, points))
  end.
End reports.

(** ** Logs and the history of runs *)

Definition maxRunLogEntryBytes : Z := Z.shiftl 64 10.

Definition log_refused (entry : RunLogInput) : option string :=
  if (TrimSpace (li_EntryID entry) ==s "") || (128 <? len (li_EntryID entry))
  then Some "entry_id must contain between 1 and 128 characters"
  else if negb (one_of (li_Stream entry) ["stdout"; "stderr"]) then Some "stream must be stdout or stderr"
  else if maxRunLogEntryBytes <? len (li_Content entry) then Some "content must not exceed 65536 bytes"
  else None.

Fixpoint check_entries (entries : list RunLogInput) : result unit :=
  match entries with
  | [] => Ok tt
  | entry :: rest =>
      match log_refused entry with Some message => Err (ErrMsg message) | None => check_entries rest end
  end.

Definition validateRunLogInputs (entries : list RunLogInput) : result unit :=
  _ ← reject (Nat.eqb (length entries) 0 || Nat.ltb 100 (length entries))
        "entries must contain between 1 and 100 items";
  check_entries entries.

Section operations.
Context `{Sha256} `{ChannelFormats}.

Definition AppendLogs (runID token : string) (entries : list RunLogInput) : service (result Z) :=
  match invalid
    (_ ← reject ((runID ==s "") || (token ==s "")) "run_id and token are required";
     validateRunLogInputs entries) with
  | Err err => mret (Err err)
  | Ok _ => store (AppendRunLogs runID (sha256 token) entries)
  end.

Definition ListLogs (tenantID runID : string) (after limit : Z)
    : service (result (list RunLogEntry * Z)) :=
  guarded ((tenantID ==s "") || (runID ==s "") || (after <? 0))
    "tenant_id, run_id and a non-negative cursor are required"
    (query (λ _ s, ListRunLogs tenantID runID after limit s)).

Definition PurgeHistory (tenantID jobID : string) (before : time) (limit : Z) : service (result Z) :=
  match invalid
    (_ ← reject (tenantID ==s "") "tenant_id is required";
     _ ← reject (IsZero before) "valid before timestamp is required";
     _ ← reject ((jobID !=s "") && negb (uuid_valid jobID)) "job_id must be a UUID";
     reject ((limit <? 0) || (10000 <? limit)) "limit must be between 1 and 10000") with
  | Err err => mret (Err err)
  | Ok _ => store (PurgeRunHistory tenantID jobID before (Z.to_nat (if limit =? 0 then 1000 else limit)))
  end.
End operations.

(** ** Pages of the notification history *)

Section history.
Context `{ChannelFormats} `{CursorJson}.

Definition cursor_payload (v : Z) (createdAt id : string) : string :=
  "{" +:+ json_field "v" (Itoa v) +:+ "," +:+ json_field "created_at" (json_string createdAt) +:+ ","
  +:+ json_field "id" (json_string id) +:+ "}".

Definition encodeNotificationHistoryCursor (createdAt : time) (id : string) : string :=
  EncodeToString (cursor_payload 1 (FormatRFC3339Nano createdAt) id).

Definition decodeNotificationHistoryCursor (raw : string) : result (option (time * string)) :=
  if raw ==s "" then Ok None
  else if 512 <? len raw then Err (ErrMsg "cursor is too long")
  else
    match DecodeRaw url_alphabet raw with
    | None => Err (ErrMsg "decode cursor")
    | Some payloadBytes =>
        match decode_payload payloadBytes with
        | None => Err (ErrMsg "decode cursor payload")
        | Some (v, createdAt, id) =>
            if negb (v =? 1) || negb (uuid_valid id) then Err (ErrMsg "decode cursor payload")
            else
              match parse_rfc3339 createdAt with
              | None => Err (ErrMsg "decode cursor timestamp")
              | Some t => if IsZero t then Err (ErrMsg "decode cursor timestamp") else Ok (Some (t, id))
              end
        end
    end.

Record NotificationHistoryInput := mk_history_input {
  hi_TenantID : string; hi_ChannelID : string; hi_JobID : string; hi_Status : string;
  hi_Cursor : string; hi_Limit : Z;
}.

Definition history_limit (input : NotificationHistoryInput) : Z :=
  if hi_Limit input =? 0 then 100 else hi_Limit input.

Definition ListHistory (input : NotificationHistoryInput)
    : service (result (list NotificationHistoryEntry * string)) :=
  let limit := history_limit input in
  match invalid
    (_ ← reject (hi_TenantID input ==s "") "tenant_id is required";
     _ ← reject ((hi_ChannelID input !=s "") && negb (uuid_valid (hi_ChannelID input)))
           "channel_id must be a UUID";
     _ ← reject ((hi_JobID input !=s "") && negb (uuid_valid (hi_JobID input))) "job_id must be a UUID";
     _ ← reject (negb (one_of (hi_Status input) [""; "pending"; "delivered"; "dead"]))
           "status must be pending, delivered, or dead";
     _ ← reject ((limit <? 1) || (500 <? limit)) "limit must be between 1 and 500";
     match decodeNotificationHistoryCursor (hi_Cursor input) with
     | Ok cursor => Ok cursor
     | Err _ => Err (ErrMsg "invalid notification history cursor")
     end) with
  | Err err => mret (Err err)
  | Ok cursor =>
      entries ← store (query (λ _ s, Ok (NotificationHistory (hi_TenantID input) (hi_ChannelID input)
                  (hi_JobID input) (hi_Status input) (fst <$> cursor) (snd <$> cursor)
                  (Z.to_nat (limit + 1)) s)));
      mret (entries ← entries;
            if Z.of_nat (length entries) <=? limit then Ok (entries, "")
            else
              let page := take (Z.to_nat limit) entries in
              Ok (page, match list.last page with
                        | Some e => encodeNotificationHistoryCursor (nh_CreatedAt e) (nh_DeliveryID e)
                        | None => ""
                        end))
  end.
End history.
End Operations.

(** * Properties of reports and history pages *)

Module OperationsProofs.
Import GoUrl Utf8 TimeFormat Base64 GoJson Calculator Programs RunStore JobStore Notifications JobService Services Operations.

Definition total (l : list Z) : Z := foldr Z.add 0 l.

(** ** Reports *)

Lemma total_join l k : total (l ++ k) = total l + total k.
Proof. induction l as [|x l IH]; [done|]. unfold total in *. cbn. lia. Qed.

(** Elements counted by the value of [f], one value after the other. *)
Lemma buckets {A} (f : A → Z) first (l : list A) n :
  total (map (λ k, Z.of_nat (length (sql_select (λ x, f x =? first + Z.of_nat k) l))) (seq 0 n))
    = Z.of_nat (sql_count (λ x, (first <=? f x) && (f x <? first + Z.of_nat n)) l).
Proof.
  induction n as [|n IH].
  { cbn. unfold sql_count, sql_select. rewrite filter_none; [done|]. intros x _. apply andb_false_iff. rewrite Z.leb_gt, Z.ltb_ge. lia. }
  rewrite seq_S, map_app, total_join, IH. cbn [map total foldr Nat.add]. clear IH.
  unfold sql_count, sql_select. induction l as [|x l IHl]; [done|]. cbn [List.filter].
  destruct (f x =? first + Z.of_nat n) eqn:E1,
    ((first <=? f x) && (f x <? first + Z.of_nat n)) eqn:E2,
    ((first <=? f x) && (f x <? first + Z.of_nat (S n))) eqn:E3; cbn [length];
    rewrite ?andb_true_iff, ?andb_false_iff, ?Z.leb_le, ?Z.ltb_lt, ?Z.leb_gt, ?Z.ltb_ge,
      ?Z.eqb_eq, ?Z.eqb_neq in *; lia.
Qed.

Lemma sum_point loc runs day :
  let p := report_point loc runs day in
  pt_Total p = pt_Succeeded p + pt_Failed p + pt_Active p + pt_Cancelled p + pt_Skipped p.
Proof.
  unfold report_point. cbv zeta. cbn [pt_Total pt_Succeeded pt_Failed pt_Active pt_Cancelled pt_Skipped].
  set (l := sql_select _ runs). clearbody l. unfold sql_count, sql_select.
  induction l as [|r l IH]; [done|]. cbn [List.filter length].
  unfold failure, active in *.
  destruct (r_status r); repeat (case_bool_decide; try done); cbn [orb length]; lia.
Qed.

Section reports.
Context `{TZData} `{PgZones}.

(** Midnights separate the days: a zone whose days follow each other, and whose
    midnights PostgreSQL places between them. *)
Definition midnights (loc : Location) : Prop :=
  ∀ n t, pg_midnight loc n ≤ t ↔ n ≤ local_days loc t.

Lemma report_length_days loc from to :
  local_days loc from ≤ local_days loc to → report_length loc from to ≤ maxRunReportDays →
  report_length loc from to = local_days loc to - local_days loc from + 1.
Proof.
  unfold report_length, maxRunReportDays, Sub, hour, minute, second, int64_max, int64_min.
  set (a := local_days loc from). set (b := local_days loc to). intros Hab Hd.
  assert (E : b * 86400 * 1000000000 - a * 86400 * 1000000000 = (b - a) * 86400000000000) by lia.
  rewrite E in *. destruct (Z.le_gt_cases ((b - a) * 86400000000000) 9223372036854775807).
  - rewrite Z.min_r, Z.max_r by lia. change (24 * (60 * (60 * 1000000000))) with 86400000000000.
    rewrite Z.quot_mul by lia. lia.
  - rewrite Z.min_l, Z.max_r in Hd by lia. vm_compute in Hd. congruence.
Qed.

(** An accepted report has one point for each of its days, at most ninety; the
    points account for every run of the tenant that was due on one of these days,
    each once, and the numbers of a day add up to its total. *)
Theorem report_counts_every_run input now from to loc s :
  normalizeRunReportInput input now = Ok (from, to, loc) → midnights loc →
  let points := run_report (rr_TenantID input) from to loc s in
  let first := local_days loc from in
  let last := local_days loc to in
  map pt_Date points = map FormatDateOnly (report_days first last) ∧
  1 ≤ Z.of_nat (length points) ≤ 90 ∧
  total (map pt_Total points)
    = Z.of_nat (sql_count (λ r, (r_tenant_id r ==s rr_TenantID input)
        && (first <=? local_days loc (i_scheduled_at (r_info r)))
        && (local_days loc (i_scheduled_at (r_info r)) <=? last)) (job_runs s)) ∧
  Forall (λ p, pt_Total p = pt_Succeeded p + pt_Failed p + pt_Active p + pt_Cancelled p
                            + pt_Skipped p) points.
Proof.
  intros Hn Hmid. cbv zeta. unfold normalizeRunReportInput in Hn.
  destruct (reject _ _) as [u|]; cbn [mbind result_bind] in Hn; [|done].
  destruct (LoadLocation _) as [loc'|]; cbn [mbind result_bind] in Hn; [|done].
  destruct (DateOf loc' now) as [[y m] d]. destruct (DateOf loc' _) as [[y' m'] d'].
  destruct (parsed_date (rr_FromDate input) _ _ _) as [from'|]; cbn [mbind result_bind] in Hn; [|done].
  destruct (parsed_date (rr_ToDate input) _ _ _) as [to'|]; cbn [mbind result_bind] in Hn; [|done].
  unfold reject in Hn. destruct (Before to' from') eqn:Eb; cbn [mbind result_bind] in Hn; [done|].
  destruct (maxRunReportDays <? _) eqn:El; cbn [mbind result_bind] in Hn; [done|]. simplify_eq.
  apply Z.ltb_ge in El, Eb.
  set (first := local_days loc from). set (last := local_days loc to).
  assert (Hfl : first ≤ last).
  { unfold last. apply Hmid. etrans; [|exact Eb]. by apply Hmid. }
  rewrite report_length_days in El by done. fold first last in El. unfold maxRunReportDays in El.
  unfold run_report. fold first last.
  split_and!.
  - rewrite map_map. done.
  - unfold report_days. rewrite !length_map, length_seq. lia.
  - unfold report_days. rewrite !length_map, length_seq. lia.
  - unfold report_days. rewrite !map_map. cbn [pt_Total report_point].
    rewrite (buckets (λ r, local_days loc (i_scheduled_at (r_info r)))). f_equal.
    unfold sql_count, sql_select, reported.
    generalize (job_runs s). intros l. induction l as [|r l IH]; [done|]. cbn [List.filter].
    set (t := i_scheduled_at (r_info r)). pose proof (Hmid first t) as H1. pose proof (Hmid (last + 1) t) as H2.
    destruct (r_tenant_id r ==s rr_TenantID input); cbn [andb]; [|exact IH].
    destruct (pg_midnight loc first <=? t) eqn:E1, (t <? pg_midnight loc (last + 1)) eqn:E2,
      (first <=? local_days loc t) eqn:E3, (local_days loc t <=? last) eqn:E4; cbn [andb List.filter];
      try exact IH; try lia; fold t.
    assert (E5 : (local_days loc t <? first + Z.of_nat (Z.to_nat (last - first + 1))) = true).
    { apply Z.ltb_lt. apply Z.leb_le in E4. lia. }
    rewrite E3, E5. cbn [andb length]. by rewrite IH.
  - apply Forall_forall. intros p (day & <- & _)%in_map_iff. apply sum_point.
Qed.
End reports.

(** ** The cursor of the notification history *)

(** Characters that JSON writes as they are. *)
Definition plain (c : ascii) : bool := alnum c || ContainsChar "-:." c.

Lemma plain_escape c : plain c = true → escape_ascii c = char_string c ∧ in_range 0 127 c = true.
Proof.
  destruct c as [b0 b1 b2 b3 b4 b5 b6 b7].
  destruct b0, b1, b2, b3, b4, b5, b6, b7; vm_compute; intros Hc; split; congruence.
Qed.

Lemma escape_plain_text s : forall_char plain s = true → escape 0 true s = s.
Proof.
  induction s as [|c s IH]; [done|]. cbn [forall_char].
  intros [Hc Hs]%andb_true_iff. destruct (plain_escape c Hc) as [E1 E2].
  cbn [escape]. by rewrite E1, E2, IH.
Qed.

Lemma digit_char_plain d : 0 ≤ d < 10 → plain (digit_char d) = true.
Proof.
  intros Hd. assert (E : d = 0 ∨ d = 1 ∨ d = 2 ∨ d = 3 ∨ d = 4 ∨ d = 5 ∨ d = 6 ∨ d = 7 ∨ d = 8 ∨ d = 9) by lia.
  by destruct E as [->|[->|[->|[->|[->|[->|[->|[->|[->| ->]]]]]]]]].
Qed.

Lemma pad2_plain n rest :
  0 ≤ n < 100 → forall_char plain rest = true → forall_char plain (pad2 n rest) = true.
Proof.
  intros Hn Hr. unfold pad2. cbn [forall_char]. rewrite !digit_char_plain, Hr; [done| |].
  - by apply Z.mod_pos_bound.
  - split; [apply Z.div_pos; lia|apply Z.div_lt_upper_bound; lia].
Qed.

Lemma pad4_plain n rest :
  0 ≤ n < 10000 → forall_char plain rest = true → forall_char plain (pad4 n rest) = true.
Proof.
  intros Hn Hr. unfold pad4. apply pad2_plain; [|apply pad2_plain; [by apply Z.mod_pos_bound|done]].
  split; [apply Z.div_pos; lia|apply Z.div_lt_upper_bound; lia].
Qed.

Lemma plain_cons c s :
  plain c = true → forall_char plain s = true → forall_char plain (String c s) = true.
Proof. intros Hc Hs. cbn [forall_char]. by rewrite Hc, Hs. Qed.

Lemma fraction_plain k n :
  0 ≤ n < 10 ^ Z.of_nat k →
  forall_char plain (fraction_text k (10 ^ (Z.of_nat k - 1)) n "Z") = true ∧
  (String.length (fraction_text k (10 ^ (Z.of_nat k - 1)) n "Z") ≤ S k)%nat.
Proof.
  revert n. induction k as [|k IH]; intros n Hn; [done|]. cbn [fraction_text].
  destruct (n =? 0); [split; [done|cbn; lia]|].
  replace (Z.of_nat (S k) - 1) with (Z.of_nat k) by lia.
  assert (Hs : 0 < 10 ^ Z.of_nat k) by (apply Z.pow_pos_nonneg; lia).
  rewrite Nat2Z.inj_succ, Z.pow_succ_r in Hn by lia.
  cbn [forall_char String.length]. rewrite digit_char_plain.
  2:{ split; [apply Z.div_pos; lia|apply Z.div_lt_upper_bound; lia]. }
  destruct k as [|k]; [split; [done|cbn; lia]|].
  replace (10 ^ Z.of_nat (S k) / 10) with (10 ^ (Z.of_nat (S k) - 1)).
  - destruct (IH (n mod 10 ^ Z.of_nat (S k))) as [-> Hl]; [by apply Z.mod_pos_bound|]. split; [done|lia].
  - replace (Z.of_nat (S k)) with (Z.succ (Z.of_nat (S k) - 1)) at 2 by lia.
    rewrite Z.pow_succ_r by lia. by rewrite Z.mul_comm, Z.div_mul by lia.
Qed.

Lemma format_plain t :
  0 ≤ (DateOf UTC t).1.1 < 10000 →
  forall_char plain (FormatRFC3339Nano t) = true ∧ len (FormatRFC3339Nano t) ≤ 30.
Proof.
  unfold FormatRFC3339Nano, DateOf. pose proof (civil_of_days_spec (local_days UTC t)) as Hc.
  destruct (civil_of_days _) as [[y m] d]. cbn [fst]. intros Hy.
  destruct Hc as [Hv _]. apply valid_civil_true in Hv. pose proof (days_in_month_range y m).
  set (s := seconds_of t mod 86400). assert (Hs : 0 ≤ s < 86400) by (apply Z.mod_pos_bound; lia).
  assert (Hh : 0 ≤ s / 3600 < 24) by (split; [apply Z.div_pos; lia|apply Z.div_lt_upper_bound; lia]).
  assert (Hmi : 0 ≤ s / 60 mod 60 < 60) by (apply Z.mod_pos_bound; lia).
  assert (Hse : 0 ≤ s mod 60 < 60) by (apply Z.mod_pos_bound; lia).
  assert (Hf : 0 ≤ t mod second < 10 ^ Z.of_nat 9) by (apply Z.mod_pos_bound; done).
  pose proof (fraction_plain 9 _ Hf) as [Hfp Hfl]. change (10 ^ (Z.of_nat 9 - 1)) with 100000000 in *.
  set (n := t mod second) in *. set (tail := if n =? 0 then _ else _).
  assert (Htail : forall_char plain tail = true ∧ (String.length tail ≤ 11)%nat).
  { unfold tail. destruct (n =? 0); [split; [done|cbn; lia]|]. cbn [forall_char String.length].
    rewrite Hfp. split; [done|lia]. }
  clearbody tail. destruct Htail as [Ht Hl]. split.
  - apply pad4_plain; [done|]. do 5 (apply plain_cons; [done|]; apply pad2_plain; [lia|]). exact Ht.
  - unfold len, pad4, pad2. cbn [String.length]. lia.
Qed.

Lemma encode_length alphabet l :
  (3 * String.length (encode_triples alphabet "" l) ≤ 4 * length l + 4)%nat.
Proof.
  induction l as [l IH] using (induction_ltof1 _ (@length ascii)).
  destruct l as [|a [|b [|c l]]];
    [cbn [encode_triples]; rewrite ?app_nil; cbn [String.length length]; lia..|].
  cbn [encode_triples String.length length].
  specialize (IH l ltac:(unfold ltof; cbn; lia)). lia.
Qed.

Section cursors.
Context `{ChannelFormats} `{CursorJson}.

Lemma payload_length createdAt id :
  forall_char plain createdAt = true → forall_char plain id = true →
  len (cursor_payload 1 createdAt id) = len createdAt + len id + 31.
Proof.
  intros Hc Hi. unfold cursor_payload, json_field, json_string.
  rewrite (escape_plain_text _ Hc), (escape_plain_text _ Hi).
  change (escape 0 true "v") with "v". change (escape 0 true "created_at") with "created_at".
  change (escape 0 true "id") with "id".
  unfold len. rewrite !length_app_string. change (String.length quote) with 1%nat.
  change (String.length (Itoa 1)) with 1%nat. cbn [String.length]. lia.
Qed.

(** [json.Unmarshal] reads the fields [json.Marshal] wrote. *)
Definition payload_law : Prop :=
  ∀ createdAt id, forall_char plain createdAt = true → forall_char plain id = true →
    decode_payload (cursor_payload 1 createdAt id) = Some (1, createdAt, id).

(** The cursor of a page names the delivery it was made from: for every time of
    the years 0 to 9999 but the zero time, and every identifier in the form of a
    UUID, decoding the cursor gives the time, to the nanosecond, and the identifier. *)
Theorem history_cursor_round_trip t id :
  payload_law → 0 ≤ (DateOf UTC t).1.1 < 10000 → t ≠ 0 →
  uuid_valid id = true → forall_char plain id = true → len id ≤ 45 →
  decodeNotificationHistoryCursor (encodeNotificationHistoryCursor t id) = Ok (Some (t, id)).
Proof.
  intros Hlaw Hy Ht Hid Hpl Hlen. unfold decodeNotificationHistoryCursor.
  destruct (format_plain t Hy) as [Hfp Hfl].
  unfold encodeNotificationHistoryCursor, EncodeToString.
  pose proof (payload_length _ _ Hfp Hpl) as Hpay.
  set (payload := cursor_payload 1 (FormatRFC3339Nano t) id) in *.
  pose proof (encode_length url_alphabet (list_ascii_of_string payload)) as Hb.
  assert (Hl : ∀ s, length (list_ascii_of_string s) = String.length s)
    by (induction s; cbn; congruence).
  rewrite Hl in Hb.
  destruct (_ ==s "") eqn:E1.
  { apply String.eqb_eq in E1. exfalso.
    pose proof (decode_encode_raw url_alphabet url_usable payload) as Hd. rewrite E1 in Hd.
    change (DecodeRaw url_alphabet "") with (Some "") in Hd. injection Hd as Hd.
    unfold payload, cursor_payload in Hd. rewrite app_cons in Hd. discriminate Hd. }
  rewrite (proj2 (Z.ltb_ge _ _)) by (unfold len in *; lia).
  rewrite decode_encode_raw by apply url_usable. unfold payload. rewrite Hlaw, Hid by done.
  cbn [Z.eqb negb orb Pos.eqb].
  rewrite parse_format by done. unfold IsZero. by rewrite (proj2 (Z.eqb_neq _ _)).
Qed.
End cursors.

#[local] Instance sample_zones : PgZones := λ _ n, n * 86400 * second.
#[local] Instance no_zones : TZData := {| tz_file := λ _, None; tz_local := UTC |}.

Lemma midnights_utc : midnights UTC.
Proof.
  intros n t. unfold pg_midnight, sample_zones, local_days, zone_offset. cbn [zone_lookup UTC fixed_zone fst].
  rewrite Z.add_0_r. unfold seconds_of. rewrite Z.div_div by (unfold second; lia).
  split; intros Ht.
  - apply Z.div_le_lower_bound; unfold second in *; lia.
  - pose proof (Z.mul_div_le t (second * 86400) ltac:(unfold second; lia)). unfold second in *. nia.
Qed.

Lemma report_counts_every_run_witness :
  1 ≤ Z.of_nat (length (run_report "t" (Date 2024 2 28 0 0 0 0 UTC) (Date 2024 3 1 0 0 0 0 UTC) UTC Samples.empty_db))
    ≤ 90.
Proof.
  refine (proj1 (proj2 (report_counts_every_run (mk_report_input "t" "2024-02-28" "2024-03-01" "UTC") 0
            _ _ UTC Samples.empty_db _ midnights_utc))).
  vm_compute. reflexivity.
Defined.

(** A reader of exactly such payloads. *)
Definition quote_char : ascii := ascii_of_nat 34.
Definition read_payload (s : string) : option (Z * string * string) :=
  match Cut (str_drop 21 s) quote_char with
  | (createdAt, Some rest) =>
      match Cut (str_drop 7 rest) quote_char with
      | (id, Some _) => Some (1, createdAt, id)
      | _ => None
      end
  | _ => None
  end.
#[local] Instance sample_reader : CursorJson := read_payload.

Lemma Cut_plain s t :
  forall_char plain s = true → Cut (s +:+ String quote_char t) quote_char = (s, Some t).
Proof.
  induction s as [|c s IH]; [done|]. cbn [forall_char]. intros [Hc Hs]%andb_true_iff.
  rewrite app_cons. cbn [Cut]. rewrite IH by done.
  assert (E : Ascii.eqb c quote_char = false); [|by rewrite E].
  destruct (Ascii.eqb_spec c quote_char) as [->|]; [|done]. by vm_compute in Hc.
Qed.

Lemma sample_payload_law : payload_law.
Proof.
  intros createdAt id Hc Hi. unfold cursor_payload, json_field, json_string.
  rewrite (escape_plain_text _ Hc), (escape_plain_text _ Hi).
  change (decode_payload ?x) with (read_payload x). unfold read_payload.
  replace (str_drop 21 _) with (createdAt +:+ String quote_char (str_drop 0
    ("," +:+ (quote +:+ escape 0 true "id" +:+ quote) +:+ ":" +:+ quote +:+ id +:+ quote +:+ "}"))).
  - rewrite Cut_plain by done.
    change (str_drop 7 _) with (id +:+ String quote_char "}"). by rewrite Cut_plain.
  - symmetry. change (Itoa 1) with "1". vm_compute (escape 0 true "v"). vm_compute (escape 0 true "created_at").
    rewrite !str_app_assoc. reflexivity.
Qed.

#[local] Instance sample_uuid_formats : ChannelFormats := {|
  decode_webhook := λ _, None; decode_dingtalk := λ _, None; decode_email := λ _, None;
  template_parses := λ _, true; mail_address := Some; ValidHeaderFieldName := λ _, true;
  ValidHeaderFieldValue := λ _, true; uuid_valid := λ s, len s =? 36;
|}.

Lemma history_cursor_round_trip_witness :
  decodeNotificationHistoryCursor
    (encodeNotificationHistoryCursor (Date 2024 3 1 12 30 5 123456000 UTC)
       "0b9e3a52-7c1d-4f0e-9a44-5d2f6a1c8e77")
    = Ok (Some (Date 2024 3 1 12 30 5 123456000 UTC, "0b9e3a52-7c1d-4f0e-9a44-5d2f6a1c8e77")).
Proof.
  refine (history_cursor_round_trip _ _ sample_payload_law _ _ _ _ _); vm_compute; try split; congruence.
Defined.
End OperationsProofs.
