(* ===== verification/Notifier.v ===== *)
(** * The notification worker

    [internal/notifier/notifier.go]: a worker prepares and claims deliveries,
    renders and sends each of them by webhook, DingTalk or e-mail, and records
    the outcome. *)
From Stdlib Require Import ZArith Lia Ascii String.
From stdpp Require Import base list strings.
From S2P Require Import Prelude GoStrings GoUrl GoTime Utf8 Base64 GoNet GoJson Tables Programs Executors RunStore JobStore Notifications Services.

(** The text of an event's payload, which the database wrote; [json.Unmarshal]
    on configurations and payloads, and the form of a payload inside a JSON
    document; [text/template]: the error of a text that does not parse, the pieces
    a template writes for an event with the error it ends with; HMAC; the header
    form of a mail address; [%q]; the [errcode] of an answer of DingTalk. *)
Class ProviderFormats := {
  payload_text : event_row → string;
  config_error : string → error;
  payload_error : string → option error;
  compact_payload : string → result string;
  json_valid : string → bool;
  template_error : string → error;
  template_output : string → string → string → string → list string * option error;
  hmac_sha256 : string → string → string;
  header_address : string → string;
  Quote : string → string;
  dingtalk_code : string → option Z;
}.

Module Notifier.
Import GoUrl Utf8 Base64 GoNet GoJson Programs RunStore JobStore Notifications Services.

Record SMTPConfig := mk_smtp {
  smtp_Address : string; smtp_Username : string; smtp_Password : string; smtp_From : string;
  smtp_TLSMode : string;
}.

Definition notificationBatchSize : nat := 20.
Definition notificationConcurrency : nat := 10.
Definition notificationIdlePoll : duration := 2 * second.
Definition maxProviderResponseSize : Z := Z.shiftl 64 10.
Definition maxNotificationBodySize : Z := Z.shiftl 1 20.

Definition errNotificationBodyTooLarge : error := ErrMsg "notification body exceeds 1 MiB".

Record Worker := mk_worker { nw_owner : string; nw_smtp : SMTPConfig }.

(** ** The network *)

(** A request: the parameters set on the query of the URL are kept apart. *)
Record http_request := mk_http {
  rq_URL : string; rq_Query : list (string * string); rq_Header : Header; rq_Body : string;
}.
(** The status, and the body as far as it is read, or that reading it failed. *)
Record http_response := mk_response { rp_StatusCode : Z; rp_Body : option string }.

(** What the worker asks of the world: the clock; a request, answered or failed;
    the commands of an SMTP session; whether a provider panics here; whether its
    context is done; a semaphore and a wait group for a batch; a slot of that
    semaphore for a goroutine that processes a delivery, refused when the context
    ends first; the end of the goroutines of the group; the idle wait, cut short
    when the context ends. *)
Inductive net : Type → Type :=
| WallClock : net time
| HttpPost (r : http_request) : net (option http_response)
| SmtpDial (tls : bool) (address : string) : net (option error)
| SmtpStartTLS (host : string) : net (option error)
| SmtpAuth (username password host : string) : net (option error)
| SmtpMail (from : string) : net (option error)
| SmtpRcpt (to : string) : net (option error)
| SmtpData : net (option error)
| SmtpMessage (message : string) : net (option error)
| Recovered : net bool
| CtxErr : net bool
| NewGroup (concurrency : nat) : net unit
| Acquire (delivery : NotificationDelivery) : net bool
| GroupWait : net unit
| Idle (d : duration) : net bool.
Notation notify := (prog net).

(** [return err] when there is one *)
Definition checked (r : option error) (next : notify (option error)) : notify (option error) :=
  match r with Some err => mret (Some err) | None => next end.
Definition attempt {A} (r : result A) (next : A → notify (option error)) : notify (option error) :=
  match r with Ok a => next a | Err err => mret (Some err) end.

(** ** Bodies *)

Section bodies.
Context `{ChannelFormats} `{ProviderFormats}.

Definition oe_text (event : OutboxEvent) : string := payload_text (oe_Payload event).

(** [limitedNotificationBuffer.Write] *)
Definition Write (limit : Z) (buffer data : string) : string * option error :=
  let remaining := limit - len buffer in
  if remaining <=? 0 then (buffer, Some errNotificationBodyTooLarge)
  else if remaining <? len data
  then (buffer +:+ str_take (Z.to_nat remaining) data, Some errNotificationBodyTooLarge)
  else (buffer +:+ data, None).

(** [tmpl.Execute] writes its output piece by piece and stops at an error. *)
Fixpoint execute_template (limit : Z) (buffer : string) (pieces : list string) (last : option error)
    : string * option error :=
  match pieces with
  | [] => (buffer, last)
  | piece :: rest =>
      match Write limit buffer piece with
      | (buffer, None) => execute_template limit buffer rest last
      | (buffer, Some err) => (buffer, Some err)
      end
  end.

Definition renderNotificationTemplate (rawTemplate : string) (event : OutboxEvent) : result string :=
  if Z.shiftl 64 10 <? len rawTemplate then Err (ErrMsg "notification template exceeds 64 KiB")
  else
    match payload_error (oe_text event) with
    | Some err => Err (ErrMsg ("decode notification payload: " +:+ error_text err))
    | None =>
        if negb (template_parses rawTemplate) then Err (template_error rawTemplate)
        else if maxNotificationBodySize <? len (oe_text event) then Err errNotificationBodyTooLarge
        else
          let '(pieces, last) :=
            template_output rawTemplate (oe_ID event) (oe_Topic event) (oe_text event) in
          match execute_template maxNotificationBodySize "" pieces last with
          | (output, None) => Ok output
          | (_, Some err) => Err err
          end
    end.

(** [{"payload":..,"topic":..}]: the keys of a map are written in order. *)
Definition default_body (topic payload : string) : string :=
  "{" +:+ json_string "payload" +:+ ":" +:+ payload +:+ "," +:+ json_string "topic" +:+ ":"
  +:+ json_string topic +:+ "}".

Definition bounded_body (body : string) : result string :=
  if maxNotificationBodySize <? len body then Err errNotificationBodyTooLarge else Ok body.

Definition webhookBody (rawTemplate : string) (event : OutboxEvent) : result string :=
  if rawTemplate ==s "" then
    payload ← compact_payload (oe_text event);
    bounded_body (default_body (oe_Topic event) payload)
  else
    rendered ← renderNotificationTemplate rawTemplate event;
    if json_valid rendered then Ok rendered
    else Err (ErrMsg "webhook template must render valid JSON").

Definition emailContent (subjectTemplate bodyTemplate : string) (event : OutboxEvent)
    : result (string * string * string) :=
  subject ← (if subjectTemplate ==s "" then Ok ("Scheduler event " +:+ oe_Topic event)
             else renderNotificationTemplate subjectTemplate event);
  if (subject ==s "") || (998 <? len subject) || exists_char line_break subject
  then Err (ErrMsg "rendered email subject is invalid")
  else if bodyTemplate ==s "" then Ok (subject, oe_text event, "application/json; charset=utf-8")
  else
    content ← renderNotificationTemplate bodyTemplate event;
    Ok (subject, content, "text/plain; charset=utf-8").

(** [{"msgtype":"text","text":{"content":..}}] *)
Definition dingtalk_body (content : string) : string :=
  "{" +:+ json_string "msgtype" +:+ ":" +:+ json_string "text" +:+ "," +:+ json_string "text"
  +:+ ":{" +:+ json_string "content" +:+ ":" +:+ json_string content +:+ "}}".
End bodies.

(** ** Providers *)

Section providers.
Context `{IPLiterals} `{ChannelFormats} `{ProviderFormats}.

Definition event_headers (h : Header) (event : OutboxEvent) : Header :=
  header_set (header_set (header_set h "Content-Type" "application/json")
                "Idempotency-Key" (oe_ID event))
    "X-Go-Scheduler-Event-ID" (oe_ID event).

Definition success (status : Z) : bool := (200 <=? status) && (status <? 300).

Definition webhook (channel : NotificationChannel) (event : OutboxEvent) : notify (option error) :=
  match decode_webhook (nc_Config channel) with
  | None => mret (Some (config_error (nc_Config channel)))
  | Some config =>
      attempt (webhookBody (wh_Template config) event) (λ body,
      attempt (Parse (wh_URL config)) (λ _,
        let header := foldl (λ h kv, header_set h kv.1 kv.2) [] (wh_Headers config) in
        response ← effect (HttpPost (mk_http (wh_URL config) [] (event_headers header event) body));
        mret (match response with
              | None => Some (ErrMsg "webhook request failed")
              | Some r => if success (rp_StatusCode r) then None
                          else Some (ErrMsg ("webhook status " +:+ Itoa (rp_StatusCode r)))
              end)))
  end.

Definition UnixMilli (t : time) : Z := t / millisecond - unix_epoch * 1000.

(** The parameters that authenticate a request to DingTalk; they replace those of
    the same names in the query of the configured URL. *)
Definition dingtalk_query (config : dingtalk_config) : notify (list (string * string)) :=
  let query := if (dt_AuthType config ==s "access_token") || (dt_AccessToken config !=s "")
               then [("access_token", dt_AccessToken config)] else [] in
  if dt_AuthType config ==s "hmac_sha256" then
    now ← effect WallClock;
    let timestamp := Itoa (UnixMilli now) in
    let sign := hmac_sha256 (dt_Secret config)
                  (timestamp +:+ String (ascii_of_nat 10) (dt_Secret config)) in
    mret (query ++ [("timestamp", timestamp); ("sign", EncodeStd sign)])
  else mret query.

Definition validateDingTalkResponse (responseBody : string) : option error :=
  if len responseBody =? 0 then Some (ErrMsg "dingtalk returned an invalid response")
  else
    match dingtalk_code responseBody with
    | None => Some (ErrMsg "dingtalk returned an invalid response")
    | Some code => if code =? 0 then None else Some (ErrMsg ("dingtalk error " +:+ Itoa code))
    end.

Definition dingtalk_answer (response : option http_response) : option error :=
  match response with
  | None => Some (ErrMsg "dingtalk request failed")
  | Some r =>
      if negb (success (rp_StatusCode r))
      then Some (ErrMsg ("dingtalk status " +:+ Itoa (rp_StatusCode r)))
      else
        match rp_Body r with
        | None => Some (ErrMsg "dingtalk response read failed")
        | Some body =>
            if maxProviderResponseSize <? len body
            then Some (ErrMsg "dingtalk response exceeds 64 KiB")
            else validateDingTalkResponse body
        end
  end.

(** A URL that was parsed is printed in a form that parses again. *)
Definition dingtalk (channel : NotificationChannel) (event : OutboxEvent) : notify (option error) :=
  match decode_dingtalk (nc_Config channel) with
  | None => mret (Some (config_error (nc_Config channel)))
  | Some config =>
      attempt (Parse (dt_URL config)) (λ _,
        query ← dingtalk_query config;
        attempt (renderNotificationTemplate (dt_Template config) event) (λ content,
        let content := if dt_Template config ==s "" then oe_Topic event +:+ ": " +:+ oe_text event
                       else content in
        attempt (bounded_body (dingtalk_body content)) (λ body,
          response ← effect (HttpPost (mk_http (dt_URL config) query (event_headers [] event) body));
          mret (dingtalk_answer response))))
  end.

Fixpoint smtp_recipients (l : list string) (next : notify (option error)) : notify (option error) :=
  match l with
  | [] => next
  | to :: rest =>
      r ← effect (SmtpRcpt to);
      checked r (smtp_recipients rest next)
  end.

Definition crlf : string := String (ascii_of_nat 13) (char_string (ascii_of_nat 10)).
Definition mail_message (from to subject contentType content : string) : string :=
  "From: " +:+ from +:+ crlf +:+ "To: " +:+ to +:+ crlf +:+ "Subject: " +:+ subject +:+ crlf
  +:+ "Content-Type: " +:+ contentType +:+ crlf +:+ crlf +:+ content.

(** The session with the server, once it is known what to send to whom. *)
Definition smtp_session (smtp : SMTPConfig) (host tlsMode from : string) (to : list string)
    (message : string) : notify (option error) :=
  r ← effect (SmtpDial (tlsMode ==s "tls") (smtp_Address smtp));
  checked r (
  r ← (if tlsMode ==s "starttls" then effect (SmtpStartTLS host) else mret None);
  checked r (
  r ← (if smtp_Username smtp !=s ""
       then effect (SmtpAuth (smtp_Username smtp) (smtp_Password smtp) host) else mret None);
  checked r (
  r ← effect (SmtpMail from);
  checked r (smtp_recipients to (
  r ← effect SmtpData;
  checked r (attempt (bounded_body message) (λ message, effect (SmtpMessage message)))))))).

Definition email (smtp : SMTPConfig) (channel : NotificationChannel) (event : OutboxEvent)
    : notify (option error) :=
  if smtp_Address smtp ==s "" then mret (Some (ErrMsg "SMTP is not configured"))
  else
    match decode_email (nc_Config channel) with
    | None => mret (Some (config_error (nc_Config channel)))
    | Some config =>
        match mail_address (smtp_From smtp) with
        | None => mret (Some (ErrMsg "invalid SMTP from address"))
        | Some from =>
            if existsb (λ to, negb (bool_decide (mail_address to = Some to)) || exists_char line_break to)
                 (em_To config)
            then mret (Some (ErrMsg "invalid email recipient"))
            else
              attempt (emailContent (em_Subject config) (em_Template config) event)
                (λ '(subject, content, contentType),
              match SplitHostPort (smtp_Address smtp) with
              | None => mret (Some (ErrMsg "invalid SMTP address"))
              | Some (host, _) =>
                  if host ==s "" then mret (Some (ErrMsg "invalid SMTP address"))
                  else
                    let mode := ToLower (TrimSpace (smtp_TLSMode smtp)) in
                    let mode := if mode ==s "" then "starttls" else mode in
                    if negb (one_of mode ["starttls"; "tls"; "none"])
                    then mret (Some (ErrMsg "invalid SMTP TLS mode"))
                    else smtp_session smtp host mode from (em_To config)
                           (mail_message (header_address (smtp_From smtp))
                              (Join (map header_address (em_To config)) ",")
                              subject contentType content)
              end)
        end
    end.

(** ** Deliveries *)

Definition deliver (w : Worker) (channel : NotificationChannel) (event : OutboxEvent)
    : notify (option error) :=
  if maxNotificationBodySize <? len (oe_text event) then mret (Some errNotificationBodyTooLarge)
  else
    let kind := nc_Kind channel in
    if one_of kind ["webhook"; "email"; "dingtalk"] then
      err ← (if kind ==s "webhook" then webhook channel event
             else if kind ==s "email" then email (nw_smtp w) channel event
             else dingtalk channel event);
      mret (match err with
            | None => None
            | Some err => Some (ErrMsg ("deliver " +:+ nc_Name channel +:+ ": " +:+ error_text err))
            end)
    else mret (Some (ErrMsg ("unknown notification channel " +:+ Quote kind))).

(** A provider may panic at any point; what it sent by then remains sent. *)
Fixpoint recovering (p : notify (option error)) : notify (option error) :=
  let recovered next :=
    panicked ← effect Recovered;
    if panicked : bool then mret (Some (ErrMsg "notification provider panicked")) else next in
  match p with
  | Return err => recovered (Return err)
  | Store m k => recovered (Store m (λ r, recovering (k r)))
  | Effect eff k => recovered (Effect eff (λ b, recovering (k b)))
  end.

Definition deliverSafely (w : Worker) (channel : NotificationChannel) (event : OutboxEvent)
    : notify (option error) :=
  recovering (deliver w channel event).

Definition attemptDelivery (w : Worker) (delivery : NotificationDelivery) : notify (option error) :=
  match nd_LoadError delivery with
  | Some err => mret (Some err)
  | None => deliverSafely w (nd_Channel delivery) (nd_Event delivery)
  end.
End providers.

(** [for step := 1; step < attempt && delay < maximum; step++] *)
Fixpoint double_until (steps : nat) (delay maximum : duration) : duration :=
  match steps with
  | O => delay
  | S n => if delay <? maximum then
             if Z.quot maximum 2 <? delay then maximum else double_until n (wrap64 (delay * 2)) maximum
           else delay
  end.

Definition retryDelay (attempt : Z) (initial maximum : duration) : duration :=
  let attempt := if attempt <? 1 then 1 else attempt in
  let delay := double_until (Z.to_nat (attempt - 1)) initial maximum in
  if maximum <? delay then maximum else delay.

Section worker.
Context `{Host} `{JobCodec} `{UuidParser} `{IPLiterals} `{ChannelFormats} `{ProviderFormats}.

(** What a goroutine does with a claimed delivery. *)
Definition process (w : Worker) (delivery : NotificationDelivery) : notify unit :=
  let channel := nd_Channel delivery in
  err ← attemptDelivery w delivery;
  match err with
  | Some err =>
      if nc_MaxAttempts channel <=? nd_Attempts delivery then
        _ ← store (DeadLetterNotificationDelivery (nw_owner w) (nd_ID delivery) (nd_EventID delivery)
                     (error_text err));
        mret tt
      else
        let delay := retryDelay (nd_Attempts delivery)
                       (dur_mul (nc_BackoffInitialSeconds channel) second)
                       (dur_mul (nc_BackoffMaxSeconds channel) second) in
        _ ← store (RetryNotificationDelivery (nw_owner w) (nd_ID delivery) (error_text err) delay);
        mret tt
  | None =>
      _ ← store (CompleteNotificationDelivery (nw_owner w) (nd_ID delivery) (nd_EventID delivery));
      mret tt
  end.

Fixpoint start_deliveries (deliveries : list NotificationDelivery) : notify unit :=
  match deliveries with
  | [] => mret tt
  | delivery :: rest =>
      done ← effect CtxErr;
      if done : bool then mret tt
      else
        acquired ← effect (Acquire delivery);
        if acquired : bool then start_deliveries rest else mret tt
  end.

Definition processDeliveries (deliveries : list NotificationDelivery) (concurrency : nat)
    : notify unit :=
  let concurrency := if Nat.ltb concurrency 1 then 1%nat else concurrency in
  _ ← effect (NewGroup concurrency);
  _ ← start_deliveries deliveries;
  effect GroupWait.

Definition tick (w : Worker) : notify nat :=
  prepared ← store (PrepareNotificationDeliveries notificationBatchSize);
  match prepared with
  | Err _ => mret 0%nat
  | Ok _ =>
      claimed ← store (ClaimNotificationDeliveries (nw_owner w) notificationBatchSize);
      match claimed with
      | Err _ => mret 0%nat
      | Ok deliveries =>
          _ ← processDeliveries deliveries notificationConcurrency;
          mret (length deliveries)
      end
  end.

(** At most [fuel] rounds. *)
Fixpoint notification_rounds (fuel : nat) (idlePoll : duration) (batchSize : nat) (drain : notify nat)
    : notify unit :=
  match fuel with
  | O => mret tt
  | S fuel =>
      done ← effect CtxErr;
      if done : bool then mret tt
      else
        processed ← drain;
        done ← effect CtxErr;
        if done : bool then mret tt
        else if Nat.leb batchSize processed then notification_rounds fuel idlePoll batchSize drain
        else
          done ← effect (Idle idlePoll);
          if done : bool then mret tt else notification_rounds fuel idlePoll batchSize drain
  end.

Definition runNotificationLoop (fuel : nat) (idlePoll : duration) (batchSize : nat)
    (drain : notify nat) : notify unit :=
  let idlePoll := if idlePoll <=? 0 then notificationIdlePoll else idlePoll in
  let batchSize := if Nat.ltb batchSize 1 then 1%nat else batchSize in
  notification_rounds fuel idlePoll batchSize drain.

Definition Run (fuel : nat) (w : Worker) : notify unit :=
  runNotificationLoop fuel notificationIdlePoll notificationBatchSize (tick w).
End worker.
End Notifier.
