(* ===== verification/LoginLimiter.v ===== *)
(** * The limit on login attempts

    [internal/api/login_limiter.go]: a window of attempts for every address and
    account. *)
From Stdlib Require Import ZArith Lia String.
From stdpp Require Import base list strings gmap fin_maps.
From S2P Require Import Prelude GoStrings GoNet Engine.

Module LoginLimiter.
Import GoNet.

Definition loginWindow : duration := minute.
Definition loginAttempts : Z := 5.
Definition maxLoginWindows : nat := Z.to_nat 10000.

Record loginWindowState := mk_window { started : time; attempts : Z }.
Notation loginLimiter := (gmap string loginWindowState).
Definition newLoginLimiter : loginLimiter := ∅.

Definition loginLimitKey `{Sha256} (remoteAddress email : string) : string :=
  let host := match SplitHostPort remoteAddress with Some (host, _) => host | None => remoteAddress end in
  host +:+ ":" +:+ hex_encode (sha256 (ToLower (TrimSpace email))).

Definition open_window (now : time) (w : loginWindowState) : bool :=
  Sub now (started w) <? loginWindow.

(** [delete] of the candidates whose window has passed *)
Definition expire (now : time) (l : loginLimiter) : loginLimiter :=
  filter (λ kw, open_window now kw.2 = true) l.

Definition fresh_window (now : time) (key : string) (l : loginLimiter) : bool * loginLimiter :=
  (true, <[key := mk_window now 1]> l).

Definition allow (now : time) (key : string) (l : loginLimiter) : bool * loginLimiter :=
  match l !! key with
  | Some w =>
      if open_window now w then
        if loginAttempts <=? attempts w then (false, l)
        else (true, <[key := mk_window (started w) (attempts w + 1)]> l)
      else fresh_window now key l
  | None =>
      if (maxLoginWindows <=? size l)%nat then
        let l := expire now l in
        if (maxLoginWindows <=? size l)%nat then (false, l) else fresh_window now key l
      else fresh_window now key l
  end.

Definition reset (key : string) (l : loginLimiter) : loginLimiter := delete key l.

(** ** Use of the limiter *)

Inductive event := Attempt (now : time) (key : string) | Reset (key : string).

Definition step (e : event) (l : loginLimiter) : loginLimiter :=
  match e with Attempt now key => (allow now key l).2 | Reset key => reset key l end.

(** How many attempts of [key] a sequence of events lets through. *)
Fixpoint allowed (key : string) (es : list event) (l : loginLimiter) : Z :=
  match es with
  | [] => 0
  | e :: es =>
      (match e with
       | Attempt now k => if (k ==s key) && (allow now k l).1 then 1 else 0
       | Reset _ => 0
       end) + allowed key es (step e l)
  end.

(** The events of less than a minute from [a], without a reset of [key]. *)
Definition within (a : time) (key : string) (e : event) : Prop :=
  match e with Attempt now _ => a ≤ now < a + loginWindow | Reset k => k ≠ key end.

Definition well_formed (l : loginLimiter) : Prop :=
  (size l ≤ maxLoginWindows)%nat ∧ map_Forall (λ _ w, 1 ≤ attempts w ≤ loginAttempts) l.

(** ** Proofs *)

Lemma fresh_well_formed now key l :
  well_formed l → (size l < maxLoginWindows)%nat ∨ is_Some (l !! key) →
  well_formed (fresh_window now key l).2.
Proof.
  intros [Hs Ha] Hk. split.
  - cbn [snd fresh_window]. destruct (l !! key) as [w|] eqn:E.
    + by rewrite map_size_insert_Some by (by rewrite E).
    + rewrite map_size_insert_None by done. destruct Hk as [|[]]; [lia|done].
  - apply map_Forall_insert_2; [|done]. cbn. unfold loginAttempts. lia.
Qed.

Lemma expire_well_formed now l : well_formed l → well_formed (expire now l).
Proof.
  intros [Hs Ha]. split.
  - etrans; [|exact Hs]. apply map_subseteq_size, map_filter_subseteq.
  - intros k w [Hw _]%map_lookup_filter_Some. by eapply Ha.
Qed.

Lemma step_well_formed e l : well_formed l → well_formed (step e l).
Proof.
  intros Hl. destruct e as [now key|key]; cbn [step].
  - unfold allow. destruct (l !! key) as [w|] eqn:E.
    + destruct (open_window now w); [|apply fresh_well_formed; eauto].
      destruct (Z.leb_spec loginAttempts (attempts w)); [done|]. destruct Hl as [Hs Ha]. split.
      * cbn [snd]. by rewrite map_size_insert_Some by (by rewrite E).
      * apply map_Forall_insert_2; [|done]. specialize (Ha _ _ E). cbn in *. lia.
    + destruct (Nat.leb_spec maxLoginWindows (size l)); [|apply fresh_well_formed; auto].
      cbv zeta. destruct (Nat.leb_spec maxLoginWindows (size (expire now l)));
        [by apply expire_well_formed|].
      apply fresh_well_formed; [by apply expire_well_formed|auto].
  - destruct Hl as [Hs Ha]. split.
    + etrans; [|exact Hs]. apply map_subseteq_size, delete_subseteq.
    + by apply map_Forall_delete.
Qed.

(** What [key] has left in the minute from [a]: the rest of its window, and one
    more window when that may pass. *)
Definition allowance (a : time) (key : string) (l : loginLimiter) : Z :=
  match l !! key with
  | Some w => loginAttempts - attempts w + (if a <=? started w then 0 else loginAttempts)
  | None => loginAttempts
  end.

Lemma recent_window_open a now w : a ≤ started w → now < a + loginWindow → open_window now w = true.
Proof.
  intros Ha Hn. apply Z.ltb_lt. unfold Sub, loginWindow, minute, second, int64_min, int64_max in *. lia.
Qed.

Lemma fresh_allowance a now key l :
  a ≤ now → allowance a key (fresh_window now key l).2 = loginAttempts - 1.
Proof.
  intros Ha. unfold allowance. cbn [snd fresh_window]. rewrite lookup_insert_eq. cbn.
  destruct (Z.leb_spec a now); lia.
Qed.

Lemma expire_allowance a now key l :
  well_formed l → now < a + loginWindow → allowance a key (expire now l) ≤ allowance a key l.
Proof.
  intros [_ Hl] Hn. unfold allowance, expire. destruct (l !! key) as [w|] eqn:E.
  - destruct (open_window now w) eqn:Eo.
    + rewrite (map_lookup_filter_Some_2 _ _ _ w) by done. lia.
    + rewrite map_lookup_filter_None_2 by (right; intros w' Hw'; cbn; congruence).
      destruct (Z.leb_spec a (started w)) as [Ha|Ha].
      { by rewrite (recent_window_open a) in Eo. }
      specialize (Hl _ _ E). cbn in Hl. lia.
  - by rewrite map_lookup_filter_None_2 by auto.
Qed.

Lemma allowance_bounds a key l : well_formed l → 0 ≤ allowance a key l ≤ 2 * loginAttempts.
Proof.
  intros [_ Hl]. unfold allowance. destruct (l !! key) as [w|] eqn:E; [|unfold loginAttempts; lia].
  specialize (Hl _ _ E). cbn in Hl. destruct (a <=? started w); unfold loginAttempts in *; lia.
Qed.

Lemma allowance_other a key k w l : k ≠ key → allowance a key (<[k := w]> l) = allowance a key l.
Proof. intros Hk. unfold allowance. by rewrite lookup_insert_ne. Qed.

(** An attempt of [key] is paid for out of its allowance. *)
Lemma allow_spends a now key l :
  well_formed l → a ≤ now < a + loginWindow →
  (if (allow now key l).1 then 1 else 0) + allowance a key (allow now key l).2 ≤ allowance a key l.
Proof.
  intros Hl [Ha Hn]. pose proof (expire_allowance a now key l Hl Hn) as He. unfold allow.
  destruct (l !! key) as [w|] eqn:E.
  - destruct (open_window now w) eqn:Eo.
    + destruct (loginAttempts <=? attempts w); cbn [fst snd]; [lia|].
      unfold allowance. rewrite lookup_insert_eq, E. cbn. lia.
    + change (fresh_window now key l).1 with true. rewrite fresh_allowance by done.
      unfold allowance. rewrite E. destruct (Z.leb_spec a (started w)) as [Hw|Hw].
      { by rewrite (recent_window_open a) in Eo. }
      destruct Hl as [_ Hl]. specialize (Hl _ _ E). cbn in Hl. lia.
  - assert (allowance a key l = loginAttempts) as -> by (unfold allowance; by rewrite E).
    destruct (_ <=? _)%nat; cbv zeta; [destruct (_ <=? _)%nat|].
    + cbn [fst snd]. unfold allowance at 2 in He. rewrite E in He. lia.
    + change (fresh_window now key (expire now l)).1 with true. rewrite fresh_allowance by done. lia.
    + change (fresh_window now key l).1 with true. rewrite fresh_allowance by done. lia.
Qed.

(** The attempts of others never add to it. *)
Lemma allow_other a now k key l :
  well_formed l → now < a + loginWindow → k ≠ key →
  allowance a key (allow now k l).2 ≤ allowance a key l.
Proof.
  intros Hl Hn Hk. pose proof (expire_allowance a now key l Hl Hn) as He. unfold allow, fresh_window.
  destruct (l !! k) as [w|].
  - destruct (open_window now w); [destruct (_ <=? _)|]; cbn [snd]; rewrite ?allowance_other; done.
  - destruct (_ <=? _)%nat; cbv zeta; [destruct (_ <=? _)%nat|]; cbn [snd];
      rewrite ?allowance_other; done.
Qed.

Lemma allowed_le_allowance a key es l :
  well_formed l → Forall (within a key) es → allowed key es l ≤ allowance a key l.
Proof.
  intros Hl Hes. revert l Hl. induction Hes as [|e es He Hes IH]; intros l Hl.
  { apply allowance_bounds. done. }
  cbn [allowed]. specialize (IH _ (step_well_formed e l Hl)).
  destruct e as [now k|k]; cbn [within step] in *.
  - destruct (k ==s key) eqn:Ek; bool_to_prop; cbn [andb].
    + subst k. pose proof (allow_spends a now key l Hl He). lia.
    + pose proof (allow_other a now k key l Hl ltac:(lia) Ek). lia.
  - unfold allowance, reset in *. rewrite lookup_delete_ne in IH by done. lia.
Qed.

(** C35: In less than a minute at most ten attempts on one account from one address
    are let through unless one of them succeeds, whatever else happens, and no
    more than ten thousand windows are kept. *)
Theorem login_guesses_bounded a key before es :
  Forall (within a key) es →
  let l := foldl (λ l e, step e l) newLoginLimiter before in
  allowed key es l ≤ 2 * loginAttempts ∧ (size (foldl (λ l e, step e l) l es) ≤ maxLoginWindows)%nat.
Proof.
  intros Hes. cbv zeta.
  assert (∀ es l, well_formed l → well_formed (foldl (λ l e, step e l) l es)) as Hwf.
  { clear. induction es as [|e es IH]; intros l Hl; cbn; [done|]. by apply IH, step_well_formed. }
  assert (well_formed newLoginLimiter) as H0.
  { split; [unfold newLoginLimiter; rewrite map_size_empty; lia|apply map_Forall_empty]. }
  specialize (Hwf before _ H0) as Hl. split; [|by apply Hwf].
  etrans; [by apply (allowed_le_allowance a)|]. by apply allowance_bounds.
Qed.

(** Nine guesses in two seconds: four at the end of a window, five in the next. *)
Definition burst : list event :=
  repeat (Attempt (59 * second) "k") 6 ++ repeat (Attempt (61 * second) "k") 6.

Lemma login_guesses_bounded_witness :
  allowed "k" burst (foldl (λ l e, step e l) newLoginLimiter [Attempt 0 "k"]) = 9 ∧
  allowed "k" burst (foldl (λ l e, step e l) newLoginLimiter [Attempt 0 "k"]) ≤ 2 * loginAttempts.
Proof.
  split; [vm_compute; reflexivity|].
  refine (proj1 (login_guesses_bounded (59 * second) "k" [Attempt 0 "k"] burst _)).
  repeat constructor; vm_compute; congruence.
Defined.
End LoginLimiter.
