(* ===== verification/Auth.v ===== *)
(** * Access tokens and passwords

    [internal/auth/auth.go]: signed access tokens of limited life, and passwords
    kept as Argon2 keys. *)
From Stdlib Require Import ZArith Lia Ascii String.
From stdpp Require Import base list strings countable.
From S2P Require Import Prelude GoStrings GoTime Utf8 Base64.

(** [argon2.IDKey]: password, salt, time, memory, threads and length of the key. *)
Class Argon2 := argon2_key : string → string → Z → Z → Z → Z → string.
Class Argon2Laws `{Argon2} : Prop :=
  argon2_length p s t m n k : 0 ≤ k → len (argon2_key p s t m n k) = k.

(** The claims of a token, dates in seconds since the epoch. *)
Record Claims := mk_claims {
  cm_PlatformAdmin : bool; cm_Subject : string; cm_Issuer : string;
  cm_IssuedAt : option Z; cm_ExpiresAt : option Z; cm_NotBefore : option Z;
}.

(** [golang-jwt]: signing with HS256, and reading a token whose signature verifies
    under the key, with the name of its method. *)
Class JwtLib := {
  jwt_sign : string → Claims → string;
  jwt_read : string → string → option (string * Claims);
}.
(** A signed token is read back, and in the compact serialization it begins with
    the base64url encoding of a JSON object, [{"alg":...]. *)
Class JwtLaws `{JwtLib} : Prop := {
  jwt_read_sign key c : jwt_read key (jwt_sign key c) = Some ("HS256", c);
  jwt_sign_compact key c : HasPrefix (jwt_sign key c) "eyJ" = true;
}.

Module Auth.
Import Utf8 Base64.

Record Manager := mk_manager { mg_secret : string; mg_issuer : string; mg_ttl : duration }.

Definition NewManager (secret issuer : string) (ttl : duration) : result Manager :=
  if len secret <? 32 then Err (ErrMsg "JWT_SECRET must contain at least 32 bytes")
  else Ok (mk_manager secret issuer ttl).

(** [jwt.NewNumericDate]: whole seconds *)
Definition NumericDate (t : time) : Z := seconds_of t - unix_epoch.

Section tokens.
Context `{JwtLib}.

Definition Issue (m : Manager) (userID : string) (platformAdmin : bool) (now : time) : string :=
  jwt_sign (mg_secret m)
    (mk_claims platformAdmin userID (mg_issuer m) (Some (NumericDate now))
       (Some (NumericDate (Add now (mg_ttl m)))) None).

(** The instant of a date. *)
Definition instant (seconds : Z) : time := (seconds + unix_epoch) * second.

(** The validation of the claims: an expiration date is required and lies ahead,
    the issuer is ours, and a start date has passed. *)
Definition valid_claims (m : Manager) (c : Claims) (now : time) : bool :=
  match cm_ExpiresAt c with Some e => now <? instant e | None => false end
  && match cm_NotBefore c with Some n => instant n <=? now | None => true end
  && (cm_Issuer c ==s mg_issuer m).

Definition Parse (m : Manager) (raw : string) (now : time) : result Claims :=
  match jwt_read (mg_secret m) raw with
  | None => Err (ErrMsg "parse JWT")
  | Some (method, c) =>
      if method !=s "HS256" then Err (ErrMsg "parse JWT")
      else if valid_claims m c now then Ok c else Err (ErrMsg "parse JWT")
  end.
End tokens.

(** ** Passwords *)

(** [strconv.ParseUint(s, 10, bits)] *)
Definition ParseUintBits (bits : Z) (s : string) : option Z :=
  v ← ParseUint s; if v <? 2 ^ bits then Some v else None.

Definition dollar : ascii := "$".

Section passwords.
Context `{Argon2}.

(** [salt] is what was read from the random source. *)
Definition HashPassword (password salt : string) : result string :=
  if len password <? 12 then Err (ErrMsg "password must contain at least 12 characters")
  else
    let hash := argon2_key password salt 3 65536 2 32 in
    Ok ("$argon2id$v=19$m=65536,t=3,p=2$" +:+ EncodeRawStd salt +:+ "$" +:+ EncodeRawStd hash).

Definition VerifyPassword (encoded password : string) : bool :=
  match Split encoded dollar with
  | [_; _; _; params; salt; expected] =>
      match Split params "," with
      | [m; t; p] =>
          match ParseUintBits 32 (TrimPrefix m "m="), ParseUintBits 32 (TrimPrefix t "t="),
                ParseUintBits 8 (TrimPrefix p "p="), DecodeRaw std_alphabet salt,
                DecodeRaw std_alphabet expected with
          | Some memory, Some iterations, Some parallelism, Some salt, Some expected =>
              if (memory <? 8192) || (262144 <? memory) || (iterations <? 1) || (10 <? iterations)
                 || (parallelism <? 1) || (16 <? parallelism) || (len salt <? 8) || (64 <? len salt)
                 || negb (len expected =? 32)
              then false
              else argon2_key password salt iterations memory parallelism 32 ==s expected
          | _, _, _, _, _ => false
          end
      | _ => false
      end
  | _ => false
  end.
End passwords.

(** ** Proofs *)

(** The digits of an alphabet are characters of it. *)
Lemma digit_or_dollar sep v :
  Ascii.eqb sep (digit std_alphabet v) = false ∨ Ascii.eqb sep dollar = false.
Proof.
  destruct (Ascii.eqb_spec sep dollar) as [->|]; [|by right]. left. unfold digit.
  rewrite land_63. pose proof (Z.mod_pos_bound v 64 ltac:(lia)) as Hv.
  set (n := v mod 64) in *. clearbody n.
  assert (Hall : forallb (λ k, negb (Ascii.eqb dollar
    (default "A"%char (String.get k std_alphabet)))) (seq 0 64) = true) by (vm_compute; reflexivity).
  rewrite forallb_forall in Hall. specialize (Hall (Z.to_nat n)).
  rewrite negb_true_iff in Hall. apply Hall, in_seq. lia.
Qed.

Lemma encode_plain l : exists_char (Ascii.eqb dollar) (encode_triples std_alphabet "" l) = false.
Proof.
  assert (Hd : ∀ v, Ascii.eqb dollar (digit std_alphabet v) = false).
  { intros v. by destruct (digit_or_dollar dollar v). }
  induction l as [l IH] using (induction_ltof1 _ (@length ascii)).
  destruct l as [|a [|b [|c l]]]; cbn [encode_triples exists_char]; rewrite ?Hd; [done..|].
  cbn. apply IH. unfold ltof. cbn. lia.
Qed.

Section properties.
Context `{Argon2Laws}.

Lemma hash_parts salt hash :
  Split ("$argon2id$v=19$m=65536,t=3,p=2$" +:+ EncodeRawStd salt +:+ "$" +:+ EncodeRawStd hash) dollar
    = [""; "argon2id"; "v=19"; "m=65536,t=3,p=2"; EncodeRawStd salt; EncodeRawStd hash].
Proof.
  unfold Split, EncodeRawStd.
  change ("$argon2id$v=19$m=65536,t=3,p=2$" +:+ ?x)
    with ("" +:+ String dollar ("argon2id" +:+ String dollar ("v=19" +:+ String dollar
            ("m=65536,t=3,p=2" +:+ String dollar x)))).
  rewrite !Split_aux_cut by (vm_compute; reflexivity).
  change ("$" +:+ ?x) with (String dollar x).
  rewrite Split_aux_cut by apply encode_plain. rewrite Split_aux_single by apply encode_plain.
  by rewrite !app_nil.
Qed.

(** The text that [HashPassword] makes is accepted with what has the same key. *)
Lemma verify_hashed password salt encoded other :
  len salt = 16 → HashPassword password salt = Ok encoded →
  VerifyPassword encoded other
    = (argon2_key other salt 3 65536 2 32 ==s argon2_key password salt 3 65536 2 32).
Proof.
  intros Hs. unfold HashPassword. destruct (len password <? 12); [done|]. cbv zeta. intros [= <-].
  set (hash := argon2_key password salt 3 65536 2 32). unfold VerifyPassword. rewrite hash_parts.
  change (Split "m=65536,t=3,p=2" ",") with ["m=65536"; "t=3"; "p=2"].
  change (ParseUintBits 32 (TrimPrefix "m=65536" "m=")) with (Some 65536).
  change (ParseUintBits 32 (TrimPrefix "t=3" "t=")) with (Some 3).
  change (ParseUintBits 8 (TrimPrefix "p=2" "p=")) with (Some 2).
  unfold EncodeRawStd. rewrite !decode_encode_raw by apply std_usable.
  assert (Hh : len hash = 32) by (apply argon2_length; lia). by rewrite Hs, Hh.
Qed.

(** Passwords.  A password of at least twelve bytes is hashed with a 16-byte salt;
    the stored text is accepted with that password, and with another one only if
    Argon2 gives both the same key; shorter passwords are refused. *)
Theorem password_round_trip password salt :
  len salt = 16 →
  if len password <? 12 then ∃ err, HashPassword password salt = Err err
  else ∃ encoded, HashPassword password salt = Ok encoded ∧ VerifyPassword encoded password = true ∧
    ∀ other, VerifyPassword encoded other
               = (argon2_key other salt 3 65536 2 32 ==s argon2_key password salt 3 65536 2 32).
Proof.
  intros Hs. pose proof (verify_hashed password salt) as Hv. revert Hv.
  unfold HashPassword. destruct (len password <? 12); [by eexists|]. cbv zeta. intros Hv.
  eexists. split; [done|]. split; [|intros other; by apply Hv].
  rewrite (Hv _ password Hs eq_refl). apply String.eqb_refl.
Qed.
End properties.

Section token_properties.
Context `{JwtLaws}.

(** The instant at which a token of the manager stops being accepted. *)
Definition expiry (m : Manager) (issued : time) : time := instant (NumericDate (Add issued (mg_ttl m))).

Lemma parse_issued m userID admin issued now :
  Parse m (Issue m userID admin issued) now
    = if now <? expiry m issued
      then Ok (mk_claims admin userID (mg_issuer m) (Some (NumericDate issued))
                 (Some (NumericDate (Add issued (mg_ttl m)))) None)
      else Err (ErrMsg "parse JWT").
Proof.
  unfold Parse, Issue, expiry. rewrite jwt_read_sign. cbn [negb String.eqb Ascii.eqb Bool.eqb andb].
  unfold valid_claims. cbn [cm_ExpiresAt cm_NotBefore cm_Issuer]. rewrite String.eqb_refl.
  by destruct (now <? _).
Qed.

(** Access tokens.  A token issued to a user names that user and whether they
    administer the platform; it is accepted until the life of the manager's tokens,
    cut to whole seconds, has passed, and never afterwards. *)
Theorem issued_token_expires m userID admin issued now :
  Parse m (Issue m userID admin issued) now
    = (if now <? expiry m issued
       then Ok (mk_claims admin userID (mg_issuer m) (Some (NumericDate issued))
                  (Some (NumericDate (Add issued (mg_ttl m)))) None)
       else Err (ErrMsg "parse JWT")) ∧
  Add issued (mg_ttl m) - second < expiry m issued ≤ Add issued (mg_ttl m).
Proof.
  split; [apply parse_issued|]. unfold expiry, instant, NumericDate, seconds_of.
  rewrite Z.sub_add. pose proof (Z.div_mod (Add issued (mg_ttl m)) second ltac:(done)).
  pose proof (Z.mod_pos_bound (Add issued (mg_ttl m)) second ltac:(done)). unfold second in *. lia.
Qed.
End token_properties.

(** ** Examples *)

Definition sample_argon2 : Argon2 := λ p s _ _ _ k, repeated (Z.to_nat k) "k" +:+ "".
#[local] Existing Instance sample_argon2.
Lemma sample_argon2_laws : Argon2Laws.
Proof.
  intros p s t m n k Hk. unfold argon2_key, sample_argon2, len. rewrite length_repeated. cbn. lia.
Qed.

#[local] Existing Instance sample_argon2_laws.

Lemma password_round_trip_witness :
  ∃ encoded, HashPassword "correct horse" "0123456789abcdef" = Ok encoded ∧
    VerifyPassword encoded "correct horse" = true.
Proof.
  destruct (password_round_trip "correct horse" "0123456789abcdef") as (encoded & He & Hv & _).
  - vm_compute. reflexivity.
  - by exists encoded.
Defined.

(** Tokens that spell the claims in binary. *)
Fixpoint spell (p : positive) : string :=
  match p with xH => "." | xO p => String "0" (spell p) | xI p => String "1" (spell p) end.
Fixpoint unspell (s : string) : option positive :=
  match s with
  | "." => Some xH
  | String "0" s => xO <$> unspell s
  | String "1" s => xI <$> unspell s
  | _ => None
  end.
Lemma unspell_spell p : unspell (spell p) = Some p.
Proof.
  induction p as [p IH|p IH|]; cbn; [| |done]; rewrite IH; by destruct (spell p).
Qed.

Definition claim_fields (c : Claims) :=
  (cm_PlatformAdmin c, cm_Subject c, cm_Issuer c, (cm_IssuedAt c, cm_ExpiresAt c, cm_NotBefore c)).
Definition sample_jwt : JwtLib := {|
  jwt_sign := λ _ c, "eyJ" +:+ spell (encode (claim_fields c));
  jwt_read := λ _ raw,
    p ← unspell (TrimPrefix raw "eyJ");
    '(admin, subject, issuer, (issued, expires, start)) ←
      decode (A := bool * string * string * (option Z * option Z * option Z)) p;
    Some ("HS256", mk_claims admin subject issuer issued expires start);
|}.
#[local] Existing Instance sample_jwt.
Lemma sample_jwt_laws : JwtLaws.
Proof.
  split; intros key c; unfold jwt_read, jwt_sign, sample_jwt; [|by destruct (spell _)].
  assert (E : ∀ x, TrimPrefix ("eyJ" +:+ x) "eyJ" = x) by (by intros []).
  rewrite E, unspell_spell. cbn [mbind option_bind]. rewrite decode_encode. by destruct c.
Qed.
#[local] Existing Instance sample_jwt_laws.

Lemma issued_token_expires_witness :
  Parse (mk_manager "k" "scheduler" (15 * minute))
    (Issue (mk_manager "k" "scheduler" (15 * minute)) "u1" false (100 * second)) (16 * minute + 40 * second)
    = Err (ErrMsg "parse JWT").
Proof.
  destruct (issued_token_expires (mk_manager "k" "scheduler" (15 * minute)) "u1" false (100 * second)
              (16 * minute + 40 * second)) as [E _].
  rewrite E. reflexivity.
Defined.
End Auth.
