(* ===== verification/Sessions.v ===== *)
(** * Refresh sessions

    [internal/store/iam.go]: refresh tokens are stored as digests, replaced at
    every use, and revoked together when one of a family is used again. *)
From Stdlib Require Import ZArith Lia String.
From stdpp Require Import base list strings relations.
From S2P Require Import Prelude GoStrings Engine.

Module Sessions.

(** The table [refresh_sessions]. *)
Record session_row := mk_session {
  rs_id : string; rs_family_id : string; rs_user_id : string; rs_token_hash : string;
  rs_expires_at : time; rs_consumed_at : option time; rs_revoked_at : option time;
  rs_replaced_by : option string;
}.
Definition sessions : Type := list session_row.

Record RefreshSession := mk_refresh {
  rf_ID : string; rf_FamilyID : string; rf_UserID : string; rf_ExpiresAt : time;
}.

(** What one call draws and reads: identifiers, a token, the clock of the
    process and that of the transaction. *)
Record draw := mk_draw {
  dr_id : string; dr_family : string; dr_token : string; dr_wall : time; dr_now : time;
}.

Section sessions.
Context `{Sha256}.

(** [INSERT INTO refresh_sessions]: the id and the digest are unique. *)
Definition insert_session (row : session_row) (s : sessions) : result sessions :=
  if sql_exists (λ x, (rs_id x ==s rs_id row) || (rs_token_hash x ==s rs_token_hash row)) s
  then Err (ErrMsg "duplicate refresh session") else Ok (s ++ [row]).

Definition new_row (family user : string) (ttl : duration) (d : draw) : session_row :=
  mk_session (dr_id d) family user (sha256 (dr_token d)) (Add (dr_wall d) ttl) None None None.
Definition refresh_session (row : session_row) : RefreshSession :=
  mk_refresh (rs_id row) (rs_family_id row) (rs_user_id row) (rs_expires_at row).

Definition CreateRefreshSession (userID : string) (ttl : duration) (d : draw) (s : sessions)
    : result (string * RefreshSession) * sessions :=
  let row := new_row (dr_family d) userID ttl d in
  match insert_session row s with
  | Ok s' => (Ok (dr_token d, refresh_session row), s')
  | Err _ => (Err (ErrMsg "create refresh session"), s)
  end.

(** [SET revoked_at=COALESCE(revoked_at,now()) WHERE family_id=$1] *)
Definition revoke_row (t : time) (x : session_row) : session_row :=
  mk_session (rs_id x) (rs_family_id x) (rs_user_id x) (rs_token_hash x) (rs_expires_at x)
    (rs_consumed_at x) (Some (coalesce (rs_revoked_at x) t)) (rs_replaced_by x).
Definition revoke_family (family : string) (t : time) (s : sessions) : sessions :=
  sql_update (λ x, rs_family_id x ==s family) (revoke_row t) s.

(** [SET consumed_at=now(),replaced_by=$2 WHERE id=$1] *)
Definition consume_row (t : time) (next : string) (x : session_row) : session_row :=
  mk_session (rs_id x) (rs_family_id x) (rs_user_id x) (rs_token_hash x) (rs_expires_at x)
    (Some t) (rs_revoked_at x) (Some next).

Definition spent (wall : time) (x : session_row) : bool :=
  bool_decide (rs_consumed_at x ≠ None) || bool_decide (rs_revoked_at x ≠ None)
  || After wall (rs_expires_at x).

(** The refusal of a spent token is committed, other errors roll back. *)
Definition RotateRefreshSession (raw : string) (ttl : duration) (d : draw) (s : sessions)
    : result (string * RefreshSession) * sessions :=
  match sql_select (λ x, rs_token_hash x ==s sha256 raw) s with
  | [] => (Err ErrNotFound, s)
  | old :: _ =>
      if spent (dr_wall d) old
      then (Err ErrConflict, revoke_family (rs_family_id old) (dr_now d) s)
      else
        let row := new_row (rs_family_id old) (rs_user_id old) ttl d in
        match insert_session row s with
        | Err err => (Err err, s)
        | Ok s' => (Ok (dr_token d, refresh_session row),
                    sql_update (λ x, rs_id x ==s rs_id old) (consume_row (dr_now d) (dr_id d)) s')
        end
  end.

Definition RevokeRefreshSession (raw : string) (t : time) (s : sessions) : sessions :=
  match sql_select (λ x, rs_token_hash x ==s sha256 raw) s with
  | [] => s
  | x :: _ => revoke_family (rs_family_id x) t s
  end.

(** ** Executions *)

(** A new session starts a family that no session has; UUIDs are drawn at random. *)
Inductive sstep : sessions → sessions → Prop :=
| step_create user ttl d s :
    (∀ x, x ∈ s → rs_family_id x ≠ dr_family d) → sstep s (CreateRefreshSession user ttl d s).2
| step_rotate raw ttl d s : sstep s (RotateRefreshSession raw ttl d s).2
| step_revoke raw t s : sstep s (RevokeRefreshSession raw t s).

Definition unused (x : session_row) : Prop := rs_consumed_at x = None ∧ rs_revoked_at x = None.

(** Identifiers and digests are unique, and a family has at most one token that
    can still be used. *)
Record sound (s : sessions) : Prop := {
  ids_unique : NoDup (map rs_id s);
  digests_unique : NoDup (map rs_token_hash s);
  one_unused : ∀ x y, x ∈ s → y ∈ s → rs_family_id x = rs_family_id y →
    unused x → unused y → x = y;
}.

(** ** Proofs *)

Lemma insert_session_Ok row s s' :
  insert_session row s = Ok s' →
  s' = s ++ [row] ∧ rs_id row ∉ map rs_id s ∧ rs_token_hash row ∉ map rs_token_hash s.
Proof.
  unfold insert_session. destruct (sql_exists _ _) eqn:E; [done|]. intros [= <-].
  assert (∀ x, x ∈ s → rs_id x ≠ rs_id row ∧ rs_token_hash x ≠ rs_token_hash row) as Hx.
  { intros x Hx. pose proof (proj1 (sql_exists_false _ _) E x Hx) as Hp. cbn in Hp. by bool_to_prop. }
  split; [done|]. split; intros (x & Ex & Hin)%list_elem_of_fmap; by destruct (Hx x Hin).
Qed.

Lemma revoke_sound family t s : sound s → sound (revoke_family family t s).
Proof.
  intros [Hi Hd Ho]. unfold revoke_family. split.
  - by rewrite sql_update_key by done.
  - by rewrite sql_update_key by done.
  - intros x y Hx Hy Hf Ux Uy.
    assert (∀ z, z ∈ sql_update (λ x, rs_family_id x ==s family) (revoke_row t) s → unused z → z ∈ s)
      as Hz.
    { intros z (w & Hw & ->)%elem_of_sql_update [_ Hr]. by destruct (rs_family_id w ==s family). }
    auto.
Qed.

(** A new row whose family has no unused token but the one it replaces. *)
Lemma rotate_sound old row t s s' :
  sound s → old ∈ s → unused old → rs_family_id row = rs_family_id old →
  insert_session row s = Ok s' →
  sound (sql_update (λ x, rs_id x ==s rs_id old) (consume_row t (rs_id row)) s').
Proof.
  intros [Hi Hd Ho] Hold Hu Hf (-> & Hid & Hh)%insert_session_Ok. split.
  - rewrite sql_update_key by done. rewrite map_app. apply NoDup_app. split_and!; [done| |apply NoDup_singleton].
    intros i Hin ->%list_elem_of_singleton. done.
  - rewrite sql_update_key by done. rewrite map_app. apply NoDup_app. split_and!; [done| |apply NoDup_singleton].
    intros i Hin ->%list_elem_of_singleton. done.
  - assert (∀ z, z ∈ sql_update (λ x, rs_id x ==s rs_id old) (consume_row t (rs_id row)) (s ++ [row]) →
              unused z → z = row ∨ z ∈ s ∧ rs_id z ≠ rs_id old) as Hz.
    { intros z (w & Hw & ->)%elem_of_sql_update [Hc _]. destruct (rs_id w ==s rs_id old) eqn:E; [done|].
      bool_to_prop. apply elem_of_app in Hw as [Hw|Hw%list_elem_of_singleton]; auto. }
    assert (∀ z, z ∈ s → rs_id z ≠ rs_id old → unused z → rs_family_id z ≠ rs_family_id row) as Hn.
    { intros z Hzs Hne Hzu Hzf. apply Hne. f_equal. apply Ho; [done..|congruence|done|done]. }
    intros x y Hx Hy Hxy Ux Uy.
    destruct (Hz x Hx Ux) as [->|[Hxs Hxi]], (Hz y Hy Uy) as [->|[Hys Hyi]]; [done| | |by apply Ho].
    + by destruct (Hn y Hys Hyi Uy).
    + by destruct (Hn x Hxs Hxi Ux).
Qed.

Lemma unspent_unused wall x : spent wall x = false → unused x.
Proof.
  unfold spent, unused. intros Hs. bool_to_prop.
  repeat match goal with H : bool_decide _ = false |- _ => apply bool_decide_eq_false in H end.
  by destruct (rs_consumed_at x), (rs_revoked_at x); try naive_solver.
Qed.

Lemma select_head {A} (p : A → bool) l x rest : sql_select p l = x :: rest → x ∈ l ∧ p x = true.
Proof. intros E. assert (x ∈ sql_select p l) as Hx by (rewrite E; by left). apply elem_of_sql_select in Hx. tauto. Qed.

Lemma step_sound s s' : sstep s s' → sound s → sound s'.
Proof.
  intros Hstep Hs. destruct Hstep as [user ttl d s Hf|raw ttl d s|raw t s].
  - unfold CreateRefreshSession. destruct (insert_session _ s) as [s'|] eqn:E; [|done]. cbn [snd].
    apply insert_session_Ok in E as (-> & Hid & Hh). destruct Hs as [Hi Hd Ho]. split.
    + rewrite map_app. apply NoDup_app. split_and!; [done| |apply NoDup_singleton].
      by intros i Hin ->%list_elem_of_singleton.
    + rewrite map_app. apply NoDup_app. split_and!; [done| |apply NoDup_singleton].
      by intros i Hin ->%list_elem_of_singleton.
    + intros x y [Hx|Hx%list_elem_of_singleton]%elem_of_app [Hy|Hy%list_elem_of_singleton]%elem_of_app Hxy Ux Uy.
      * auto.
      * subst y. by destruct (Hf x Hx).
      * subst x. by destruct (Hf y Hy).
      * congruence.
  - unfold RotateRefreshSession. destruct (sql_select _ s) as [|old rest] eqn:E; [done|].
    apply select_head in E as [Hold _]. destruct (spent _ old) eqn:Es; [by apply revoke_sound|].
    cbv zeta. destruct (insert_session _ s) as [s'|] eqn:Ei; [|done]. cbn [snd].
    apply (rotate_sound old _ (dr_now d)) in Ei; [done|done|done|by eapply unspent_unused|done].
  - unfold RevokeRefreshSession. destruct (sql_select _ s); [done|by apply revoke_sound].
Qed.

Lemma initially_sound : sound [].
Proof. split; [constructor..|by intros ? ? ?%elem_of_nil]. Qed.

Lemma steps_sound s s' : rtc sstep s s' → sound s → sound s'.
Proof. induction 1; eauto using step_sound. Qed.

(** In every execution a family has at most one token that can still be used. *)
Theorem family_has_one_token s : rtc sstep [] s → sound s.
Proof. intros Hs. eapply steps_sound; [exact Hs|apply initially_sound]. Qed.

(** Every token of the family is revoked, and there is one. *)
Definition closed (family : string) (s : sessions) : Prop :=
  (∃ x, x ∈ s ∧ rs_family_id x = family) ∧
  ∀ x, x ∈ s → rs_family_id x = family → rs_revoked_at x ≠ None.

Lemma revoke_closes family t s :
  (∃ x, x ∈ s ∧ rs_family_id x = family) → closed family (revoke_family family t s).
Proof.
  intros (x & Hx & Hf). split.
  - exists (revoke_row t x). split; [|done]. apply elem_of_sql_update. exists x.
    rewrite (proj2 (String.eqb_eq _ _) Hf). done.
  - intros z (w & Hw & ->)%elem_of_sql_update. destruct (rs_family_id w ==s family) eqn:E; [done|].
    bool_to_prop. done.
Qed.

Lemma update_closed family p f s :
  (∀ x, rs_family_id (f x) = rs_family_id x) →
  (∀ x, rs_revoked_at x ≠ None → rs_revoked_at (f x) ≠ None) →
  closed family s → closed family (sql_update p f s).
Proof.
  intros Hf Hr [(x & Hx & Ex) Hall]. split.
  - exists (if p x then f x else x). split; [apply elem_of_sql_update; eauto|].
    destruct (p x); rewrite ?Hf; done.
  - intros z (w & Hw & ->)%elem_of_sql_update Hz. destruct (p w); [|auto]. rewrite Hf in Hz. auto.
Qed.

Lemma insert_closed family row s s' :
  insert_session row s = Ok s' → rs_family_id row ≠ family → closed family s → closed family s'.
Proof.
  intros (-> & _)%insert_session_Ok Hr [(x & Hx & Ex) Hall]. split.
  - exists x. split; [|done]. apply elem_of_app. by left.
  - intros z [Hz|Hz%list_elem_of_singleton]%elem_of_app Hf; [auto|congruence].
Qed.

Lemma step_closed family s s' : sstep s s' → closed family s → closed family s'.
Proof.
  intros Hstep Hc. destruct Hstep as [user ttl d s Hf|raw ttl d s|raw t s].
  - unfold CreateRefreshSession. destruct (insert_session _ s) as [s'|] eqn:E; [|done]. cbn [snd].
    eapply insert_closed; [done| |done]. destruct Hc as [(x & Hx & <-) _]. cbn.
    intros Hx'. by destruct (Hf x Hx).
  - unfold RotateRefreshSession. destruct (sql_select _ s) as [|old rest] eqn:E; [done|].
    apply select_head in E as [Hold _]. destruct (spent _ old) eqn:Es; [by apply update_closed|].
    cbv zeta. destruct (insert_session _ s) as [s'|] eqn:Ei; [|done]. cbn [snd].
    apply update_closed; [done|done|]. eapply insert_closed; [done| |done]. cbn.
    intros Hf. destruct Hc as [_ Hall]. apply unspent_unused in Es as [_ Hn]. by apply (Hall old Hold Hf).
  - unfold RevokeRefreshSession. destruct (sql_select _ s); [done|by apply update_closed].
Qed.

Lemma steps_closed family s s' : rtc sstep s s' → closed family s → closed family s'.
Proof. induction 1; eauto using step_closed. Qed.

(** The row of a token, which is spent, decides its rotation. *)
Lemma rotate_spent x raw ttl d s :
  sound s → x ∈ s → rs_token_hash x = sha256 raw → spent (dr_wall d) x = true →
  RotateRefreshSession raw ttl d s = (Err ErrConflict, revoke_family (rs_family_id x) (dr_now d) s).
Proof.
  intros Hs Hx Hh Hsp. unfold RotateRefreshSession. destruct (sql_select _ s) as [|old rest] eqn:E.
  - assert (x ∈ sql_select (λ x, rs_token_hash x ==s sha256 raw) s) as Hin
      by (apply elem_of_sql_select; rewrite Hh, String.eqb_refl; done).
    rewrite E in Hin. by apply elem_of_nil in Hin.
  - apply select_head in E as [Hold Ho]. bool_to_prop.
    assert (old = x) as -> by (apply (NoDup_key_inj rs_token_hash s); [apply Hs|done|done|congruence]).
    by rewrite Hsp.
Qed.

Lemma spent_if_used wall x : rs_consumed_at x ≠ None ∨ rs_revoked_at x ≠ None → spent wall x = true.
Proof.
  unfold spent. intros [Hc|Hr].
  - by rewrite bool_decide_true.
  - by rewrite (bool_decide_true (rs_revoked_at x ≠ None)), orb_true_r.
Qed.

(** C34: when a refresh token is used a second time it is refused, and from then on
    so is every token of its family, in every continuation of transactions that run
    one after another.  (At READ COMMITTED the revocation of the family does not
    see the successor that a rotation of the family has inserted but not yet
    committed: that one stays usable.) *)
Theorem replayed_token_closes_family s x raw ttl d s' y raw' ttl' d' :
  rtc sstep [] s → x ∈ s → rs_token_hash x = sha256 raw → rs_consumed_at x ≠ None →
  rtc sstep (RotateRefreshSession raw ttl d s).2 s' →
  y ∈ s' → rs_family_id y = rs_family_id x → rs_token_hash y = sha256 raw' →
  (RotateRefreshSession raw ttl d s).1 = Err ErrConflict ∧
  (RotateRefreshSession raw' ttl' d' s').1 = Err ErrConflict.
Proof.
  intros Hr Hx Hraw Hc Hs' Hy Hf Hraw'.
  assert (sound s) as Hs by (eapply steps_sound; [exact Hr|apply initially_sound]).
  assert (sound s') as Hsound.
  { eapply steps_sound; [exact Hs'|]. by eapply step_sound; [apply step_rotate|]. }
  rewrite (rotate_spent x) in Hs' |- * by auto using spent_if_used. split; [done|].
  apply (steps_closed (rs_family_id x)) in Hs' as [_ Hall]; [|by apply revoke_closes; eauto].
  rewrite (rotate_spent y); [done|done|done|done|]. apply spent_if_used. right. by apply Hall.
Qed.
End sessions.

(** ** A stolen token

    A login is refreshed; the old token turns up again and is refused, and so is
    the new one from then on. *)
Section witness.
#[local] Instance plain_digest : Sha256 := λ s, s.
Definition login_draw : draw := mk_draw "s1" "f" "one" 0 0.
Definition refresh_draw : draw := mk_draw "s2" "f2" "two" 10 10.
Definition replay_draw : draw := mk_draw "s3" "f3" "three" 20 20.
Definition refreshed : sessions :=
  (RotateRefreshSession "one" hour refresh_draw (CreateRefreshSession "u" hour login_draw []).2).2.
Definition after_replay : sessions := (RotateRefreshSession "one" hour replay_draw refreshed).2.

Lemma refreshed_reachable : rtc sstep [] refreshed.
Proof.
  eapply rtc_l; [apply (step_create "u" hour login_draw); by intros ? ?%elem_of_nil|].
  apply rtc_once, step_rotate.
Qed.

Lemma family_has_one_token_witness : length refreshed = 2%nat ∧ sound refreshed.
Proof. split; [vm_compute; reflexivity|]. exact (family_has_one_token refreshed refreshed_reachable). Defined.

Lemma replayed_token_closes_family_witness :
  (RotateRefreshSession "one" hour replay_draw refreshed).1 = Err ErrConflict ∧
  (RotateRefreshSession "two" hour replay_draw after_replay).1 = Err ErrConflict.
Proof.
  apply (replayed_token_closes_family refreshed
    (mk_session "s1" "f" "u" "one" hour (Some 10) None (Some "s2")) "one" hour replay_draw after_replay
    (mk_session "s2" "f" "u" "two" (10 + hour) None (Some 20) None) "two" hour replay_draw).
  - exact refreshed_reachable.
  - left.
  - reflexivity.
  - discriminate.
  - apply rtc_refl.
  - right. left.
  - reflexivity.
  - reflexivity.
Defined.
End witness.
End Sessions.
