(* ===== verification/Identity.v ===== *)
(** * Users, tenants, memberships and API keys

    [internal/store/iam.go], [console.go], [apikey.go] and the API keys of
    [store.go]: who may act for which tenant.  The table [tenants] appears here
    with the columns these operations use. *)
From Stdlib Require Import ZArith Lia Ascii String.
From stdpp Require Import base list strings relations.
From S2P Require Import Prelude GoStrings Base64 Tables JobStore Engine Sessions.

(** PostgreSQL's [lower], whose result on other than ASCII letters depends on the
    locale; lowering twice changes nothing more. *)
Class PgLower := lower : string → string.
Class PgLowerLaws `{PgLower} : Prop := lower_lower s : lower (lower s) = lower s.

Module Identity.
Import Base64 JobStore Sessions.

(** ** Tables *)

Record user_row := mk_user {
  u_id : string; u_email : string; u_password_hash : string; u_platform_admin : bool;
  u_disabled : bool; u_created_at : time;
}.
Record account_row := mk_account {
  a_id : string; a_name : string; a_max_concurrent_runs : Z; a_created_at : time;
}.
Record membership_row := mk_membership { b_tenant_id : string; b_user_id : string; b_role : string }.
Record api_key_row := mk_api_key {
  p_id : string; p_tenant_id : string; p_name : string; p_key_hash : string; p_role : string;
  p_created_at : time; p_revoked_at : option time;
}.

Record idb := mk_idb {
  users : list user_row; accounts : list account_row; memberships : list membership_row;
  api_keys : list api_key_row; refresh_sessions : sessions;
}.
Definition set_users (x : list user_row) (s : idb) : idb :=
  mk_idb x (accounts s) (memberships s) (api_keys s) (refresh_sessions s).
Definition set_accounts (x : list account_row) (s : idb) : idb :=
  mk_idb (users s) x (memberships s) (api_keys s) (refresh_sessions s).
Definition set_memberships (x : list membership_row) (s : idb) : idb :=
  mk_idb (users s) (accounts s) x (api_keys s) (refresh_sessions s).
Definition set_api_keys (x : list api_key_row) (s : idb) : idb :=
  mk_idb (users s) (accounts s) (memberships s) x (refresh_sessions s).
Definition set_sessions (x : sessions) (s : idb) : idb :=
  mk_idb (users s) (accounts s) (memberships s) (api_keys s) x.

(** [CHECK (role IN ('owner','admin','developer','viewer'))] *)
Definition roles : list string := ["owner"; "admin"; "developer"; "viewer"].
Definition role_check (role : string) : bool := one_of role roles.

(** ** Results *)

Record User := mk_User {
  U_ID : string; U_Email : string; U_PasswordHash : string; U_PlatformAdmin : bool; U_Disabled : bool;
}.
Record TenantAccess := mk_TenantAccess {
  TA_ID : string; TA_Name : string; TA_Role : string; TA_MaxConcurrentRuns : Z;
}.
Record UserSummary := mk_UserSummary {
  US_ID : string; US_Email : string; US_PlatformAdmin : bool; US_Disabled : bool; US_CreatedAt : time;
}.
Record TenantSummary := mk_TenantSummary {
  TS_ID : string; TS_Name : string; TS_MaxConcurrentRuns : Z; TS_CreatedAt : time;
}.
Record MemberSummary := mk_MemberSummary {
  MS_UserID : string; MS_Email : string; MS_Role : string; MS_Disabled : bool;
}.
Record APIKey := mk_APIKey {
  AK_ID : string; AK_TenantID : string; AK_Name : string; AK_Role : string;
  AK_CreatedAt : time; AK_RevokedAt : option time;
}.

Definition user_of (u : user_row) : User :=
  mk_User (u_id u) (u_email u) (u_password_hash u) (u_platform_admin u) (u_disabled u).
Definition key_of (p : api_key_row) : APIKey :=
  mk_APIKey (p_id p) (p_tenant_id p) (p_name p) (p_role p) (p_created_at p) (p_revoked_at p).

Definition first_row {A} (l : list A) : result A :=
  match l with [] => Err ErrNotFound | x :: _ => Ok x end.

(** What one call draws: an identifier, 32 random bytes, the time of the
    transaction. *)
Record id_draw := mk_id_draw { dw_id : string; dw_random : string; dw_now : time }.

(** ** Users *)

Section users.
Context `{PgLower}.

Definition GetUserByEmail (email : string) (s : idb) : result User :=
  u ← first_row (sql_select (λ u, lower (u_email u) ==s lower email) (users s)); Ok (user_of u).

Definition GetUser (id : string) (s : idb) : result User :=
  u ← first_row (sql_select (λ u, u_id u ==s id) (users s)); Ok (user_of u).

(** The INSERT is refused by the primary key and the unique index on the address of
    the migrations; the code has no check of its own. *)
Definition CreateUser (email passwordHash : string) (platformAdmin : bool) (d : id_draw) (s : idb)
    : result User * idb :=
  if sql_exists (λ u, (u_id u ==s dw_id d) || (u_email u ==s lower email)) (users s)
  then (Err (ErrMsg "create user"), s)
  else
    let u := mk_user (dw_id d) (lower email) passwordHash platformAdmin false (dw_now d) in
    (Ok (mk_User (dw_id d) (lower email) passwordHash platformAdmin false),
     set_users (users s ++ [u]) s).

Definition disable (disabled : bool) (u : user_row) : user_row :=
  mk_user (u_id u) (u_email u) (u_password_hash u) (u_platform_admin u) disabled (u_created_at u).
Definition SetUserDisabled (id : string) (disabled : bool) (s : idb) : idb :=
  set_users (sql_update (λ u, u_id u ==s id) (disable disabled) (users s)) s.

(** [ORDER BY created_at DESC LIMIT 200] *)
Definition ListUsers (s : idb) : list UserSummary :=
  map (λ u, mk_UserSummary (u_id u) (u_email u) (u_platform_admin u) (u_disabled u) (u_created_at u))
    (take 200 (sort_by (λ a b, u_created_at b <=? u_created_at a) (users s))).
End users.

(** ** Tenants and memberships *)

(** [ORDER BY name] *)
Definition ListTenants (s : idb) : list TenantSummary :=
  map (λ a, mk_TenantSummary (a_id a) (a_name a) (a_max_concurrent_runs a) (a_created_at a))
    (sort_by (λ a b, String.leb (a_name a) (a_name b)) (accounts s)).

Definition CreateTenant (name : string) (d : id_draw) (s : idb) : result string * idb :=
  if sql_exists (λ a, a_id a ==s dw_id d) (accounts s) then (Err (ErrMsg "create tenant"), s)
  else (Ok (dw_id d), set_accounts (accounts s ++ [mk_account (dw_id d) name 100 (dw_now d)]) s).

Definition is_member (tenantID userID : string) (b : membership_row) : bool :=
  (b_tenant_id b ==s tenantID) && (b_user_id b ==s userID).

(** [ON CONFLICT(tenant_id,user_id) DO UPDATE SET role=EXCLUDED.role]; the tenant
    and the user are foreign keys and the role has a CHECK, all of the migrations. *)
Definition AddMembership (tenantID userID role : string) (s : idb) : result unit * idb :=
  if negb (role_check role && sql_exists (λ a, a_id a ==s tenantID) (accounts s)
           && sql_exists (λ u, u_id u ==s userID) (users s))
  then (Err (ErrMsg "add membership"), s)
  else if sql_exists (is_member tenantID userID) (memberships s)
  then (Ok tt, set_memberships (sql_update (is_member tenantID userID)
                 (λ b, mk_membership (b_tenant_id b) (b_user_id b) role) (memberships s)) s)
  else (Ok tt, set_memberships (memberships s ++ [mk_membership tenantID userID role]) s).

Definition GetMembershipRole (tenantID userID : string) (s : idb) : result string :=
  b ← first_row (sql_select (is_member tenantID userID) (memberships s)); Ok (b_role b).

Definition is_owner (tenantID : string) (b : membership_row) : bool :=
  (b_tenant_id b ==s tenantID) && (b_role b ==s "owner").

Definition DeleteMembership (tenantID userID : string) (s : idb) : result unit * idb :=
  if negb (sql_exists (λ a, a_id a ==s tenantID) (accounts s)) then (Err ErrNotFound, s)
  else
    let owners := sql_count (is_owner tenantID) (memberships s) in
    match sql_select (is_member tenantID userID) (memberships s) with
    | [] => (Err ErrNotFound, s)
    | b :: _ =>
        if (b_role b ==s "owner") && Nat.leb owners 1 then (Err ErrConflict, s)
        else (Ok tt, set_memberships (sql_select (λ b, negb (is_member tenantID userID b))
                                        (memberships s)) s)
    end.

(** The joins with [tenants] and [users], sorted by name and by e-mail. *)
Definition UserTenants (userID : string) (platformAdmin : bool) (s : idb) : list TenantAccess :=
  sort_by (λ a b, String.leb (TA_Name a) (TA_Name b))
    (if platformAdmin
     then map (λ a, mk_TenantAccess (a_id a) (a_name a) "owner" (a_max_concurrent_runs a)) (accounts s)
     else flat_map (λ b, map (λ a, mk_TenantAccess (a_id a) (a_name a) (b_role b) (a_max_concurrent_runs a))
                           (sql_select (λ a, a_id a ==s b_tenant_id b) (accounts s)))
            (sql_select (λ b, b_user_id b ==s userID) (memberships s))).

Definition TenantMembers (tenantID : string) (s : idb) : list MemberSummary :=
  sort_by (λ a b, String.leb (MS_Email a) (MS_Email b))
    (flat_map (λ b, map (λ u, mk_MemberSummary (u_id u) (u_email u) (b_role b) (u_disabled u))
                      (sql_select (λ u, u_id u ==s b_user_id b) (users s)))
       (sql_select (λ b, b_tenant_id b ==s tenantID) (memberships s))).

(** ** API keys *)

Section keys.
Context `{Sha256}.

Definition new_key (d : id_draw) : string := "gsk_" +:+ EncodeToString (dw_random d).

Definition CreateAPIKey (tenantID name role : string) (d : id_draw) (s : idb)
    : result (APIKey * string) * idb :=
  let token := new_key d in
  let row := mk_api_key (dw_id d) tenantID name (sha256 token) role (dw_now d) None in
  if sql_exists (λ p, (p_id p ==s dw_id d) || (p_key_hash p ==s sha256 token)) (api_keys s)
     || negb (role_check role) || negb (sql_exists (λ a, a_id a ==s tenantID) (accounts s))
  then (Err (ErrMsg "create API key"), s)
  else (Ok (key_of row, token), set_api_keys (api_keys s ++ [row]) s).

(** [ORDER BY created_at DESC] *)
Definition ListAPIKeys (tenantID : string) (s : idb) : list APIKey :=
  map key_of (sort_by (λ a b, p_created_at b <=? p_created_at a)
                (sql_select (λ p, p_tenant_id p ==s tenantID) (api_keys s))).

Definition revocable (tenantID id : string) (p : api_key_row) : bool :=
  (p_tenant_id p ==s tenantID) && (p_id p ==s id) && bool_decide (p_revoked_at p = None).
Definition revoke_key (t : time) (p : api_key_row) : api_key_row :=
  mk_api_key (p_id p) (p_tenant_id p) (p_name p) (p_key_hash p) (p_role p) (p_created_at p) (Some t).

Definition RevokeAPIKey (tenantID id : string) (t : time) (s : idb) : result unit * idb :=
  if negb (Nat.eqb (sql_count (revocable tenantID id) (api_keys s)) 1) then (Err ErrNotFound, s)
  else (Ok tt, set_api_keys (sql_update (revocable tenantID id) (revoke_key t) (api_keys s)) s).

Definition AuthenticateAPIKey (raw : string) (s : idb) : result (string * string) :=
  p ← first_row (sql_select (λ p, (p_key_hash p ==s sha256 raw)
                                  && bool_decide (p_revoked_at p = None)) (api_keys s));
  Ok (p_tenant_id p, p_role p).
End keys.
End Identity.

(** * Properties of users, tenants, memberships and keys

    The tables of [Identity] under any sequence of the transactions of the control
    plane. *)

Module IdentityProofs.
Import Base64 JobStore Sessions Identity.

(** ** Transactions *)

Inductive idop :=
| OpCreateUser (email hash : string) (admin : bool)
| OpSetUserDisabled (userID : string) (disabled : bool)
| OpCreateTenant (name : string)
| OpAddMembership (tenantID userID role : string)
| OpDeleteMembership (tenantID userID : string)
| OpCreateAPIKey (tenantID name role : string)
| OpRevokeAPIKey (tenantID keyID : string)
| OpSessions (f : sessions → sessions).

Section ops.
Context `{PgLower} `{Sha256}.

Definition idexec (o : idop) (d : id_draw) (i : idb) : idb :=
  match o with
  | OpCreateUser email hash admin => (CreateUser email hash admin d i).2
  | OpSetUserDisabled userID disabled => SetUserDisabled userID disabled i
  | OpCreateTenant name => (CreateTenant name d i).2
  | OpAddMembership tenantID userID role => (AddMembership tenantID userID role i).2
  | OpDeleteMembership tenantID userID => (DeleteMembership tenantID userID i).2
  | OpCreateAPIKey tenantID name role => (CreateAPIKey tenantID name role d i).2
  | OpRevokeAPIKey tenantID keyID => (RevokeAPIKey tenantID keyID (dw_now d) i).2
  | OpSessions f => set_sessions (f (refresh_sessions i)) i
  end.

Definition istep (i i' : idb) : Prop := ∃ o d, i' = idexec o d i.

(** ** Well-formed tables *)

(** Keys are unique, references have their row, roles are known, and an e-mail
    address is stored in lower case. *)
Record well_formed (i : idb) : Prop := {
  wf_users : NoDup (map u_id (users i));
  wf_emails : NoDup (map u_email (users i));
  wf_lower : Forall (λ u, lower (u_email u) = u_email u) (users i);
  wf_accounts : NoDup (map a_id (accounts i));
  wf_members : NoDup (map (λ b, (b_tenant_id b, b_user_id b)) (memberships i));
  wf_member_refs : Forall (λ b, b_tenant_id b ∈ map a_id (accounts i) ∧ b_user_id b ∈ map u_id (users i)
                                ∧ role_check (b_role b) = true) (memberships i);
  wf_keys : NoDup (map p_id (api_keys i));
  wf_hashes : NoDup (map p_key_hash (api_keys i));
  wf_key_refs : Forall (λ p, p_tenant_id p ∈ map a_id (accounts i) ∧ role_check (p_role p) = true)
                  (api_keys i);
}.

Definition empty_idb : idb := mk_idb [] [] [] [] [].

Lemma NoDup_snoc {A B} (f : A → B) l x :
  NoDup (map f l) → (∀ y, y ∈ l → f y ≠ f x) → NoDup (map f (l ++ [x])).
Proof.
  intros Hn Hx. rewrite map_app. apply NoDup_app. split_and!; [done| |apply NoDup_singleton].
  intros y (z & -> & Hz)%list_elem_of_fmap Hy%list_elem_of_singleton. by apply (Hx z).
Qed.
Lemma no_row {A} (p : A → bool) l : sql_exists p l = false → ∀ x, x ∈ l → p x = false.
Proof.
  intros Hp x Hx. destruct (p x) eqn:E; [|done].
  assert (sql_exists p l = true); [|congruence]. apply sql_exists_true. by exists x.
Qed.
Lemma map_update {A B} (f : A → B) (p : A → bool) g l :
  (∀ x, f (g x) = f x) → map f (sql_update p g l) = map f l.
Proof. intros Hg. unfold sql_update. rewrite map_map. apply map_ext. intros x. by destruct (p x). Qed.
Lemma Forall_update {A} (P : A → Prop) (p : A → bool) g l :
  (∀ x, P x → p x = true → P (g x)) → Forall P l → Forall P (sql_update p g l).
Proof.
  intros Hg Hl. unfold sql_update. apply Forall_fmap. eapply Forall_impl; [exact Hl|].
  intros x Hx. cbn. destruct (p x) eqn:E; [by apply Hg|done].
Qed.

Lemma wf_create_user `{!PgLowerLaws} email hash admin d i :
  well_formed i → well_formed (CreateUser email hash admin d i).2.
Proof.
  intros []. unfold CreateUser. destruct (sql_exists _ _) eqn:E; [done|].
  assert (Hno : ∀ u, u ∈ users i → u_id u ≠ dw_id d ∧ u_email u ≠ lower email).
  { intros u Hu. apply (no_row _ _ E) in Hu. apply orb_false_iff in Hu as [Ha Hb].
    split; by apply String.eqb_neq. }
  split; cbn; try done.
  - apply NoDup_snoc; [done|]. naive_solver.
  - apply NoDup_snoc; [done|]. naive_solver.
  - apply Forall_app_2; [done|]. apply Forall_singleton. apply lower_lower.
  - eapply Forall_impl; [exact wf_member_refs0|]. intros b (Ht & Hu & Hr). split_and!; [done| |done].
    rewrite map_app. apply elem_of_app. by left.
Qed.

Lemma wf_disable userID disabled i : well_formed i → well_formed (SetUserDisabled userID disabled i).
Proof.
  intros []. unfold SetUserDisabled.
  split; cbn; rewrite ?map_update by done; try done. by apply Forall_update.
Qed.

Lemma wf_create_tenant name d i : well_formed i → well_formed (CreateTenant name d i).2.
Proof.
  intros []. unfold CreateTenant. destruct (sql_exists _ _) eqn:E; [done|].
  split; cbn; try done.
  - apply NoDup_snoc; [done|]. intros a Ha. apply (no_row _ _ E) in Ha. by apply String.eqb_neq.
  - eapply Forall_impl; [exact wf_member_refs0|]. intros b (Ht & Hu & Hr). split_and!; [|done..].
    rewrite map_app. apply elem_of_app. by left.
  - eapply Forall_impl; [exact wf_key_refs0|]. intros b (Ht & Hr). split; [|done].
    rewrite map_app. apply elem_of_app. by left.
Qed.

Lemma row_exists {A} (key : A → string) k l : sql_exists (λ x, key x ==s k) l = true → k ∈ map key l.
Proof.
  intros (x & Hx & <-%String.eqb_eq)%sql_exists_true. by apply list_elem_of_In, in_map, list_elem_of_In.
Qed.

Lemma wf_add_member tenantID userID role i :
  well_formed i → well_formed (AddMembership tenantID userID role i).2.
Proof.
  intros []. unfold AddMembership.
  destruct (role_check role) eqn:Er; [|done]. destruct (sql_exists _ (accounts i)) eqn:Ea; [|done].
  destruct (sql_exists _ (users i)) eqn:Eu; [|done]. cbn [negb andb].
  apply row_exists in Ea, Eu. destruct (sql_exists (is_member _ _) _) eqn:Em; split; cbn; try done.
  - by rewrite map_update by done.
  - apply Forall_update; [|done]. cbn. naive_solver.
  - apply NoDup_snoc; [done|]. intros b Hb. apply (no_row _ _ Em) in Hb. unfold is_member in Hb.
    cbn. intros [= Ht Hu]. by rewrite Ht, Hu, !String.eqb_refl in Hb.
  - apply Forall_app_2; [done|]. by apply Forall_singleton.
Qed.

Lemma wf_delete_member tenantID userID i :
  well_formed i → well_formed (DeleteMembership tenantID userID i).2.
Proof.
  intros []. unfold DeleteMembership. destruct (negb _); [done|]. cbv zeta.
  destruct (sql_select _ _); [done|]. destruct (_ && _); [done|]. split; cbn; try done.
  - by apply NoDup_map_filter.
  - rewrite Forall_forall in *. intros b [_ Hb]%elem_of_sql_select. by apply wf_member_refs0.
Qed.

Lemma wf_create_key tenantID name role d i :
  well_formed i → well_formed (CreateAPIKey tenantID name role d i).2.
Proof.
  intros []. unfold CreateAPIKey. cbv zeta.
  destruct (sql_exists _ (api_keys i)) eqn:E; [done|]. destruct (role_check role) eqn:Er; [|done].
  destruct (sql_exists _ (accounts i)) eqn:Ea; [|done]. cbn [negb orb snd]. apply row_exists in Ea.
  assert (Hno : ∀ p, p ∈ api_keys i → p_id p ≠ dw_id d ∧ p_key_hash p ≠ sha256 (new_key d)).
  { intros p Hp. apply (no_row _ _ E) in Hp. apply orb_false_iff in Hp as [Ha Hb].
    split; by apply String.eqb_neq. }
  split; cbn; try done.
  - apply NoDup_snoc; [done|]. naive_solver.
  - apply NoDup_snoc; [done|]. naive_solver.
  - apply Forall_app_2; [done|]. by apply Forall_singleton.
Qed.

Lemma wf_revoke_key tenantID keyID t i :
  well_formed i → well_formed (RevokeAPIKey tenantID keyID t i).2.
Proof.
  intros []. unfold RevokeAPIKey. destruct (negb _); [done|].
  split; cbn; rewrite ?map_update by done; try done. by apply Forall_update.
Qed.

Lemma istep_wf `{!PgLowerLaws} i i' : well_formed i → istep i i' → well_formed i'.
Proof.
  intros Hi (o & d & ->). destruct o; cbn [idexec].
  - by apply wf_create_user.
  - by apply wf_disable.
  - by apply wf_create_tenant.
  - by apply wf_add_member.
  - by apply wf_delete_member.
  - by apply wf_create_key.
  - by apply wf_revoke_key.
  - by destruct Hi.
Qed.

(** From empty tables on the constraints of the schema hold: identifiers, e-mail
    addresses, memberships and digests of keys are unique, memberships and keys
    refer to rows that exist, roles are known, and e-mail addresses are in lower
    case. *)
Theorem identity_tables_are_well_formed `{!PgLowerLaws} i :
  rtc istep empty_idb i → well_formed i.
Proof.
  intros Hr. assert (well_formed empty_idb) as He by (split; cbn; constructor).
  induction Hr as [|i i1 i2 Hs _ IH]; [done|]. by eapply IH, istep_wf.
Qed.

(** ** The life of an API key *)

(** The row with a key is what a condition that implies the key selects. *)
Lemma select_only {A B} (key : A → B) (p : A → bool) l x :
  NoDup (map key l) → x ∈ l → p x = true → (∀ y, p y = true → key y = key x) → sql_select p l = [x].
Proof.
  intros Hn Hx Hp Hk. assert (NoDup (sql_select p l)) as Hs by (by eapply NoDup_fmap_1, NoDup_map_filter).
  assert (x ∈ sql_select p l) as Hin by (by apply elem_of_sql_select).
  assert (∀ y, y ∈ sql_select p l → y = x) as Ho.
  { intros y [Hy Hyl]%elem_of_sql_select. eapply NoDup_key_inj; eauto. }
  destruct (sql_select p l) as [|y [|z rest]]; [by apply elem_of_nil in Hin|by rewrite (Ho y) by left|].
  apply NoDup_cons in Hs as [Hy _]. destruct Hy. rewrite (Ho y) by left.
  rewrite <- (Ho z) by (by right; left). by left.
Qed.

(** A transaction other than the revocation of a key. *)
Definition spares (keyID : string) (o : idop) : Prop :=
  match o with OpRevokeAPIKey _ k => k ≠ keyID | _ => True end.
Definition spared (keyID : string) (i i' : idb) : Prop := ∃ o d, spares keyID o ∧ i' = idexec o d i.

Lemma keys_unless o d i :
  match o with
  | OpCreateAPIKey _ _ _ | OpRevokeAPIKey _ _ => True
  | _ => api_keys (idexec o d i) = api_keys i
  end.
Proof.
  destruct o; cbn [idexec]; try done.
  - unfold CreateUser. by destruct (sql_exists _ _).
  - unfold CreateTenant. by destruct (sql_exists _ _).
  - unfold AddMembership. destruct (negb _); [done|]. by destruct (sql_exists _ _).
  - unfold DeleteMembership. destruct (negb _); [done|]. cbv zeta. destruct (sql_select _ _); [done|].
    by destruct (_ && _).
Qed.

Lemma spared_keeps_key keyID i i' k :
  spared keyID i i' → p_id k = keyID → k ∈ api_keys i → k ∈ api_keys i'.
Proof.
  intros (o & d & Ho & ->) Hid Hk. pose proof (keys_unless o d i) as Hsame.
  destruct o; cbn [idexec] in *; try by rewrite Hsame.
  - unfold CreateAPIKey. cbv zeta. destruct (_ || _); [done|]. cbn. apply elem_of_app. by left.
  - unfold RevokeAPIKey. destruct (negb _); [done|]. cbn. unfold sql_update.
    apply list_elem_of_fmap. exists k. split; [|done]. unfold revocable.
    destruct (String.eqb_spec (p_id k) keyID0); [cbn in Ho; congruence|]. by rewrite andb_false_r.
Qed.

(** No key with the digest is in force, and the digest is taken. *)
Definition dead (hash : string) (i : idb) : Prop :=
  hash ∈ map p_key_hash (api_keys i) ∧
  Forall (λ p, p_key_hash p = hash → p_revoked_at p ≠ None) (api_keys i).

Lemma istep_dead hash i i' : istep i i' → dead hash i → dead hash i'.
Proof.
  intros (o & d & ->) [Hin Hall]. pose proof (keys_unless o d i) as Hsame. unfold dead.
  destruct o; cbn [idexec] in *; try by rewrite Hsame.
  - unfold CreateAPIKey. cbv zeta. destruct (sql_exists _ (api_keys i)) eqn:E; [done|].
    destruct (_ || _); [done|]. cbn. split; [rewrite map_app; apply elem_of_app; by left|].
    apply Forall_app_2; [done|]. apply Forall_singleton. cbn. intros Hh.
    apply list_elem_of_fmap in Hin as (p & Hp & Hin). apply (no_row _ _ E) in Hin.
    apply orb_false_iff in Hin as [_ Hin%String.eqb_neq]. congruence.
  - unfold RevokeAPIKey. destruct (negb _); [done|]. cbn. rewrite map_update by done. split; [done|].
    by apply Forall_update.
Qed.

Lemma dead_refused raw i : dead (sha256 raw) i → AuthenticateAPIKey raw i = Err ErrNotFound.
Proof.
  intros [_ Hall]. unfold AuthenticateAPIKey.
  destruct (sql_select _ _) as [|p rest] eqn:E; [done|]. exfalso.
  assert (p ∈ sql_select (λ p, (p_key_hash p ==s sha256 raw) && bool_decide (p_revoked_at p = None)) (api_keys i))
    as Hp by (rewrite E; by left).
  apply elem_of_sql_select in Hp as [Hp Hin]. apply andb_true_iff in Hp as [Hh%String.eqb_eq Hr%bool_decide_eq_true].
  rewrite Forall_forall in Hall. by apply (Hall p Hin).
Qed.

(** C6: the life of an API key, in tables that satisfy the constraints of the schema.
    The token that a key is created with authenticates as the tenant and the role
    of the key, whatever other transactions on users, tenants, memberships and keys
    follow, until the key is revoked; the revocation then succeeds, and from there
    on the token is refused for ever. *)
Theorem api_key_lives_until_revoked `{!PgLowerLaws} tenantID name role d i0 key token i1 i2 t :
  well_formed i0 → CreateAPIKey tenantID name role d i0 = (Ok (key, token), i1) →
  rtc (spared (AK_ID key)) i1 i2 →
  AuthenticateAPIKey token i2 = Ok (tenantID, role) ∧
  ∃ i3, RevokeAPIKey tenantID (AK_ID key) t i2 = (Ok tt, i3) ∧
    ∀ i4, rtc istep i3 i4 → AuthenticateAPIKey token i4 = Err ErrNotFound.
Proof.
  intros Hwf Hc Hr. pose proof (wf_create_key tenantID name role d i0 Hwf) as Hwf1. rewrite Hc in Hwf1.
  set (k := mk_api_key (dw_id d) tenantID name (sha256 (new_key d)) role (dw_now d) None).
  assert (key = key_of k ∧ token = new_key d ∧ k ∈ api_keys i1) as (-> & -> & Hk).
  { unfold CreateAPIKey in Hc. cbv zeta in Hc. destruct (_ || _); [done|]. injection Hc as <- <- <-.
    split_and!; [done..|]. cbn. apply elem_of_app. right. by left. }
  clear Hc Hwf. assert (well_formed i2 ∧ k ∈ api_keys i2) as [Hwf2 Hk2].
  { clearbody k. revert Hwf1 Hk. induction Hr as [|i i' i'' Hs _ IH]; [done|]. intros Hwf1 Hk. apply IH.
    - destruct Hs as (o & d' & _ & ->). eapply istep_wf; [exact Hwf1|]. by exists o, d'.
    - by eapply spared_keeps_key. }
  destruct Hwf2. split.
  { unfold AuthenticateAPIKey. rewrite (select_only p_key_hash _ _ k); try done.
    - cbn. by rewrite String.eqb_refl.
    - intros y [Hy%String.eqb_eq _]%andb_true_iff. by rewrite Hy. }
  assert (sql_select (revocable tenantID (AK_ID (key_of k))) (api_keys i2) = [k]) as Hone.
  { apply (select_only p_id); try done.
    - unfold revocable. cbn. by rewrite !String.eqb_refl.
    - unfold revocable. intros y Hy. cbn in Hy. do 2 apply andb_true_iff in Hy as [Hy ?]. by apply String.eqb_eq. }
  eexists. split; [unfold RevokeAPIKey, sql_count; by rewrite Hone|]. intros i4 H4.
  apply dead_refused.
  match type of H4 with rtc _ ?i3 _ => assert (dead (sha256 (new_key d)) i3) as Hdead end.
  { split; cbn.
    - rewrite map_update by done. by apply (list_elem_of_fmap_2 p_key_hash _ k).
    - apply Forall_fmap, Forall_forall. intros p Hp. cbn. destruct (revocable _ _ p) eqn:E; [done|].
      intros Hh. assert (p = k) as ->; [by eapply NoDup_key_inj|].
      unfold revocable in E. cbn in E. by rewrite !String.eqb_refl in E. }
  clear -H4 Hdead. induction H4 as [|i i' i'' Hs _ IH]; [done|]. by eapply IH, istep_dead.
Qed.

(** ** Owners *)

Definition has_owner (tenantID : string) (i : idb) : Prop :=
  ∃ b, b ∈ memberships i ∧ is_owner tenantID b = true.
Definition member_key (b : membership_row) : string * string := (b_tenant_id b, b_user_id b).

Lemma is_member_key tenantID userID b : is_member tenantID userID b = true ↔ member_key b = (tenantID, userID).
Proof.
  unfold is_member, member_key. rewrite andb_true_iff, !String.eqb_eq. naive_solver.
Qed.

(** With two owners there is one besides any member. *)
Lemma another_owner tenantID l k :
  NoDup (map member_key l) → (1 < sql_count (is_owner tenantID) l)%nat →
  ∃ b, b ∈ l ∧ is_owner tenantID b = true ∧ member_key b ≠ k.
Proof.
  intros Hn Hc. unfold sql_count in Hc.
  assert (NoDup (map member_key (sql_select (is_owner tenantID) l))) as Hs by (by apply NoDup_map_filter).
  destruct (sql_select (is_owner tenantID) l) as [|x [|y rest]] eqn:E; cbn in *; [lia..|].
  assert (∀ z, z = x ∨ z = y → z ∈ l ∧ is_owner tenantID z = true) as Hz.
  { intros z Hz. assert (z ∈ sql_select (is_owner tenantID) l) as Hin.
    { rewrite E. destruct Hz as [->| ->]; [by left|by right; left]. }
    apply elem_of_sql_select in Hin as [? ?]. done. }
  apply NoDup_cons in Hs as [Hx _]. destruct (decide (member_key x = k)) as [Hk|Hk].
  - exists y. destruct (Hz y) as [? ?]; [by right|]. split_and!; [done..|]. intros Hy. apply Hx.
    rewrite Hk, <- Hy. by left.
  - exists x. destruct (Hz x) as [? ?]; [by left|]. done.
Qed.

Lemma deletion_keeps_owner tenantID userID i tenant :
  well_formed i → has_owner tenant i → has_owner tenant (DeleteMembership tenantID userID i).2.
Proof.
  intros [] (o & Ho & Hot). unfold DeleteMembership. destruct (negb _); [by exists o|]. cbv zeta.
  destruct (sql_select (is_member tenantID userID) (memberships i)) as [|b rest] eqn:E; [by exists o|].
  assert (b ∈ memberships i ∧ is_member tenantID userID b = true) as [Hb Hbm].
  { assert (b ∈ sql_select (is_member tenantID userID) (memberships i)) as Hin by (rewrite E; by left).
    by apply elem_of_sql_select in Hin as [? ?]. }
  destruct (_ && _) eqn:Eo; [by exists o|]. cbn.
  assert (∃ b', b' ∈ memberships i ∧ is_owner tenant b' = true ∧ member_key b' ≠ (tenantID, userID))
    as (b' & Hb' & Hot' & Hk).
  { destruct (decide (member_key o = (tenantID, userID))) as [Hk|Hk]; [|by exists o].
    assert (o = b) as ->.
    { eapply (NoDup_key_inj member_key); [exact wf_members0|done..|]. apply is_member_key in Hbm. congruence. }
    unfold is_owner in Hot. apply andb_true_iff in Hot as [Ht%String.eqb_eq Hr].
    rewrite Hr in Eo. cbn in Eo. apply Nat.leb_gt in Eo. apply is_member_key in Hbm.
    injection Hbm as Hbt _. rewrite Ht in Hbt. subst. by apply another_owner. }
  exists b'. split; [|done]. cbn. apply elem_of_sql_select. split; [|done].
  apply negb_true_iff, not_true_iff_false. by rewrite is_member_key.
Qed.

(** Removing a member never leaves a tenant without an owner, while giving
    another role to its only owner succeeds and does. *)
Theorem last_owner_is_protected_from_removal_only :
  (∀ tenantID userID i tenant,
     well_formed i → has_owner tenant i → has_owner tenant (DeleteMembership tenantID userID i).2) ∧
  (∀ tenantID userID role i,
     well_formed i → (∀ b, b ∈ memberships i → is_owner tenantID b = true → b_user_id b = userID) →
     has_owner tenantID i → role_check role = true → role ≠ "owner" →
     (AddMembership tenantID userID role i).1 = Ok tt ∧
     ¬ has_owner tenantID (AddMembership tenantID userID role i).2).
Proof.
  split; [apply deletion_keeps_owner|]. intros tenantID userID role i [] Honly (o & Ho & Hot) Hrole Hne.
  pose proof (Honly o Ho Hot) as Hou. unfold is_owner in Hot.
  apply andb_true_iff in Hot as [Hot%String.eqb_eq Hor].
  rewrite Forall_forall in wf_member_refs0. destruct (wf_member_refs0 o Ho) as (Ha & Hu & _).
  assert (Hex : ∀ {A} (key : A → string) k l, k ∈ map key l → sql_exists (λ x, key x ==s k) l = true).
  { intros A key k l (x & -> & Hx)%list_elem_of_fmap. apply sql_exists_true. exists x. split; [done|].
    apply String.eqb_refl. }
  unfold AddMembership. rewrite Hot in Ha. rewrite Hou in Hu.
  rewrite Hrole, (Hex _ a_id), (Hex _ u_id) by done. cbn [negb andb].
  assert (sql_exists (is_member tenantID userID) (memberships i) = true) as ->.
  { apply sql_exists_true. exists o. split; [done|]. by apply is_member_key; unfold member_key; rewrite Hot, Hou. }
  split; [done|]. intros (b & Hb & Hbo). cbn in Hb. unfold sql_update in Hb.
  apply list_elem_of_fmap in Hb as (b0 & -> & Hb0). destruct (is_member tenantID userID b0) eqn:Em.
  - unfold is_owner in Hbo. cbn in Hbo. apply andb_true_iff in Hbo as [_ Hr%String.eqb_eq]. done.
  - pose proof (Honly b0 Hb0 Hbo) as Hu0. unfold is_owner in Hbo.
    apply andb_true_iff in Hbo as [Ht0%String.eqb_eq _]. apply not_true_iff_false in Em. apply Em.
    apply is_member_key. by unfold member_key; rewrite Ht0, Hu0.
Qed.
End ops.
End IdentityProofs.
