(* ===== verification/Bootstrap.v ===== *)
(** * The first tenant and its administrator

    [cmd/bootstrap/main.go]: one transaction makes a tenant, an API key, a platform
    administrator and their membership, unless the administrator is there already.
    After it the key and the password give access, and running it again changes
    nothing. *)
From Stdlib Require Import ZArith Lia Ascii String.
From stdpp Require Import base list strings.
From S2P Require Import Prelude GoStrings Base64 Tables JobStore Engine Sessions Auth Identity.

Module Bootstrap.
Import Base64 JobStore Sessions Auth Identity IdentityProofs.

(** What is printed, or the message before the exit: [None] for that of the
    database. *)
Inductive outcome :=
| AlreadyInitialized (tenantID userID : string)
| Created (tenantID userID key : string)
| Fatal (message : option string).

(** The environment variables, and what one run draws: 32 random bytes, the salt of
    the password, the identifiers of the rows, the time of the transaction. *)
Record variables := mk_variables {
  DATABASE_URL : string; TENANT_NAME : string; ADMIN_EMAIL : string; ADMIN_PASSWORD : string;
}.
Record draws := mk_draws {
  dr_random : result string; dr_salt : string; dr_tenant : string; dr_key : string; dr_user : string; dr_now : time;
}.

Section bootstrap.
Context `{PgLower} `{Sha256} `{Argon2}.

(** [SELECT .. FROM users u JOIN tenant_memberships tm ON tm.user_id=u.id
    WHERE lower(u.email)=lower($1) ORDER BY tm.created_at LIMIT 1]; memberships are in
    the order of their creation. *)
Definition existing (email : string) (s : idb) : option (string * string) :=
  head (flat_map (λ b, map (λ u, (u_id u, b_tenant_id b))
                         (sql_select (λ u, (u_id u ==s b_user_id b) && (lower (u_email u) ==s lower email)) (users s)))
          (memberships s)).

(** [INSERT INTO tenant_memberships(tenant_id,user_id,role)] *)
Definition insert_membership (tenantID userID role : string) (s : idb) : result unit * idb :=
  if sql_exists (is_member tenantID userID) (memberships s) then (Err ErrConflict, s)
  else AddMembership tenantID userID role s.

(** The transaction: the identifiers and the rows, or the message. *)
Definition initialize (v : variables) (raw : string) (d : draws) (s : idb)
    : ((string * string) + option string) * idb :=
  let draw id := mk_id_draw id raw (dr_now d) in
  match CreateTenant (TENANT_NAME v) (draw (dr_tenant d)) s with
  | (Err _, _) => (inr None, s)
  | (Ok tenantID, s1) =>
      match CreateAPIKey tenantID "bootstrap" "owner" (draw (dr_key d)) s1 with
      | (Err _, _) => (inr None, s)
      | (Ok _, s2) =>
          match HashPassword (ADMIN_PASSWORD v) (dr_salt d) with
          | Err err => (inr (Some (error_text err)), s)
          | Ok passwordHash =>
              match CreateUser (ADMIN_EMAIL v) passwordHash true (draw (dr_user d)) s2 with
              | (Err _, _) => (inr None, s)
              | (Ok u, s3) =>
                  match insert_membership tenantID (U_ID u) "owner" s3 with
                  | (Err _, _) => (inr None, s)
                  | (Ok _, s4) => (inl (tenantID, U_ID u), s4)
                  end
              end
          end
      end
  end.

(** [Run]; [connected] is the answer of [pgx.Connect], [committed] that of the
    commit. *)
Definition Run (v : variables) (connected committed : bool) (d : draws) (s : idb) : outcome * idb :=
  if (DATABASE_URL v ==s "") || (TENANT_NAME v ==s "") || (ADMIN_EMAIL v ==s "") || (ADMIN_PASSWORD v ==s "")
  then (Fatal (Some "DATABASE_URL, TENANT_NAME, ADMIN_EMAIL and ADMIN_PASSWORD are required"), s)
  else
    match dr_random d with
    | Err err => (Fatal (Some (error_text err)), s)
    | Ok raw =>
        if negb connected then (Fatal None, s)
        else
          match existing (ADMIN_EMAIL v) s with
          | Some (userID, tenantID) => (AlreadyInitialized tenantID userID, s)
          | None =>
              match initialize v raw d s with
              | (inr message, _) => (Fatal message, s)
              | (inl (tenantID, userID), s') =>
                  if committed then (Created tenantID userID ("gsk_" +:+ EncodeToString raw), s') else (Fatal None, s)
              end
          end
    end.

(** ** Proofs *)

(** What the transaction adds. *)
Lemma initialize_rows v raw d s t u s' :
  initialize v raw d s = (inl (t, u), s') →
  ∃ hash, HashPassword (ADMIN_PASSWORD v) (dr_salt d) = Ok hash ∧ t = dr_tenant d ∧ u = dr_user d ∧
    s' = mk_idb (users s ++ [mk_user u (lower (ADMIN_EMAIL v)) hash true false (dr_now d)])
           (accounts s ++ [mk_account t (TENANT_NAME v) 100 (dr_now d)])
           (memberships s ++ [mk_membership t u "owner"])
           (api_keys s ++ [mk_api_key (dr_key d) t "bootstrap" (sha256 ("gsk_" +:+ EncodeToString raw)) "owner" (dr_now d) None])
           (refresh_sessions s).
Proof.
  unfold initialize, CreateTenant. destruct (sql_exists _ (accounts s)); [done|]. unfold CreateAPIKey.
  destruct (_ || _ || _); [done|]. destruct (HashPassword _ _) as [hash|]; [|done]. unfold CreateUser.
  destruct (sql_exists _ _); [done|]. unfold insert_membership. destruct (sql_exists _ _) eqn:Em; [done|]. unfold AddMembership.
  destruct (negb _); [done|]. rewrite Em. intros [= <- <- <-]. exists hash. done.
Qed.
Lemma initialize_wf `{!PgLowerLaws} v raw d s t u s' :
  well_formed s → initialize v raw d s = (inl (t, u), s') → well_formed s'.
Proof.
  intros Hw. unfold initialize. pose proof (wf_create_tenant (TENANT_NAME v) (mk_id_draw (dr_tenant d) raw (dr_now d)) s Hw) as Hw1.
  destruct (CreateTenant _ _ s) as [[tenantID|] s1]; [|done].
  pose proof (wf_create_key tenantID "bootstrap" "owner" (mk_id_draw (dr_key d) raw (dr_now d)) s1 Hw1) as Hw2.
  destruct (CreateAPIKey _ _ _ _ s1) as [[key|] s2]; [|done]. destruct (HashPassword _ _) as [hash|]; [|done].
  pose proof (wf_create_user (ADMIN_EMAIL v) hash true (mk_id_draw (dr_user d) raw (dr_now d)) s2 Hw2) as Hw3.
  destruct (CreateUser _ _ _ _ s2) as [[user|] s3]; [|done]. unfold insert_membership.
  pose proof (wf_add_member tenantID (U_ID user) "owner" s3 Hw3) as Hw4. destruct (sql_exists _ _); [done|].
  destruct (AddMembership _ _ _ s3) as [[[]|] s4]; [|done]. by intros [= _ _ <-].
Qed.

(** Everything the transaction makes is new. *)
Record fresh (v : variables) (raw : string) (d : draws) (s : idb) : Prop := {
  fr_tenant : dr_tenant d ∉ map a_id (accounts s);
  fr_key : dr_key d ∉ map p_id (api_keys s);
  fr_hash : sha256 ("gsk_" +:+ EncodeToString raw) ∉ map p_key_hash (api_keys s);
  fr_user : dr_user d ∉ map u_id (users s);
  fr_email : lower (ADMIN_EMAIL v) ∉ map u_email (users s);
}.
Lemma unlike {A} (key : A → string) k l x : k ∉ map key l → x ∈ l → (key x ==s k) = false.
Proof.
  intros Hn Hx. apply String.eqb_neq. intros <-. apply Hn. apply list_elem_of_In, in_map, list_elem_of_In. done.
Qed.

Lemma initialize_succeeds v raw d s hash :
  well_formed s → fresh v raw d s → HashPassword (ADMIN_PASSWORD v) (dr_salt d) = Ok hash →
  ∃ s', initialize v raw d s = (inl (dr_tenant d, dr_user d), s').
Proof.
  intros Hw [Ht Hk Hh Hu He] Hp. unfold initialize, CreateTenant. cbn [dw_id].
  rewrite (proj2 (sql_exists_false _ (accounts s))) by (intros x Hx; by eapply (unlike a_id)).
  unfold CreateAPIKey, new_key. cbn [dw_id dw_random accounts api_keys set_accounts].
  rewrite (proj2 (sql_exists_false _ (api_keys s))) by (intros x Hx; rewrite (unlike p_id _ _ _ Hk Hx); by eapply (unlike p_key_hash)).
  assert (Hin : ∀ l row, a_id row = dr_tenant d → sql_exists (λ a, a_id a ==s dr_tenant d) (l ++ [row]) = true).
  { intros l row <-. apply sql_exists_true. exists row. split; [apply elem_of_app; right; by left|apply String.eqb_refl]. }
  rewrite Hin by done. cbn [orb negb role_check]. change (role_check "owner") with true. cbn [negb orb]. rewrite Hp.
  unfold CreateUser. cbn [dw_id users set_api_keys set_accounts].
  rewrite (proj2 (sql_exists_false _ (users s))) by (intros x Hx; rewrite (unlike u_id _ _ _ Hu Hx); by eapply (unlike u_email)).
  unfold insert_membership, AddMembership. cbn [memberships accounts users set_users set_api_keys set_accounts U_ID].
  rewrite (proj2 (sql_exists_false _ (memberships s))).
  2:{ intros b Hb. apply (proj1 (Forall_forall _ _) (wf_member_refs s Hw)) in Hb as (_ & Hbu & _). unfold is_member.
      destruct (String.eqb_spec (b_user_id b) (dr_user d)) as [E|]; [|by rewrite andb_false_r]. by rewrite E in Hbu. }
  rewrite Hin by done. change (role_check "owner") with true.
  assert (Hu' : sql_exists (λ u, u_id u ==s dr_user d) (users s ++ [mk_user (dr_user d) (lower (ADMIN_EMAIL v)) hash true false (dr_now d)]) = true).
  { apply sql_exists_true. eexists. split; [apply elem_of_app; right; by left|apply String.eqb_refl]. }
  cbn [dw_id dw_now]. rewrite Hu'. cbn [andb negb]. by eexists.
Qed.

(** The administrator is found afterwards. *)
Lemma flat_map_nil {A B} (f : A → list B) l : (∀ x, x ∈ l → f x = []) → flat_map f l = [].
Proof.
  induction l as [|x l IH]; cbn; [done|]. intros Ha. rewrite Ha by left. apply IH. intros y Hy. apply Ha. by right.
Qed.
Lemma flat_map_nil_inv {A B} (f : A → list B) l x : flat_map f l = [] → x ∈ l → f x = [].
Proof.
  induction l as [|y l IH]; cbn; [intros _ Hx; by apply elem_of_nil in Hx|].
  intros [Hy Hl]%app_eq_nil [->|Hx]%elem_of_cons; auto.
Qed.
Lemma existing_after v raw d s t u s' `{!PgLowerLaws} :
  well_formed s → existing (ADMIN_EMAIL v) s = None → initialize v raw d s = (inl (t, u), s') → well_formed s' →
  existing (ADMIN_EMAIL v) s' = Some (u, t).
Proof.
  intros Hw Hno Hi Hw'. apply initialize_rows in Hi as (hash & _ & -> & -> & ->).
  pose proof (wf_users _ Hw') as Hids. cbn [users] in Hids. rewrite map_app in Hids. cbn [map u_id] in Hids.
  apply NoDup_app in Hids as (_ & Hnew & _).
  unfold existing in *. cbn [users memberships]. rewrite flat_map_app.
  set (row := mk_user _ _ _ _ _ _) in *. apply head_None in Hno.
  rewrite flat_map_nil.
  - cbn [flat_map app b_user_id b_tenant_id]. rewrite sql_select_app.
    rewrite (sql_select_none _ (users s)).
    + cbn [app]. assert (Hr : sql_select (λ u, (u_id u ==s dr_user d) && (lower (u_email u) ==s lower (ADMIN_EMAIL v))) [row] = [row]).
      { unfold sql_select. cbn [List.filter]. cbn [row u_id u_email]. by rewrite lower_lower, !String.eqb_refl. }
      rewrite Hr. done.
    + intros x Hx. destruct (String.eqb_spec (u_id x) (dr_user d)) as [E|]; [|done]. exfalso.
      apply (Hnew (u_id x)); [apply list_elem_of_In, in_map; by apply list_elem_of_In|rewrite E; by left].
  - intros b Hb. rewrite sql_select_app. pose proof (flat_map_nil_inv _ _ b Hno Hb) as Hold. apply map_eq_nil in Hold. rewrite Hold.
    cbn [app]. rewrite sql_select_none; [done|]. intros x [->|Hx]%elem_of_cons; [|by apply elem_of_nil in Hx]. cbn [row u_id].
    destruct (String.eqb_spec (dr_user d) (b_user_id b)) as [E|]; [|done]. exfalso.
    apply (proj1 (Forall_forall _ _) (wf_member_refs s Hw)) in Hb as (_ & Hbu & _).
    apply (Hnew (b_user_id b) Hbu). rewrite E. by left.
Qed.

(** A created administrator has access. *)
Definition has_access (v : variables) (t u key : string) (s : idb) : Prop :=
  AuthenticateAPIKey key s = Ok (t, "owner") ∧ GetMembershipRole t u s = Ok "owner" ∧
  ∃ user, GetUserByEmail (ADMIN_EMAIL v) s = Ok user ∧ U_ID user = u ∧ U_PlatformAdmin user = true ∧
          U_Disabled user = false ∧ VerifyPassword (U_PasswordHash user) (ADMIN_PASSWORD v) = true.

Lemma first_of {A B} (key : A → B) (p : A → bool) l x :
  NoDup (map key (l ++ [x])) → p x = true → (∀ y, p y = true → key y = key x) →
  first_row (sql_select p (l ++ [x])) = Ok x.
Proof.
  intros Hn Hp Hk. rewrite (select_only key p (l ++ [x]) x); [done|done| |done|done]. apply elem_of_app. right. by left.
Qed.

Lemma initialize_gives_access `{!PgLowerLaws} `{!Argon2Laws} v raw d s t u s' :
  len (dr_salt d) = 16 → well_formed s' → initialize v raw d s = (inl (t, u), s') →
  has_access v t u ("gsk_" +:+ EncodeToString raw) s'.
Proof.
  intros Hsalt Hw' Hi. apply initialize_rows in Hi as (hash & Hh & -> & -> & ->). split_and!.
  - unfold AuthenticateAPIKey. cbn [api_keys]. rewrite (first_of p_key_hash); [done|apply (wf_hashes _ Hw')| |].
    + cbn. by rewrite String.eqb_refl.
    + intros y Hy. apply andb_true_iff in Hy as [Hy%String.eqb_eq _]. by rewrite Hy.
  - unfold GetMembershipRole. cbn [memberships].
    rewrite (first_of (λ b, (b_tenant_id b, b_user_id b))); [done|apply (wf_members _ Hw')| |].
    + unfold is_member. cbn. by rewrite !String.eqb_refl.
    + intros y Hy. unfold is_member in Hy. apply andb_true_iff in Hy as [Ha%String.eqb_eq Hb%String.eqb_eq]. cbn. by rewrite Ha, Hb.
  - unfold GetUserByEmail. cbn [users]. eexists. split.
    { rewrite (first_of (λ u, lower (u_email u))); [done| | |].
      - assert (E : map (λ u, lower (u_email u)) (users s ++ [mk_user (dr_user d) (lower (ADMIN_EMAIL v)) hash true false (dr_now d)])
                    = map u_email (users s ++ [mk_user (dr_user d) (lower (ADMIN_EMAIL v)) hash true false (dr_now d)])).
        { apply map_ext_in. intros x Hx. apply (proj1 (Forall_forall _ _) (wf_lower _ Hw')). by apply list_elem_of_In. }
        rewrite E. apply (wf_emails _ Hw').
      - cbn. by rewrite lower_lower, String.eqb_refl.
      - cbn. intros y Hy%String.eqb_eq. by rewrite Hy, lower_lower. }
    split_and!; try done. cbn. rewrite (verify_hashed _ _ hash _ Hsalt Hh). apply String.eqb_refl.
Qed.

(** Bootstrapping.  A run that fails, or finds the administrator, changes nothing.  One
    that makes the tenant leaves the tables well formed; its key authenticates as owner of the
    tenant, the administrator is an owner of it whose password is accepted, and any later run finds
    them and changes nothing. *)
Theorem bootstrap_gives_access `{!PgLowerLaws} `{!Argon2Laws} v connected committed d s :
  well_formed s → len (dr_salt d) = 16 →
  match Run v connected committed d s with
  | (Created t u key, s') =>
      well_formed s' ∧ has_access v t u key s' ∧
      ∀ raw c d', dr_random d' = Ok raw → Run v true c d' s' = (AlreadyInitialized t u, s')
  | (_, s') => s' = s
  end.
Proof.
  intros Hw Hsalt. destruct (Run v connected committed d s) as [out s'] eqn:Er. revert Er. unfold Run at 1.
  destruct (_ || _ || _ || _) eqn:Ev; [by intros [= <- <-]|]. destruct (dr_random d) as [raw|err]; [|by intros [= <- <-]].
  destruct (negb connected); [by intros [= <- <-]|]. destruct (existing _ s) as [[u t]|] eqn:Ee; [by intros [= <- <-]|].
  destruct (initialize v raw d s) as [[[t u]|m] s1] eqn:Ei; [|by intros [= <- <-]].
  destruct committed; [|by intros [= <- <-]]. intros [= <- <-].
  pose proof (initialize_wf _ _ _ _ _ _ _ Hw Ei) as Hw'. split; [done|]. split; [by eapply initialize_gives_access|].
  intros raw' c d' Hr. unfold Run. rewrite Ev, Hr. cbn [negb]. by rewrite (existing_after _ _ _ _ _ _ _ Hw Ee Ei Hw').
Qed.

(** With a password of twelve bytes, new identifiers and an unknown address the
    tenant is made. *)
Theorem bootstrap_succeeds v d s raw hash :
  DATABASE_URL v ≠ "" → TENANT_NAME v ≠ "" → ADMIN_EMAIL v ≠ "" → ADMIN_PASSWORD v ≠ "" →
  well_formed s → fresh v raw d s → existing (ADMIN_EMAIL v) s = None →
  dr_random d = Ok raw → HashPassword (ADMIN_PASSWORD v) (dr_salt d) = Ok hash →
  ∃ s', Run v true true d s = (Created (dr_tenant d) (dr_user d) ("gsk_" +:+ EncodeToString raw), s').
Proof.
  intros H1' H2' H3' H4' Hw Hf He Hr Hh. unfold Run.
  apply String.eqb_neq in H1' as ->, H2' as ->, H3' as ->, H4' as ->. cbn [orb negb]. rewrite Hr, He.
  destruct (initialize_succeeds v raw d s hash Hw Hf Hh) as [s' ->]. by exists s'.
Qed.
End bootstrap.
End Bootstrap.
