(* ===== verification/Isolation.v ===== *)
(** * Tenants apart

    What a transaction of the services may change of the configuration of a
    tenant: its jobs, clusters, executor groups and notification channels. *)
From Stdlib Require Import ZArith Lia Ascii String.
From stdpp Require Import base list strings gmap.
From S2P Require Import Prelude GoStrings GoUrl Tables Programs Executors RunStore JobStore Clusters Scheduler Routing ExecutorStore Notifications RunLogs History Engine.

Module Isolation.
Import GoUrl Programs Executors RunStore JobStore Clusters Scheduler Routing ExecutorStore Notifications RunLogs History.

(** A job without the time of its next run and its last, which the scheduler sets. *)
Definition definition_of (j : job_row) :=
  (j_id j, j_tenant_id j, j_conf j, j_sealed j, j_enabled j, j_version j).

Definition job_definitions (tenant : string) (s : db) :=
  map definition_of (sql_select (λ j, j_tenant_id j ==s tenant) (jobs s)).
Definition clusters_of (tenant : string) (s : db) : list cluster_row :=
  sql_select (λ q, q_tenant_id q ==s tenant) (kubernetes_clusters s).
Definition groups_of (tenant : string) (s : db) : list group_row :=
  sql_select (λ g, g_tenant_id g ==s tenant) (executor_groups s).
Definition channels_of (tenant : string) (s : db) : list channel_row :=
  sql_select (λ h, h_tenant_id h ==s tenant) (channels s).

Record same_configuration (tenant : string) (s s' : db) : Prop := {
  sc_jobs : job_definitions tenant s' = job_definitions tenant s;
  sc_clusters : clusters_of tenant s' = clusters_of tenant s;
  sc_groups : groups_of tenant s' = groups_of tenant s;
  sc_channels : channels_of tenant s' = channels_of tenant s;
}.

(** [jobs.id] is the primary key. *)
Definition job_keys (s : db) : Prop := NoDup (map j_id (jobs s)).
Definition kept (tenant : string) (s s' : db) : Prop :=
  job_keys s → job_keys s' ∧ same_configuration tenant s s'.

#[export] Instance kept_preorder tenant : PreOrder (kept tenant).
Proof.
  split; [by intros s|]. intros s s' s'' H1 H2 Hs. destruct (H1 Hs) as [Hs' []].
  destruct (H2 Hs') as [Hs'' []]. split; [done|]. split; congruence.
Qed.

(** ** Statements *)

(** Jobs keep their definitions, the other tables are untouched. *)
Lemma kept_frame tenant s s' :
  map definition_of (jobs s') = map definition_of (jobs s) →
  kubernetes_clusters s' = kubernetes_clusters s → executor_groups s' = executor_groups s →
  channels s' = channels s → kept tenant s s'.
Proof.
  intros Ej Eq Eg Eh Hs. split.
  - unfold job_keys in *. assert (∀ l, map j_id l = map (λ d, d.1.1.1.1.1) (map definition_of l)) as E
      by (intros l; by rewrite map_map). by rewrite E, Ej, <- E.
  - split; unfold job_definitions, clusters_of, groups_of, channels_of; [|congruence..].
    assert (∀ l, map definition_of (sql_select (λ j, j_tenant_id j ==s tenant) l)
              = List.filter (λ d, d.1.1.1.1.2 ==s tenant) (map definition_of l)) as E.
    { intros l. induction l as [|j l IH]; [done|]. unfold sql_select in *. cbn.
      destruct (j_tenant_id j ==s tenant); cbn; by rewrite IH. }
    by rewrite !E, Ej.
Qed.

Section other.
Context {A} (p q : A → bool) (f : A → A) (l : list A).

Lemma select_update_other :
  (∀ x, p x = true → q x = false ∧ q (f x) = false) → sql_select q (sql_update p f l) = sql_select q l.
Proof.
  intros Hp. unfold sql_select, sql_update. induction l as [|x xs IH]; [done|]. cbn.
  destruct (p x) eqn:Ex; [destruct (Hp x Ex) as [-> ->]; apply IH|]. destruct (q x); by rewrite IH.
Qed.
Lemma select_delete_other :
  (∀ x, x ∈ l → p x = true → q x = false) → sql_select q (sql_delete p l) = sql_select q l.
Proof.
  unfold sql_select, sql_delete. induction l as [|x xs IH]; [done|]. intros Hp. cbn.
  destruct (p x) eqn:Ex; cbn.
  - rewrite (Hp x) by (done || by left). apply IH. intros y Hy. apply Hp. by right.
  - rewrite IH; [done|]. intros y Hy. apply Hp. by right.
Qed.
Lemma select_insert_other x : q x = false → sql_select q (l ++ [x]) = sql_select q l.
Proof. intros Hx. rewrite sql_select_app. unfold sql_select at 2. cbn. by rewrite Hx, app_nil_r. Qed.
End other.

(** A statement after a check on the state it acts on. *)
Lemma preserves_checked R `{!PreOrder R} {A} (c : db → bool) err f (k : tx A) :
  (∀ s, c s = false → R s (f s)) → preserves R k →
  preserves R (s ← get; if c s then fail err else _ ← modify f; k).
Proof.
  intros Hf Hk e s. apply wp_bind, wp_get. destruct (c s) eqn:Ec; [done|].
  apply wp_bind, wp_modify. eapply wp_mono; [apply Hk|]. cbn. intros a s' Hs'.
  etrans; [by apply Hf|done].
Qed.

Section transactions.
Context (tenant : string).
Notation keeps := (preserves (kept tenant)).

Section statements.
Context (other : string) (Hother : other ≠ tenant).

Lemma other_false x : x = other → (x ==s tenant) = false.
Proof. intros ->. by apply String.eqb_neq. Qed.

Lemma kept_jobs s js :
  (job_keys s → NoDup (map j_id js)) →
  map definition_of (sql_select (λ j, j_tenant_id j ==s tenant) js) = job_definitions tenant s →
  kept tenant s (set_jobs js s).
Proof. intros Hk Hd Hs. split; [by apply Hk|]. by split. Qed.

Lemma kept_update_job id f s :
  (∀ j, j_id (f j) = j_id j ∧ j_tenant_id (f j) = j_tenant_id j) →
  kept tenant s (set_jobs (sql_update (tenant_job other id) f (jobs s)) s).
Proof.
  intros Hf. apply kept_jobs.
  - unfold job_keys, sql_update. rewrite map_map. intros Hs. erewrite map_ext; [exact Hs|].
    intros j. cbn. destruct (tenant_job _ _ _); [apply Hf|done].
  - unfold job_definitions. rewrite select_update_other; [done|]. intros j Hj. unfold tenant_job in Hj.
    destruct (Hf j) as [_ ->]. apply andb_true_iff in Hj as [Hj%String.eqb_eq _]. by rewrite other_false.
Qed.

Lemma kept_insert_job row s :
  j_tenant_id row = other → sql_exists (λ x, j_id x ==s j_id row) (jobs s) = false →
  kept tenant s (set_jobs (jobs s ++ [row]) s).
Proof.
  intros Hr Hx. apply kept_jobs.
  - unfold job_keys. intros Hs. rewrite map_app. apply NoDup_app. split_and!; [done| |apply NoDup_singleton].
    intros i (j & -> & Hj)%list_elem_of_fmap Hi. apply list_elem_of_singleton in Hi.
    assert (sql_exists (λ x, j_id x ==s j_id row) (jobs s) = true); [|congruence].
    apply sql_exists_true. exists j. split; [done|]. by apply String.eqb_eq.
  - by rewrite select_insert_other by (by apply other_false).
Qed.

Lemma kept_clusters s qs :
  sql_select (λ q, q_tenant_id q ==s tenant) qs = clusters_of tenant s →
  kept tenant s (set_kubernetes_clusters qs s).
Proof. intros E Hs. by split. Qed.
Lemma kept_groups s gs :
  sql_select (λ g, g_tenant_id g ==s tenant) gs = groups_of tenant s →
  kept tenant s (set_executor_groups gs s).
Proof. intros E Hs. by split. Qed.
Lemma kept_channels s hs :
  sql_select (λ h, h_tenant_id h ==s tenant) hs = channels_of tenant s →
  kept tenant s (set_channels hs s).
Proof. intros E Hs. by split. Qed.
End statements.

Context `{Host} `{ScheduleCalc} `{Digest} `{JobCodec} `{CredentialCodec} `{IPLiterals}.

Lemma apart_new_uuid : keeps new_uuid.
Proof. intros e s. by apply kept_frame. Qed.
Lemma keeps_time_now : keeps time_now.
Proof. intros e s. by apply kept_frame. Qed.
Hint Resolve apart_new_uuid keeps_time_now : preserves.
Hint Extern 3 (keeps (modify _)) =>
  solve [apply preserves_modify; intros ?; by apply kept_frame] : preserves.

(** *** Runs *)

Lemma keeps_exec_event runID st ty id : keeps (exec_run_event runID st ty id).
Proof. unfold exec_run_event. preserve. Qed.
Hint Resolve keeps_exec_event : preserves.
Lemma keeps_event runID st ty : keeps (emitRunEventTx runID st ty).
Proof. unfold emitRunEventTx. preserve. Qed.
Hint Resolve keeps_event : preserves.
Lemma keeps_update_runs p f : keeps (update_runs p f).
Proof. unfold update_runs. preserve. Qed.
Lemma keeps_insert_run r : keeps (insert_run r).
Proof. unfold insert_run. preserve. Qed.
Lemma keeps_lifecycle runID st : keeps (emitRunLifecycleEventTx runID st).
Proof. apply keeps_event. Qed.
Hint Resolve keeps_update_runs keeps_insert_run keeps_lifecycle : preserves.

(** Only the times of the job change. *)
Lemma keeps_rearm r t : keeps (rearmFixedDelay r t).
Proof.
  unfold rearmFixedDelay. preserve. apply preserves_modify. intros s. apply kept_frame; try done.
  unfold sql_update. cbn [jobs set_jobs]. rewrite map_map. apply map_ext. intros row.
  by destruct (_ && _ && _ && _).
Qed.
Lemma keeps_cancel_command r reason : keeps (enqueueExecutorCancellationTx r reason).
Proof.
  unfold enqueueExecutorCancellationTx. preserve. apply preserves_modify.
  intros s. unfold upsert_command. destruct (sql_exists _ _); by apply kept_frame.
Qed.
Hint Resolve keeps_rearm keeps_cancel_command : preserves.

Lemma keeps_applyBlockAction jobID action : keeps (applyBlockAction jobID action).
Proof. unfold applyBlockAction, after_cover. preserve. Qed.
Hint Resolve keeps_applyBlockAction : preserves.
Lemma keeps_applyBlockPolicy jobID policy : keeps (applyBlockPolicy jobID policy).
Proof. unfold applyBlockPolicy. preserve. Qed.
Hint Resolve keeps_applyBlockPolicy : preserves.
Lemma keeps_insert_shards first index info shards : keeps (insert_shards first index info shards).
Proof.
  revert index. induction shards as [|shard shards IH]; intros index; cbn [insert_shards]; preserve.
Qed.
Lemma keeps_broadcast_nodes groupID jobID : keeps (broadcast_nodes groupID jobID).
Proof. unfold broadcast_nodes, liveExecutorNodesTx, jobExecutorLabels. preserve. Qed.
Lemma keeps_reserve_dispatch p c r t : keeps (reserve_dispatch p c r t).
Proof. unfold reserve_dispatch. preserve. Qed.
Hint Resolve keeps_insert_shards keeps_broadcast_nodes keeps_reserve_dispatch : preserves.
Lemma keeps_enqueueDependentRuns parent : keeps (enqueueDependentRuns parent).
Proof. unfold enqueueDependentRuns, enqueue_dependent. preserve. Qed.
Lemma keeps_insertRetryRunTx previous delay : keeps (insertRetryRunTx previous delay).
Proof. unfold insertRetryRunTx. preserve. Qed.
Lemma keeps_insert_manual t jobID key input id sched over groupID strategy action pending maxq :
  keeps (insert_manual t jobID key input id sched over groupID strategy action pending maxq).
Proof. unfold insert_manual. preserve. Qed.
Lemma keeps_reserve_key t jobID key id sched : keeps (reserve_key t jobID key id sched).
Proof. unfold reserve_key. preserve. Qed.
Hint Resolve keeps_enqueueDependentRuns keeps_insertRetryRunTx keeps_insert_manual keeps_reserve_key
  : preserves.

Lemma keeps_CompleteCallback runID h ok m : keeps (RunStore.CompleteCallback runID h ok m).
Proof. unfold CompleteCallback. preserve. Qed.
Lemma keeps_CancelRun t runID reason : keeps (CancelRun t runID reason).
Proof. unfold CancelRun. preserve. Qed.
Lemma keeps_Trigger t jobID key input over : keeps (TriggerJobWithOptions t jobID key input over).
Proof. unfold TriggerJobWithOptions, trigger_fresh, liveExecutorNodesTx. preserve. Qed.
Lemma keeps_PurgeRunHistory t jobID before limit : keeps (PurgeRunHistory t jobID before limit).
Proof. unfold PurgeRunHistory. preserve. Qed.
Lemma apart_insert_log r x : keeps (insert_log r x).
Proof. unfold insert_log. preserve. Qed.
Hint Resolve apart_insert_log : preserves.
Lemma apart_insert_logs r l xs : keeps (insert_logs r l xs).
Proof. revert l. induction xs as [|x xs IH]; intros l; cbn [insert_logs]; preserve. Qed.
Hint Resolve apart_insert_logs : preserves.
Lemma keeps_AppendRunLogs r h l : keeps (AppendRunLogs r h l).
Proof. unfold AppendRunLogs, append_to. preserve. Qed.
Lemma keeps_SetJobDependencies t parent children : keeps (SetJobDependencies t parent children).
Proof. unfold SetJobDependencies, insert_dependency. preserve. Qed.

(** *** Jobs of another tenant *)

Lemma keeps_insertJobScriptVersion t j lang src rem : keeps (insertJobScriptVersion t j lang src rem).
Proof. unfold insertJobScriptVersion. preserve. Qed.
Lemma keeps_replaceJobExecutorLabels id req exc : keeps (replaceJobExecutorLabels id req exc).
Proof. unfold replaceJobExecutorLabels, insert_label. preserve. Qed.
Lemma keeps_load_job t id : keeps (load_job t id).
Proof. unfold load_job. preserve. Qed.
Hint Resolve keeps_insertJobScriptVersion keeps_replaceJobExecutorLabels keeps_load_job : preserves.

Lemma keeps_CreateJob j : Job_TenantID j ≠ tenant → keeps (JobStore.CreateJob j).
Proof.
  intros Hj. unfold CreateJob. cbv zeta. do 5 (apply preserves_bind; [apply _|preserve|intros ?]).
  apply preserves_checked; [apply _| |preserve]. intros s Hc.
  apply orb_false_iff in Hc as [_ Hc]. by eapply kept_insert_job.
Qed.
Lemma keeps_UpdateJob j : Job_TenantID j ≠ tenant → keeps (JobStore.UpdateJob j).
Proof.
  intros Hj. unfold UpdateJob. preserve. apply preserves_modify. intros s. by apply kept_update_job.
Qed.
Lemma keeps_SetJobEnabled t id b v : t ≠ tenant → keeps (JobStore.SetJobEnabled t id b v).
Proof.
  intros Ht. unfold SetJobEnabled. preserve. apply preserves_modify. intros s. by apply kept_update_job.
Qed.
Lemma keeps_Rollback t id v n r : t ≠ tenant → keeps (JobStore.RollbackJobScriptVersion t id v n r).
Proof.
  intros Ht. unfold RollbackJobScriptVersion. preserve. apply preserves_modify. intros s'.
  by apply kept_update_job.
Qed.

(** The job that goes is that of its tenant, job identifiers being unique. *)
Lemma kept_cascade t id v s :
  t ≠ tenant → sql_exists (λ j, tenant_job t id j && (j_version j =? v)) (jobs s) = true →
  kept tenant s (cascade_job (String.eqb id) s).
Proof.
  intros Ht (j & Hj & Hp)%sql_exists_true Hs.
  apply andb_true_iff in Hp as [Hp _]. unfold tenant_job in Hp.
  apply andb_true_iff in Hp as [Hjt%String.eqb_eq Hji%String.eqb_eq]. split.
  - unfold job_keys in *. cbn. unfold sql_delete. by apply NoDup_map_filter.
  - split; try done. unfold job_definitions. cbn. rewrite select_delete_other; [done|].
    intros x Hx Hix%String.eqb_eq. replace x with j; [by apply String.eqb_neq; rewrite Hjt|].
    eapply (NoDup_key_inj j_id); [exact Hs|done..|congruence].
Qed.
Lemma keeps_DeleteJob t id v : t ≠ tenant → keeps (JobStore.DeleteJob t id v).
Proof.
  intros Ht e s. unfold DeleteJob. apply wp_bind, wp_get. destruct (sql_exists _ _) eqn:Ex; [|done].
  by eapply wp_modify, kept_cascade.
Qed.

(** *** Clusters, groups and channels of another tenant *)

(** Rows that a condition on another tenant selects, or a new row of that tenant. *)
Lemma other_row (other x : string) (b : bool) :
  other ≠ tenant → ((x ==s other) && b) = true → (x ==s tenant) = false.
Proof. intros Ho [->%String.eqb_eq _]%andb_true_iff. by apply String.eqb_neq. Qed.

Lemma default_capacity_tenant c : kc_TenantID (default_capacity c) = kc_TenantID c.
Proof. unfold default_capacity. by destruct (_ =? _). Qed.

Lemma keeps_CreateCluster c : kc_TenantID c ≠ tenant → keeps (Clusters.CreateKubernetesCluster c).
Proof.
  intros Hc. rewrite <- default_capacity_tenant in Hc. unfold CreateKubernetesCluster. preserve. apply preserves_modify. intros s'.
  apply kept_clusters. rewrite select_insert_other; [done|]. by apply String.eqb_neq.
Qed.
Lemma keeps_UpdateCluster c : kc_TenantID c ≠ tenant → keeps (Clusters.UpdateKubernetesCluster c).
Proof.
  intros Hc. rewrite <- default_capacity_tenant in Hc. unfold UpdateKubernetesCluster. preserve. apply preserves_modify. intros s'.
  apply kept_clusters. rewrite select_update_other; [done|]. unfold tenant_cluster. intros x Hx.
  apply andb_true_iff in Hx as [Hx _]. split; by eapply other_row.
Qed.
Lemma keeps_DeleteCluster t i v : t ≠ tenant → keeps (Clusters.DeleteKubernetesCluster t i v).
Proof.
  intros Ht. unfold DeleteKubernetesCluster. preserve. apply preserves_modify. intros s'.
  apply kept_clusters. rewrite select_delete_other; [done|]. unfold tenant_cluster. intros x _ Hx.
  apply andb_true_iff in Hx as [Hx _]. by eapply other_row.
Qed.
Lemma keeps_GetCluster t i : keeps (Clusters.GetKubernetesCluster t i).
Proof. unfold GetKubernetesCluster. preserve. Qed.
Lemma keeps_ListClusters t : keeps (Clusters.ListKubernetesClusters t).
Proof. unfold ListKubernetesClusters. preserve. Qed.

Lemma keeps_replaceManual groupID addresses : keeps (replaceManualExecutorNodes groupID addresses).
Proof. unfold replaceManualExecutorNodes, insert_manual_node. preserve. Qed.
Hint Resolve keeps_replaceManual : preserves.
Lemma keeps_CreateGroup g : xg_TenantID g ≠ tenant → keeps (ExecutorStore.CreateExecutorGroup g).
Proof.
  intros Hg. unfold CreateExecutorGroup. preserve. apply preserves_modify. intros s'.
  apply kept_groups. rewrite select_insert_other; [done|]. by apply String.eqb_neq.
Qed.
Lemma keeps_UpdateGroup g : xg_TenantID g ≠ tenant → keeps (ExecutorStore.UpdateExecutorGroup g).
Proof.
  intros Hg. unfold UpdateExecutorGroup. preserve. apply preserves_modify. intros s'.
  apply kept_groups. rewrite select_update_other; [done|]. intros x Hx.
  apply andb_true_iff in Hx as [Hx _]. split; by eapply other_row.
Qed.
Lemma keeps_DeleteGroup t g v : t ≠ tenant → keeps (ExecutorStore.DeleteExecutorGroup t g v).
Proof.
  intros Ht. unfold DeleteExecutorGroup. preserve. apply preserves_modify. intros s'.
  match goal with |- kept _ _ (set_executor_groups _ ?s1) => trans s1; [by apply kept_frame|] end.
  apply kept_groups. rewrite select_delete_other; [done|]. intros x _ Hx.
  apply andb_true_iff in Hx as [Hx _]. by eapply other_row.
Qed.
Lemma keeps_RegisterNode t g n a ttl l : keeps (ExecutorStore.RegisterExecutorNode t g n a ttl l).
Proof. unfold RegisterExecutorNode. preserve. Qed.
Lemma keeps_UnregisterNode t g n : keeps (ExecutorStore.UnregisterExecutorNode t g n).
Proof. unfold UnregisterExecutorNode. preserve. Qed.

Lemma keeps_validateJobs c : keeps (validateNotificationChannelJobs c).
Proof. unfold validateNotificationChannelJobs. preserve. Qed.
Lemma keeps_bind_channel_job c j : keeps (bind_channel_job c j).
Proof. unfold bind_channel_job. preserve. Qed.
Lemma apart_terminalize c m : keeps (terminalizePendingNotificationDeliveries c m).
Proof. unfold terminalizePendingNotificationDeliveries. preserve. Qed.
Hint Resolve keeps_validateJobs keeps_bind_channel_job apart_terminalize : preserves.

Lemma kept_update_channel t i v f s :
  t ≠ tenant → (∀ h, h_tenant_id (f h) = h_tenant_id h) →
  kept tenant s (set_channels (sql_update (channel_version t i v) f (channels s)) s).
Proof.
  intros Ht Hf. apply kept_channels. rewrite select_update_other; [done|]. unfold channel_version.
  intros x Hx. rewrite Hf. do 2 apply andb_true_iff in Hx as [Hx _]. split; by eapply other_row.
Qed.
Lemma keeps_CreateChannel c : nc_TenantID c ≠ tenant → keeps (Notifications.CreateNotificationChannel c).
Proof.
  intros Hc. unfold CreateNotificationChannel. preserve. apply preserves_modify. intros s'.
  apply kept_channels. rewrite select_insert_other; [done|]. by apply String.eqb_neq.
Qed.
Lemma keeps_UpdateChannel c : nc_TenantID c ≠ tenant → keeps (Notifications.UpdateNotificationChannel c).
Proof.
  intros Hc. unfold UpdateNotificationChannel. preserve. apply preserves_modify. intros s'.
  by apply kept_update_channel.
Qed.
Lemma keeps_SetChannelEnabled t i b v :
  t ≠ tenant → keeps (Notifications.SetNotificationChannelEnabled t i b v).
Proof.
  intros Ht. unfold SetNotificationChannelEnabled. preserve. apply preserves_modify. intros s'.
  by apply kept_update_channel.
Qed.
Lemma keeps_DeleteChannel t i v : t ≠ tenant → keeps (Notifications.DeleteNotificationChannel t i v).
Proof.
  intros Ht. unfold DeleteNotificationChannel. preserve. apply preserves_modify. intros s'.
  by apply kept_update_channel.
Qed.
End transactions.
End Isolation.
