(* ===== verification/ControlPlane.v ===== *)
(** * The services as remote procedures

    [internal/core/service*.go], [controlplane.go], [controlplane_service.go],
    [history.go], [reports.go], [run_logs.go] and the procedures of
    [notifications.go]: messages, their conversion from and to the models of the
    store, and one procedure per method of the service. *)
From Stdlib Require Import ZArith Lia Ascii String.
From stdpp Require Import base list strings option.
From S2P Require Import Prelude GoStrings GoUrl GoTime Utf8 TimeFormat Quartz Calculator Tables Programs Executors RunStore JobStore Clusters Routing ExecutorStore Notifications RunLogs History Engine JobService Services Operations Sessions Identity.

(** [CheckValid] of a timestamp message: why it is refused. *)
Class Timestamps := timestamp_refused : time → option string.

Module ControlPlane.
Import GoUrl Utf8 TimeFormat Quartz Calculator Programs Executors RunStore JobStore Clusters Routing ExecutorStore Notifications RunLogs History Engine JobService Services Operations Sessions Identity.

(** ** Messages *)

Record ProtoAuth := mk_pauth {
  pa_Server : string; pa_Username : string; pa_Password : string; pa_Configured : bool;
}.

(** A job; absent maps and messages are [None]. *)
Record ProtoJob := mk_pjob {
  pj_Id : string; pj_TenantId : string; pj_Name : string; pj_Description : string;
  pj_ScheduleType : string; pj_ScheduleExpression : string; pj_Timezone : string;
  pj_TargetUrl : string; pj_HttpMethod : string; pj_Headers : option (list (string * string));
  pj_BodyTemplate : string; pj_TimeoutSeconds : Z; pj_MaxRetries : Z; pj_OverlapPolicy : string;
  pj_MisfirePolicy : string; pj_Enabled : bool; pj_NextRunAt : option time; pj_Version : Z;
  pj_MaxConcurrentRuns : Z; pj_MaxCatchUp : Z; pj_CallbackTimeoutSeconds : Z; pj_MaxQueueSize : Z;
  pj_ExecutorGroupId : string; pj_ExecutorHandler : string; pj_ScriptLanguage : string;
  pj_ScriptSource : string; pj_RequiredExecutorLabels : list string;
  pj_ExcludedExecutorLabels : list string; pj_KubernetesClusterId : string;
  pj_DockerRegistryAuth : option ProtoAuth; pj_ClearDockerRegistryAuth : bool;
}.

Record ProtoRun := mk_prun {
  pr_Id : string; pr_TenantId : string; pr_JobId : string; pr_Status : string; pr_Attempt : Z;
  pr_ScheduledAt : time; pr_StartedAt : option time; pr_FinishedAt : option time;
  pr_ResponseStatus : Z; pr_ErrorMessage : string; pr_ParentRunId : string; pr_RetryOfRunId : string;
  pr_TriggerType : string; pr_ExecutorNodeId : string; pr_ExecutorAddress : string;
  pr_BroadcastGroupId : string; pr_ShardIndex : Z; pr_ShardTotal : Z;
  pr_OverrideAddresses : list string; pr_ExternalExecutionId : string;
}.

Record ProtoGroup := mk_pgroup {
  pg_Id : string; pg_TenantId : string; pg_Name : string; pg_RouteStrategy : string; pg_Version : Z;
  pg_RegistrationMode : string; pg_ManualAddresses : list string;
}.
Record ProtoNode := mk_pnode {
  pn_GroupId : string; pn_NodeId : string; pn_Address : string; pn_ExpiresAt : time;
  pn_UpdatedAt : time; pn_Online : bool; pn_Static : bool; pn_Labels : list string;
}.
Record ProtoCluster := mk_pcluster {
  pc_Id : string; pc_TenantId : string; pc_Name : string; pc_AuthMode : string; pc_ApiServer : string;
  pc_Namespace : string; pc_Kubeconfig : string; pc_Token : string; pc_CaData : string;
  pc_InsecureSkipTlsVerify : bool; pc_MaxConcurrentJobs : Z; pc_Version : Z;
  pc_CreatedAt : option time; pc_UpdatedAt : option time;
}.
Record ProtoChannel := mk_pchannel {
  ph_Id : string; ph_TenantId : string; ph_Kind : string; ph_Name : string; ph_Configured : bool;
  ph_Events : list string; ph_AllJobs : bool; ph_JobIds : list string; ph_MaxAttempts : Z;
  ph_BackoffInitialSeconds : Z; ph_BackoffMaxSeconds : Z; ph_Enabled : bool; ph_Version : Z;
}.
Record ProtoUser := mk_puser {
  pu_Id : string; pu_Email : string; pu_PasswordHash : string; pu_PlatformAdmin : bool;
  pu_Disabled : bool; pu_CreatedAt : option time;
}.
Record ProtoDashboard := mk_pdashboard {
  pd_Jobs : Z; pd_EnabledJobs : Z; pd_PendingRuns : Z; pd_RunningRuns : Z; pd_Succeeded : Z;
  pd_Failed : Z; pd_RecentFailures : list (string * string * string * time * string);
  pd_Upcoming : list (string * string * option time);
}.
Record ProtoReport := mk_preport {
  pp_FromDate : string; pp_ToDate : string; pp_Timezone : string; pp_Points : list RunReportPoint;
}.

(** ** Conversions *)

(** A reference column is NULL when the text is empty. *)
Definition fromProto (j : ProtoJob) : Job :=
  let auth :=
    match pj_DockerRegistryAuth j with
    | Some a => mk_auth (TrimSpace (pa_Server a)) (TrimSpace (pa_Username a)) (pa_Password a)
                  (pa_Configured a)
    | None => no_auth
    end in
  mk_Job (pj_Id j) (pj_TenantId j)
    (mk_conf (pj_Name j) (pj_Description j) (pj_ScheduleType j) (pj_ScheduleExpression j)
       (pj_Timezone j) (pj_TargetUrl j) (pj_HttpMethod j) (pj_BodyTemplate j) (pj_TimeoutSeconds j)
       (pj_MaxRetries j) (pj_OverlapPolicy j) (pj_MisfirePolicy j) (pj_MaxConcurrentRuns j)
       (pj_MaxCatchUp j) (pj_CallbackTimeoutSeconds j) (pj_MaxQueueSize j)
       (nullif_empty (pj_ExecutorGroupId j)) (pj_ExecutorHandler j) (pj_ScriptLanguage j)
       (pj_ScriptSource j) (nullif_empty (pj_KubernetesClusterId j)))
    (pj_RequiredExecutorLabels j) (pj_ExcludedExecutorLabels j) (default [] (pj_Headers j)) auth
    (pj_Enabled j) None (pj_Version j).

Definition toProto (j : Job) : ProtoJob :=
  let c := Job_Conf j in
  mk_pjob (Job_ID j) (Job_TenantID j) (c_name c) (c_description c) (c_schedule_type c)
    (c_schedule_expression c) (c_timezone c) (c_target_url c) (c_http_method c) (Some (Headers j))
    (c_body_template c) (c_timeout_seconds c) (c_max_retries c) (c_overlap_policy c)
    (c_misfire_policy c) (Enabled j) (NextRunAt j) (Version j) (c_max_concurrent_runs c)
    (c_max_catch_up c) (c_callback_timeout_seconds c) (c_max_queue_size c) (group_text c)
    (c_executor_handler c) (c_script_language c) (c_script_source c) (RequiredExecutorLabels j)
    (ExcludedExecutorLabels j) (cluster_text c)
    (if Configured (RegistryAuth j)
     then Some (mk_pauth (Server (RegistryAuth j)) (Username (RegistryAuth j)) "" true) else None)
    false.

Definition runToProto (r : Run) : ProtoRun :=
  mk_prun (ID r) (TenantID r) (JobID r) (status_text (Status r)) (Attempt r) (ScheduledAt r)
    (StartedAt r) (FinishedAt r) (ResponseStatus r) (ErrorMessage r) (ParentRunID r) (RetryOfRunID r)
    (trigger_text (TriggerType r)) (ExecutorNodeID r) (ExecutorAddress r) (BroadcastGroupID r)
    (ShardIndex r) (ShardTotal r) (OverrideAddresses r) (ExternalExecutionID r).

Definition executorGroupFromProto (g : option ProtoGroup) : ExecutorGroup :=
  match g with
  | None => mk_xgroup "" "" "" "" "" [] 0
  | Some g => mk_xgroup (pg_Id g) (pg_TenantId g) (pg_Name g) (pg_RouteStrategy g)
                (pg_RegistrationMode g) (pg_ManualAddresses g) (pg_Version g)
  end.
Definition executorGroupToProto (g : ExecutorGroup) : ProtoGroup :=
  mk_pgroup (xg_ID g) (xg_TenantID g) (xg_Name g) (xg_RouteStrategy g) (xg_Version g)
    (xg_RegistrationMode g) (xg_ManualAddresses g).
Definition executorNodeToProto (now : time) (n : ExecutorNode) : ProtoNode :=
  mk_pnode (GroupID n) (NodeID n) (Address n) (ExpiresAt n) (UpdatedAt n)
    (Static n || After (ExpiresAt n) now) (Static n) (Labels n).

Definition kubernetesClusterFromProto (c : option ProtoCluster) : KubernetesCluster :=
  match c with
  | None => mk_kcluster "" "" "" "" "" "" (mk_credentials "" "" "") false 0 0 0 0
  | Some c => mk_kcluster (pc_Id c) (pc_TenantId c) (pc_Name c) (pc_AuthMode c) (pc_ApiServer c)
                (pc_Namespace c) (mk_credentials (pc_Kubeconfig c) (pc_Token c) (pc_CaData c))
                (pc_InsecureSkipTlsVerify c) (pc_MaxConcurrentJobs c) (pc_Version c) 0 0
  end.
Definition kubernetesClusterToProto (c : KubernetesCluster) (includeSecrets : bool) : ProtoCluster :=
  let secret (s : string) := if includeSecrets then s else "" in
  mk_pcluster (kc_ID c) (kc_TenantID c) (kc_Name c) (AuthMode c) (APIServer c) (Namespace c)
    (secret (Kubeconfig (kc_Credentials c))) (secret (kc_Token (kc_Credentials c)))
    (secret (CAData (kc_Credentials c))) (InsecureSkipTLSVerify c) (MaxConcurrentJobs c) (kc_Version c)
    (Some (kc_CreatedAt c)) (Some (kc_UpdatedAt c)).

Definition boundedInt32 (value : Z) : Z :=
  if value <? 0 then 0 else if 86400 <? value then 86400 else value.
Definition trimEventPrefixes (events : list string) : list string :=
  map (λ e, TrimPrefix e "job.run.") events.
Definition notificationChannelToProto (c : NotificationChannel) : ProtoChannel :=
  mk_pchannel (nc_ID c) (nc_TenantID c) (nc_Kind c) (nc_Name c) (0 <? len (nc_Config c))
    (trimEventPrefixes (nc_Events c)) (nc_AllJobs c) (nc_JobIDs c) (boundedInt32 (nc_MaxAttempts c))
    (boundedInt32 (nc_BackoffInitialSeconds c)) (boundedInt32 (nc_BackoffMaxSeconds c))
    (nc_Enabled c) (nc_Version c).

(** [userToProto(user, time.Time{})] *)
Definition userToProto (u : User) : ProtoUser :=
  mk_puser (U_ID u) (U_Email u) (U_PasswordHash u) (U_PlatformAdmin u) (U_Disabled u) None.
Definition summary_to_proto (u : UserSummary) : ProtoUser :=
  mk_puser (US_ID u) (US_Email u) "" (US_PlatformAdmin u) (US_Disabled u) (Some (US_CreatedAt u)).

Definition dashboard_to_proto (d : Dashboard) : ProtoDashboard :=
  mk_pdashboard (db_Jobs d) (db_EnabledJobs d) (db_PendingRuns d) (db_RunningRuns d)
    (db_Succeeded24H d) (db_Failed24H d)
    (map (λ r, (ID r, JobID r, status_text (Status r), ScheduledAt r, ErrorMessage r)) (db_RecentFailures d))
    (map (λ j, (Job_ID j, c_name (Job_Conf j), NextRunAt j)) (db_Upcoming d)).
(** ** Procedures

    A procedure uses the store through the services; the tables of users,
    tenants and keys are used in transactions of their own. *)

(** What a transaction on those tables draws. *)
Record id_env := mk_id_env { ie_draw : id_draw; ie_session : draw }.
Notation ident A := (id_env → idb → result A * idb).

Inductive control : Type → Type :=
| Base {B} (r : request B) : control B
| IdentityTx {B} (m : ident B) : control (result B).

Notation status := (code * string)%type.
Notation procedure A := (prog control (status + A)).

Fixpoint lift_service {A} (p : prog request A) : prog control A :=
  match p with
  | Return a => Return a
  | Store m k => Store m (λ r, lift_service (k r))
  | Effect eff k => Effect (Base eff) (λ b, lift_service (k b))
  end.

(** [if err != nil { return nil, toStatus(err) }; return f(out), nil] *)
Definition replied {A B} (f : A → B) (r : result A) : status + B :=
  match r with Ok a => inr (f a) | Err err => inl (toStatus err) end.
Definition serve_db {A B} (f : A → B) (p : service (result A)) : procedure B :=
  r ← lift_service p; mret (replied f r).
Definition serve_id {A B} (f : A → B) (m : ident A) : procedure B :=
  r ← effect (IdentityTx m); mret (replied f r).
Definition reads {A} (f : idb → result A) : ident A := λ _ s, (f s, s).
Definition refused {A} (c : code) (message : string) : procedure A := mret (inl (c, message)).

Section procedures.
Context `{Host} `{ScheduleCalc} `{Digest} `{JobCodec} `{IPLiterals} `{CredentialCodec}.
Context `{ChannelFormats} `{CursorJson} `{Sha256} `{PgLower} `{CronLib} `{TZData} `{PgZones}.
Context `{Timestamps}.

(** *** Identity *)

Definition Ping : procedure unit :=
  r ← effect (IdentityTx (reads (λ _, Ok tt)));
  match r with
  | Ok _ => mret (inr tt)
  | Err _ => refused Unavailable "database unavailable"
  end.

Definition AuthenticateAPIKey (token : string) : procedure (string * string) :=
  serve_id id (reads (Identity.AuthenticateAPIKey token)).
Definition GetUser (userID : string) : procedure ProtoUser :=
  serve_id userToProto (reads (Identity.GetUser userID)).
Definition GetUserByEmail (email : string) : procedure ProtoUser :=
  serve_id userToProto (reads (Identity.GetUserByEmail email)).
Definition GetMembershipRole (tenantID userID : string) : procedure string :=
  serve_id id (reads (Identity.GetMembershipRole tenantID userID)).
Definition ListUserTenants (userID : string) (platformAdmin : bool) : procedure (list TenantAccess) :=
  serve_id id (reads (λ s, Ok (UserTenants userID platformAdmin s))).

(** The user of a new session is a foreign key. *)
Definition CreateRefreshSession (userID : string) (ttlSeconds : Z) : procedure (string * string) :=
  serve_id (λ '(token, session), (token, rf_UserID session))
    (λ e s,
      if negb (sql_exists (λ u, u_id u ==s userID) (users s))
      then (Err (ErrMsg "create refresh session"), s)
      else
        let '(r, ss) := Sessions.CreateRefreshSession userID (dur_mul ttlSeconds second) (ie_session e)
                          (refresh_sessions s) in
        (r, set_sessions ss s)).
Definition RotateRefreshSession (token : string) (ttlSeconds : Z) : procedure (string * string) :=
  serve_id (λ '(token, session), (token, rf_UserID session))
    (λ e s,
      let '(r, ss) := Sessions.RotateRefreshSession token (dur_mul ttlSeconds second) (ie_session e)
                        (refresh_sessions s) in
      (r, set_sessions ss s)).
Definition RevokeRefreshSession (token : string) : procedure unit :=
  serve_id id
    (λ e s, (Ok tt, set_sessions (Sessions.RevokeRefreshSession token (dw_now (ie_draw e))
                                    (refresh_sessions s)) s)).

Definition ListUsers : procedure (list ProtoUser) :=
  serve_id (map summary_to_proto) (reads (λ s, Ok (Identity.ListUsers s))).
Definition CreateUser (email passwordHash : string) (platformAdmin : bool) : procedure ProtoUser :=
  serve_id userToProto (λ e, Identity.CreateUser email passwordHash platformAdmin (ie_draw e)).
Definition SetUserDisabled (userID : string) (disabled : bool) : procedure unit :=
  serve_id id (λ _ s, (Ok tt, Identity.SetUserDisabled userID disabled s)).

(** *** Tenants *)

Definition ListTenants : procedure (list TenantSummary) :=
  serve_id id (reads (λ s, Ok (Identity.ListTenants s))).
Definition CreateTenant (name : string) : procedure (string * string) :=
  serve_id (λ tenantID, (tenantID, name)) (λ e, Identity.CreateTenant name (ie_draw e)).
Definition ListTenantMembers (tenantID : string) : procedure (list MemberSummary) :=
  serve_id id (reads (λ s, Ok (TenantMembers tenantID s))).
Definition AddMembership (tenantID userID role : string) : procedure unit :=
  serve_id id (λ _, Identity.AddMembership tenantID userID role).
Definition DeleteMembership (tenantID userID : string) : procedure unit :=
  serve_id id (λ _, Identity.DeleteMembership tenantID userID).
Definition ListAPIKeys (tenantID : string) : procedure (list APIKey) :=
  serve_id id (reads (λ s, Ok (Identity.ListAPIKeys tenantID s))).
Definition CreateAPIKey (tenantID name role : string) : procedure (APIKey * string) :=
  serve_id id (λ e, Identity.CreateAPIKey tenantID name role (ie_draw e)).
Definition RevokeAPIKey (tenantID keyID : string) : procedure unit :=
  serve_id id (λ e, Identity.RevokeAPIKey tenantID keyID (dw_now (ie_draw e))).
Definition GetDashboard (tenantID : string) : procedure ProtoDashboard :=
  serve_db dashboard_to_proto (dashboard tenantID).

(** *** Kubernetes clusters *)

(** The error of a write that is not one of three known ones is the request's. *)
Definition kubernetesWriteStatus (err : error) : status :=
  match err with
  | ErrNotFound | ErrConflict | ErrKubernetesClusterInUse => toStatus err
  | _ => (InvalidArgument, error_text err)
  end.
Definition cluster_written (r : result KubernetesCluster) : status + ProtoCluster :=
  match r with
  | Ok cluster => inr (kubernetesClusterToProto cluster false)
  | Err err => inl (kubernetesWriteStatus err)
  end.

Definition ListKubernetesClusters (tenantID : string) : procedure (list ProtoCluster) :=
  serve_db (map (λ c, kubernetesClusterToProto c false)) (store (Clusters.ListKubernetesClusters tenantID)).
Definition GetKubernetesCluster (tenantID clusterID : string) : procedure ProtoCluster :=
  serve_db (λ c, kubernetesClusterToProto c false) (store (Clusters.GetKubernetesCluster tenantID clusterID)).
Definition CreateKubernetesCluster (cluster : option ProtoCluster) : procedure ProtoCluster :=
  r ← lift_service (CreateCluster (kubernetesClusterFromProto cluster) (bool_decide (cluster ≠ None)));
  mret (cluster_written r).
Definition UpdateKubernetesCluster (cluster : option ProtoCluster) : procedure ProtoCluster :=
  r ← lift_service (UpdateCluster (kubernetesClusterFromProto cluster) (bool_decide (cluster ≠ None)));
  mret (cluster_written r).
Definition DeleteKubernetesCluster (tenantID clusterID : string) (version : Z) : procedure unit :=
  serve_db id (DeleteCluster tenantID clusterID version).

(** *** Jobs *)

Definition CreateJob (job : option ProtoJob) : procedure ProtoJob :=
  match job with
  | None => refused InvalidArgument "job is required"
  | Some j =>
      serve_db toProto
        (Create (mk_create (fromProto j) (bool_decide (is_Some (pj_DockerRegistryAuth j)))))
  end.
Definition GetJob (tenantID jobID : string) : procedure ProtoJob :=
  serve_db toProto (Get tenantID jobID).
Definition ListJobs (tenantID : string) (limit : Z) : procedure (list ProtoJob) :=
  serve_db (map toProto) (store (query (λ _ s, Operations.ListJobs tenantID limit s))).
Definition UpdateJob (job : option ProtoJob) : procedure ProtoJob :=
  match job with
  | None => refused InvalidArgument "job is required"
  | Some j =>
      serve_db toProto
        (Update (mk_update (fromProto j) (bool_decide (is_Some (pj_DockerRegistryAuth j)))
                   (pj_ClearDockerRegistryAuth j)))
  end.
Definition ListJobScriptVersions (tenantID jobID : string) : procedure (list JobScriptVersion) :=
  serve_db id (ListScriptVersions tenantID jobID).
Definition RollbackJobScriptVersion (tenantID jobID versionID : string) (jobVersion : Z)
    (remark : string) : procedure ProtoJob :=
  serve_db toProto (RollbackScriptVersion tenantID jobID versionID jobVersion remark).
Definition SetJobEnabled (tenantID jobID : string) (enabled : bool) (version : Z) : procedure ProtoJob :=
  serve_db toProto (SetEnabled tenantID jobID enabled version).
Definition DeleteJob (tenantID jobID : string) (version : Z) : procedure unit :=
  serve_db id (Delete tenantID jobID version).
Definition TriggerJob (tenantID jobID key input : string) (override : list string) : procedure ProtoRun :=
  serve_db runToProto (Trigger tenantID jobID key input override).

Record PreviewRequest := mk_preview {
  pv_ScheduleType : string; pv_ScheduleExpression : string; pv_Timezone : string;
  pv_After : option time; pv_Count : Z;
}.
(** The time zone, the first instant and the number of times asked for. *)
Definition schedulePreviewInput (req : PreviewRequest) (now : time) : result (string * time * Z) :=
  _ ← reject ((TrimSpace (pv_ScheduleType req) ==s "") || (TrimSpace (pv_ScheduleExpression req) ==s ""))
        "schedule_type and schedule_expression are required";
  let timezone := if pv_Timezone req ==s "" then "UTC" else pv_Timezone req in
  _ ← wrapped "invalid timezone" (LoadLocation timezone);
  let count := if pv_Count req =? 0 then 5 else pv_Count req in
  _ ← reject ((count <? 1) || (100 <? count)) "count must be between 1 and 100";
  match pv_After req with
  | None => Ok (timezone, now, count)
  | Some after =>
      match timestamp_refused after with
      | Some message => Err (ErrMsg ("invalid after timestamp: " +:+ message))
      | None => Ok (timezone, after, count)
      end
  end.
Definition PreviewSchedule (req : PreviewRequest) : procedure (list time) :=
  now ← effect (Base ServiceNow);
  match schedulePreviewInput req now with
  | Err err => refused InvalidArgument (error_text err)
  | Ok (timezone, after, count) =>
      now ← effect (Base ServiceNow);
      mret (replied id (JobService.PreviewSchedule (pv_ScheduleType req) (pv_ScheduleExpression req)
                          timezone after count now))
  end.

(** *** Runs *)

Definition ListRuns (tenantID jobID broadcastGroupID : string) (limit : Z) : procedure (list ProtoRun) :=
  serve_db (map runToProto)
    (store (query (λ _ s, Ok (ListRunsFiltered tenantID jobID broadcastGroupID limit s)))).
Definition GetRun (tenantID runID : string) : procedure ProtoRun :=
  serve_db runToProto
    (guarded ((tenantID ==s "") || (runID ==s "")) "tenant_id and run_id are required"
       (query (λ _ s, RunStore.GetRun tenantID runID s))).
Definition CancelRun (hasExecutor : bool) (tenantID runID reason : string) : procedure ProtoRun :=
  serve_db runToProto (Cancel hasExecutor tenantID runID reason).
Definition SetJobDependencies (tenantID parentJobID : string) (childJobIDs : list string)
    : procedure (string * list string) :=
  serve_db (λ ids, (parentJobID, ids)) (SetDependencies tenantID parentJobID childJobIDs).
Definition GetJobDependencies (tenantID parentJobID : string) : procedure (string * list string) :=
  serve_db (λ ids, (parentJobID, ids)) 
    (store (query (λ _ s, JobDependencies tenantID parentJobID s))).
Definition CompleteCallback (runID token : string) (succeeded : bool) (message : string)
    : procedure unit :=
  serve_db id (Services.CompleteCallback runID token succeeded message).

Definition AppendRunLogs (runID token : string) (entries : list RunLogInput) : procedure Z :=
  serve_db id (AppendLogs runID token entries).
Definition ListRunLogs (tenantID runID : string) (after limit : Z) : procedure (list RunLogEntry * Z) :=
  serve_db id (ListLogs tenantID runID after limit).

Definition validatePurgeRunHistoryRequest (tenantID jobID : string) (before : option time) (limit : Z)
    : result time :=
  _ ← reject (tenantID ==s "") "tenant_id is required";
  before ← (match before with
            | Some t => if bool_decide (timestamp_refused t = None) then Ok t
                        else Err (ErrMsg "valid before timestamp is required")
            | None => Err (ErrMsg "valid before timestamp is required")
            end);
  _ ← reject ((jobID !=s "") && negb (uuid_valid jobID)) "job_id must be a UUID";
  _ ← reject ((limit <? 0) || (10000 <? limit)) "limit must be between 1 and 10000";
  Ok before.
Definition PurgeRunHistory (tenantID jobID : string) (before : option time) (limit : Z) : procedure Z :=
  match validatePurgeRunHistoryRequest tenantID jobID before limit with
  | Err err => refused InvalidArgument (error_text err)
  | Ok before => serve_db id (PurgeHistory tenantID jobID before limit)
  end.

Definition GetRunReport (input : RunReportInput) : procedure ProtoReport :=
  now ← effect (Base ServiceNow);
  serve_db (λ '(from, to, loc, points),
    mk_preport (FormatDateOnly (local_days loc from)) (FormatDateOnly (local_days loc to))
      (if rr_Timezone input ==s "" then "UTC" else rr_Timezone input) points)
    (RunReport input now).

(** *** Executors *)

Definition CreateExecutorGroup (group : option ProtoGroup) : procedure ProtoGroup :=
  serve_db executorGroupToProto (CreateGroup (executorGroupFromProto group)).
Definition UpdateExecutorGroup (group : option ProtoGroup) : procedure ProtoGroup :=
  serve_db executorGroupToProto (UpdateGroup (executorGroupFromProto group)).
Definition DeleteExecutorGroup (tenantID groupID : string) (version : Z) : procedure unit :=
  serve_db id (DeleteGroup tenantID groupID version).
Definition ListExecutorGroups (tenantID : string) : procedure (list ProtoGroup) :=
  serve_db (map executorGroupToProto)
    (store (query (λ _ s, Ok (ExecutorStore.ListExecutorGroups tenantID s)))).

(** The clock is read for each node. *)
Fixpoint nodes_to_proto (nodes : list ExecutorNode) : prog control (list ProtoNode) :=
  match nodes with
  | [] => mret []
  | node :: rest =>
      now ← effect (Base ServiceNow);
      out ← nodes_to_proto rest;
      mret (executorNodeToProto now node :: out)
  end.
Definition RegisterExecutorNode (input : RegisterExecutorNodeInput) : procedure ProtoNode :=
  r ← lift_service (RegisterNode input);
  match r with
  | Err err => mret (inl (toStatus err))
  | Ok node => now ← effect (Base ServiceNow); mret (inr (executorNodeToProto now node))
  end.
Definition UnregisterExecutorNode (tenantID groupID nodeID : string) : procedure unit :=
  serve_db id (UnregisterNode tenantID groupID nodeID).
Definition ListExecutorNodes (tenantID groupID : string) (liveOnly : bool) : procedure (list ProtoNode) :=
  r ← store (query (λ t s, Ok (ExecutorStore.ListExecutorNodes tenantID groupID liveOnly t s)));
  match r with
  | Err err => mret (inl (toStatus err))
  | Ok nodes => out ← nodes_to_proto nodes; mret (inr out)
  end.

(** *** Notifications *)

(** A request to create a channel has neither an id nor a version. *)
Definition without_version (i : NotificationChannelInput) : NotificationChannelInput :=
  mk_channel_input (ni_TenantID i) "" (ni_Kind i) (ni_Name i) (ni_Config i) (ni_Events i) (ni_JobIDs i)
    (ni_AllJobs i) (ni_MaxAttempts i) (ni_InitialBackoff i) (ni_MaxBackoff i) 0.
Definition CreateNotificationChannel (input : NotificationChannelInput) : procedure ProtoChannel :=
  serve_db notificationChannelToProto (CreateChannel (without_version input)).
Definition UpdateNotificationChannel (input : NotificationChannelInput) : procedure ProtoChannel :=
  serve_db notificationChannelToProto (UpdateChannel input).
Definition SetNotificationChannelEnabled (tenantID channelID : string) (enabled : bool) (version : Z)
    : procedure ProtoChannel :=
  serve_db notificationChannelToProto (SetChannelEnabled tenantID channelID enabled version).
Definition DeleteNotificationChannel (tenantID channelID : string) (version : Z) : procedure unit :=
  serve_db id (DeleteChannel tenantID channelID version).
Definition ListNotificationChannels (tenantID : string) : procedure (list ProtoChannel) :=
  serve_db (map notificationChannelToProto)
    (guarded (tenantID ==s "") "tenant_id is required"
       (query (λ _ s, NotificationChannels tenantID s))).

Definition bound_attempts (e : NotificationHistoryEntry) : NotificationHistoryEntry :=
  mk_nhistory (nh_DeliveryID e) (nh_EventID e) (nh_ChannelID e) (nh_ChannelName e) (nh_ChannelKind e)
    (nh_Topic e) (nh_JobID e) (nh_RunID e) (nh_Status e) (nh_LastError e)
    (boundedInt32 (nh_Attempts e)) (nh_CreatedAt e) (nh_DeliveredAt e) (nh_DeadAt e).
Definition ListNotificationHistory (input : NotificationHistoryInput)
    : procedure (list NotificationHistoryEntry * string) :=
  serve_db (λ '(entries, cursor), (map bound_attempts entries, cursor)) (ListHistory input).

(** *** The service *)

Inductive rpc : Type → Type :=
| RpcPing : rpc unit
| RpcAuthenticateAPIKey (token : string) : rpc (string * string)
| RpcGetUser (userID : string) : rpc ProtoUser
| RpcGetUserByEmail (email : string) : rpc ProtoUser
| RpcGetMembershipRole (tenantID userID : string) : rpc string
| RpcListUserTenants (userID : string) (platformAdmin : bool) : rpc (list TenantAccess)
| RpcCreateRefreshSession (userID : string) (ttlSeconds : Z) : rpc (string * string)
| RpcRotateRefreshSession (token : string) (ttlSeconds : Z) : rpc (string * string)
| RpcRevokeRefreshSession (token : string) : rpc unit
| RpcListUsers : rpc (list ProtoUser)
| RpcCreateUser (email passwordHash : string) (platformAdmin : bool) : rpc ProtoUser
| RpcSetUserDisabled (userID : string) (disabled : bool) : rpc unit
| RpcListTenants : rpc (list TenantSummary)
| RpcCreateTenant (name : string) : rpc (string * string)
| RpcListTenantMembers (tenantID : string) : rpc (list MemberSummary)
| RpcAddMembership (tenantID userID role : string) : rpc unit
| RpcDeleteMembership (tenantID userID : string) : rpc unit
| RpcListAPIKeys (tenantID : string) : rpc (list APIKey)
| RpcCreateAPIKey (tenantID name role : string) : rpc (APIKey * string)
| RpcRevokeAPIKey (tenantID keyID : string) : rpc unit
| RpcGetDashboard (tenantID : string) : rpc ProtoDashboard
| RpcListKubernetesClusters (tenantID : string) : rpc (list ProtoCluster)
| RpcGetKubernetesCluster (tenantID clusterID : string) : rpc ProtoCluster
| RpcCreateKubernetesCluster (cluster : option ProtoCluster) : rpc ProtoCluster
| RpcUpdateKubernetesCluster (cluster : option ProtoCluster) : rpc ProtoCluster
| RpcDeleteKubernetesCluster (tenantID clusterID : string) (version : Z) : rpc unit
| RpcCreateJob (job : option ProtoJob) : rpc ProtoJob
| RpcGetJob (tenantID jobID : string) : rpc ProtoJob
| RpcListJobs (tenantID : string) (limit : Z) : rpc (list ProtoJob)
| RpcUpdateJob (job : option ProtoJob) : rpc ProtoJob
| RpcListJobScriptVersions (tenantID jobID : string) : rpc (list JobScriptVersion)
| RpcRollbackJobScriptVersion (tenantID jobID versionID : string) (jobVersion : Z) (remark : string)
    : rpc ProtoJob
| RpcSetJobEnabled (tenantID jobID : string) (enabled : bool) (version : Z) : rpc ProtoJob
| RpcDeleteJob (tenantID jobID : string) (version : Z) : rpc unit
| RpcTriggerJob (tenantID jobID key input : string) (override : list string) : rpc ProtoRun
| RpcPreviewSchedule (req : PreviewRequest) : rpc (list time)
| RpcListRuns (tenantID jobID broadcastGroupID : string) (limit : Z) : rpc (list ProtoRun)
| RpcGetRun (tenantID runID : string) : rpc ProtoRun
| RpcCancelRun (tenantID runID reason : string) : rpc ProtoRun
| RpcSetJobDependencies (tenantID parentJobID : string) (childJobIDs : list string)
    : rpc (string * list string)
| RpcGetJobDependencies (tenantID parentJobID : string) : rpc (string * list string)
| RpcCompleteCallback (runID token : string) (succeeded : bool) (message : string) : rpc unit
| RpcAppendRunLogs (runID token : string) (entries : list RunLogInput) : rpc Z
| RpcListRunLogs (tenantID runID : string) (after limit : Z) : rpc (list RunLogEntry * Z)
| RpcPurgeRunHistory (tenantID jobID : string) (before : option time) (limit : Z) : rpc Z
| RpcGetRunReport (input : RunReportInput) : rpc ProtoReport
| RpcCreateExecutorGroup (group : option ProtoGroup) : rpc ProtoGroup
| RpcUpdateExecutorGroup (group : option ProtoGroup) : rpc ProtoGroup
| RpcDeleteExecutorGroup (tenantID groupID : string) (version : Z) : rpc unit
| RpcListExecutorGroups (tenantID : string) : rpc (list ProtoGroup)
| RpcRegisterExecutorNode (input : RegisterExecutorNodeInput) : rpc ProtoNode
| RpcUnregisterExecutorNode (tenantID groupID nodeID : string) : rpc unit
| RpcListExecutorNodes (tenantID groupID : string) (liveOnly : bool) : rpc (list ProtoNode)
| RpcCreateNotificationChannel (input : NotificationChannelInput) : rpc ProtoChannel
| RpcUpdateNotificationChannel (input : NotificationChannelInput) : rpc ProtoChannel
| RpcSetNotificationChannelEnabled (tenantID channelID : string) (enabled : bool) (version : Z)
    : rpc ProtoChannel
| RpcDeleteNotificationChannel (tenantID channelID : string) (version : Z) : rpc unit
| RpcListNotificationChannels (tenantID : string) : rpc (list ProtoChannel)
| RpcListNotificationHistory (input : NotificationHistoryInput)
    : rpc (list NotificationHistoryEntry * string).

(** [hasExecutor]: the service was made with an executor controller. *)
Definition serve (hasExecutor : bool) {B} (r : rpc B) : procedure B :=
  match r with
  | RpcPing => Ping
  | RpcAuthenticateAPIKey token => AuthenticateAPIKey token
  | RpcGetUser userID => GetUser userID
  | RpcGetUserByEmail email => GetUserByEmail email
  | RpcGetMembershipRole tenantID userID => GetMembershipRole tenantID userID
  | RpcListUserTenants userID platformAdmin => ListUserTenants userID platformAdmin
  | RpcCreateRefreshSession userID ttlSeconds => CreateRefreshSession userID ttlSeconds
  | RpcRotateRefreshSession token ttlSeconds => RotateRefreshSession token ttlSeconds
  | RpcRevokeRefreshSession token => RevokeRefreshSession token
  | RpcListUsers => ListUsers
  | RpcCreateUser email passwordHash platformAdmin => CreateUser email passwordHash platformAdmin
  | RpcSetUserDisabled userID disabled => SetUserDisabled userID disabled
  | RpcListTenants => ListTenants
  | RpcCreateTenant name => CreateTenant name
  | RpcListTenantMembers tenantID => ListTenantMembers tenantID
  | RpcAddMembership tenantID userID role => AddMembership tenantID userID role
  | RpcDeleteMembership tenantID userID => DeleteMembership tenantID userID
  | RpcListAPIKeys tenantID => ListAPIKeys tenantID
  | RpcCreateAPIKey tenantID name role => CreateAPIKey tenantID name role
  | RpcRevokeAPIKey tenantID keyID => RevokeAPIKey tenantID keyID
  | RpcGetDashboard tenantID => GetDashboard tenantID
  | RpcListKubernetesClusters tenantID => ListKubernetesClusters tenantID
  | RpcGetKubernetesCluster tenantID clusterID => GetKubernetesCluster tenantID clusterID
  | RpcCreateKubernetesCluster cluster => CreateKubernetesCluster cluster
  | RpcUpdateKubernetesCluster cluster => UpdateKubernetesCluster cluster
  | RpcDeleteKubernetesCluster tenantID clusterID version => DeleteKubernetesCluster tenantID clusterID version
  | RpcCreateJob job => CreateJob job
  | RpcGetJob tenantID jobID => GetJob tenantID jobID
  | RpcListJobs tenantID limit => ListJobs tenantID limit
  | RpcUpdateJob job => UpdateJob job
  | RpcListJobScriptVersions tenantID jobID => ListJobScriptVersions tenantID jobID
  | RpcRollbackJobScriptVersion tenantID jobID versionID jobVersion remark => RollbackJobScriptVersion tenantID jobID versionID jobVersion remark
  | RpcSetJobEnabled tenantID jobID enabled version => SetJobEnabled tenantID jobID enabled version
  | RpcDeleteJob tenantID jobID version => DeleteJob tenantID jobID version
  | RpcTriggerJob tenantID jobID key input override => TriggerJob tenantID jobID key input override
  | RpcPreviewSchedule req => PreviewSchedule req
  | RpcListRuns tenantID jobID broadcastGroupID limit => ListRuns tenantID jobID broadcastGroupID limit
  | RpcGetRun tenantID runID => GetRun tenantID runID
  | RpcCancelRun tenantID runID reason => CancelRun hasExecutor tenantID runID reason
  | RpcSetJobDependencies tenantID parentJobID childJobIDs => SetJobDependencies tenantID parentJobID childJobIDs
  | RpcGetJobDependencies tenantID parentJobID => GetJobDependencies tenantID parentJobID
  | RpcCompleteCallback runID token succeeded message => CompleteCallback runID token succeeded message
  | RpcAppendRunLogs runID token entries => AppendRunLogs runID token entries
  | RpcListRunLogs tenantID runID after limit => ListRunLogs tenantID runID after limit
  | RpcPurgeRunHistory tenantID jobID before limit => PurgeRunHistory tenantID jobID before limit
  | RpcGetRunReport input => GetRunReport input
  | RpcCreateExecutorGroup group => CreateExecutorGroup group
  | RpcUpdateExecutorGroup group => UpdateExecutorGroup group
  | RpcDeleteExecutorGroup tenantID groupID version => DeleteExecutorGroup tenantID groupID version
  | RpcListExecutorGroups tenantID => ListExecutorGroups tenantID
  | RpcRegisterExecutorNode input => RegisterExecutorNode input
  | RpcUnregisterExecutorNode tenantID groupID nodeID => UnregisterExecutorNode tenantID groupID nodeID
  | RpcListExecutorNodes tenantID groupID liveOnly => ListExecutorNodes tenantID groupID liveOnly
  | RpcCreateNotificationChannel input => CreateNotificationChannel input
  | RpcUpdateNotificationChannel input => UpdateNotificationChannel input
  | RpcSetNotificationChannelEnabled tenantID channelID enabled version => SetNotificationChannelEnabled tenantID channelID enabled version
  | RpcDeleteNotificationChannel tenantID channelID version => DeleteNotificationChannel tenantID channelID version
  | RpcListNotificationChannels tenantID => ListNotificationChannels tenantID
  | RpcListNotificationHistory input => ListNotificationHistory input
  end.
End procedures.
End ControlPlane.
