(* ===== verification/Api.v ===== *)
(** * The HTTP interface

    [internal/api]: requests and responses, who may call what, and one program
    per handler over the procedures of the control plane. *)
From Stdlib Require Import ZArith Lia Ascii String.
From stdpp Require Import base list strings option.
From S2P Require Import Prelude GoStrings GoTime Utf8 Tables Programs JobStore RunLogs JobService Services Operations Engine LoginLimiter Auth Identity ControlPlane.

(** ** Requests *)

(** What the handlers read of a request: the parameters of its route, its query,
    two headers, the cookie of the session, the body. *)
Record http_request := mk_request {
  rq_Method : string; rq_Path : string; rq_Params : list (string * string);
  rq_Query : list (string * string); rq_Authorization : string; rq_Tenant : string;
  rq_Cookie : option string; rq_RemoteAddr : string; rq_Body : string;
}.

(** Metadata of an instance in the service registry. *)
Record Metadata := mk_metadata {
  md_InstanceID : string; md_GRPCAddress : string; md_HTTPAddress : string; md_Version : string;
  md_StartedAt : time; md_Draining : bool;
}.

Module Api.
Import Utf8 Programs JobStore RunLogs JobService Services Operations LoginLimiter Auth Identity ControlPlane.

(** *** Bodies *)

Record kubernetesClusterRequest := mk_cluster_body {
  kb_Name : string; kb_AuthMode : string; kb_APIServer : string; kb_Namespace : string;
  kb_Kubeconfig : string; kb_Token : string; kb_CAData : string; kb_InsecureSkipTLSVerify : bool;
  kb_MaxConcurrentJobs : Z; kb_Version : Z;
}.
Record notificationChannelRequest := mk_channel_body {
  cb_Kind : string; cb_Name : string; cb_Config : string; cb_Events : list string;
  cb_AllJobs : option bool; cb_JobIDs : list string; cb_MaxAttempts : Z;
  cb_BackoffInitialSeconds : Z; cb_BackoffMaxSeconds : Z; cb_Version : Z;
}.
Record group_body := mk_group_body {
  gb_Name : string; gb_RouteStrategy : string; gb_RegistrationMode : string;
  gb_ManualAddresses : list string;
}.
Record preview_body := mk_preview_body {
  vb_ScheduleType : string; vb_ScheduleExpression : string; vb_Timezone : string;
  vb_After : string; vb_Count : Z;
}.

(** The structures that [encoding/json] fills. *)
Inductive shape : Type → Type :=
| CallbackShape : shape (string * bool * string) (* token, succeeded, message *)
| LoginShape : shape (string * string) (* email, password *)
| DisabledShape : shape bool
| UserShape : shape (string * string * bool) (* email, password, platform_admin *)
| TenantShape : shape (string * string) (* name, owner_user_id *)
| RoleShape : shape string
| ClusterShape : shape kubernetesClusterRequest
| GroupShape : shape group_body
| GroupUpdateShape : shape (group_body * Z) (* version *)
| NodeShape : shape (string * Z * list string) (* address, ttl_seconds, labels *)
| KeyShape : shape (string * string) (* name, role *)
| ChannelShape : shape notificationChannelRequest
| EnabledShape : shape (bool * Z) (* enabled, version *)
| RollbackShape : shape (Z * string) (* version, remark *)
| VersionShape : shape Z
| TriggerShape : shape (string * string * list string) (* input, idempotency_key, override_addresses *)
| PreviewShape : shape preview_body
| DependenciesShape : shape (list string)
| PurgeShape : shape (string * string * Z) (* before, job_id, limit *)
| LogsShape : shape (string * list RunLogInput) (* token, entries *)
| ReasonShape : shape string.

(** [encoding/json] on the bytes that can be read of a body, and whether reading
    then fails: an error, or a value and whether nothing follows it; [protojson]
    into and out of messages; the metadata of the registry. *)
Class ApiFormats := {
  json_decode {A} : shape A → string → bool → string + (A * bool);
  protojson_job : string → string + ProtoJob;
  protojson_marshals {B} : rpc B → B → bool;
  decode_metadata : string → option Metadata;
}.

(** ** Responses *)

Record public_cluster := mk_public_cluster {
  xc_id : string; xc_tenant_id : string; xc_name : string; xc_auth_mode : string;
  xc_api_server : string; xc_namespace : string; xc_insecure_skip_tls_verify : bool;
  xc_max_concurrent_jobs : Z; xc_credentials_configured : bool; xc_version : Z;
  xc_created_at : time; xc_updated_at : time;
}.
Record instance := mk_instance {
  in_service : string; in_instance_id : string; in_addresses : option (string * string);
  in_version : string; in_started_at : time; in_draining : bool;
}.

Inductive payload :=
| NoBody
| TextBody (text : string)
| ErrorBody (message : string)
| Message {B} (r : rpc B) (b : B)
| StatusBody (text : string)
| TokenBody (access_token : string) (expires_in : Z)
| MeBody (id email : string) (platform_admin : bool) (tenants : list TenantAccess)
| UsersBody (users : list UserSummary)
| UserBody (id email : string) (platform_admin : bool)
| TenantsBody (tenants : list TenantSummary)
| TenantBody (id name : string)
| MembersBody (members : list MemberSummary)
| InstancesBody (instances : list instance)
| ClustersBody (clusters : list public_cluster)
| ClusterBody (cluster : public_cluster)
| KeysBody (keys : list APIKey)
| KeyBody (id name role token : string) (created_at : time)
| DashboardBody (d : ProtoDashboard).

Record cookie := mk_cookie {
  ck_Name : string; ck_Value : string; ck_Path : string; ck_MaxAge : Z; ck_HttpOnly : bool;
  ck_Secure : bool; ck_SameSiteStrict : bool;
}.
Record response := mk_response {
  ans_Code : Z; ans_Payload : payload; ans_Cookie : option cookie;
}.

Definition writeJSON (code : Z) (v : payload) : response := mk_response code v None.
Definition writeError (code : Z) (message : string) : response := writeJSON code (ErrorBody message).
Definition no_content : response := writeJSON 204 NoBody.
Definition set_cookie (c : cookie) (r : response) : response :=
  mk_response (ans_Code r) (ans_Payload r) (Some c).

(** ** What the handlers ask for *)

Inductive call : Type → Type :=
| Rpc {B} (r : rpc B) : call (status + B)
| ApiNow : call time
| Allow (key : string) : call bool
| ResetAttempts (key : string) : call unit
| Salt : call string
| EtcdGet (prefix : string) : call (option (list (string * string))).
Notation handler := (prog call response).

(** ** The server *)

Record principal := mk_principal {
  pl_TenantID : string; pl_UserID : string; pl_Role : string; pl_PlatformAdmin : bool;
}.
Definition anonymous : principal := mk_principal "" "" "" false.

Record Server := mk_server {
  sv_auth : Manager; sv_cookieSecure : bool; sv_contextPath : string;
  sv_etcd : option string; sv_instances : list instance;
}.

Definition NewServer (manager : Manager) (cookieSecure : list bool) : Server :=
  mk_server manager (match cookieSecure with b :: _ => b | [] => true end) "" None [].
Definition SetStandaloneInstance (instanceID : string) (startedAt : time) (s : Server) : Server :=
  mk_server (sv_auth s) (sv_cookieSecure s) (sv_contextPath s) (sv_etcd s)
    [mk_instance "scheduler-server" instanceID None "dev" startedAt false].
Definition SetDiscovery (prefix : string) (s : Server) : Server :=
  mk_server (sv_auth s) (sv_cookieSecure s) (sv_contextPath s) (Some prefix) (sv_instances s).
Definition SetContextPath (contextPath : string) (s : Server) : Server :=
  mk_server (sv_auth s) (sv_cookieSecure s) contextPath (sv_etcd s) (sv_instances s).

(** [chi.URLParam], [r.URL.Query().Get] *)
Definition value_of (key : string) (l : list (string * string)) : string :=
  match List.find (λ kv, kv.1 ==s key) l with Some kv => kv.2 | None => "" end.
Definition URLParam (rq : http_request) (key : string) : string := value_of key (rq_Params rq).
Definition QueryGet (rq : http_request) (key : string) : string := value_of key (rq_Query rq).

Definition canWriteTenant (p : principal) : bool :=
  (pl_TenantID p !=s "")
  && ((pl_Role p ==s "owner") || (pl_Role p ==s "admin") || (pl_Role p ==s "developer")).
Definition canAdministerTenant (p : principal) : bool :=
  (pl_TenantID p !=s "") && ((pl_Role p ==s "owner") || (pl_Role p ==s "admin")).
Definition canAdministerPlatform (p : principal) : bool := pl_PlatformAdmin p.

(** A guard that writes an error and stops, or lets the handler go on. *)
Definition requireTenant (p : principal) (next : handler) : handler :=
  if pl_TenantID p ==s "" then mret (writeError 400 "X-Tenant-ID is required") else next.
Definition requireTenantWrite (p : principal) (next : handler) : handler :=
  requireTenant p
    (if canWriteTenant p then next else mret (writeError 403 "write permission denied")).
Definition requireTenantAdmin (p : principal) (next : handler) : handler :=
  requireTenant p
    (if canAdministerTenant p then next else mret (writeError 403 "tenant admin permission required")).
Definition requirePlatformAdmin (p : principal) (next : handler) : handler :=
  if canAdministerPlatform p then next else mret (writeError 403 "platform admin required").

Definition bad_request (message : string) : handler := mret (writeError 400 message).

(** [1<<20], the limit of [http.MaxBytesReader] *)
Definition maxBodyBytes : Z := Z.shiftl 1 20.

Section handlers.
Context `{ApiFormats} `{JwtLib} `{Argon2} `{Sha256}.

Definition readable (body : string) : string := String.substring 0 (Z.to_nat maxBodyBytes) body.
Definition cut_short (body : string) : bool := maxBodyBytes <? len body.

(** [decode] into a structure, and into the message of a job. *)
Definition decode {A} (sh : shape A) (rq : http_request) (next : A → handler) : handler :=
  match json_decode sh (readable (rq_Body rq)) (cut_short (rq_Body rq)) with
  | inl err => bad_request ("invalid JSON: " +:+ err)
  | inr (_, false) => bad_request "invalid JSON: request body must contain exactly one JSON value"
  | inr (a, true) => next a
  end.
Definition decode_job (rq : http_request) (next : ProtoJob → handler) : handler :=
  if cut_short (rq_Body rq) then bad_request "invalid JSON: http: request body too large"
  else
    match protojson_job (rq_Body rq) with
    | inl err => bad_request ("invalid JSON: " +:+ err)
    | inr j => next j
    end.

(** [respond(w, nil, err, code)] *)
Definition respond_error (err : status) : response :=
  match err.1 with
  | InvalidArgument => writeError 400 err.2
  | NotFound => writeError 404 "resource not found"
  | Aborted => writeError 409 "resource version conflict"
  | FailedPrecondition => writeError 409 err.2
  | Unavailable => writeError 503 "scheduler core unavailable"
  | ResourceExhausted => writeError 429 err.2
  | _ => writeError 500 "internal error"
  end.
(** [respond(w, out, err, code)] *)
Definition respond {B} (r : rpc B) (out : status + B) (code : Z) : response :=
  match out with
  | inr b => if protojson_marshals r b then writeJSON code (Message r b) else writeError 500 "internal error"
  | inl err => respond_error err
  end.

(** A call whose reply is the response, and one that is examined further. *)
Definition forward {B} (r : rpc B) (code : Z) : handler :=
  out ← effect (Rpc r); mret (respond r out code).
Definition calling {B} (r : rpc B) (failed : status → response) (next : B → handler) : handler :=
  out ← effect (Rpc r);
  match out with inl err => mret (failed err) | inr b => next b end.

(** ** Authentication *)

Definition authenticate (s : Server) (rq : http_request) (next : principal → handler) : handler :=
  let token := TrimPrefix (rq_Authorization rq) "Bearer " in
  if (token ==s "") || (token ==s rq_Authorization rq) then mret (writeError 401 "missing API key")
  else if HasPrefix token "gsk_" then
    calling (RpcAuthenticateAPIKey token) (λ _, writeError 401 "invalid API key")
      (λ '(tenant, role), next (mk_principal tenant "" role false))
  else
    now ← effect ApiNow;
    match Parse (sv_auth s) token now with
    | Err _ => mret (writeError 401 "invalid access token")
    | Ok claims =>
        calling (RpcGetUser (cm_Subject claims)) (λ _, writeError 401 "account unavailable")
          (λ user,
            if pu_Disabled user then mret (writeError 401 "account unavailable")
            else if rq_Tenant rq ==s "" then
              next (mk_principal "" (cm_Subject claims) "" (cm_PlatformAdmin claims))
            else
              calling (RpcGetMembershipRole (rq_Tenant rq) (cm_Subject claims))
                (λ _, writeError 403 "tenant access denied")
                (λ role, next (mk_principal (rq_Tenant rq) (cm_Subject claims) role
                                 (cm_PlatformAdmin claims))))
    end.

(** ** Sessions *)

Definition dummyPasswordHash : string :=
  "$argon2id$v=19$m=65536,t=3,p=2$AAAAAAAAAAAAAAAAAAAAAA$AAAAAAAAAAAAAAAAAAAAAAAAAAAAAAAAAAAAAAAAAAA".

Definition refresh_cookie (s : Server) (value : string) (maxAge : Z) : cookie :=
  mk_cookie "scheduler_refresh" value (sv_contextPath s +:+ "/api/v1/auth") maxAge true
    (sv_cookieSecure s) true.
Definition week : duration := 7 * 24 * hour.
Definition setRefreshCookie (s : Server) (value : string) (ttl : duration) : response → response :=
  set_cookie (refresh_cookie s value (Z.quot ttl second)).
Definition clearRefreshCookie (s : Server) : response → response :=
  set_cookie (refresh_cookie s "" (-1)).

Definition completeCallback (rq : http_request) : handler :=
  decode CallbackShape rq (λ '(token, succeeded, message),
    forward (RpcCompleteCallback (URLParam rq "runID") token succeeded message) 200).

(** An unknown account is checked against a password that nothing matches. *)
Definition login (s : Server) (rq : http_request) : handler :=
  decode LoginShape rq (λ '(email, password),
    let key := loginLimitKey (rq_RemoteAddr rq) email in
    allowed ← effect (Allow key);
    if negb allowed then mret (writeError 429 "too many login attempts")
    else
      found ← effect (Rpc (RpcGetUserByEmail email));
      let passwordHash := match found with inr user => pu_PasswordHash user | inl _ => dummyPasswordHash end in
      let passwordValid := VerifyPassword passwordHash password in
      match found with
      | inl _ => mret (writeError 401 "invalid credentials")
      | inr user =>
          if pu_Disabled user || negb passwordValid then mret (writeError 401 "invalid credentials")
          else
            _ ← effect (ResetAttempts key);
            now ← effect ApiNow;
            let token := Issue (sv_auth s) (pu_Id user) (pu_PlatformAdmin user) now in
            calling (RpcCreateRefreshSession (pu_Id user) (Z.quot week second))
              (λ _, writeError 500 "internal error")
              (λ '(refresh, _), mret (setRefreshCookie s refresh week (writeJSON 200 (TokenBody token 900))))
      end).

Definition refresh (s : Server) (rq : http_request) : handler :=
  match rq_Cookie rq with
  | None => mret (writeError 401 "refresh session required")
  | Some value =>
      calling (RpcRotateRefreshSession value (Z.quot week second))
        (λ _, clearRefreshCookie s (writeError 401 "refresh session expired"))
        (λ '(rotated, userID),
          let unavailable := clearRefreshCookie s (writeError 401 "account unavailable") in
          calling (RpcGetUser userID) (λ _, unavailable)
            (λ user,
              if pu_Disabled user then mret unavailable
              else
                now ← effect ApiNow;
                let token := Issue (sv_auth s) (pu_Id user) (pu_PlatformAdmin user) now in
                mret (setRefreshCookie s rotated week (writeJSON 200 (TokenBody token 900)))))
  end.

Definition logout (s : Server) (rq : http_request) : handler :=
  _ ← (match rq_Cookie rq with
       | Some value => _ ← effect (Rpc (RpcRevokeRefreshSession value)); mret tt
       | None => mret tt
       end);
  mret (clearRefreshCookie s no_content).

Definition me (p : principal) : handler :=
  calling (RpcGetUser (pl_UserID p))
    (λ err, match err.1 with NotFound => writeError 404 "user not found" | _ => respond_error err end)
    (λ user,
      calling (RpcListUserTenants (pu_Id user) (pu_PlatformAdmin user)) respond_error
        (λ tenants, mret (writeJSON 200 (MeBody (pu_Id user) (pu_Email user) (pu_PlatformAdmin user) tenants)))).

Definition ready : handler :=
  calling RpcPing (λ _, writeError 503 "database unavailable") (λ _, mret (writeJSON 200 (StatusBody "ready"))).

(** ** Jobs *)

Definition or_text (d s : string) : string := if s ==s "" then d else s.

Definition applyDefaults (j : ProtoJob) : ProtoJob :=
  mk_pjob (pj_Id j) (pj_TenantId j) (pj_Name j) (pj_Description j) (pj_ScheduleType j)
    (pj_ScheduleExpression j) (or_text "UTC" (pj_Timezone j)) (pj_TargetUrl j)
    (or_text "POST" (pj_HttpMethod j)) (pj_Headers j) (pj_BodyTemplate j)
    (or_default 30 (pj_TimeoutSeconds j)) (pj_MaxRetries j) (or_text "serial" (pj_OverlapPolicy j))
    (or_text "fire_once" (pj_MisfirePolicy j)) (pj_Enabled j) (pj_NextRunAt j) (pj_Version j)
    (or_default 1 (pj_MaxConcurrentRuns j)) (or_default 10 (pj_MaxCatchUp j))
    (or_default 3600 (pj_CallbackTimeoutSeconds j)) (or_default 1000 (pj_MaxQueueSize j))
    (pj_ExecutorGroupId j)
    (if (pj_ExecutorHandler j ==s "") && (pj_TargetUrl j !=s "") && (pj_ScriptLanguage j ==s "")
     then "__http__" else pj_ExecutorHandler j)
    (pj_ScriptLanguage j) (pj_ScriptSource j) (pj_RequiredExecutorLabels j)
    (pj_ExcludedExecutorLabels j) (pj_KubernetesClusterId j) (pj_DockerRegistryAuth j)
    (pj_ClearDockerRegistryAuth j).

(** [job.Id = id; job.TenantId = tenant], [job.Headers = headers] *)
Definition set_owner (id tenant : string) (j : ProtoJob) : ProtoJob :=
  mk_pjob id tenant (pj_Name j) (pj_Description j) (pj_ScheduleType j)
    (pj_ScheduleExpression j) (pj_Timezone j) (pj_TargetUrl j) (pj_HttpMethod j) (pj_Headers j)
    (pj_BodyTemplate j) (pj_TimeoutSeconds j) (pj_MaxRetries j) (pj_OverlapPolicy j)
    (pj_MisfirePolicy j) (pj_Enabled j) (pj_NextRunAt j) (pj_Version j) (pj_MaxConcurrentRuns j)
    (pj_MaxCatchUp j) (pj_CallbackTimeoutSeconds j) (pj_MaxQueueSize j) (pj_ExecutorGroupId j)
    (pj_ExecutorHandler j) (pj_ScriptLanguage j) (pj_ScriptSource j) (pj_RequiredExecutorLabels j)
    (pj_ExcludedExecutorLabels j) (pj_KubernetesClusterId j) (pj_DockerRegistryAuth j)
    (pj_ClearDockerRegistryAuth j).
Definition set_headers (headers : option (list (string * string))) (j : ProtoJob) : ProtoJob :=
  mk_pjob (pj_Id j) (pj_TenantId j) (pj_Name j) (pj_Description j) (pj_ScheduleType j)
    (pj_ScheduleExpression j) (pj_Timezone j) (pj_TargetUrl j) (pj_HttpMethod j) headers
    (pj_BodyTemplate j) (pj_TimeoutSeconds j) (pj_MaxRetries j) (pj_OverlapPolicy j)
    (pj_MisfirePolicy j) (pj_Enabled j) (pj_NextRunAt j) (pj_Version j) (pj_MaxConcurrentRuns j)
    (pj_MaxCatchUp j) (pj_CallbackTimeoutSeconds j) (pj_MaxQueueSize j) (pj_ExecutorGroupId j)
    (pj_ExecutorHandler j) (pj_ScriptLanguage j) (pj_ScriptSource j) (pj_RequiredExecutorLabels j)
    (pj_ExcludedExecutorLabels j) (pj_KubernetesClusterId j) (pj_DockerRegistryAuth j)
    (pj_ClearDockerRegistryAuth j).

Definition createJob (p : principal) (rq : http_request) : handler :=
  requireTenantWrite p (decode_job rq (λ job,
    forward (RpcCreateJob (Some (applyDefaults (set_owner (pj_Id job) (pl_TenantID p) job)))) 201)).
Definition getJob (p : principal) (rq : http_request) : handler :=
  forward (RpcGetJob (pl_TenantID p) (URLParam rq "id")) 200.
Definition listJobs (p : principal) (rq : http_request) : handler :=
  forward (RpcListJobs (pl_TenantID p) 50) 200.

(** Without headers in the request those of the job are kept. *)
Definition updateJob (p : principal) (rq : http_request) : handler :=
  requireTenantWrite p (decode_job rq (λ job,
    let job := set_owner (URLParam rq "id") (pl_TenantID p) job in
    let update job := forward (RpcUpdateJob (Some (applyDefaults job))) 200 in
    match pj_Headers job with
    | Some _ => update job
    | None =>
        calling (RpcGetJob (pj_TenantId job) (pj_Id job)) respond_error
          (λ existing, update (set_headers (pj_Headers existing) job))
    end)).
Definition listJobScriptVersions (p : principal) (rq : http_request) : handler :=
  forward (RpcListJobScriptVersions (pl_TenantID p) (URLParam rq "id")) 200.
Definition rollbackJobScriptVersion (p : principal) (rq : http_request) : handler :=
  requireTenantWrite p (decode RollbackShape rq (λ '(version, remark),
    forward (RpcRollbackJobScriptVersion (pl_TenantID p) (URLParam rq "id") (URLParam rq "versionID")
               version remark) 200)).
Definition deleteJob (p : principal) (rq : http_request) : handler :=
  requireTenantWrite p (decode VersionShape rq (λ version,
    calling (RpcDeleteJob (pl_TenantID p) (URLParam rq "id") version) respond_error
      (λ _, mret no_content))).
Definition setJobEnabled (enabled : bool) (p : principal) (rq : http_request) : handler :=
  requireTenantWrite p (decode VersionShape rq (λ version,
    forward (RpcSetJobEnabled (pl_TenantID p) (URLParam rq "id") enabled version) 200)).
Definition startJob : principal → http_request → handler := setJobEnabled true.
Definition stopJob : principal → http_request → handler := setJobEnabled false.
Definition triggerJob (p : principal) (rq : http_request) : handler :=
  requireTenantWrite p (decode TriggerShape rq (λ '(input, key, override),
    forward (RpcTriggerJob (pl_TenantID p) (URLParam rq "id") key input override) 202)).
Definition previewSchedule (rq : http_request) : handler :=
  decode PreviewShape rq (λ body,
    let preview after :=
      forward (RpcPreviewSchedule (mk_preview (vb_ScheduleType body) (vb_ScheduleExpression body)
                 (vb_Timezone body) after (vb_Count body))) 200 in
    if vb_After body ==s "" then preview None
    else match parse_rfc3339 (vb_After body) with
         | None => bad_request "after must be RFC3339"
         | Some after => preview (Some after)
         end).
Definition getJobDependencies (p : principal) (rq : http_request) : handler :=
  forward (RpcGetJobDependencies (pl_TenantID p) (URLParam rq "id")) 200.
Definition setJobDependencies (p : principal) (rq : http_request) : handler :=
  requireTenantWrite p (decode DependenciesShape rq (λ children,
    forward (RpcSetJobDependencies (pl_TenantID p) (URLParam rq "id") children) 200)).

(** ** Runs *)

Definition dashboard (p : principal) (rq : http_request) : handler :=
  requireTenant p (calling (RpcGetDashboard (pl_TenantID p)) respond_error
    (λ d, mret (writeJSON 200 (DashboardBody d)))).
Definition runReport (p : principal) (rq : http_request) : handler :=
  requireTenant p (forward (RpcGetRunReport (mk_report_input (pl_TenantID p) (QueryGet rq "from")
    (QueryGet rq "to") (QueryGet rq "timezone"))) 200).
Definition purgeRunHistory (p : principal) (rq : http_request) : handler :=
  requireTenantWrite p (decode PurgeShape rq (λ '(before, jobID, limit),
    match parse_rfc3339 before with
    | None => bad_request "before must be an RFC3339 timestamp"
    | Some before => forward (RpcPurgeRunHistory (pl_TenantID p) jobID (Some before) limit) 200
    end)).
Definition listRuns (p : principal) (rq : http_request) : handler :=
  forward (RpcListRuns (pl_TenantID p) (QueryGet rq "job_id") (QueryGet rq "broadcast_group_id") 50) 200.
Definition getRun (p : principal) (rq : http_request) : handler :=
  forward (RpcGetRun (pl_TenantID p) (URLParam rq "id")) 200.
Definition appendRunLogs (rq : http_request) : handler :=
  decode LogsShape rq (λ '(token, entries),
    forward (RpcAppendRunLogs (URLParam rq "runID") token entries) 202).

(** [strconv.ParseInt(s, 10, 32)] *)
Definition ParseInt32 (s : string) : option Z :=
  v ← ParseInt s; if (- 2 ^ 31 <=? v) && (v <? 2 ^ 31) then Some v else None.
Definition listRunLogs (p : principal) (rq : http_request) : handler :=
  let after := if QueryGet rq "after" ==s "" then Some 0 else ParseInt (QueryGet rq "after") in
  match after with
  | None => bad_request "after must be a non-negative integer"
  | Some after =>
      if after <? 0 then bad_request "after must be a non-negative integer"
      else
        let limit := if QueryGet rq "limit" ==s "" then Some 100 else ParseInt32 (QueryGet rq "limit") in
        match limit with
        | None => bad_request "limit must be between 1 and 500"
        | Some limit =>
            if (limit <? 1) || (500 <? limit) then bad_request "limit must be between 1 and 500"
            else forward (RpcListRunLogs (pl_TenantID p) (URLParam rq "id") after limit) 200
        end
  end.
Definition cancelRun (p : principal) (rq : http_request) : handler :=
  requireTenantWrite p (decode ReasonShape rq (λ reason,
    forward (RpcCancelRun (pl_TenantID p) (URLParam rq "id") reason) 200)).

(** ** Executors *)

Definition group_message (id tenant : string) (body : group_body) (version : Z) : ProtoGroup :=
  mk_pgroup id tenant (gb_Name body) (gb_RouteStrategy body) version (gb_RegistrationMode body)
    (gb_ManualAddresses body).
Definition createExecutorGroup (p : principal) (rq : http_request) : handler :=
  requireTenantWrite p (decode GroupShape rq (λ body,
    forward (RpcCreateExecutorGroup (Some (group_message "" (pl_TenantID p) body 0))) 201)).
Definition updateExecutorGroup (p : principal) (rq : http_request) : handler :=
  requireTenantWrite p (decode GroupUpdateShape rq (λ '(body, version),
    forward (RpcUpdateExecutorGroup (Some (group_message (URLParam rq "id") (pl_TenantID p) body version))) 200)).

(** The version in the query, which the caller must name. *)
Definition positive_version (rq : http_request) (message : string) (next : Z → handler) : handler :=
  match ParseInt (QueryGet rq "version") with
  | None => bad_request message
  | Some version => if version <? 1 then bad_request message else next version
  end.
Definition deleteExecutorGroup (p : principal) (rq : http_request) : handler :=
  requireTenantWrite p (positive_version rq "version must be a positive integer" (λ version,
    calling (RpcDeleteExecutorGroup (pl_TenantID p) (URLParam rq "id") version) respond_error
      (λ _, mret no_content))).
Definition listExecutorGroups (p : principal) (rq : http_request) : handler :=
  forward (RpcListExecutorGroups (pl_TenantID p)) 200.
Definition registerExecutorNode (p : principal) (rq : http_request) : handler :=
  requireTenantWrite p (decode NodeShape rq (λ '(address, ttl, labels),
    forward (RpcRegisterExecutorNode (mk_register (pl_TenantID p) (URLParam rq "id")
               (URLParam rq "nodeID") address ttl labels)) 200)).
Definition unregisterExecutorNode (p : principal) (rq : http_request) : handler :=
  requireTenantWrite p
    (calling (RpcUnregisterExecutorNode (pl_TenantID p) (URLParam rq "id") (URLParam rq "nodeID"))
       respond_error (λ _, mret no_content)).
Definition listExecutorNodes (p : principal) (rq : http_request) : handler :=
  forward (RpcListExecutorNodes (pl_TenantID p) (URLParam rq "id") (QueryGet rq "live_only" !=s "false")) 200.

(** ** Kubernetes clusters *)

(** A timestamp message that is absent reads as the epoch. *)
Definition AsTime (t : option time) : time := default (unix_epoch * second) t.
Definition publicKubernetesCluster (c : ProtoCluster) : public_cluster :=
  mk_public_cluster (pc_Id c) (pc_TenantId c) (pc_Name c) (pc_AuthMode c) (pc_ApiServer c)
    (pc_Namespace c) (pc_InsecureSkipTlsVerify c) (pc_MaxConcurrentJobs c) true (pc_Version c)
    (AsTime (pc_CreatedAt c)) (AsTime (pc_UpdatedAt c)).
Definition clusterFromRequest (tenant id : string) (body : kubernetesClusterRequest) : ProtoCluster :=
  mk_pcluster id tenant (kb_Name body) (kb_AuthMode body) (kb_APIServer body) (kb_Namespace body)
    (TrimSpace (kb_Kubeconfig body)) (TrimSpace (kb_Token body)) (TrimSpace (kb_CAData body))
    (kb_InsecureSkipTLSVerify body) (kb_MaxConcurrentJobs body) (kb_Version body) None None.

Definition listKubernetesClusters (p : principal) (rq : http_request) : handler :=
  requireTenant p (calling (RpcListKubernetesClusters (pl_TenantID p)) respond_error
    (λ clusters, mret (writeJSON 200 (ClustersBody (map publicKubernetesCluster clusters))))).
Definition getKubernetesCluster (p : principal) (rq : http_request) : handler :=
  calling (RpcGetKubernetesCluster (pl_TenantID p) (URLParam rq "id"))
    (λ err, match err.1 with
            | NotFound => writeError 404 "kubernetes cluster not found"
            | _ => respond_error err
            end)
    (λ cluster, mret (writeJSON 200 (ClusterBody (publicKubernetesCluster cluster)))).
Definition createKubernetesCluster (p : principal) (rq : http_request) : handler :=
  requireTenantAdmin p (decode ClusterShape rq (λ body,
    calling (RpcCreateKubernetesCluster (Some (clusterFromRequest (pl_TenantID p) "" body)))
      (λ err, match err.1 with InvalidArgument => writeError 400 err.2 | _ => respond_error err end)
      (λ cluster, mret (writeJSON 201 (ClusterBody (publicKubernetesCluster cluster)))))).
Definition updateKubernetesCluster (p : principal) (rq : http_request) : handler :=
  requireTenantAdmin p (decode ClusterShape rq (λ body,
    calling (RpcUpdateKubernetesCluster (Some (clusterFromRequest (pl_TenantID p) (URLParam rq "id") body)))
      (λ err, match err.1 with
              | NotFound => writeError 404 "kubernetes cluster not found"
              | Aborted => writeError 409 "kubernetes cluster version conflict"
              | InvalidArgument => writeError 400 err.2
              | _ => respond_error err
              end)
      (λ cluster, mret (writeJSON 200 (ClusterBody (publicKubernetesCluster cluster)))))).
Definition deleteKubernetesCluster (p : principal) (rq : http_request) : handler :=
  requireTenantAdmin p
    (match ParseInt (QueryGet rq "version") with
     | None => bad_request "version is required"
     | Some version =>
         calling (RpcDeleteKubernetesCluster (pl_TenantID p) (URLParam rq "id") version)
           (λ err, match err.1 with
                   | FailedPrecondition => writeError 409 "kubernetes cluster is referenced by a job"
                   | Aborted | NotFound => writeError 409 "kubernetes cluster version conflict"
                   | _ => respond_error err
                   end)
           (λ _, mret no_content)
     end).

(** ** API keys and notification channels *)

Definition listAPIKeys (p : principal) (rq : http_request) : handler :=
  requireTenantAdmin p (calling (RpcListAPIKeys (pl_TenantID p)) respond_error
    (λ keys, mret (writeJSON 200 (KeysBody keys)))).

(** Only an owner makes keys of owners and administrators. *)
Definition createAPIKey (p : principal) (rq : http_request) : handler :=
  requireTenantAdmin p (decode KeyShape rq (λ '(name, role),
    if negb (one_of role roles) then bad_request "invalid role"
    else if (pl_Role p !=s "owner") && ((role ==s "owner") || (role ==s "admin"))
    then mret (writeError 403 "cannot grant a role equal to or above your own")
    else
      calling (RpcCreateAPIKey (pl_TenantID p) name role) respond_error
        (λ '(key, token), mret (writeJSON 201 (KeyBody (AK_ID key) (AK_Name key) (AK_Role key) token
                                                 (AK_CreatedAt key)))))).
Definition revokeAPIKey (p : principal) (rq : http_request) : handler :=
  requireTenantAdmin p (calling (RpcRevokeAPIKey (pl_TenantID p) (URLParam rq "id"))
    (λ err, match err.1 with NotFound => writeError 404 "API key not found" | _ => respond_error err end)
    (λ _, mret no_content)).

Definition listNotificationChannels (p : principal) (rq : http_request) : handler :=
  requireTenant p (forward (RpcListNotificationChannels (pl_TenantID p)) 200).
Definition channel_message (tenant id : string) (body : notificationChannelRequest) (version : Z)
    : NotificationChannelInput :=
  mk_channel_input tenant id (cb_Kind body) (cb_Name body) (cb_Config body) (cb_Events body)
    (cb_JobIDs body) (default (Nat.eqb (length (cb_JobIDs body)) 0) (cb_AllJobs body))
    (cb_MaxAttempts body) (cb_BackoffInitialSeconds body) (cb_BackoffMaxSeconds body) version.
Definition createNotificationChannel (p : principal) (rq : http_request) : handler :=
  requireTenantWrite p (decode ChannelShape rq (λ body,
    forward (RpcCreateNotificationChannel (channel_message (pl_TenantID p) "" body 0)) 201)).
Definition updateNotificationChannel (p : principal) (rq : http_request) : handler :=
  requireTenantWrite p (decode ChannelShape rq (λ body,
    forward (RpcUpdateNotificationChannel (channel_message (pl_TenantID p) (URLParam rq "id") body
               (cb_Version body))) 200)).
Definition setNotificationChannelEnabled (p : principal) (rq : http_request) : handler :=
  requireTenantWrite p (decode EnabledShape rq (λ '(enabled, version),
    forward (RpcSetNotificationChannelEnabled (pl_TenantID p) (URLParam rq "id") enabled version) 200)).
Definition deleteNotificationChannel (p : principal) (rq : http_request) : handler :=
  requireTenantWrite p (positive_version rq "positive version is required" (λ version,
    forward (RpcDeleteNotificationChannel (pl_TenantID p) (URLParam rq "id") version) 200)).
Definition listNotificationHistory (p : principal) (rq : http_request) : handler :=
  requireTenant p
    (match (if QueryGet rq "limit" ==s "" then Some 100 else ParseInt32 (QueryGet rq "limit")) with
     | None => bad_request "invalid limit"
     | Some limit =>
         if (limit <? 1) || (500 <? limit) then bad_request "limit must be between 1 and 500"
         else forward (RpcListNotificationHistory (mk_history_input (pl_TenantID p)
                (QueryGet rq "channel_id") (QueryGet rq "job_id") (QueryGet rq "status")
                (QueryGet rq "cursor") limit)) 200
     end).

(** ** The platform *)

(** An absent time of creation reads as the zero time. *)
Definition user_summary (u : ProtoUser) : UserSummary :=
  mk_UserSummary (pu_Id u) (pu_Email u) (pu_PlatformAdmin u) (pu_Disabled u) (default 0 (pu_CreatedAt u)).
Definition listUsers (p : principal) (rq : http_request) : handler :=
  requirePlatformAdmin p (calling RpcListUsers respond_error
    (λ users, mret (writeJSON 200 (UsersBody (map user_summary users))))).
Definition patchUser (p : principal) (rq : http_request) : handler :=
  requirePlatformAdmin p (decode DisabledShape rq (λ disabled,
    calling (RpcSetUserDisabled (URLParam rq "id") disabled) respond_error (λ _, mret no_content))).
Definition listTenants (p : principal) (rq : http_request) : handler :=
  requirePlatformAdmin p (calling RpcListTenants respond_error
    (λ tenants, mret (writeJSON 200 (TenantsBody tenants)))).

(** [strings.Trim(key, "/")] *)
Fixpoint TrimLeftSlash (s : string) : string :=
  match s with String "/" s' => TrimLeftSlash s' | _ => s end.
(** The instance that an entry of the registry describes, if it does; [None] where
    the index of the service's name is out of range. *)
Definition registered (kv : string * string) : option (list instance) :=
  match decode_metadata kv.2 with
  | None => Some []
  | Some md =>
      let parts := Split (TrimRightSlash (TrimLeftSlash kv.1)) "/" in
      match parts with
      | _ :: _ :: _ =>
          service ← parts !! (length parts - 2)%nat;
          Some [mk_instance service (md_InstanceID md) (Some (md_GRPCAddress md, md_HTTPAddress md))
                  (md_Version md) (md_StartedAt md) (md_Draining md)]
      | _ => None
      end
  end.
(** A panic is answered by the middleware [recoverer]. *)
Definition panicked : response := writeError 500 "internal error".
Definition listInstances (s : Server) (p : principal) (rq : http_request) : handler :=
  requirePlatformAdmin p
    (match sv_etcd s with
     | None => mret (writeJSON 200 (InstancesBody (sv_instances s)))
     | Some prefix =>
         found ← effect (EtcdGet (prefix +:+ "/"));
         match found with
         | None => mret (writeError 503 "service discovery unavailable")
         | Some kvs =>
             mret (match mapM registered kvs with
                   | Some instances => writeJSON 200 (InstancesBody (concat instances))
                   | None => panicked
                   end)
         end
     end).

Definition listMembers (p : principal) (rq : http_request) : handler :=
  requirePlatformAdmin p (calling (RpcListTenantMembers (URLParam rq "tenantID")) respond_error
    (λ members, mret (writeJSON 200 (MembersBody members)))).
Definition deleteMembership (p : principal) (rq : http_request) : handler :=
  requirePlatformAdmin p
    (calling (RpcDeleteMembership (URLParam rq "tenantID") (URLParam rq "userID"))
       (λ err, match err.1 with
               | Aborted => writeError 409 "cannot remove the last owner"
               | _ => respond_error err
               end)
       (λ _, mret no_content)).
Definition createUser (p : principal) (rq : http_request) : handler :=
  requirePlatformAdmin p (decode UserShape rq (λ '(email, password, admin),
    salt ← effect Salt;
    match HashPassword password salt with
    | Err err => bad_request (error_text err)
    | Ok hash =>
        calling (RpcCreateUser email hash admin) (λ _, writeError 409 "user already exists")
          (λ user, mret (writeJSON 201 (UserBody (pu_Id user) (pu_Email user) (pu_PlatformAdmin user))))
    end)).
Definition createTenant (p : principal) (rq : http_request) : handler :=
  requirePlatformAdmin p (decode TenantShape rq (λ '(name, owner),
    calling (RpcCreateTenant name) respond_error (λ '(tenant, _),
      let created := mret (writeJSON 201 (TenantBody tenant name)) in
      if owner ==s "" then created
      else calling (RpcAddMembership tenant owner "owner") respond_error (λ _, created)))).
Definition putMembership (p : principal) (rq : http_request) : handler :=
  requirePlatformAdmin p (decode RoleShape rq (λ role,
    if negb (one_of role roles) then bad_request "invalid role"
    else calling (RpcAddMembership (URLParam rq "tenantID") (URLParam rq "userID") role) respond_error
           (λ _, mret no_content))).
End handlers.

(** ** Routes *)

(** Where a route is registered: with the public ones, behind [authenticate], or in
    one of the three groups with a further guard. *)
Inductive access := Public | Authenticated | TenantWriter | TenantAdmin | PlatformAdmin.
Record route := mk_route {
  ro_Method : string; ro_Pattern : string; ro_Access : access;
  ro_Handler : principal → http_request → handler;
}.

(** [chi]: of the registered methods and patterns, the one that a request matches,
    with its parameters; otherwise whether the path lies under [/api/v1], and the
    code to answer.  [promhttp.Handler] answers for [/metrics] with a text. *)
Inductive routed := Matched (i : nat) (params : list (string * string)) | Unmatched (mounted : bool) (code : Z).
Class Router := {
  chi_route : list (string * string) → http_request → routed;
  metrics : Z * string;
}.

Section routes.
Context `{ApiFormats} `{JwtLib} `{Argon2} `{Sha256} `{Router} (s : Server).

Definition registerPublicRoutes : list route :=
  [ mk_route "GET" "/health/live" Public (λ _ _, mret (writeJSON 200 (StatusBody "ok")));
    mk_route "GET" "/health/ready" Public (λ _ _, ready);
    mk_route "" "/metrics" Public (λ _ _, mret (writeJSON metrics.1 (TextBody metrics.2)));
    mk_route "POST" "/api/v1/callbacks/{runID}" Public (λ _, completeCallback);
    mk_route "POST" "/api/v1/runs/{runID}/logs" Public (λ _, appendRunLogs);
    mk_route "POST" "/api/v1/auth/login" Public (λ _, login s);
    mk_route "POST" "/api/v1/auth/refresh" Public (λ _, refresh s);
    mk_route "POST" "/api/v1/auth/logout" Public (λ _, logout s) ].

Definition registerTenantReadRoutes : list route :=
  [ mk_route "GET" "/jobs" Authenticated listJobs;
    mk_route "GET" "/jobs/{id}" Authenticated getJob;
    mk_route "GET" "/jobs/{id}/script-versions" Authenticated listJobScriptVersions;
    mk_route "GET" "/jobs/{id}/dependencies" Authenticated getJobDependencies;
    mk_route "GET" "/runs" Authenticated listRuns;
    mk_route "GET" "/runs/{id}" Authenticated getRun;
    mk_route "GET" "/runs/{id}/logs" Authenticated listRunLogs;
    mk_route "GET" "/executor-groups" Authenticated listExecutorGroups;
    mk_route "GET" "/executor-groups/{id}/nodes" Authenticated listExecutorNodes;
    mk_route "GET" "/kubernetes-clusters" Authenticated listKubernetesClusters;
    mk_route "GET" "/kubernetes-clusters/{id}" Authenticated getKubernetesCluster;
    mk_route "GET" "/notification-channels" Authenticated listNotificationChannels;
    mk_route "GET" "/notification-history" Authenticated listNotificationHistory ].

Definition registerTenantWriteRoutes : list route :=
  [ mk_route "POST" "/jobs" TenantWriter createJob;
    mk_route "PUT" "/jobs/{id}" TenantWriter updateJob;
    mk_route "POST" "/jobs/{id}/script-versions/{versionID}/rollback" TenantWriter rollbackJobScriptVersion;
    mk_route "POST" "/jobs/{id}/start" TenantWriter startJob;
    mk_route "POST" "/jobs/{id}/stop" TenantWriter stopJob;
    mk_route "DELETE" "/jobs/{id}" TenantWriter deleteJob;
    mk_route "POST" "/jobs/{id}/trigger" TenantWriter triggerJob;
    mk_route "PUT" "/jobs/{id}/dependencies" TenantWriter setJobDependencies;
    mk_route "POST" "/runs/purge" TenantWriter purgeRunHistory;
    mk_route "POST" "/runs/{id}/cancel" TenantWriter cancelRun;
    mk_route "POST" "/executor-groups" TenantWriter createExecutorGroup;
    mk_route "PUT" "/executor-groups/{id}" TenantWriter updateExecutorGroup;
    mk_route "DELETE" "/executor-groups/{id}" TenantWriter deleteExecutorGroup;
    mk_route "PUT" "/executor-groups/{id}/nodes/{nodeID}" TenantWriter registerExecutorNode;
    mk_route "DELETE" "/executor-groups/{id}/nodes/{nodeID}" TenantWriter unregisterExecutorNode;
    mk_route "POST" "/notification-channels" TenantWriter createNotificationChannel;
    mk_route "PUT" "/notification-channels/{id}" TenantWriter updateNotificationChannel;
    mk_route "PUT" "/notification-channels/{id}/enabled" TenantWriter setNotificationChannelEnabled;
    mk_route "DELETE" "/notification-channels/{id}" TenantWriter deleteNotificationChannel ].

Definition registerTenantAdminRoutes : list route :=
  [ mk_route "POST" "/kubernetes-clusters" TenantAdmin createKubernetesCluster;
    mk_route "PUT" "/kubernetes-clusters/{id}" TenantAdmin updateKubernetesCluster;
    mk_route "DELETE" "/kubernetes-clusters/{id}" TenantAdmin deleteKubernetesCluster;
    mk_route "GET" "/api-keys" TenantAdmin listAPIKeys;
    mk_route "POST" "/api-keys" TenantAdmin createAPIKey;
    mk_route "DELETE" "/api-keys/{id}" TenantAdmin revokeAPIKey ].

Definition registerPlatformAdminRoutes : list route :=
  [ mk_route "POST" "/platform/users" PlatformAdmin createUser;
    mk_route "GET" "/platform/users" PlatformAdmin listUsers;
    mk_route "PATCH" "/platform/users/{id}" PlatformAdmin patchUser;
    mk_route "POST" "/platform/tenants" PlatformAdmin createTenant;
    mk_route "GET" "/platform/tenants" PlatformAdmin listTenants;
    mk_route "GET" "/platform/instances" PlatformAdmin (listInstances s);
    mk_route "PUT" "/platform/tenants/{tenantID}/members/{userID}" PlatformAdmin putMembership;
    mk_route "GET" "/platform/tenants/{tenantID}/members" PlatformAdmin listMembers;
    mk_route "DELETE" "/platform/tenants/{tenantID}/members/{userID}" PlatformAdmin deleteMembership ].

Definition registerAuthenticatedRoutes : list route :=
  [ mk_route "GET" "/auth/me" Authenticated (λ p _, me p);
    mk_route "GET" "/dashboard" Authenticated dashboard;
    mk_route "GET" "/reports/runs" Authenticated runReport;
    mk_route "POST" "/schedules/preview" Authenticated (λ _, previewSchedule) ]
  ++ registerTenantReadRoutes ++ registerTenantWriteRoutes ++ registerTenantAdminRoutes
  ++ registerPlatformAdminRoutes.

Definition under (prefix : string) (r : route) : route :=
  mk_route (ro_Method r) (prefix +:+ ro_Pattern r) (ro_Access r) (ro_Handler r).
Definition Routes : list route :=
  map (under (sv_contextPath s))
    (registerPublicRoutes ++ map (under "/api/v1") registerAuthenticatedRoutes).

(** The middleware of the group of a route. *)
Definition guarded_by (a : access) (rq : http_request) (h : principal → handler) : handler :=
  match a with
  | Public => h anonymous
  | Authenticated => authenticate s rq h
  | TenantWriter => authenticate s rq (λ p, requireTenantWrite p (h p))
  | TenantAdmin => authenticate s rq (λ p, requireTenantAdmin p (h p))
  | PlatformAdmin => authenticate s rq (λ p, requirePlatformAdmin p (h p))
  end.

Definition with_params (params : list (string * string)) (rq : http_request) : http_request :=
  mk_request (rq_Method rq) (rq_Path rq) params (rq_Query rq) (rq_Authorization rq) (rq_Tenant rq)
    (rq_Cookie rq) (rq_RemoteAddr rq) (rq_Body rq).
Definition not_found (code : Z) : response :=
  writeJSON code (if code =? 404 then TextBody "404 page not found" else NoBody).

Definition ServeHTTP (rq : http_request) : handler :=
  match chi_route (map (λ r, (ro_Method r, ro_Pattern r)) Routes) rq with
  | Unmatched mounted code =>
      if mounted then authenticate s rq (λ _, mret (not_found code)) else mret (not_found code)
  | Matched i params =>
      match Routes !! i with
      | Some r => guarded_by (ro_Access r) rq (λ p, ro_Handler r p (with_params params rq))
      | None => mret (not_found 404)
      end
  end.
End routes.
End Api.
