(* ===== verification/Registrars.v ===== *)
(** * The registrars of executors

    [pkg/executor]: the registrar over HTTP ([heartbeat.go]) and over gRPC
    ([grpc_registrar.go]), which renew the registration of a node until their context
    ends and then withdraw it, and the reporter of a run ([grpc_reporter.go]). *)
From Stdlib Require Import ZArith Lia Ascii String.
From stdpp Require Import base list strings.
From S2P Require Import Prelude GoStrings GoUrl Utf8 GoNet GoJson Tables Programs Traces Executors Samples ExecutorStore RunLogs Handlers JobService JobServiceScenario Services.

Module Registrars.
Import GoUrl Utf8 GoNet GoJson Programs JobService Services.
Notation Request := Handlers.Request.
Notation Response := Handlers.Response.

(** ** The standard library *)

(** [url.PathEscape] *)
Definition kept_in_segment (c : ascii) : bool := alnum c || ContainsChar "-_.~$&+:=@" c.
Definition upper_hex (n : nat) : ascii := if (n <? 10)%nat then ascii_of_nat (48 + n) else ascii_of_nat (55 + n).
Fixpoint PathEscape (s : string) : string :=
  match s with
  | EmptyString => ""
  | String c rest =>
      if kept_in_segment c then String c (PathEscape rest)
      else String "%" (String (upper_hex (nat_of_ascii c / 16)) (String (upper_hex (nat_of_ascii c mod 16)) (PathEscape rest)))
  end.
Example path_escape_examples :
  PathEscape "a/b c" = "a%2Fb%20c" ∧ PathEscape "n-1_x.y~z@1" = "n-1_x.y~z@1" ∧ PathEscape "?;," = "%3F%3B%2C".
Proof. by vm_compute. Qed.

(** A slice of strings in JSON, [null] when it is nil. *)
Definition json_strings (l : option (list string)) : string :=
  match l with
  | None => "null"
  | Some l => "[" +:+ Join (map json_string l) "," +:+ "]"
  end.

(** What a registrar asks for.  [Send] tells whether the request is under the context
    of the shutdown, [NextTick] is [false] when the context ends. *)
Inductive beat : Type → Type :=
| Send (shutdown : bool) (r : Request) : beat (result Response)
| NextTick (interval : duration) : beat bool
| CallRegister (input : RegisterExecutorNodeInput) : beat (option error)
| CallUnregister (tenantID groupID nodeID : string) : beat (option error)
| Warn (err : error) : beat unit
| NewUUID : beat string
| CallAppendRunLogs (runID token : string) (entries : list RunLogs.RunLogInput) : beat (option error)
| CallCompleteCallback (runID token : string) (succeeded : bool) (message : string) : beat (option error).
Notation beating := (prog beat).

(** ** Over HTTP *)

Record RegistrarOptions := mk_options {
  ro_APIURL : string; ro_Token : string; ro_GroupID : string; ro_NodeID : string; ro_Address : string;
  ro_TTL : duration; ro_Labels : option (list string);
}.
Record Registrar := mk_registrar { rr_options : RegistrarOptions; rr_endpoint : string }.

Section http.
Context `{IPLiterals}.

Definition NewRegistrar (options : RegistrarOptions) : result Registrar :=
  _ ← (match Parse (ro_APIURL options) with
       | Ok api => reject ((url_Scheme api ==s "") || (url_Host api ==s "")
                           || ((url_Scheme api !=s "http") && (url_Scheme api !=s "https")))
                     "API URL must be absolute HTTP(S)"
       | Err _ => Err (ErrMsg "API URL must be absolute HTTP(S)")
       end);
  _ ← (match Parse (ro_Address options) with
       | Ok address => reject ((url_Scheme address ==s "") || (url_Host address ==s "")
                           || ((url_Scheme address !=s "http") && (url_Scheme address !=s "https")
                               && (url_Scheme address !=s "grpc") && (url_Scheme address !=s "grpcs"))
                           || url_User address)
                     "executor address must be an absolute HTTP(S) or gRPC URL"
       | Err _ => Err (ErrMsg "executor address must be an absolute HTTP(S) or gRPC URL")
       end);
  _ ← reject ((TrimSpace (ro_Token options) ==s "") || (TrimSpace (ro_GroupID options) ==s "")
              || (TrimSpace (ro_NodeID options) ==s "")) "token, group ID, and node ID are required";
  _ ← reject ((ro_TTL options <? 5 * second) || (300 * second <? ro_TTL options)) "TTL must be between 5 and 300 seconds";
  Ok (mk_registrar options
        (TrimRightSlash (ro_APIURL options) +:+ "/api/v1/executor-groups/" +:+ PathEscape (ro_GroupID options)
         +:+ "/nodes/" +:+ PathEscape (ro_NodeID options))).

(** A request, and what becomes of its response. *)
Definition exchange (shutdown : bool) (what : string) (r : Request) : beating (option error) :=
  match Parse (Handlers.req_URL r) with
  | Err err => mret (Some err)
  | Ok _ =>
      response ← effect (Send shutdown r);
      mret (match response with
            | Err err => Some err
            | Ok response =>
                let body := str_take 4096 (Handlers.sm_bytes (Handlers.rs_Body response)) in
                if (Handlers.StatusCode response <? 200) || (300 <=? Handlers.StatusCode response)
                then Some (ErrMsg (what +:+ " returned HTTP " +:+ Itoa (Handlers.StatusCode response) +:+ ": " +:+ TrimSpace body))
                else None
            end)
  end.

Definition unregister (r : Registrar) : beating (option error) :=
  exchange true "executor unregistration"
    (Handlers.mk_request "DELETE" (rr_endpoint r)
       (header_set [] "Authorization" ("Bearer " +:+ ro_Token (rr_options r))) "").

Definition heartbeat_payload (r : Registrar) : string :=
  "{" +:+ json_field "address" (json_string (TrimRightSlash (ro_Address (rr_options r))))
  +:+ "," +:+ json_field "labels" (json_strings (ro_Labels (rr_options r)))
  +:+ "," +:+ json_field "ttl_seconds" (Itoa (ro_TTL (rr_options r) / second)) +:+ "}".
Definition heartbeat (r : Registrar) : beating (option error) :=
  exchange false "executor registration"
    (Handlers.mk_request "PUT" (rr_endpoint r)
       (header_set (header_set [] "Authorization" ("Bearer " +:+ ro_Token (rr_options r))) "Content-Type" "application/json")
       (heartbeat_payload r)).

(** The loop, for [fuel] heartbeats at most, and [unregister] when it returns. *)
Fixpoint beats (fuel : nat) (r : Registrar) : beating bool :=
  match fuel with
  | O => mret false
  | S fuel =>
      _ ← heartbeat r;
      more ← effect (NextTick (ro_TTL (rr_options r) / 3));
      if (more : bool) then beats fuel r else mret true
  end.
Definition Run (fuel : nat) (r : Registrar) : beating bool :=
  ended ← beats fuel r;
  if (ended : bool) then _ ← unregister r; mret true else mret false.
End http.

(** ** Over gRPC *)

Record GRPCRegistrarOptions := mk_grpc_options {
  go_TenantID : string; go_GroupID : string; go_NodeID : string; go_Address : string;
  go_TTL : duration; go_Labels : list string;
}.
Definition NewGRPCRegistrar (hasClient : bool) (options : GRPCRegistrarOptions) : result GRPCRegistrarOptions :=
  _ ← reject (negb hasClient || (go_TenantID options ==s "") || (go_GroupID options ==s "")
              || (go_NodeID options ==s "") || (go_Address options ==s ""))
        "scheduler client, tenant, group, node, and address are required";
  _ ← reject ((go_TTL options <? 5 * second) || (300 * second <? go_TTL options)) "TTL must be between 5 and 300 seconds";
  Ok options.

Definition registration (options : GRPCRegistrarOptions) : RegisterExecutorNodeInput :=
  mk_register (go_TenantID options) (go_GroupID options) (go_NodeID options) (go_Address options)
    (Executors.int32 (go_TTL options / second)) (go_Labels options).

Fixpoint grpc_beats (fuel : nat) (options : GRPCRegistrarOptions) : beating bool :=
  match fuel with
  | O => mret false
  | S fuel =>
      err ← effect (CallRegister (registration options));
      _ ← (match err with Some err => effect (Warn err) | None => mret tt end);
      more ← effect (NextTick (go_TTL options / 3));
      if (more : bool) then grpc_beats fuel options else mret true
  end.
Definition grpc_Run (fuel : nat) (options : GRPCRegistrarOptions) : beating bool :=
  ended ← grpc_beats fuel options;
  if (ended : bool) then
    _ ← effect (CallUnregister (go_TenantID options) (go_GroupID options) (go_NodeID options));
    mret true
  else mret false.

(** ** The reporter *)

Definition AppendLog (runID token stream content : string) : beating (option error) :=
  id ← effect NewUUID;
  effect (CallAppendRunLogs runID token [RunLogs.mk_log_input id stream content]).
Definition Complete (runID token : string) (succeeded : bool) (message : string) : beating (option error) :=
  effect (CallCompleteCallback runID token succeeded message).
End Registrars.

(** * The registrars of executors: theorems

    A registration outlives a lost heartbeat, and a registrar that stops withdraws
    its node last. *)

Module RegistrarProofs.
Import GoUrl Utf8 GoNet Programs Traces JobService JobServiceProofs Services Registrars.
Import Executors ExecutorStore.

(** ** Lifetimes *)

(** The constructors bound the lifetime. *)
Lemma grpc_options_bounds hasClient o o' :
  NewGRPCRegistrar hasClient o = Ok o' → o' = o ∧ 5 * second ≤ go_TTL o ≤ 300 * second.
Proof.
  unfold NewGRPCRegistrar. intros Hv. passed. subst o'. split; [done|]. lia.
Qed.
Lemma options_bounds `{IPLiterals} o r :
  NewRegistrar o = Ok r → rr_options r = o ∧ 5 * second ≤ ro_TTL o ≤ 300 * second.
Proof.
  unfold NewRegistrar. intros Hv. passed. subst r. split; [done|]. lia.
Qed.

(** Two intervals are shorter than the lifetime the scheduler is told. *)
Lemma two_intervals ttl : 5 * second ≤ ttl ≤ 300 * second → 2 * (ttl / 3) < ttl / second * second.
Proof. unfold second. intros Ht. pose proof (Z.div_mod ttl 1000000000). pose proof (Z.mod_pos_bound ttl 1000000000). pose proof (Z.mul_div_le ttl 3). lia. Qed.
Lemma told_lifetime ttl : 5 * second ≤ ttl ≤ 300 * second → 5 ≤ ttl / second ≤ 300.
Proof. unfold second. intros Ht. split; [apply Z.div_le_lower_bound; lia|]. assert (ttl / 1000000000 < 301); [|lia]. apply Z.div_lt_upper_bound; lia. Qed.

(** The row of a registration that the database took. *)
Lemma registered_row t g n a ttl labels e s node s' :
  commit (ExecutorStore.RegisterExecutorNode t g n a ttl labels) e s = (Ok node, s') →
  ∃ row, row ∈ executor_nodes s' ∧ same_node g n row = true ∧
    row = mk_node g n a (tx_now e + ttl) (tx_now e) false labels.
Proof.
  unfold commit, ExecutorStore.RegisterExecutorNode, mbind, tx_bind, get, now. destruct (group_of t g s) as [group|]; [|done].
  destruct (g_registration_mode group !=s _); [done|]. destruct (negb (node_labels_check labels)); [done|]. cbn.
  intros [= _ <-]. set (row := mk_node _ _ _ _ _ _ _). cbn [executor_nodes set_executor_nodes].
  assert (Hp : same_node g n row = true) by (unfold same_node; cbn; by rewrite !String.eqb_refl).
  destruct (upserted (same_node g n) row (executor_nodes s) (λ x, x = row) Hp eq_refl) as [Hne Hall].
  destruct (sql_select _ _) as [|x l] eqn:E in Hne; [done|]. assert (Hx : x ∈ x :: l) by left. rewrite <- E in Hx.
  apply elem_of_sql_select in Hx as [Hx Hpx]. exists x. split; [exact Hpx|]. split; [exact Hx|]. by apply Hall.
Qed.

Lemma run_stored_tx {E : Type → Type} {A} (h : ∀ B, E B → B) e (m : tx A) s : run h e (store m) s = commit m e s.
Proof. unfold store. cbn [run]. by destruct (commit m e s). Qed.

(** ** One lost heartbeat *)

Section lifetime.
Context `{Host} `{Digest} `{IPLiterals}.

(** The registration of a node outlives a lost heartbeat.  When the scheduler took a
    heartbeat of a registrar over gRPC, it stored the node with the address of the registrar,
    and counts it as live until two intervals of the registrar later, however the lifetime was
    rounded to seconds: the next heartbeat but one is in time.  The lifetime that a registrar
    asks for is never refused, and the interval is never zero. *)
Theorem registration_outlives_lost_heartbeat hasClient o o' (h : ∀ B, request B → B) e s node s' t :
  NewGRPCRegistrar hasClient o = Ok o' →
  run h e (RegisterNode (registration o')) s = (Ok node, s') →
  tx_now e ≤ t ≤ tx_now e + 2 * (go_TTL o' / 3) →
  0 < go_TTL o' / 3 ∧ 5 ≤ ri_TTLSeconds (registration o') ≤ 300 ∧
  ∃ row, row ∈ executor_nodes s' ∧ n_group_id row = go_GroupID o' ∧ n_node_id row = TrimSpace (go_NodeID o') ∧
    n_address row = TrimRightSlash (go_Address o') ∧ node_is_live t row = true.
Proof.
  intros [-> Hb]%grpc_options_bounds Hrun Ht. pose proof (told_lifetime _ Hb) as Htold. pose proof (two_intervals _ Hb) as Htwo.
  assert (Hi : ri_TTLSeconds (registration o) = go_TTL o / second).
  { cbn. unfold int32, wrap_signed. rewrite Z.mod_small; lia. }
  split; [apply Z.div_str_pos; unfold second in Hb; lia|]. rewrite Hi. split; [done|].
  revert Hrun. unfold RegisterNode. destruct (invalid _) as [labels|err]; [|done]. intros Hrun.
  rewrite run_stored_tx in Hrun.
  apply registered_row in Hrun as (row & Hin & _ & ->). eexists. split; [exact Hin|]. cbn [n_group_id n_node_id n_address].
  split_and!; [done..|]. unfold node_is_live. cbn [n_is_static n_expires_at orb]. rewrite Hi.
  unfold dur_mul. rewrite wrap64_id by (unfold int64_min, int64_max, second in *; lia). unfold After. apply Z.ltb_lt. lia.
Qed.
End lifetime.

(** ** The end of a registrar *)

(** What a registrar over gRPC did, in order. *)
Inductive mark := Registered (input : RegisterExecutorNodeInput) | Ticked (more : bool) | Withdrew (t g n : string) | Something.
Definition mark_of (B : Type) (eff : beat B) : B → option mark :=
  match eff in beat B return B → option mark with
  | CallRegister input => λ _, Some (Registered input)
  | NextTick _ => λ more, Some (Ticked more)
  | CallUnregister t g n => λ _, Some (Withdrew t g n)
  | Warn _ => λ _, None
  | _ => λ _, Some Something
  end.
Definition marks (log : list (event beat)) : list mark := omap (λ x : event beat, mark_of _ (projT2 x).1 (projT2 x).2) log.
Definition saw (B : Type) (eff : beat B) (b : B) : list (event beat) := [happened eff b].
Notation execution := (traces saw (λ _ _ _, False) (λ _ _ _, True)).

Lemma marks_app l k : marks (l ++ k) = marks l ++ marks k.
Proof. apply omap_app. Qed.

(** [n] heartbeats that were followed by a tick. *)
Definition cycles (o : GRPCRegistrarOptions) (n : nat) : list mark := concat (replicate n [Registered (registration o); Ticked true]).
Lemma cycles_S o n : cycles o n ++ [Registered (registration o); Ticked true] = cycles o (S n).
Proof. unfold cycles. by rewrite replicate_S_end, concat_app. Qed.

Lemma grpc_beats_marks fuel o n log :
  marks log = cycles o n →
  execution (grpc_beats fuel o) log (λ log' ended,
    if ended then ∃ m, (m < n + fuel)%nat ∧ marks log' = cycles o m ++ [Registered (registration o); Ticked false]
    else marks log' = cycles o (n + fuel)).
Proof.
  revert n log. induction fuel as [|fuel IH]; intros n log Hl; cbn [grpc_beats]; [by rewrite Nat.add_0_r|].
  split; [done|]. intros err. set (log1 := log ++ _).
  assert (H1 : marks log1 = cycles o n ++ [Registered (registration o)]) by (unfold log1; by rewrite marks_app, Hl).
  clearbody log1. apply traces_bind. apply traces_mono with (Q := λ log2 _, marks log2 = cycles o n ++ [Registered (registration o)]).
  - intros log2 _ _ H2. split; [done|]. intros [].
    + rewrite Nat.add_succ_r, <- Nat.add_succ_l. apply IH. rewrite <- cycles_S, marks_app, H2, <- app_assoc. done.
    + exists n. split; [lia|]. rewrite marks_app, H2, <- app_assoc. done.
  - destruct err as [err|]; [|done]. split; [done|]. intros []. cbn [traces effect]. rewrite marks_app, H1. apply app_nil_r.
Qed.

(** Every run of a registrar over gRPC: heartbeats that differ in nothing, one before
    every tick, and when the context ends the node is unregistered, last. *)
Lemma grpc_Run_marks fuel o :
  execution (grpc_Run fuel o) [] (λ log ended,
    if ended then ∃ m, marks log = cycles o m ++ [Registered (registration o); Ticked false;
                                                 Withdrew (go_TenantID o) (go_GroupID o) (go_NodeID o)]
    else marks log = cycles o fuel).
Proof.
  apply traces_bind. eapply traces_mono; [|by apply (grpc_beats_marks fuel o 0)].
  intros log [] _; [|done]. intros (m & _ & Hm). split; [done|]. intros r. exists m.
  rewrite marks_app, Hm, <- app_assoc. done.
Qed.

(** ** An executor *)
Import Samples.
Definition node_options : GRPCRegistrarOptions :=
  mk_grpc_options "t" "g" " n1" "grpc://host:9000/" (5900 * millisecond) ["gpu"].

Lemma registration_outlives_lost_heartbeat_witness :
  go_TTL node_options / 3 = 1966666666 ∧
  ∃ node s', run JobServiceScenario.answers (at_ms 0) (RegisterNode (registration node_options)) JobServiceScenario.group_db = (Ok node, s') ∧
    ∃ row, row ∈ executor_nodes s' ∧ node_is_live (tx_now (at_ms 0) + 2 * (go_TTL node_options / 3)) row = true.
Proof.
  split; [reflexivity|].
  destruct (run JobServiceScenario.answers (at_ms 0) (RegisterNode (registration node_options)) JobServiceScenario.group_db)
    as [[node|err] s'] eqn:E; [|exfalso; revert E; vm_compute; congruence].
  exists node, s'. split; [reflexivity|].
  destruct (registration_outlives_lost_heartbeat true node_options node_options JobServiceScenario.answers (at_ms 0)
    JobServiceScenario.group_db node s' (tx_now (at_ms 0) + 2 * (go_TTL node_options / 3)) eq_refl E)
    as (_ & _ & row & Hin & _ & _ & _ & Hl); [vm_compute; split; congruence|].
  exists row. exact (conj Hin Hl).
Defined.

(** An address the registrar over HTTP takes and the scheduler refuses. *)
Example grpcs_is_refused :
  let o := mk_options "http://scheduler" "token" "g" "n" "grpcs://host:9000" (30 * second) None in
  (∃ r, @NewRegistrar (λ _, false) o = Ok r) ∧
  @registration_labels (λ _, false) (mk_register "t" "g" "n" "grpcs://host:9000" 30 [])
  = Err (ErrMsg "address must be an absolute HTTP(S) or gRPC URL without userinfo").
Proof. split; [eexists|]; vm_compute; reflexivity. Qed.
End RegistrarProofs.
