(* ===== verification/Rpc.v ===== *)
(** * The RPC transport

    [internal/rpc]: the interceptors every call to the scheduler and to an executor
    passes, on the server and on the client ([auth.go]), the choice of the transport's
    credentials ([tls.go]) and the transport within one process ([inprocess.go]). *)
From Stdlib Require Import ZArith Lia Ascii String.
From stdpp Require Import base list strings.
From S2P Require Import Prelude GoStrings.

Module Rpc.

(** ** Tokens *)

Definition byte_of (c : ascii) : Z := Z.of_N (N_of_ascii c).
(** [subtle.ConstantTimeCompare]: the differences of all bytes are collected. *)
Fixpoint differences (x y : string) (v : Z) : Z :=
  match x, y with
  | String c x, String d y => differences x y (Z.lor v (Z.lxor (byte_of c) (byte_of d)))
  | _, _ => v
  end.
Definition ConstantTimeByteEq (x y : Z) : Z :=
  Z.shiftr ((Z.lxor x y - 1) mod 2 ^ 32) 31.
Definition ConstantTimeCompare (x y : string) : Z :=
  if negb (Nat.eqb (String.length x) (String.length y)) then 0
  else ConstantTimeByteEq (differences x y 0) 0.

Definition matchesBearerToken (header token : string) : bool :=
  let expected := "Bearer " +:+ token in
  ConstantTimeCompare header expected =? 1.

(** ** Interceptors *)

Inductive code := OK | Unauthenticated | InternalError | Other (c : Z).
(** What a handler does: it answers, fails with a status, or panics. *)
Inductive outcome (A : Type) := Replies (a : A) | Fails (c : code) (message : string) | Panics (value : string).
#[global] Arguments Replies {A}.
#[global] Arguments Fails {A}.
#[global] Arguments Panics {A}.
(** The lines that are logged: a recovered panic, a request with its code. *)
Inductive line := PanicRecovered (method value : string) | Request (method : string) (c : code).
Definition status_code {A} (o : outcome A) : code := match o with Fails c _ => c | _ => OK end.

(** An interceptor is given the method, the values of the authorization header, and
    the handler it may call; the lines it logs come after those of the handler. *)
Section interceptors.
Context {A : Type}.
Definition handler : Type := list string → outcome A * list line.
Definition interceptor : Type := string → list string → handler → outcome A * list line.

Definition UnaryServerAuth (current previous : string) : interceptor := λ method values h,
  if HasPrefix method "/grpc.health.v1.Health/" then h values
  else
    match values with
    | [value] =>
        if negb (matchesBearerToken value current)
           && ((previous ==s "") || negb (matchesBearerToken value previous))
        then (Fails Unauthenticated "invalid service token", [])
        else h values
    | _ => (Fails Unauthenticated "invalid service token", [])
    end.

Definition UnaryRecovery : interceptor := λ method values h,
  match h values with
  | (Panics value, lines) => (Fails InternalError "internal error", lines ++ [PanicRecovered method value])
  | answer => answer
  end.

(** A panic passes the statement that logs. *)
Definition UnaryLogging : interceptor := λ method values h,
  match h values with
  | (Panics value, lines) => (Panics value, lines)
  | (answer, lines) => (answer, lines ++ [Request method (status_code answer)])
  end.

(** [grpc.ChainUnaryInterceptor]: the first is the outermost. *)
Fixpoint ChainUnaryInterceptor (l : list interceptor) : interceptor := λ method values h,
  match l with
  | [] => h values
  | i :: rest => i method values (λ values, ChainUnaryInterceptor rest method values h)
  end.

(** The chain of the servers. *)
Definition server_chain (current previous : string) : interceptor :=
  ChainUnaryInterceptor [UnaryRecovery; UnaryLogging; UnaryServerAuth current previous].

(** The header is added to those the context carries already. *)
Definition UnaryClientAuth (token : string) (outgoing : list string) : list string :=
  outgoing ++ ["Bearer " +:+ token].
End interceptors.

(** ** Credentials *)

Inductive credentials := Insecure | Tls (certificate name : string).
Section credentials.
Context (NewServerTLSFromFile NewClientTLSFromFile : string → string → result credentials).

Definition ServerTransportCredentials (certFile keyFile : string) : result (option credentials) :=
  if (certFile ==s "") && (keyFile ==s "") then Ok None
  else if (certFile ==s "") || (keyFile ==s "")
  then Err (ErrMsg "gRPC TLS certificate and key must be configured together")
  else match NewServerTLSFromFile certFile keyFile with
       | Err err => Err (ErrMsg ("load gRPC server TLS: " +:+ error_text err))
       | Ok transport => Ok (Some transport)
       end.

Definition ClientTransportCredentials (caFile serverName : string) : result credentials :=
  if caFile ==s "" then
    if serverName !=s "" then Err (ErrMsg "gRPC TLS server name requires a CA file") else Ok Insecure
  else match NewClientTLSFromFile caFile serverName with
       | Err err => Err (ErrMsg ("load gRPC client TLS: " +:+ error_text err))
       | Ok transport => Ok transport
       end.
End credentials.

(** ** Within one process *)

(** A call through the in-memory transport: the client's interceptor, then the chain
    of the server.  [outgoing] is what the caller's context carries. *)
Definition InProcessScheduler {A} (serviceToken previousToken : string) (method : string) (outgoing : list string)
    (h : handler (A := A)) : outcome A * list line :=
  server_chain serviceToken previousToken method (UnaryClientAuth serviceToken outgoing) h.

(** [Close]: the server is stopped at once when the context ends first; the error is
    the first of those of the connection and of the listener. *)
Definition Close (drained : bool) (connErr listenerErr : option error) : bool * option error :=
  (negb drained, match connErr with Some err => Some err | None => listenerErr end).

(** ** Proofs *)

Lemma byte_of_range c : 0 <= byte_of c < 256.
Proof. unfold byte_of. pose proof (N_ascii_bounded c). lia. Qed.
Lemma byte_of_inj c d : byte_of c = byte_of d → c = d.
Proof. unfold byte_of. intros E%N2Z.inj. rewrite <- (ascii_N_embedding c), <- (ascii_N_embedding d). by rewrite E. Qed.

Lemma differences_zero x y v :
  0 <= v → String.length x = String.length y → (differences x y v = 0 ↔ v = 0 ∧ x = y).
Proof.
  revert y v. induction x as [|c x IH]; intros [|d y] v Hv Hl; try done; cbn in *; [naive_solver|].
  rewrite IH; [|apply Z.lor_nonneg; split; [done|]; apply Z.lxor_nonneg; pose proof (byte_of_range c); pose proof (byte_of_range d); lia|lia].
  rewrite Z.lor_eq_0_iff, Z.lxor_eq_0_iff. split; [intros ((-> & E%byte_of_inj) & ->); by subst|intros [-> [= -> ->]]; done].
Qed.
Lemma log2_byte n : 0 <= n < 2 ^ 8 → Z.log2 n < 8.
Proof. intros Hn. destruct (Z.eq_dec n 0) as [->|]; [done|]. apply Z.log2_lt_pow2; lia. Qed.
Lemma byte_log2 n : 0 <= n → Z.log2 n < 8 → 0 <= n < 2 ^ 8.
Proof. intros Hn Hl. destruct (Z.eq_dec n 0) as [->|]; [lia|]. split; [done|]. apply Z.log2_lt_pow2; lia. Qed.
Lemma differences_byte x y v : 0 <= v < 2 ^ 8 → 0 <= differences x y v < 2 ^ 8.
Proof.
  revert y v. induction x as [|c x IH]; intros [|d y] v Hv; try done. cbn [differences]. apply IH.
  pose proof (byte_of_range c) as Hc. pose proof (byte_of_range d) as Hd. change 256 with (2 ^ 8) in *.
  assert (Hx : 0 <= Z.lxor (byte_of c) (byte_of d)) by (apply Z.lxor_nonneg; lia).
  apply byte_log2; [apply Z.lor_nonneg; lia|]. rewrite Z.log2_lor by lia. apply Z.max_lub_lt; [by apply log2_byte|].
  eapply Z.le_lt_trans; [apply Z.log2_lxor; lia|]. apply Z.max_lub_lt; by apply log2_byte.
Qed.

(** The comparison in constant time is equality. *)
Lemma ConstantTimeCompare_spec x y : ConstantTimeCompare x y = if x ==s y then 1 else 0.
Proof.
  unfold ConstantTimeCompare. destruct (Nat.eqb_spec (String.length x) (String.length y)) as [Hl|Hl]; cbn [negb].
  2:{ destruct (String.eqb_spec x y); [by subst|done]. }
  unfold ConstantTimeByteEq. rewrite Z.lxor_0_r.
  pose proof (differences_byte x y 0 ltac:(lia)) as Hb. pose proof (differences_zero x y 0 ltac:(lia) Hl) as Hz.
  rewrite Z.shiftr_div_pow2 by lia. destruct (String.eqb_spec x y) as [E|E].
  - by rewrite (proj2 Hz (conj eq_refl E)).
  - assert (differences x y 0 ≠ 0) by tauto. rewrite Z.mod_small by lia. apply Z.div_small. lia.
Qed.
Lemma matchesBearerToken_spec header token : matchesBearerToken header token = (header ==s "Bearer " +:+ token).
Proof. unfold matchesBearerToken. rewrite ConstantTimeCompare_spec. by destruct (header ==s _). Qed.

(** The values of the header that are accepted. *)
Definition accepted (current previous : string) (values : list string) : Prop :=
  values = ["Bearer " +:+ current] ∨ (previous ≠ "" ∧ values = ["Bearer " +:+ previous]).

Lemma auth_accepts {A} current previous method values (h : handler (A := A)) :
  HasPrefix method "/grpc.health.v1.Health/" = true ∨ accepted current previous values →
  UnaryServerAuth current previous method values h = h values.
Proof.
  unfold UnaryServerAuth. intros [->|Ha]; [done|]. destruct (HasPrefix method _); [done|].
  destruct Ha as [->|[Hp ->]]; rewrite !matchesBearerToken_spec, ?String.eqb_refl; [done|].
  apply String.eqb_neq in Hp as ->. by rewrite andb_false_r.
Qed.
Lemma auth_refuses {A} current previous method values (h : handler (A := A)) :
  HasPrefix method "/grpc.health.v1.Health/" = false → ¬ accepted current previous values →
  UnaryServerAuth current previous method values h = (Fails Unauthenticated "invalid service token", []).
Proof.
  unfold UnaryServerAuth. intros -> Ha. destruct values as [|v [|w l]]; [done| |done].
  rewrite !matchesBearerToken_spec. destruct (String.eqb_spec v ("Bearer " +:+ current)) as [->|]; [destruct Ha; by left|].
  destruct (String.eqb_spec previous ""); [done|]. destruct (String.eqb_spec v ("Bearer " +:+ previous)) as [->|]; [|done].
  destruct Ha. by right.
Qed.

(** C22: Calls through the interceptors of a server.  A method other than the health
    checks runs only for a caller with exactly one authorization header, which has the
    current token, or the previous one if there is one: any other call is answered
    [Unauthenticated] whatever the handler would do.  A call that is let in gets the answer of
    the handler, and [Internal] in place of a panic, which never leaves the server; and every
    call that does not panic is logged with its code.  A client that is configured with the
    current or the previous token is let in, unless its context carries another such header. *)
Theorem rpc_calls_are_authenticated {A} current previous method values (h : handler (A := A)) :
  let answer := server_chain current previous method values h in
  (HasPrefix method "/grpc.health.v1.Health/" = false ∧ ¬ accepted current previous values ∧
   answer = (Fails Unauthenticated "invalid service token", [Request method Unauthenticated])
   ∨
   (HasPrefix method "/grpc.health.v1.Health/" = true ∨ accepted current previous values) ∧
   answer = match h values with
            | (Panics v, lines) => (Fails InternalError "internal error", lines ++ [PanicRecovered method v])
            | (reply, lines) => (reply, lines ++ [Request method (status_code reply)])
            end) ∧
  ∀ token, accepted current previous (UnaryClientAuth token []) ↔ token = current ∨ previous ≠ "" ∧ token = previous.
Proof.
  cbn zeta. split.
  - assert (Hd : HasPrefix method "/grpc.health.v1.Health/" = true ∨ accepted current previous values
               ∨ HasPrefix method "/grpc.health.v1.Health/" = false ∧ ¬ accepted current previous values).
    { destruct (HasPrefix method _); [by left|]. right. unfold accepted.
      destruct (decide (values = ["Bearer " +:+ current])); [tauto|].
      destruct (decide (previous ≠ "" ∧ values = ["Bearer " +:+ previous])); tauto. }
    unfold server_chain, ChainUnaryInterceptor, UnaryRecovery, UnaryLogging. destruct Hd as [Hh|[Ha|[Hh Hn]]].
    1-2: right; (split; [tauto|]); rewrite auth_accepts by tauto; by destruct (h values) as [[]].
    left. by rewrite auth_refuses.
  - intros token. unfold accepted, UnaryClientAuth. cbn [app]. split.
    + intros [[= E]|[Hp [= E]]]; tauto.
    + intros [->|[Hp ->]]; tauto.
Qed.
End Rpc.
