(* ===== verification/ExecutorMain.v ===== *)
(** * The process of an executor

    [cmd/script-executor/main.go]: the settings a process takes from its environment, with
    the handlers it registers, and the order in which it starts and stops its parts.
    Recovery itself, the delivery of completions and draining are in [ExecutorServer]. *)
From Stdlib Require Import ZArith Lia Ascii String.
From stdpp Require Import base list strings gmap.
From S2P Require Import Prelude GoStrings GoUrl Utf8 GoNet Tables Programs Traces CompletionStore ExecutorServer JobService Config Rpc Registrars.

Module ExecutorMain.
Import GoUrl Utf8 GoNet Programs Traces JobService JobServiceProofs.
Import Registrars (NewGRPCRegistrar, GRPCRegistrarOptions, mk_grpc_options, go_TTL, go_TenantID, go_GroupID, go_NodeID, go_Address, go_Labels).

(** ** Settings *)

(** [net.JoinHostPort] *)
Definition JoinHostPort (host port : string) : string :=
  if ContainsChar host ":" then "[" +:+ host +:+ "]:" +:+ port else host +:+ ":" +:+ port.

Definition executorAdvertiseAddress (explicit host listen : string) : result string :=
  let explicit := TrimSpace explicit in
  if explicit !=s "" then Ok explicit
  else
    let host := TrimSpace host in
    if host ==s "" then Err (ErrMsg "EXECUTOR_ADVERTISE_ADDRESS or EXECUTOR_ADVERTISE_HOST is required")
    else
      match SplitHostPort listen with
      | Some (_, port) =>
          if port ==s "" then Err (ErrMsg "EXECUTOR_LISTEN must include a port when deriving the advertise address")
          else Ok ("grpc://" +:+ JoinHostPort host port)
      | None => Err (ErrMsg "EXECUTOR_LISTEN must include a port when deriving the advertise address")
      end.

Definition splitLanguages (raw : string) : list string :=
  List.filter (λ value, value !=s "") (map TrimSpace (Split raw ",")).

(** What a process is started with. *)
Record Settings := mk_settings {
  st_languages : list string; st_server : ExecutorServer.Server; st_limits : ExecutorServer.Limits;
  st_grpc : ExecutorServer.GRPCServer; st_registrar : GRPCRegistrarOptions;
  st_shutdownTimeout : duration; st_listen : string; st_token : string;
}.

Section settings.
Context `{Durations} `{IPLiterals} (Getenv : string → string).

Definition envOr (key fallback : string) : string :=
  if Getenv key !=s "" then Getenv key else fallback.

Definition positiveIntEnv (key : string) (fallback : Z) : result Z :=
  match Atoi (envOr key (Itoa fallback)) with
  | Some parsed => if parsed <? 1 then Err (ErrMsg (key +:+ " must be a positive integer")) else Ok parsed
  | None => Err (ErrMsg (key +:+ " must be a positive integer"))
  end.

(** [text] is what [String] prints for a duration. *)
Definition durationEnv (text : duration → string) (key : string) (fallback minimum maximum : duration) : result duration :=
  match ParseDuration (envOr key (text fallback)) with
  | Ok parsed =>
      if (parsed <? minimum) || (maximum <? parsed)
      then Err (ErrMsg (key +:+ " must be a duration between " +:+ text minimum +:+ " and " +:+ text maximum))
      else Ok parsed
  | Err _ => Err (ErrMsg (key +:+ " must be a duration between " +:+ text minimum +:+ " and " +:+ text maximum))
  end.

(** A switch is on, off, or neither, which is an error. *)
Definition switched {A} (key : string) (on off : result A) : result A :=
  if envOr key "false" ==s "true" then on
  else if envOr key "false" !=s "false" then Err (ErrMsg (key +:+ " must be true or false"))
  else off.

(** The handlers are named for their kind; only that of Kubernetes is asynchronous. *)
Definition register_handlers (server : ExecutorServer.Server) : result ExecutorServer.Server :=
  server ← ExecutorServer.register "__script__" false server;
  server ← ExecutorServer.register "__http__" false server;
  server ← switched "DOCKER_ENABLED"
             (server ← ExecutorServer.register "__docker__" false server;
              ExecutorServer.HandleExternalCancellation "docker" server) (Ok server);
  switched "KUBERNETES_ENABLED"
    (server ← ExecutorServer.register "__kubernetes__" true server;
     ExecutorServer.HandleExternalCancellation "kubernetes" server) (Ok server).

(** [Run] up to the point where signals are caught.  The constructors that open files
    or connections are arguments. *)
Definition configure (text : duration → string)
    (NewFileCompletionStore : string → Z → Z → result CompletionStore.FileStore)
    (NewClientTLSFromFile : string → string → result Rpc.credentials) (NewClient : string → result unit) : result Settings :=
  let listen := envOr "EXECUTOR_LISTEN" ":9999" in
  address ← executorAdvertiseAddress (Getenv "EXECUTOR_ADVERTISE_ADDRESS") (Getenv "EXECUTOR_ADVERTISE_HOST") listen;
  _ ← reject ((Getenv "SCHEDULER_GRPC_ADDRESS" ==s "") || (Getenv "SCHEDULER_TOKEN" ==s "")
              || (Getenv "EXECUTOR_GROUP_ID" ==s "") || (Getenv "EXECUTOR_NODE_ID" ==s ""))
        "SCHEDULER_GRPC_ADDRESS, SCHEDULER_TOKEN, EXECUTOR_GROUP_ID and EXECUTOR_NODE_ID are required";
  let languages := splitLanguages (envOr "SCRIPT_LANGUAGES" "shell,python,nodejs,php,powershell") in
  let labels := splitLanguages (Getenv "EXECUTOR_LABELS") in
  server ← ExecutorServer.NewServer "http://scheduler.invalid";
  server ← register_handlers server;
  ttl ← wrapped "parse EXECUTOR_TTL" (ParseDuration (envOr "EXECUTOR_TTL" "30s"));
  legacy ← positiveIntEnv "EXECUTOR_MAX_CONCURRENCY" 32;
  scripts ← positiveIntEnv "EXECUTOR_SCRIPT_MAX_CONCURRENCY" legacy;
  https ← positiveIntEnv "EXECUTOR_HTTP_MAX_CONCURRENCY" 1000;
  dockers ← positiveIntEnv "EXECUTOR_DOCKER_MAX_CONCURRENCY" 100;
  executions ← positiveIntEnv "EXECUTOR_EXECUTION_MAX_PENDING" 10000;
  completions ← positiveIntEnv "EXECUTOR_COMPLETION_MAX_PENDING" 10000;
  files ← NewFileCompletionStore (envOr "EXECUTOR_STATE_DIR" "./executor-state") completions executions;
  shutdown ← durationEnv text "EXECUTOR_SHUTDOWN_TIMEOUT" (30 * second) second (24 * hour);
  _ ← Rpc.ClientTransportCredentials NewClientTLSFromFile (Getenv "SCHEDULER_GRPC_TLS_CA") (Getenv "SCHEDULER_GRPC_TLS_SERVER_NAME");
  _ ← NewClient (Getenv "SCHEDULER_GRPC_ADDRESS");
  service ← ExecutorServer.NewGRPCServer [ExecutorServer.mk_options 0 scripts https dockers] server (Some files);
  registrar ← NewGRPCRegistrar true
    (mk_grpc_options (envOr "EXECUTOR_TENANT_ID" "00000000-0000-0000-0000-000000000001") (Getenv "EXECUTOR_GROUP_ID")
       (Getenv "EXECUTOR_NODE_ID") address ttl labels);
  Ok (mk_settings languages server service.1 service.2 registrar shutdown listen (Getenv "SCHEDULER_TOKEN")).
End settings.

(** ** The life of a process *)

(** What ends the first [select]. *)
Inductive ending := Signalled | ServerEnded (err : option error) | RegistrarEnded (err : option error).
Inductive drained := Drained | DeadlineExceeded | DrainFailed (err : error).

(** The parts of a process.  [AwaitRegistrar] is [None] after five seconds. *)
Inductive part : Type → Type :=
| RecoverExecutions : part (option error)
| RunCompletionDelivery : part unit
| Listen (address : string) : part (option error)
| ServerCredentials : part (option error)
| SetServing (serving : bool) : part unit
| StartServer : part unit
| StartRegistrar : part unit
| FirstEnding : part ending
| StopSignals : part unit
| Drain (timeout : duration) : part drained
| CancelDelivery : part unit
| WaitCompletionDelivery : part unit
| GracefulStop : part unit
| AwaitRegistrar : part (option (option error))
| CloseConnection : part unit.
Notation process := (prog part).

(** The deferred calls, in reverse. *)
Definition deferred (err : option error) : process (option error) :=
  _ ← effect CancelDelivery;
  _ ← effect WaitCompletionDelivery;
  _ ← effect StopSignals;
  _ ← effect CloseConnection;
  mret err.

(** From the end of the first [select] to the result. *)
Definition shut_down (timeout : duration) (e : ending) : process (option error) :=
  let err := match e with Signalled => None | ServerEnded err | RegistrarEnded err => err end in
  _ ← (match err with Some _ => effect StopSignals | None => mret tt end);
  _ ← effect (SetServing false);
  _ ← effect StopSignals;
  drainErr ← effect (Drain timeout);
  _ ← effect CancelDelivery;
  _ ← effect WaitCompletionDelivery;
  _ ← effect GracefulStop;
  match err, drainErr with
  | Some err, _ => mret (Some err)
  | None, DrainFailed err => mret (Some err)
  | None, _ =>
      match e with
      | RegistrarEnded _ => mret None
      | _ =>
          stopped ← effect AwaitRegistrar;
          mret (match stopped with Some err => err | None => None end)
      end
  end.

(** [Run] once it is configured. *)
Definition Run (listen : string) (timeout : duration) : process (option error) :=
  recovered ← effect RecoverExecutions;
  match recovered with
  | Some err => deferred (Some err)
  | None =>
      _ ← effect RunCompletionDelivery;
      listening ← effect (Listen listen);
      match listening with
      | Some err => deferred (Some err)
      | None =>
          creds ← effect ServerCredentials;
          match creds with
          | Some err => deferred (Some err)
          | None =>
              _ ← effect (SetServing true);
              _ ← effect StartServer;
              _ ← effect StartRegistrar;
              e ← effect FirstEnding;
              err ← shut_down timeout e;
              deferred err
          end
      end
  end.

(** ** Proofs *)

Section accepted.
Context `{Durations} `{IPLiterals} (Getenv : string → string).

Lemma positiveIntEnv_positive key fallback n : positiveIntEnv Getenv key fallback = Ok n → 1 ≤ n.
Proof.
  unfold positiveIntEnv. destruct (Atoi _) as [z|]; [|done]. destruct (z <? 1) eqn:E; [done|]. intros [= <-]. bool_to_prop. lia.
Qed.
Lemma durationEnv_range text key fallback lo hi d : durationEnv Getenv text key fallback lo hi = Ok d → lo ≤ d ≤ hi.
Proof.
  unfold durationEnv. destruct (ParseDuration _) as [z|]; [|done]. destruct (_ || _) eqn:E; [done|]. intros [= <-].
  bool_to_prop. lia.
Qed.
Lemma configured_limits scripts https dockers sv st lm g :
  1 ≤ scripts → 1 ≤ https → 1 ≤ dockers →
  ExecutorServer.NewGRPCServer [ExecutorServer.mk_options 0 scripts https dockers] sv st = Ok (lm, g) →
  ExecutorServer.maxScript lm = scripts ∧ ExecutorServer.maxHTTP lm = https ∧ ExecutorServer.maxDocker lm = dockers ∧
  ExecutorServer.server g = sv.
Proof.
  intros H1 H2 H3. unfold ExecutorServer.NewGRPCServer. cbn -[Z.eqb Z.ltb].
  rewrite !(proj2 (Z.eqb_neq _ _)) by lia. rewrite !(proj2 (Z.ltb_ge _ _)) by lia. cbn. by intros [= <- <-].
Qed.

(** What the switches enable. *)
Definition enabled (key : string) : bool := envOr Getenv key "false" ==s "true".
Definition registered (server : ExecutorServer.Server) : Prop :=
  ExecutorServer.handlers server
  = (if enabled "KUBERNETES_ENABLED" then <["__kubernetes__" := true]> else id)
      ((if enabled "DOCKER_ENABLED" then <["__docker__" := false]> else id) (<["__http__" := false]> {["__script__" := false]})) ∧
  ExecutorServer.cancellers server
  = (if enabled "KUBERNETES_ENABLED" then union {["kubernetes"]} else id)
      ((if enabled "DOCKER_ENABLED" then union {["docker"]} else id) ∅).

Lemma switched_Ok {A} key (on off : result A) a :
  switched Getenv key on off = Ok a → (if enabled key then on else off) = Ok a.
Proof. unfold switched, enabled. destruct (_ ==s "true"); [done|]. by destruct (negb _). Qed.
Lemma register_Ok name async sv sv' :
  ExecutorServer.register name async sv = Ok sv' →
  ExecutorServer.handlers sv' = <[TrimSpace name := async]> (ExecutorServer.handlers sv) ∧
  ExecutorServer.cancellers sv' = ExecutorServer.cancellers sv.
Proof.
  unfold ExecutorServer.register. cbv zeta. destruct (_ || _); [done|]. destruct (_ !! _); [done|]. by intros [= <-].
Qed.
Lemma canceller_Ok language sv sv' :
  ExecutorServer.HandleExternalCancellation language sv = Ok sv' →
  ExecutorServer.handlers sv' = ExecutorServer.handlers sv ∧
  ExecutorServer.cancellers sv' = {[TrimSpace language]} ∪ ExecutorServer.cancellers sv.
Proof.
  unfold ExecutorServer.HandleExternalCancellation. cbv zeta. destruct (_ || _); [done|]. destruct (bool_decide _); [done|].
  by intros [= <-].
Qed.
Lemma both_Ok name async language sv sv' :
  (sv ← ExecutorServer.register name async sv; ExecutorServer.HandleExternalCancellation language sv) = Ok sv' →
  ExecutorServer.handlers sv' = <[TrimSpace name := async]> (ExecutorServer.handlers sv) ∧
  ExecutorServer.cancellers sv' = {[TrimSpace language]} ∪ ExecutorServer.cancellers sv.
Proof.
  intros (sv1 & [Hh Hc]%register_Ok & [Hh' Hc']%canceller_Ok)%result_bind_Ok. by rewrite Hh', Hc', Hh, Hc.
Qed.

Lemma handlers_registered sv sv' :
  ExecutorServer.handlers sv = ∅ → ExecutorServer.cancellers sv = ∅ →
  register_handlers Getenv sv = Ok sv' → registered sv'.
Proof.
  intros G0 G0' (s1 & [G1 G1']%register_Ok & (s2 & [G2 G2']%register_Ok &
    (s3 & G3%switched_Ok & G4%switched_Ok)%result_bind_Ok)%result_bind_Ok)%result_bind_Ok.
  unfold registered. rewrite G1, G0 in G2. rewrite G1', G0' in G2'.
  assert (E3 : ExecutorServer.handlers s3 = (if enabled "DOCKER_ENABLED" then <["__docker__" := false]> else id) (ExecutorServer.handlers s2)
             ∧ ExecutorServer.cancellers s3 = (if enabled "DOCKER_ENABLED" then union {["docker"]} else id) (ExecutorServer.cancellers s2)).
  { destruct (enabled "DOCKER_ENABLED"); [by apply both_Ok in G3|by injection G3 as ->]. }
  destruct E3 as [E3 E3']. rewrite <- G2', <- E3'. change (<["__http__" := false]> {["__script__" := false]})
    with (<[TrimSpace "__http__" := false]> (<[TrimSpace "__script__" := false]> (∅ : gmap string bool))).
  rewrite <- G2, <- E3. destruct (enabled "KUBERNETES_ENABLED"); [by apply both_Ok in G4|by injection G4 as ->].
Qed.

Lemma new_server_empty url sv :
  ExecutorServer.NewServer url = Ok sv → ExecutorServer.handlers sv = ∅ ∧ ExecutorServer.cancellers sv = ∅.
Proof.
  unfold ExecutorServer.NewServer. destruct (Parse url) as [u|]; [|done]. destruct (_ || _); [done|].
  destruct (_ && _); [done|]. by intros [= <-].
Qed.
Lemma splitLanguages_nonempty raw : Forall (λ l, l ≠ "") (splitLanguages raw).
Proof.
  apply Forall_forall. intros l Hl. apply list_elem_of_In, filter_In in Hl as [_ Hl]. by apply negb_true_iff, String.eqb_neq in Hl.
Qed.

(** The settings of an executor that starts.  Its limits on executions are positive, its registration
    lives for five seconds to five minutes, and draining lasts a second to a day.  It has
    the handlers of scripts and HTTP requests, those of containers and of Kubernetes with their
    cancellers exactly when they are switched on, and no language or label that is blank; the
    scheduler, the token, the group and the node are named. *)
Theorem executor_settings_are_valid text NewFile NewTLS NewClient st :
  configure Getenv text NewFile NewTLS NewClient = Ok st →
  1 ≤ ExecutorServer.maxScript (st_limits st) ∧ 1 ≤ ExecutorServer.maxHTTP (st_limits st) ∧
  1 ≤ ExecutorServer.maxDocker (st_limits st) ∧
  5 * second ≤ go_TTL (st_registrar st) ≤ 300 * second ∧ second ≤ st_shutdownTimeout st ≤ 24 * hour ∧
  registered (st_server st) ∧ ExecutorServer.server (st_grpc st) = st_server st ∧
  Forall (λ l, l ≠ "") (st_languages st ++ go_Labels (st_registrar st)) ∧
  st_token st ≠ "" ∧ go_GroupID (st_registrar st) ≠ "" ∧ go_NodeID (st_registrar st) ≠ "" ∧ go_Address (st_registrar st) ≠ "".
Proof.
  intros Hc. unfold configure in Hc. cbv zeta in Hc. passed. subst st. cbn [st_limits st_registrar st_shutdownTimeout st_server st_grpc st_languages st_token].
  repeat match goal with
    | E : positiveIntEnv _ _ _ = Ok _ |- _ => apply positiveIntEnv_positive in E
    | E : durationEnv _ _ _ _ _ _ = Ok _ |- _ => apply durationEnv_range in E
    end.
  rename select (NewGRPCRegistrar _ _ = _) into Er. rename select (ExecutorServer.NewGRPCServer _ _ _ = _) into Es.
  rename select (register_handlers _ _ = _) into Eh. rename select (ExecutorServer.NewServer _ = _) into En.
  rename select (_ * _)%type into service. destruct service as [lm g].
  pose proof (RegistrarProofs.grpc_options_bounds _ _ _ Er) as [-> Ht]. cbn in Ht |- *.
  apply configured_limits in Es as (-> & -> & -> & Eg); [|done..].
  apply new_server_empty in En as [Hh Hc]. apply (handlers_registered _ _ Hh Hc) in Eh.
  assert (Ha : x ≠ "").
  { unfold NewGRPCRegistrar in Er. passed. done. }
  split_and!; try done; try lia. apply Forall_app. split; apply splitLanguages_nonempty.
Qed.
End accepted.

(** ** Order *)

Inductive stage :=
| Recovering (ok : bool) | Delivering | Listening (ok : bool) | Serving | Registering | Draining | DeliveryEnded | Stopped | Closed.
Definition stage_of (B : Type) (eff : part B) : B → option stage :=
  match eff in part B return B → option stage with
  | RecoverExecutions => λ err, Some (Recovering (bool_decide (err = None)))
  | RunCompletionDelivery => λ _, Some Delivering
  | Listen _ => λ err, Some (Listening (bool_decide (err = None)))
  | StartServer => λ _, Some Serving
  | StartRegistrar => λ _, Some Registering
  | Drain _ => λ _, Some Draining
  | WaitCompletionDelivery => λ _, Some DeliveryEnded
  | GracefulStop => λ _, Some Stopped
  | CloseConnection => λ _, Some Closed
  | _ => λ _, None
  end.
Definition saw_part (B : Type) (eff : part B) (b : B) : list (event part) := [happened eff b].
Definition stages (log : list (event part)) : list stage :=
  omap (λ x : event part, stage_of _ (projT2 x).1 (projT2 x).2) log.
Notation execution := (traces saw_part (λ _ _ _, False) (λ _ _ _, True)).

Lemma stages_app l k : stages (l ++ k) = stages l ++ stages k.
Proof. apply omap_app. Qed.
Ltac next_part := split; [done|]; intros ?; cbn [traces].

Lemma deferred_stages err log :
  execution (deferred err) log (λ log' r, r = err ∧ stages log' = stages log ++ [DeliveryEnded; Closed]).
Proof. do 4 next_part. split; [done|]. rewrite !stages_app, <- !app_assoc. done. Qed.

Lemma shut_down_stages timeout e log :
  execution (shut_down timeout e) log (λ log' _, stages log' = stages log ++ [Draining; DeliveryEnded; Stopped]).
Proof.
  unfold shut_down. cbv zeta. set (err := match e with Signalled => None | ServerEnded err | RegistrarEnded err => err end).
  apply traces_bind. apply traces_mono with (Q := λ log1 _, stages log1 = stages log).
  2:{ destruct err; [next_part; by rewrite stages_app, app_nil_r|done]. }
  intros log1 _ _ H1. do 6 next_part. destruct err as [err|]; [|destruct b1 as [| |err]; [destruct e..|]]; try next_part.
  all: cbn [traces mbind prog_mbind prog_bind mret prog_mret]; rewrite !stages_app, H1, <- !app_assoc; done.
Qed.

(** The life of an executor, whatever its parts answer.  It serves requests and registers only
    after recovery succeeded and it listens; completions are delivered from the moment
    recovery succeeded until executions were drained, and the server stops after
    that; the connection to the scheduler is closed last. *)
Theorem executor_starts_and_stops_in_order listen timeout :
  execution (Run listen timeout) [] (λ log err,
    (err ≠ None ∧ stages log = [Recovering false; DeliveryEnded; Closed]) ∨
    (err ≠ None ∧ stages log = [Recovering true; Delivering; Listening false; DeliveryEnded; Closed]) ∨
    (err ≠ None ∧ stages log = [Recovering true; Delivering; Listening true; DeliveryEnded; Closed]) ∨
    stages log = [Recovering true; Delivering; Listening true; Serving; Registering; Draining; DeliveryEnded;
                  Stopped; DeliveryEnded; Closed]).
Proof.
  unfold Run. next_part. destruct b as [err|].
  { eapply traces_mono; [|apply deferred_stages]. intros log r _ [-> ->]. by left. }
  do 2 next_part. destruct b0 as [err|].
  { eapply traces_mono; [|apply deferred_stages]. intros log r _ [-> ->]. right. by left. }
  next_part. destruct b0 as [err|].
  { eapply traces_mono; [|apply deferred_stages]. intros log r _ [-> ->]. right. right. by left. }
  do 4 next_part. apply traces_bind. eapply traces_mono; [|apply shut_down_stages].
  intros log err _ Hl. eapply traces_mono; [|apply deferred_stages]. intros log' r _ [_ ->]. right. right. right.
  by rewrite Hl.
Qed.
End ExecutorMain.
