(* ===== verification/Discovery.v ===== *)
(** * Service discovery

    [internal/discovery]: the registration of an instance under a lease, the resolver
    that follows the registered instances ([etcd.go]), and the registry of executors
    that publishes a node before the database takes it ([executor_registry.go]).
    What etcd answers is an effect; the database is the store of the programs. *)
From Stdlib Require Import ZArith Lia Ascii String Sorted.
From stdpp Require Import base list strings gmap.
From S2P Require Import Prelude GoStrings Utf8 GoNet Tables Programs Executors ExecutorStore Api.

(** [json.Marshal] and [json.Unmarshal] on the two kinds of registration; their fields
    are strings, booleans and times of the clock, which are always encoded. *)
Record ExecutorMetadata := mk_executor_metadata {
  em_TenantID : string; em_GroupID : string; em_NodeID : string; em_Address : string;
  em_Labels : list string; em_UpdatedAt : time;
}.
Class DiscoveryFormats := {
  encode_instance : Metadata → string;
  decode_instance : string → option Metadata;
  encode_executor : ExecutorMetadata → string;
  decode_executor : string → option ExecutorMetadata;
}.

Module Discovery.
Import GoPath Programs Executors.

(** ** etcd *)

Record KeyValue := mk_kv { kv_Key : string; kv_Value : string; kv_ModRevision : Z; kv_Lease : Z }.
(** The next element of a channel of keep-alive responses (a nil response counts as
    the end of the channel), or the end of the context. *)
Inductive keepalive := Renewed | ChannelClosed | ContextDone (err : error).
(** The next element of a watch. *)
Inductive watched := WatchClosed | WatchFailed (err : error) | Changed.

(** What is asked of etcd, of the gRPC connection that is kept up to date, and of
    the process.  [Get] answers the pairs and the revision of the store. *)
Inductive etcd : Type → Type :=
| Grant (ttl : Z) : etcd (result Z)
| Put (key value : string) (lease : Z) : etcd (option error)
| KeepAlive (lease : Z) : etcd (option error)
| NextKeepAlive (lease : Z) : etcd keepalive
| Revoke (lease : Z) : etcd (option error)
| Get (key : string) (withPrefix : bool) : etcd (result (list KeyValue * Z))
| DeleteKey (key : string) : etcd (option error)
| DeleteIfUnchanged (key : string) (revision : Z) : etcd unit
| TimeToLive (lease : Z) : etcd (result Z)
| Watch (prefix : string) (revision : Z) : etcd unit
| NextWatch : etcd watched
| ReportError (err : error) : etcd unit
| UpdateState (addresses : list (string * string)) : etcd unit
| Wait (d : duration) : etcd bool          (* [false] when the context ends first *)
| ContextErr : etcd (option error)
| ReadFile (name : string) : etcd (result string)
| LoadX509KeyPair (certFile keyFile : string) : etcd (option error)
| ClockNow : etcd time.
Notation discovery := (prog etcd).

(** ** The client *)

(** The parts of a [tls.Config] that are configured: the roots and the pair of files. *)
Record tls_config := mk_tls { RootCAs : option string; Certificates : option (string * string) }.
Definition loadTLS (AppendCertsFromPEM : string → bool) (caFile certFile keyFile : string)
    : discovery (result (option tls_config)) :=
  if (caFile ==s "") && (certFile ==s "") && (keyFile ==s "") then mret (Ok None)
  else
    roots ← (if caFile !=s "" then
               pem ← effect (ReadFile caFile);
               mret (match pem with
                     | Err err => Err (ErrMsg ("read etcd CA: " +:+ error_text err))
                     | Ok pem => if negb (AppendCertsFromPEM pem) then Err (ErrMsg "parse etcd CA") else Ok (Some pem)
                     end)
             else mret (Ok None));
    match roots with
    | Err err => mret (Err err)
    | Ok roots =>
        if (certFile !=s "") || (keyFile !=s "") then
          if (certFile ==s "") || (keyFile ==s "")
          then mret (Err (ErrMsg "etcd client certificate and key must be configured together"))
          else
            loaded ← effect (LoadX509KeyPair certFile keyFile);
            mret (match loaded with
                  | Some err => Err (ErrMsg ("load etcd client certificate: " +:+ error_text err))
                  | None => Ok (Some (mk_tls roots (Some (certFile, keyFile))))
                  end)
        else mret (Ok (Some (mk_tls roots None)))
    end.

(** ** Instances *)

Record Registrar := mk_registrar { rg_key : string; rg_value : string }.

Section instances.
Context `{DiscoveryFormats}.

Definition NewRegistrar (prefix service : string) (m : Metadata) : Registrar :=
  mk_registrar (path_Join [prefix; service; md_InstanceID m]) (encode_instance m).

(** The responses are received until the channel is closed or the context ends;
    [None] after [fuel] responses. *)
Fixpoint keep_alive (fuel : nat) (lease : Z) : discovery (option error) :=
  match fuel with
  | O => mret None
  | S fuel =>
      next ← effect (NextKeepAlive lease);
      match next with
      | Renewed => keep_alive fuel lease
      | ChannelClosed => mret (Some (ErrMsg "keepalive channel closed"))
      | ContextDone err => mret (Some err)
      end
  end.

(** The lease that [Close] revokes, and the error, [None] while it is kept alive. *)
Definition register (fuel : nat) (r : Registrar) (held : Z) : discovery (Z * option error) :=
  granted ← effect (Grant 15);
  match granted with
  | Err err => mret (held, Some err)
  | Ok lease =>
      put ← effect (Put (rg_key r) (rg_value r) lease);
      match put with
      | Some err => mret (lease, Some err)
      | None =>
          kept ← effect (KeepAlive lease);
          match kept with
          | Some err => mret (lease, Some err)
          | None => err ← keep_alive fuel lease; mret (lease, err)
          end
      end
  end.

(** [Registrar.Run]: [rounds] attempts at most. *)
Fixpoint run_registrar (rounds fuel : nat) (r : Registrar) (held : Z) : discovery (Z * option error) :=
  match rounds with
  | O => mret (held, None)
  | S rounds =>
      outcome ← register fuel r held;
      match outcome.2 with
      | None => mret outcome
      | Some _ =>
          more ← effect (Wait second);
          if (more : bool) then run_registrar rounds fuel r outcome.1
          else err ← effect ContextErr; mret (outcome.1, err)
      end
  end.

Definition close_registrar (held : Z) : discovery (option error) :=
  if negb (held =? 0) then effect (Revoke held) else mret None.

(** ** The resolver *)

(** Addresses with the names of their instances. *)
Definition published (kvs : list KeyValue) : list (string * string) :=
  omap (λ kv, match decode_instance (kv_Value kv) with
              | Some m => if negb (md_Draining m) && (md_GRPCAddress m !=s "")
                          then Some (md_GRPCAddress m, md_InstanceID m) else None
              | None => None
              end) kvs.
Definition publish (kvs : list KeyValue) : discovery unit := effect (UpdateState (published kvs)).

(** [for event := range watch]: whether the outer loop starts again at once. *)
Fixpoint watch_events (fuel : nat) (prefix : string) : discovery bool :=
  match fuel with
  | O => mret false
  | S fuel =>
      event ← effect NextWatch;
      match event with
      | WatchClosed => mret false
      | WatchFailed err => _ ← effect (ReportError err); mret true
      | Changed =>
          latest ← effect (Get prefix true);
          match latest with
          | Err err => _ ← effect (ReportError err); watch_events fuel prefix
          | Ok (kvs, _) => _ ← publish kvs; watch_events fuel prefix
          end
      end
  end.

(** [etcdResolver.watch]: [rounds] rounds of its outer loop at most. *)
Fixpoint watch (rounds fuel : nat) (prefix : string) : discovery unit :=
  match rounds with
  | O => mret tt
  | S rounds =>
      gone ← effect ContextErr;
      match gone with
      | Some _ => mret tt
      | None =>
          resp ← effect (Get prefix true);
          match resp with
          | Err err =>
              _ ← effect (ReportError err);
              more ← effect (Wait second);
              if (more : bool) then watch rounds fuel prefix else mret tt
          | Ok (kvs, revision) =>
              _ ← publish kvs;
              _ ← effect (Watch prefix (revision + 1));
              restart ← watch_events fuel prefix;
              if (restart : bool) then watch rounds fuel prefix
              else
                more ← effect (Wait second);
                if (more : bool) then watch rounds fuel prefix else mret tt
          end
      end
  end.
Definition resolver_prefix (prefix endpoint : string) : string := path_Join [prefix; endpoint].
End instances.

(** ** Executors *)

Section executors.
Context `{DiscoveryFormats} (prefix : string). (* [NewExecutorRegistry] was given it *)

Definition registry_prefix : string := path_Join [prefix; "executors"].
Definition key (tenantID groupID nodeID : string) : string :=
  path_Join [registry_prefix; tenantID; groupID; nodeID].

(** The lease is revoked after a failure, whatever becomes of the context. *)
Definition fail_revoked {A} (lease : Z) (err : error) : discovery (result A) :=
  _ ← effect (Revoke lease);
  mret (Err err).

Definition RegisterExecutorNode (tenantID groupID nodeID address : string) (ttl : duration)
    (labels : list string) : discovery (result ExecutorNode) :=
  now ← effect ClockNow;
  let metadata := mk_executor_metadata tenantID groupID nodeID address labels now in
  granted ← effect (Grant (ttl / second));
  match granted with
  | Err err => mret (Err (ErrMsg ("grant executor lease: " +:+ error_text err)))
  | Ok lease =>
      let k := key tenantID groupID nodeID in
      put ← effect (Put k (encode_executor metadata) lease);
      match put with
      | Some err => fail_revoked lease (ErrMsg ("publish executor: " +:+ error_text err))
      | None =>
          got ← effect (Get k false);
          match got with
          | Err err => fail_revoked lease (ErrMsg ("read published executor: " +:+ error_text err))
          | Ok ([kv], _) =>
              node ← store (ExecutorStore.RegisterExecutorNode tenantID groupID nodeID address ttl labels);
              match node with
              | Ok node => mret (Ok node)
              | Err err =>
                  _ ← effect (DeleteIfUnchanged k (kv_ModRevision kv));
                  fail_revoked lease err
              end
          | Ok _ => fail_revoked lease (ErrMsg "published executor disappeared")
          end
      end
  end.

Definition UnregisterExecutorNode (tenantID groupID nodeID : string) : discovery (result unit) :=
  removed ← effect (DeleteKey (key tenantID groupID nodeID));
  match removed with
  | Some err => mret (Err (ErrMsg ("remove executor registration: " +:+ error_text err)))
  | None => store (ExecutorStore.UnregisterExecutorNode tenantID groupID nodeID)
  end.


End executors.
End Discovery.

(** * Service discovery, proofs

    What etcd promises ([serves]: leases, revisions, requests that fail after they took
    effect), what the other clients may do in the meantime, and the executor registry
    against both: a registration that fails is withdrawn, and its rollback leaves the
    registrations of others alone when they leave its key alone. *)

Module DiscoveryProofs.
Import Utf8 GoPath Programs Executors Discovery.

(** ** A cluster *)

(** The pairs, the leases that were granted to this process, whether one of its
    revocations was not confirmed, and whether it removed a pair of another process. *)
Record cluster := mk_cluster {
  pairs : gmap string KeyValue;
  mine : gset Z;
  unconfirmed : bool;
  robbed : bool;
}.
Definition with_pairs (f : gmap string KeyValue → gmap string KeyValue) (c : cluster) : cluster :=
  mk_cluster (f (pairs c)) (mine c) (unconfirmed c) (robbed c).
Definition without_lease (lease : Z) : gmap string KeyValue → gmap string KeyValue :=
  filter (λ p, kv_Lease p.2 ≠ lease).
(** The conditional deletion, and whether it takes the pair of another process. *)
Definition unchanged (k : string) (revision : Z) (c : cluster) : bool :=
  match pairs c !! k with Some kv => kv_ModRevision kv =? revision | None => false end.
Definition foreign (k : string) (c : cluster) : bool :=
  match pairs c !! k with Some kv => negb (bool_decide (kv_Lease kv ∈ mine c)) | None => false end.
Definition delete_if_unchanged (k : string) (revision : Z) (c : cluster) : cluster :=
  if unchanged k revision c
  then mk_cluster (delete k (pairs c)) (mine c) (unconfirmed c) (robbed c || foreign k c)
  else c.

(** The documented behaviour of the requests a registration makes.  A request that
    fails may have taken effect; a fresh lease has no pairs. *)
Definition serves {B} (eff : etcd B) : cluster → B → cluster → Prop :=
  match eff with
  | Grant _ => λ c r c', match r with
      | Ok lease => lease ∉ mine c ∧ (∀ k kv, pairs c !! k = Some kv → kv_Lease kv ≠ lease) ∧
                    c' = mk_cluster (pairs c) ({[lease]} ∪ mine c) (unconfirmed c) (robbed c)
      | Err _ => c' = c
      end
  | Put k v lease => λ c r c',
      (r ≠ None ∧ c' = c) ∨ (∃ revision, c' = with_pairs (<[k := mk_kv k v revision lease]>) c)
  | Get k false => λ c r c', c' = c ∧ match r with
      | Ok (kvs, _) => kvs = match pairs c !! k with Some kv => [kv] | None => [] end
      | Err _ => True
      end
  | DeleteIfUnchanged k revision => λ c _ c', c' = c ∨ c' = delete_if_unchanged k revision c
  | Revoke lease => λ c r c', match r with
      | None => c' = with_pairs (without_lease lease) c
      | Some _ => pairs c' ⊆ pairs c ∧ mine c' = mine c ∧ unconfirmed c' = true ∧ robbed c' = robbed c
      end
  | _ => λ c _ c', c' = c
  end.

(** Every execution of a program ends as [Q] says: other processes change the
    cluster as [others] allows before each request, and the database as they like. *)
Fixpoint executes {A} (others : cluster → cluster → Prop) (p : prog etcd A) (c : cluster) (s : db)
    (Q : cluster → db → A → Prop) : Prop :=
  match p with
  | Return a => Q c s a
  | Store m k => ∀ e s1, executes others (k (commit m e s1).1) c (commit m e s1).2 Q
  | Effect eff k => ∀ c1 b c2, others c c1 → serves eff c1 b c2 → executes others (k b) c2 s Q
  end.

(** Others do not use the leases of this process: the pairs with them were there. *)
Definition others_own (c c' : cluster) : Prop :=
  mine c' = mine c ∧ unconfirmed c' = unconfirmed c ∧ robbed c' = robbed c ∧
  ∀ k kv, pairs c' !! k = Some kv → pairs c !! k = Some kv ∨ kv_Lease kv ∉ mine c'.
(** Others leave this key alone, and its lease does not expire. *)
Definition others_avoid (k : string) (c c' : cluster) : Prop :=
  others_own c c' ∧ pairs c' !! k = pairs c !! k.

Lemma executes_mono {A} R (p : prog etcd A) c s (Q Q' : cluster → db → A → Prop) :
  (∀ c s a, Q c s a → Q' c s a) → executes R p c s Q → executes R p c s Q'.
Proof. intros HQ. revert c s. induction p as [a|B m k IH|B eff k IH]; intros c s; cbn; naive_solver. Qed.
Lemma executes_others {A} (R R' : cluster → cluster → Prop) (p : prog etcd A) c s Q :
  (∀ c c', R' c c' → R c c') → executes R p c s Q → executes R' p c s Q.
Proof. intros HR. revert c s. induction p as [a|B m k IH|B eff k IH]; intros c s; cbn; naive_solver. Qed.

(** ** Leases *)

(** No pair has a lease of this process. *)
Definition nothing_held (c : cluster) : Prop := ∀ k kv, pairs c !! k = Some kv → kv_Lease kv ∉ mine c.

Lemma nothing_held_others c c' : others_own c c' → nothing_held c → nothing_held c'.
Proof. intros (Hm & _ & _ & Ho) Hh k kv Hk. destruct (Ho k kv Hk) as [Hc|Hc]; [|done]. rewrite Hm. by apply (Hh k). Qed.

(** What every request keeps: pairs with leases of this process have the lease [l],
    the key [k] and the value [v]. *)
Definition ours (l : Z) (k v : string) (c : cluster) : Prop :=
  ∀ k' kv, pairs c !! k' = Some kv → kv_Lease kv ∈ mine c → kv_Lease kv = l ∧ k' = k ∧ kv_Value kv = v.

Lemma ours_others l k v c c' : others_own c c' → ours l k v c → ours l k v c'.
Proof.
  intros (Hm & _ & _ & Ho) Hh k' kv Hk Hin. destruct (Ho k' kv Hk) as [Hc|Hc]; [|done].
  apply (Hh k' kv Hc). by rewrite <- Hm.
Qed.
Lemma ours_nothing l k v c : nothing_held c → ours l k v c.
Proof. intros Hn k' kv Hk Hin. by destruct (Hn k' kv Hk). Qed.
Lemma ours_fewer l k v c c' : pairs c' ⊆ pairs c → mine c' = mine c → ours l k v c → ours l k v c'.
Proof. intros Hs Hm Ho k' kv Hk. rewrite Hm. apply Ho. by apply (lookup_weaken _ _ _ _ Hk). Qed.
Lemma ours_put l k v rev c : ours l k v c → ours l k v (with_pairs (<[k := mk_kv k v rev l]>) c).
Proof.
  intros Ho k' kv Hk Hin. cbn in Hk, Hin. apply lookup_insert_Some in Hk as [[<- <-]|[_ Hk]]; [done|]. by apply Ho.
Qed.
Lemma granted_nothing l c :
  (∀ k kv, pairs c !! k = Some kv → kv_Lease kv ≠ l) → nothing_held c →
  nothing_held (mk_cluster (pairs c) ({[l]} ∪ mine c) (unconfirmed c) (robbed c)).
Proof. intros Hf Hn k kv Hk. cbn in *. pose proof (Hf k kv Hk). pose proof (Hn k kv Hk). set_solver. Qed.
Lemma revoked_nothing l k v c : ours l k v c → nothing_held (with_pairs (without_lease l) c).
Proof.
  intros Ho k' kv Hk Hin. cbn in *. apply map_lookup_filter_Some in Hk as [Hk Hl]. by destruct (Ho k' kv Hk Hin).
Qed.
Lemma delete_fewer k rev c :
  pairs (delete_if_unchanged k rev c) ⊆ pairs c ∧ mine (delete_if_unchanged k rev c) = mine c.
Proof. unfold delete_if_unchanged. destruct (unchanged k rev c); [|done]. split; [apply delete_subseteq|done]. Qed.

Section registry.
Context `{DiscoveryFormats} (prefix : string).

(** Nothing is left under a lease of the process, or a revocation is unconfirmed. *)
Definition withdrawn (c : cluster) : Prop := unconfirmed c = true ∨ nothing_held c.

Lemma fail_revoked_withdraws {A} l k v err c s (Q : cluster → db → result A → Prop) :
  ours l k v c → (∀ c' s' err, withdrawn c' → Q c' s' (Err err)) →
  executes others_own (fail_revoked l err) c s Q.
Proof.
  intros Ho HQ c1 r c2 Hc Hs. cbn. apply HQ. cbn in Hs. destruct r as [e|].
  - left. apply Hs.
  - right. subst c2. eapply revoked_nothing, ours_others; done.
Qed.

(** The metadata of a node at a time of the clock. *)
Definition announces (tenantID groupID nodeID address : string) (labels : list string) (v : string) : Prop :=
  ∃ t, v = encode_executor (mk_executor_metadata tenantID groupID nodeID address labels t).

Lemma registration_withdrawn tenantID groupID nodeID address ttl labels c s :
  nothing_held c →
  executes others_own (RegisterExecutorNode prefix tenantID groupID nodeID address ttl labels) c s (λ c' s' r,
    match r with
    | Ok node =>
        (∃ e s1, commit (ExecutorStore.RegisterExecutorNode tenantID groupID nodeID address ttl labels) e s1 = (Ok node, s'))
        ∧ ∃ l v, announces tenantID groupID nodeID address labels v ∧ ours l (key prefix tenantID groupID nodeID) v c'
    | Err _ => withdrawn c'
    end).
Proof.
  intros Hn c0 t c1 Hc0 E. cbn in E. subst c1. apply (nothing_held_others _ _ Hc0) in Hn.
  intros c1 granted c2 Hc1 Hg. apply (nothing_held_others _ _ Hc1) in Hn.
  destruct granted as [l|err]; cbn in Hg; [|right; by subst].
  destruct Hg as (_ & Hf & ->). pose proof (granted_nothing l c1 Hf Hn) as Hn'. clear Hn Hf Hc1 Hc0.
  set (k := key prefix tenantID groupID nodeID).
  set (v := encode_executor _). set (c2 := mk_cluster _ _ _ _) in *. clearbody c2.
  intros c3 put c4 Hc3 Hp. apply (nothing_held_others _ _ Hc3) in Hn'.
  assert (Ho : ours l k v c4).
  { destruct Hp as [[_ ->]|[rev ->]]; [by apply ours_nothing|]. apply ours_put. by apply ours_nothing. }
  destruct put as [err|]; [by apply (fail_revoked_withdraws l k v)|].
  intros c5 got c6 Hc5 [-> Hg]. apply (ours_others _ _ _ _ _ Hc5) in Ho.
  destruct got as [[[|kv [|kv' kvs]] n]|err]; try (by apply (fail_revoked_withdraws l k v)).
  intros e s1. destruct (commit _ e s1) as [[node|err] s2] eqn:Ec; cbn [fst snd].
  - split; [eauto|]. exists l, v. split; [by exists t|done].
  - intros c7 [] c8 Hc7 Hd. apply (ours_others _ _ _ _ _ Hc7) in Ho.
    apply (fail_revoked_withdraws l k v); [|done]. destruct Hd as [->| ->]; [done|].
    destruct (delete_fewer k (kv_ModRevision kv) c7). by eapply ours_fewer.
Qed.

(** ** Undisturbed registrations *)

(** The key holds the announcement, under a lease of the process. *)
Definition stands (k v : string) (c : cluster) : Prop :=
  ∃ kv, pairs c !! k = Some kv ∧ kv_Value kv = v ∧ kv_Lease kv ∈ mine c.

Lemma stands_others k v c c' : others_avoid k c c' → stands k v c → stands k v c'.
Proof. intros [(Hm & _) Hk] (kv & ? & ? & ?). exists kv. by rewrite Hk, Hm. Qed.
Lemma robbed_others k c c' : others_avoid k c c' → robbed c' = robbed c.
Proof. intros [(_ & _ & Hr & _) _]. done. Qed.

Lemma fail_revoked_keeps {A} k l err c s (Q : cluster → db → result A → Prop) :
  (∀ c' s' err, robbed c' = robbed c → Q c' s' (Err err)) →
  executes (others_avoid k) (fail_revoked l err) c s Q.
Proof.
  intros HQ c1 r c2 Hc Hs. cbn. apply HQ. rewrite <- (robbed_others _ _ _ Hc). cbn in Hs.
  destruct r as [e|]; [apply Hs|by subst].
Qed.

Lemma stands_not_foreign k v c : stands k v c → foreign k c = false.
Proof. intros (kv & Hk & _ & Hl). unfold foreign. by rewrite Hk, bool_decide_true. Qed.

Lemma registration_stands tenantID groupID nodeID address ttl labels c s :
  executes (others_avoid (key prefix tenantID groupID nodeID))
    (RegisterExecutorNode prefix tenantID groupID nodeID address ttl labels) c s (λ c' s' r,
    robbed c' = robbed c ∧
    match r with
    | Ok _ => ∃ v, announces tenantID groupID nodeID address labels v ∧ stands (key prefix tenantID groupID nodeID) v c'
    | Err _ => True
    end).
Proof.
  set (k := key prefix tenantID groupID nodeID).
  intros c0 t c1 Hc0 E. cbn in E. subst c1. rewrite <- (robbed_others _ _ _ Hc0). clear Hc0.
  intros c1 granted c2 Hc1 Hg. rewrite <- (robbed_others _ _ _ Hc1). clear Hc1.
  destruct granted as [l|err]; cbn in Hg; [|by subst]. destruct Hg as (_ & _ & ->).
  set (c2 := mk_cluster _ _ _ _). assert (Hl : l ∈ mine c2) by set_solver. change (robbed c1) with (robbed c2). clearbody c2.
  fold k. set (v := encode_executor _).
  intros c3 put c4 Hc3 Hp. rewrite <- (robbed_others _ _ _ Hc3). destruct Hc3 as [(Hm & _) _]. rewrite <- Hm in Hl. clear Hm.
  destruct put as [err|].
  { apply fail_revoked_keeps. intros c' s' _ ->. by destruct Hp as [[_ ->]|[rev ->]]. }
  destruct Hp as [[[] _]|[rev ->]]; [done|]. set (c4 := with_pairs _ c3). change (robbed c3) with (robbed c4).
  assert (Hs : stands k v c4) by (eexists; split; [apply lookup_insert_eq|done]). clearbody c4.
  intros c5 got c6 Hc5 [-> Hg]. rewrite <- (robbed_others _ _ _ Hc5). apply (stands_others _ _ _ _ Hc5) in Hs.
  destruct got as [[[|kv [|kv' kvs]] n]|err]; try (by apply fail_revoked_keeps; intros c' s' _ ->).
  intros e s1. destruct (commit _ e s1) as [[node|err] s2]; cbn [fst snd].
  - split; [done|]. exists v. split; [by exists t|done].
  - intros c7 [] c8 Hc7 Hd. apply (stands_others _ _ _ _ Hc7) in Hs. apply fail_revoked_keeps. intros c' s' _ ->.
    rewrite <- (robbed_others _ _ _ Hc7). split; [|done]. destruct Hd as [->| ->]; [done|].
    unfold delete_if_unchanged. destruct (unchanged _ _ _); [|done]. cbn [robbed].
    by rewrite (stands_not_foreign _ _ _ Hs), orb_false_r.
Qed.

(** C20: Registering an executor node in etcd and in the database, whatever fails and
    whatever other processes do between the requests.  The registration succeeds only if
    the database took the node.  When it fails, nothing it published is left under its
    lease, unless the revocation of the lease was not confirmed.  When it succeeds, it
    published nothing but its own announcement under its own key; and if nobody else
    writes that key meanwhile, the key holds the announcement in the end, and no
    registration of another process was removed. *)
Theorem failed_registration_is_withdrawn tenantID groupID nodeID address ttl labels c s :
  nothing_held c →
  executes others_own (RegisterExecutorNode prefix tenantID groupID nodeID address ttl labels) c s (λ c' s' r,
    match r with
    | Ok node =>
        (∃ e s1, commit (ExecutorStore.RegisterExecutorNode tenantID groupID nodeID address ttl labels) e s1 = (Ok node, s'))
        ∧ ∃ l v, announces tenantID groupID nodeID address labels v ∧ ours l (key prefix tenantID groupID nodeID) v c'
    | Err _ => withdrawn c'
    end) ∧
  executes (others_avoid (key prefix tenantID groupID nodeID))
    (RegisterExecutorNode prefix tenantID groupID nodeID address ttl labels) c s (λ c' s' r,
    robbed c' = robbed c ∧
    match r with
    | Ok _ => ∃ v, announces tenantID groupID nodeID address labels v ∧ stands (key prefix tenantID groupID nodeID) v c'
    | Err _ => True
    end).
Proof. intros Hn. split; [by apply registration_withdrawn|apply registration_stands]. Qed.

(** The rollback of a failed registration can remove the registration of another
    process.  The revision it is conditional on is read after the publication, so a
    registration of the same node that is published in between passes for its own. *)
Theorem rollback_removes_later_registration tenantID groupID nodeID address ttl labels s :
  ¬ executes others_own (RegisterExecutorNode prefix tenantID groupID nodeID address ttl labels)
      (mk_cluster ∅ ∅ false false) s (λ c' _ _, robbed c' = false).
Proof.
  set (k := key prefix tenantID groupID nodeID). intros Hex.
  set (theirs := mk_kv k "theirs" 9 2).
  assert (Hrefl : ∀ c, others_own c c) by (intros c; repeat split; auto).
  specialize (Hex _ 0 _ (Hrefl _) eq_refl).
  set (c1 := mk_cluster ∅ {[1]} false false).
  assert (Hg : serves (Grant (ttl / second)) (mk_cluster ∅ ∅ false false) (Ok 1) c1).
  { split; [set_solver|]. split; [done|]. unfold c1. cbn. by rewrite (right_id_L ∅ (∪)). }
  specialize (Hex _ (Ok 1) c1 (Hrefl _) Hg). fold k in Hex. set (v := encode_executor _) in Hex.
  specialize (Hex _ None _ (Hrefl _) (or_intror (ex_intro _ 8 eq_refl))).
  set (c2 := mk_cluster {[k := theirs]} {[1]} false false).
  assert (Ho : others_own (with_pairs <[k := mk_kv k v 8 1]> c1) c2).
  { repeat split. cbn. intros k' kv [_ <-]%lookup_singleton_Some. right. set_solver. }
  assert (Hr : serves (Get k false) c2 (Ok ([theirs], 9)) c2) by (split; [done|by cbn; rewrite lookup_singleton_eq]).
  specialize (Hex c2 _ c2 Ho Hr). cbn in Hex.
  specialize (Hex (mk_env 0 (λ _, true)) (set_executor_groups [] s)).
  unfold commit, ExecutorStore.RegisterExecutorNode in Hex. cbn in Hex.
  specialize (Hex _ tt _ (Hrefl _) (or_intror eq_refl)).
  specialize (Hex _ None _ (Hrefl _) eq_refl). revert Hex.
  unfold delete_if_unchanged, unchanged, foreign. cbn. rewrite !lookup_singleton_eq. cbn.
  rewrite bool_decide_false by set_solver. done.
Qed.

(** ** Listing *)







End registry.

(** ** Keys *)

Lemma Split_plain e : plain e = true → Split e "/" = [e].
Proof.
  intros He. unfold Split. rewrite Split_aux_single; [done|]. unfold plain in He.
  apply andb_true_iff in He as [_ He%negb_true_iff]. exact He.
Qed.
Lemma Split_up e f : plain e = true → plain f = true → Split ("../" +:+ e +:+ "/" +:+ f) "/" = [".."; e; f].
Proof.
  intros He Hf. change ("../" +:+ e +:+ "/" +:+ f) with (Join [".."; e; f] "/").
  rewrite Split_joined by done. cbn [map concat]. by rewrite (Split_plain e), (Split_plain f).
Qed.

(** The elements of the prefix of the registry. *)
Definition base (prefix : string) : list string := elements prefix ++ ["executors"].
Lemma base_plain prefix : rooted prefix = true → Forall (λ e, plain e = true) (base prefix).
Proof. intros Hr. apply Forall_app. split; [by apply elements_plain|by repeat constructor]. Qed.
Lemma registry_prefix_elements prefix :
  rooted prefix = true → registry_prefix prefix = "/" +:+ Join (base prefix) "/".
Proof.
  intros Hr. unfold registry_prefix. rewrite path_Join_rooted by done.
  change (concat (map _ ["executors"])) with ["executors"]. cbn [foldl]. rewrite push_plain by done.
  cbn [rev]. by rewrite rev_involutive.
Qed.
Lemma key_elements prefix t g n :
  rooted prefix = true → plain t = true → plain g = true →
  key prefix t g n = "/" +:+ Join (rev (foldl (push true) (g :: t :: rev (base prefix)) (Split n "/"))) "/".
Proof.
  intros Hr Ht Hg. unfold key. rewrite (registry_prefix_elements _ Hr).
  destruct (elements_rooted _ (base_plain _ Hr)) as [He Hp]. rewrite (path_Join_rooted _ _ Hp), He.
  cbn [map concat]. rewrite !Split_plain, app_nil_r by done. cbn [app foldl]. by rewrite !push_plain.
Qed.
Lemma plain_key prefix t g n :
  rooted prefix = true → plain t = true → plain g = true → plain n = true →
  key prefix t g n = "/" +:+ Join (base prefix ++ [t; g; n]) "/".
Proof.
  intros Hr Ht Hg Hn. rewrite key_elements, Split_plain by done. cbn [foldl]. rewrite push_plain by done. cbn [rev].
  by rewrite rev_involutive, <- !app_assoc.
Qed.

(** The keys of registrations.  For tenants, groups and nodes whose identifiers
    are proper path elements, two registrations share a key only if they are of the same
    node of the same group of the same tenant.  A node identifier is not restricted so:
    that of a node which climbs one level out of its group has the key of a node of
    another group. *)
Theorem keys_separate_plain_nodes prefix t g n t' g' n' :
  rooted prefix = true → Forall (λ e, plain e = true) [t; g; n; t'; g'; n'] →
  (key prefix t g n = key prefix t' g' n' → t = t' ∧ g = g' ∧ n = n') ∧
  key prefix t g ("../" +:+ g' +:+ "/" +:+ n') = key prefix t g' n'.
Proof.
  intros Hr Hall. rewrite !Forall_cons in Hall. destruct Hall as (Ht & Hg & Hn & Ht' & Hg' & Hn' & _). split.
  - rewrite !plain_key by done. intros E. apply (f_equal elements) in E.
    assert (Hb : ∀ a b c, plain a = true → plain b = true → plain c = true → elements ("/" +:+ Join (base prefix ++ [a; b; c]) "/") = base prefix ++ [a; b; c]).
    { intros a b c Ha Hb Hc. apply elements_rooted, Forall_app. split; [by apply base_plain|by repeat constructor]. }
    rewrite !Hb in E by done. apply app_inv_head in E. by injection E.
  - rewrite key_elements, Split_up, plain_key by done. cbn [foldl].
    assert (Hu : push true (g :: t :: rev (base prefix)) ".." = t :: rev (base prefix)).
    { unfold push. cbn. destruct (String.eqb_spec g ".."); [by subst|done]. }
    rewrite Hu, !push_plain by done. cbn [rev]. by rewrite rev_involutive, <- !app_assoc.
Qed.
Lemma keys_separate_plain_nodes_witness :
  key "/services" "t" "g" "n" ≠ key "/services" "t" "h" "n" ∧
  key "/services" "t" "g" "../h/n" = key "/services" "t" "h" "n".
Proof.
  destruct (keys_separate_plain_nodes "/services" "t" "g" "n" "t" "h" "n" eq_refl) as [Hne Heq];
    [by repeat constructor|]. split; [|exact Heq]. intros E. destruct (Hne E) as (_ & [=] & _).
Defined.

(** ** A format *)
Definition written (m : ExecutorMetadata) : string := em_NodeID m +:+ "@" +:+ em_Address m.
Definition some_formats : DiscoveryFormats :=
  {| encode_instance := md_InstanceID; decode_instance := λ _, None;
     encode_executor := written; decode_executor := λ _, None |}.

Definition some_cluster : cluster := mk_cluster {["/other" := mk_kv "/other" "" 1 7]} ∅ false false.

Lemma failed_registration_is_withdrawn_witness :
  nothing_held some_cluster ∧
  ∀ s, executes others_own (@RegisterExecutorNode some_formats "/services" "t" "g" "n" "http://n" (30 * second) []) some_cluster s
    (λ c' _ r, match r with Ok _ => True | Err _ => withdrawn c' end).
Proof.
  assert (Hn : nothing_held some_cluster) by (intros k kv _; cbn; set_solver).
  split; [exact Hn|]. intros s.
  destruct (@failed_registration_is_withdrawn some_formats "/services" "t" "g" "n" "http://n" (30 * second) [] _ s Hn) as [Hw _].
  eapply executes_mono; [|exact Hw]. intros c' s' [node|err]; [done|tauto].
Defined.
End DiscoveryProofs.
