(* ===== verification/ApiProofs.v ===== *)
(** * Properties of the HTTP interface

    Every procedure that a request leads to is one its sender may call, whatever
    the control plane, the clock and the registry answer; tokens are issued to
    users who proved who they are. *)
From Stdlib Require Import ZArith Lia Ascii String.
From stdpp Require Import base list strings option sets.
From S2P Require Import Prelude GoStrings GoTime Utf8 Tables Programs Traces JobStore RunLogs JobService Services Operations Engine LoginLimiter Auth Identity ControlPlane Api.

Module ApiProofs.
Import Utf8 Programs Traces JobStore RunLogs JobService Services Operations LoginLimiter Auth Identity ControlPlane Api.

Notation event := (Traces.event call).
Definition logged {B} (c : call B) (b : B) : list event := [happened c b].
Notation asked r b := (happened (Rpc r) (inr b)).

(** ** Who may call what *)

Section authority.
Context `{ApiFormats} `{JwtLib} `{Argon2} `{Sha256} (s : Server) (rq : http_request).

(** The credential of the request. *)
Definition bearer : string := TrimPrefix (rq_Authorization rq) "Bearer ".

(** The control plane reported the principal's rights: for an API key the tenant
    and the role of the key; for an access token an enabled user, and the role of
    that user in the tenant that the request names. *)
Inductive vouched (log : list event) : principal → Prop :=
| by_key tenant role :
    HasPrefix bearer "gsk_" = true →
    asked (RpcAuthenticateAPIKey bearer) (tenant, role) ∈ log →
    vouched log (mk_principal tenant "" role false)
| by_token now claims user :
    happened ApiNow now ∈ log → Parse (sv_auth s) bearer now = Ok claims →
    asked (RpcGetUser (cm_Subject claims)) user ∈ log → pu_Disabled user = false →
    vouched log (mk_principal "" (cm_Subject claims) "" (cm_PlatformAdmin claims))
| by_membership now claims user role :
    happened ApiNow now ∈ log → Parse (sv_auth s) bearer now = Ok claims →
    asked (RpcGetUser (cm_Subject claims)) user ∈ log → pu_Disabled user = false →
    rq_Tenant rq ≠ "" → asked (RpcGetMembershipRole (rq_Tenant rq) (cm_Subject claims)) role ∈ log →
    vouched log (mk_principal (rq_Tenant rq) (cm_Subject claims) role (cm_PlatformAdmin claims)).

(** A user whose password was given, within the limit on attempts. *)
Definition logged_in (log : list event) (user : ProtoUser) : Prop :=
  ∃ email password,
    json_decode LoginShape (readable (rq_Body rq)) (cut_short (rq_Body rq)) = inr (email, password, true) ∧
    happened (Allow (loginLimitKey (rq_RemoteAddr rq) email)) true ∈ log ∧
    asked (RpcGetUserByEmail email) user ∈ log ∧
    pu_Disabled user = false ∧ VerifyPassword (pu_PasswordHash user) password = true.

(** A user whose session was renewed with the cookie of the request. *)
Definition renewed (log : list event) (user : ProtoUser) : Prop :=
  ∃ cookie token userID,
    rq_Cookie rq = Some cookie ∧
    asked (RpcRotateRefreshSession cookie (Z.quot week second)) (token, userID) ∈ log ∧
    asked (RpcGetUser userID) user ∈ log ∧ pu_Disabled user = false.

(** Rights are held by principals that [V] accepts. *)
Section rights.
Context (V : list event → principal → Prop).

Definition acts (log : list event) (tenant : string) (right : principal → bool) : Prop :=
  ∃ p, V log p ∧ pl_TenantID p = tenant ∧ right p = true.
Definition reads (log : list event) (tenant : string) : Prop := acts log tenant (λ _, true).
Definition writes (log : list event) (tenant : string) : Prop := acts log tenant canWriteTenant.
Definition administers (log : list event) (tenant : string) : Prop := acts log tenant canAdministerTenant.
Definition platform (log : list event) : Prop := ∃ p, V log p ∧ canAdministerPlatform p = true.

(** The right that a procedure needs. *)
Definition permitted_rpc (log : list event) {B} (r : rpc B) : Prop :=
  match r with
  | RpcPing | RpcCompleteCallback _ _ _ _ | RpcAppendRunLogs _ _ _ => True
  | RpcAuthenticateAPIKey token => token = bearer
  | RpcGetUser userID =>
      (∃ now claims, happened ApiNow now ∈ log ∧ Parse (sv_auth s) bearer now = Ok claims
                     ∧ cm_Subject claims = userID) ∨
      (∃ cookie token, rq_Cookie rq = Some cookie ∧
         asked (RpcRotateRefreshSession cookie (Z.quot week second)) (token, userID) ∈ log) ∨
      (∃ p, V log p ∧ pl_UserID p = userID)
  | RpcGetUserByEmail email => happened (Allow (loginLimitKey (rq_RemoteAddr rq) email)) true ∈ log
  | RpcGetMembershipRole tenant userID =>
      tenant = rq_Tenant rq ∧
      ∃ now claims user, happened ApiNow now ∈ log ∧ Parse (sv_auth s) bearer now = Ok claims ∧
        cm_Subject claims = userID ∧ asked (RpcGetUser userID) user ∈ log ∧ pu_Disabled user = false
  | RpcListUserTenants userID admin =>
      ∃ p user, V log p ∧ asked (RpcGetUser (pl_UserID p)) user ∈ log ∧
        userID = pu_Id user ∧ admin = pu_PlatformAdmin user
  | RpcCreateRefreshSession userID ttl =>
      ∃ user, logged_in log user ∧ userID = pu_Id user ∧ ttl = Z.quot week second
  | RpcRotateRefreshSession token _ | RpcRevokeRefreshSession token => rq_Cookie rq = Some token
  | RpcListUsers | RpcCreateUser _ _ _ | RpcSetUserDisabled _ _ | RpcListTenants | RpcCreateTenant _
  | RpcListTenantMembers _ | RpcAddMembership _ _ _ | RpcDeleteMembership _ _ => platform log
  | RpcPreviewSchedule _ => ∃ p, V log p
  | RpcGetDashboard t | RpcListKubernetesClusters t | RpcGetKubernetesCluster t _
  | RpcGetJob t _ | RpcListJobs t _ | RpcListJobScriptVersions t _ | RpcListRuns t _ _ _ | RpcGetRun t _
  | RpcGetJobDependencies t _ | RpcListRunLogs t _ _ _ | RpcListExecutorGroups t
  | RpcListExecutorNodes t _ _ | RpcListNotificationChannels t => reads log t
  | RpcGetRunReport i => reads log (rr_TenantID i)
  | RpcListNotificationHistory i => reads log (hi_TenantID i)
  | RpcCreateJob j | RpcUpdateJob j => writes log (from_option pj_TenantId "" j)
  | RpcRollbackJobScriptVersion t _ _ _ _ | RpcSetJobEnabled t _ _ _ | RpcDeleteJob t _ _
  | RpcTriggerJob t _ _ _ _ | RpcCancelRun t _ _ | RpcSetJobDependencies t _ _
  | RpcPurgeRunHistory t _ _ _ | RpcDeleteExecutorGroup t _ _ | RpcUnregisterExecutorNode t _ _
  | RpcSetNotificationChannelEnabled t _ _ _ | RpcDeleteNotificationChannel t _ _ => writes log t
  | RpcCreateExecutorGroup g | RpcUpdateExecutorGroup g => writes log (from_option pg_TenantId "" g)
  | RpcRegisterExecutorNode i => writes log (ri_TenantID i)
  | RpcCreateNotificationChannel i | RpcUpdateNotificationChannel i => writes log (ni_TenantID i)
  | RpcListAPIKeys t | RpcRevokeAPIKey t _ => administers log t
  | RpcCreateAPIKey t _ role =>
      ∃ p, V log p ∧ pl_TenantID p = t ∧ canAdministerTenant p = true ∧
        (one_of role ["owner"; "admin"] = true → pl_Role p = "owner")
  | RpcCreateKubernetesCluster c | RpcUpdateKubernetesCluster c =>
      administers log (from_option pc_TenantId "" c)
  | RpcDeleteKubernetesCluster t _ _ => administers log t
  end.

(** The registry is listed for the platform's administrators; random bytes are
    drawn for the passwords that they set. *)
Definition permitted (log : list event) (B : Type) (c : call B) : Prop :=
  match c with
  | Rpc r => permitted_rpc log r
  | EtcdGet _ | Salt => platform log
  | ApiNow | Allow _ | ResetAttempts _ => True
  end.

End rights.

(** Procedures whose reply is not for the sender of a request as it is: users come
    with the digest of their password, clusters may have credentials. *)
Definition internal {B} (r : rpc B) : bool :=
  match r with
  | RpcGetUser _ | RpcGetUserByEmail _ | RpcListUsers | RpcCreateUser _ _ _ | RpcCreateRefreshSession _ _
  | RpcRotateRefreshSession _ _ | RpcListKubernetesClusters _ | RpcGetKubernetesCluster _ _
  | RpcCreateKubernetesCluster _ | RpcUpdateKubernetesCluster _ => true
  | _ => false
  end.

(** A token in a response is one issued to a user who proved who they are; a
    message in it is the reply of a procedure that is not internal. *)
Definition issued (log : list event) (r : response) : Prop :=
  match ans_Payload r with
  | TokenBody token _ =>
      ∃ user now, (logged_in log user ∨ renewed log user) ∧ happened ApiNow now ∈ log ∧
        token = Issue (sv_auth s) (pu_Id user) (pu_PlatformAdmin user) now
  | Message r b => internal r = false ∧ asked r b ∈ log
  | _ => True
  end.

(** ** Every handler keeps to it *)

Lemma vouched_before log log' p : log `prefix_of` log' → vouched log p → vouched log' p.
Proof. intros Hl Hp. destruct Hp; econstructor; eauto using happened_before. Qed.
Lemma vouched_app log log' p : vouched log p → vouched (log ++ log') p.
Proof. apply vouched_before. by apply prefix_app_r. Qed.

Section rules.
Context (V : list event → principal → Prop) (HV : ∀ log log' p, V log p → V (log ++ log') p).
Notation safe h log := (Traces.traces (@logged) (λ _ _ _, False) (permitted V) h log issued).

Lemma safe_error log code message : safe (mret (writeError code message)) log.
Proof. done. Qed.
Lemma respond_error_issued log err : issued log (respond_error err).
Proof. destruct err as [[] m]; done. Qed.

Lemma safe_forward {B} (r : rpc B) code log :
  internal r = false → permitted_rpc V log r → safe (forward r code) log.
Proof.
  intros Hi Hr. apply traces_bind, traces_effect; [done|]. intros [err|b]; cbn.
  - apply respond_error_issued.
  - destruct (protojson_marshals r b); [|done]. split; [done|apply happened_last].
Qed.

Lemma safe_calling {B} (r : rpc B) failed next log :
  permitted_rpc V log r → (∀ log' err, issued log' (failed err)) →
  (∀ b, safe (next b) (log ++ [asked r b])) → safe (calling r failed next) log.
Proof.
  intros Hr Hf Hn. apply traces_bind, traces_effect; [done|]. intros [err|b]; cbn; [apply Hf|apply Hn].
Qed.

Lemma safe_decode {A} (sh : shape A) rq' next log :
  (∀ a, json_decode sh (readable (rq_Body rq')) (cut_short (rq_Body rq')) = inr (a, true) →
     safe (next a) log) → safe (decode sh rq' next) log.
Proof. intros Hn. unfold decode. destruct (json_decode _ _ _) as [|[a []]]; by eauto. Qed.
Lemma safe_decode_job rq' next log : (∀ j, safe (next j) log) → safe (decode_job rq' next) log.
Proof. intros Hn. unfold decode_job. destruct (cut_short _); [done|]. by destruct (protojson_job _). Qed.

Lemma safe_tenant p next log : safe next log → safe (requireTenant p next) log.
Proof. unfold requireTenant. by destruct (pl_TenantID p ==s ""). Qed.
Lemma safe_write p next log :
  (canWriteTenant p = true → safe next log) → safe (requireTenantWrite p next) log.
Proof.
  intros Hn. unfold requireTenantWrite. apply safe_tenant. destruct (canWriteTenant p); [by apply Hn|done].
Qed.
Lemma safe_admin p next log :
  (canAdministerTenant p = true → safe next log) → safe (requireTenantAdmin p next) log.
Proof.
  intros Hn. unfold requireTenantAdmin. apply safe_tenant.
  destruct (canAdministerTenant p); [by apply Hn|done].
Qed.
Lemma safe_platform p next log :
  (canAdministerPlatform p = true → safe next log) → safe (requirePlatformAdmin p next) log.
Proof. intros Hn. unfold requirePlatformAdmin. destruct (canAdministerPlatform p); [by apply Hn|done]. Qed.
Lemma safe_version rq' message next log :
  (∀ v, safe (next v) log) → safe (positive_version rq' message next) log.
Proof.
  intros Hn. unfold positive_version. destruct (ParseInt _) as [v|]; [|done].
  by destruct (v <? 1).
Qed.

(** *** Handlers behind [authenticate] *)

Section handlers.
Context (log : list event) (p : principal) (params : list (string * string)).
Hypothesis Hp : V log p.
Notation rq' := (with_params params rq).

(** What happens later takes no right away. *)
Lemma may_act extra right : right p = true → acts V (log ++ extra) (pl_TenantID p) right.
Proof. exists p. split_and!; [by apply HV|done..]. Qed.
Lemma may_act_now right : right p = true → acts V log (pl_TenantID p) right.
Proof. by exists p. Qed.
Lemma may_manage extra : canAdministerPlatform p = true → platform V (log ++ extra).
Proof. exists p. split; [by apply HV|done]. Qed.
Lemma may_manage_now : canAdministerPlatform p = true → platform V log.
Proof. by exists p. Qed.

(** One step of a handler, by the rule for its first operation. *)
Ltac handler_step :=
  match goal with
  | |- _ _ (requireTenantWrite _ _) _ _ => apply safe_write; intros Hw
  | |- _ _ (requireTenantAdmin _ _) _ _ => apply safe_admin; intros Ha
  | |- _ _ (requirePlatformAdmin _ _) _ _ => apply safe_platform; intros Hm
  | |- _ _ (requireTenant _ _) _ _ => apply safe_tenant
  | |- _ _ (decode _ _ _) _ _ => apply safe_decode; intros ? ?
  | |- _ _ (decode_job _ _) _ _ => apply safe_decode_job; intros ?
  | |- _ _ (positive_version _ _ _) _ _ => apply safe_version; intros ?
  | |- _ _ (forward _ _) _ _ => apply safe_forward; [reflexivity|]
  | |- _ _ (calling _ _ _) _ _ => apply safe_calling; [| |intros ?]
  | |- _ _ (effect _ ≫= _) _ _ =>
      apply traces_bind, traces_effect; [first [done | by apply may_manage_now]|intros ?]; unfold logged
  | |- permitted_rpc _ _ _ =>
      cbn [permitted_rpc from_option]; first [by apply may_act_now | by apply may_act | by apply may_manage_now | by apply may_manage]
  | |- ∀ (_ : list event) (_ : code * string), issued _ _ => by intros ? [[] ?]
  end.

Ltac handle := repeat (handler_step; cbn beta zeta); try done.

Ltac each_route :=
  repeat first [apply Forall_nil_2 | apply Forall_cons_2]; cbn [ro_Handler]; handle;
  repeat (case_match; handle).

Lemma reading_is_safe : Forall (λ r, safe (ro_Handler r p rq') log) registerTenantReadRoutes.
Proof.
  unfold registerTenantReadRoutes, listJobs, getJob, listJobScriptVersions, getJobDependencies, listRuns,
    getRun, listRunLogs, listExecutorGroups, listExecutorNodes, listKubernetesClusters,
    getKubernetesCluster, listNotificationChannels, listNotificationHistory.
  each_route.
Qed.

Lemma writing_is_safe :
  Forall (λ r, safe (ro_Handler r p rq') log) registerTenantWriteRoutes.
Proof.
  unfold registerTenantWriteRoutes, createJob, updateJob, rollbackJobScriptVersion, startJob, stopJob,
    setJobEnabled, deleteJob, triggerJob, setJobDependencies, purgeRunHistory, cancelRun,
    createExecutorGroup, updateExecutorGroup, deleteExecutorGroup, registerExecutorNode,
    unregisterExecutorNode, createNotificationChannel, updateNotificationChannel,
    setNotificationChannelEnabled, deleteNotificationChannel.
  each_route.
Qed.

Lemma administering_is_safe :
  Forall (λ r, safe (ro_Handler r p rq') log) registerTenantAdminRoutes.
Proof.
  unfold registerTenantAdminRoutes, createKubernetesCluster, updateKubernetesCluster,
    deleteKubernetesCluster, listAPIKeys, createAPIKey, revokeAPIKey. each_route.
  exists p. split_and!; [done..|]. intros Hr.
  rename select ((_ && _) = false) into Hf. cbn [one_of existsb] in Hr. rewrite orb_false_r in Hr.
  rewrite Hr, andb_true_r in Hf. by bool_to_prop.
Qed.

Lemma managing_is_safe :
  Forall (λ r, safe (ro_Handler r p rq') log) (registerPlatformAdminRoutes s).
Proof.
  unfold registerPlatformAdminRoutes, createUser, listUsers, patchUser, createTenant, listTenants,
    listInstances, putMembership, listMembers, deleteMembership. each_route.
Qed.

Lemma own_requests_are_safe :
  Forall (λ r, safe (ro_Handler r p rq') log)
    [ mk_route "GET" "/auth/me" Authenticated (λ p _, me p);
      mk_route "GET" "/dashboard" Authenticated dashboard;
      mk_route "GET" "/reports/runs" Authenticated runReport;
      mk_route "POST" "/schedules/preview" Authenticated (λ _, previewSchedule) ].
Proof.
  unfold me, dashboard, runReport, previewSchedule. each_route; [| |by exists p..].
  - right. right. by exists p.
  - exists p, b. split_and!; [by apply HV|apply happened_last|done..].
Qed.

Lemma authenticated_is_safe :
  Forall (λ r, safe (ro_Handler r p rq') log) (registerAuthenticatedRoutes s).
Proof.
  apply Forall_app_2; [apply own_requests_are_safe|].
  apply Forall_app_2; [apply reading_is_safe|]. apply Forall_app_2; [apply writing_is_safe|].
  apply Forall_app_2; [apply administering_is_safe|apply managing_is_safe].
Qed.
End handlers.

(** *** Public handlers *)

Lemma login_is_safe params log : safe (login s (with_params params rq)) log.
Proof.
  unfold login. apply safe_decode. intros [email password] Hd.
  apply traces_bind, traces_effect; [done|]. intros allowed. unfold logged.
  destruct allowed; cbn [negb]; [|done]. apply traces_bind, traces_effect; [apply happened_last|].
  intros [err|user]; unfold logged; [done|].
  destruct (pu_Disabled user) eqn:Ed; [done|]. destruct (VerifyPassword _ _) eqn:Ev; [|done].
  cbn [negb orb]. set (log1 := _ ++ _). assert (logged_in log1 user) as Hin.
  { exists email, password. split_and!; [done| |apply happened_last|done..].
    apply elem_of_app. left. apply happened_last. }
  clearbody log1. assert (∀ extra, logged_in (log1 ++ extra) user) as Hlater.
  { intros extra. destruct Hin as (e & w & Hj & Ha & Hu & Hok). exists e, w.
    split_and!; [done|by apply elem_of_app; left..|apply Hok|apply Hok]. }
  apply traces_bind, traces_effect; [done|]. intros u. unfold logged.
  apply traces_bind, traces_effect; [done|]. intros now. unfold logged.
  rewrite <- (assoc_L (++)). apply safe_calling; [by exists user|done|]. intros [token userID].
  unfold setRefreshCookie, set_cookie, issued. cbn. rewrite <- (assoc_L (++)).
  exists user, now. split_and!; [by left| |done]. set_unfold. tauto.
Qed.

Lemma refresh_is_safe params log : safe (refresh s (with_params params rq)) log.
Proof.
  unfold refresh. cbn [with_params rq_Cookie]. destruct (rq_Cookie rq) as [value|] eqn:Ec; [|done].
  apply safe_calling; [done..|]. intros [rotated userID]. cbn zeta. set (log1 := _ ++ _).
  assert (asked (RpcRotateRefreshSession value (Z.quot week second)) (rotated, userID) ∈ log1) as Hr
    by apply happened_last. clearbody log1.
  apply safe_calling; [right; left; by exists value, rotated|done|].
  intros user. destruct (pu_Disabled user) eqn:Ed; [done|].
  apply traces_bind, traces_effect; [done|]. intros now. unfold logged, issued. cbn.
  exists user, now. split_and!; [|apply happened_last|done]. right. exists value, rotated, userID.
  split_and!; [done| | |done]; apply elem_of_app; left; [by apply elem_of_app; left|].
  apply happened_last.
Qed.

Lemma public_is_safe `{Router} params p log :
  Forall (λ r, safe (ro_Handler r p (with_params params rq)) log) (registerPublicRoutes s).
Proof.
  unfold registerPublicRoutes, ready, completeCallback, appendRunLogs, logout.
  repeat first [apply Forall_nil_2 | apply Forall_cons_2]; cbn [ro_Handler].
  1, 3: done.
  - by apply safe_calling.
  - apply safe_decode. intros [[token ok] message] _. by apply safe_forward.
  - apply safe_decode. intros [token entries] _. by apply safe_forward.
  - apply login_is_safe.
  - apply refresh_is_safe.
  - apply traces_bind. cbn [with_params rq_Cookie]. destruct (rq_Cookie rq) as [value|] eqn:Ec; [|done].
    by apply traces_bind, traces_effect.
Qed.
End rules.

(** *** Authentication *)

Notation safe V h log := (Traces.traces (@logged) (λ _ _ _, False) (permitted V) h log issued).

Lemma safe_authenticate log next :
  (∀ log' p, log `prefix_of` log' → vouched log' p → safe vouched (next p) log') →
  safe vouched (authenticate s rq next) log.
Proof.
  intros Hn. unfold authenticate. fold bearer. destruct (_ || _); [done|].
  destruct (HasPrefix bearer "gsk_") eqn:Ek.
  { apply safe_calling; [done..|]. intros [tenant role]. apply Hn; [by apply prefix_app_r|].
    apply by_key; [done|apply happened_last]. }
  apply traces_bind, traces_effect; [done|]. intros now. unfold logged.
  destruct (Parse _ _ _) as [claims|] eqn:Ep; [|done].
  apply safe_calling; [|done|].
  { left. exists now, claims. split_and!; [apply happened_last|done..]. }
  intros user. destruct (pu_Disabled user) eqn:Ed; [done|].
  set (log1 := _ ++ _).
  assert (happened ApiNow now ∈ log1) as Hnow by (apply elem_of_app; left; apply happened_last).
  assert (asked (RpcGetUser (cm_Subject claims)) user ∈ log1) as Hu by apply happened_last.
  assert (log `prefix_of` log1) as Hpre by (unfold log1; rewrite <- (assoc_L (++)); by apply prefix_app_r).
  clearbody log1. destruct (rq_Tenant rq ==s "") eqn:Et.
  { apply Hn; [done|]. by eapply by_token. }
  apply safe_calling; [|done|].
  { split; [done|]. exists now, claims, user. done. }
  intros role. apply Hn; [etrans; [exact Hpre|by apply prefix_app_r]|].
  bool_to_prop. eapply by_membership; [..|apply happened_last]; try done;
    apply elem_of_app; by left.
Qed.

End authority.

(** ** Requests *)

Section requests.
Context `{ApiFormats} `{JwtLib} `{Argon2} `{Sha256} `{Router}.

Notation safe s rq h log :=
  (Traces.traces (@logged) (λ _ _ _, False) (permitted s rq (vouched s rq)) h log (issued s rq)).

(** A route is public, or one behind [authenticate]. *)
Lemma route_cases s r :
  r ∈ Routes s →
  (∃ r', r' ∈ registerPublicRoutes s ∧ ro_Access r = Public ∧ ro_Handler r = ro_Handler r') ∨
  (∃ r', r' ∈ registerAuthenticatedRoutes s ∧ ro_Access r ≠ Public ∧ ro_Handler r = ro_Handler r').
Proof.
  unfold Routes. intros (r1 & -> & Hr)%list_elem_of_fmap. cbn [under ro_Access ro_Handler].
  apply elem_of_app in Hr as [Hr|(r2 & -> & Hr)%list_elem_of_fmap]; [left|right].
  - exists r1. split_and!; [done| |done]. unfold registerPublicRoutes in Hr. set_unfold.
    by repeat destruct Hr as [->|Hr].
  - exists r2. split_and!; [done| |done]. cbn [under ro_Access]. clear -Hr. set_unfold.
    by repeat destruct Hr as [Hr|Hr]; subst.
Qed.

Lemma route_is_safe s rq r params :
  r ∈ Routes s → safe s rq (guarded_by s (ro_Access r) rq (λ p, ro_Handler r p (with_params params rq))) [].
Proof.
  intros [(r' & Hr & -> & ->)|(r' & Hr & Ha & ->)]%route_cases.
  - pose proof (public_is_safe s rq _ (vouched_app s rq) params anonymous []) as Hs.
    rewrite Forall_forall in Hs. by apply Hs.
  - assert (Hauth : ∀ log p, vouched s rq log p → safe s rq (ro_Handler r' p (with_params params rq)) log).
    { intros log p Hp. pose proof (authenticated_is_safe s rq _ (vouched_app s rq) log p params Hp) as Hs.
      rewrite Forall_forall in Hs. by apply Hs. }
    destruct (ro_Access r); [done|..]; apply safe_authenticate; intros log p _ Hp;
      [|apply safe_write; intros _|apply safe_admin; intros _|apply safe_platform; intros _]; by apply Hauth.
Qed.

Lemma request_is_safe s rq : safe s rq (ServeHTTP s rq) [].
Proof.
  unfold ServeHTTP. destruct (chi_route _ rq) as [i params|[] code].
  - destruct (Routes s !! i) as [r|] eqn:Er; [|done]. apply route_is_safe.
    by eapply list_elem_of_lookup_2.
  - apply safe_authenticate. intros log p _ _. unfold not_found, issued. cbn. by destruct (code =? 404).
  - unfold not_found, issued. cbn. by destruct (code =? 404).
Qed.

(** C3: authorisation.  Whatever the control plane, the clock and the registry
    answer, every procedure that a request leads to is one its sender may call:
    procedures on a tenant's data name the tenant of the sender; those that change
    it are called for owners, administrators and developers, those on clusters and
    keys for owners and administrators, those on users and tenants for platform
    administrators; only an owner makes keys of owners and administrators.  The
    tenant and the role are those that the control plane reported in the course of
    the request, for a key or for a user who is not disabled; that a user is a
    platform administrator is what the access token says, which the account said
    when the token was issued.  A response has an access token only for a user
    whose password was verified within the limit on attempts, or whose session was
    renewed with the cookie of the request; it never has the reply of a procedure
    that returns users with their digests. *)
Theorem requests_are_authorised s rq :
  Traces.traces (@logged) (λ _ _ _, False) (permitted s rq (vouched s rq)) (ServeHTTP s rq) [] (issued s rq).
Proof. apply request_is_safe. Qed.
End requests.
End ApiProofs.
