(* ===== verification/ApiWorld.v ===== *)
(** * The interface over its control plane

    The handlers of [internal/api] run with the procedures of [internal/core] on
    the tables, and a request changes the configuration of a tenant only when its
    sender may. *)
From Stdlib Require Import ZArith Lia Ascii String.
From stdpp Require Import base list strings option sets.
From S2P Require Import Prelude GoStrings GoUrl GoTime Utf8 Quartz Calculator Tables Programs Traces Executors RunStore JobStore Clusters Routing ExecutorStore Notifications RunLogs History Engine JobService Services Operations LoginLimiter Auth Sessions Identity Isolation ControlPlane Api ApiProofs.

Module ApiWorld.
Import GoUrl Utf8 Quartz Calculator Programs Traces Executors RunStore JobStore Clusters Routing ExecutorStore Notifications RunLogs History JobService JobServiceProofs Services Operations LoginLimiter Auth Sessions Identity Isolation ControlPlane Api ApiProofs.

(** ** Procedures and configuration *)

(** The tenant whose configuration a procedure may change. *)
Definition target {B} (r : rpc B) : option string :=
  match r with
  | RpcCreateJob j | RpcUpdateJob j => pj_TenantId <$> j
  | RpcRollbackJobScriptVersion t _ _ _ _ | RpcSetJobEnabled t _ _ _ | RpcDeleteJob t _ _
  | RpcDeleteExecutorGroup t _ _ | RpcSetNotificationChannelEnabled t _ _ _
  | RpcDeleteNotificationChannel t _ _ | RpcDeleteKubernetesCluster t _ _ => Some t
  | RpcCreateExecutorGroup g | RpcUpdateExecutorGroup g => pg_TenantId <$> g
  | RpcCreateNotificationChannel i | RpcUpdateNotificationChannel i => Some (ni_TenantID i)
  | RpcCreateKubernetesCluster c | RpcUpdateKubernetesCluster c => pc_TenantId <$> c
  | _ => None
  end.

Section procedures.
Context `{Host} `{ScheduleCalc} `{Digest} `{JobCodec} `{IPLiterals} `{CredentialCodec}.
Context `{ChannelFormats} `{CursorJson} `{Sha256} `{PgLower} `{CronLib} `{TZData} `{PgZones}.
Context `{Timestamps} (tenant : string).
Notation keeping := (every (λ _ m, preserves (kept tenant) m) (λ _ _, True)).

Lemma keeps_query {A} (f : time → db → result A) : preserves (kept tenant) (query f).
Proof. unfold query. preserve. Qed.
Lemma keeps_labels id : preserves (kept tenant) (Engine.JobExecutorLabels id).
Proof. apply keeps_query. Qed.

Lemma every_lift {A} (p : prog request A) : keeping p → keeping (lift_service p).
Proof. induction p as [a|C m k IH|C eff k IH]; cbn; [done| |]; naive_solver. Qed.
Lemma every_serve {A B} (f : A → B) (p : service (result A)) : keeping p → keeping (serve_db f p).
Proof. intros Hp. apply every_bind; [by apply every_lift|done]. Qed.
Lemma every_store {E A} (m : tx A) :
  preserves (kept tenant) m → every (E:=E) (λ _ m, preserves (kept tenant) m) (λ _ _, True) (store m).
Proof. done. Qed.
Lemma every_guarded {A} b message (m : tx A) : preserves (kept tenant) m → keeping (guarded b message m).
Proof. unfold guarded. by destruct b. Qed.

(** The checks change nothing of who owns what. *)
Lemma validated_tenant job a b t job' :
  validateJobModel job a b t = Ok job' → Job_TenantID job' = Job_TenantID job.
Proof. unfold validateJobModel. intros E. passed. by subst. Qed.
Lemma normalized_tenant g g' : normalizeExecutorGroupModel g = Ok g' → xg_TenantID g' = xg_TenantID g.
Proof. unfold normalizeExecutorGroupModel. intros E. passed. by subst. Qed.
Lemma channel_tenant i config c : notificationChannelFromInput i config = Ok c → nc_TenantID c = ni_TenantID i.
Proof.
  unfold notificationChannelFromInput, notificationChannelForWrite. intros E. passed. by subst.
Qed.
Lemma invalid_Ok {A} (r : result A) a : invalid r = Ok a → r = Ok a.
Proof. by destruct r; cbn; intros [= ->]. Qed.

(** *** The services *)

Lemma create_keeps input : Job_TenantID (ci_Job input) ≠ tenant → keeping (Create input).
Proof.
  intros Ht. unfold Create. apply every_bind; [done|]. intros now.
  destruct (invalid _) as [job|] eqn:Ev; [|done]. apply invalid_Ok, validated_tenant in Ev.
  destruct (_ && _); [done|]. apply every_store, keeps_CreateJob. by rewrite Ev.
Qed.
Lemma get_keeps t id : keeping (Get t id).
Proof.
  unfold Get. apply every_bind; [apply every_store, keeps_query|]. intros [job|]; [|done].
  apply every_bind; [apply every_store, keeps_labels|]. by intros [[]|].
Qed.
Lemma update_keeps input : Job_TenantID (ui_Job input) ≠ tenant → keeping (Update input).
Proof.
  intros Ht. unfold Update. apply every_bind; [done|]. intros now.
  destruct (invalid _) as [job|] eqn:Ev; [|done]. apply invalid_Ok, validated_tenant in Ev.
  apply every_bind.
  - unfold updated_auth. destruct (ui_ClearDockerRegistryAuth input); [done|].
    destruct (_ || _); [|done]. apply every_bind; [apply every_store, keeps_query|done].
  - intros [auth|]; [|done]. apply every_store, keeps_UpdateJob. cbn. by rewrite Ev.
Qed.
Lemma rollback_keeps t j v n r : t ≠ tenant → keeping (RollbackScriptVersion t j v n r).
Proof.
  intros Ht. unfold RollbackScriptVersion. destruct (_ || _); [done|].
  by apply every_guarded, keeps_Rollback.
Qed.
Lemma trigger_keeps t j k i o : keeping (Trigger t j k i o).
Proof. unfold Trigger. destruct (invalid _); [|done]. apply every_store, keeps_Trigger. Qed.
Lemma dependencies_keeps t p c : keeping (SetDependencies t p c).
Proof.
  unfold SetDependencies. destruct (invalid _); [|done].
  apply every_bind; [apply every_store, keeps_SetJobDependencies|done].
Qed.
Lemma cancel_keeps b t r m : keeping (Cancel b t r m).
Proof.
  unfold Cancel. destruct (invalid _); [|done]. apply every_bind; [apply every_store, keeps_CancelRun|].
  intros [run|]; [|done]. apply every_bind; [by destruct (_ && _)|done].
Qed.
Lemma callback_keeps r t b m : keeping (Services.CompleteCallback r t b m).
Proof.
  unfold Services.CompleteCallback. destruct (_ || _); [done|].
  apply every_bind; [apply every_store, keeps_CompleteCallback|]. intros []; [|done]. by apply every_bind.
Qed.
Lemma logs_keeps r t l : keeping (AppendLogs r t l).
Proof. unfold AppendLogs. destruct (invalid _); [|done]. apply every_store, keeps_AppendRunLogs. Qed.
Lemma purge_keeps t j b l : keeping (PurgeHistory t j b l).
Proof. unfold PurgeHistory. destruct (invalid _); [|done]. apply every_store, keeps_PurgeRunHistory. Qed.
Lemma report_keeps i n : keeping (RunReport i n).
Proof.
  unfold RunReport. destruct (invalid _) as [[[from to] loc]|]; [|done].
  apply every_bind; [apply every_store, keeps_query|done].
Qed.
Lemma history_keeps i : keeping (ListHistory i).
Proof.
  unfold ListHistory. cbv zeta. destruct (invalid _); [|done].
  apply every_bind; [apply every_store, keeps_query|done].
Qed.
Lemma dashboard_keeps t : keeping (Operations.dashboard t).
Proof.
  unfold dashboard. apply every_bind; [apply every_store, keeps_query|]. intros [[]|]; [|done].
  apply every_bind; [apply every_store, keeps_query|]. intros [[[[]]]|]; [|done].
  apply every_bind; [apply every_store, keeps_query|]. intros [|]; [|done].
  apply every_bind; [apply every_store, keeps_query|done].
Qed.
Lemma create_group_keeps g : xg_TenantID g ≠ tenant → keeping (CreateGroup g).
Proof.
  intros Ht. unfold CreateGroup. destruct (invalid _) eqn:Ev; [|done].
  apply invalid_Ok, normalized_tenant in Ev. apply every_store, keeps_CreateGroup. by rewrite Ev.
Qed.
Lemma update_group_keeps g : xg_TenantID g ≠ tenant → keeping (UpdateGroup g).
Proof.
  intros Ht. unfold UpdateGroup. destruct (invalid _) eqn:Ev; [|done].
  apply invalid_Ok, normalized_tenant in Ev. apply every_guarded, keeps_UpdateGroup. by rewrite Ev.
Qed.
Lemma register_keeps i : keeping (RegisterNode i).
Proof. unfold RegisterNode. destruct (invalid _); [|done]. apply every_store, keeps_RegisterNode. Qed.
Lemma update_cluster_keeps c b : kc_TenantID c ≠ tenant → keeping (UpdateCluster c b).
Proof.
  intros Ht. unfold UpdateCluster. destruct (negb b); [done|]. destruct (no_credentials _).
  - apply every_bind; [apply every_store, keeps_GetCluster|]. intros [current|]; [|done].
    by apply every_guarded, keeps_UpdateCluster.
  - by apply every_store, keeps_UpdateCluster.
Qed.
Lemma create_channel_keeps i : ni_TenantID i ≠ tenant → keeping (CreateChannel i).
Proof.
  intros Ht. unfold CreateChannel. destruct (invalid _) eqn:Ev; [|done].
  apply invalid_Ok, channel_tenant in Ev. apply every_store, keeps_CreateChannel. by rewrite Ev.
Qed.
Lemma update_channel_keeps i : ni_TenantID i ≠ tenant → keeping (UpdateChannel i).
Proof.
  intros Ht. unfold UpdateChannel. destruct (_ || _); [done|]. apply every_bind.
  - unfold updated_config. destruct (_ =? _); [|done]. apply every_bind; [apply every_store, keeps_query|done].
  - intros [config|]; [|done]. destruct (invalid _) eqn:Ev; [|done].
    apply invalid_Ok, channel_tenant in Ev. apply every_store, keeps_UpdateChannel. by rewrite Ev.
Qed.

Lemma written_keeps (p : service (result KubernetesCluster)) :
  keeping p → keeping (r ← lift_service p; mret (cluster_written r)).
Proof. intros Hp. apply every_bind; [by apply every_lift|done]. Qed.
Lemma nodes_keeps nodes : keeping (nodes_to_proto nodes).
Proof.
  induction nodes as [|n nodes IH]; cbn [nodes_to_proto]; [done|].
  apply every_bind; [done|]. intros now. by apply every_bind.
Qed.

(** A procedure keeps the configuration of every tenant but its target. *)
Lemma serve_keeps hasExecutor {B} (r : rpc B) : target r ≠ Some tenant → keeping (serve hasExecutor r).
Proof.
  intros Ht. destruct r; cbn [serve target] in *;
    try (unfold serve_id; apply every_bind; done);
    try (apply every_serve; first
      [ apply dashboard_keeps | apply get_keeps | apply trigger_keeps | apply dependencies_keeps
      | apply cancel_keeps | apply callback_keeps | apply logs_keeps | apply history_keeps
      | apply every_store, keeps_query | apply every_guarded, keeps_query
      | apply every_store, keeps_GetCluster | apply every_store, keeps_ListClusters
      | apply every_guarded, keeps_UnregisterNode
      | apply every_guarded, keeps_SetJobEnabled; congruence | apply every_store, keeps_DeleteJob; congruence
      | apply rollback_keeps; congruence | apply every_guarded, keeps_DeleteGroup; congruence
      | apply every_guarded, keeps_SetChannelEnabled; congruence
      | apply every_guarded, keeps_DeleteChannel; congruence
      | apply create_channel_keeps; cbn; congruence | apply update_channel_keeps; congruence
      | apply every_store, keeps_DeleteCluster; congruence ]).
  - unfold Ping. apply every_bind; [done|]. by intros [].
  - destruct cluster as [c|]; apply written_keeps; [|done].
    apply every_guarded, keeps_CreateCluster. cbn in *. congruence.
  - destruct cluster as [c|]; apply written_keeps; [|done]. apply update_cluster_keeps. cbn in *. congruence.
  - destruct job as [j|]; [|done]. apply every_serve, create_keeps. cbn in *. congruence.
  - destruct job as [j|]; [|done]. apply every_serve, update_keeps. cbn in *. congruence.
  - unfold PreviewSchedule. apply every_bind; [done|]. intros now.
    destruct (schedulePreviewInput _ _) as [[[zone after] count]|]; [|done]. by apply every_bind.
  - unfold PurgeRunHistory. destruct (validatePurgeRunHistoryRequest _ _ _ _); [|done].
    apply every_serve, purge_keeps.
  - unfold GetRunReport. apply every_bind; [done|]. intros now. apply every_serve, report_keeps.
  - destruct group as [g|]; [|done]. apply every_serve, create_group_keeps. cbn in *. congruence.
  - destruct group as [g|]; [|done]. apply every_serve, update_group_keeps. cbn in *. congruence.
  - unfold RegisterExecutorNode. apply every_bind; [apply every_lift, register_keeps|].
    intros [node|]; [|done]. by apply every_bind.
  - unfold ListExecutorNodes. apply every_bind; [apply every_store, keeps_query|].
    intros [nodes|]; [|done]. apply every_bind; [apply nodes_keeps|done].
Qed.
End procedures.

(** ** The world of a request *)

Record world := mk_world {
  w_db : db; w_id : idb; w_logins : loginLimiter;
}.

(** What the world answers besides: the services' clock and executors, the
    environments of transactions, the clock of the server, the salt of a password,
    the entries of the registry. *)
Record surroundings := mk_surroundings {
  su_request : ∀ B, request B → B; su_env : env; su_id : id_env; su_hasExecutor : bool;
  su_now : time; su_salt : string; su_registry : option (list (string * string));
}.

(** Undisturbed execution of a procedure. *)
Definition control_answer {B} (u : surroundings) (eff : control B) (i : idb) : B * idb :=
  match eff with
  | Base r => (su_request u _ r, i)
  | IdentityTx m => m (su_id u) i
  end.
Fixpoint run_control {A} (u : surroundings) (p : prog control A) (s : db) (i : idb) : A * db * idb :=
  match p with
  | Return a => (a, s, i)
  | Store m k => let '(r, s') := commit m (su_env u) s in run_control u (k r) s' i
  | Effect eff k => let '(b, i') := control_answer u eff i in run_control u (k b) s i'
  end.

Lemma run_control_kept {A} tenant u (p : prog control A) s i :
  every (λ _ m, preserves (kept tenant) m) (λ _ _, True) p → kept tenant s (run_control u p s i).1.2.
Proof.
  revert s i. induction p as [a|C m k IH|C eff k IH]; intros s i Hp; cbn in *; [done| |].
  - destruct Hp as [Hm Hk]. pose proof (preserves_commit (kept tenant) m (su_env u) s Hm) as Hs.
    destruct (commit m (su_env u) s) as [r s']. etrans; [exact Hs|]. by apply IH.
  - destruct (control_answer u eff i) as [b i']. by apply IH, Hp.
Qed.

Section requests.
Context `{Host} `{ScheduleCalc} `{Digest} `{JobCodec} `{IPLiterals} `{CredentialCodec}.
Context `{ChannelFormats} `{CursorJson} `{Sha256} `{PgLower} `{CronLib} `{TZData} `{PgZones}.
Context `{Timestamps} `{ApiFormats} `{JwtLib} `{Argon2} `{Router}.

(** Undisturbed execution of a handler. *)
Definition answer {B} (u : surroundings) (c : call B) (w : world) : B * world :=
  match c with
  | Rpc r =>
      let '(b, s', i') := run_control u (serve (su_hasExecutor u) r) (w_db w) (w_id w) in
      (b, mk_world s' i' (w_logins w))
  | ApiNow => (su_now u, w)
  | Allow key =>
      let '(b, l) := allow (su_now u) key (w_logins w) in (b, mk_world (w_db w) (w_id w) l)
  | ResetAttempts key => (tt, mk_world (w_db w) (w_id w) (reset key (w_logins w)))
  | Salt => (su_salt u, w)
  | EtcdGet _ => (su_registry u, w)
  end.
Fixpoint run_api {A} (u : surroundings) (p : prog call A) (w : world) : A * world :=
  match p with
  | Return a => (a, w)
  | Store m k => let '(r, s') := commit m (su_env u) (w_db w) in
                 run_api u (k r) (mk_world s' (w_id w) (w_logins w))
  | Effect c k => let '(b, w') := answer u c w in run_api u (k b) w'
  end.

(** Administrators may write. *)
Lemma administrators_write V log tenant : administers V log tenant → writes V log tenant.
Proof.
  intros (p & Hp & Ht & Ha). exists p. split_and!; [done..|]. unfold canAdministerTenant in Ha.
  unfold canWriteTenant. apply andb_true_iff in Ha as [-> ->]. done.
Qed.

Lemma target_needs_writer s rq V log {B} (r : rpc B) tenant :
  permitted_rpc s rq V log r → target r = Some tenant → writes V log tenant.
Proof.
  intros Hr Et. destruct r; cbn in *; try done; simplify_eq; try done; try (by apply administrators_write);
    match goal with H : _ <$> ?o = Some _ |- _ => destruct o; simplify_eq/= end; try done;
    by apply administrators_write.
Qed.

(** A handler whose requests keep to [permitted] keeps the configuration of a
    tenant for which none of them has a right to write. *)
Lemma run_api_kept {A} tenant s rq V u (p : prog call A) log Q w :
  (∀ log p, V log p → pl_TenantID p = tenant → canWriteTenant p = false) →
  Traces.traces (@logged) (λ _ _ _, False) (permitted s rq V) p log Q →
  kept tenant (w_db w) (w_db (run_api u p w).2).
Proof.
  intros HV. revert log w. induction p as [a|C m k IH|C c k IH]; intros log w Hp; cbn in *; [done|by destruct Hp|].
  destruct Hp as [Hc Hk]. assert (kept tenant (w_db w) (w_db (answer u c w).2)) as Hw.
  { destruct c as [B r| | | | |]; cbn; try done; [|by destruct (allow _ _ _)].
    pose proof (run_control_kept tenant u (serve (su_hasExecutor u) r) (w_db w) (w_id w)) as Hr.
    destruct (run_control _ _ _ _) as [[b s'] i']. apply Hr, serve_keeps. intros Et.
    assert (writes V log tenant) as (q & Hq & Hqt & Hqw); [|specialize (HV _ _ Hq Hqt); congruence].
    by eapply target_needs_writer. }
  destruct (answer u c w) as [b w']. etrans; [exact Hw|]. by eapply IH.
Qed.

(** ** Credentials *)

(** Who the tables say the sender of a request is: the holder of an API key that is
    not revoked, or the enabled user of a valid access token, alone or as a member
    of the tenant that the request names. *)
Inductive credential (u : surroundings) (s : Server) (rq : http_request) (i : idb) : principal → Prop :=
| key_credential k :
    k ∈ api_keys i → p_key_hash k = sha256 (bearer rq) → p_revoked_at k = None →
    credential u s rq i (mk_principal (p_tenant_id k) "" (p_role k) false)
| user_credential claims v :
    Parse (sv_auth s) (bearer rq) (su_now u) = Ok claims →
    v ∈ users i → u_id v = cm_Subject claims → u_disabled v = false →
    credential u s rq i (mk_principal "" (cm_Subject claims) "" (cm_PlatformAdmin claims))
| member_credential claims v b :
    Parse (sv_auth s) (bearer rq) (su_now u) = Ok claims →
    v ∈ users i → u_id v = cm_Subject claims → u_disabled v = false →
    b ∈ memberships i → b_tenant_id b = rq_Tenant rq → b_user_id b = cm_Subject claims →
    credential u s rq i (mk_principal (rq_Tenant rq) (cm_Subject claims) (b_role b) (cm_PlatformAdmin claims)).

Lemma first_row_Ok {A} p (l : list A) x : first_row (sql_select p l) = Ok x → x ∈ l ∧ p x = true.
Proof.
  destruct (sql_select p l) as [|y rest] eqn:E; [done|]. cbn. intros [= ->].
  assert (x ∈ sql_select p l) as Hx by (rewrite E; by left). by apply elem_of_sql_select in Hx as [? ?].
Qed.

(** Authentication changes nothing: it refuses the request, or lets it go on for
    the principal of its credential. *)
Lemma run_authenticate u s rq next w :
  (∃ r, run_api u (authenticate s rq next) w = (r, w)) ∨
  (∃ p, credential u s rq (w_id w) p ∧ run_api u (authenticate s rq next) w = run_api u (next p) w).
Proof.
  destruct w as [d i l]. unfold authenticate. fold (bearer rq). cbn [w_id].
  destruct (_ || _); [by left; eexists|]. destruct (HasPrefix _ _).
  { cbn. destruct (Identity.AuthenticateAPIKey (bearer rq) i) as [[tenant role]|err] eqn:Ek; cbn;
      [|by left; eexists].
    right. unfold Identity.AuthenticateAPIKey in Ek.
    apply result_bind_Ok in Ek as (k & [Hk Hp]%first_row_Ok & [= <- <-]).
    apply andb_true_iff in Hp as [Hh%String.eqb_eq Hr%bool_decide_eq_true].
    eexists. split; [by apply key_credential|done]. }
  cbn. destruct (Parse _ _ _) as [claims|] eqn:Ep; [|by left; eexists]. cbn.
  destruct (Identity.GetUser (cm_Subject claims) i) as [user|] eqn:Eu; cbn; [|by left; eexists].
  unfold Identity.GetUser in Eu. apply result_bind_Ok in Eu as (v & [Hv Hid%String.eqb_eq]%first_row_Ok & [= <-]).
  cbn. destruct (u_disabled v) eqn:Ed; [by left; eexists|].
  destruct (rq_Tenant rq ==s "") eqn:Et; [right; eexists; split; [by eapply user_credential|done]|]. cbn.
  destruct (Identity.GetMembershipRole _ _ i) as [role|] eqn:Em; cbn; [|by left; eexists].
  unfold Identity.GetMembershipRole in Em. apply result_bind_Ok in Em as (b & [Hb Hm]%first_row_Ok & [= <-]).
  unfold is_member in Hm. apply andb_true_iff in Hm as [?%String.eqb_eq ?%String.eqb_eq].
  right. eexists. split; [by eapply member_credential|done].
Qed.

(** A request keeps the configuration of a tenant its sender may not write for. *)
Lemma request_kept u s rq w tenant :
  (∀ p, credential u s rq (w_id w) p → pl_TenantID p = tenant → canWriteTenant p = false) →
  kept tenant (w_db w) (w_db (run_api u (ServeHTTP s rq) w).2).
Proof.
  intros Hno. unfold ServeHTTP.
  assert (Hauth : ∀ next, (∀ p, Traces.traces (@logged) (λ _ _ _, False)
      (permitted s rq (λ _ q, q = p)) (next p) [] (issued s rq)) →
    kept tenant (w_db w) (w_db (run_api u (authenticate s rq next) w).2)).
  { intros next Hn. destruct (run_authenticate u s rq next w) as [[r ->]|(p & Hp & ->)]; [done|].
    eapply run_api_kept; [|apply Hn]. cbn. intros _ q ->. by apply Hno. }
  destruct (chi_route _ rq) as [i params|[] code]; [|..|done].
  2: { apply Hauth. intros p. unfold not_found, issued. cbn. by destruct (code =? 404). }
  destruct (Routes s !! i) as [r|] eqn:Er; [|done]. apply list_elem_of_lookup_2, route_cases in Er.
  destruct Er as [(r' & Hr & -> & ->)|(r' & Hr & Ha & ->)].
  - pose proof (public_is_safe s rq (λ _ _, False) (λ _ _ _ F, F) params anonymous []) as Hs.
    rewrite Forall_forall in Hs. eapply run_api_kept; [|by apply Hs]. done.
  - assert (Hh : ∀ p, Traces.traces (@logged) (λ _ _ _, False) (permitted s rq (λ _ q, q = p))
        (ro_Handler r' p (with_params params rq)) [] (issued s rq)).
    { intros p. pose proof (authenticated_is_safe s rq (λ _ q, q = p) (λ _ _ _ E, E) [] p params eq_refl) as Hs.
      rewrite Forall_forall in Hs. by apply Hs. }
    destruct (ro_Access r); [done|..]; apply Hauth; intros p;
      [|apply safe_write; try done; intros _|apply safe_admin; try done; intros _
       |apply safe_platform; try done; intros _]; apply Hh.
Qed.

(** C4: tenants are kept apart.  A request leaves the jobs, clusters, executor groups
    and notification channels of a tenant as they are unless its sender is an owner,
    administrator or developer of that tenant: the holder of an API key of it that
    is not revoked, or an enabled user with a valid access token and such a role in
    the tenant that the request names. *)
Theorem configuration_changes_need_a_writer u s rq w tenant :
  job_keys (w_db w) →
  (∀ p, credential u s rq (w_id w) p → pl_TenantID p = tenant → canWriteTenant p = false) →
  same_configuration tenant (w_db w) (w_db (run_api u (ServeHTTP s rq) w).2).
Proof. intros Hk Hno. by apply request_kept. Qed.
End requests.

(** ** Logging in *)

Section login.
Context `{Host} `{ScheduleCalc} `{Digest} `{JobCodec} `{IPLiterals} `{CredentialCodec}.
Context `{ChannelFormats} `{CursorJson} `{Sha256} `{PgLower} `{CronLib} `{TZData} `{PgZones}.
Context `{Timestamps} `{ApiFormats} `{JwtLaws} `{Argon2Laws}.

Lemma trim_bearer token : TrimPrefix ("Bearer " +:+ token) "Bearer " = token.
Proof. by destruct token. Qed.
Lemma bearer_differs token : (token ==s "Bearer " +:+ token) = false.
Proof.
  apply String.eqb_neq. intros E. apply (f_equal String.length) in E. rewrite length_app_string in E. cbn in E. lia.
Qed.

(** The tables accept the session that the call draws. *)
Definition fresh_session (d : draw) (i : idb) : Prop :=
  Forall (λ x, rs_id x ≠ dr_id d ∧ rs_token_hash x ≠ sha256 (dr_token d)) (refresh_sessions i).

Lemma session_created u userID (s : db) i :
  fresh_session (ie_session (su_id u)) i → sql_exists (λ v, u_id v ==s userID) (users i) = true →
  ∃ i', run_control u (ControlPlane.CreateRefreshSession userID (Z.quot week second)) s i
        = (inr (dr_token (ie_session (su_id u)), userID), s, i').
Proof.
  intros Hf Hu. cbn. rewrite Hu. cbn. unfold Sessions.CreateRefreshSession, insert_session.
  destruct (sql_exists _ (refresh_sessions i)) eqn:E; [|by eexists].
  apply sql_exists_true in E as (x & Hx & Hp). unfold fresh_session in Hf. rewrite Forall_forall in Hf.
  destruct (Hf x Hx) as [Hid Hh]. by apply orb_true_iff in Hp as [?%String.eqb_eq|?%String.eqb_eq].
Qed.

(** An access token is neither empty nor taken for an API key. *)
Lemma issued_shape m userID admin t :
  (Issue m userID admin t ==s "") = false ∧ HasPrefix (Issue m userID admin t) "gsk_" = false.
Proof.
  unfold Issue. match goal with |- context [jwt_sign ?k ?c] => pose proof (jwt_sign_compact k c) as Hp;
    destruct (jwt_sign k c) as [|a token] end; [done|]. split; [done|].
  cbn [HasPrefix] in *. by destruct (Ascii.eqb_spec "e" a) as [<-|].
Qed.

(** The rights of a user of the tenant that a request names, if it names one. *)
Definition user_principal (tenant userID : string) (admin : bool) (i : idb) : result principal :=
  if tenant ==s "" then Ok (mk_principal "" userID "" admin)
  else role ← Identity.GetMembershipRole tenant userID i; Ok (mk_principal tenant userID role admin).

(** C7: logging in.  Whoever gives the password that an enabled account was created
    with, within the limit on attempts, gets an access token and a session cookie
    that scripts cannot read.  Until the token expires and as long as the account is
    enabled, a request with it is one of that user: for the tenant it names, with
    the role the user has there when it is made, or refused if the user is not a
    member; without a tenant if it names none.  Whether the user administers the
    platform is what the account said at the login. *)
Theorem login_gives_access u s rq w email password salt user :
  json_decode LoginShape (readable (rq_Body rq)) (cut_short (rq_Body rq)) = inr (email, password, true) →
  (allow (su_now u) (loginLimitKey (rq_RemoteAddr rq) email) (w_logins w)).1 = true →
  Identity.GetUserByEmail email (w_id w) = Ok user → U_Disabled user = false →
  len salt = 16 → HashPassword password salt = Ok (U_PasswordHash user) →
  fresh_session (ie_session (su_id u)) (w_id w) →
  ∃ token w',
    run_api u (login s rq) w
      = (setRefreshCookie s (dr_token (ie_session (su_id u))) week (writeJSON 200 (TokenBody token 900)), w') ∧
    ∀ u2 rq2 next w2 user2,
      rq_Authorization rq2 = "Bearer " +:+ token →
      su_now u2 < expiry (sv_auth s) (su_now u) →
      Identity.GetUser (U_ID user) (w_id w2) = Ok user2 → U_Disabled user2 = false →
      run_api u2 (authenticate s rq2 next) w2
        = match user_principal (rq_Tenant rq2) (U_ID user) (U_PlatformAdmin user) (w_id w2) with
          | Ok p => run_api u2 (next p) w2
          | Err _ => (writeError 403 "tenant access denied", w2)
          end.
Proof.
  intros Hd Ha Hu He Hs Hh Hf. destruct w as [d i l]. cbn [w_id w_logins] in *.
  exists (Issue (sv_auth s) (U_ID user) (U_PlatformAdmin user) (su_now u)).
  assert (sql_exists (λ v, u_id v ==s U_ID user) (users i) = true) as Hex.
  { unfold Identity.GetUserByEmail in Hu. apply result_bind_Ok in Hu as (v & [Hv _]%first_row_Ok & [= <-]).
    apply sql_exists_true. exists v. split; [done|]. apply String.eqb_refl. }
  destruct (session_created u (U_ID user) d i Hf Hex) as [i' Hi'].
  destruct (allow _ _ l) as [allowed l'] eqn:El. cbn in Ha. subst allowed.
  eexists. split.
  - unfold login, decode. rewrite Hd. cbn [run_api mbind prog_mbind prog_bind effect answer].
    cbn [w_db w_id w_logins]. rewrite El. cbn [negb run_api prog_bind answer w_db w_id w_logins].
    cbn [serve]. unfold ControlPlane.GetUserByEmail, serve_id, reads. cbn. rewrite Hu. cbn.
    rewrite He, (verify_hashed password salt), String.eqb_refl by done. cbn [negb orb].
    cbn. cbn in Hi'. rewrite Hi'. reflexivity.
  - intros u2 rq2 next w2 user2 Hrq Hnow Hu2 Hd2. unfold authenticate, user_principal.
    destruct (issued_shape (sv_auth s) (U_ID user) (U_PlatformAdmin user) (su_now u)) as [Hne Hg].
    rewrite Hrq, trim_bearer, bearer_differs, Hg, Hne.
    cbn. rewrite parse_issued. destruct (Z.ltb_spec (su_now u2) (expiry (sv_auth s) (su_now u))); [|lia].
    cbn. rewrite Hu2. cbn. rewrite Hd2. destruct w2 as [d2 i2 l2]. destruct (rq_Tenant rq2 ==s ""); [done|].
    cbn. by destruct (Identity.GetMembershipRole (rq_Tenant rq2) (U_ID user) i2).
Qed.
End login.
End ApiWorld.
