(* ===== verification/ApiSecrets.v ===== *)
(** * Secrets stay inside

    What a response of the HTTP interface never has: the password of a container
    registry, the credentials of a cluster, the digest of a user's password. *)
From Stdlib Require Import ZArith Lia Ascii String.
From stdpp Require Import base list strings option.
From S2P Require Import Prelude GoStrings GoUrl Quartz Calculator Tables Programs Traces Executors RunStore JobStore Clusters Notifications JobService Services Operations Engine Auth Sessions Identity ControlPlane Api ApiProofs ApiWorld.

Module ApiSecrets.
Import GoUrl Quartz Calculator Programs Traces Executors RunStore JobStore Clusters Notifications JobService Services Operations Auth Sessions Identity ControlPlane Api ApiProofs ApiWorld.

(** ** Replies *)

Definition no_password (j : ProtoJob) : Prop :=
  ∀ a, pj_DockerRegistryAuth j = Some a → pa_Password a = "".
Definition no_cluster_secrets (c : ProtoCluster) : Prop :=
  pc_Kubeconfig c = "" ∧ pc_Token c = "" ∧ pc_CaData c = "".

Definition secretless {B} (r : rpc B) : B → Prop :=
  match r in rpc B return B → Prop with
  | RpcCreateJob _ | RpcGetJob _ _ | RpcUpdateJob _ | RpcRollbackJobScriptVersion _ _ _ _ _
  | RpcSetJobEnabled _ _ _ _ => no_password
  | RpcListJobs _ _ => Forall no_password
  | RpcGetKubernetesCluster _ _ | RpcCreateKubernetesCluster _ | RpcUpdateKubernetesCluster _ =>
      no_cluster_secrets
  | RpcListKubernetesClusters _ => Forall no_cluster_secrets
  | _ => λ _, True
  end.
Definition secretless_reply {B} (r : rpc B) (out : status + B) : Prop :=
  match out with inr b => secretless r b | inl _ => True end.

Lemma toProto_no_password j : no_password (toProto j).
Proof. intros a. cbn. destruct (Configured _); [|done]. by intros [= <-]. Qed.
Lemma cluster_no_secrets c : no_cluster_secrets (kubernetesClusterToProto c false).
Proof. done. Qed.

(** [ends Q p]: every execution of [p] ends in a result with [Q]. *)
Fixpoint ends {E A} (Q : A → Prop) (p : prog E A) : Prop :=
  match p with
  | Return a => Q a
  | Store m k => ∀ r, ends Q (k r)
  | Effect eff k => ∀ b, ends Q (k b)
  end.
Lemma ends_bind {E A B} (Q : B → Prop) (f : A → prog E B) p : (∀ a, ends Q (f a)) → ends Q (p ≫= f).
Proof.
  intros Hf. change (p ≫= f) with (prog_bind f p).
  induction p as [a|C m k IH|C eff k IH]; cbn; [apply Hf|intros r; apply IH..].
Qed.

Section replies.
Context `{Host} `{ScheduleCalc} `{Digest} `{JobCodec} `{IPLiterals} `{CredentialCodec}.
Context `{ChannelFormats} `{CursorJson} `{Sha256} `{PgLower} `{CronLib} `{TZData} `{PgZones}.
Context `{Timestamps}.

Lemma ends_served {A B} (Q : status + B → Prop) (f : A → B) (p : service (result A)) :
  (∀ err, Q (inl err)) → (∀ a, Q (inr (f a))) → ends Q (serve_db f p).
Proof. intros He Ha. apply ends_bind. intros [a|err]; cbn; auto. Qed.
Lemma ends_written (Q : status + ProtoCluster → Prop) (p : service (result KubernetesCluster)) :
  (∀ err, Q (inl err)) → (∀ c, Q (inr (kubernetesClusterToProto c false))) →
  ends Q (r ← lift_service p; mret (cluster_written r)).
Proof. intros He Ha. apply ends_bind. intros [a|err]; cbn; auto. Qed.

Lemma ends_true {E A} (Q : A → Prop) (p : prog E A) : (∀ a, Q a) → ends Q p.
Proof. intros HQ. induction p; cbn; auto. Qed.

Lemma Forall_map_all {A B} (P : B → Prop) (f : A → B) l : (∀ a, P (f a)) → Forall P (map f l).
Proof. intros Hf. induction l; cbn; auto. Qed.

Lemma serve_secretless hasExecutor {B} (r : rpc B) : ends (secretless_reply r) (serve hasExecutor r).
Proof.
  destruct r; cbn [serve];
    try (apply ends_true; by intros []);
    try (apply ends_served; [done|]; intros a; cbn;
         first [apply toProto_no_password | apply cluster_no_secrets
               | apply Forall_map_all, toProto_no_password | apply Forall_map_all, cluster_no_secrets]);
    try (apply ends_written; [done|]; apply cluster_no_secrets).
  all: destruct job as [j|]; [|done]; apply ends_served; [done|]; apply toProto_no_password.
Qed.
End replies.

(** ** Responses *)

(** An answer of the control plane without secrets. *)
Definition clean (x : Traces.event call) : Prop :=
  match x with
  | existT B (c, b) =>
      match c in call B return B → Prop with Rpc r => secretless_reply r | _ => λ _, True end b
  end.

Lemma run_control_ends {A} (Q : A → Prop) u (p : prog control A) s i :
  ends Q p → Q (run_control u p s i).1.1.
Proof.
  revert s i. induction p as [a|C m k IH|C eff k IH]; intros s i Hp; cbn in *; [done| |].
  - destruct (commit m (su_env u) s) as [r s']. by apply IH.
  - destruct (control_answer u eff i) as [b i']. by apply IH.
Qed.

Section responses.
Context `{Host} `{ScheduleCalc} `{Digest} `{JobCodec} `{IPLiterals} `{CredentialCodec}.
Context `{ChannelFormats} `{CursorJson} `{Sha256} `{PgLower} `{CronLib} `{TZData} `{PgZones}.
Context `{Timestamps} `{ApiFormats} `{JwtLib} `{Argon2} `{Router}.

Lemma answer_clean {B} u (c : call B) w : clean (happened c (answer u c w).1).
Proof.
  destruct c as [B r| | | | |]; try done. cbn [answer].
  pose proof (run_control_ends _ u _ (w_db w) (w_id w) (serve_secretless (su_hasExecutor u) r)) as Hr.
  by destruct (run_control _ _ _ _) as [[b s'] i'].
Qed.

Lemma run_api_clean {A} P u (p : prog call A) log Q w :
  Traces.traces (@logged) (λ _ _ _, False) P p log Q → Forall clean log →
  ∃ log', Forall clean log' ∧ Q log' (run_api u p w).1.
Proof.
  revert log w. induction p as [a|C m k IH|C c k IH]; intros log w Hp Hlog; cbn in *;
    [by exists log|by destruct Hp|].
  destruct Hp as [_ Hk]. pose proof (answer_clean u c w) as Hc.
  destruct (answer u c w) as [b w']. eapply IH; [apply Hk|].
  apply Forall_app_2; [done|]. by apply Forall_singleton.
Qed.

(** C5: secrets stay inside.  A message in a response never has the password of a
    container registry, nor is it the reply of a procedure that returns users with
    their digests, sessions or clusters; the other bodies have no place for
    credentials of clusters or digests of passwords. *)
Theorem responses_hold_no_secrets u s rq w :
  match ans_Payload (run_api u (ServeHTTP s rq) w).1 with
  | Message r b => internal r = false ∧ secretless r b
  | _ => True
  end.
Proof.
  destruct (run_api_clean _ u _ _ _ w (request_is_safe s rq) ltac:(constructor)) as (log & Hlog & Hq).
  unfold issued in Hq. destruct (ans_Payload _) as [| | |B r b| | | | | | | | | | | | | |]; try done.
  destruct Hq as [Hi Hin]. split; [done|]. rewrite Forall_forall in Hlog. by apply (Hlog (asked r b)), list_elem_of_In.
Qed.
End responses.
End ApiSecrets.
