(* ===== verification/ApiScenario.v ===== *)
(** * A server with one tenant

    Requests on concrete tables: a viewer's key changes nothing, a user logs in,
    a key is created and revoked. *)
From Stdlib Require Import ZArith Lia Ascii String.
From stdpp Require Import base list strings option relations.
From S2P Require Import Prelude GoStrings GoTime Utf8 Quartz Calculator Tables Programs RunStore JobStore Clusters Samples Engine JobService Services Operations LoginLimiter Auth Sessions Identity Isolation ControlPlane Api ApiProofs ApiWorld.

Module ApiScenario.
Import Quartz Calculator Programs RunStore JobStore Samples JobService Services Operations LoginLimiter Auth Sessions Identity IdentityProofs Isolation ControlPlane Api ApiProofs ApiWorld.

#[local] Existing Instances sample_argon2 sample_argon2_laws sample_jwt sample_jwt_laws.
#[local] Instance plain_digest : Sha256 := λ s, s.
#[local] Instance plain_lower : PgLower := λ s, s.
#[local] Instance plain_lower_laws : PgLowerLaws.
Proof. done. Qed.
#[local] Instance no_midnights : PgZones := λ _ n, n * 86400 * second.
#[local] Instance no_payload : CursorJson := λ _, None.
#[local] Instance all_timestamps : Timestamps := λ _, None.
#[local] Instance no_formats : ChannelFormats := {|
  decode_webhook := λ _, None; decode_dingtalk := λ _, None; decode_email := λ _, None;
  template_parses := λ _, false; mail_address := λ _, None; ValidHeaderFieldName := λ _, false;
  ValidHeaderFieldValue := λ _, false; uuid_valid := λ _, true;
|}.

(** Bodies: a version, or the credentials of a login. *)
#[local] Instance sample_bodies : ApiFormats := {|
  json_decode := λ A sh _ _,
    match sh in shape A return string + (A * bool) with
    | VersionShape => inr (1, true)
    | LoginShape => inr ("ada@example.org", "correct horse", true)
    | _ => inl "unexpected"
    end;
  protojson_job := λ _, inl "unexpected";
  protojson_marshals := λ _ _ _, true;
  decode_metadata := λ _, None;
|}.
(** Every request goes to the route of the deletion of a job. *)
#[local] Instance to_delete_job : Router := {|
  chi_route := λ _ _, Matched 30 [("id", "cron")]; metrics := (200, "");
|}.

Definition server : Server := NewServer (mk_manager "secret" "scheduler" (15 * minute)) [].
Definition calm : surroundings :=
  mk_surroundings (λ B r, match r in request B return B with
                          | ServiceNow => start | StopRun _ _ _ => None | RunTerminal => tt end)
    (at_ms 0) (mk_id_env (mk_id_draw "k2" "bytes" start) (mk_draw "s1" "f1" "token-1" start start))
    false start "0123456789abcdef" None.

Definition ada : user_row :=
  mk_user "u1" "ada@example.org"
    (match HashPassword "correct horse" "0123456789abcdef" with Ok h => h | Err _ => "" end) false false start.
Definition viewer_key : api_key_row := mk_api_key "k1" "t" "read only" "gsk_view" "viewer" start None.
Definition people : idb :=
  mk_idb [ada] [mk_account "t" "tenant" 100 start] [mk_membership "t" "u1" "owner"] [viewer_key] [].
Definition scene : world := mk_world (sample_db [cron_job]) people ∅.
Definition with_key (key : string) : http_request :=
  mk_request "DELETE" "/api/v1/jobs/cron" [] [] ("Bearer " +:+ key) "" None "10.0.0.1:4711" "{}".

Lemma viewers_only p : credential calm server (with_key "gsk_view") people p → canWriteTenant p = false.
Proof.
  intros Hp. destruct Hp as [k Hk Hh Hr|claims v Hv|claims v b Hv].
  - apply list_elem_of_singleton in Hk as ->. reflexivity.
  - reflexivity.
  - exfalso. vm_compute in Hv. done.
Qed.

Lemma configuration_changes_need_a_writer_witness :
  (∃ route, Routes server !! 30%nat = Some route ∧ ro_Method route = "DELETE" ∧
     ro_Pattern route = "/api/v1/jobs/{id}") ∧
  same_configuration "t" (sample_db [cron_job])
    (w_db (run_api calm (ServeHTTP server (with_key "gsk_view")) scene).2).
Proof.
  split; [eexists; by split_and!|].
  apply (configuration_changes_need_a_writer calm server (with_key "gsk_view") scene "t").
  - apply NoDup_singleton.
  - intros p Hp _. by apply viewers_only.
Defined.

(** A request of the tenant [t] with the access token. *)
Definition with_token (token : string) : http_request :=
  mk_request "DELETE" "/api/v1/jobs/cron" [] [] ("Bearer " +:+ token) "t" None "10.0.0.1:4711" "{}".

(** A minute after the login Ada is the owner of the tenant. *)
Definition later : surroundings :=
  mk_surroundings (su_request calm) (su_env calm) (su_id calm) false (start + minute) "" None.

Lemma login_gives_access_witness :
  ∃ token, ans_Payload (run_api calm (login server (with_key "")) scene).1 = TokenBody token 900 ∧
    ∀ next, run_api later (authenticate server (with_token token) next) scene
            = run_api later (next (mk_principal "t" "u1" "owner" false)) scene.
Proof.
  destruct (login_gives_access calm server (with_key "") scene "ada@example.org" "correct horse"
    "0123456789abcdef" (user_of ada)) as (token & w' & Hl & Ha).
  - reflexivity.
  - reflexivity.
  - vm_compute. reflexivity.
  - reflexivity.
  - reflexivity.
  - vm_compute. reflexivity.
  - constructor.
  - exists token. split; [rewrite Hl; reflexivity|]. intros next.
    refine (Ha later (with_token token) next scene (user_of ada) eq_refl _ eq_refl eq_refl).
    vm_compute. reflexivity.
Defined.

(** ** Keys and owners *)

Definition key_draw : id_draw := mk_id_draw "k2" "bytes" start.

Lemma people_well_formed : well_formed people.
Proof.
  split; unfold people; cbn [users accounts memberships api_keys map];
    first [apply NoDup_singleton | apply Forall_singleton].
  - reflexivity.
  - split_and!; [by left..|reflexivity].
  - split; [by left|reflexivity].
Qed.

(** Another key is revoked, then this one. *)
Definition keys1 : idb := (Identity.CreateAPIKey "t" "ci" "developer" key_draw people).2.
Definition keys2 : idb := idexec (OpRevokeAPIKey "t" "k1") key_draw keys1.

Lemma api_key_lives_until_revoked_witness :
  Identity.AuthenticateAPIKey (new_key key_draw) keys2 = Ok ("t", "developer") ∧
  Identity.AuthenticateAPIKey "gsk_view" keys2 = Err ErrNotFound ∧
  ∃ i3, Identity.RevokeAPIKey "t" "k2" start keys2 = (Ok tt, i3) ∧
    Identity.AuthenticateAPIKey (new_key key_draw) i3 = Err ErrNotFound.
Proof.
  destruct (api_key_lives_until_revoked "t" "ci" "developer" key_draw people
    (mk_APIKey "k2" "t" "ci" "developer" start None) (new_key key_draw) keys1 keys2 start
    people_well_formed) as (Ha & i3 & Hr & Hn).
  - reflexivity.
  - apply rtc_once. by exists (OpRevokeAPIKey "t" "k1"), key_draw.
  - split; [exact Ha|]. split; [vm_compute; reflexivity|].
    exists i3. split; [exact Hr|]. apply Hn, rtc_refl.
Defined.

Lemma last_owner_is_protected_from_removal_only_witness :
  has_owner "t" (Identity.DeleteMembership "t" "u1" people).2 ∧
  ¬ has_owner "t" (Identity.AddMembership "t" "u1" "viewer" people).2.
Proof.
  destruct last_owner_is_protected_from_removal_only as [Hkeep Hlose].
  assert (has_owner "t" people) as Ho by (eexists; split; [by left|reflexivity]).
  split; [by apply Hkeep; [apply people_well_formed|]|].
  apply (Hlose "t" "u1" "viewer" people people_well_formed); try done.
  intros b ->%list_elem_of_singleton _. reflexivity.
Defined.
End ApiScenario.
