(* ===== verification/RunInvariants.v ===== *)
(** * Invariants of the run store

    The well-formedness of [job_runs], the transitions a run may make, and that
    every transaction of the run store keeps them. *)
From Stdlib Require Import ZArith Lia Ascii String Sorted.
From stdpp Require Import base list strings relations.
From S2P Require Import Prelude GoStrings Tables Executors RunStore JobStore Scheduler.

Module RunInvariants.
Import Executors RunStore JobStore Scheduler.

(** ** The life of a run *)

(** The transitions the statements of the store make. *)
Definition may_become (a b : run_status) : bool :=
  match a, b with
  | Pending, (Running | Cancelled) => true
  | Running, (Running | WaitingCallback | Succeeded | Failed | TimedOut | Cancelled) => true
  | WaitingCallback, (Succeeded | Failed | TimedOut | Cancelled) => true
  | _, _ => false
  end.

Definition row_step (a b : run_row) : Prop :=
  r_info a = r_info b ∧ may_become (r_status a) (r_status b) = true.

Definition row_evolves : run_row → run_row → Prop := rtc row_step.

Lemma may_become_active a b : may_become a b = true → active a = true.
Proof. by destruct a, b. Qed.

Lemma row_evolves_info a b : row_evolves a b → r_info a = r_info b.
Proof. induction 1 as [|a b c [H _] _ IH]; congruence. Qed.

Lemma row_evolves_id a b : row_evolves a b → r_id a = r_id b.
Proof. intros E%row_evolves_info. unfold r_id. congruence. Qed.

(** A finished run is not touched again. *)
Lemma row_evolves_terminal a b : row_evolves a b → terminal (r_status a) = true → b = a.
Proof.
  intros Hab Ht. destruct Hab as [|a b c [_ Hm] _]; [done|].
  apply may_become_active in Hm. unfold terminal in Ht. by rewrite Hm in Ht.
Qed.

(** Which columns are set in which state. *)
Definition run_wf (r : run_row) : Prop :=
  (r_status r ≠ Running →
     r_lease_owner r = None ∧ r_lease_token r = None ∧ r_lease_until r = None) ∧
  match r_status r with
  | Pending => r_started_at r = None ∧ r_finished_at r = None ∧
               r_callback_token_hash r = None ∧ r_callback_deadline r = None
  | Running => r_lease_owner r ≠ None ∧ r_lease_token r ≠ None ∧ r_lease_until r ≠ None ∧
               r_started_at r ≠ None ∧ r_finished_at r = None
  | WaitingCallback => r_started_at r ≠ None ∧ r_finished_at r = None ∧
                       r_callback_token_hash r ≠ None ∧ r_callback_deadline r ≠ None
  | _ => r_finished_at r ≠ None ∧ r_callback_token_hash r = None ∧ r_callback_deadline r = None
  end.

Lemma new_run_wf info st t msg node addr :
  st = Pending ∨ st = Skipped → run_wf (new_run info st (skipped_at st t) msg node addr).
Proof. by intros [-> | ->]. Qed.

Lemma new_run_pending_wf info msg node addr :
  run_wf (new_run info Pending None msg node addr).
Proof. done. Qed.

(** ** The invariant *)
Section invariant.
Context `{HostLaws}.

Definition drawn (x : string) (s : db) : Prop := ∃ n, (n < uuids_drawn s)%nat ∧ x = uuid n.

(** The identifiers a row holds come from the supply. *)
Definition row_drawn (s : db) (r : run_row) : Prop :=
  drawn (r_id r) s ∧ (∀ x, r_lease_token r = Some x → drawn x s) ∧
  (∀ g, r_broadcast_group_id r = Some g → drawn g s).

Definition has_job (s : db) (jobID tenantID : string) : Prop :=
  ∃ j, j ∈ jobs s ∧ j_id j = jobID ∧ j_tenant_id j = tenantID.

Definition owned (s : db) (r : run_row) : Prop := has_job s (r_job_id r) (r_tenant_id r).

(** The columns of a broadcast are set together, and the index is in range. *)
Definition shard_ok (r : run_row) : Prop :=
  match i_broadcast_group_id (r_info r), i_shard_index (r_info r), i_shard_total (r_info r) with
  | None, None, None => True
  | Some _, Some i, Some n => 0 ≤ i < n
  | _, _, _ => False
  end.

Record Inv (s : db) : Prop := {
  inv_ids : NoDup (map r_id (job_runs s));
  inv_jobs : NoDup (map j_id (jobs s));
  inv_wf : ∀ r, r ∈ job_runs s → run_wf r;
  inv_drawn : ∀ r, r ∈ job_runs s → row_drawn s r;
  inv_owned : ∀ r, r ∈ job_runs s → owned s r;
  inv_group : ∀ a b g, a ∈ job_runs s → b ∈ job_runs s →
    r_broadcast_group_id a = Some g → r_broadcast_group_id b = Some g → r_job_id a = r_job_id b;
  inv_deps : ∀ d, d ∈ job_dependencies s →
    has_job s (d_parent_job_id d) (d_tenant_id d) ∧ has_job s (d_child_job_id d) (d_tenant_id d);
}.

(** What a transaction does to the table: rows evolve, and a new row or a new
    lease has an identifier of [X] or one drawn meanwhile; jobs keep their
    identity and configuration. *)
Definition job_key (j : job_row) : string * string * job_conf :=
  (j_id j, j_tenant_id j, j_conf j).

Record evo (X : list string) (s s' : db) : Prop := {
  evo_rows : ∀ r, r ∈ job_runs s → ∃ r', r' ∈ job_runs s' ∧ row_evolves r r';
  evo_ids : ∀ r', r' ∈ job_runs s' →
    (∃ r, r ∈ job_runs s ∧ row_evolves r r') ∨ r_id r' ∈ X ∨
    ∃ n, (uuids_drawn s ≤ n < uuids_drawn s')%nat ∧ r_id r' = uuid n;
  evo_tokens : ∀ r' x, r' ∈ job_runs s' → r_lease_token r' = Some x →
    (∃ r, r ∈ job_runs s ∧ r_info r = r_info r' ∧ r_lease_token r = Some x) ∨ x ∈ X ∨
    ∃ n, (uuids_drawn s ≤ n < uuids_drawn s')%nat ∧ x = uuid n;
  evo_drawn : (uuids_drawn s ≤ uuids_drawn s')%nat;
  evo_jobs : map job_key (jobs s') = map job_key (jobs s);
  evo_deps : job_dependencies s' = job_dependencies s;
}.

Lemma evo_refl s : evo [] s s.
Proof.
  constructor; [|intros r' ?; left|left; eauto|lia|done|done]; [intros r ?|];
    eexists; split; try done; apply rtc_refl.
Qed.

Lemma evo_trans X Y s s1 s2 : evo X s s1 → evo Y s1 s2 → evo (X ++ Y) s s2.
Proof.
  intros [R1 I1 T1 D1 J1 P1] [R2 I2 T2 D2 J2 P2]. constructor; [| | |lia|congruence|congruence].
  - intros r Hr. destruct (R1 r Hr) as (r1 & Hr1 & E1). destruct (R2 r1 Hr1) as (r2 & Hr2 & E2).
    exists r2. split; [done|]. unfold row_evolves in *. by etrans.
  - intros r2 Hr2. destruct (I2 r2 Hr2) as [(r1 & Hr1 & E2)|[HY|(n & Hn & E)]].
    + destruct (I1 r1 Hr1) as [(r & Hr & E1)|[HX|(n & Hn & E)]].
      * left. exists r. split; [done|]. unfold row_evolves in *. by etrans.
      * right. left. apply elem_of_app. left. by rewrite <- (row_evolves_id _ _ E2).
      * right. right. exists n. rewrite <- (row_evolves_id _ _ E2). split; [lia|done].
    + right. left. apply elem_of_app. by right.
    + right. right. exists n. split; [lia|done].
  - intros r2 x Hr2 Hx. destruct (T2 r2 x Hr2 Hx) as [(r1 & Hr1 & E1 & Hx1)|[HY|(n & Hn & E)]].
    + destruct (T1 r1 x Hr1 Hx1) as [(r & Hr & E & ?)|[HX|(n & Hn & E)]].
      * left. exists r. split_and!; [done|congruence|done].
      * right. left. apply elem_of_app. by left.
      * right. right. exists n. split; [lia|done].
    + right. left. apply elem_of_app. by right.
    + right. right. exists n. split; [lia|done].
Qed.

Lemma evo_weaken X Y s s' : X ⊆ Y → evo X s s' → evo Y s s'.
Proof.
  intros HXY [R I T D J P]. constructor; try done.
  - intros r' Hr'. destruct (I r' Hr') as [?|[?|?]]; auto.
  - intros r' x Hr' Hx. destruct (T r' x Hr' Hx) as [?|[?|?]]; auto.
Qed.

(** An identifier drawn in the course of the transaction need not be listed. *)
Lemma evo_drop X n s s' :
  (uuids_drawn s ≤ n < uuids_drawn s')%nat → evo (uuid n :: X) s s' → evo X s s'.
Proof.
  intros Hn [R I T D J P]. constructor; try done.
  - intros r' Hr'. destruct (I r' Hr') as [?|[Hx|?]]; auto.
    apply elem_of_cons in Hx as [E|?]; [right; right; eauto|auto].
  - intros r' x Hr' Ht. destruct (T r' x Hr' Ht) as [?|[Hx|?]]; auto.
    apply elem_of_cons in Hx as [E|?]; [right; right; eauto|auto].
Qed.

(** ** Proof rules *)

(** Drawn, and not yet the identifier of a run. *)
Definition unused (x : string) (s : db) : Prop :=
  drawn x s ∧ ∀ r, r ∈ job_runs s → r_id r ≠ x.

Lemma drawn_mono x s s' : (uuids_drawn s ≤ uuids_drawn s')%nat → drawn x s → drawn x s'.
Proof. intros Hle (n & Hn & ->). exists n. split; [lia|done]. Qed.

Lemma unused_evo X s s' x : evo X s s' → x ∉ X → unused x s → unused x s'.
Proof.
  intros [R I _ D J P] HX [Hd Hu]. split; [by eapply drawn_mono|].
  intros r' Hr' <-. destruct (I r' Hr') as [(r & Hr & E)|[?|(n & Hn & E)]]; [|done|].
  - apply (Hu r Hr). by apply row_evolves_id.
  - destruct Hd as (k & Hk & Ek). rewrite Ek in E. apply uuid_inj in E. lia.
Qed.

Definition good {A} (X : list string) (m : tx A) : Prop :=
  ∀ e s, Inv s → wp m (λ _ s', Inv s' ∧ evo X s s') e s.

Lemma good_weaken {A} X Y (m : tx A) : X ⊆ Y → good X m → good Y m.
Proof.
  intros HXY Hm e s Hs. eapply wp_mono; [by apply Hm|].
  intros a s' [? ?]. split; [done|]. by eapply evo_weaken.
Qed.

Lemma good_bind {A B} X Y (m : tx A) (f : A → tx B) :
  good X m → (∀ a, good Y (f a)) → good (X ++ Y) (mbind f m).
Proof.
  intros Hm Hf e s Hs. apply wp_bind. eapply wp_mono; [by apply Hm|].
  intros a s1 [Hs1 E1]. eapply wp_mono; [by apply Hf|].
  intros b s2 [Hs2 E2]. split; [done|]. by eapply evo_trans.
Qed.

Lemma good_seq {A B} (m : tx A) (f : A → tx B) :
  good [] m → (∀ a, good [] (f a)) → good [] (mbind f m).
Proof. apply (good_bind [] []). Qed.

(** Using a transaction that is good from any point of another one. *)
Lemma wp_good {A} X Y (m : tx A) (Q : A → db → Prop) e s0 s :
  good Y m → Inv s → evo X s0 s →
  (∀ a s', Inv s' → evo (X ++ Y) s0 s' → evo Y s s' → Q a s') → wp m Q e s.
Proof.
  intros Hm Hs HX HQ. eapply wp_mono; [by apply Hm|].
  intros a s' [? ?]. apply HQ; [done|by eapply evo_trans|done].
Qed.

Lemma good_ret {A} (a : A) : good [] (mret a).
Proof. intros e s Hs. split; [done|apply evo_refl]. Qed.

Lemma good_fail {A} err : good [] (@fail A err).
Proof. done. Qed.

Lemma good_get : good [] get.
Proof. intros e s Hs. split; [done|apply evo_refl]. Qed.

Lemma good_now : good [] now.
Proof. intros e s Hs. split; [done|apply evo_refl]. Qed.

Lemma good_locked : good [] locked.
Proof. intros e s Hs. split; [done|apply evo_refl]. Qed.

Lemma good_lift {A} (r : result A) : good [] (lift r).
Proof. intros e s Hs. apply wp_lift. intros a _. split; [done|apply evo_refl]. Qed.

Lemma good_for_each {A} (l : list A) f : (∀ x, x ∈ l → good [] (f x)) → good [] (for_each l f).
Proof.
  intros Hf e s Hs.
  apply (wp_for_each l f (λ s', Inv s' ∧ evo [] s s')); [|split; [done|apply evo_refl]].
  intros x s1 Hx [Hs1 E1]. eapply wp_good; [by apply Hf|done|done|]. auto.
Qed.

(** Statements on the other tables: the state agrees on runs, on the identity
    of jobs and on the supply. *)
Definition same_core (s s' : db) : Prop :=
  job_runs s' = job_runs s ∧ map job_key (jobs s') = map job_key (jobs s) ∧
  uuids_drawn s' = uuids_drawn s ∧ job_dependencies s' = job_dependencies s.

Lemma job_key_ids s s' :
  map job_key (jobs s') = map job_key (jobs s) → map j_id (jobs s') = map j_id (jobs s).
Proof.
  intros E. apply (f_equal (map (λ k : string * string * job_conf, k.1.1))) in E.
  by rewrite !map_map in E.
Qed.

Lemma job_key_in s s' j :
  map job_key (jobs s') = map job_key (jobs s) → j ∈ jobs s' →
  ∃ j0, j0 ∈ jobs s ∧ job_key j0 = job_key j.
Proof.
  intros E Hj.
  assert (Hk : job_key j ∈ map job_key (jobs s))
    by (rewrite <- E; by apply list_elem_of_In, in_map, list_elem_of_In).
  apply list_elem_of_In, in_map_iff in Hk as (j0 & Ek & Hj0).
  apply list_elem_of_In in Hj0. eauto.
Qed.

Lemma has_job_keys s s' jobID tenantID :
  map job_key (jobs s') = map job_key (jobs s) →
  has_job s jobID tenantID → has_job s' jobID tenantID.
Proof.
  intros E (j & Hj & Hid & Ht). destruct (job_key_in s' s j (eq_sym E) Hj) as (j' & Hj' & Ek).
  exists j'. unfold job_key in Ek. split; [done|]. split; congruence.
Qed.

Lemma same_core_good s s' : same_core s s' → Inv s → Inv s' ∧ evo [] s s'.
Proof.
  intros (Er & Ej & Eu & Ed) [H1 H2 H3 H4 H5 H6 H7]. split.
  - constructor; rewrite ?Er, ?Ed; [done| |done| | |done|].
    + by rewrite (job_key_ids _ _ Ej).
    + intros r Hr. destruct (H4 r Hr) as (A & B & C).
      assert (∀ x, drawn x s → drawn x s') by (intros x; apply drawn_mono; lia).
      split_and!; auto.
    + intros r Hr. eapply has_job_keys; [done|by apply H5].
    + intros d Hd. destruct (H7 d Hd). split; by eapply has_job_keys.
  - constructor; [| | |lia|done|done]; rewrite Er.
    + intros r Hr. exists r. split; [done|apply rtc_refl].
    + intros r Hr. left. exists r. split; [done|apply rtc_refl].
    + left. eauto.
Qed.

Lemma good_modify f : (∀ s, same_core s (f s)) → good [] (modify f).
Proof. intros Hf e s Hs. apply wp_modify. by apply same_core_good. Qed.

(** Drawing an identifier: it is unused. *)
Lemma new_uuid_state s :
  Inv s →
  let s' := set_uuids_drawn (S (uuids_drawn s)) s in
  Inv s' ∧ evo [] s s' ∧ unused (uuid (uuids_drawn s)) s'.
Proof.
  intros Hs. cbv zeta. set (s' := set_uuids_drawn _ s).
  assert (Hm : ∀ x, drawn x s → drawn x s') by (intros x; apply drawn_mono; cbn; lia).
  destruct Hs as [H1 H2 H3 H4 H5 H6 H7]. split_and!.
  - constructor; try done. intros r Hr. destruct (H4 r Hr) as (A & B & C). split_and!; auto.
  - constructor; [| |left; eauto|cbn; lia|done|done];
      intros r Hr; [|left]; exists r; (split; [done|apply rtc_refl]).
  - split; [exists (uuids_drawn s); cbn; split; [lia|done]|].
    intros r Hr E. destruct (H4 r Hr) as ((n & Hn & En) & _). rewrite E in En.
    apply uuid_inj in En. lia.
Qed.

Lemma wp_new_uuid (Q : string → db → Prop) e s :
  Inv s →
  (∀ x s', Inv s' → evo [] s s' → unused x s' →
     x = uuid (uuids_drawn s) → s' = set_uuids_drawn (S (uuids_drawn s)) s → Q x s') →
  wp new_uuid Q e s.
Proof. intros Hs HQ. destruct (new_uuid_state s Hs) as (? & ? & ?). by apply HQ. Qed.

Lemma good_new_uuid : good [] new_uuid.
Proof. intros e s Hs. apply wp_new_uuid; [done|]. auto. Qed.

Lemma good_time_now : good [] time_now.
Proof. intros e s Hs. by apply same_core_good. Qed.

(** An identifier drawn inside a transaction, used for a row of it. *)
Lemma good_with_uuid {A} (f : string → tx A) :
  (∀ x e s, Inv s → unused x s → wp (f x) (λ _ s', Inv s' ∧ evo [x] s s') e s) →
  good [] (x ← new_uuid; f x).
Proof.
  intros Hf e s Hs. apply wp_bind, wp_new_uuid; [done|].
  intros x s1 Hs1 E1 Hx -> ->. eapply wp_mono; [by apply Hf|].
  intros a s2 [Hs2 E2]. split; [done|].
  apply (evo_drop [] (uuids_drawn s)).
  - pose proof (evo_drawn _ _ _ E2) as Hd. cbn in Hd. lia.
  - exact (evo_trans _ _ _ _ _ E1 E2).
Qed.

Lemma ids_of_infos l : map r_id l = map i_id (map r_info l).
Proof. by rewrite map_map. Qed.

(** [UPDATE job_runs]: rows that match make an allowed step. *)
Lemma update_state X p f s :
  Inv s →
  (∀ r, r ∈ job_runs s → p r = true →
     row_step r (f r) ∧ run_wf (f r) ∧
     ∀ x, r_lease_token (f r) = Some x → drawn x s ∧ (r_lease_token r = Some x ∨ x ∈ X)) →
  let s' := set_job_runs (sql_update p f (job_runs s)) s in Inv s' ∧ evo X s s'.
Proof.
  intros [H1 H2 H3 H4 H5 H6 H7] Hf. cbv zeta. set (s' := set_job_runs _ s).
  assert (Hstep : ∀ r', r' ∈ job_runs s' → ∃ r, r ∈ job_runs s ∧ r_info r = r_info r' ∧
            row_evolves r r' ∧ run_wf r' ∧
            ∀ x, r_lease_token r' = Some x → drawn x s ∧ (r_lease_token r = Some x ∨ x ∈ X)).
  { intros r' (r & Hr & ->)%elem_of_sql_update. exists r. split; [done|].
    destruct (p r) eqn:E.
    - destruct (Hf r Hr E) as ([? ?] & ? & ?). split_and!; try done. by apply rtc_once.
    - destruct (H4 r Hr) as (_ & ? & _). split_and!; auto. apply rtc_refl. }
  split; constructor; try done.
  - cbn. rewrite ids_of_infos. rewrite ids_of_infos in H1.
    assert (E : map r_info (sql_update p f (job_runs s)) = map r_info (job_runs s)).
    { unfold sql_update. rewrite map_map. apply map_ext_in. intros r Hr%list_elem_of_In. destruct (p r) eqn:E; [|done].
      symmetry. apply Hf; done. }
    by rewrite E.
  - intros r' Hr'. by destruct (Hstep r' Hr') as (? & _ & _ & _ & ? & _).
  - intros r' Hr'. destruct (Hstep r' Hr') as (r & Hr & Ei & _ & _ & Ht).
    destruct (H4 r Hr) as (A & _ & C).
    unfold row_drawn, r_id, r_broadcast_group_id in *. rewrite <- Ei. split_and!; [done| |done].
    intros x Hx. by apply Ht.
  - intros r' Hr'. destruct (Hstep r' Hr') as (r & Hr & Ei & _).
    destruct (H5 r Hr) as (j & Hj & Hk). exists j. unfold r_job_id, r_tenant_id in *.
    rewrite <- Ei. done.
  - intros a b g Ha Hb. destruct (Hstep a Ha) as (a0 & Ha0 & Ea & _).
    destruct (Hstep b Hb) as (b0 & Hb0 & Eb & _).
    unfold r_broadcast_group_id, r_job_id in *. rewrite <- Ea, <- Eb. eauto.
  - intros r Hr. exists (if p r then f r else r). split.
    + apply elem_of_sql_update. eauto.
    + destruct (p r) eqn:E; [apply rtc_once; by apply Hf|apply rtc_refl].
  - intros r' Hr'. left. destruct (Hstep r' Hr') as (r & ? & _ & ? & _). eauto.
  - intros r' x Hr' Hx. destruct (Hstep r' Hr') as (r & Hr & Ei & _ & _ & Ht).
    destruct (Ht x Hx) as [_ [?|?]]; eauto.
Qed.

(** [INSERT INTO job_runs] of a run with an unused identifier. *)
Lemma insert_state r s :
  Inv s → unused (r_id r) s → run_wf r → r_lease_token r = None → row_drawn s r → owned s r →
  (∀ b g, b ∈ job_runs s → r_broadcast_group_id r = Some g →
     r_broadcast_group_id b = Some g → r_job_id r = r_job_id b) →
  let s' := set_job_runs (job_runs s ++ [r]) s in Inv s' ∧ evo [r_id r] s s'.
Proof.
  intros [H1 H2 H3 H4 H5 H6 H7] [Hd Hu] Hwf Hnt Hdr Hown Hgrp. cbv zeta.
  assert (Hin : ∀ x, x ∈ job_runs s ++ [r] ↔ x ∈ job_runs s ∨ x = r)
    by (intros x; rewrite elem_of_app, list_elem_of_singleton; done).
  split; constructor; cbn; try done; try setoid_rewrite Hin.
  - rewrite map_app. apply NoDup_app. split_and!; [done| |apply NoDup_singleton].
    intros x Hx Hr. apply list_elem_of_singleton in Hr as ->.
    apply list_elem_of_In, in_map_iff in Hx as (b & E & Hb).
    apply list_elem_of_In in Hb. by apply (Hu b).
  - intros x [?| ->]; auto.
  - intros x [?| ->]; [by apply H4|done].
  - intros x [?| ->]; [by apply H5|done].
  - intros a b g [Ha| ->] [Hb| ->] Ea Eb; eauto.
    symmetry. eauto.
  - intros x Hx. exists x. split; [by left|apply rtc_refl].
  - intros x [Hx| ->]; [left|right; left].
    + exists x. split; [done|apply rtc_refl].
    + apply list_elem_of_singleton. done.
  - intros x tok [Hx| ->] Htok; [left; eauto|congruence].
Qed.

(** ** Goodness of the shared steps *)

Create HintDb good.
Hint Resolve good_ret good_fail good_get good_now good_locked good_lift good_new_uuid
  good_time_now : good.

(** Walks through a transaction whose steps are good. *)
Ltac good_step :=
  lazymatch goal with
  | |- good _ (mbind _ _) => apply good_seq; [|intros ?]
  | |- good _ (if ?b then _ else _) => destruct b
  | |- good _ (match ?x with _ => _ end) => destruct x
  | |- good _ (let '(_, _) := ?x in _) => destruct x
  | |- good _ (for_each _ _) => apply good_for_each; intros ? ?
  | |- good _ _ => solve [eauto with good]
  end.
Ltac goods := cbv zeta; repeat good_step.

Lemma good_emitRunEventTx runID st ev : good [] (emitRunEventTx runID st ev).
Proof. unfold emitRunEventTx, exec_run_event. goods. by apply good_modify. Qed.
Hint Resolve good_emitRunEventTx : good.

Lemma good_emitRunLifecycleEventTx runID st : good [] (emitRunLifecycleEventTx runID st).
Proof. apply good_emitRunEventTx. Qed.
Hint Resolve good_emitRunLifecycleEventTx : good.

Lemma job_key_update p next last t l :
  map job_key (sql_update p (set_next_run next last t) l) = map job_key l.
Proof. by apply sql_update_key. Qed.

Lemma good_rearmFixedDelay `{ScheduleCalc} r t : good [] (rearmFixedDelay r t).
Proof.
  unfold rearmFixedDelay. goods. apply good_modify. intros s.
  split_and!; [done| |done|done]. apply job_key_update.
Qed.
Hint Resolve good_rearmFixedDelay : good.

Lemma good_enqueueExecutorCancellationTx r reason :
  good [] (enqueueExecutorCancellationTx r reason).
Proof.
  unfold enqueueExecutorCancellationTx. goods. apply good_modify. intros s.
  unfold upsert_command. by destruct (sql_exists _ _).
Qed.
Hint Resolve good_enqueueExecutorCancellationTx : good.

(** An update of active rows to a closed row is good. *)
Lemma good_update_runs p f :
  (∀ r, p r = true → run_wf r →
     row_step r (f r) ∧ run_wf (f r) ∧
     (r_lease_token (f r) = None ∨ r_lease_token (f r) = r_lease_token r)) →
  good [] (update_runs p f).
Proof.
  intros Hf e s Hs. unfold update_runs. apply wp_bind, wp_get, wp_bind, wp_modify, wp_ret.
  apply update_state; [done|]. intros r Hr Hp.
  destruct (Hf r Hp (inv_wf s Hs r Hr)) as (? & ? & Ht). split_and!; [done|done|].
  intros x Hx. destruct (inv_drawn s Hs r Hr) as (_ & Hd & _).
  destruct Ht as [Ht|Ht]; [congruence|]. split; [apply Hd|left]; congruence.
Qed.

Lemma close_run_step st t resp body msg r :
  may_become (r_status r) st = true → terminal st = true → st ≠ Skipped →
  let r' := close_run st (Some t) resp body msg r in
  row_step r r' ∧ run_wf r' ∧ (r_lease_token r' = None ∨ r_lease_token r' = r_lease_token r).
Proof. intros Hm Ht Hs. split_and!; [done| |by left]. unfold run_wf; cbn. by destruct st. Qed.

Lemma active_may_cancel st : active st = true → may_become st Cancelled = true.
Proof. by destruct st. Qed.

Lemma good_after_cover `{ScheduleCalc} t row : good [] (after_cover t row).
Proof. unfold after_cover. goods. Qed.
Hint Resolve good_after_cover : good.

Lemma good_applyBlockAction `{ScheduleCalc} jobID action : good [] (applyBlockAction jobID action).
Proof.
  unfold applyBlockAction. destruct action; [auto with good..|]. goods.
  apply good_update_runs. intros r Hp _. unfold active_of_job, r_active in Hp. bool_to_prop.
  apply close_run_step; [by apply active_may_cancel|done|done].
Qed.
Hint Resolve good_applyBlockAction : good.

Lemma good_applyBlockPolicy `{ScheduleCalc} jobID policy : good [] (applyBlockPolicy jobID policy).
Proof. unfold applyBlockPolicy. goods. Qed.
Hint Resolve good_applyBlockPolicy : good.

Lemma good_broadcast_nodes groupID jobID : good [] (broadcast_nodes groupID jobID).
Proof. unfold broadcast_nodes, liveExecutorNodesTx, jobExecutorLabels. goods. Qed.
Hint Resolve good_broadcast_nodes : good.

(** ** Insertions *)

Lemma wp_emit runID st ev (Q : unit → db → Prop) e s :
  Inv s → (∀ s', Inv s' → evo [] s s' → job_runs s' = job_runs s → Q tt s') →
  wp (emitRunEventTx runID st ev) Q e s.
Proof.
  intros Hs HQ.
  pose proof (good_emitRunEventTx runID st ev e s Hs) as Hg.
  unfold wp in *. destruct (emitRunEventTx runID st ev e s) as [[[] s']|] eqn:E; [|done].
  destruct Hg as [? ?]. apply HQ; [done|done|].
  by apply emitRunEventTx_frame in E as [events ->].
Qed.

(** A pending run in a broadcast group (or in none) of its own job. *)
Definition joins (s : db) (jobID : string) (g : option string) : Prop :=
  match g with
  | None => True
  | Some g => drawn g s ∧ ∀ b, b ∈ job_runs s → r_broadcast_group_id b = Some g → r_job_id b = jobID
  end.

Lemma wp_insert_run r (Q : unit → db → Prop) e s :
  Inv s → unused (r_id r) s → run_wf r → r_lease_token r = None → owned s r →
  joins s (r_job_id r) (r_broadcast_group_id r) →
  (∀ s', Inv s' → evo [r_id r] s s' → job_runs s' = job_runs s ++ [r] → Q tt s') →
  wp (insert_run r) Q e s.
Proof.
  intros Hs Hu Hwf Htok Hown Hj HQ. apply wp_modify.
  destruct (insert_state r s) as [HI HE]; try done.
  - split_and!; [apply Hu|congruence|]. intros g E. rewrite E in Hj. apply Hj.
  - intros b g Hb E Eb. rewrite E in Hj. symmetry. by apply Hj.
  - by apply HQ.
Qed.

Lemma owned_evo X s s' r : evo X s s' → owned s r → owned s' r.
Proof. intros E. apply has_job_keys. apply E. Qed.

Lemma evo_app_nil X s s' : evo (X ++ []) s s' → evo X s s'.
Proof. by rewrite app_nil_r. Qed.

(** A new run and its lifecycle event. *)
Lemma wp_insert_emit r st e s :
  Inv s → unused (r_id r) s → run_wf r → r_lease_token r = None → owned s r →
  joins s (r_job_id r) (r_broadcast_group_id r) →
  wp (_ ← insert_run r; emitRunLifecycleEventTx (r_id r) st)
     (λ _ s', Inv s' ∧ evo [r_id r] s s' ∧ job_runs s' = job_runs s ++ [r]) e s.
Proof.
  intros. apply wp_bind, wp_insert_run; try done. intros s1 Hs1 E1 R1.
  apply wp_emit; [done|]. intros s2 Hs2 E2 R2.
  split_and!; [done|exact (evo_app_nil _ _ _ (evo_trans _ _ _ _ _ E1 E2))|congruence].
Qed.

Lemma has_job_evo X s s' jobID tenantID :
  evo X s s' → has_job s jobID tenantID → has_job s' jobID tenantID.
Proof. intros E. apply has_job_keys. apply E. Qed.

(** The shards of a broadcast. *)
Definition shard_info_ok (info : string → nat → BroadcastShard → run_info)
    (tenantID jobID g : string) : Prop :=
  ∀ id i sh, i_id (info id i sh) = id ∧ i_tenant_id (info id i sh) = tenantID ∧
    i_job_id (info id i sh) = jobID ∧ i_broadcast_group_id (info id i sh) = Some g.

Lemma wp_insert_shards first index info shards tenantID jobID g e s :
  shard_info_ok info tenantID jobID g →
  Inv s → joins s jobID (Some g) →
  has_job s jobID tenantID →
  (∀ x, index = O → first = Some x → unused x s) →
  wp (insert_shards first index info shards)
     (λ _ s', Inv s' ∧ evo (match index, first with O, Some x => [x] | _, _ => [] end) s s') e s.
Proof.
  intros Hinfo. revert index s. induction shards as [|sh shards IH]; intros index s Hs Hj Hjob Hfirst.
  { cbn. split; [done|]. eapply evo_weaken; [|apply evo_refl]. apply list_subseteq_nil. }
  cbn [insert_shards]. apply wp_bind, wp_new_uuid; [done|].
  intros x s1 Hs1 E1 Hx Ex Es1. cbv zeta.
  set (id := match index with O => _ | S _ => _ end).
  assert (Hid : unused id s1).
  { unfold id. destruct index; [|done]. destruct first as [y|]; [|done].
    eapply (unused_evo []); [exact E1|apply not_elem_of_nil|auto]. }
  destruct (Hinfo id index sh) as (Hi1 & Hi2 & Hi3 & Hi4).
  set (r := new_run _ _ _ _ _ _).
  assert (Hrid : r_id r = id) by exact Hi1.
  apply wp_bind. eapply wp_insert_run; unfold r_broadcast_group_id, r_job_id; cbn;
    rewrite ?Hrid, ?Hi3, ?Hi4; try done.
  { destruct Hjob as (j & Hjj & Hjid & Hjt). exists j. unfold r_job_id, r_tenant_id. cbn.
    rewrite Hi2, Hi3. subst s1. done. }
  { destruct Hj as [Hd Hb]. split; [eapply drawn_mono; [|exact Hd]; apply E1|].
    subst s1. exact Hb. }
  intros s2 Hs2 E2 R2. apply wp_bind, wp_emit; [done|]. intros s3 Hs3 E3 R3.
  assert (E13 : evo [id] s s3).
  { exact (evo_app_nil _ _ _ (evo_trans _ _ _ _ _ (evo_trans _ _ _ _ _ E1 E2) E3)). }
  eapply wp_mono; [apply (IH (S index) s3)|].
  - done.
  - destruct Hj as [Hd Hb]. split; [eapply drawn_mono; [|exact Hd]; apply E13|].
    rewrite R3, R2. intros b [Hb'|Hb']%elem_of_app; [subst s1; by apply Hb|].
    apply list_elem_of_singleton in Hb' as ->. intros _. exact Hi3.
  - destruct Hjob as (j & Hjj & Hjid & Hjt).
    destruct (owned_evo _ _ _ r E13) as (j' & ? & ? & ?).
    { exists j. unfold r_job_id, r_tenant_id. cbn. by rewrite Hi2, Hi3. }
    exists j'. unfold r_job_id, r_tenant_id in *. cbn in *. rewrite Hi2, Hi3 in *. done.
  - done.
  - intros a s4 [Hs4 E4]. split; [done|].
    pose proof (evo_app_nil _ _ _ (evo_trans _ _ _ _ _ E13 E4)) as E14.
    assert (Hlt : (uuids_drawn s < uuids_drawn s4)%nat).
    { pose proof (evo_drawn _ _ _ E2). pose proof (evo_drawn _ _ _ E3).
      pose proof (evo_drawn _ _ _ E4). subst s1. cbn in *. lia. }
    unfold id in E14. destruct index as [|k]; [destruct first as [y|]; [exact E14|]|];
      subst x; (eapply evo_drop; [|exact E14]); lia.
Qed.

(** Transactions that may insert a run [x] of a job that exists. *)
Definition good_for {A} (x jobID tenantID : string) (m : tx A) : Prop :=
  ∀ e s, Inv s → unused x s → has_job s jobID tenantID →
    wp m (λ _ s', Inv s' ∧ evo [x] s s') e s.

Lemma good_for_good {A} x jobID tenantID (m : tx A) : good [] m → good_for x jobID tenantID m.
Proof. intros Hm e s Hs _ _. apply (good_weaken [] [x]); [apply list_subseteq_nil|done|done]. Qed.

Lemma good_for_bind {A B} x jobID tenantID (m : tx A) (f : A → tx B) :
  good [] m → (∀ a, good_for x jobID tenantID (f a)) → good_for x jobID tenantID (mbind f m).
Proof.
  intros Hm Hf e s Hs Hx Hj. apply wp_bind. eapply wp_mono; [by apply Hm|].
  intros a s1 [Hs1 E1]. eapply wp_mono; [apply Hf|].
  - done.
  - eapply unused_evo; [exact E1|apply not_elem_of_nil|done].
  - by eapply has_job_evo.
  - intros b s2 [Hs2 E2]. split; [done|]. exact (evo_trans _ _ _ _ _ E1 E2).
Qed.

(** A last step that is good after the run was inserted. *)
Lemma good_for_then {A B} x jobID tenantID (m : tx A) (f : A → tx B) :
  good_for x jobID tenantID m → (∀ a, good [] (f a)) → good_for x jobID tenantID (mbind f m).
Proof.
  intros Hm Hf e s Hs Hx Hj. apply wp_bind. eapply wp_mono; [by apply Hm|].
  intros a s1 [Hs1 E1]. eapply wp_mono; [by apply Hf|].
  intros b s2 [Hs2 E2]. split; [done|].
  exact (evo_app_nil _ _ _ (evo_trans _ _ _ _ _ E1 E2)).
Qed.

Lemma good_for_insert r st x jobID tenantID :
  r_id r = x → r_job_id r = jobID → r_tenant_id r = tenantID → run_wf r →
  r_lease_token r = None → r_broadcast_group_id r = None →
  good_for x jobID tenantID (_ ← insert_run r; emitRunLifecycleEventTx x st).
Proof.
  intros <- <- <- Hwf Htok Hg e s Hs Hx Hj.
  eapply wp_mono; [apply wp_insert_emit; try done; by rewrite Hg|]. cbn. tauto.
Qed.

Lemma fresh_group_joins s jobID :
  Inv s → joins (set_uuids_drawn (S (uuids_drawn s)) s) jobID (Some (uuid (uuids_drawn s))).
Proof.
  intros Hs. split; [exists (uuids_drawn s); cbn; split; [lia|done]|].
  intros b Hb Eb. exfalso. destruct (inv_drawn s Hs b Hb) as (_ & _ & Hd).
  destruct (Hd _ Eb) as (n & Hn & En). apply uuid_inj in En. lia.
Qed.

(** The shards of a broadcast with a fresh group, the first of them run [x]. *)
Lemma good_for_shards (first : bool) x jobID tenantID info shards :
  (∀ g, shard_info_ok (info g) tenantID jobID g) →
  good_for x jobID tenantID
    (g ← new_uuid; insert_shards (if first then Some x else None) 0 (info g) shards).
Proof.
  intros Hinfo e s Hs Hx Hj. apply wp_bind, wp_new_uuid; [done|].
  intros g s1 Hs1 E1 Hg Eg Es1.
  assert (Hx1 : unused x s1) by (eapply unused_evo; [exact E1|apply not_elem_of_nil|done]).
  eapply wp_mono; [apply (wp_insert_shards _ _ _ _ tenantID jobID g)|].
  - apply Hinfo.
  - done.
  - subst g s1. by apply fresh_group_joins.
  - by eapply has_job_evo.
  - intros y _ Ey. destruct first; [|done]. by injection Ey as <-.
  - intros a s2 [Hs2 E2]. split; [done|]. pose proof (evo_trans _ _ _ _ _ E1 E2) as E.
    eapply evo_weaken; [|exact E]. destruct first; cbn; [done|apply list_subseteq_nil].
Qed.

Ltac good_for_step :=
  lazymatch goal with
  | |- good_for _ _ _ (mbind _ _) => apply good_for_bind; [goods|intros ?]
  | |- good_for _ _ _ (if ?b then _ else _) => destruct b
  | |- good_for _ _ _ (mret _) => apply good_for_good, good_ret
  | |- good_for _ _ _ (fail _) => apply good_for_good, good_fail
  end.

Lemma wp_with_uuid {A} (f : string → tx A) jobID tenantID e s :
  Inv s → has_job s jobID tenantID → (∀ x, good_for x jobID tenantID (f x)) →
  wp (x ← new_uuid; f x) (λ _ s', Inv s' ∧ evo [] s s') e s.
Proof.
  intros Hs Hj Hf. apply wp_bind, wp_new_uuid; [done|].
  intros x s1 Hs1 E1 Hx -> Es1. eapply wp_mono; [apply Hf; [done|done|by eapply has_job_evo]|].
  intros a s2 [Hs2 E2]. split; [done|]. apply (evo_drop [] (uuids_drawn s)).
  - pose proof (evo_drawn _ _ _ E2) as Hd. subst s1. cbn in Hd. lia.
  - exact (evo_trans _ _ _ _ _ E1 E2).
Qed.

(** ** Dependent runs *)

Lemma good_reserve_dispatch p c r t : good [] (reserve_dispatch p c r t).
Proof. unfold reserve_dispatch. goods. by apply good_modify. Qed.
Hint Resolve good_reserve_dispatch : good.

Lemma wp_enqueue_dependent `{ScheduleCalc} parent child e s :
  Inv s → has_job s (child_id child) (TenantID parent) →
  wp (enqueue_dependent parent child) (λ _ s', Inv s' ∧ evo [] s s') e s.
Proof.
  intros Hs Hj. unfold enqueue_dependent. eapply wp_with_uuid; [done|exact Hj|]. intros x.
  cbv zeta.
  assert (Hone : ∀ t sched st msg, st = Pending ∨ st = Skipped →
    good_for x (child_id child) (TenantID parent)
      (_ ← insert_run (new_run (dependency_info parent (child_id child) sched t None x None) st
                         (skipped_at st t) (nullif_empty msg) None None);
       emitRunLifecycleEventTx x st)).
  { intros t sched st msg Hst. apply good_for_insert; try done. by apply new_run_wf. }
  assert (Hshards : ∀ t sched shards, good_for x (child_id child) (TenantID parent)
    (g ← new_uuid;
     insert_shards (Some x) 0
       (λ id _ shard, dependency_info parent (child_id child) sched t (Some g) id (Some shard))
       shards)).
  { intros t sched shards. by apply (good_for_shards true x _ _ (λ g id _ shard,
      dependency_info parent (child_id child) sched t (Some g) id (Some shard))). }
  repeat first [by apply Hone; auto | apply Hshards | good_for_step].
Qed.

Lemma dependents_have_job s tenantID parentJobID child :
  Inv s → child ∈ dependents_of tenantID parentJobID s → has_job s (child_id child) tenantID.
Proof.
  intros Hs Hc. unfold dependents_of in Hc.
  apply list_elem_of_In, in_flat_map in Hc as (d & Hd & Hc).
  apply list_elem_of_In, elem_of_sort_by, elem_of_sql_select in Hd as [Hp Hd].
  apply in_map_iff in Hc as (j & <- & Hj).
  apply list_elem_of_In, elem_of_sql_select in Hj as [Hid Hj]. bool_to_prop.
  destruct (inv_deps s Hs d Hd) as [_ Hc]. cbn. congruence.
Qed.

Lemma good_enqueueDependentRuns `{ScheduleCalc} parent : good [] (enqueueDependentRuns parent).
Proof.
  intros e s Hs. unfold enqueueDependentRuns. apply wp_bind, wp_get.
  eapply wp_mono; [apply (wp_for_each _ _ (λ s', Inv s' ∧ evo [] s s'))|].
  - intros child s1 Hc [Hs1 E1].
    eapply wp_mono; [apply wp_enqueue_dependent; [done|]|].
    + eapply has_job_evo; [exact E1|]. by apply dependents_have_job in Hc.
    + intros a s2 [Hs2 E2]. split; [done|]. exact (evo_trans _ _ _ _ _ E1 E2).
  - split; [done|apply evo_refl].
  - done.
Qed.
Hint Resolve good_enqueueDependentRuns : good.

(** ** The transactions of the run store *)

Lemma holds_lease_running r row : holds_lease r row = true → r_status row = Running.
Proof. unfold holds_lease, run_has. intros. by bool_to_prop. Qed.

Lemma good_CompleteRun `{ScheduleCalc} r success status body msg :
  good [] (CompleteRun r success status body msg).
Proof.
  unfold CompleteRun. goods. apply good_update_runs. intros row Hp _.
  apply holds_lease_running in Hp. apply close_run_step; rewrite ?Hp; by destruct success.
Qed.

(** The [Run] a caller holds describes this row. *)
Definition describes (r : Run) (row : run_row) : Prop :=
  ID r = r_id row ∧ TenantID r = r_tenant_id row ∧ JobID r = r_job_id row ∧
  BroadcastGroupID r = coalesce (r_broadcast_group_id row) "" ∧
  RescheduleOnTerminal r = r_reschedule row ∧ Attempt r = r_attempt row.

Lemma scanRun_describes row : describes (scanRun row) row.
Proof. done. Qed.

Lemma describes_info r a b : r_info a = r_info b → describes r a → describes r b.
Proof.
  unfold describes, r_id, r_tenant_id, r_job_id, r_broadcast_group_id, r_reschedule, r_attempt.
  by intros ->.
Qed.

(** The group of a described run is one its job already has. *)
Lemma describes_joins s r row :
  Inv s → row ∈ job_runs s → describes r row →
  joins s (JobID r) (nullif_empty (BroadcastGroupID r)).
Proof.
  intros Hs Hrow (_ & _ & Hjob & Hg & _). unfold nullif_empty. rewrite Hg.
  destruct (r_broadcast_group_id row) as [g|] eqn:E; cbn; [|done].
  destruct (g ==s ""); [done|]. split.
  - destruct (inv_drawn s Hs row Hrow) as (_ & _ & Hd). by apply Hd.
  - intros b Hb Eb. rewrite Hjob. by apply (inv_group s Hs b row g).
Qed.

Lemma describes_owned s r row :
  Inv s → row ∈ job_runs s → describes r row → has_job s (JobID r) (TenantID r).
Proof.
  intros Hs Hrow (_ & Ht & Hjob & _). rewrite Ht, Hjob. by apply (inv_owned s Hs).
Qed.

Lemma wp_insertRetryRunTx previous delay row e s :
  Inv s → row ∈ job_runs s → describes previous row →
  wp (insertRetryRunTx previous delay) (λ _ s', Inv s' ∧ evo [] s s') e s.
Proof.
  intros Hs Hrow Hd. unfold insertRetryRunTx. apply wp_bind, wp_new_uuid; [done|].
  intros x s1 Hs1 E1 Hx Ex Es1. apply wp_bind. cbn.
  set (s2 := set_clock_reads _ s1). cbv zeta. set (next := retry_of _ _ _).
  assert (Hs2 : Inv s2 ∧ evo [] s1 s2) by (by apply same_core_good).
  destruct Hs2 as [Hs2 E2].
  assert (Hrow2 : row ∈ job_runs s2) by (subst s1; exact Hrow).
  apply wp_bind. apply wp_insert_run; try done.
  { exact (describes_owned _ _ _ Hs2 Hrow2 Hd). }
  { exact (describes_joins _ _ _ Hs2 Hrow2 Hd). }
  intros s3 Hs3 E3 _. apply wp_bind, wp_emit; [done|]. intros s4 Hs4 E4 _.
  split; [done|]. apply (evo_drop [] (uuids_drawn s)).
  - pose proof (evo_drawn _ _ _ E3). pose proof (evo_drawn _ _ _ E4). subst s1. cbn in *. lia.
  - subst x. exact (evo_app_nil _ _ _ (evo_trans _ _ _ _ _ E1 (evo_trans _ _ _ _ _ E2
      (evo_trans _ _ _ _ _ E3 E4)))).
Qed.

(** A worker holds the run it was given: its [Run] describes the row that
    carries its lease token. *)
Definition claim_ok (s : db) (r : Run) : Prop :=
  ∀ row, row ∈ job_runs s → holds_lease r row = true → describes r row.

Lemma elem_of_updated p f (l : list run_row) (row : run_row) :
  row ∈ map f (sql_select p l) ↔ ∃ r, r ∈ l ∧ p r = true ∧ row = f r.
Proof.
  rewrite list_elem_of_In, in_map_iff. split.
  - intros (r & <- & Hr%list_elem_of_In). apply elem_of_sql_select in Hr as [? ?]. eauto.
  - intros (r & ? & ? & ->). exists r. split; [done|].
    apply list_elem_of_In, elem_of_sql_select. done.
Qed.

Lemma elem_of_update_updated p f (l : list run_row) row : row ∈ map f (sql_select p l) → row ∈ sql_update p f l.
Proof.
  intros (r & Hr & Hp & ->)%elem_of_updated. apply elem_of_sql_update.
  exists r. by rewrite Hp.
Qed.

(** [UPDATE .. RETURNING]: the returned rows are in the new table. *)
Lemma wp_update_runs p f (Q : list run_row → db → Prop) e s :
  Inv s →
  (∀ r, r ∈ job_runs s → p r = true →
     row_step r (f r) ∧ run_wf (f r) ∧ (r_lease_token (f r) = None ∨
                                       r_lease_token (f r) = r_lease_token r)) →
  (∀ s', Inv s' → evo [] s s' → jobs s' = jobs s → job_runs s' = sql_update p f (job_runs s) →
     Q (map f (sql_select p (job_runs s))) s') →
  wp (update_runs p f) Q e s.
Proof.
  intros Hs Hf HQ. unfold update_runs. apply wp_bind, wp_get, wp_bind, wp_modify, wp_ret.
  destruct (update_state [] p f s Hs) as [HI HE].
  - intros r Hr Hp. destruct (Hf r Hr Hp) as (? & ? & Ht). split_and!; [done|done|].
    intros x Hx. destruct (inv_drawn s Hs r Hr) as (_ & Hd & _).
    destruct Ht as [Ht|Ht]; [congruence|]. split; [apply Hd|left]; congruence.
  - by apply HQ.
Qed.

Lemma wp_FailRun `{ScheduleCalc} r state status msg delay e s :
  Inv s → claim_ok s r →
  wp (FailRun r state status msg delay) (λ _ s', Inv s' ∧ evo [] s s') e s.
Proof.
  intros Hs Hc. unfold FailRun.
  assert (Hst : match failure_state state with
                | Some st => terminal st = true ∧ st ≠ Skipped ∧ may_become Running st = true
                | None => True end)
    by (unfold failure_state; destruct (_ ==s _); [done|by destruct (_ ==s _)]).
  destruct (failure_state state) as [st|]; [|done]. destruct Hst as (Ht & Hns & Hm).
  apply wp_bind, wp_lift. intros _ _. apply wp_bind, wp_now, wp_bind.
  apply wp_update_runs; [done| |].
  { intros row _ Hp. apply holds_lease_running in Hp. apply close_run_step; by rewrite ?Hp. }
  intros s1 Hs1 E1 _ R1. destruct (map _ _) as [|row' rows] eqn:Eu; [done|].
  assert (Hrow : ∃ row, row ∈ job_runs s1 ∧ describes r row).
  { assert (Hin : row' ∈ row' :: rows) by left. rewrite <- Eu in Hin.
    exists row'. split; [rewrite R1; by apply elem_of_update_updated|].
    apply elem_of_updated in Hin as (row & Hrow & Hp & ->).
    eapply describes_info; [|by apply Hc]. done. }
  destruct Hrow as (row & Hrow & Hd). apply wp_bind, wp_emit; [done|]. intros s2 Hs2 E2 R2.
  assert (E02 : evo [] s s2) by exact (evo_trans _ _ _ _ _ E1 E2).
  assert (Hgoal : good [] (_ ← emitRunEventTx (ID r) st "exhausted";
                           _ ← rearmFixedDelay r (tx_now e); mret (@None Run))) by goods.
  destruct delay as [d|].
  - apply wp_bind. eapply wp_mono; [apply (wp_insertRetryRunTx r d row); [done|by rewrite R2|done]|].
    intros next s3 [Hs3 E3]. split; [done|]. exact (evo_trans _ _ _ _ _ E02 E3).
  - eapply wp_mono; [by apply Hgoal|]. intros o s3 [Hs3 E3]. split; [done|].
    exact (evo_trans _ _ _ _ _ E02 E3).
Qed.

Lemma good_update_one p f :
  (∀ r, p r = true → run_wf r →
     row_step r (f r) ∧ run_wf (f r) ∧
     (r_lease_token (f r) = None ∨ r_lease_token (f r) = r_lease_token r)) →
  good [] (update_one p f).
Proof. intros Hf. unfold update_one. goods. by apply good_update_runs. Qed.

Lemma await_callback_step ex resp h d r :
  r_status r = Running → run_wf r →
  let r' := await_callback ex resp h d r in
  row_step r r' ∧ run_wf r' ∧ (r_lease_token r' = None ∨ r_lease_token r' = r_lease_token r).
Proof.
  intros E Hwf. unfold row_step, run_wf in *. rewrite E in *. cbn.
  destruct Hwf as (_ & _ & _ & _ & ? & ?). split_and!; auto.
Qed.

Lemma good_MarkClaimedWaitingCallback r status h d :
  good [] (MarkClaimedWaitingCallback r status h d).
Proof.
  unfold MarkClaimedWaitingCallback. goods. apply good_update_one.
  intros row Hp%holds_lease_running Hwf. by apply await_callback_step.
Qed.

Lemma good_PrepareClaimedExecutorDispatch r node addr h d :
  good [] (PrepareClaimedExecutorDispatch r node addr h d).
Proof.
  unfold PrepareClaimedExecutorDispatch. goods. apply good_update_one.
  intros row Hp%holds_lease_running Hwf. by apply await_callback_step.
Qed.

(** An update of other columns of a running row. *)
Lemma good_AssignClaimedRunExecutor r node addr : good [] (AssignClaimedRunExecutor r node addr).
Proof.
  unfold AssignClaimedRunExecutor. goods. apply good_update_one.
  intros row Hp%holds_lease_running Hwf. unfold row_step, run_wf in *. cbn. rewrite Hp in *.
  split_and!; try done; try apply Hwf. by right.
Qed.

Lemma good_ActivateClaimedRunToken r h d : good [] (ActivateClaimedRunToken r h d).
Proof.
  unfold ActivateClaimedRunToken. goods. apply good_update_one.
  intros row Hp%holds_lease_running Hwf. unfold row_step, run_wf in *. cbn. rewrite Hp in *.
  split_and!; try done; try apply Hwf. by right.
Qed.

(** ** Callbacks and cancellation *)

Lemma close_waiting_step st t msg consumed r :
  r_status r = WaitingCallback → run_wf r → may_become WaitingCallback st = true →
  let r' := close_waiting st t msg consumed r in
  row_step r r' ∧ run_wf r' ∧ (r_lease_token r' = None ∨ r_lease_token r' = r_lease_token r).
Proof.
  intros E [Hl _] Hm. unfold row_step, run_wf. cbn. rewrite E in *.
  specialize (Hl ltac:(done)). split_and!; [done|done|done| |by right]. by destruct st.
Qed.

Lemma callback_open_waiting runID h t row :
  callback_open runID h t row = true → r_status row = WaitingCallback.
Proof. unfold callback_open, run_has. intros. by bool_to_prop. Qed.

(** What follows the update of a described run. *)
Lemma wp_retry_good {A} previous delay row (f : Run → tx A) e s0 s :
  evo [] s0 s → Inv s → row ∈ job_runs s → describes previous row → (∀ x, good [] (f x)) →
  wp (next ← insertRetryRunTx previous delay; f next) (λ _ s', Inv s' ∧ evo [] s0 s') e s.
Proof.
  intros E0 Hs Hrow Hd Hf. apply wp_bind.
  eapply wp_mono; [by apply (wp_insertRetryRunTx previous delay row)|].
  intros next s1 [Hs1 E1]. eapply wp_mono; [by apply Hf|]. intros a s2 [Hs2 E2].
  split; [done|]. exact (evo_trans _ _ _ _ _ E0 (evo_trans _ _ _ _ _ E1 E2)).
Qed.

Lemma wp_good_from {A} (m : tx A) e s0 s :
  evo [] s0 s → Inv s → good [] m → wp m (λ _ s', Inv s' ∧ evo [] s0 s') e s.
Proof.
  intros E0 Hs Hm. eapply wp_mono; [by apply Hm|]. intros a s1 [Hs1 E1].
  split; [done|]. exact (evo_trans _ _ _ _ _ E0 E1).
Qed.

Lemma good_CompleteCallback `{ScheduleCalc} runID h succeeded msg :
  good [] (CompleteCallback runID h succeeded msg).
Proof.
  intros e s Hs. unfold CompleteCallback. apply wp_bind, wp_now, wp_bind, wp_get. cbv zeta.
  apply wp_bind, wp_update_runs; [done| |].
  { intros row Hrow Hp%callback_open_waiting.
    apply close_waiting_step; [done|by apply (inv_wf s Hs)|by destruct succeeded]. }
  intros s1 Hs1 E1 _ R1. destruct (map _ _) as [|row rows] eqn:Eu; [done|].
  assert (Hrow : row ∈ job_runs s1)
    by (rewrite R1; apply elem_of_update_updated; rewrite Eu; left).
  destruct (job_of_run row s) as [j|]; [|done].
  apply wp_bind, wp_emit; [done|]. intros s2 Hs2 E2 R2.
  assert (E02 : evo [] s s2) by exact (evo_trans _ _ _ _ _ E1 E2).
  destruct succeeded; cbn [negb andb].
  - cbn. apply (wp_good_from _ _ _ _ E02 Hs2). goods.
  - destruct (_ <=? _); cbn [negb andb].
    + apply wp_bind, wp_ret. apply wp_bind.
      eapply wp_mono; [apply (wp_retry_good _ _ row _ _ s s2); try done|].
      * by rewrite R2.
      * intros x. auto with good.
      * intros a s3 [Hs3 E3]. done.
    + apply (wp_good_from _ _ _ _ E02 Hs2). goods.
Qed.

Lemma wp_expire_callback `{ScheduleCalc} run maxRetries e s :
  Inv s → (∃ row, row ∈ job_runs s ∧ describes run row) →
  wp (expire_callback (run, maxRetries)) (λ _ s', Inv s' ∧ evo [] s s') e s.
Proof.
  intros Hs (row & Hrow & Hd). unfold expire_callback. apply wp_bind, wp_now, wp_bind.
  apply wp_update_runs; [done| |].
  { intros r Hr Hp. unfold run_has in Hp. bool_to_prop.
    apply close_waiting_step; [done|by apply (inv_wf s Hs)|done]. }
  intros s1 Hs1 E1 _ R1. destruct (map _ _) as [|row' rows]; [done|].
  apply wp_bind, wp_emit; [done|]. intros s2 Hs2 E2 R2.
  assert (E02 : evo [] s s2) by exact (evo_trans _ _ _ _ _ E1 E2).
  destruct (evo_rows _ _ _ E02 row Hrow) as (row2 & Hrow2 & Ev).
  destruct (_ <=? _).
  - apply (wp_retry_good _ _ row2); try done; [|intros; auto with good].
    eapply describes_info; [by apply row_evolves_info|done].
  - apply (wp_good_from _ _ _ _ E02 Hs2). goods.
Qed.

Lemma good_ExpireCallbacks `{ScheduleCalc} : good [] ExpireCallbacks.
Proof.
  intros e s Hs. unfold ExpireCallbacks.
  apply wp_bind, wp_now, wp_bind, wp_locked, wp_bind, wp_get.
  eapply wp_mono; [apply (wp_for_each _ _ (λ s', Inv s' ∧ evo [] s s'))|done];
    [|split; [done|apply evo_refl]].
  intros [run maxRetries] s1 Hin [Hs1 E1].
  assert (Hrow : ∃ row, row ∈ job_runs s ∧ describes run row).
  { unfold expired_callbacks in Hin. apply elem_of_take in Hin as (i & Hin & _).
    apply list_elem_of_lookup_2, list_elem_of_In, in_flat_map in Hin as (row & Hrow & Hin).
    apply list_elem_of_In, elem_of_sql_select in Hrow as [_ Hrow].
    destruct (job_of_run row s); [|done]. destruct Hin as [[= <- _]|[]].
    exists row. by split. }
  destruct Hrow as (row & Hrow & Hd). destruct (evo_rows _ _ _ E1 row Hrow) as (row1 & ? & Ev).
  eapply wp_mono; [apply wp_expire_callback; [done|]|].
  - exists row1. split; [done|]. eapply describes_info; [by apply row_evolves_info|done].
  - intros a s2 [Hs2 E2]. split; [done|]. exact (evo_trans _ _ _ _ _ E1 E2).
Qed.

Lemma good_CancelRun `{ScheduleCalc} tenantID runID reason :
  good [] (CancelRun tenantID runID reason).
Proof.
  unfold CancelRun. goods. apply good_update_runs. intros r Hp _.
  unfold cancellable, r_active in Hp. bool_to_prop.
  apply close_run_step; [by apply active_may_cancel|done|done].
Qed.

(** ** Triggers *)

Lemma good_for_shards_then {A} (first : bool) x jobID tenantID info shards (f : string → tx A) :
  (∀ g, shard_info_ok (info g) tenantID jobID g) → (∀ g, good [] (f g)) →
  good_for x jobID tenantID
    (g ← new_uuid; _ ← insert_shards (if first then Some x else None) 0 (info g) shards; f g).
Proof.
  intros Hinfo Hf e s Hs Hx Hj.
  pose proof (good_for_shards first x jobID tenantID info shards Hinfo e s Hs Hx Hj) as Hw.
  unfold wp, mbind, tx_bind in *. destruct (new_uuid e s) as [[g s1]|]; [|done].
  destruct (insert_shards _ _ _ _ e s1) as [[[] s2]|]; [|done]. destruct Hw as [Hs2 E2].
  pose proof (Hf g e s2 Hs2) as Hw. unfold wp in Hw. destruct (f g e s2) as [[b s3]|]; [|done].
  destruct Hw as [Hs3 E3]. split; [done|]. exact (evo_app_nil _ _ _ (evo_trans _ _ _ _ _ E2 E3)).
Qed.

Lemma good_for_insert_then {A} r st x jobID tenantID (f : tx A) :
  r_id r = x → r_job_id r = jobID → r_tenant_id r = tenantID → run_wf r →
  r_lease_token r = None → r_broadcast_group_id r = None → good [] f →
  good_for x jobID tenantID (_ ← insert_run r; _ ← emitRunLifecycleEventTx x st; f).
Proof.
  intros Hid Hjob Ht Hwf Htok Hg Hf e s Hs Hx Hj.
  pose proof (good_for_insert r st x jobID tenantID Hid Hjob Ht Hwf Htok Hg e s Hs Hx Hj) as Hw.
  unfold wp, mbind, tx_bind in *. destruct (insert_run r e s) as [[[] s1]|]; [|done].
  destruct (emitRunLifecycleEventTx x st e s1) as [[[] s2]|]; [|done]. destruct Hw as [Hs2 E2].
  pose proof (Hf e s2 Hs2) as Hw. unfold wp in Hw. destruct (f e s2) as [[b s3]|]; [|done].
  destruct Hw as [Hs3 E3]. split; [done|]. exact (evo_app_nil _ _ _ (evo_trans _ _ _ _ _ E2 E3)).
Qed.

Lemma good_for_insert_manual `{Digest} tenantID jobID key input id sched over groupID strategy
    action pending maxQueue :
  good_for id jobID tenantID
    (insert_manual tenantID jobID key input id sched over groupID strategy action pending maxQueue).
Proof.
  unfold insert_manual. apply good_for_bind; [goods|intros t]. cbv zeta.
  set (st := if bool_decide (action = blockSkip) then Skipped else Pending).
  assert (Hst : st = Pending ∨ st = Skipped) by (unfold st; destruct (bool_decide _); auto).
  destruct (_ && _).
  - apply good_for_bind; [destruct over; goods|intros nodes].
    destruct (planBroadcastShards nodes) as [|shard0 shards]; [apply good_for_good; goods|].
    destruct (_ && _); [apply good_for_good; goods|].
    apply (good_for_shards_then true id jobID tenantID (λ g runID index shard,
             manual_info tenantID jobID sched t input
               (match index with O => nullif_empty key | S _ => None end)
               over (Some g) runID (Some shard))); [done|intros; auto with good].
  - apply good_for_insert_then; try done; [by apply new_run_wf|auto with good].
Qed.

Lemma good_for_trigger_fresh `{ScheduleCalc} `{Digest} tenantID jobID key input id sched over job
    strategy pending :
  good_for id jobID tenantID
    (trigger_fresh tenantID jobID key input id sched over job strategy pending).
Proof.
  unfold trigger_fresh. cbv zeta. apply good_for_bind.
  { destruct over; [auto with good|]. unfold liveExecutorNodesTx. goods. }
  intros _. apply good_for_bind; [goods|intros action].
  destruct (_ && _); [apply good_for_good; goods|]. apply good_for_insert_manual.
Qed.

Lemma good_reserve_key tenantID jobID key id sched : good [] (reserve_key tenantID jobID key id sched).
Proof. unfold reserve_key. goods. by apply good_modify. Qed.
Hint Resolve good_reserve_key : good.

Lemma good_TriggerJobWithOptions `{ScheduleCalc} `{Digest} tenantID jobID key input over :
  good [] (TriggerJobWithOptions tenantID jobID key input over).
Proof.
  intros e s Hs. unfold TriggerJobWithOptions.
  destruct (sql_select (λ j, (j_id j ==s jobID) && (j_tenant_id j ==s tenantID)) (jobs s))
    as [|job rest] eqn:Ej.
  { unfold sql_select in Ej. unfold wp, mbind, tx_bind; cbn. by rewrite Ej. }
  assert (Hj : has_job s jobID tenantID).
  { assert (Hin : job ∈ job :: rest) by left. rewrite <- Ej in Hin.
    apply elem_of_sql_select in Hin as [Hp Hin]. bool_to_prop. exists job. auto. }
  apply (wp_with_uuid _ jobID tenantID); [done|done|]. intros id.
  apply good_for_bind; [goods|intros sched]. apply good_for_bind; [goods|intros s'].
  destruct (sql_select _ (jobs s')) as [|job' rest']; [apply good_for_good; goods|].
  cbv zeta. destruct (_ && _); [apply good_for_good; goods|].
  apply good_for_bind; [goods|intros reserved].
  destruct (negb reserved); [apply good_for_good; goods|]. apply good_for_trigger_fresh.
Qed.

(** ** Enqueueing due jobs *)

Lemma evo_drop_all X s s' :
  (∀ x, x ∈ X → ∃ n, (uuids_drawn s ≤ n < uuids_drawn s')%nat ∧ x = uuid n) →
  evo X s s' → evo [] s s'.
Proof.
  intros HX [R I T D J P]. constructor; try done.
  - intros r' Hr'. destruct (I r' Hr') as [?|[Hx|?]]; auto.
  - intros r' x Hr' Ht. destruct (T r' x Hr' Ht) as [?|[Hx|?]]; auto.
Qed.

Lemma wp_enqueue_one `{ScheduleCalc} j sched wall st next e s :
  Inv s → has_job s (j_id j) (j_tenant_id j) → st = Pending ∨ st = Skipped →
  wp (enqueue_one j sched wall st next) (λ _ s', Inv s' ∧ evo [] s s') e s.
Proof.
  intros Hs Hj Hst. unfold enqueue_one. eapply wp_with_uuid; [done|exact Hj|]. intros x.
  apply good_for_bind; [goods|intros t].
  apply good_for_insert_then; try done; [by apply new_run_wf|goods].
Qed.

(** Shards of a fresh group, none of them a run the caller knows. *)
Lemma wp_fresh_shards {A} shards jobID tenantID info (f : string → tx A) e s :
  (∀ g, shard_info_ok (info g) tenantID jobID g) → Inv s → has_job s jobID tenantID →
  (∀ g, good [] (f g)) →
  wp (g ← new_uuid; _ ← insert_shards None 0 (info g) shards; f g)
     (λ _ s', Inv s' ∧ evo [] s s') e s.
Proof.
  intros Hinfo Hs Hj Hf. apply wp_bind, wp_new_uuid; [done|].
  intros g s1 Hs1 E1 Hg Eg Es1. apply wp_bind.
  eapply wp_mono; [apply (wp_insert_shards None _ _ _ tenantID jobID g)|]; try done.
  - subst g s1. by apply fresh_group_joins.
  - by eapply has_job_evo.
  - intros [] s2 [Hs2 E2]. cbn in E2. eapply (wp_good_from _ _ s s2); [|done|apply Hf].
    exact (evo_trans _ _ _ _ _ E1 E2).
Qed.

Lemma wp_enqueue_slow `{ScheduleCalc} j strategy wall sched next e s :
  Inv s → has_job s (j_id j) (j_tenant_id j) →
  wp (enqueue_slow j strategy wall sched next) (λ _ s', Inv s' ∧ evo [] s s') e s.
Proof.
  intros Hs Hj. unfold enqueue_slow. apply wp_bind, wp_get, wp_bind, wp_now. cbv zeta.
  apply wp_bind. eapply (wp_good [] []); [apply good_applyBlockAction|done|apply evo_refl|].
  intros action s1 Hs1 E1 _.
  assert (Hj1 : has_job s1 (j_id j) (j_tenant_id j)) by (by eapply has_job_evo).
  assert (Hone : ∀ st, st = Pending ∨ st = Skipped → ∀ s2, Inv s2 → evo [] s s2 →
            wp (enqueue_one j sched wall st next) (λ _ s', Inv s' ∧ evo [] s s') e s2).
  { intros st Hst s2 Hs2 E2. eapply wp_mono;
      [apply wp_enqueue_one; [done|by eapply has_job_evo|done]|].
    intros a s3 [Hs3 E3]. split; [done|]. exact (evo_trans _ _ _ _ _ E2 E3). }
  destruct (_ || _); [apply Hone; auto|].
  destruct (_ ==s _); [|apply Hone; auto].
  apply wp_bind. eapply (wp_good [] []); [apply good_broadcast_nodes|done|exact E1|].
  intros nodes s2 Hs2 E2 _. destruct (Nat.eqb _ _); [done|].
  destruct (_ && _); [apply Hone; auto|].
  eapply wp_mono; [apply (wp_fresh_shards _ (j_id j) (j_tenant_id j) (λ g id _ shard,
    schedule_info j sched (tx_now e) (Some g) id (Some shard))); try done|].
  - by eapply has_job_evo.
  - intros g. auto with good.
  - intros a s3 [Hs3 E3]. split; [done|]. exact (evo_trans _ _ _ _ _ E2 E3).
Qed.

(** The rows waiting in the batch: fresh, pending, of jobs that exist. *)
Fixpoint queued_rows (items : list batch_item) : list run_row :=
  match items with
  | [] => []
  | QueueInsert r :: rest => r :: queued_rows rest
  | _ :: rest => queued_rows rest
  end.

Lemma queued_rows_app a b : queued_rows (a ++ b) = queued_rows a ++ queued_rows b.
Proof. induction a as [|[] a IH]; cbn; congruence. Qed.

Record queue_ok (s0 s : db) (items : list batch_item) : Prop := {
  queue_nodup : NoDup (map r_id (queued_rows items));
  queue_rows : ∀ r, r ∈ queued_rows items → unused (r_id r) s ∧ run_wf r ∧
    r_lease_token r = None ∧ owned s r ∧ r_broadcast_group_id r = None;
  queue_new : ∀ r, r ∈ queued_rows items →
    ∃ n, (uuids_drawn s0 ≤ n < uuids_drawn s)%nat ∧ r_id r = uuid n;
}.

Lemma queue_ok_nil s0 s : queue_ok s0 s [].
Proof. constructor; [constructor|intros r ?%elem_of_nil; done..]. Qed.

Lemma queue_ok_evo s0 s s' items : evo [] s s' → queue_ok s0 s items → queue_ok s0 s' items.
Proof.
  intros E [H1 H2 H3]. constructor; [done| |].
  - intros r Hr. destruct (H2 r Hr) as (? & ? & ? & ? & ?). split_and!; try done.
    + eapply unused_evo; [exact E|apply not_elem_of_nil|done].
    + by eapply owned_evo.
  - intros r Hr. destruct (H3 r Hr) as (n & Hn & En). exists n. split; [|done].
    pose proof (evo_drawn _ _ _ E). lia.
Qed.

Lemma queue_ok_app s0 s1 s2 a b :
  evo [] s0 s1 → evo [] s1 s2 → queue_ok s0 s1 a → queue_ok s1 s2 b → queue_ok s0 s2 (a ++ b).
Proof.
  intros E01 E12 Ha [H1 H2 H3].
  destruct (queue_ok_evo _ _ _ _ E12 Ha) as [G1 G2 G3]. destruct Ha as [_ _ Hnew].
  constructor; rewrite queued_rows_app.
  - rewrite map_app. apply NoDup_app. split_and!; [done| |done].
    intros x Hx Hy. apply list_elem_of_In, in_map_iff in Hx as (r & <- & Hr).
    apply list_elem_of_In, in_map_iff in Hy as (r' & E & Hr').
    apply list_elem_of_In in Hr, Hr'. destruct (Hnew r Hr) as (n & Hn & En).
    destruct (H3 r' Hr') as (k & Hk & Ek). rewrite E, En in Ek. apply uuid_inj in Ek. lia.
  - intros r [?|?]%elem_of_app; auto.
  - intros r [?|Hr]%elem_of_app; [auto|]. destruct (H3 r Hr) as (n & Hn & En).
    exists n. split; [|done]. pose proof (evo_drawn _ _ _ E01). lia.
Qed.

Definition queues {A} (items : A → list batch_item) (s0 : db) (a : A) (s : db) : Prop :=
  Inv s ∧ evo [] s0 s ∧ queue_ok s0 s (items a).

Lemma wp_enqueue_fast j sched e s :
  Inv s → has_job s (j_id j) (j_tenant_id j) → wp (enqueue_fast j sched) (queues id s) e s.
Proof.
  intros Hs Hj. unfold enqueue_fast. apply wp_bind, wp_new_uuid; [done|].
  intros x s1 Hs1 E1 Hx Ex Es1. apply wp_bind, wp_new_uuid; [done|].
  intros y s2 Hs2 E2 _ _ Es2. apply wp_bind, wp_now, wp_ret.
  assert (E02 : evo [] s s2) by exact (evo_trans _ _ _ _ _ E1 E2).
  split_and!; [done|done|]. set (r := new_run _ _ _ _ _ _).
  constructor; cbn; [apply NoDup_singleton|intros ? ->%list_elem_of_singleton..].
  - split_and!; try done.
    + eapply unused_evo; [exact E2|apply not_elem_of_nil|done].
    + by eapply has_job_evo in Hj.
  - exists (uuids_drawn s). subst. split; [cbn; lia|done].
Qed.

Lemma wp_queues_after {A B} (items : A → list batch_item) (items' : B → list batch_item)
    (m : tx B) s0 s1 e a :
  queues items s0 a s1 → wp m (queues items' s1) e s1 →
  wp m (λ b s', Inv s' ∧ evo [] s0 s' ∧ queue_ok s0 s' (items a ++ items' b)) e s1.
Proof.
  intros (Hs1 & E1 & Q1) Hm. eapply wp_mono; [exact Hm|]. intros b s2 (Hs2 & E2 & Q2).
  split_and!; [done|exact (evo_trans _ _ _ _ _ E1 E2)|by eapply queue_ok_app].
Qed.

Lemma wp_enqueue_occurrences `{ScheduleCalc} j strategy fast wall due next e s :
  Inv s → has_job s (j_id j) (j_tenant_id j) →
  wp (enqueue_occurrences j strategy fast wall due next) (queues snd s) e s.
Proof.
  revert next s. induction due as [|t due IH]; intros next s Hs Hj; cbn [enqueue_occurrences].
  { apply wp_ret. split_and!; [done|apply evo_refl|apply queue_ok_nil]. }
  apply wp_bind. eapply (wp_mono _ (queues snd s)).
  { destruct fast; apply wp_bind.
    - eapply wp_mono; [by apply wp_enqueue_fast|]. intros items s1 G1. apply wp_ret. exact G1.
    - eapply wp_mono; [by apply wp_enqueue_slow|]. intros n s1 [Hs1 E1]. apply wp_ret.
      split_and!; [done|done|apply queue_ok_nil]. }
  intros [n items] s1 G1. apply wp_bind.
  assert (Hj1 : has_job s1 (j_id j) (j_tenant_id j)) by (eapply has_job_evo; [apply G1|done]).
  eapply wp_mono; [apply (wp_queues_after snd snd _ s s1 e (n, items)); [done|]|].
  - apply IH; [apply G1|done].
  - intros [n2 later] s2 G2. apply wp_ret. exact G2.
Qed.

Lemma good_update_next jobID next : good [] (update_next jobID next).
Proof.
  unfold update_next. goods. apply good_modify. intros s. split_and!; [done| |done|done].
  by apply sql_update_key.
Qed.
Hint Resolve good_update_next : good.

Lemma wp_enqueue_job `{ScheduleCalc} strategies j e s :
  Inv s → has_job s (j_id j) (j_tenant_id j) →
  wp (enqueue_job strategies j) (queues id s) e s.
Proof.
  intros Hs Hj. unfold enqueue_job.
  destruct (j_next_run_at j) as [firstDue|];
    [|apply wp_ret; split_and!; [done|apply evo_refl|apply queue_ok_nil]].
  apply wp_bind. eapply (wp_good [] []); [apply good_time_now|done|apply evo_refl|].
  intros wall s1 Hs1 E1 _. apply wp_bind, wp_lift. intros [due next] _. cbv zeta.
  set (fast := _ && _). apply wp_bind.
  eapply wp_mono; [apply wp_enqueue_occurrences; [done|by eapply has_job_evo]|].
  intros [n items] s2 (Hs2 & E2 & Q2). cbn in Q2.
  assert (E02 : evo [] s s2) by exact (evo_trans _ _ _ _ _ E1 E2).
  assert (Q02 : queue_ok s s2 items) by exact (queue_ok_app _ _ _ [] _ E1 E2 (queue_ok_nil _ _) Q2).
  destruct fast.
  - apply wp_ret. split_and!; [done|done|]. unfold id.
    apply (queue_ok_app s s2 s2); [done|apply evo_refl|done|].
    constructor; [constructor|intros r ?%elem_of_nil; done..].
  - apply wp_bind. eapply (wp_good [] []); [apply good_update_next|done|exact E02|].
    intros a s3 Hs3 E3 E23. apply wp_ret. split_and!; [done|done|]. by eapply queue_ok_evo.
Qed.

Lemma wp_enqueue_jobs `{ScheduleCalc} strategies js e s :
  Inv s → (∀ j, j ∈ js → has_job s (j_id j) (j_tenant_id j)) →
  wp (enqueue_jobs strategies js) (queues id s) e s.
Proof.
  revert s. induction js as [|j js IH]; intros s Hs Hj; cbn [enqueue_jobs].
  { apply wp_ret. split_and!; [done|apply evo_refl|apply queue_ok_nil]. }
  apply wp_bind. eapply wp_mono; [apply wp_enqueue_job; [done|apply Hj; left]|].
  intros items s1 G1. apply wp_bind.
  eapply wp_mono; [apply (wp_queues_after id id _ s s1 e items); [done|]|].
  - apply IH; [apply G1|]. intros j' Hj'. eapply has_job_evo; [apply G1|]. apply Hj. by right.
  - intros later s2 G2. apply wp_ret. exact G2.
Qed.

(** The batch inserts the rows that wait in it. *)
Lemma wp_batch s0 items e s :
  Inv s → queue_ok s0 s items →
  wp (for_each items run_item) (λ _ s', Inv s' ∧ evo (map r_id (queued_rows items)) s s') e s.
Proof.
  revert s. induction items as [|item items IH]; intros s Hs Hq; cbn [for_each].
  { split; [done|apply evo_refl]. }
  assert (Hskip : good [] (run_item item) → queued_rows (item :: items) = queued_rows items →
    wp (_ ← run_item item; for_each items run_item)
       (λ _ s', Inv s' ∧ evo (map r_id (queued_rows (item :: items))) s s') e s).
  { intros Hg Er. rewrite Er. apply wp_bind.
    eapply (wp_good [] []); [exact Hg|done|apply evo_refl|]. intros [] s1 Hs1 E1 _.
    eapply wp_mono; [apply IH; [done|]|].
    - eapply queue_ok_evo; [exact E1|]. destruct Hq as [Q1 Q2 Q3]. rewrite Er in *. done.
    - intros a s2 [Hs2 E2]. split; [done|]. exact (evo_trans _ _ _ _ _ E1 E2). }
  destruct item as [r|runID id|jobID next].
  - destruct Hq as [Q1 Q2 Q3]. cbn in *. apply NoDup_cons in Q1 as [Qn Q1].
    destruct (Q2 r) as (Hu & Hwf & Ht & Ho & Hg); [by left|].
    apply wp_bind, wp_insert_run; try done; [by rewrite Hg|].
    intros s1 Hs1 E1 _. eapply wp_mono; [apply IH; [done|]|].
    + constructor; [done| |].
      * intros b Hb. destruct (Q2 b) as (? & ? & ? & ? & ?); [by right|].
        split_and!; try done; [|by eapply owned_evo].
        eapply unused_evo; [exact E1| |done]. intros Eb%list_elem_of_singleton.
        apply Qn. rewrite <- Eb. by apply list_elem_of_In, in_map, list_elem_of_In.
      * intros b Hb. destruct (Q3 b) as (n & Hn & En); [by right|]. exists n.
        split; [|done]. pose proof (evo_drawn _ _ _ E1). lia.
    + intros a s2 [Hs2 E2]. split; [done|]. exact (evo_trans _ _ _ _ _ E1 E2).
  - apply Hskip; [|done]. cbn. unfold exec_run_event. goods. by apply good_modify.
  - apply Hskip; [|done]. cbn. auto with good.
Qed.

Lemma elem_of_due_jobs t locks batch s j :
  j ∈ due_jobs t locks batch s → j ∈ jobs s ∧ due_at t j = true.
Proof.
  unfold due_jobs. intros (i & Hj & _)%elem_of_take. apply list_elem_of_lookup_2 in Hj.
  apply list_elem_of_In, filter_In in Hj as [Hj _].
  apply list_elem_of_In, elem_of_sort_by, elem_of_sql_select in Hj as [? ?]. done.
Qed.

Lemma good_EnqueueDue `{ScheduleCalc} `{JobCodec} batch : good [] (EnqueueDue batch).
Proof.
  intros e s Hs. unfold EnqueueDue.
  apply wp_bind, wp_now, wp_bind, wp_locked, wp_bind, wp_get. cbv zeta.
  apply wp_bind, wp_lift. intros _ _. apply wp_bind, wp_lift. intros strategies _.
  apply wp_bind. eapply wp_mono; [apply wp_enqueue_jobs; [done|]|].
  - intros j [Hj _]%elem_of_due_jobs. by exists j.
  - intros items s1 (Hs1 & E1 & Q1). eapply wp_mono; [by apply (wp_batch s)|].
    intros a s2 [Hs2 E2]. split; [done|].
    eapply evo_drop_all; [|exact (evo_trans _ _ _ _ _ E1 E2)].
    intros x Hx. apply list_elem_of_In, in_map_iff in Hx as (r & <- & Hr).
    apply list_elem_of_In in Hr. destruct (queue_new _ _ _ Q1 r Hr) as (n & Hn & En).
    exists n. split; [|done]. pose proof (evo_drawn _ _ _ E2). lia.
Qed.

(** ** Claims *)

Lemma claimable_may_run t r : claimable t r = true → may_become (r_status r) Running = true.
Proof. unfold claimable. by destruct (r_status r). Qed.

Lemma claim_row_ok owner token until t r :
  claimable t r = true → run_wf r →
  row_step r (claim_row owner token until t r) ∧ run_wf (claim_row owner token until t r).
Proof.
  intros Hc Hwf. split; [split; [done|by eapply claimable_may_run]|].
  unfold run_wf in *. cbn. unfold claimable in Hc.
  destruct (r_status r); try done; split_and!; try done; apply Hwf.
Qed.

Lemma good_claim_one `{JobCodec} owner lease c : good [] (claim_one owner lease c).
Proof.
  intros e s Hs. unfold claim_one. apply wp_bind, wp_now, wp_bind, wp_new_uuid; [done|].
  intros token s1 Hs1 E1 Htok Etok Es1. cbv zeta. apply wp_bind.
  unfold update_runs. apply wp_bind, wp_get, wp_bind, wp_modify, wp_ret.
  destruct (update_state [token] (λ x, (r_id x ==s r_id (cd_run c)) && claimable (tx_now e) x)
              (claim_row owner token (lease_end (tx_now e) lease c) (tx_now e)) s1 Hs1)
    as [Hs2 E2].
  { intros r Hr Hp. bool_to_prop.
    destruct (claim_row_ok owner token (lease_end (tx_now e) lease c) (tx_now e) r) as [? ?];
      [done|by apply (inv_wf s1 Hs1)|].
    split_and!; try done. cbn. intros x [= <-]. split; [apply Htok|right; left]. }
  eapply wp_good_from; [|exact Hs2|goods].
  apply (evo_drop [] (uuids_drawn s)); [subst s1; cbn; lia|]. subst token.
  exact (evo_trans _ _ _ _ _ E1 E2).
Qed.

Lemma good_claim_all `{JobCodec} owner lease cs : good [] (claim_all owner lease cs).
Proof.
  induction cs as [|c cs IH]; cbn; [auto with good|].
  apply good_seq; [apply good_claim_one|intros x]. apply good_seq; [done|auto with good].
Qed.

Lemma good_ClaimRuns `{JobCodec} owner limit lease : good [] (ClaimRuns owner limit lease).
Proof. unfold ClaimRuns. goods. apply good_claim_all. Qed.
Lemma holds_lease_true r row :
  holds_lease r row = true ↔
  r_id row = ID r ∧ r_status row = Running ∧ r_lease_token row = Some (LeaseToken r).
Proof.
  unfold holds_lease, run_has. rewrite !andb_true_iff, !bool_decide_eq_true, String.eqb_eq. tauto.
Qed.

(** *** A report that commits leaves its run finished *)

Definition finished (runID : string) (s : db) : Prop :=
  ∃ row, row ∈ job_runs s ∧ r_id row = runID ∧ terminal (r_status row) = true.

(** What follows the update that closed a row does not open it again. *)
Lemma wp_finished {A} (m : tx A) runID row e s :
  row ∈ job_runs s → r_id row = runID → terminal (r_status row) = true →
  wp m (λ _ s', Inv s' ∧ evo [] s s') e s → wp m (λ _ s', finished runID s') e s.
Proof.
  intros Hrow Hid Ht Hm. eapply wp_mono; [exact Hm|]. intros a s' [_ E]. exists row.
  destruct (evo_rows _ _ _ E row Hrow) as (row' & Hrow' & Ev).
  apply row_evolves_terminal in Ev; [|done]. by subst row'.
Qed.

Lemma wp_Ok {A} (m : tx A) (Q : A → db → Prop) e s a s' : wp m Q e s → m e s = Ok (a, s') → Q a s'.
Proof. unfold wp. intros Hw E. by rewrite E in Hw. Qed.

Lemma complete_finishes `{ScheduleCalc} r success status body msg e s s' :
  Inv s → CompleteRun r success status body msg e s = Ok (tt, s') → finished (ID r) s'.
Proof.
  intros Hs. apply (wp_Ok (CompleteRun r success status body msg) (λ _, finished (ID r))).
  unfold CompleteRun. apply wp_bind, wp_lift. intros _ _. cbv zeta. apply wp_bind, wp_now, wp_bind.
  apply wp_update_runs; [done| |].
  { intros row _ Hp. apply holds_lease_running in Hp.
    apply close_run_step; rewrite ?Hp; by destruct success. }
  intros s1 Hs1 E1 _ R1. destruct (map _ _) as [|row rows] eqn:Eu; [done|].
  assert (Hin : row ∈ row :: rows) by left. rewrite <- Eu in Hin.
  assert (Hrow : row ∈ job_runs s1) by (rewrite R1; by apply elem_of_update_updated).
  apply elem_of_updated in Hin as (row0 & _ & (Hid & _)%holds_lease_true & ->).
  apply (wp_finished _ _ _ _ _ Hrow); [done|by destruct success|].
  apply (wp_good_from _ _ _ _ (evo_refl _) Hs1). goods.
Qed.

Lemma fail_finishes `{ScheduleCalc} r state status msg delay e s o s' :
  Inv s → claim_ok s r → FailRun r state status msg delay e s = Ok (o, s') → finished (ID r) s'.
Proof.
  intros Hs Hc. apply (wp_Ok (FailRun r state status msg delay) (λ _, finished (ID r))). unfold FailRun.
  assert (Hst : match failure_state state with
                | Some st => terminal st = true ∧ st ≠ Skipped ∧ may_become Running st = true
                | None => True end)
    by (unfold failure_state; destruct (_ ==s _); [done|by destruct (_ ==s _)]).
  destruct (failure_state state) as [st|]; [|done]. destruct Hst as (Ht & Hns & Hm).
  apply wp_bind, wp_lift. intros _ _. apply wp_bind, wp_now, wp_bind.
  apply wp_update_runs; [done| |].
  { intros row _ Hp. apply holds_lease_running in Hp. apply close_run_step; by rewrite ?Hp. }
  intros s1 Hs1 E1 _ R1. destruct (map _ _) as [|row rows] eqn:Eu; [done|].
  assert (Hin : row ∈ row :: rows) by left. rewrite <- Eu in Hin.
  assert (Hrow : row ∈ job_runs s1) by (rewrite R1; by apply elem_of_update_updated).
  apply elem_of_updated in Hin as (row0 & Hrow0 & Hp & ->).
  assert (Hd : describes r row0) by (by apply Hc). apply holds_lease_true in Hp as (Hid & _).
  apply (wp_finished _ _ _ _ _ Hrow); [done..|].
  apply wp_bind, wp_emit; [done|]. intros s2 Hs2 E2 R2. destruct delay as [d|].
  - eapply (wp_retry_good r d); [exact E2|exact Hs2|rewrite R2; exact Hrow| |intros; auto with good].
    by eapply describes_info; [|exact Hd].
  - apply (wp_good_from _ _ _ _ E2 Hs2). goods.
Qed.

Lemma callback_finishes `{ScheduleCalc} runID h succeeded msg e s s' :
  Inv s → CompleteCallback runID h succeeded msg e s = Ok (tt, s') → finished runID s'.
Proof.
  intros Hs. apply (wp_Ok (CompleteCallback runID h succeeded msg) (λ _, finished runID)).
  unfold CompleteCallback. apply wp_bind, wp_now, wp_bind, wp_get. cbv zeta.
  apply wp_bind, wp_update_runs; [done| |].
  { intros row Hrow Hp%callback_open_waiting.
    apply close_waiting_step; [done|by apply (inv_wf s Hs)|by destruct succeeded]. }
  intros s1 Hs1 E1 _ R1. destruct (map _ _) as [|row rows] eqn:Eu; [done|].
  assert (Hin : row ∈ row :: rows) by left. rewrite <- Eu in Hin.
  assert (Hrow : row ∈ job_runs s1) by (rewrite R1; by apply elem_of_update_updated).
  destruct (job_of_run row s) as [j|]; [|done].
  assert (Hf : r_id row = runID ∧ terminal (r_status row) = true).
  { apply elem_of_updated in Hin as (row0 & _ & Hp & ->). unfold callback_open, run_has in Hp.
    destruct succeeded; by bool_to_prop. }
  apply (wp_finished _ _ _ _ _ Hrow); [apply Hf..|].
  apply wp_bind, wp_emit; [done|]. intros s2 Hs2 E2 R2. destruct succeeded; cbn [negb andb].
  - cbn. apply (wp_good_from _ _ _ _ E2 Hs2). goods.
  - destruct (_ <=? _); cbn [negb andb].
    + apply wp_bind, wp_ret. apply wp_bind.
      eapply wp_mono; [apply (wp_retry_good _ _ row _ _ s1 s2); try done|].
      * by rewrite R2.
      * intros x. auto with good.
      * intros a s3 [Hs3 E3]. done.
    + apply (wp_good_from _ _ _ _ E2 Hs2). goods.
Qed.
End invariant.
End RunInvariants.
