(* ===== verification/Capacity.v ===== *)
(** * What a claim promises

    [ClaimRuns] ranks the runs it could start within their job, tenant and
    cluster and takes those that fit into the free slots.  Ranks are counted
    over all candidates, so the runs it takes never exceed the slots. *)
From Stdlib Require Import ZArith Lia Ascii String Sorted.
From stdpp Require Import base list strings relations.
From S2P Require Import Prelude GoStrings Tables Executors RunStore JobStore Scheduler RunInvariants.

Module Capacity.
Import Executors RunStore JobStore Scheduler RunInvariants.

(** ** Ranks *)

Lemma claim_order_total a b : claim_order a b = true ∨ claim_order b a = true.
Proof.
  unfold claim_order. destruct (Z.lt_trichotomy (r_available_at a) (r_available_at b)) as [E|[E|E]].
  - left. apply Z.ltb_lt in E. by rewrite E.
  - rewrite E, Z.ltb_irrefl, Z.eqb_refl. apply str_leb_total.
  - right. apply Z.ltb_lt in E. by rewrite E.
Qed.

Lemma claim_order_trans a b c :
  claim_order a b = true → claim_order b c = true → claim_order a c = true.
Proof.
  unfold claim_order. rewrite !orb_true_iff, !andb_true_iff, !Z.ltb_lt, !Z.eqb_eq.
  intros [H1|[H1 H2]] [H3|[H3 H4]]; [left; lia|left; lia|left; lia|right].
  split; [lia|]. by eapply str_leb_trans.
Qed.

(** A non-empty list has a last element. *)
Lemma last_candidate (cs : list candidate) :
  cs ≠ [] → ∃ c, c ∈ cs ∧ ∀ x, x ∈ cs → claim_order (cd_run x) (cd_run c) = true.
Proof.
  induction cs as [|c cs IH]; [done|]. intros _. destruct cs as [|c' cs].
  { exists c. split; [left|]. intros x ->%list_elem_of_singleton.
    by destruct (claim_order_total (cd_run c) (cd_run c)). }
  destruct IH as (m & Hm & Hmax); [done|].
  destruct (claim_order_total (cd_run c) (cd_run m)) as [E|E].
  - exists m. split; [by right|]. intros x [->|Hx]%elem_of_cons; [done|by apply Hmax].
  - exists c. split; [left|]. intros x [->|Hx]%elem_of_cons.
    + by destruct (claim_order_total (cd_run c) (cd_run c)).
    + eapply claim_order_trans; [by apply Hmax|done].
Qed.

Lemma sql_count_le {A} (p q : A → bool) l :
  (∀ x, x ∈ l → p x = true → q x = true) → (sql_count p l ≤ sql_count q l)%nat.
Proof.
  unfold sql_count, sql_select. induction l as [|x l IH]; intros Hpq; cbn; [lia|].
  assert (IH' := IH (λ y Hy, Hpq y (list_elem_of_further _ _ _ Hy))).
  destruct (p x) eqn:Ep; [rewrite (Hpq x (list_elem_of_here _ _) Ep); cbn; lia|].
  destruct (q x); cbn; lia.
Qed.

(** At most [k] members of a class have a rank up to [k]. *)
Lemma rank_bound (same ok : candidate → bool) (k : Z) cs :
  0 ≤ k → (∀ c, c ∈ cs → same c = true → ok c = true → rank_in same c cs ≤ k) →
  Z.of_nat (sql_count (λ c, same c && ok c) cs) ≤ k.
Proof.
  intros Hk Hok. destruct (sql_select (λ c, same c && ok c) cs) as [|c0 l] eqn:E.
  { unfold sql_count. by rewrite E. }
  destruct (last_candidate (sql_select (λ c, same c && ok c) cs)) as (m & Hm & Hmax);
    [by rewrite E|].
  apply elem_of_sql_select in Hm as [[Hs Ho]%andb_true_iff Hm].
  specialize (Hok m Hm Hs Ho). unfold rank_in in Hok.
  enough (sql_count (λ c, same c && ok c) cs
          ≤ sql_count (λ x, same x && claim_order (cd_run x) (cd_run m)) cs)%nat by lia.
  apply sql_count_le. intros x Hx Hp. rewrite andb_true_iff. split.
  - by apply andb_true_iff in Hp as [? _].
  - apply Hmax, elem_of_sql_select. done.
Qed.

(** ** The rows after a claim *)

Section claim.
Context `{HostLaws} `{JobCodec}.

(** Every row is as it was, or it was claimable and its run was eligible. *)
Definition claimed_row (t : time) (cs : list candidate) (r r' : run_row) : Prop :=
  r_info r' = r_info r ∧
  (r' = r ∨ claimable t r = true ∧ r_id r ∈ map (r_id ∘ cd_run) cs).

Lemma claimed_row_trans t cs c r r1 r2 :
  claimed_row t [c] r r1 → claimed_row t cs r1 r2 → claimed_row t (c :: cs) r r2.
Proof.
  intros [E1 [->|[Hc Hid]]] [E2 Hor]; (split; [congruence|]).
  - destruct Hor as [->|[? ?]]; [by left|right]. split; [done|by right].
  - right. split; [done|]. apply list_elem_of_singleton in Hid. cbn. rewrite Hid. left.
Qed.

Lemma claim_one_effect owner lease c e s x s' :
  claim_one owner lease c e s = Ok (x, s') →
  job_runs s' = sql_update (λ x, (r_id x ==s r_id (cd_run c)) && claimable (tx_now e) x)
    (claim_row owner (uuid (uuids_drawn s)) (lease_end (tx_now e) lease c) (tx_now e)) (job_runs s) ∧
  jobs s' = jobs s ∧ cl_run x = claim_scan (uuid (uuids_drawn s)) (cd_run c) ∧
  (uuids_drawn s < uuids_drawn s')%nat.
Proof.
  intros Hc. unfold claim_one, update_runs, mbind, tx_bind in Hc. cbn in Hc.
  destruct (r_status (cd_run c) =st Pending); cbn in Hc;
    [destruct (emitRunLifecycleEventTx _ _ _ _) as [[[] s1]|] eqn:Ev in Hc; [|done];
     apply emitRunEventTx_frame in Ev as [events ->]; cbn in Hc|];
    (destruct (scanJob _); [|done]); injection Hc as <- <-; split_and!; cbn; solve [done|lia].
Qed.

Lemma claim_one_rows owner lease c e s x s' :
  claim_one owner lease c e s = Ok (x, s') →
  Forall2 (claimed_row (tx_now e) [c]) (job_runs s) (job_runs s') ∧ jobs s' = jobs s.
Proof.
  intros (-> & -> & _)%claim_one_effect. split; [|done]. unfold sql_update. apply Forall2_fmap_r, Forall_Forall2_diag.
  apply Forall_forall. intros r _. split; [by destruct (_ && _)|].
  destruct (_ && _) eqn:Ep; [|by left]. right.
  apply andb_true_iff in Ep as [Ep%String.eqb_eq Hcl]. split; [done|]. cbn. rewrite Ep. left.
Qed.

Lemma claim_all_rows owner lease cs e s xs s' :
  claim_all owner lease cs e s = Ok (xs, s') →
  Forall2 (claimed_row (tx_now e) cs) (job_runs s) (job_runs s') ∧ jobs s' = jobs s.
Proof.
  revert s xs s'. induction cs as [|c cs IH]; intros s xs s' Hc; cbn in Hc.
  { injection Hc as _ <-. split; [|done]. apply Forall_Forall2_diag, Forall_forall.
    intros r _. split; [done|by left]. }
  unfold mbind, tx_bind in Hc. destruct (claim_one owner lease c e s) as [[x s1]|] eqn:E1; [|done].
  destruct (claim_all owner lease cs e s1) as [[xs1 s2]|] eqn:E2; [|done].
  injection Hc as _ <-. apply claim_one_rows in E1 as [F1 J1]. apply IH in E2 as [F2 J2].
  split; [|congruence]. eapply Forall2_compose; [|exact F1|exact F2].
  intros r r1 r2. apply claimed_row_trans.
Qed.

Lemma ClaimRuns_rows owner limit lease e s cls s' :
  ClaimRuns owner limit lease e s = Ok (cls, s') →
  Forall2 (claimed_row (tx_now e) (eligible (tx_now e) (tx_locked e) limit s))
    (job_runs s) (job_runs s') ∧ jobs s' = jobs s.
Proof. intros Hc. by apply claim_all_rows in Hc. Qed.

(** ** Counting slots *)

(** A claimable run holds no slot. *)
Lemma claimable_free t r : claimable t r = true → holds_slot t r = false.
Proof.
  unfold claimable, holds_slot. destruct (r_status r); try done.
  destruct (r_lease_until r); [|done]. intros E. bool_to_prop. lia.
Qed.

Definition in_ids (ids : list string) (r : run_row) : bool := bool_decide (r_id r ∈ ids).

(** The slots of a class of runs grow by the claimed runs of that class. *)
Lemma slots_grow t cs (cls : run_info → bool) rows rows' :
  Forall2 (claimed_row t cs) rows rows' →
  (sql_count (λ r, holds_slot t r && cls (r_info r)) rows'
   ≤ sql_count (λ r, holds_slot t r && cls (r_info r)) rows
     + sql_count (λ r, in_ids (map (r_id ∘ cd_run) cs) r && cls (r_info r)) rows)%nat.
Proof.
  unfold sql_count, sql_select. induction 1 as [|r r' rows rows' [Ei Hor] _ IH]; cbn; [lia|].
  rewrite Ei. destruct (cls (r_info r)); rewrite ?andb_false_r, ?andb_true_r; [|lia].
  destruct Hor as [->|[Hc Hid]].
  - destruct (holds_slot t r), (in_ids _ r); cbn; lia.
  - rewrite (claimable_free t r Hc). unfold in_ids at 1.
    rewrite (bool_decide_eq_true_2 _ Hid). destruct (holds_slot t r'); cbn; lia.
Qed.

(** Rows with the identifiers of some candidates are those candidates' runs. *)
Lemma in_ids_count s (cs : list candidate) (cls : run_info → bool) :
  Inv s → (∀ c, c ∈ cs → cd_run c ∈ job_runs s) →
  (sql_count (λ r, in_ids (map (r_id ∘ cd_run) cs) r && cls (r_info r)) (job_runs s)
   ≤ sql_count (λ c, cls (r_info (cd_run c))) cs)%nat.
Proof.
  intros Hs Hcs. unfold sql_count.
  rewrite <- (length_map r_id), <- (length_map (r_id ∘ cd_run) (sql_select _ cs)).
  apply NoDup_incl_length.
  - apply NoDup_ListNoDup. apply NoDup_map_filter, (inv_ids s Hs).
  - intros id. rewrite !in_map_iff. intros (r & <- & Hr).
    apply list_elem_of_In, elem_of_sql_select in Hr as [[Hi Hc]%andb_true_iff Hr].
    unfold in_ids in Hi. rewrite bool_decide_eq_true in Hi.
    apply list_elem_of_In, in_map_iff in Hi as (c & Ec & Hc'). cbn in Ec.
    exists c. split; [done|]. apply list_elem_of_In in Hc'.
    assert (cd_run c = r) as Er.
    { eapply (NoDup_key_inj r_id); [apply (inv_ids s Hs)|by apply Hcs|done|done]. }
    apply list_elem_of_In, elem_of_sql_select. rewrite Er. done.
Qed.

Lemma sql_count_Permutation {A} (p : A → bool) l k : l ≡ₚ k → sql_count p l = sql_count p k.
Proof.
  unfold sql_count, sql_select. induction 1 as [|x l k _ IH|x y l|l k m _ IH1 _ IH2]; cbn;
    [done| | |congruence]; repeat destruct (p _); cbn; congruence.
Qed.

Lemma sql_count_filter {A} (p q : A → bool) l :
  sql_count p (List.filter q l) = sql_count (λ x, p x && q x) l.
Proof.
  unfold sql_count, sql_select. induction l as [|x l IH]; cbn; [done|].
  destruct (q x); cbn; rewrite ?andb_false_r, ?andb_true_r; [destruct (p x); cbn; congruence|done].
Qed.

(** The claim takes no more of a class than fit within its limits. *)
Lemma eligible_count t locks limit s (cls : candidate → bool) :
  (sql_count cls (eligible t locks limit s)
   ≤ sql_count (λ c, cls c && within_limits t s (candidates t s) c) (candidates t s))%nat.
Proof.
  unfold eligible. etrans.
  { eapply (Nat.le_trans _ (sql_count cls (_ ++ drop limit _))); [|by rewrite take_drop].
    rewrite sql_count_app. apply Nat.le_add_r. }
  rewrite sql_count_filter. etrans; [by apply (sql_count_le _ cls); intros x _ [? _]%andb_true_iff|].
  by rewrite (sql_count_Permutation _ _ _ (sort_by_Permutation _ _)), sql_count_filter.
Qed.

(** ** Candidates *)

Lemma elem_of_candidates t s c :
  c ∈ candidates t s →
  cd_run c ∈ job_runs s ∧ claimable t (cd_run c) = true ∧
  job_of_run (cd_run c) s = Some (cd_job c) ∧
  head (sql_select (λ x, t_id x ==s r_tenant_id (cd_run c)) (tenants s)) = Some (cd_tenant c).
Proof.
  unfold candidates. intros Hc. apply list_elem_of_In, in_flat_map in Hc as (r & Hr & Hc).
  apply list_elem_of_In, elem_of_sql_select in Hr as [Hcl Hr].
  destruct (job_of_run r s) as [j|] eqn:Ej; [|done].
  destruct (head _) as [tn|] eqn:Et; [|done]. destruct Hc as [<-|[]]. done.
Qed.

Lemma elem_of_eligible t locks limit s c :
  c ∈ eligible t locks limit s →
  c ∈ candidates t s ∧ within_limits t s (candidates t s) c = true ∧ locks (r_id (cd_run c)) = false.
Proof.
  unfold eligible. intros (i & Hc & _)%elem_of_take. apply list_elem_of_lookup_2 in Hc.
  apply list_elem_of_In, filter_In in Hc as [Hc Hl%negb_true_iff].
  apply list_elem_of_In, elem_of_sort_by in Hc.
  apply list_elem_of_In, filter_In in Hc as [Hc%list_elem_of_In Hw]. done.
Qed.

Lemma eligible_run t locks limit s c : c ∈ eligible t locks limit s → cd_run c ∈ job_runs s.
Proof. intros [Hc _]%elem_of_eligible. by apply elem_of_candidates in Hc as [? _]. Qed.

(** The slots of a class after a claim, when the limit of the class bounds the
    ranks of its eligible runs. *)
Lemma claim_bound owner limit lease e s cls s' (class : run_info → bool) k :
  Inv s → ClaimRuns owner limit lease e s = Ok (cls, s') → 0 ≤ k →
  (∀ c, c ∈ candidates (tx_now e) s → class (r_info (cd_run c)) = true →
     within_limits (tx_now e) s (candidates (tx_now e) s) c = true →
     rank_in (λ x, class (r_info (cd_run x))) c (candidates (tx_now e) s) ≤ k) →
  Z.of_nat (sql_count (λ r, holds_slot (tx_now e) r && class (r_info r)) (job_runs s'))
  ≤ Z.of_nat (sql_count (λ r, holds_slot (tx_now e) r && class (r_info r)) (job_runs s)) + k.
Proof.
  intros Hs Hc Hk Hrank. apply ClaimRuns_rows in Hc as [Hrows _].
  pose proof (slots_grow _ _ class _ _ Hrows) as G1.
  pose proof (in_ids_count s _ class Hs (eligible_run (tx_now e) (tx_locked e) limit s)) as G2.
  pose proof (eligible_count (tx_now e) (tx_locked e) limit s (λ c, class (r_info (cd_run c)))) as G3.
  pose proof (rank_bound (λ c, class (r_info (cd_run c))) (within_limits (tx_now e) s (candidates (tx_now e) s))
    k (candidates (tx_now e) s) Hk Hrank) as G4.
  lia.
Qed.

Lemma within_limits_true t s cs c :
  within_limits t s cs c = true →
  rank_in (λ x, r_job_id (cd_run x) ==s r_job_id (cd_run c)) c cs
    ≤ free (job_limit c) (job_active t (r_job_id (cd_run c)) s) ∧
  rank_in (λ x, r_tenant_id (cd_run x) ==s r_tenant_id (cd_run c)) c cs
    ≤ free (t_max_concurrent_runs (cd_tenant c)) (tenant_active t (r_tenant_id (cd_run c)) s) ∧
  (∀ k, j_kubernetes_cluster_id (cd_job c) = Some k →
     rank_in (λ x, bool_decide (j_kubernetes_cluster_id (cd_job x) = Some k)) c cs
       ≤ free (cluster_max k s) (cluster_active t k s)).
Proof.
  unfold within_limits. rewrite !andb_true_iff, !Z.leb_le. intros [[? ?] Hk].
  split_and!; [done|done|]. intros k E. rewrite E in Hk. by apply Z.leb_le.
Qed.

Lemma rank_in_ext (f g : candidate → bool) c cs :
  (∀ x, x ∈ cs → f x = g x) → rank_in f c cs = rank_in g c cs.
Proof.
  intros E. unfold rank_in. f_equal.
  apply Nat.le_antisymm; apply sql_count_le; intros x Hx; by rewrite (E x Hx).
Qed.

Lemma tenant_bound owner limit lease e s cls s' T tn :
  Inv s → ClaimRuns owner limit lease e s = Ok (cls, s') →
  head (sql_select (λ x, t_id x ==s T) (tenants s)) = Some tn →
  tenant_active (tx_now e) T s' ≤ Z.max (tenant_active (tx_now e) T s) (t_max_concurrent_runs tn).
Proof.
  intros Hs Hc Htn.
  pose proof (claim_bound _ _ _ _ _ _ _ (λ i, i_tenant_id i ==s T)
    (free (t_max_concurrent_runs tn) (tenant_active (tx_now e) T s)) Hs Hc) as Hb.
  unfold free in *. etrans; [apply Hb|]; [lia| |change (λ r, _ && (i_tenant_id _ ==s T))
    with (λ r, holds_slot (tx_now e) r && (r_tenant_id r ==s T)); unfold tenant_active; lia].
  intros c Hcand HT%String.eqb_eq Hw. apply within_limits_true in Hw as (_ & Hr & _).
  apply elem_of_candidates in Hcand as (_ & _ & _ & Et). fold (r_tenant_id (cd_run c)) in HT.
  rewrite HT in *. rewrite Htn in Et. injection Et as ->. exact Hr.
Qed.

Lemma cluster_bound owner limit lease e s cls s' K :
  Inv s → ClaimRuns owner limit lease e s = Ok (cls, s') →
  cluster_active (tx_now e) K s' ≤ Z.max (cluster_active (tx_now e) K s) (cluster_max K s).
Proof.
  intros Hs Hc. pose proof (ClaimRuns_rows _ _ _ _ _ _ _ Hc) as [_ Ej].
  set (class := λ i, bool_decide
    ((head (sql_select (λ j, j_id j ==s i_job_id i) (jobs s)) ≫= j_kubernetes_cluster_id) = Some K)).
  pose proof (claim_bound _ _ _ _ _ _ _ class
    (free (cluster_max K s) (cluster_active (tx_now e) K s)) Hs Hc) as Hb.
  replace (cluster_active (tx_now e) K s') with
    (Z.of_nat (sql_count (λ r, holds_slot (tx_now e) r && class (r_info r)) (job_runs s')))
    by (unfold cluster_active, run_cluster, job_of_run; by rewrite Ej).
  etrans; [apply Hb|]; [unfold free; lia| |].
  - intros c Hcand HK Hw. apply within_limits_true in Hw as (_ & _ & Hr).
    assert (Hcd : ∀ x, x ∈ candidates (tx_now e) s →
              class (r_info (cd_run x)) = bool_decide (j_kubernetes_cluster_id (cd_job x) = Some K)).
    { intros x (_ & _ & Ex & _)%elem_of_candidates. unfold class. unfold job_of_run, r_job_id in Ex.
      by rewrite Ex. }
    rewrite (rank_in_ext _ _ _ _ Hcd). apply Hr.
    rewrite Hcd in HK by done. by apply bool_decide_eq_true in HK.
  - unfold cluster_active, run_cluster, job_of_run, free, class, r_job_id. lia.
Qed.

Lemma job_bound owner limit lease e s cls s' J L :
  Inv s → ClaimRuns owner limit lease e s = Ok (cls, s') → 0 ≤ L →
  (∀ c, c ∈ candidates (tx_now e) s → r_job_id (cd_run c) = J → job_limit c ≤ L) →
  job_active (tx_now e) J s' ≤ Z.max (job_active (tx_now e) J s) L.
Proof.
  intros Hs Hc HL Hlim.
  pose proof (claim_bound _ _ _ _ _ _ _ (λ i, i_job_id i ==s J)
    (free L (job_active (tx_now e) J s)) Hs Hc) as Hb.
  unfold free in *. etrans; [apply Hb|]; [lia| |change (λ r, _ && (i_job_id _ ==s J))
    with (λ r, holds_slot (tx_now e) r && (r_job_id r ==s J)); unfold job_active; lia].
  intros c Hcand HJ%String.eqb_eq Hw. apply within_limits_true in Hw as (Hr & _ & _).
  fold (r_job_id (cd_run c)) in HJ. specialize (Hlim c Hcand HJ). unfold free in Hr.
  rewrite HJ in Hr. etrans; [exact Hr|]. lia.
Qed.

(** Within the limit, or no more than before. *)
Definition slots_ok (before after limit : Z) : Prop := after ≤ Z.max before limit.

(** C23: a claim that does not overlap another one never starts more runs of a
    tenant or on a Kubernetes cluster than its limit leaves free: after the claim
    the slots in use are within the limit, or no more than they were before it.
    (Claims lock the clusters but not the tenants: at READ COMMITTED two that
    overlap count the same runs of a tenant and can exceed its limit together.) *)
Theorem claim_respects_tenant_and_cluster owner limit lease e s cls s' :
  Inv s → ClaimRuns owner limit lease e s = Ok (cls, s') →
  (∀ T tn, head (sql_select (λ x, t_id x ==s T) (tenants s)) = Some tn →
     slots_ok (tenant_active (tx_now e) T s) (tenant_active (tx_now e) T s')
       (t_max_concurrent_runs tn)) ∧
  (∀ K, slots_ok (cluster_active (tx_now e) K s) (cluster_active (tx_now e) K s')
          (cluster_max K s)).
Proof. intros Hs Hc. split; intros; [by eapply tenant_bound|by eapply cluster_bound]. Qed.

(** A claim never starts more runs of a job than its concurrency limit
    leaves free; only a broadcast may go beyond it, up to its number of
    shards. *)
Theorem claim_respects_job owner limit lease e s cls s' j L :
  Inv s → ClaimRuns owner limit lease e s = Ok (cls, s') →
  j ∈ jobs s → 0 ≤ L → j_max_concurrent_runs j ≤ L →
  (∀ r n, r ∈ job_runs s → r_job_id r = j_id j → r_broadcast_group_id r ≠ None →
     i_shard_total (r_info r) = Some n → n ≤ L) →
  slots_ok (job_active (tx_now e) (j_id j) s) (job_active (tx_now e) (j_id j) s') L.
Proof.
  intros Hs Hc Hj HL Hmax Hshards. unfold slots_ok. eapply job_bound; [done..|].
  intros c Hcand HJ. apply elem_of_candidates in Hcand as (Hr & _ & Ej & _).
  assert (cd_job c = j) as Ecj.
  { unfold job_of_run in Ej. apply head_Some_elem_of, elem_of_sql_select in Ej as [E%String.eqb_eq Hin].
    eapply (NoDup_key_inj j_id); [apply (inv_jobs s Hs)|done|done|congruence]. }
  unfold job_limit. rewrite Ecj. destruct (bool_decide _) eqn:Eg; [done|].
  apply bool_decide_eq_false in Eg.
  destruct (i_shard_total _) as [n|] eqn:En; cbn; [|lia].
  pose proof (Hshards _ _ Hr HJ Eg En). lia.
Qed.

(** ** Leases *)

(** What the claim of [c] leaves behind. *)
Definition leased (t : time) (lease : duration) (x : ClaimedRun) (s' : db) : Prop :=
  ∃ row u, row ∈ job_runs s' ∧ holds_lease (cl_run x) row = true ∧
    r_lease_until row = Some u ∧ t + lease ≤ u.

Lemma claim_one_leased owner lease c e s x s' :
  (∃ row, row ∈ job_runs s ∧ r_id row = r_id (cd_run c) ∧ claimable (tx_now e) row = true) →
  claim_one owner lease c e s = Ok (x, s') →
  leased (tx_now e) lease x s' ∧ ID (cl_run x) = r_id (cd_run c).
Proof.
  intros (row & Hrow & Hid & Hcl) Hc.
  apply claim_one_effect in Hc as (Er & _ & Ex & _). split; [|by rewrite Ex].
  exists (claim_row owner (uuid (uuids_drawn s)) (lease_end (tx_now e) lease c) (tx_now e) row).
  exists (lease_end (tx_now e) lease c).
  split_and!; [|apply holds_lease_true|reflexivity|unfold lease_end; lia].
  - rewrite Er. apply elem_of_sql_update. exists row. split; [done|].
    by rewrite Hid, String.eqb_refl, Hcl.
  - by rewrite Ex.
Qed.

(** Claims of other runs leave a row alone. *)
Lemma claimed_others t cs rows rows' row :
  Forall2 (claimed_row t cs) rows rows' → row ∈ rows → r_id row ∉ map (r_id ∘ cd_run) cs → row ∈ rows'.
Proof.
  intros HF Hrow Hid. apply list_elem_of_lookup_1 in Hrow as [i Hi].
  destruct (Forall2_lookup_l _ _ _ _ _ HF Hi) as (row' & Hi' & _ & [->|[_ ?]]); [|done].
  by eapply list_elem_of_lookup_2.
Qed.

Lemma claim_all_leased owner lease cs e s xs s' :
  NoDup (map (r_id ∘ cd_run) cs) →
  (∀ c, c ∈ cs → ∃ row, row ∈ job_runs s ∧ r_id row = r_id (cd_run c) ∧
     claimable (tx_now e) row = true) →
  claim_all owner lease cs e s = Ok (xs, s') →
  map (ID ∘ cl_run) xs = map (r_id ∘ cd_run) cs ∧ ∀ x, x ∈ xs → leased (tx_now e) lease x s'.
Proof.
  revert s xs s'. induction cs as [|c cs IH]; intros s xs s' Hn Hpre Hc; cbn in Hc.
  { injection Hc as <- _. split; [done|]. by intros x ?%elem_of_nil. }
  unfold mbind, tx_bind in Hc. destruct (claim_one owner lease c e s) as [[x s1]|] eqn:E1; [|done].
  destruct (claim_all owner lease cs e s1) as [[xs1 s2]|] eqn:E2; [|done].
  injection Hc as <- <-. cbn in Hn. apply NoDup_cons in Hn as [Hc Hn].
  destruct (claim_one_leased _ _ _ _ _ _ _ (Hpre c (list_elem_of_here _ _)) E1) as [Hx Eid].
  pose proof (claim_one_rows _ _ _ _ _ _ _ E1) as [F1 _].
  pose proof (claim_all_rows _ _ _ _ _ _ _ E2) as [F2 _].
  destruct (IH s1 xs1 s2 Hn) as [Eids Hxs]; [|done|].
  { intros c' Hc'. destruct (Hpre c' (list_elem_of_further _ _ _ Hc')) as (row & Hrow & Hid & Hcl).
    exists row. split_and!; [|done..]. eapply claimed_others; [exact F1|done|].
    cbn. intros E%list_elem_of_singleton. apply Hc. rewrite <- E, Hid.
    by apply list_elem_of_In, (in_map (r_id ∘ cd_run)), list_elem_of_In. }
  split; [cbn; rewrite Eid; by f_equal|].
  intros y [->|Hy]%elem_of_cons; [|by apply Hxs].
  destruct Hx as (row & u & Hrow & Hl & Hu & Hle). exists row, u. split_and!; [|done..].
  eapply claimed_others; [exact F2|done|]. apply holds_lease_true in Hl as (Hid & _).
  by rewrite Hid, Eid.
Qed.

Lemma candidates_ids s t : Inv s → NoDup (map (r_id ∘ cd_run) (candidates t s)).
Proof.
  intros Hs. unfold candidates, sql_select.
  pose proof (inv_ids s Hs) as Hn. induction (job_runs s) as [|r rows IH]; cbn; [constructor|].
  cbn in Hn. apply NoDup_cons in Hn as [Hr Hn]. specialize (IH Hn).
  destruct (claimable t r); [|done]. cbn.
  destruct (job_of_run r s) as [j|]; [|done]. destruct (head _) as [tn|]; [|done]. cbn.
  apply NoDup_cons. split; [|done]. intros Hin. apply Hr.
  apply list_elem_of_In, in_map_iff in Hin as (c & Ec & Hc).
  apply in_flat_map in Hc as (r' & Hr' & Hc). apply filter_In in Hr' as [Hr' _].
  destruct (job_of_run r' s); [|done]. destruct (head _); [|done]. destruct Hc as [<-|[]].
  cbn in Ec. rewrite <- Ec. by apply list_elem_of_In, in_map.
Qed.

Lemma eligible_ids t locks limit s :
  Inv s → NoDup (map (r_id ∘ cd_run) (eligible t locks limit s)).
Proof.
  intros Hs. unfold eligible. rewrite <- firstn_map.
  eapply sublist_NoDup; [|apply sublist_take]. apply NoDup_map_filter.
  eapply NoDup_Permutation_proper; [apply Permutation_map, sort_by_Permutation|].
  by apply NoDup_map_filter, candidates_ids.
Qed.

(** C14: a claim hands out every run at most once and at most [limit] of
    them; each was pending and available or had an expired lease, and was not
    locked by another transaction; afterwards its row is running under the
    token the worker was given, for at least the lease it asked for. *)
Theorem claim_leases_runs owner limit lease e s cls s' :
  Inv s → ClaimRuns owner limit lease e s = Ok (cls, s') →
  NoDup (map (ID ∘ cl_run) cls) ∧ (length cls ≤ limit)%nat ∧
  ∀ x, x ∈ cls → leased (tx_now e) lease x s' ∧
    ∃ row, row ∈ job_runs s ∧ r_id row = ID (cl_run x) ∧ claimable (tx_now e) row = true ∧
      tx_locked e (r_id row) = false.
Proof.
  intros Hs Hc. set (E := eligible (tx_now e) (tx_locked e) limit s).
  destruct (claim_all_leased owner lease E e s cls s') as [Eids Hx]; [by apply eligible_ids| |done|].
  { intros c Hcc. exists (cd_run c). apply elem_of_eligible in Hcc as [Hcc _].
    apply elem_of_candidates in Hcc as (? & ? & _). done. }
  split_and!.
  - rewrite Eids. by apply eligible_ids.
  - rewrite <- (length_map (ID ∘ cl_run)), Eids, length_map. apply firstn_le_length.
  - intros x Hin. split; [by apply Hx|].
    assert (Hid : ID (cl_run x) ∈ map (r_id ∘ cd_run) E).
    { rewrite <- Eids. by apply list_elem_of_In, (in_map (ID ∘ cl_run)), list_elem_of_In. }
    apply list_elem_of_In, in_map_iff in Hid as (c & Ec & Hcc). apply list_elem_of_In in Hcc.
    exists (cd_run c). apply elem_of_eligible in Hcc as (Hcc & _ & Hl).
    apply elem_of_candidates in Hcc as (? & ? & _). done.
Qed.
End claim.
End Capacity.
