(* ===== verification/Dependencies.v ===== *)
(** * The dependency graph of jobs

    [SetJobDependencies] refuses an edge whose parent is a descendant of its
    child, so the graph never gets a cycle and a finished run starts finitely
    many generations of dependent runs. *)
From Stdlib Require Import ZArith Lia Ascii String.
From stdpp Require Import base list strings gmap relations.
From S2P Require Import Prelude GoStrings Tables Executors RunStore JobStore.

Module Dependencies.
Import Executors RunStore JobStore.

Definition edge (deps : list dependency_row) (a b : string) : Prop :=
  ∃ d, d ∈ deps ∧ d_parent_job_id d = a ∧ d_child_job_id d = b.

Definition acyclic (deps : list dependency_row) : Prop := ∀ x, ¬ tc (edge deps) x x.

(** ** The recursive query computes the transitive closure *)

Lemma elem_of_children deps found x :
  x ∈ children_of deps found ↔ ∃ a, a ∈ found ∧ edge deps a x.
Proof.
  unfold children_of. rewrite elem_of_list_to_set, list_elem_of_In, in_map_iff.
  setoid_rewrite <- list_elem_of_In. setoid_rewrite elem_of_sql_select.
  setoid_rewrite bool_decide_eq_true. unfold edge. split.
  - intros (d & <- & Ha & Hd). eauto 6.
  - intros (a & Ha & d & Hd & <- & <-). eauto 6.
Qed.

Definition closed (deps : list dependency_row) (X : gset string) : Prop := children_of deps X ⊆ X.

Lemma descend_closed_id n deps X : closed deps X → descend n deps X = X.
Proof.
  revert X. induction n as [|n IH]; intros X HX; cbn; [done|].
  replace (X ∪ children_of deps X) with X by (unfold closed in HX; set_solver). by apply IH.
Qed.

Lemma descend_sound n deps X x :
  x ∈ descend n deps X → ∃ a, a ∈ X ∧ rtc (edge deps) a x.
Proof.
  revert X. induction n as [|n IH]; intros X; cbn; [intros; eauto using rtc_refl|].
  intros (a & [Ha|(b & Hb & E)%elem_of_children]%elem_of_union & Hr)%IH; [eauto|].
  exists b. split; [done|]. by eapply rtc_l.
Qed.

Lemma descend_grows n deps X : X ⊆ descend n deps X.
Proof. revert X. induction n as [|n IH]; intros X; cbn; [done|]. etrans; [|apply IH]. set_solver. Qed.

(** Every round that changes something adds one of the children. *)
Definition all_children (deps : list dependency_row) : gset string :=
  list_to_set (map d_child_job_id deps).

Lemma children_all deps X : children_of deps X ⊆ all_children deps.
Proof.
  intros x (a & _ & d & Hd & _ & <-)%elem_of_children. unfold all_children.
  rewrite elem_of_list_to_set. by apply list_elem_of_In, in_map, list_elem_of_In.
Qed.

Lemma descend_closed n deps X :
  (size (all_children deps ∖ X) ≤ n)%nat → closed deps (descend n deps X).
Proof.
  revert X. induction n as [|n IH]; intros X Hn; cbn.
  - assert (E : all_children deps ∖ X ≡ ∅) by (apply size_empty_iff; lia).
    unfold closed. pose proof (children_all deps X). set_solver.
  - destruct (decide (children_of deps X ⊆ X)) as [Hc|Hc].
    + replace (X ∪ children_of deps X) with X by set_solver. by rewrite descend_closed_id.
    + apply IH. enough (size (all_children deps ∖ (X ∪ children_of deps X))
                        < size (all_children deps ∖ X))%nat by lia.
      apply subset_size. pose proof (children_all deps X). split; [set_solver|].
      intros Hsub. apply Hc. intros x Hx. destruct (decide (x ∈ X)); [done|].
      assert (x ∈ all_children deps ∖ X) by set_solver. set_solver.
Qed.

Lemma size_all_children deps : (size (all_children deps) ≤ length deps)%nat.
Proof.
  unfold all_children. induction deps as [|d deps IH]; cbn; [by rewrite size_empty|].
  rewrite size_union_alt, size_singleton.
  pose proof (subseteq_size (list_to_set (map d_child_job_id deps) ∖ {[d_child_job_id d]})
    (list_to_set (C:=gset string) (map d_child_job_id deps)) ltac:(set_solver)). lia.
Qed.

Lemma descendants_spec deps a x : x ∈ descendants deps a ↔ tc (edge deps) a x.
Proof.
  unfold descendants. split.
  - intros (b & (a' & ->%elem_of_singleton & E)%elem_of_children & Hr)%descend_sound.
    by eapply tc_rtc_r; [apply tc_once|].
  - assert (Hcl : closed deps (descend (length deps) deps (children_of deps {[a]}))).
    { apply descend_closed. pose proof (size_all_children deps).
      pose proof (subseteq_size (all_children deps ∖ children_of deps {[a]})
        (all_children deps) ltac:(set_solver)). lia. }
    intros Htc. revert x Htc. apply (tc_ind_r (λ x, x ∈ _)).
    + intros x E. apply descend_grows, elem_of_children. exists a. split; [set_solver|done].
    + intros b x _ E Hb. apply Hcl, elem_of_children. eauto.
Qed.

(** ** Edges come and go *)

Lemma edge_mono deps deps' a b : (∀ d, d ∈ deps → d ∈ deps') → edge deps a b → edge deps' a b.
Proof. intros Hd (d & ? & ? & ?). exists d. auto. Qed.

Lemma path_mono deps deps' a b :
  (∀ d, d ∈ deps → d ∈ deps') → tc (edge deps) a b → tc (edge deps') a b.
Proof.
  intros Hd. induction 1; [apply tc_once|eapply tc_l; [|done]]; by eapply edge_mono.
Qed.

Lemma acyclic_mono deps deps' : (∀ d, d ∈ deps → d ∈ deps') → acyclic deps' → acyclic deps.
Proof. intros Hd Ha x Hx. apply (Ha x). by eapply path_mono. Qed.

(** A path with a new edge uses only old ones, or reaches the new parent and
    leaves from the new child. *)
Lemma path_insert deps t p c x y :
  tc (edge (deps ++ [mk_dep t p c])) x y →
  tc (edge deps) x y ∨ rtc (edge deps) x p ∧ rtc (edge deps) c y.
Proof.
  assert (He : ∀ a b, edge (deps ++ [mk_dep t p c]) a b → edge deps a b ∨ a = p ∧ b = c).
  { intros a b (d & [Hd|Hd]%elem_of_app & Ea & Eb); [left; exists d; auto|].
    apply list_elem_of_singleton in Hd as ->. cbn in *. auto. }
  induction 1 as [x y E|x y z E _ IH].
  - destruct (He _ _ E) as [?|[-> ->]]; [left; by apply tc_once|right; split; apply rtc_refl].
  - destruct (He _ _ E) as [E'|[-> ->]], IH as [IH|[IH1 IH2]].
    + left. by eapply tc_l.
    + right. split; [by eapply rtc_l|done].
    + right. split; [apply rtc_refl|by apply tc_rtc].
    + right. split; [apply rtc_refl|done].
Qed.

Lemma acyclic_insert deps t p c :
  acyclic deps → p ≠ c → p ∉ descendants deps c → acyclic (deps ++ [mk_dep t p c]).
Proof.
  intros Ha Hne Hd x [Hx|[Hx1 Hx2]]%path_insert; [by apply (Ha x)|].
  assert (Hr : rtc (edge deps) c p) by (by etrans).
  apply rtc_tc in Hr as [->|Ht]; [done|]. by apply Hd, descendants_spec.
Qed.

Section dependencies.
Context `{Host}.

Lemma insert_dependency_acyclic t p c e s :
  acyclic (job_dependencies s) →
  wp (insert_dependency t p c) (λ _ s', acyclic (job_dependencies s')) e s.
Proof.
  intros Ha. unfold insert_dependency. apply wp_bind, wp_get.
  destruct (c ==s p) eqn:Ecp; [done|]. destruct (bool_decide _) eqn:Ed; [done|].
  destruct (sql_exists _ _); [done|]. apply wp_modify. cbn. apply acyclic_insert; [done| |].
  - apply String.eqb_neq in Ecp. congruence.
  - by apply bool_decide_eq_false in Ed.
Qed.

(** A set of dependencies that would close a cycle is refused, one that would
    not is stored. *)
Lemma insert_dependency_refuses t p c e s :
  p = c ∨ tc (edge (job_dependencies s)) c p →
  insert_dependency t p c e s = Err ErrDependencyCycle.
Proof.
  intros Hp. unfold insert_dependency, mbind, tx_bind. cbn.
  destruct (c ==s p) eqn:Ecp; [done|]. destruct Hp as [->|Hp]; [by rewrite String.eqb_refl in Ecp|].
  apply descendants_spec in Hp. by rewrite bool_decide_eq_true_2.
Qed.
End dependencies.
End Dependencies.
