(* ===== verification/System.v ===== *)
(** * The control plane as a state machine

    Every store transaction is a step of the system.  Workers hold the runs
    [ClaimRuns] gave them; a completion, failure or dispatch is a transaction
    on such a run, possibly long after its lease was lost.  The theorems hold
    in every state reachable from an empty run table. *)
From Stdlib Require Import ZArith Lia Ascii String Sorted.
From stdpp Require Import base list strings relations.
From S2P Require Import Prelude GoStrings Tables Executors RunStore JobStore Scheduler History RunInvariants Capacity Dependencies.

Module System.
Import Executors RunStore JobStore Scheduler History RunInvariants Capacity Dependencies.

(** ** Operations *)

Inductive op :=
| OpEnqueueDue (batch : nat)
| OpClaimRuns (owner : string) (limit : nat) (lease : duration)
| OpCompleteRun (r : Run) (success : bool) (status : Z) (body message : string)
| OpFailRun (r : Run) (state : string) (status : Z) (message : string) (delay : option duration)
| OpMarkWaiting (r : Run) (status : Z) (token_hash : string) (deadline : time)
| OpPrepareDispatch (r : Run) (node address token_hash : string) (deadline : time)
| OpAssignExecutor (r : Run) (node address : string)
| OpActivateToken (r : Run) (token_hash : string) (deadline : time)
| OpCompleteCallback (runID token_hash : string) (succeeded : bool) (message : string)
| OpExpireCallbacks
| OpCancelRun (tenantID runID reason : string)
| OpTrigger (tenantID jobID key input : string) (override : list string)
| OpCreateJob (j : Job)
| OpUpdateJob (j : Job)
| OpSetJobEnabled (tenantID id : string) (enabled : bool) (version : Z)
| OpDeleteJob (tenantID id : string) (version : Z)
| OpRollbackScript (tenantID jobID versionID : string) (version : Z) (remark : string)
| OpSetDependencies (tenantID parentJobID : string) (children : list string)
| OpPurge (tenantID jobID : string) (before : time) (limit : nat)
| OpCleanup (retention : duration).

(** The database, and the runs workers were ever given. *)
Record sys := mk_sys { sdb : db; inflight : list Run }.

Section system.
Context `{HostLaws} `{ScheduleCalc} `{Digest} `{JobCodec}.

Definition exec (o : op) (e : env) (st : sys) : sys :=
  let s := sdb st in
  let keep {A} (m : tx A) := mk_sys (commit m e s).2 (inflight st) in
  match o with
  | OpEnqueueDue batch => keep (EnqueueDue batch)
  | OpClaimRuns owner limit lease =>
      match commit (ClaimRuns owner limit lease) e s with
      | (Ok cls, s') => mk_sys s' (inflight st ++ map cl_run cls)
      | (Err _, s') => mk_sys s' (inflight st)
      end
  | OpCompleteRun r success status body message =>
      keep (CompleteRun r success status body message)
  | OpFailRun r state status message delay => keep (FailRun r state status message delay)
  | OpMarkWaiting r status h d => keep (MarkClaimedWaitingCallback r status h d)
  | OpPrepareDispatch r node address h d => keep (PrepareClaimedExecutorDispatch r node address h d)
  | OpAssignExecutor r node address => keep (AssignClaimedRunExecutor r node address)
  | OpActivateToken r h d => keep (ActivateClaimedRunToken r h d)
  | OpCompleteCallback runID h succeeded message =>
      keep (CompleteCallback runID h succeeded message)
  | OpExpireCallbacks => keep ExpireCallbacks
  | OpCancelRun tenantID runID reason => keep (CancelRun tenantID runID reason)
  | OpTrigger tenantID jobID key input override =>
      keep (TriggerJobWithOptions tenantID jobID key input override)
  | OpCreateJob j => keep (CreateJob j)
  | OpUpdateJob j => keep (UpdateJob j)
  | OpSetJobEnabled tenantID id enabled version => keep (SetJobEnabled tenantID id enabled version)
  | OpDeleteJob tenantID id version => keep (DeleteJob tenantID id version)
  | OpRollbackScript tenantID jobID versionID version remark =>
      keep (RollbackJobScriptVersion tenantID jobID versionID version remark)
  | OpSetDependencies tenantID parentJobID children =>
      keep (SetJobDependencies tenantID parentJobID children)
  | OpPurge tenantID jobID before limit => keep (PurgeRunHistory tenantID jobID before limit)
  | OpCleanup retention => keep (CleanupAuxiliaryHistory retention)
  end.

(** A worker fills in the executor it chose before it reports on a run. *)
Definition with_executor (node address : string) (r : Run) : Run :=
  {| ID := ID r; TenantID := TenantID r; JobID := JobID r; TriggerType := TriggerType r;
     Status := Status r; RuntimeInput := RuntimeInput r; ParentRunID := ParentRunID r;
     RetryOfRunID := RetryOfRunID r; ExternalExecutionID := ExternalExecutionID r;
     ExecutorNodeID := node; ExecutorAddress := address; LeaseToken := LeaseToken r;
     BroadcastGroupID := BroadcastGroupID r; ShardIndex := ShardIndex r;
     ShardTotal := ShardTotal r; RescheduleOnTerminal := RescheduleOnTerminal r;
     OverrideAddresses := OverrideAddresses r; Attempt := Attempt r;
     ScheduledAt := ScheduledAt r; StartedAt := StartedAt r; FinishedAt := FinishedAt r;
     ResponseStatus := ResponseStatus r; ErrorMessage := ErrorMessage r |}.

Definition held (st : sys) (r : Run) : Prop :=
  ∃ r0 node address, r0 ∈ inflight st ∧ r = with_executor node address r0.

(** The runs an operation reports on were claimed. *)
Definition allowed (st : sys) (o : op) : Prop :=
  match o with
  | OpCompleteRun r _ _ _ _ | OpFailRun r _ _ _ _ | OpMarkWaiting r _ _ _
  | OpPrepareDispatch r _ _ _ _ | OpAssignExecutor r _ _ | OpActivateToken r _ _ => held st r
  | _ => True
  end.

(** What an event says; the other columns are the bookkeeping of its delivery. *)
Definition event_facts (x : event_row) :=
  (e_id x, e_tenant_id x, e_topic x, (e_run_id x, e_job_id x, e_status x, e_attempt x),
   e_trigger_type x, e_occurred_at x).

(** A transaction of another component (executor groups and routes,
    notifications, clusters, tenants): it may draw identifiers, but runs, jobs
    and dependencies are not its business, and events it only delivers. *)
Record other (s s' : db) : Prop := {
  ot_runs : job_runs s' = job_runs s;
  ot_jobs : jobs s' = jobs s;
  ot_deps : job_dependencies s' = job_dependencies s;
  ot_drawn : (uuids_drawn s ≤ uuids_drawn s')%nat;
  ot_events : ∀ ev', ev' ∈ outbox_events s' →
    ∃ ev, ev ∈ outbox_events s ∧ event_facts ev = event_facts ev';
}.

Inductive step : sys → sys → Prop :=
| step_op o e st : allowed st o → step st (exec o e st)
| step_other s' st : other (sdb st) s' → step st (mk_sys s' (inflight st)).

(** No runs, no claims, no dependencies; any tenants, jobs and executors with
    distinct job identifiers. *)
Definition initial (st : sys) : Prop :=
  job_runs (sdb st) = [] ∧ job_dependencies (sdb st) = [] ∧
  NoDup (map j_id (jobs (sdb st))) ∧ inflight st = [].

Definition reachable (st : sys) : Prop := ∃ st0, initial st0 ∧ rtc step st0 st.

(** ** Operations on jobs leave the runs alone *)

Definition job_ref (j : job_row) : string * string := (j_id j, j_tenant_id j).

Lemma job_refs_has s s' jobID tenantID :
  (∀ j, j ∈ jobs s → ∃ j', j' ∈ jobs s' ∧ job_ref j' = job_ref j) →
  has_job s jobID tenantID → has_job s' jobID tenantID.
Proof.
  intros Hj (j & Hin & Hid & Ht). destruct (Hj j Hin) as (j' & Hin' & E).
  exists j'. unfold job_ref in E. split_and!; [done|congruence|congruence].
Qed.

(** The invariant survives a change of the jobs that keeps the old ones. *)
Lemma Inv_jobs s s' :
  Inv s → job_runs s' = job_runs s → job_dependencies s' = job_dependencies s →
  (uuids_drawn s ≤ uuids_drawn s')%nat → NoDup (map j_id (jobs s')) →
  (∀ j, j ∈ jobs s → ∃ j', j' ∈ jobs s' ∧ job_ref j' = job_ref j) → Inv s'.
Proof.
  intros [G1 G2 G3 G4 G5 G6 G7] Er Ed Eu Hn Hj.
  constructor; rewrite ?Er, ?Ed; try done.
  - intros r Hr. destruct (G4 r Hr) as (A & B & C).
    assert (∀ x, drawn x s → drawn x s') by (intros x; by apply drawn_mono).
    split_and!; auto.
  - intros r Hr. eapply job_refs_has; [done|by apply G5].
  - intros d Hd. destruct (G7 d Hd). split; by eapply job_refs_has.
Qed.

Lemma Inv_jobs_update s p f :
  Inv s → (∀ j, job_ref (f j) = job_ref j) → Inv (set_jobs (sql_update p f (jobs s)) s).
Proof.
  intros Hs Hf. apply (Inv_jobs s); try done.
  - cbn. rewrite sql_update_key; [by apply Hs|]. intros j. by injection (Hf j).
  - intros j Hj. exists (if p j then f j else j). split.
    + apply elem_of_sql_update. eauto.
    + by destruct (p j).
Qed.

Definition frame (s s' : db) : Prop :=
  job_runs s' = job_runs s ∧ (uuids_drawn s ≤ uuids_drawn s')%nat ∧
  (acyclic (job_dependencies s) → acyclic (job_dependencies s')).

Definition quiet {A} (m : tx A) : Prop :=
  ∀ e s, Inv s → wp m (λ _ s', Inv s' ∧ frame s s') e s.

Lemma frame_refl s : frame s s.
Proof. done. Qed.

Lemma frame_trans s s1 s2 : frame s s1 → frame s1 s2 → frame s s2.
Proof. intros (? & ? & ?) (? & ? & ?). split_and!; [congruence|lia|auto]. Qed.

Lemma quiet_bind {A B} (m : tx A) (f : A → tx B) :
  quiet m → (∀ a, quiet (f a)) → quiet (mbind f m).
Proof.
  intros Hm Hf e s Hs. apply wp_bind. eapply wp_mono; [by apply Hm|].
  intros a s1 [Hs1 E1]. eapply wp_mono; [by apply Hf|].
  intros b s2 [Hs2 E2]. split; [done|by eapply frame_trans].
Qed.

Lemma quiet_ret {A} (a : A) : quiet (mret a).
Proof. by intros e s Hs. Qed.
Lemma quiet_fail {A} err : quiet (@fail A err).
Proof. done. Qed.
Lemma quiet_get : quiet get.
Proof. by intros e s Hs. Qed.
Lemma quiet_now : quiet now.
Proof. by intros e s Hs. Qed.
Lemma quiet_lift {A} (r : result A) : quiet (lift r).
Proof. intros e s Hs. by apply wp_lift. Qed.
Lemma quiet_new_uuid : quiet new_uuid.
Proof. intros e s Hs. apply wp_new_uuid; [done|]. intros x s' ? _ _ _ ->. split; [done|]. split_and!; [done|cbn; lia|done]. Qed.
Lemma quiet_time_now : quiet time_now.
Proof. intros e s Hs. split; [by apply (same_core_good s)|done]. Qed.

Lemma quiet_modify f : (∀ s, same_core s (f s)) → quiet (modify f).
Proof.
  intros Hf e s Hs. apply wp_modify. destruct (same_core_good s (f s) (Hf s) Hs) as [? _].
  split; [done|]. destruct (Hf s) as (E & _ & Eu & Ed). split_and!; [done|lia|by rewrite Ed].
Qed.

Lemma quiet_update_jobs p f :
  (∀ j, job_ref (f j) = job_ref j) →
  quiet (modify (λ s, set_jobs (sql_update p f (jobs s)) s)).
Proof. intros Hf e s Hs. apply wp_modify. split; [by apply Inv_jobs_update|done]. Qed.

Lemma quiet_for_each {A} (l : list A) f : (∀ x, quiet (f x)) → quiet (for_each l f).
Proof.
  intros Hf. induction l as [|x l IH]; cbn; [apply quiet_ret|].
  apply quiet_bind; [apply Hf|done].
Qed.

Create HintDb quiet.
Hint Resolve quiet_ret quiet_fail quiet_get quiet_now quiet_lift quiet_new_uuid quiet_time_now
  : quiet.

Ltac quiet_step :=
  lazymatch goal with
  | |- quiet (mbind _ _) => apply quiet_bind; [|intros ?]
  | |- quiet (if ?b then _ else _) => destruct b
  | |- quiet (match ?x with _ => _ end) => destruct x
  | |- quiet (for_each _ _) => apply quiet_for_each; intros ?
  | |- quiet (modify (λ s, set_jobs (sql_update _ _ (jobs s)) s)) => apply quiet_update_jobs
  | |- quiet _ => solve [eauto with quiet]
  end.
Ltac quiets := cbv zeta; repeat quiet_step.

Lemma quiet_insertJobScriptVersion t j lang src rem :
  quiet (insertJobScriptVersion t j lang src rem).
Proof. unfold insertJobScriptVersion. quiets. by apply quiet_modify. Qed.
Hint Resolve quiet_insertJobScriptVersion : quiet.

Lemma quiet_replaceJobExecutorLabels id req exc : quiet (replaceJobExecutorLabels id req exc).
Proof.
  unfold replaceJobExecutorLabels, insert_label. quiets; by apply quiet_modify.
Qed.
Hint Resolve quiet_replaceJobExecutorLabels : quiet.

Lemma quiet_load_job tenantID id : quiet (load_job tenantID id).
Proof. unfold load_job. quiets. Qed.
Hint Resolve quiet_load_job : quiet.

Lemma quiet_CreateJob j : quiet (CreateJob j).
Proof.
  unfold CreateJob. cbv zeta. do 5 (apply quiet_bind; [quiets|intros ?]).
  intros e s Hs. apply wp_bind, wp_get.
  set (row := mk_job _ _ _ _ _ _ _ _ _ _). destruct (_ || _) eqn:Ec; [done|].
  apply orb_false_iff in Ec as [_ Hfresh]. rewrite sql_exists_false in Hfresh.
  apply wp_bind, wp_modify.
  assert (Hs1 : Inv (set_jobs (jobs s ++ [row]) s)).
  { apply (Inv_jobs s); try done.
    - cbn. rewrite map_app. apply NoDup_app. split_and!; [apply Hs| |apply NoDup_singleton].
      intros x Hx Hy. apply list_elem_of_singleton in Hy as ->.
      apply list_elem_of_In, in_map_iff in Hx as (j' & E & Hj').
      apply list_elem_of_In in Hj'. specialize (Hfresh j' Hj'). cbn in *.
      rewrite E, String.eqb_refl in Hfresh. done.
    - intros j' Hj'. exists j'. split; [|done]. cbn. apply elem_of_app. by left. }
  match goal with |- wp ?m _ _ _ => assert (Hq : quiet m) by quiets end.
  eapply wp_mono; [by apply Hq|]. intros b s2 [Hs2 F]. split; [done|]. exact F.
Qed.

Lemma quiet_UpdateJob j : quiet (UpdateJob j).
Proof. unfold UpdateJob. quiets. done. Qed.

Lemma quiet_SetJobEnabled t id b v : quiet (SetJobEnabled t id b v).
Proof. unfold SetJobEnabled. quiets. done. Qed.

Lemma quiet_RollbackJobScriptVersion t j v n r : quiet (RollbackJobScriptVersion t j v n r).
Proof. unfold RollbackJobScriptVersion. quiets. done. Qed.

(** As many jobs as names asked for: every name is a job of the tenant. *)
Lemma count_all_jobs tenantID ids s :
  NoDup (map j_id (jobs s)) →
  sql_count (λ j, (j_tenant_id j ==s tenantID) && one_of (j_id j) ids) (jobs s) = length ids →
  ∀ id, id ∈ ids → has_job s id tenantID.
Proof.
  intros Hn Hc id Hid. set (p := λ j, _) in Hc.
  assert (Hsel : NoDup (map j_id (sql_select p (jobs s)))).
  { clear Hc Hid. induction (jobs s) as [|j l IH]; cbn; [constructor|].
    apply NoDup_cons in Hn as [Hj Hl]. unfold sql_select in *. cbn. destruct (p j); [|auto].
    cbn. apply NoDup_cons. split; [|auto]. intros Hin. apply Hj.
    apply list_elem_of_In, in_map_iff in Hin as (j' & E & Hin).
    apply filter_In in Hin as [Hin _]. rewrite <- E. by apply list_elem_of_In, in_map. }
  assert (Hin : id ∈ map j_id (sql_select p (jobs s))).
  { apply list_elem_of_In. eapply (NoDup_length_incl (l' := ids)).
    - by apply NoDup_ListNoDup.
    - rewrite length_map. unfold sql_count in Hc. lia.
    - intros x Hx. apply in_map_iff in Hx as (j & <- & Hj).
      apply list_elem_of_In, elem_of_sql_select in Hj as [Hj _]. unfold p in Hj. bool_to_prop.
      unfold one_of in *.
      match goal with E : existsb _ _ = true |- _ => apply existsb_exists in E as (y & Hy & E2) end.
      apply String.eqb_eq in E2 as ->. done.
    - by apply list_elem_of_In. }
  apply list_elem_of_In, in_map_iff in Hin as (j & <- & Hj).
  apply list_elem_of_In, elem_of_sql_select in Hj as [Hj Hin]. unfold p in Hj. bool_to_prop.
  exists j. auto.
Qed.

(** The invariant survives dependencies that only name jobs of the tenant. *)
Lemma Inv_deps s deps :
  Inv s →
  (∀ d, d ∈ deps → has_job s (d_parent_job_id d) (d_tenant_id d) ∧
                   has_job s (d_child_job_id d) (d_tenant_id d)) →
  Inv (set_job_dependencies deps s).
Proof. intros [G1 G2 G3 G4 G5 G6 G7] Hd. constructor; try done. Qed.

Lemma wp_insert_dependency tenantID parentJobID childID e s :
  Inv s → has_job s parentJobID tenantID → has_job s childID tenantID →
  wp (insert_dependency tenantID parentJobID childID)
     (λ _ s', Inv s' ∧ frame s s' ∧ jobs s' = jobs s) e s.
Proof.
  intros Hs Hp Hc. pose proof (insert_dependency_acyclic tenantID parentJobID childID e s) as Hac.
  unfold wp in Hac. unfold wp. destruct (insert_dependency _ _ _ e s) as [[[] s']|] eqn:E; [|done].
  revert E. unfold insert_dependency, mbind, tx_bind. cbn. destruct (_ ==s _); [done|].
  destruct (bool_decide _); [done|]. destruct (sql_exists _ _); [done|]. intros [= <-].
  split_and!; try done. apply Inv_deps; [done|].
  intros d [Hd| ->%list_elem_of_singleton]%elem_of_app; [by apply (inv_deps s Hs)|done].
Qed.

Lemma quiet_SetJobDependencies tenantID parentJobID children :
  quiet (SetJobDependencies tenantID parentJobID children).
Proof.
  intros e s Hs. unfold SetJobDependencies. apply wp_bind, wp_get. cbv zeta.
  destruct (negb _) eqn:Ec; [done|]. apply negb_false_iff, Nat.eqb_eq in Ec.
  pose proof (count_all_jobs tenantID (parentJobID :: children) s (inv_jobs s Hs)) as Hall.
  specialize (Hall ltac:(cbn [length]; lia)).
  apply wp_bind, wp_modify. set (s1 := set_job_dependencies _ s).
  assert (Hs1 : Inv s1).
  { apply Inv_deps; [done|]. intros d [_ Hd]%elem_of_sql_delete. by apply (inv_deps s Hs). }
  eapply wp_mono;
    [apply (wp_for_each _ _ (λ s', Inv s' ∧ frame s s' ∧ jobs s' = jobs s))|by intros a s' (? & ? & _)].
  - intros child s2 Hin (Hs2 & F2 & J2).
    assert (Hj : ∀ id, id ∈ parentJobID :: children → has_job s2 id tenantID)
      by (unfold has_job; rewrite J2; apply Hall).
    eapply wp_mono; [apply wp_insert_dependency; [done|apply Hj; by left|apply Hj; by right]|].
    intros a s3 (Hs3 & F3 & J3). split_and!; [done|by eapply frame_trans|congruence].
  - split_and!; [done| |done]. unfold frame. split_and!; [done|done|].
    apply acyclic_mono. by intros d [_ ?]%elem_of_sql_delete.
Qed.

(** ** Deletions *)

Definition shrinks (s s' : db) : Prop :=
  (∃ p, job_runs s' = sql_delete p (job_runs s)) ∧ uuids_drawn s' = uuids_drawn s.

(** Rows may go as long as no run and no dependency loses its job. *)
Lemma Inv_shrink s s' :
  Inv s → shrinks s s' → (∃ q, jobs s' = sql_delete q (jobs s)) →
  (∀ d, d ∈ job_dependencies s' → d ∈ job_dependencies s) →
  (∀ r, r ∈ job_runs s' → owned s' r) →
  (∀ d, d ∈ job_dependencies s' → has_job s' (d_parent_job_id d) (d_tenant_id d) ∧
                                  has_job s' (d_child_job_id d) (d_tenant_id d)) →
  Inv s'.
Proof.
  intros [G1 G2 G3 G4 G5 G6 G7] [[p Er] Eu] [q Ej] Hd Ho Hdj.
  assert (Hin : ∀ r, r ∈ job_runs s' → r ∈ job_runs s)
    by (intros r; rewrite Er; intros [_ ?]%elem_of_sql_delete; done).
  constructor; eauto.
  - rewrite Er. by apply NoDup_map_filter.
  - rewrite Ej. by apply NoDup_map_filter.
  - intros r Hr. destruct (G4 r (Hin r Hr)) as (A & B & C).
    assert (∀ x, drawn x s → drawn x s') by (intros x; apply drawn_mono; lia).
    split_and!; auto.
Qed.

Lemma has_job_delete s s' doomed jobID tenantID :
  jobs s' = sql_delete (λ j, doomed (j_id j)) (jobs s) → doomed jobID = false →
  has_job s jobID tenantID → has_job s' jobID tenantID.
Proof.
  intros Ej Hd (j & Hj & <- & <-). exists j. split_and!; try done.
  rewrite Ej. by apply elem_of_sql_delete.
Qed.

Lemma cascade_job_inv doomed s :
  Inv s → Inv (cascade_job doomed s) ∧ shrinks s (cascade_job doomed s).
Proof.
  intros Hs. assert (Hsh : shrinks s (cascade_job doomed s)) by (split; [by eexists|done]).
  split; [|done]. apply (Inv_shrink s); try done.
  - by eexists.
  - by intros d [_ ?]%elem_of_sql_delete.
  - intros r [Hd Hr]%elem_of_sql_delete. eapply has_job_delete; [done|done|by apply (inv_owned s Hs)].
  - intros d [Hd Hin]%elem_of_sql_delete. apply orb_false_iff in Hd as [? ?].
    destruct (inv_deps s Hs d Hin). split; by eapply has_job_delete.
Qed.

Lemma purge_runs_inv tenantID ids s :
  Inv s → Inv (purge_runs tenantID ids s) ∧ shrinks s (purge_runs tenantID ids s).
Proof.
  intros Hs. assert (Hsh : shrinks s (purge_runs tenantID ids s)) by (split; [by eexists|done]).
  split; [|done]. apply (Inv_shrink s); try done.
  - exists (λ _, false). cbn. symmetry. unfold sql_delete. cbn.
    induction (jobs s); cbn; congruence.
  - intros r [_ Hr]%elem_of_sql_delete. by apply (inv_owned s Hs).
  - by apply (inv_deps s Hs).
Qed.

(** ** Every operation *)

(** What any step does to the run table: rows evolve or disappear, new rows and
    new leases have identifiers drawn in the step. *)
Record moves (s s' : db) : Prop := {
  mv_rows : ∀ r', r' ∈ job_runs s' →
    (∃ r, r ∈ job_runs s ∧ row_evolves r r') ∨
    ∃ n, (uuids_drawn s ≤ n)%nat ∧ r_id r' = uuid n;
  mv_tokens : ∀ r' x, r' ∈ job_runs s' → r_lease_token r' = Some x →
    (∃ r, r ∈ job_runs s ∧ r_info r = r_info r' ∧ r_lease_token r = Some x) ∨
    ∃ n, (uuids_drawn s ≤ n)%nat ∧ x = uuid n;
  mv_kept : ∀ r, r ∈ job_runs s → r_active r = true →
    (∃ r', r' ∈ job_runs s' ∧ row_evolves r r') ∨
    (∀ j, j ∈ jobs s' → j_id j ≠ r_job_id r);
  mv_drawn : (uuids_drawn s ≤ uuids_drawn s')%nat;
  mv_acyclic : acyclic (job_dependencies s) → acyclic (job_dependencies s');
}.

Lemma moves_subset s s' :
  (∀ r, r ∈ job_runs s' → r ∈ job_runs s) →
  (∀ r, r ∈ job_runs s → r_active r = true →
     r ∈ job_runs s' ∨ ∀ j, j ∈ jobs s' → j_id j ≠ r_job_id r) →
  (uuids_drawn s ≤ uuids_drawn s')%nat →
  (acyclic (job_dependencies s) → acyclic (job_dependencies s')) → moves s s'.
Proof.
  intros Hr Hk Hd Hac. constructor; [| | |done|done].
  - intros r' Hr'. left. exists r'. split; [auto|apply rtc_refl].
  - intros r' x Hr' Hx. left. eauto.
  - intros r Hin Ha. destruct (Hk r Hin Ha) as [?|?]; [left|by right].
    exists r. split; [done|apply rtc_refl].
Qed.

Lemma moves_refl s : moves s s.
Proof. apply moves_subset; auto. Qed.

Lemma evo_moves s s' : evo [] s s' → moves s s'.
Proof.
  intros [R I T D _ Edeps]. constructor; [| |by left; apply R|done|by rewrite Edeps].
  - intros r' Hr'. destruct (I r' Hr') as [?|[?%elem_of_nil|(n & Hn & E)]]; [auto|done|].
    right. exists n. split; [lia|done].
  - intros r' x Hr' Hx. destruct (T r' x Hr' Hx) as [?|[?%elem_of_nil|(n & Hn & E)]]; [auto|done|].
    right. exists n. split; [lia|done].
Qed.

Lemma commit_wp {A} (m : tx A) (P : db → Prop) e s :
  wp m (λ _ s', P s') e s → P s → P (commit m e s).2.
Proof. unfold wp, commit. by destruct (m e s) as [[a s']|]. Qed.

Lemma commit_good {A} (m : tx A) e s :
  good [] m → Inv s → Inv (commit m e s).2 ∧ moves s (commit m e s).2.
Proof.
  intros Hm Hs. apply (commit_wp m (λ s', Inv s' ∧ moves s s')); [|split; [done|apply moves_refl]].
  eapply wp_mono; [by apply Hm|]. intros a s' [? ?]. split; [done|by apply evo_moves].
Qed.

Lemma commit_quiet {A} (m : tx A) e s :
  quiet m → Inv s → Inv (commit m e s).2 ∧ moves s (commit m e s).2.
Proof.
  intros Hm Hs. apply (commit_wp m (λ s', Inv s' ∧ moves s s')); [|split; [done|apply moves_refl]].
  eapply wp_mono; [by apply Hm|]. intros a s' [? (E & ? & ?)]. split; [done|].
  apply moves_subset; rewrite ?E; auto.
Qed.

Lemma commit_DeleteJob tenantID id version e s :
  Inv s → Inv (commit (DeleteJob tenantID id version) e s).2 ∧
          moves s (commit (DeleteJob tenantID id version) e s).2.
Proof.
  intros Hs. unfold DeleteJob, commit, mbind, tx_bind; cbn.
  destruct (sql_exists _ _); cbn; [|split; [done|apply moves_refl]].
  destruct (cascade_job_inv (String.eqb id) s Hs) as [HI _]. split; [done|].
  apply moves_subset; [by intros r [_ ?]%elem_of_sql_delete| |done|
    apply acyclic_mono; by intros d [_ ?]%elem_of_sql_delete]. intros r Hr _.
  destruct (id ==s r_job_id r) eqn:E; [right|left; by apply elem_of_sql_delete].
  intros j [Hj _]%elem_of_sql_delete Ej. rewrite Ej in Hj. congruence.
Qed.

Lemma commit_Purge tenantID jobID before limit e s :
  Inv s → Inv (commit (PurgeRunHistory tenantID jobID before limit) e s).2 ∧
          moves s (commit (PurgeRunHistory tenantID jobID before limit) e s).2.
Proof.
  intros Hs. unfold PurgeRunHistory, commit, mbind, tx_bind; cbn.
  destruct (purge_ids _ _ _ _ _ _) as [|i ids] eqn:Ep; cbn; [split; [done|apply moves_refl]|].
  destruct (purge_runs_inv tenantID (i :: ids) s Hs) as [HI _]. split; [done|].
  apply moves_subset; [by intros r [_ ?]%elem_of_sql_delete| |done|done]. intros r Hr Ha. left.
  apply elem_of_sql_delete. split; [|done].
  destruct (one_of (r_id r) (i :: ids)) eqn:Eo; [|apply andb_false_r]. exfalso.
  apply one_of_true in Eo. rewrite <- Ep in Eo.
  apply elem_of_purge_ids in Eo as (r0 & Hr0 & Eid & Hp).
  assert (r0 = r) as -> by (eapply (NoDup_key_inj r_id); [apply (inv_ids s Hs)|done..]).
  unfold purgeable, terminal in Hp. unfold r_active in Ha. rewrite Ha, andb_false_r in Hp. done.
Qed.

Lemma quiet_CleanupAuxiliaryHistory retention : quiet (CleanupAuxiliaryHistory retention).
Proof.
  unfold CleanupAuxiliaryHistory. apply quiet_bind; [auto with quiet|intros t].
  apply quiet_bind; [by intros e s Hs|intros locks]. cbv zeta.
  repeat (apply quiet_bind; [by apply quiet_modify|intros ?]). by apply quiet_modify.
Qed.

(** ** The claims of workers *)

Definition claims_ok (st : sys) : Prop :=
  ∀ r, r ∈ inflight st → drawn (LeaseToken r) (sdb st) ∧ claim_ok (sdb st) r.

Lemma claim_ok_executor s node address r : claim_ok s r → claim_ok s (with_executor node address r).
Proof. intros Hc row Hrow Hl. exact (Hc row Hrow Hl). Qed.

Lemma held_claim_ok st r : claims_ok st → held st r → claim_ok (sdb st) r.
Proof.
  intros Hc (r0 & node & address & Hin & ->). apply claim_ok_executor. by apply Hc.
Qed.

Lemma lease_implies_running s row x :
  Inv s → row ∈ job_runs s → r_lease_token row = Some x → r_status row = Running.
Proof.
  intros Hs Hrow Hx. destruct (inv_wf s Hs row Hrow) as [Hn _].
  destruct (decide (r_status row = Running)) as [|Hr]; [done|].
  destruct (Hn Hr) as (_ & E & _). congruence.
Qed.

(** A lease a run carries after a step it carried before. *)
Lemma holds_lease_back s s' r row :
  Inv s → moves s s' → drawn (LeaseToken r) s → row ∈ job_runs s' → holds_lease r row = true →
  ∃ row0, row0 ∈ job_runs s ∧ r_info row0 = r_info row ∧ holds_lease r row0 = true.
Proof.
  intros Hs Hm (n & Hn & En) Hrow (Hid & Hst & Ht)%holds_lease_true.
  destruct (mv_tokens _ _ Hm row _ Hrow Ht) as [(row0 & Hr0 & Ei & Ht0)|(k & Hk & Ek)].
  - exists row0. split_and!; try done. apply holds_lease_true. split_and!; try done.
    + unfold r_id in *. congruence.
    + by eapply lease_implies_running.
  - rewrite En in Ek. apply uuid_inj in Ek. lia.
Qed.

Lemma claim_ok_moves s s' r :
  Inv s → moves s s' → drawn (LeaseToken r) s → claim_ok s r → claim_ok s' r.
Proof.
  intros Hs Hm Hd Hc row Hrow Hl.
  destruct (holds_lease_back s s' r row) as (row0 & Hr0 & Ei & Hl0); try done.
  eapply describes_info; [exact Ei|]. by apply Hc.
Qed.

(** What a claim hands out. *)
Lemma wp_claim_one owner lease c e s :
  Inv s →
  wp (claim_one owner lease c)
     (λ x s', Inv s' ∧ evo [] s s' ∧ drawn (LeaseToken (cl_run x)) s' ∧
              describes (cl_run x) (cd_run c)) e s.
Proof.
  intros Hs. pose proof (good_claim_one owner lease c e s Hs) as Hg.
  unfold wp in *. destruct (claim_one owner lease c e s) as [[x s']|] eqn:E; [|done].
  apply claim_one_effect in E as (_ & _ & -> & Hd). destruct Hg as [HI HE].
  split_and!; try done. by exists (uuids_drawn s).
Qed.

Lemma wp_claim_all owner lease cs e s :
  Inv s →
  wp (claim_all owner lease cs)
     (λ xs s', Inv s' ∧ evo [] s s' ∧ ∀ x, x ∈ xs →
        drawn (LeaseToken (cl_run x)) s' ∧ ∃ c, c ∈ cs ∧ describes (cl_run x) (cd_run c)) e s.
Proof.
  revert s. induction cs as [|c cs IH]; intros s Hs; cbn [claim_all].
  { apply wp_ret. split_and!; [done|apply evo_refl|]. by intros x ?%elem_of_nil. }
  apply wp_bind. eapply wp_mono; [by apply wp_claim_one|].
  intros x s1 (Hs1 & E1 & D1 & C1). apply wp_bind. eapply wp_mono; [by apply IH|].
  intros xs s2 (Hs2 & E2 & D2). apply wp_ret.
  split_and!; [done|exact (evo_trans _ _ _ _ _ E1 E2)|].
  intros y [->|Hy]%elem_of_cons.
  - split; [eapply drawn_mono; [|exact D1]; apply E2|]. exists c. split; [left|done].
  - destruct (D2 y Hy) as (? & c' & ? & ?). split; [done|]. exists c'. split; [by right|done].
Qed.

(** A [Run] that describes a row describes it in later states. *)
Lemma claim_ok_from X s s' r row :
  Inv s' → evo X s s' → row ∈ job_runs s → describes r row → claim_ok s' r.
Proof.
  intros Hs' E Hrow Hd row' Hrow' (Hid & _ & _)%holds_lease_true.
  destruct (evo_rows _ _ _ E row Hrow) as (row1 & Hrow1 & Ev).
  assert (row' = row1) as ->.
  { eapply (NoDup_key_inj r_id); [apply (inv_ids s' Hs')|done|done|].
    rewrite <- (row_evolves_id _ _ Ev), Hid. apply Hd. }
  eapply describes_info; [by apply row_evolves_info|done].
Qed.

Lemma ClaimRuns_spec owner limit lease e s cls s' :
  Inv s → ClaimRuns owner limit lease e s = Ok (cls, s') →
  Inv s' ∧ evo [] s s' ∧ ∀ x, x ∈ cls → drawn (LeaseToken (cl_run x)) s' ∧ claim_ok s' (cl_run x).
Proof.
  intros Hs Hc.
  pose proof (wp_claim_all owner lease (eligible (tx_now e) (tx_locked e) limit s) e s Hs) as Hw.
  unfold ClaimRuns, mbind, tx_bind in Hc. cbn in Hc. unfold wp in Hw. rewrite Hc in Hw.
  destruct Hw as (Hs' & E & Hx). split_and!; [done|done|]. intros x Hin.
  destruct (Hx x Hin) as (Hd & c & Hce & Hdes). split; [done|].
  eapply claim_ok_from; [done|exact E| |exact Hdes]. by eapply eligible_run.
Qed.

(** ** The invariant of the system *)

Definition SInv (st : sys) : Prop := Inv (sdb st) ∧ claims_ok st.

Lemma claims_ok_moves st s' :
  SInv st → moves (sdb st) s' → claims_ok (mk_sys s' (inflight st)).
Proof.
  intros [Hs Hc] Hm r Hr. destruct (Hc r Hr) as [Hd Hok]. cbn in *. split.
  - eapply drawn_mono; [|exact Hd]. apply Hm.
  - by eapply claim_ok_moves.
Qed.

Lemma exec_db o e st :
  SInv st → allowed st o → Inv (sdb (exec o e st)) ∧ moves (sdb st) (sdb (exec o e st)).
Proof.
  intros [Hs Hc] Ha.
  destruct o; cbn [exec sdb]; cbn in Ha.
  - apply commit_good; [apply good_EnqueueDue|done].
  - destruct (commit _ e (sdb st)) as [[cls|err] s'] eqn:Ecl; cbn [sdb];
      (replace s' with (commit (ClaimRuns owner limit lease) e (sdb st)).2 by (by rewrite Ecl));
      (apply commit_good; [apply good_ClaimRuns|done]).
  - apply commit_good; [apply good_CompleteRun|done].
  - apply (commit_wp _ (λ s', Inv s' ∧ moves (sdb st) s')); [|split; [done|apply moves_refl]].
    eapply wp_mono; [apply wp_FailRun; [done|by apply held_claim_ok]|].
    intros a s' [? ?]. split; [done|by apply evo_moves].
  - apply commit_good; [apply good_MarkClaimedWaitingCallback|done].
  - apply commit_good; [apply good_PrepareClaimedExecutorDispatch|done].
  - apply commit_good; [apply good_AssignClaimedRunExecutor|done].
  - apply commit_good; [apply good_ActivateClaimedRunToken|done].
  - apply commit_good; [apply good_CompleteCallback|done].
  - apply commit_good; [apply good_ExpireCallbacks|done].
  - apply commit_good; [apply good_CancelRun|done].
  - apply commit_good; [apply good_TriggerJobWithOptions|done].
  - apply commit_quiet; [apply quiet_CreateJob|done].
  - apply commit_quiet; [apply quiet_UpdateJob|done].
  - apply commit_quiet; [apply quiet_SetJobEnabled|done].
  - by apply commit_DeleteJob.
  - apply commit_quiet; [apply quiet_RollbackJobScriptVersion|done].
  - apply commit_quiet; [apply quiet_SetJobDependencies|done].
  - by apply commit_Purge.
  - apply commit_quiet; [apply quiet_CleanupAuxiliaryHistory|done].
Qed.

Lemma exec_inflight o e st :
  inflight (exec o e st) = inflight st ∨
  ∃ owner limit lease cls s', o = OpClaimRuns owner limit lease ∧
    ClaimRuns owner limit lease e (sdb st) = Ok (cls, s') ∧
    exec o e st = mk_sys s' (inflight st ++ map cl_run cls).
Proof.
  destruct o; try by left. cbn [exec]. unfold commit.
  destruct (ClaimRuns _ _ _ _ _) as [[cls s']|err] eqn:E; [right|by left].
  by exists owner, limit, lease, cls, s'.
Qed.

Lemma other_SInv st s' :
  SInv st → other (sdb st) s' → SInv (mk_sys s' (inflight st)) ∧ moves (sdb st) s'.
Proof.
  intros Hst [Er Ej Ed Eu _].
  assert (Hm : moves (sdb st) s').
  { apply moves_subset; rewrite ?Er, ?Ed; auto. }
  split; [split; [|by apply claims_ok_moves]|done].
  apply (Inv_jobs (sdb st)); cbn [sdb]; rewrite ?Ej;
    [apply Hst|done|done|done|apply inv_jobs, Hst|].
  intros j Hj. by exists j.
Qed.

Lemma step_SInv st st' : SInv st → step st st' → SInv st' ∧ moves (sdb st) (sdb st').
Proof.
  intros Hst Hstep. revert Hst. destruct Hstep as [o e st0 Ha|s' st0 Ho]; intros Hst;
    [|by apply other_SInv].
  destruct (exec_db o e st0 Hst Ha) as [Hs' Hm].
  split; [|done]. split; [done|].
  destruct (exec_inflight o e st0) as [Ei|(owner & limit & lease & cls & s' & -> & Ec & Ee)].
  - pose proof (claims_ok_moves _ _ Hst Hm) as Hc. unfold claims_ok in *. by rewrite Ei.
  - destruct (ClaimRuns_spec _ _ _ _ _ _ _ (proj1 Hst) Ec) as (_ & _ & Hx).
    rewrite Ee in *. cbn in Hm. pose proof (claims_ok_moves _ _ Hst Hm) as Hc.
    intros r Hr. cbn in *. apply elem_of_app in Hr as [Hr|Hr]; [by apply (Hc r)|].
    apply list_elem_of_In, in_map_iff in Hr as (x & <- & Hin).
    apply Hx. by apply list_elem_of_In.
Qed.

Lemma initial_SInv st : initial st → SInv st.
Proof.
  intros (Er & Ed & Hn & Ei). split.
  - constructor; rewrite ?Er, ?Ed; try done; [constructor| | | | |];
      intros; exfalso; by eapply not_elem_of_nil.
  - intros r. rewrite Ei. by intros ?%elem_of_nil.
Qed.

Lemma reachable_SInv st : reachable st → SInv st.
Proof.
  intros (st0 & Hi & Hst). apply initial_SInv in Hi.
  induction Hst as [|st0 st1 st2 Hstep _ IH]; [done|]. apply IH.
  by apply (step_SInv st0 st1).
Qed.

(** ** Theorems *)

(** Rows with the identifier of an old row evolved from it. *)
Lemma moves_same_id s s' r r' :
  Inv s → moves s s' → r ∈ job_runs s → r' ∈ job_runs s' → r_id r' = r_id r → row_evolves r r'.
Proof.
  intros Hs Hm Hr Hr' E. destruct (mv_rows _ _ Hm r' Hr') as [(r0 & Hr0 & Ev)|(n & Hn & En)].
  - assert (r0 = r) as <-; [|done].
    eapply (NoDup_key_inj r_id); [apply (inv_ids s Hs)|done|done|].
    by rewrite (row_evolves_id _ _ Ev).
  - destruct (inv_drawn s Hs r Hr) as ((k & Hk & Ek) & _).
    rewrite En, Ek in E. apply uuid_inj in E. lia.
Qed.

Lemma steps_SInv st st' : SInv st → rtc step st st' → SInv st'.
Proof.
  intros Hst Hsteps. induction Hsteps as [|st0 st1 st2 Hstep _ IH]; [done|].
  apply IH. by apply (step_SInv st0 st1).
Qed.

Lemma steps_drawn st st' :
  SInv st → rtc step st st' → (uuids_drawn (sdb st) ≤ uuids_drawn (sdb st'))%nat.
Proof.
  intros Hst Hsteps. induction Hsteps as [|st0 st1 st2 Hstep _ IH]; [done|].
  destruct (step_SInv _ _ Hst Hstep) as [Hst1 Hm]. pose proof (mv_drawn _ _ Hm).
  specialize (IH Hst1). lia.
Qed.

Lemma steps_same_id st st' r r' :
  SInv st → rtc step st st' → r ∈ job_runs (sdb st) → r' ∈ job_runs (sdb st') →
  r_id r' = r_id r → row_evolves r r'.
Proof.
  intros Hst Hsteps Hr. revert r'. revert st' Hsteps.
  apply (rtc_ind_r (λ st', ∀ r', r' ∈ job_runs (sdb st') → r_id r' = r_id r → row_evolves r r')).
  - intros r' Hr' E.
    assert (r' = r) as -> by (eapply (NoDup_key_inj r_id); [apply Hst|done..]). apply rtc_refl.
  - intros st1 st2 Hsteps Hstep IH r' Hr' E.
    destruct (step_SInv _ _ (steps_SInv _ _ Hst Hsteps) Hstep) as [_ Hm].
    destruct (mv_rows _ _ Hm r' Hr') as [(r1 & Hr1 & Ev)|(n & Hn & En)].
    + unfold row_evolves. etrans; [apply IH; [done|]|exact Ev].
      by rewrite (row_evolves_id _ _ Ev).
    + exfalso. destruct (inv_drawn _ (proj1 Hst) r Hr) as ((k & Hk & Ek) & _).
      pose proof (steps_drawn _ _ Hst Hsteps).
      rewrite En, Ek in E. apply uuid_inj in E. lia.
Qed.

(** C26: in every reachable state run identifiers are unique, every run is
    well formed (only running runs hold a lease, only waiting runs and running
    ones a callback token, exactly the finished ones an end time, only claimed
    ones a start time) and belongs to an existing job of its tenant, and all
    shards of a broadcast belong to one job. *)
Theorem reachable_well_formed st :
  reachable st →
  NoDup (map r_id (job_runs (sdb st))) ∧
  (∀ r, r ∈ job_runs (sdb st) → run_wf r ∧ has_job (sdb st) (r_job_id r) (r_tenant_id r)) ∧
  (∀ a b g, a ∈ job_runs (sdb st) → b ∈ job_runs (sdb st) →
     r_broadcast_group_id a = Some g → r_broadcast_group_id b = Some g →
     r_job_id a = r_job_id b).
Proof.
  intros [Hs _]%reachable_SInv. split_and!; [apply Hs| |apply Hs].
  intros r Hr. split; [by apply (inv_wf _ Hs)|by apply (inv_owned _ Hs)].
Qed.

(** C1: along every execution a run only makes the transitions pending to
    running or cancelled; running to running (a new claim), waiting_callback,
    succeeded, failed, timed_out or cancelled; waiting_callback to succeeded,
    failed, timed_out or cancelled; and its identity (job, tenant, attempt,
    schedule, broadcast shard, overrides) never changes. *)
Theorem run_follows_lifecycle st st' r r' :
  reachable st → rtc step st st' →
  r ∈ job_runs (sdb st) → r' ∈ job_runs (sdb st') → r_id r' = r_id r →
  r_info r' = r_info r ∧ rtc (λ a b, may_become a b = true) (r_status r) (r_status r').
Proof.
  intros Hst%reachable_SInv Hsteps Hr Hr' E.
  pose proof (steps_same_id _ _ _ _ Hst Hsteps Hr Hr' E) as Hev.
  split; [symmetry; by apply row_evolves_info|].
  clear -Hev. induction Hev as [|a b c [_ Hm] _ IH]; [apply rtc_refl|]. by eapply rtc_l.
Qed.

Lemma finished_final st st' r r' :
  SInv st → rtc step st st' →
  r ∈ job_runs (sdb st) → r' ∈ job_runs (sdb st') → r_id r' = r_id r →
  terminal (r_status r) = true → r' = r.
Proof. intros. eapply row_evolves_terminal; [by eapply steps_same_id|done]. Qed.

(** A finished run (succeeded, failed, timed out, cancelled or skipped) is
    never changed again: no later transaction rewrites any of its columns. *)
Theorem finished_run_is_final st st' r r' :
  reachable st → rtc step st st' →
  r ∈ job_runs (sdb st) → r' ∈ job_runs (sdb st') → r_id r' = r_id r →
  terminal (r_status r) = true → r' = r.
Proof.
  intros Hst%reachable_SInv. by apply finished_final.
Qed.

(** A run that is not finished never disappears, unless its job is
    deleted; history retention only removes finished runs. *)
Theorem active_run_is_kept st st' r :
  reachable st → step st st' → r ∈ job_runs (sdb st) → r_active r = true →
  (∃ r', r' ∈ job_runs (sdb st') ∧ r_id r' = r_id r) ∨
  (∀ j, j ∈ jobs (sdb st') → j_id j ≠ r_job_id r).
Proof.
  intros Hst%reachable_SInv Hstep Hr Ha. destruct (step_SInv _ _ Hst Hstep) as [_ Hm].
  destruct (mv_kept _ _ Hm r Hr Ha) as [(r' & Hr' & Ev)|?]; [left|by right].
  exists r'. split; [done|]. symmetry. by apply row_evolves_id.
Qed.

(** *** Leases fence out workers that lost them *)

Definition lease_lost (r : Run) (s : db) : Prop :=
  ∀ row, row ∈ job_runs s → holds_lease r row = false.

Lemma lease_lost_moves s s' r :
  Inv s → moves s s' → drawn (LeaseToken r) s → lease_lost r s → lease_lost r s'.
Proof.
  intros Hs Hm Hd Hl row Hrow. destruct (holds_lease r row) eqn:E; [|done].
  destruct (holds_lease_back s s' r row) as (row0 & Hr0 & _ & Hl0); try done.
  by rewrite Hl in Hl0.
Qed.

Lemma lease_lost_steps st st' r :
  SInv st → drawn (LeaseToken r) (sdb st) → rtc step st st' →
  lease_lost r (sdb st) → lease_lost r (sdb st').
Proof.
  intros Hst Hd Hsteps. induction Hsteps as [|st0 st1 st2 Hstep _ IH]; [done|]. intros Hl.
  destruct (step_SInv _ _ Hst Hstep) as [Hst1 Hm]. apply IH; [done| |].
  - eapply drawn_mono; [|exact Hd]. apply Hm.
  - eapply lease_lost_moves; [apply Hst|done..].
Qed.

(** Without the lease, reports on a run are refused and change nothing. *)
Lemma lost_update {A} r f (k : list run_row → tx A) e s :
  lease_lost r s →
  (updated ← update_runs (holds_lease r) f; k updated) e s
  = k [] e (set_job_runs (sql_update (holds_lease r) f (job_runs s)) s).
Proof.
  intros Hl. unfold update_runs, mbind, tx_bind. cbn -[sql_select].
  by rewrite (sql_select_none _ _ Hl).
Qed.

Lemma lost_complete r success status body msg e s :
  lease_lost r s → CompleteRun r success status body msg e s = Err ErrConflict.
Proof.
  intros Hl. unfold CompleteRun. unfold mbind at 1, tx_bind at 1, lift, requireRunLease.
  destruct ((ID r ==s _) || _); [done|]. unfold mbind at 1, tx_bind at 1, now.
  by rewrite lost_update.
Qed.

Lemma lost_fail r st status msg delay e s :
  failure_state st ≠ None → lease_lost r s → FailRun r st status msg delay e s = Err ErrConflict.
Proof.
  intros Hst Hl. unfold FailRun. destruct (failure_state st); [|done].
  unfold mbind at 1, tx_bind at 1, lift, requireRunLease.
  destruct ((ID r ==s _) || _); [done|]. unfold mbind at 1, tx_bind at 1, now.
  by rewrite lost_update.
Qed.

Lemma lost_prepare r node addr h d e s :
  lease_lost r s → PrepareClaimedExecutorDispatch r node addr h d e s = Err ErrConflict.
Proof.
  intros Hl. unfold PrepareClaimedExecutorDispatch. unfold mbind at 1, tx_bind at 1, lift, requireRunLease.
  destruct ((ID r ==s _) || _); [done|]. unfold update_one. unfold mbind at 1, tx_bind at 1.
  by rewrite lost_update.
Qed.

(** C8: a worker that lost its lease (the run was claimed again, finished,
    cancelled or purged) never gets it back: whatever happens afterwards, its
    completion, its failure report and its dispatch are refused with a
    conflict and leave the database unchanged. *)
Theorem lost_lease_is_fenced st st' r e :
  reachable st → rtc step st st' → held st r → lease_lost r (sdb st) →
  (∀ success status body msg,
     commit (CompleteRun r success status body msg) e (sdb st') = (Err ErrConflict, sdb st')) ∧
  (∀ status msg delay,
     commit (FailRun r "failed" status msg delay) e (sdb st') = (Err ErrConflict, sdb st')) ∧
  (∀ node addr h d,
     commit (PrepareClaimedExecutorDispatch r node addr h d) e (sdb st')
     = (Err ErrConflict, sdb st')).
Proof.
  intros Hst%reachable_SInv Hsteps Hh Hl.
  assert (Hd : drawn (LeaseToken r) (sdb st)).
  { destruct Hh as (r0 & node & addr & Hin & ->). by apply (proj2 Hst r0). }
  pose proof (lease_lost_steps _ _ _ Hst Hd Hsteps Hl) as Hl'. unfold commit. split_and!; intros.
  - by rewrite lost_complete.
  - by rewrite lost_fail.
  - by rewrite lost_prepare.
Qed.


Lemma finished_lost st st' r row :
  SInv st → rtc step st st' → row ∈ job_runs (sdb st) → r_id row = ID r →
  terminal (r_status row) = true → lease_lost r (sdb st').
Proof.
  intros Hst Hsteps Hrow Hid Ht row' Hrow'. destruct (holds_lease r row') eqn:E; [|done].
  apply holds_lease_true in E as (Ei & Es & _).
  assert (Hev : row_evolves row row') by (eapply steps_same_id; [done..|congruence]).
  apply row_evolves_terminal in Hev; [|done]. subst row'. by rewrite Es in Ht.
Qed.

(** *** Reports on a run *)

(** Who says that a run ended: the worker that claimed it, with the outcome
    of a request or with a failure, or the executor through its callback. *)
Inductive report :=
| Completed (r : Run) (success : bool) (status : Z) (body message : string)
| Failure (r : Run) (state : string) (status : Z) (message : string) (delay : option duration)
| Callback (runID token_hash : string) (succeeded : bool) (message : string).

Definition report_run (c : report) : string :=
  match c with
  | Completed r _ _ _ _ | Failure r _ _ _ _ => ID r
  | Callback runID _ _ _ => runID
  end.

Definition report_op (c : report) : op :=
  match c with
  | Completed r success status body message => OpCompleteRun r success status body message
  | Failure r state status message delay => OpFailRun r state status message delay
  | Callback runID h succeeded message => OpCompleteCallback runID h succeeded message
  end.

(** The transaction of a report; that of a failure also returns the retry. *)
Definition report_tx (c : report) : tx unit :=
  match c with
  | Completed r success status body message => CompleteRun r success status body message
  | Failure r state status message delay =>
      _ ← FailRun r state status message delay; mret tt
  | Callback runID h succeeded message => CompleteCallback runID h succeeded message
  end.

(** The answer to a report on a run that has ended. *)
Definition report_refusal (c : report) : error :=
  match c with
  | Completed _ _ _ _ _ => ErrConflict
  | Failure _ state _ _ _ =>
      match failure_state state with Some _ => ErrConflict | None => ErrMsg "invalid failure state" end
  | Callback _ _ _ _ => ErrNotFound
  end.

Lemma report_finishes st c e s1 :
  SInv st → allowed st (report_op c) → report_tx c e (sdb st) = Ok (tt, s1) →
  finished (report_run c) s1 ∧ exec (report_op c) e st = mk_sys s1 (inflight st).
Proof.
  intros Hst Ha Hc. destruct c as [r success status body m|r state status m delay|runID h succeeded m];
    cbn [report_tx report_run report_op exec] in *.
  - split; [by eapply complete_finishes; [apply Hst|]|]. unfold commit. by rewrite Hc.
  - unfold commit. unfold mbind, tx_bind in Hc.
    destruct (FailRun r state status m delay e (sdb st)) as [[o s2]|] eqn:E; [|done].
    injection Hc as <-. split; [|done]. eapply fail_finishes; [apply Hst| |exact E].
    apply held_claim_ok; [apply Hst|exact Ha].
  - split; [by eapply callback_finishes; [apply Hst|]|]. unfold commit. by rewrite Hc.
Qed.

(** A callback finds no run that waits for it. *)
Lemma closed_callback runID h succeeded msg e s :
  (∀ row, row ∈ job_runs s → callback_open runID h (tx_now e) row = false) →
  CompleteCallback runID h succeeded msg e s = Err ErrNotFound.
Proof.
  intros Hn. unfold CompleteCallback, update_runs, mbind, tx_bind, now, get. cbn -[sql_select].
  by rewrite (sql_select_none _ _ Hn).
Qed.

(** C2: a run is completed at most once.  As soon as a worker's completion, a
    worker's failure report or an executor's callback on a run was accepted,
    every further report on that run, of any of the three kinds and whoever
    sends it after any further transactions, is refused and changes nothing:
    a worker's with a conflict, a callback's as not found. *)
Theorem run_completes_once st st' c c' e e' s1 :
  reachable st → allowed st (report_op c) →
  report_tx c e (sdb st) = Ok (tt, s1) →
  rtc step (mk_sys s1 (inflight st)) st' →
  report_run c' = report_run c →
  commit (report_tx c') e' (sdb st') = (Err (report_refusal c'), sdb st').
Proof.
  intros Hst%reachable_SInv Ha Hc Hsteps Eid.
  destruct (report_finishes _ _ _ _ Hst Ha Hc) as [(row & Hrow & Hid & Ht) Hex].
  assert (Hst1 : SInv (mk_sys s1 (inflight st))).
  { rewrite <- Hex. exact (proj1 (step_SInv _ _ Hst (step_op _ e _ Ha))). }
  unfold commit. destruct c' as [r success status body m|r state status m delay|runID h succeeded m];
    cbn [report_tx report_run report_refusal] in *.
  - rewrite lost_complete; [done|]. eapply finished_lost; [exact Hst1|exact Hsteps|exact Hrow|congruence|done].
  - unfold mbind, tx_bind. destruct (failure_state state) eqn:Es.
    + rewrite lost_fail; [done|by rewrite Es|].
      eapply finished_lost; [exact Hst1|exact Hsteps|exact Hrow|congruence|done].
    + unfold FailRun. by rewrite Es.
  - rewrite closed_callback; [done|]. intros row' Hrow'.
    destruct (callback_open _ _ _ _) eqn:E; [|done].
    pose proof (callback_open_waiting _ _ _ _ E) as Hw. unfold callback_open, run_has in E. bool_to_prop.
    assert (row' = row) as ->; [|by rewrite Hw in Ht].
    eapply finished_final; [exact Hst1|exact Hsteps|exact Hrow|exact Hrow'|congruence|exact Ht].
Qed.

(** C27: as long as the transactions that set dependencies do not overlap, the
    dependency graph of jobs never has a cycle, whatever sequence of transactions
    built it.  ([SetJobDependencies] takes no lock that excludes another one: at
    READ COMMITTED two that overlap can close a cycle together.) *)
Theorem dependencies_acyclic st : reachable st → acyclic (job_dependencies (sdb st)).
Proof.
  intros (st0 & Hi & Hsteps). pose proof (initial_SInv _ Hi) as Hst.
  destruct Hi as (_ & Ed & _).
  assert (Ha : acyclic (job_dependencies (sdb st0))).
  { rewrite Ed. intros x Hx.
    inversion Hx as [? ? (d & Hd & _)|? ? ? (d & Hd & _) _]; by apply elem_of_nil in Hd. }
  clear Ed. induction Hsteps as [|s0 s1 s2 Hstep _ IH]; [done|].
  destruct (step_SInv _ _ Hst Hstep) as [Hst1 Hm]. apply IH; [done|].
  by apply (mv_acyclic _ _ Hm).
Qed.
End system.
End System.
