(* ===== verification/Components.v ===== *)
(** * The transactions of the other components

    The scheduler's theorems allow any interleaving with transactions that
    satisfy [System.other].  This file shows that the transactions of the
    executor store, of the notification store, of the command queue and of the
    run logs do. *)
From Stdlib Require Import ZArith Lia Ascii String.
From stdpp Require Import base list strings relations.
From S2P Require Import Prelude GoStrings Tables GoUrl Utf8 Executors RunStore JobStore Clusters Scheduler Routing ExecutorStore Notifications ExecutorCommands RunLogs System.

Module Components.
Import Executors RunStore JobStore Clusters Scheduler Routing ExecutorStore Notifications ExecutorCommands RunLogs System.

#[export] Instance other_preorder : PreOrder other.
Proof.
  split.
  - intros s. constructor; try done. intros ev ?. eauto.
  - intros s0 s1 s2 [A1 A2 A3 A4 A5] [B1 B2 B3 B4 B5]. constructor; [congruence..|lia|].
    intros ev2 H2. destruct (B5 ev2 H2) as (ev1 & H1 & E1). destruct (A5 ev1 H1) as (ev0 & H0 & E0).
    exists ev0. split; [done|congruence].
Qed.

Lemma other_frame s s' :
  job_runs s' = job_runs s → jobs s' = jobs s → job_dependencies s' = job_dependencies s →
  outbox_events s' = outbox_events s → (uuids_drawn s ≤ uuids_drawn s')%nat → other s s'.
Proof. intros Er Ej Ed Eo Eu. constructor; try done. rewrite Eo. eauto. Qed.

Lemma other_events (p : event_row → bool) f s :
  (∀ x, event_facts (f x) = event_facts x) →
  other s (set_outbox_events (sql_update p f (outbox_events s)) s).
Proof.
  intros Hf. constructor; try done. cbn. intros ev' (ev & Hev & ->)%elem_of_sql_update.
  exists ev. split; [done|]. by destruct (p ev).
Qed.

(** The transactions of the other components. *)
Inductive cop :=
| CopCreateGroup (g : ExecutorGroup)
| CopUpdateGroup (g : ExecutorGroup)
| CopDeleteGroup (tenantID groupID : string) (version : Z)
| CopRegisterNode (tenantID groupID nodeID address : string) (ttl : duration) (labels : list string)
| CopUnregisterNode (tenantID groupID nodeID : string)
| CopReserveRoute (tenantID groupID jobID : string) (selector : ExecutorSelector)
| CopReserveOverride (tenantID groupID jobID : string) (addresses : list string)
    (selector : ExecutorSelector)
| CopClaimCommands (owner : string) (limit : nat)
| CopCompleteCommand (owner id : string)
| CopRetryCommand (owner id message : string) (delay : duration)
| CopAppendLogs (runID tokenHash : string) (entries : list RunLogInput)
| CopCreateChannel (c : NotificationChannel)
| CopUpdateChannel (c : NotificationChannel)
| CopSetChannelEnabled (tenantID id : string) (enabled : bool) (version : Z)
| CopDeleteChannel (tenantID id : string) (version : Z)
| CopPrepare (limit : nat)
| CopClaimDeliveries (owner : string) (limit : nat)
| CopCompleteDelivery (owner deliveryID eventID : string)
| CopDeadLetter (owner deliveryID eventID message : string)
| CopRetryDelivery (owner id message : string) (delay : duration)
| CopCreateCluster (c : KubernetesCluster)
| CopUpdateCluster (c : KubernetesCluster)
| CopDeleteCluster (tenantID id : string) (version : Z).

Section components.
Context `{Host} `{ScheduleCalc} `{Digest} `{JobCodec} `{UuidParser} `{CredentialCodec}
        `{IPLiterals}.

Definition cexec (o : cop) (e : env) (s : db) : db :=
  match o with
  | CopCreateGroup g => (commit (CreateExecutorGroup g) e s).2
  | CopUpdateGroup g => (commit (UpdateExecutorGroup g) e s).2
  | CopDeleteGroup t g v => (commit (DeleteExecutorGroup t g v) e s).2
  | CopRegisterNode t g n a ttl l => (commit (RegisterExecutorNode t g n a ttl l) e s).2
  | CopUnregisterNode t g n => (commit (UnregisterExecutorNode t g n) e s).2
  | CopReserveRoute t g j sel => (commit (ReserveExecutorRoute t g j sel) e s).2
  | CopReserveOverride t g j l sel => (commit (ReserveExecutorOverrideRoute t g j l sel) e s).2
  | CopClaimCommands o n => (commit (ClaimExecutorCommands o n) e s).2
  | CopCompleteCommand o i => (commit (CompleteExecutorCommand o i) e s).2
  | CopRetryCommand o i m d => (commit (RetryExecutorCommand o i m d) e s).2
  | CopAppendLogs r h l => (commit (AppendRunLogs r h l) e s).2
  | CopCreateChannel c => (commit (CreateNotificationChannel c) e s).2
  | CopUpdateChannel c => (commit (UpdateNotificationChannel c) e s).2
  | CopSetChannelEnabled t i b v => (commit (SetNotificationChannelEnabled t i b v) e s).2
  | CopDeleteChannel t i v => (commit (DeleteNotificationChannel t i v) e s).2
  | CopPrepare n => (commit (PrepareNotificationDeliveries n) e s).2
  | CopClaimDeliveries o n => (commit (ClaimNotificationDeliveries o n) e s).2
  | CopCompleteDelivery o d x => (commit (CompleteNotificationDelivery o d x) e s).2
  | CopDeadLetter o d x m => (commit (DeadLetterNotificationDelivery o d x m) e s).2
  | CopRetryDelivery o i m d => (commit (RetryNotificationDelivery o i m d) e s).2
  | CopCreateCluster c => (commit (CreateKubernetesCluster c) e s).2
  | CopUpdateCluster c => (commit (UpdateKubernetesCluster c) e s).2
  | CopDeleteCluster t i v => (commit (DeleteKubernetesCluster t i v) e s).2
  end.

Lemma other_new_uuid : preserves other new_uuid.
Proof. intros e s. apply other_frame; try done. cbn. lia. Qed.
Lemma other_publish p t : preserves other (modify (publish p t)).
Proof. apply preserves_modify. intros s. by apply other_events. Qed.
Hint Resolve other_new_uuid other_publish : preserves.
Hint Extern 3 (preserves other (modify _)) =>
  solve [apply preserves_modify; intros ?; by apply other_frame] : preserves.

(** ** Executor groups, nodes and routes *)

Lemma other_replaceManual groupID addresses :
  preserves other (replaceManualExecutorNodes groupID addresses).
Proof. unfold replaceManualExecutorNodes, insert_manual_node. preserve. Qed.
Hint Resolve other_replaceManual : preserves.

Lemma other_CreateExecutorGroup g : preserves other (CreateExecutorGroup g).
Proof. unfold CreateExecutorGroup. preserve. Qed.
Lemma other_UpdateExecutorGroup g : preserves other (UpdateExecutorGroup g).
Proof. unfold UpdateExecutorGroup. preserve. Qed.
Lemma other_DeleteExecutorGroup t g v : preserves other (DeleteExecutorGroup t g v).
Proof. unfold DeleteExecutorGroup. preserve. Qed.
Lemma other_RegisterExecutorNode t g n a ttl l : preserves other (RegisterExecutorNode t g n a ttl l).
Proof. unfold RegisterExecutorNode. preserve. Qed.
Lemma other_UnregisterExecutorNode t g n : preserves other (UnregisterExecutorNode t g n).
Proof. unfold UnregisterExecutorNode. preserve. Qed.
Lemma other_bump_counter jobID : preserves other (bump_counter jobID).
Proof. unfold bump_counter. preserve. Qed.
Lemma other_record_route j g n : preserves other (record_route j g n).
Proof. unfold record_route. preserve. Qed.
Lemma other_record_override j a : preserves other (record_override j a).
Proof. unfold record_override. preserve. Qed.
Hint Resolve other_bump_counter other_record_route other_record_override : preserves.

Lemma other_ReserveExecutorRoute t g j sel : preserves other (ReserveExecutorRoute t g j sel).
Proof. unfold ReserveExecutorRoute. preserve. Qed.
Lemma other_ReserveExecutorOverrideRoute t g j l sel :
  preserves other (ReserveExecutorOverrideRoute t g j l sel).
Proof. unfold ReserveExecutorOverrideRoute. preserve. Qed.

(** ** Notifications *)

Lemma other_validateJobs c : preserves other (validateNotificationChannelJobs c).
Proof. unfold validateNotificationChannelJobs. preserve. Qed.
Lemma other_bind_channel_job c j : preserves other (bind_channel_job c j).
Proof. unfold bind_channel_job. preserve. Qed.
Lemma other_terminalize c m : preserves other (terminalizePendingNotificationDeliveries c m).
Proof.
  unfold terminalizePendingNotificationDeliveries. preserve. apply preserves_modify. intros s.
  cbv zeta. match goal with |- other _ (publish _ _ ?s1) => transitivity s1 end;
    [by apply other_frame|by apply other_events].
Qed.
Lemma other_insert_delivery x c : preserves other (insert_delivery x c).
Proof. unfold insert_delivery. preserve. Qed.
Lemma other_finishDelivery o d x st m : preserves other (finishNotificationDelivery o d x st m).
Proof. unfold finishNotificationDelivery. preserve. Qed.
Hint Resolve other_validateJobs other_bind_channel_job other_terminalize other_insert_delivery
  other_finishDelivery : preserves.

Lemma other_CreateChannel c : preserves other (CreateNotificationChannel c).
Proof. unfold CreateNotificationChannel. preserve. Qed.
Lemma other_UpdateChannel c : preserves other (UpdateNotificationChannel c).
Proof. unfold UpdateNotificationChannel. preserve. Qed.
Lemma other_SetChannelEnabled t i b v : preserves other (SetNotificationChannelEnabled t i b v).
Proof. unfold SetNotificationChannelEnabled. preserve. Qed.
Lemma other_DeleteChannel t i v : preserves other (DeleteNotificationChannel t i v).
Proof. unfold DeleteNotificationChannel. preserve. Qed.
Lemma other_Prepare n : preserves other (PrepareNotificationDeliveries n).
Proof. unfold PrepareNotificationDeliveries, prepare_event. preserve. Qed.
Lemma other_ClaimDeliveries o n : preserves other (ClaimNotificationDeliveries o n).
Proof. unfold ClaimNotificationDeliveries. preserve. Qed.
Lemma other_RetryDelivery o i m d : preserves other (RetryNotificationDelivery o i m d).
Proof. unfold RetryNotificationDelivery. preserve. Qed.

(** ** Commands and logs *)

Lemma other_ClaimCommands o n : preserves other (ClaimExecutorCommands o n).
Proof. unfold ClaimExecutorCommands. preserve. Qed.
Lemma other_CompleteCommand o i : preserves other (CompleteExecutorCommand o i).
Proof. unfold CompleteExecutorCommand. preserve. Qed.
Lemma other_RetryCommand o i m d : preserves other (RetryExecutorCommand o i m d).
Proof. unfold RetryExecutorCommand. preserve. Qed.
Lemma other_insert_log r x : preserves other (insert_log r x).
Proof. unfold insert_log. preserve. Qed.
Hint Resolve other_insert_log : preserves.
Lemma other_insert_logs r l xs : preserves other (insert_logs r l xs).
Proof. revert l. induction xs as [|x xs IH]; intros l; cbn [insert_logs]; preserve. Qed.
Hint Resolve other_insert_logs : preserves.
Lemma other_AppendRunLogs r h l : preserves other (AppendRunLogs r h l).
Proof. unfold AppendRunLogs, append_to. preserve. Qed.

(** ** Clusters *)

Lemma other_CreateCluster c : preserves other (CreateKubernetesCluster c).
Proof. unfold CreateKubernetesCluster. preserve. Qed.
Lemma other_UpdateCluster c : preserves other (UpdateKubernetesCluster c).
Proof. unfold UpdateKubernetesCluster. preserve. Qed.
Lemma other_DeleteCluster t i v : preserves other (DeleteKubernetesCluster t i v).
Proof. unfold DeleteKubernetesCluster. preserve. Qed.
Lemma other_GetCluster t i : preserves other (GetKubernetesCluster t i).
Proof. unfold GetKubernetesCluster. preserve. Qed.

Lemma cexec_other o e s : other s (cexec o e s).
Proof.
  destruct o; cbn [cexec]; apply (preserves_commit other).
  - apply other_CreateExecutorGroup.
  - apply other_UpdateExecutorGroup.
  - apply other_DeleteExecutorGroup.
  - apply other_RegisterExecutorNode.
  - apply other_UnregisterExecutorNode.
  - apply other_ReserveExecutorRoute.
  - apply other_ReserveExecutorOverrideRoute.
  - apply other_ClaimCommands.
  - apply other_CompleteCommand.
  - apply other_RetryCommand.
  - apply other_AppendRunLogs.
  - apply other_CreateChannel.
  - apply other_UpdateChannel.
  - apply other_SetChannelEnabled.
  - apply other_DeleteChannel.
  - apply other_Prepare.
  - apply other_ClaimDeliveries.
  - unfold CompleteNotificationDelivery. apply other_finishDelivery.
  - unfold DeadLetterNotificationDelivery. apply other_finishDelivery.
  - apply other_RetryDelivery.
  - apply other_CreateCluster.
  - apply other_UpdateCluster.
  - apply other_DeleteCluster.
Qed.

(** Every transaction of the executor store, of the command queue, of the
    run logs, of the notification store and of the cluster store is a step the scheduler's theorems
    allow: it changes no run, job or dependency and does not alter what an
    event says. *)
Theorem components_leave_runs_alone o e st :
  step st (mk_sys (cexec o e (sdb st)) (inflight st)) ∧
  job_runs (cexec o e (sdb st)) = job_runs (sdb st) ∧
  jobs (cexec o e (sdb st)) = jobs (sdb st) ∧
  job_dependencies (cexec o e (sdb st)) = job_dependencies (sdb st).
Proof.
  destruct (cexec_other o e (sdb st)) as [Er Ej Ed Eu He]. split_and!; [|done|done|done].
  by apply step_other.
Qed.
End components.
End Components.
