(* ===== verification/Workers.v ===== *)
(** * Workers of the engine

    The delays of the engine are bounded, and its routing program, run without
    interference, is [routeClaimedExecutor].  Any number of engines run workers
    over one store: every step of a worker is a step of the system of
    [System.v], whatever the answers of the store and the executors, and no run
    is ever sent to an executor twice. *)
From Stdlib Require Import ZArith Lia Ascii String Sorted.
From stdpp Require Import base list strings relations.
From S2P Require Import Prelude GoStrings GoUrl Utf8 Tables Programs Proto Executors RunStore JobStore Clusters Cryptox Scheduler Routing ExecutorStore ExecutorCommands History Engine RunInvariants Capacity Dependencies System Components.

Module Workers.
Import Programs Proto Executors RunStore JobStore Clusters Scheduler Routing ExecutorStore ExecutorCommands History Engine RunInvariants System Components.

(** ** Delays *)

Lemma pow2_range shift k : 0 ≤ shift ≤ k → 1 ≤ 2 ^ shift ≤ 2 ^ k.
Proof. intros Hs. split; [pose proof (Z.pow_pos_nonneg 2 shift)|apply Z.pow_le_mono_r]; lia. Qed.

Lemma retryDelay_value attempt random :
  let slots := 2 ^ Z.min (Z.max (attempt - 1) 0) 6 in
  retryDelay attempt random = second * slots + random mod (500 * slots) * millisecond.
Proof.
  cbv zeta. unfold retryDelay. cbv zeta. set (a := if attempt <? 1 then 1 else attempt).
  assert (Es : (if 6 <? a - 1 then 6 else a - 1) = Z.min (Z.max (attempt - 1) 0) 6).
  { unfold a. destruct (Z.ltb_spec attempt 1); case Z.ltb_spec; lia. }
  rewrite Es, !Z.shiftl_mul_pow2 by lia. set (shift := Z.min _ 6).
  pose proof (pow2_range shift 6 ltac:(lia)) as Hp. change (2 ^ 6) with 64 in Hp.
  set (slots := 2 ^ shift) in *. clearbody slots. clear Es a shift.
  pose proof (Z.mod_pos_bound random (500 * slots) ltac:(lia)) as Hm.
  rewrite (Z.mod_small (500 * slots)) by lia. rewrite Z.mul_1_l.
  unfold second, millisecond, int64_min, int64_max in *.
  assert (W : ∀ z, 0 ≤ z ≤ 100000000000 → wrap64 z = z)
    by (intros z Hz; apply wrap64_id; unfold int64_min, int64_max; lia).
  rewrite (W slots), (W (1000000000 * slots)), (W (_ * 1000000)) by lia. apply W. lia.
Qed.

Lemma executorCommandRetryDelay_value attempt :
  executorCommandRetryDelay attempt
    = Z.min (second * 2 ^ Z.min (Z.max (attempt - 1) 0) 9) (5 * minute).
Proof.
  unfold executorCommandRetryDelay. cbv zeta. set (a := if attempt <? 1 then 1 else attempt).
  assert (Es : Z.min (a - 1) 9 = Z.min (Z.max (attempt - 1) 0) 9).
  { unfold a. destruct (Z.ltb_spec attempt 1); lia. }
  rewrite Es, !Z.shiftl_mul_pow2 by lia. set (shift := Z.min _ 9).
  pose proof (pow2_range shift 9 ltac:(lia)) as Hp. change (2 ^ 9) with 512 in Hp.
  set (slots := 2 ^ shift) in *. clearbody slots. rewrite Z.mul_1_l. unfold second, minute, second.
  rewrite (wrap64_id slots), wrap64_id; unfold int64_min, int64_max; lia.
Qed.

(** delays between attempts.  The delay before attempt [n+1] of a run is
    2^(n-1) seconds, at most 64, and less than half as much again; the delay of
    a command grows from one second to five minutes.  No computation leaves the
    64-bit range. *)
Theorem retry_delays_bounded attempt random :
  let base := second * 2 ^ Z.min (Z.max (attempt - 1) 0) 6 in
  base ≤ retryDelay attempt random < base + base / 2 ∧
  second ≤ base ≤ 64 * second ∧
  second ≤ executorCommandRetryDelay attempt ≤ 5 * minute ∧
  executorCommandRetryDelay attempt ≤ executorCommandRetryDelay (attempt + 1).
Proof.
  cbv zeta. rewrite retryDelay_value, !executorCommandRetryDelay_value. cbv zeta.
  pose proof (pow2_range (Z.min (Z.max (attempt - 1) 0) 6) 6 ltac:(lia)) as H6.
  pose proof (pow2_range (Z.min (Z.max (attempt - 1) 0) 9) 9 ltac:(lia)) as H9.
  assert (Hm : 2 ^ Z.min (Z.max (attempt - 1) 0) 9 ≤ 2 ^ Z.min (Z.max (attempt + 1 - 1) 0) 9)
    by (apply Z.pow_le_mono_r; lia).
  change (2 ^ 6) with 64 in H6. change (2 ^ 9) with 512 in H9.
  set (p := 2 ^ Z.min (Z.max (attempt - 1) 0) 6) in *.
  pose proof (Z.mod_pos_bound random (500 * p) ltac:(lia)) as Hr.
  assert (Hh : second * p / 2 = 500 * p * millisecond).
  { unfold second, millisecond. symmetry. apply Z.div_unique_exact; lia. }
  rewrite Hh. unfold minute, second, millisecond in *. split_and!; lia.
Qed.

(** ** Routing without interference *)

Lemma commit_query {A} (f : time → db → result A) e s : commit (query f) e s = (f (tx_now e) s, s).
Proof. unfold commit, query, mbind, tx_bind, lift. cbn. by destruct (f (tx_now e) s). Qed.

Section routing.
Context `{Host} `{ScheduleCalc} `{Digest} `{JobCodec} `{CredentialCodec} `{SliceSort} `{RouteHash}
        `{IPLiterals}.
Context (h : ∀ B, call B → B).

Lemma run_store {A} (m : tx A) e s : run h e (store m) s = commit m e s.
Proof. cbn. by destruct (commit m e s). Qed.

(** What the probes find. *)
Definition probed (strategy jobID address : string) : bool :=
  if executorAddressUsesGRPC address then
    if strategy ==s "failover" then h _ (GrpcHealthy address)
    else if strategy ==s "busyover" then
      match h _ (GrpcInspect address jobID) with Ok st => st !=s "busy" | Err _ => false end
    else false
  else
    let ok url method :=
      match h _ (HttpDo method url) with Ok c => (200 <=? c) && (c <? 300) | Err _ => false end in
    if strategy ==s "busyover" then ok (TrimRightSlash address +:+ "/idle") "POST"
    else if strategy ==s "failover" then ok (TrimRightSlash address +:+ "/health") "GET"
    else false.

Lemma run_probeExecutor strategy jobID address e s :
  run h e (probeExecutor true strategy jobID address) s = (probed strategy jobID address, s).
Proof.
  unfold probeExecutor, probed, grpc_probe, probeHTTPExecutor, http_probe. cbn [andb].
  destruct (executorAddressUsesGRPC address), (strategy ==s "failover"), (strategy ==s "busyover");
    done.
Qed.

Context (Hctx : h _ CtxErr = None).

Lemma run_probe_all strategy jobID nodes e s :
  run h e (probe_all true strategy jobID nodes) s
    = (match List.find (λ n, probed strategy jobID (ec_Address n)) nodes with
       | Some n => Ok n
       | None => Err (ErrMsg "no executor available")
       end, s).
Proof.
  induction nodes as [|n nodes IH]; [done|]. cbn [probe_all]. rewrite run_bind.
  cbn [run effect]. rewrite Hctx, run_bind, run_probeExecutor. cbn [List.find].
  by destruct (probed _ _ _).
Qed.

Lemma run_probe_active strategy jobID nodes e s :
  run h e (probe_active true strategy jobID nodes) s
    = (selectActiveExecutor probed strategy jobID nodes, s).
Proof.
  unfold probe_active, selectActiveExecutor. destruct (Nat.eqb _ 0); [done|]. apply run_probe_all.
Qed.

Lemma run_reserve c required excluded e s :
  run h e (reserve c required excluded) s
    = (let selector := route_selector (h _ RandomUint16)
                         (negb (Nat.eqb (length (OverrideAddresses (cl_run c))) 0))
                         required excluded (Job_ID (cl_job c)) in
       let job := cl_job c in
       if negb (Nat.eqb (length (OverrideAddresses (cl_run c))) 0)
       then commit (ReserveExecutorOverrideRoute (Job_TenantID job) (job_group job) (Job_ID job)
                      (OverrideAddresses (cl_run c)) selector) e s
       else commit (ReserveExecutorRoute (Job_TenantID job) (job_group job) (Job_ID job) selector) e s).
Proof.
  unfold reserve. rewrite run_bind. cbn [run effect]. cbv zeta.
  destruct (negb _); apply run_store.
Qed.

Lemma run_choose_node c strategy nodes labels e s :
  (Nat.eqb (length (OverrideAddresses (cl_run c))) 0 = false →
     labels = job_labels (Job_ID (cl_job c)) s) →
  run h e (choose_node true c strategy nodes labels) s
    = (let job := cl_job c in
       if (strategy ==s "failover") || (strategy ==s "busyover") then
         (probe_nodes probed strategy (Job_ID job) nodes, s)
       else
         match nodes with
         | [n] => (Ok n, s)
         | _ => run h e (reserve c (job_labels (Job_ID job) s).1 (job_labels (Job_ID job) s).2) s
         end).
Proof.
  intros Hl. unfold choose_node. cbv zeta. destruct (_ || _).
  { rewrite run_bind, run_probe_active. unfold probe_nodes. by destruct (selectActiveExecutor _ _ _ _). }
  assert (E : run h e (labels ← (if Nat.eqb (length (OverrideAddresses (cl_run c))) 0
                  then store (JobExecutorLabels (Job_ID (cl_job c))) else mret (Ok labels));
                match labels with
                | Err err => mret (Err err)
                | Ok (required, excluded) => reserve c required excluded
                end) s
    = run h e (reserve c (job_labels (Job_ID (cl_job c)) s).1 (job_labels (Job_ID (cl_job c)) s).2) s).
  { rewrite run_bind. destruct (Nat.eqb _ 0).
    - rewrite run_store. unfold JobExecutorLabels. rewrite commit_query.
      by destruct (job_labels _ s).
    - rewrite Hl by done. cbn [run mret prog_mret]. by destruct (job_labels _ s). }
  destruct nodes as [|n [|n' nodes]]; [exact E|done|exact E].
Qed.

(** The routing of a claimed run is several transactions with probes between
    them; when nobody interferes, its outcome and its effect on the store are
    those of the atomic [routeClaimedExecutor], so that the theorems on routing
    apply to it. *)
Theorem routing_program_is_atomic c e s :
  run h e (route true c) s = routeClaimedExecutor probed (h _ RandomUint16) c e s.
Proof.
  unfold route, routeClaimedExecutor. cbv zeta. fold (job_group (cl_job c)).
  destruct (BroadcastGroupID _ !=s ""); [by destruct (_ || _)|].
  destruct (fixedExecutorForRecovery _ _); [done|]. rewrite run_bind. unfold route_nodes.
  destruct (job_labels (Job_ID (cl_job c)) s) as [required excluded] eqn:El.
  destruct (Nat.eqb (length (OverrideAddresses (cl_run c))) 0) eqn:Eo; cbn [negb];
    rewrite run_bind, run_store.
  - rewrite commit_query. destruct (ExecutorRouteCandidates _ _ _ _ _) as [[strategy nodes]|err]; [|done].
    cbn [run mret prog_mret mbind result_bind]. rewrite run_choose_node by congruence. cbv zeta.
    destruct (_ || _); [done|]. rewrite run_reserve, El, Eo. cbn [negb fst snd]. done.
  - unfold JobExecutorLabels. rewrite commit_query, run_bind, run_store, commit_query.
    destruct (ExecutorRouteStrategy _ _ _ _) as [strategy|err]; [|done].
    cbn [run mret prog_mret mbind result_bind]. rewrite run_choose_node by done. cbv zeta.
    destruct (_ || _); [done|]. rewrite run_reserve, El, Eo. cbn [negb fst snd]. done.
Qed.
End routing.
(** ** Many workers *)

#[export] Instance Engine_eq_dec : EqDecision Engine.
Proof. solve_decision. Defined.

(** A goroutine that executes a claimed run. *)
Record thread := mk_thread { th_engine : Engine; th_claim : ClaimedRun; th_prog : worker unit }.

(** The store with the claims ever made, the workers of all engines, and the
    requests sent to executors. *)
Record world := mk_world {
  w_sys : sys; w_threads : list thread; w_sent : list (string * DispatchRequest);
}.

Definition active_workers (en : Engine) (ths : list thread) : nat :=
  length (List.filter (λ th, bool_decide (th_engine th = en)) ths).

Definition sends {B} (eff : call B) : list (string * DispatchRequest) :=
  match eff with DispatchTo address request => [(address, request)] | _ => [] end.

Section world.
Context `{HostLaws} `{ScheduleCalc} `{Digest} `{Sha256} `{JobCodec} `{CredentialCodec}
        `{SliceSort} `{RouteHash} `{IPLiterals}.

(** Any other transaction runs; an engine claims runs and starts workers for
    them, all of them unless it is being shut down; a worker gets an answer from
    the store, or from the world; a worker ends, or its process dies. *)
Inductive wstep : world → world → Prop :=
| ws_system st' w : step (w_sys w) st' → wstep w (mk_world st' (w_threads w) (w_sent w))
| ws_claim en m e cls s' n w :
    claim_slots en (active_workers en (w_threads w)) = Some m →
    answer m e (sdb (w_sys w)) (Ok cls) s' →
    wstep w (mk_world (mk_sys s' (inflight (w_sys w) ++ map cl_run cls))
               (w_threads w ++ map (λ c, mk_thread en c (execute en c)) (take n cls)) (w_sent w))
| ws_store {B} (m : tx B) k e r s' en c l1 l2 w :
    w_threads w = l1 ++ mk_thread en c (Store m k) :: l2 →
    answer m e (sdb (w_sys w)) r s' →
    wstep w (mk_world (mk_sys s' (inflight (w_sys w))) (l1 ++ mk_thread en c (k r) :: l2) (w_sent w))
| ws_effect {B} (eff : call B) k b en c l1 l2 w :
    w_threads w = l1 ++ mk_thread en c (Effect eff k) :: l2 →
    wstep w (mk_world (w_sys w) (l1 ++ mk_thread en c (k b) :: l2) (w_sent w ++ sends eff))
| ws_end th l1 l2 w :
    w_threads w = l1 ++ th :: l2 → wstep w (mk_world (w_sys w) (l1 ++ l2) (w_sent w)).

Definition winitial (w : world) : Prop := initial (w_sys w) ∧ w_threads w = [] ∧ w_sent w = [].
Definition wreachable (w : world) : Prop := ∃ w0, winitial w0 ∧ rtc wstep w0 w.

(** ** Workers take steps of the system *)

(** A transaction the system allows to the holder of a claim. *)
Definition lawful (c : ClaimedRun) (B : Type) (m : tx B) : Prop :=
  ∀ e st, cl_run c ∈ inflight st → step st (mk_sys (commit m e (sdb st)).2 (inflight st)).

Lemma lawful_other c {B} (m : tx B) : preserves other m → lawful c B m.
Proof. intros Hm e st _. apply step_other. by apply (preserves_commit other). Qed.

Lemma with_executor_same r : with_executor (ExecutorNodeID r) (ExecutorAddress r) r = r.
Proof. by destruct r. Qed.

Lemma held_claimed st r : r ∈ inflight st → held st r.
Proof.
  intros Hr. exists r, (ExecutorNodeID r), (ExecutorAddress r). by rewrite with_executor_same.
Qed.

Lemma lawful_FailRun c state status message delay :
  lawful c _ (FailRun (cl_run c) state status message delay).
Proof.
  intros e st Hc. apply (step_op (OpFailRun (cl_run c) state status message delay)).
  by apply held_claimed.
Qed.

Lemma lawful_Prepare c node address hash deadline :
  lawful c _ (PrepareClaimedExecutorDispatch (cl_run c) node address hash deadline).
Proof.
  intros e st Hc. apply (step_op (OpPrepareDispatch (cl_run c) node address hash deadline)).
  by apply held_claimed.
Qed.

Lemma lawful_CompleteCallback c runID hash succeeded message :
  lawful c _ (CompleteCallback runID hash succeeded message).
Proof. intros e st _. by apply (step_op (OpCompleteCallback runID hash succeeded message)). Qed.

Lemma other_query {A} (f : time → db → result A) : preserves other (query f).
Proof. unfold query. preserve. Qed.

Definition no_request (B : Type) (eff : call B) : Prop := sends eff = [].

(** Programs that send nothing, with lawful transactions. *)
Notation careful c := (every (lawful c) no_request).

Lemma careful_store c {A} (m : tx A) : lawful c A m → careful c (store m).
Proof. done. Qed.

Lemma careful_fail_run c err : careful c (fail_run c err).
Proof.
  unfold fail_run, failWithState. apply every_bind.
  - by destruct (shouldRetry _ _).
  - intros delay. split; [apply lawful_FailRun|done].
Qed.

Lemma careful_probe_all c strategy jobID nodes : careful c (probe_all true strategy jobID nodes).
Proof.
  induction nodes as [|n nodes IH]; [done|]. split; [done|]. intros [err|]; [done|]. cbn.
  apply every_bind; [|by intros []]. unfold probeExecutor, grpc_probe, probeHTTPExecutor, http_probe.
  by repeat case_match.
Qed.

Lemma careful_reserve c required excluded : careful c (reserve c required excluded).
Proof.
  unfold reserve. split; [done|]. intros random. cbn.
  destruct (negb _); (split; [|done]); apply lawful_other;
    [apply other_ReserveExecutorOverrideRoute|apply other_ReserveExecutorRoute].
Qed.

Lemma careful_choose_node c strategy nodes labels :
  careful c (choose_node true c strategy nodes labels).
Proof.
  unfold choose_node. destruct (_ || _).
  { apply every_bind; [|done]. unfold probe_active. destruct (Nat.eqb _ 0); [done|].
    apply careful_probe_all. }
  assert (Hr : careful c (labels ← (if Nat.eqb (length (OverrideAddresses (cl_run c))) 0
                  then store (JobExecutorLabels (Job_ID (cl_job c))) else mret (Ok labels));
                match labels with
                | Err err => mret (Err err)
                | Ok (required, excluded) => reserve c required excluded
                end)).
  { apply every_bind.
    - destruct (Nat.eqb _ 0); [|done]. split; [|done]. apply lawful_other, other_query.
    - intros [[required excluded]|err]; [apply careful_reserve|done]. }
  by destruct nodes as [|n [|n' nodes]].
Qed.

Lemma careful_route c : careful c (route true c).
Proof.
  unfold route. destruct (_ !=s ""); [by destruct (_ || _)|]. destruct (fixedExecutorForRecovery _ _); [done|].
  apply every_bind.
  - unfold route_nodes. destruct (negb _).
    + split; [apply lawful_other, other_query|]. intros [labels|err]; [|done].
      split; [apply lawful_other, other_query|done].
    + split; [apply lawful_other, other_query|done].
  - intros [[[strategy nodes] labels]|err]; [apply careful_choose_node|done].
Qed.

Lemma careful_load_cluster c : careful c (load_cluster c).
Proof.
  unfold load_cluster. cbv zeta. destruct (_ ==s ""); [done|]. split; [|done].
  apply lawful_other, other_GetCluster.
Qed.

(** ** A run goes out once *)

(** The run can not be claimed or prepared any more. *)
Definition spent (id : string) (s : db) : Prop :=
  drawn id s ∧ ∀ row, row ∈ job_runs s → r_id row = id →
    r_status row ≠ Pending ∧ r_status row ≠ Running.

(** A transaction that commits only when the claim holds, and ends it. *)
Definition consumes (c : ClaimedRun) {B} (m : tx B) : Prop :=
  ∀ e s b s', Inv s → m e s = Ok (b, s') →
    (∃ row, row ∈ job_runs s ∧ r_id row = ID (cl_run c) ∧ r_status row = Running) ∧
    ∀ row, row ∈ job_runs s' → r_id row = ID (cl_run c) →
      r_status row ≠ Pending ∧ r_status row ≠ Running.

(** The program sends at most one request, the one of its claim, and only after
    the claim was consumed ([armed]). *)
Fixpoint hands_over (c : ClaimedRun) (armed : bool) {A} (p : worker A) : Prop :=
  match p with
  | Return _ => True
  | Store m k =>
      lawful c _ m ∧
      ((∀ r, hands_over c armed (k r)) ∨
       consumes c m ∧ armed = false ∧
       (∀ b, hands_over c true (k (Ok b))) ∧ ∀ err, hands_over c false (k (Err err)))
  | Effect eff k =>
      (sends eff = [] ∧ ∀ b, hands_over c armed (k b)) ∨
      (armed = true ∧ (∃ address request, sends eff = [(address, request)] ∧
         RunId request = ID (cl_run c)) ∧ ∀ b, hands_over c false (k b))
  end.

Lemma careful_hands_over c armed {A} (p : worker A) : careful c p → hands_over c armed p.
Proof.
  induction p as [a|B m k IH|B eff k IH]; cbn; [done| |]; intros [Hm Hk].
  - split; [done|]. left. intros r. by apply IH.
  - left. split; [done|]. intros b. by apply IH.
Qed.

Lemma careful_bind c armed {A B} (p : worker A) (f : A → worker B) :
  careful c p → (∀ a, hands_over c armed (f a)) → hands_over c armed (p ≫= f).
Proof.
  change (p ≫= f) with (prog_bind f p). intros Hp Hf.
  induction p as [a|C m k IH|C eff k IH]; cbn in *; [done| |]; destruct Hp as [Hm Hk].
  - split; [done|]. left. intros r. by apply IH.
  - left. split; [done|]. intros b. by apply IH.
Qed.

Lemma update_one_ok p f e s u s' :
  update_one p f e s = Ok (u, s') →
  length (sql_select p (job_runs s)) = 1%nat ∧ s' = set_job_runs (sql_update p f (job_runs s)) s.
Proof.
  unfold update_one, update_runs, mbind, tx_bind. cbn. rewrite length_map.
  destruct (length _) as [|[|n]]; [done| |done]. intros E. by injection E as _ <-.
Qed.

Lemma consumes_Prepare c node address hash deadline :
  consumes c (PrepareClaimedExecutorDispatch (cl_run c) node address hash deadline).
Proof.
  intros e s b s' Hs. unfold PrepareClaimedExecutorDispatch, mbind, tx_bind.
  destruct (lift _ e s) as [[u s0]|] eqn:El; [|done].
  assert (s0 = s) as -> by (unfold lift in El; by destruct (requireRunLease _); simplify_eq).
  destruct (update_one _ _ e s) as [[u1 s1]|] eqn:Eu; [|done].
  apply update_one_ok in Eu as [Hone ->]. intros (events & ->)%emitRunEventTx_frame. cbn.
  destruct (sql_select _ (job_runs s)) as [|row0 rest] eqn:Esel; [done|].
  assert (Hr0 : row0 ∈ sql_select (holds_lease (cl_run c)) (job_runs s)) by (rewrite Esel; left).
  apply elem_of_sql_select in Hr0 as [Hl Hr0].
  pose proof Hl as (Hid & Hst & _)%holds_lease_true. split; [by exists row0|].
  intros row (row1 & Hr1 & ->)%elem_of_sql_update Hrid.
  assert (Hid1 : r_id row1 = ID (cl_run c)) by (by destruct (holds_lease _ row1)).
  assert (row1 = row0) as ->.
  { eapply (NoDup_key_inj r_id); [apply (inv_ids s Hs)|done|done|congruence]. }
  by rewrite Hl.
Qed.

Lemma execute_hands_over en c : hands_over c false (execute en c).
Proof.
  unfold execute. destruct (negb _); [apply careful_hands_over, careful_fail_run|].
  destruct (_ ==s ""); [apply careful_hands_over, careful_fail_run|].
  apply careful_bind; [by split|]. intros [[token hash]|err];
    [|apply careful_hands_over, careful_fail_run].
  left. split; [done|]. intros t. cbn. apply careful_bind; [apply careful_route|].
  intros [node|err]; [|apply careful_hands_over, careful_fail_run].
  apply careful_bind; [apply careful_load_cluster|].
  intros [cluster|err]; [|apply careful_hands_over, careful_fail_run].
  unfold hand_over. split; [apply lawful_Prepare|]. right.
  split_and!; [apply consumes_Prepare|done| |].
  - intros _. right. split_and!; [done|by eexists _, _|].
    intros [?|err]; [done|]. split; [apply lawful_CompleteCallback|by left].
  - intros err. apply careful_hands_over, careful_fail_run.
Qed.

(** ** The invariant *)

Lemma row_evolves_spent a b :
  row_evolves a b → r_status a ≠ Pending ∧ r_status a ≠ Running →
  r_status b ≠ Pending ∧ r_status b ≠ Running.
Proof.
  induction 1 as [|a b c [_ Hm] _ IH]; [done|]. intros [Hp Hr]. apply IH.
  by destruct (r_status a), (r_status b).
Qed.

Lemma spent_step st st' id : SInv st → step st st' → spent id (sdb st) → spent id (sdb st').
Proof.
  intros Hst Hstep [Hd Hs]. destruct (step_SInv st st' Hst Hstep) as [_ Hm]. split.
  { eapply drawn_mono; [apply Hm|done]. }
  intros row' Hr' Hid. destruct (mv_rows _ _ Hm row' Hr') as [(row & Hr & Ev)|(n & Hn & En)].
  - eapply row_evolves_spent; [exact Ev|]. apply Hs; [done|].
    by rewrite (row_evolves_id _ _ Ev).
  - destruct Hd as (k & Hk & Ek). rewrite Hid, Ek in En. apply uuid_inj in En. lia.
Qed.

(** Threads with the information whether they may send their request. *)
Definition run_of (x : bool * thread) : string := ID (cl_run (th_claim x.2)).
Definition armed_runs (xs : list (bool * thread)) : list string :=
  map run_of (List.filter fst xs).
Definition sent_runs (w : world) : list string := map (λ x, RunId x.2) (w_sent w).

Definition thread_ok (st : sys) (x : bool * thread) : Prop :=
  cl_run (th_claim x.2) ∈ inflight st ∧ hands_over (th_claim x.2) x.1 (th_prog x.2).

Record WInv (w : world) (xs : list (bool * thread)) : Prop := {
  wi_sys : reachable (w_sys w);
  wi_threads : map snd xs = w_threads w;
  wi_ok : Forall (thread_ok (w_sys w)) xs;
  wi_once : NoDup (armed_runs xs ++ sent_runs w);
  wi_spent : Forall (λ id, spent id (sdb (w_sys w))) (armed_runs xs ++ sent_runs w);
}.

Lemma split_flagged (xs : list (bool * thread)) l1 th l2 :
  map snd xs = l1 ++ th :: l2 →
  ∃ x1 b x2, xs = x1 ++ (b, th) :: x2 ∧ map snd x1 = l1 ∧ map snd x2 = l2.
Proof.
  revert l1. induction xs as [|[b t] xs IH]; intros [|t1 l1] E; cbn in E; simplify_eq.
  - by exists [], b, xs.
  - destruct (IH l1) as (x1 & b' & x2 & -> & <- & <-); [done|].
    by exists ((b, t1) :: x1), b', x2.
Qed.

Lemma armed_app x1 x2 : armed_runs (x1 ++ x2) = armed_runs x1 ++ armed_runs x2.
Proof. unfold armed_runs. by rewrite List.filter_app, map_app. Qed.

Lemma armed_cons b th x : armed_runs ((b, th) :: x) =
  (if b then [run_of (b, th)] else []) ++ armed_runs x.
Proof. unfold armed_runs. cbn. by destruct b. Qed.

Lemma reachable_step st st' : reachable st → step st st' → reachable st'.
Proof. intros (st0 & Hi & Hs) Hst. exists st0. split; [done|]. by eapply rtc_r. Qed.

(** A step of the system that keeps the claims keeps the invariant. *)
Lemma WInv_system w xs st' :
  WInv w xs → step (w_sys w) st' → (∀ r, r ∈ inflight (w_sys w) → r ∈ inflight st') →
  WInv (mk_world st' (w_threads w) (w_sent w)) xs.
Proof.
  intros [Hr Ht Hok Hn Hs] Hst Hi. constructor; cbn; [by eapply reachable_step|done| |done|].
  - eapply Forall_impl; [exact Hok|]. intros x [Hc Hh]. split; auto.
  - eapply Forall_impl; [exact Hs|]. intros id. eapply spent_step; [by apply reachable_SInv|done].
Qed.

Lemma sys_eta st : mk_sys (sdb st) (inflight st) = st.
Proof. by destruct st. Qed.

Lemma step_inflight st st' r : step st st' → r ∈ inflight st → r ∈ inflight st'.
Proof.
  intros [o e st0 _|s' st0 _]; [|done]. intros Hr.
  destruct (exec_inflight o e st0) as [->|(? & ? & ? & cls & s' & _ & _ & ->)]; [done|].
  cbn. apply elem_of_app. by left.
Qed.

Lemma WInv_answer w xs c {B} (m : tx B) e r s' :
  WInv w xs → lawful c B m → cl_run c ∈ inflight (w_sys w) →
  answer m e (sdb (w_sys w)) r s' →
  WInv (mk_world (mk_sys s' (inflight (w_sys w))) (w_threads w) (w_sent w)) xs.
Proof.
  intros Hw Hm Hc [->| ->]%answer_state.
  - rewrite sys_eta. by destruct w.
  - apply WInv_system; [done|by apply Hm|done].
Qed.

(** A worker goes on. *)
Lemma WInv_continue w x1 b en c p p' x2 :
  WInv w (x1 ++ (b, mk_thread en c p) :: x2) → hands_over c b p' →
  WInv (mk_world (w_sys w) (map snd x1 ++ mk_thread en c p' :: map snd x2) (w_sent w))
       (x1 ++ (b, mk_thread en c p') :: x2).
Proof.
  intros [Hr Ht Hok Hn Hs] Hp. apply Forall_app in Hok as [Hok1 [Hc Hok2]%Forall_cons].
  rewrite armed_app, armed_cons in Hn, Hs.
  constructor; cbn; rewrite ?armed_app, ?armed_cons; [done|by rewrite map_app| |done|done].
  apply Forall_app. split; [done|]. apply Forall_cons. split; [|done]. split; [apply Hc|done].
Qed.

(** Its claim was consumed. *)
Lemma WInv_arm w x1 en c p p' x2 :
  WInv w (x1 ++ (false, mk_thread en c p) :: x2) → hands_over c true p' →
  ID (cl_run c) ∉ armed_runs (x1 ++ (false, mk_thread en c p) :: x2) ++ sent_runs w →
  spent (ID (cl_run c)) (sdb (w_sys w)) →
  WInv (mk_world (w_sys w) (map snd x1 ++ mk_thread en c p' :: map snd x2) (w_sent w))
       (x1 ++ (true, mk_thread en c p') :: x2).
Proof.
  intros [Hr Ht Hok Hn Hs] Hp Hnew Hsp. apply Forall_app in Hok as [Hok1 [Hc Hok2]%Forall_cons].
  rewrite armed_app, armed_cons in Hn, Hs, Hnew. cbn in Hn, Hs, Hnew.
  assert (E : armed_runs (x1 ++ (true, mk_thread en c p') :: x2) ++ sent_runs w ≡ₚ
    ID (cl_run c) :: (armed_runs x1 ++ armed_runs x2) ++ sent_runs w).
  { rewrite armed_app, armed_cons. cbn. rewrite <- Permutation_middle. reflexivity. }
  constructor; cbn; [done|by rewrite map_app| | |].
  - apply Forall_app. split; [done|]. apply Forall_cons. split; [|done]. split; [apply Hc|done].
  - change (sent_runs _) with (sent_runs w). rewrite E. apply NoDup_cons. done.
  - change (sent_runs _) with (sent_runs w). rewrite E. by apply Forall_cons.
Qed.

(** It sends its request. *)
Lemma WInv_send w x1 en c p p' x2 address request :
  WInv w (x1 ++ (true, mk_thread en c p) :: x2) → hands_over c false p' →
  RunId request = ID (cl_run c) →
  WInv (mk_world (w_sys w) (map snd x1 ++ mk_thread en c p' :: map snd x2)
          (w_sent w ++ [(address, request)]))
       (x1 ++ (false, mk_thread en c p') :: x2).
Proof.
  intros [Hr Ht Hok Hn Hs] Hp Hid. apply Forall_app in Hok as [Hok1 [Hc Hok2]%Forall_cons].
  rewrite armed_app, armed_cons in Hn, Hs. cbn in Hn, Hs.
  assert (E : (armed_runs x1 ++ armed_runs x2) ++ (sent_runs w ++ [ID (cl_run c)]) ≡ₚ
    (armed_runs x1 ++ ID (cl_run c) :: armed_runs x2) ++ sent_runs w).
  { rewrite <- (Permutation_middle (armed_runs x1) (armed_runs x2)). cbn.
    rewrite (assoc_L (++)), (Permutation_app_comm _ [ID (cl_run c)]). reflexivity. }
  assert (Es : sent_runs (mk_world (w_sys w) (map snd x1 ++ mk_thread en c p' :: map snd x2)
                 (w_sent w ++ [(address, request)])) = sent_runs w ++ [ID (cl_run c)]).
  { unfold sent_runs. cbn. by rewrite map_app, <- Hid. }
  constructor; rewrite ?Es; cbn; rewrite ?armed_app, ?armed_cons; cbn;
    [done|by rewrite map_app| |by rewrite E|by rewrite E].
  apply Forall_app. split; [done|]. apply Forall_cons. split; [|done]. split; [apply Hc|done].
Qed.

Lemma WInv_end w x1 x x2 :
  WInv w (x1 ++ x :: x2) →
  WInv (mk_world (w_sys w) (map snd x1 ++ map snd x2) (w_sent w)) (x1 ++ x2).
Proof.
  intros [Hr Ht Hok Hn Hs]. destruct x as [b th]. rewrite armed_app, armed_cons in Hn, Hs.
  apply Forall_app in Hok as [Hok1 [Hc Hok2]%Forall_cons].
  assert (E : (armed_runs x1 ++ armed_runs x2) ++ sent_runs w `sublist_of`
    (armed_runs x1 ++ (if b then [run_of (b, th)] else []) ++ armed_runs x2) ++ sent_runs w).
  { apply sublist_app; [|done]. apply sublist_app; [done|]. by apply sublist_inserts_l. }
  constructor; cbn; rewrite ?armed_app; [done|by rewrite map_app|by apply Forall_app| |].
  - by eapply sublist_NoDup.
  - rewrite !Forall_app in *. tauto.
Qed.

Lemma claim_slots_some en active m :
  claim_slots en active = Some m →
  (0 < en_workers en - active)%nat ∧
  m = ClaimRuns (en_owner en) (en_workers en - active) (2 * minute).
Proof.
  unfold claim_slots, availableWorkerSlots. destruct (Nat.eqb_spec (en_workers en - active) 0); [done|].
  intros [= <-]. split; [lia|done].
Qed.

Lemma WInv_claim w xs en m e cls s' n :
  WInv w xs → claim_slots en (active_workers en (w_threads w)) = Some m →
  answer m e (sdb (w_sys w)) (Ok cls) s' →
  WInv (mk_world (mk_sys s' (inflight (w_sys w) ++ map cl_run cls))
          (w_threads w ++ map (λ c, mk_thread en c (execute en c)) (take n cls)) (w_sent w))
       (xs ++ map (λ c, (false, mk_thread en c (execute en c))) (take n cls)).
Proof.
  intros Hw [_ ->]%claim_slots_some Ha%answer_ok.
  set (o := OpClaimRuns (en_owner en) (en_workers en - active_workers en (w_threads w)) (2 * minute)).
  assert (Eo : exec o e (w_sys w) = mk_sys s' (inflight (w_sys w) ++ map cl_run cls)).
  { unfold o. cbn [exec]. unfold commit. by rewrite Ha. }
  assert (Hw' := WInv_system w xs (exec o e (w_sys w)) Hw (step_op o e _ I)
    (λ r, step_inflight _ _ r (step_op o e (w_sys w) I))). rewrite Eo in Hw'.
  destruct Hw' as [Hr Ht Hok Hn Hs].
  assert (Ear : armed_runs (xs ++ map (λ c, (false, mk_thread en c (execute en c))) (take n cls))
                = armed_runs xs).
  { rewrite armed_app. unfold armed_runs at 2. rewrite filter_none; [apply app_nil_r|].
    intros x Hx. apply list_elem_of_In, in_map_iff in Hx as (c & <- & _). done. }
  constructor; cbn [w_sys w_threads w_sent]; rewrite ?Ear; try done.
  - rewrite map_app, map_map. cbn in *. by rewrite Ht.
  - apply Forall_app. split; [done|]. apply Forall_forall. intros x Hx.
    apply list_elem_of_In, in_map_iff in Hx as (c & <- & Hc). split; [|apply execute_hands_over].
    cbn. apply elem_of_app. right. apply list_elem_of_In, in_map, list_elem_of_In.
    by apply list_elem_of_In, elem_of_take in Hc as (i & Hc%list_elem_of_lookup_2 & _).
Qed.

Lemma WInv_step w w' xs : WInv w xs → wstep w w' → ∃ xs', WInv w' xs'.
Proof.
  intros Hw Hst. destruct Hst as [st' w Hst|en m e cls s' n w Hd Ha|B m k e r s' en c l1 l2 w Et Ha
    |B eff k b en c l1 l2 w Et|th l1 l2 w Et].
  - exists xs. apply WInv_system; [done|done|]. intros r. by apply step_inflight.
  - eexists. by eapply WInv_claim.
  - rewrite <- (wi_threads _ _ Hw) in Et. apply split_flagged in Et as (x1 & b & x2 & -> & <- & <-).
    pose proof (wi_ok _ _ Hw) as [_ [[Hc [Hm Hh]] _]%Forall_cons]%Forall_app.
    cbn [fst snd th_claim] in *. pose proof (WInv_answer _ _ c m e r s' Hw Hm Hc Ha) as Hw'.
    destruct Hh as [Hh|(Hcons & -> & Hok & Herr)]; [eexists; by apply (WInv_continue _ _ _ _ _ _ _ _ Hw')|].
    destruct r as [v|err]; [|eexists; by apply (WInv_continue _ _ _ _ _ _ _ _ Hw')].
    apply answer_ok in Ha. pose proof (reachable_SInv _ (wi_sys _ _ Hw)) as [Hinv _].
    destruct (Hcons e _ v s' Hinv Ha) as [(row & Hrow & Hid & Hst) Hafter].
    eexists. apply (WInv_arm _ _ _ _ _ _ _ Hw'); [done| |].
    + intros Hin. pose proof (proj1 (Forall_forall _ _) (wi_spent _ _ Hw) _ Hin) as [_ Hsp].
      destruct (Hsp row Hrow Hid). congruence.
    + split; [|done]. cbn. destruct (inv_drawn _ Hinv row Hrow) as [Hdr _]. rewrite Hid in Hdr.
      pose proof (reachable_SInv _ (wi_sys _ _ Hw)) as HS. 
      assert (Hstep := Hm e (w_sys w) Hc). apply (step_SInv _ _ HS) in Hstep as [_ Hmv].
      unfold commit in Hmv. rewrite Ha in Hmv. eapply drawn_mono; [apply Hmv|done].
  - rewrite <- (wi_threads _ _ Hw) in Et. apply split_flagged in Et as (x1 & f & x2 & -> & <- & <-).
    pose proof (wi_ok _ _ Hw) as [_ [[Hc Hh] _]%Forall_cons]%Forall_app. cbn in Hh.
    destruct Hh as [[-> Hh]|(-> & (address & request & -> & Hid) & Hh)]; eexists.
    + rewrite app_nil_r. by apply (WInv_continue _ _ _ _ _ _ _ _ Hw).
    + by apply (WInv_send _ _ _ _ _ _ _ _ _ Hw).
  - rewrite <- (wi_threads _ _ Hw) in Et. apply split_flagged in Et as (x1 & f & x2 & -> & <- & <-).
    eexists. by apply (WInv_end _ _ _ _ Hw).
Qed.

Lemma wreachable_WInv w : wreachable w → ∃ xs, WInv w xs.
Proof.
  intros (w0 & (Hi & Ht & Hs) & Hsteps). revert w Hsteps.
  apply (rtc_ind_r (λ w, ∃ xs, WInv w xs)).
  - exists []. constructor; rewrite ?Ht; unfold sent_runs; rewrite ?Hs; cbn; try constructor.
    by exists (w_sys w0).
  - intros w1 w2 _ Hst (xs & Hw). by eapply WInv_step.
Qed.

(** ** Theorems *)

(** C11: whatever the answers of store and executors, with any number of engines,
    lost connections, commits that are reported as failures and processes that
    die, the store only goes through states of the system of [System.v]; every
    worker works on a run it was given by a claim. *)
Theorem engine_refines_system w :
  wreachable w →
  reachable (w_sys w) ∧ ∀ th, th ∈ w_threads w → cl_run (th_claim th) ∈ inflight (w_sys w).
Proof.
  intros (xs & [Hr Ht Hok _ _])%wreachable_WInv. split; [done|]. intros th Hth.
  rewrite <- Ht in Hth. apply list_elem_of_In, in_map_iff in Hth as (x & <- & Hx).
  apply list_elem_of_In in Hx. by apply (proj1 (Forall_forall _ _) Hok x Hx).
Qed.

Lemma sent_run_is_spent w address request :
  wreachable w → (address, request) ∈ w_sent w → spent (RunId request) (sdb (w_sys w)).
Proof.
  intros (xs & [_ _ _ _ Hs])%wreachable_WInv Hsent. apply Forall_app in Hs as [_ Hs].
  apply (proj1 (Forall_forall _ _) Hs). apply list_elem_of_In, in_map_iff. exists (address, request).
  split; [done|]. by apply list_elem_of_In.
Qed.

(** C10: a run is sent to an executor at most once, by all engines together and
    in spite of expired leases, lost answers and crashes; once its request is
    out, the run waits for its callback or is finished. *)
Theorem run_dispatched_once w :
  wreachable w →
  NoDup (map (λ x, RunId x.2) (w_sent w)) ∧
  ∀ address request row, (address, request) ∈ w_sent w → row ∈ job_runs (sdb (w_sys w)) →
    r_id row = RunId request → r_status row ≠ Pending ∧ r_status row ≠ Running.
Proof.
  intros Hw. split.
  - apply wreachable_WInv in Hw as (xs & [_ _ _ Hn _]). by apply NoDup_app in Hn as (_ & _ & ?).
  - intros address request row Hsent. by apply (sent_run_is_spent w address request Hw Hsent).
Qed.

Lemma claim_all_length owner lease cs e s cls s' :
  claim_all owner lease cs e s = Ok (cls, s') → length cls = length cs.
Proof.
  revert s cls s'. induction cs as [|c cs IH]; intros s cls s'; cbn [claim_all].
  - unfold mret, tx_ret. by intros [= <- _].
  - unfold mbind, tx_bind. destruct (claim_one _ _ _ _ _) as [[x s1]|]; [|done].
    destruct (claim_all _ _ _ _ s1) as [[xs s2]|] eqn:E; [|done]. unfold mret, tx_ret.
    intros [= <- _]. cbn. f_equal. by eapply IH.
Qed.

Lemma ClaimRuns_length owner limit lease e s cls s' :
  ClaimRuns owner limit lease e s = Ok (cls, s') → (length cls ≤ limit)%nat.
Proof.
  unfold ClaimRuns, mbind, tx_bind. cbn. intros ->%claim_all_length.
  unfold eligible. rewrite length_take. lia.
Qed.

Lemma active_app en l1 l2 :
  active_workers en (l1 ++ l2) = (active_workers en l1 + active_workers en l2)%nat.
Proof. unfold active_workers. by rewrite List.filter_app, length_app. Qed.

Lemma active_continue en l1 en' c p p' l2 :
  active_workers en (l1 ++ mk_thread en' c p' :: l2) = active_workers en (l1 ++ mk_thread en' c p :: l2).
Proof. rewrite !active_app. f_equal. unfold active_workers. cbn. by destruct (bool_decide _). Qed.

Lemma active_started (en en' : Engine) f (cls : list ClaimedRun) :
  (∀ c, th_engine (f c) = en') →
  active_workers en (map f cls) = if bool_decide (en' = en) then length cls else 0%nat.
Proof.
  intros Hf. unfold active_workers.
  induction cls as [|c cls IH]; cbn; [by destruct (bool_decide _)|].
  rewrite Hf. destruct (bool_decide _); cbn; by rewrite IH.
Qed.

(** An engine never runs more workers than it has slots. *)
Theorem workers_fit_slots w en :
  wreachable w → (active_workers en (w_threads w) ≤ en_workers en)%nat.
Proof.
  intros (w0 & (_ & Ht & _) & Hsteps). revert w Hsteps.
  apply (rtc_ind_r (λ w, (active_workers en (w_threads w) ≤ en_workers en)%nat)).
  { rewrite Ht. cbn. lia. }
  intros w1 w2 _ Hst IH. destruct Hst as [st' w Hst|en' m e cls s' n w Hd Ha|B m k e r s' en' c l1 l2 w Et Ha
    |B eff k b en' c l1 l2 w Et|th l1 l2 w Et]; cbn [w_threads] in *.
  - done.
  - apply claim_slots_some in Hd as [Hpos ->]. apply answer_ok, ClaimRuns_length in Ha.
    rewrite active_app, (active_started _ en') by done. rewrite length_take.
    destruct (bool_decide_reflect (en' = en)) as [->|]; lia.
  - rewrite Et in IH. by rewrite (active_continue _ _ _ _ (Store m k)).
  - rewrite Et in IH. by rewrite (active_continue _ _ _ _ (Effect eff k)).
  - rewrite Et in IH. rewrite active_app in *. unfold active_workers in *. cbn in *.
    destruct (bool_decide _); cbn in *; lia.
Qed.

(** ** An undisturbed worker *)

(** The requests [run] sends. *)
Fixpoint requests {A} (h : ∀ B, call B → B) (e : env) (p : worker A) (s : db)
    : list (string * DispatchRequest) :=
  match p with
  | Return _ => []
  | Store m k => let '(r, s') := commit m e s in requests h e (k r) s'
  | Effect eff k => sends eff ++ requests h e (k (h _ eff)) s
  end.

Lemma run_wsteps h e en c (p : worker unit) st sent :
  rtc wstep (mk_world st [mk_thread en c p] sent)
    (mk_world (mk_sys (run h e p (sdb st)).2 (inflight st)) [mk_thread en c (Return tt)]
       (sent ++ requests h e p (sdb st))).
Proof.
  revert st sent. induction p as [[]|B m k IH|B eff k IH]; intros st sent; cbn.
  - rewrite sys_eta, app_nil_r. apply rtc_refl.
  - destruct (commit m e (sdb st)) as [r s'] eqn:E.
    pose proof (answered m e (sdb st)) as Ha. rewrite E in Ha. cbn in Ha.
    eapply rtc_l; [by apply (ws_store m k e r s' en c [] [])|].
    apply (IH r (mk_sys s' (inflight st))).
  - eapply rtc_l; [by apply (ws_effect eff k (h B eff) en c [] [])|]. cbn.
    rewrite (assoc_L (++)). apply IH.
Qed.
End world.
End Workers.
