(* ===== verification/EventLog.v ===== *)
(** * Every change of a run is announced

    The store writes an outbox event in the transaction that creates a run or
    changes its status.  The proof tracks, inside a transaction, the rows whose
    event is still to be written; at the commit there are none. *)
From Stdlib Require Import ZArith Lia Ascii String.
From stdpp Require Import base list strings relations.
From S2P Require Import Prelude GoStrings Tables Executors RunStore JobStore Scheduler History RunInvariants Capacity System.

Module EventLog.
Import Executors RunStore JobStore Scheduler History RunInvariants Capacity System.

Definition lifecycle_topic (st : run_status) : string := ("job.run." ++ status_text st)%string.

(** The event of a run that entered its current status. *)
Definition announces (ev : event_row) (r : run_row) : Prop :=
  e_run_id ev = r_id r ∧ e_topic ev = lifecycle_topic (r_status r) ∧ e_status ev = r_status r ∧
  e_tenant_id ev = r_tenant_id r ∧ e_job_id ev = r_job_id r ∧ e_attempt ev = r_attempt r.

(** A row that had its status before the transaction, or has its event. *)
Definition settled (s0 : db) (new : list event_row) (r : run_row) : Prop :=
  (∃ r0, r0 ∈ job_runs s0 ∧ r_info r0 = r_info r ∧ r_status r0 = r_status r) ∨
  ∃ ev, ev ∈ new ∧ announces ev r.

(** All rows but those of [D] are settled. *)
Definition logged (D : run_row → Prop) (s0 s : db) : Prop :=
  ∃ new, outbox_events s = outbox_events s0 ++ new ∧
    ∀ r, r ∈ job_runs s → D r ∨ settled s0 new r.

Definition none (_ : run_row) : Prop := False.

Lemma logged_refl s : logged none s s.
Proof. exists []. split; [by rewrite app_nil_r|]. intros r Hr. right. left. eauto. Qed.

Lemma logged_weaken (D D' : run_row → Prop) s0 s :
  (∀ r, r ∈ job_runs s → D r → D' r) → logged D s0 s → logged D' s0 s.
Proof. intros HD (new & En & Hr). exists new. split; [done|]. intros r Hin. destruct (Hr r Hin); auto. Qed.

Lemma logged_same D s0 s s' :
  job_runs s' = job_runs s → outbox_events s' = outbox_events s → logged D s0 s → logged D s0 s'.
Proof. intros Er Eo. unfold logged. by rewrite Er, Eo. Qed.

(** A settled row stays settled under an update that keeps its status. *)
Lemma settled_same s0 new r r' :
  r_info r' = r_info r → r_status r' = r_status r → settled s0 new r → settled s0 new r'.
Proof.
  intros Ei Es. unfold settled, announces, r_id, r_tenant_id, r_job_id, r_attempt.
  by rewrite Ei, Es.
Qed.

Lemma logged_other_event D runID st ty id t s0 s :
  logged D s0 s → logged D s0 (insert_run_event runID st ty id t s).
Proof.
  intros (new & En & Hr). unfold insert_run_event. eexists. cbn.
  split; [rewrite En, <- app_assoc; reflexivity|]. intros r Hin.
  destruct (Hr r Hin) as [?|[?|(ev & ? & ?)]]; [by left|right; by left|].
  right. right. exists ev. split; [|done]. apply elem_of_app. by left.
Qed.

Section log.
Context `{HostLaws} `{ScheduleCalc} `{Digest} `{JobCodec}.

Definition logs_from (D : run_row → Prop) {A} (m : tx A) : Prop :=
  ∀ e s0 s, logged D s0 s → wp m (λ _ s', logged none s0 s') e s.
Definition logs {A} (m : tx A) : Prop := logs_from none m.

Lemma logs_bind {A B} D (m : tx A) (f : A → tx B) :
  logs_from D m → (∀ a, logs (f a)) → logs_from D (mbind f m).
Proof.
  intros Hm Hf e s0 s Hl. apply wp_bind. eapply wp_mono; [by apply Hm|].
  intros a s1 Hl1. by apply Hf.
Qed.

(** Steps that neither touch the rows nor take events away. *)
Definition calm {A} (m : tx A) : Prop :=
  ∀ D e s0 s, logged D s0 s → wp m (λ _ s', logged D s0 s') e s.

Lemma calm_bind {A B} (m : tx A) (f : A → tx B) : calm m → (∀ a, calm (f a)) → calm (mbind f m).
Proof.
  intros Hm Hf D e s0 s Hl. apply wp_bind. eapply wp_mono; [by apply Hm|].
  intros a s1 Hl1. by apply Hf.
Qed.

Lemma calm_ret {A} (a : A) : calm (mret a).
Proof. by intros D e s0 s Hl. Qed.
Lemma calm_fail {A} err : calm (@fail A err).
Proof. done. Qed.
Lemma calm_get : calm get.
Proof. by intros D e s0 s Hl. Qed.
Lemma calm_now : calm now.
Proof. by intros D e s0 s Hl. Qed.
Lemma calm_locked : calm locked.
Proof. by intros D e s0 s Hl. Qed.
Lemma calm_lift {A} (r : result A) : calm (lift r).
Proof. intros D e s0 s Hl. by apply wp_lift. Qed.

Lemma calm_modify f :
  (∀ s, job_runs (f s) = job_runs s ∧ outbox_events (f s) = outbox_events s) → calm (modify f).
Proof. intros Hf D e s0 s Hl. apply wp_modify. destruct (Hf s). by eapply logged_same. Qed.

Lemma calm_new_uuid : calm new_uuid.
Proof. intros D e s0 s Hl. eapply logged_same; [| |exact Hl]; done. Qed.
Lemma calm_time_now : calm time_now.
Proof. intros D e s0 s Hl. eapply logged_same; [| |exact Hl]; done. Qed.

Lemma calm_other_event runID st ty : calm (emitRunEventTx runID st ty).
Proof.
  intros D e s0 s Hl. unfold emitRunEventTx. apply wp_bind. unfold wp at 1, new_uuid.
  apply wp_exec_run_event. intros _. apply logged_other_event.
  eapply logged_same; [| |exact Hl]; done.
Qed.

Lemma logs_calm {A B} D (m : tx A) (f : A → tx B) :
  calm m → (∀ a, logs_from D (f a)) → logs_from D (mbind f m).
Proof.
  intros Hm Hf e s0 s Hl. apply wp_bind. eapply wp_mono; [by apply Hm|].
  intros a s1 Hl1. by apply Hf.
Qed.

Lemma logs_of_calm {A} (m : tx A) : calm m → logs m.
Proof. intros Hm e s0 s. apply Hm. Qed.

Lemma logs_fail {A} D err : logs_from D (@fail A err).
Proof. done. Qed.

Lemma logs_for_each {A} (l : list A) f : (∀ x, logs (f x)) → logs (for_each l f).
Proof.
  intros Hf. induction l as [|x l IH]; cbn; [apply logs_of_calm, calm_ret|].
  apply logs_bind; [apply Hf|by intros []].
Qed.

Lemma logs_weaken {A} (D D' : run_row → Prop) (m : tx A) :
  (∀ r, D r → D' r) → logs_from D' m → logs_from D m.
Proof. intros HD Hm e s0 s Hl. apply Hm. eapply logged_weaken; [|done]. auto. Qed.

(** ** Updates, insertions, events *)

Lemma sql_update_none {A} (p : A → bool) f l : sql_select p l = [] → sql_update p f l = l.
Proof.
  unfold sql_select, sql_update. induction l as [|x l IH]; cbn; [done|].
  destruct (p x); [done|]. intros E. f_equal. auto.
Qed.

Lemma logged_update D (p : run_row → bool) f s0 s :
  (∀ r, r ∈ job_runs s → p r = true → D (f r)) → logged none s0 s →
  logged D s0 (set_job_runs (sql_update p f (job_runs s)) s).
Proof.
  intros Hf (new & En & Hr). exists new. split; [done|]. cbn.
  intros r (y & Hy & ->)%elem_of_sql_update. destruct (p y) eqn:Ep; [left; auto|].
  right. by destruct (Hr y Hy).
Qed.

(** An update makes its rows obligations; without rows it changes nothing. *)
Lemma logs_update {A} p f (k : list run_row → tx A) :
  logs (k []) →
  (∀ rows, (∀ r, r ∈ rows → ∃ y, p y = true ∧ r = f y) → logs_from (λ r, r ∈ rows) (k rows)) →
  logs (updated ← update_runs p f; k updated).
Proof.
  intros Hnil Hk e s0 s Hl. apply wp_bind. unfold update_runs. apply wp_bind, wp_get.
  apply wp_bind, wp_modify, wp_ret. destruct (sql_select p (job_runs s)) as [|r0 rs] eqn:Esel.
  - rewrite (sql_update_none _ _ _ Esel). apply Hnil. by eapply logged_same; [| |exact Hl].
  - rewrite <- Esel. apply Hk.
    + intros r Hr. apply list_elem_of_In, in_map_iff in Hr as (y & <- & Hy).
      apply list_elem_of_In, elem_of_sql_select in Hy as [? _]. eauto.
    + apply logged_update; [|done]. intros r Hr Hp.
      apply list_elem_of_In, in_map, list_elem_of_In, elem_of_sql_select. done.
Qed.

Lemma logged_update_same (p : run_row → bool) f s0 s :
  (∀ r, r ∈ job_runs s → p r = true → r_info (f r) = r_info r ∧ r_status (f r) = r_status r) →
  logged none s0 s → logged none s0 (set_job_runs (sql_update p f (job_runs s)) s).
Proof.
  intros Hf (new & En & Hr). exists new. split; [done|]. cbn.
  intros r (y & Hy & ->)%elem_of_sql_update. right. destruct (Hr y Hy) as [[]|Hs].
  destruct (p y) eqn:Ep; [|done]. destruct (Hf y Hy Ep). by eapply settled_same.
Qed.

Lemma logs_update_same p f :
  (∀ r, p r = true → r_info (f r) = r_info r ∧ r_status (f r) = r_status r) →
  logs (update_runs p f).
Proof.
  intros Hf e s0 s Hl. unfold update_runs. apply wp_bind, wp_get.
  apply wp_bind, wp_modify, wp_ret. apply logged_update_same; [|done]. auto.
Qed.

Lemma logged_emit (D : run_row → Prop) runID st id t s0 s :
  logged (λ r, D r ∨ r_id r = runID ∧ r_status r = st) s0 s →
  logged D s0 (insert_run_event runID st (status_text st) id t s).
Proof.
  intros (new & En & Hr). unfold insert_run_event. eexists. cbn.
  split; [rewrite En, <- app_assoc; reflexivity|]. intros r Hin.
  destruct (Hr r Hin) as [[?|[Eid Est]]|Hs]; [by left| |].
  - right. right. eexists. split.
    + apply elem_of_app. right. apply list_elem_of_In, in_map, list_elem_of_In.
      apply elem_of_sql_select. split; [|exact Hin]. unfold run_has.
      rewrite <- Eid, String.eqb_refl, Est. by apply bool_decide_eq_true.
    + unfold announces. cbn. by rewrite <- Est.
  - right. destruct Hs as [?|(ev & ? & ?)]; [by left|right].
    exists ev. split; [|done]. apply elem_of_app. by left.
Qed.

(** The event of a status settles the rows of that run and status. *)
Lemma logs_to_emit (D : run_row → Prop) runID st e s0 s :
  logged (λ r, D r ∨ r_id r = runID ∧ r_status r = st) s0 s →
  wp (emitRunLifecycleEventTx runID st) (λ _ s', logged D s0 s') e s.
Proof.
  intros Hl. unfold emitRunLifecycleEventTx, emitRunEventTx. apply wp_bind.
  unfold wp at 1, new_uuid. apply wp_exec_run_event. intros _. apply logged_emit. eapply logged_same; [| |exact Hl]; done.
Qed.

Lemma logs_emit_last D runID st :
  (∀ r, D r → r_id r = runID ∧ r_status r = st) → logs_from D (emitRunLifecycleEventTx runID st).
Proof.
  intros HD e s0 s Hl. apply logs_to_emit. eapply logged_weaken; [|exact Hl].
  intros r _ Hr. right. auto.
Qed.

Lemma logs_insert {A} r (k : tx A) : logs_from (λ x, x = r) k → logs (_ ← insert_run r; k).
Proof.
  intros Hk e s0 s (new & En & Hr). apply wp_bind. unfold insert_run. apply wp_modify, Hk.
  exists new. split; [done|]. cbn. intros x [Hx| ->%list_elem_of_singleton]%elem_of_app; [|by left].
  right. by destruct (Hr x Hx).
Qed.

Lemma logs_emit_all {A} (D : run_row → Prop) runID st (k : tx A) :
  (∀ r, D r → r_id r = runID ∧ r_status r = st) → logs k →
  logs_from D (_ ← emitRunLifecycleEventTx runID st; k).
Proof. intros HD Hk. apply logs_bind; [by apply logs_emit_last|]. by intros []. Qed.

(** ** The operations *)

Lemma calm_for_each {A} (l : list A) f : (∀ x, calm (f x)) → calm (for_each l f).
Proof.
  intros Hf. induction l as [|x l IH]; cbn; [apply calm_ret|].
  apply calm_bind; [apply Hf|by intros []].
Qed.

Create HintDb calm.
Hint Resolve calm_ret calm_fail calm_get calm_now calm_locked calm_lift calm_new_uuid
  calm_time_now calm_other_event : calm.

Ltac calm_step :=
  lazymatch goal with
  | |- calm (mbind _ _) => apply calm_bind; [|intros ?]
  | |- calm (if ?b then _ else _) => destruct b
  | |- calm (match ?x with _ => _ end) => destruct x
  | |- calm (for_each _ _) => apply calm_for_each; intros ?
  | |- calm _ => solve [eauto with calm]
  end.
Ltac calms := cbv zeta; repeat calm_step.

Create HintDb logs.

Ltac logs_step :=
  lazymatch goal with
  | |- logs ?m => change (logs_from none m)
  | |- logs_from (λ r, r ∈ []) _ => apply (logs_weaken _ none); [by intros ? ?%elem_of_nil|]
  | |- logs_from none (mbind _ (insert_run _)) => apply logs_insert
  | |- logs_from none (mbind _ (update_runs _ _)) => apply logs_update; [|intros ? ?]
  | |- logs_from _ (if ?b then _ else _) => destruct b
  | |- logs_from _ (match ?x with _ => _ end) => destruct x
  | |- logs_from none (for_each [] _) => cbn [for_each]
  | |- logs_from none (for_each _ _) => apply logs_for_each; intros ?
  | |- logs_from _ (fail _) => apply logs_fail
  | |- logs_from _ (emitRunLifecycleEventTx _ _) => apply logs_emit_last; try solve [intros ? []]
  | |- logs_from _ (mbind _ (emitRunLifecycleEventTx _ _)) => apply logs_bind; [|intros ?]
  | |- logs_from _ (mbind _ (for_each _ _)) => apply logs_bind; [|intros ?]
  | |- logs_from _ (mbind _ _) =>
      first [apply logs_calm; [solve [calms]|intros ?] | apply logs_bind; [|intros ?]]
  | |- logs_from none ?m =>
      change (logs m); first [solve [apply logs_of_calm; calms] | solve [eauto with logs]]
  end.
Ltac log := cbv zeta; repeat logs_step.

(** The rows of a [RETURNING] list satisfy what the update wrote. *)
Ltac returned y Hy :=
  let r := fresh in let Hin := fresh in
  intros r Hin;
  match goal with Hr : ∀ r, r ∈ _ → ∃ y, _ |- _ => destruct (Hr r Hin) as (y & Hy & ->) end.

Lemma calm_rearm r t : calm (rearmFixedDelay r t).
Proof. unfold rearmFixedDelay. calms. Qed.
Hint Resolve calm_rearm : calm.

Lemma calm_cancel_command r reason : calm (enqueueExecutorCancellationTx r reason).
Proof.
  unfold enqueueExecutorCancellationTx. calms. apply calm_modify. intros s. unfold upsert_command.
  by destruct (sql_exists _ _).
Qed.
Hint Resolve calm_cancel_command : calm.

(** Each covered run is announced by its turn of the loop. *)
Lemma logs_covered t rows :
  (∀ r, r ∈ rows → r_status r = Cancelled) →
  logs_from (λ r, r ∈ rows) (for_each rows (after_cover t)).
Proof.
  induction rows as [|row rows IH]; intros Hst; cbn [for_each].
  { eapply (logs_weaken _ none); [by intros r ?%elem_of_nil|]. log. }
  unfold after_cover. cbv zeta. intros e s0 s Hl. apply wp_bind, wp_bind.
  eapply wp_mono; [apply (logs_to_emit (λ r, r ∈ rows)); eapply logged_weaken; [|exact Hl]|].
  { intros r _ [->|Hr]%elem_of_cons; [right|by left]. split; [done|]. apply Hst. left. }
  intros [] s1 Hl1. eapply wp_mono.
  { match goal with |- wp ?m _ _ _ => assert (Hc : calm m) by calms end. by apply Hc. }
  intros [] s2 Hl2. apply IH; [|done]. intros r Hr. apply Hst. by right.
Qed.

Lemma logs_applyBlockAction jobID action : logs (applyBlockAction jobID action).
Proof.
  unfold applyBlockAction. log. apply logs_covered.
  returned y Hy. done.
Qed.
Hint Resolve logs_applyBlockAction : logs.

Lemma logs_applyBlockPolicy jobID policy : logs (applyBlockPolicy jobID policy).
Proof. unfold applyBlockPolicy. log. Qed.
Hint Resolve logs_applyBlockPolicy : logs.

Lemma logs_insert_shards first index info shards :
  (∀ id n shard, i_id (info id n shard) = id) → logs (insert_shards first index info shards).
Proof.
  intros Hid. revert index. induction shards as [|shard shards IH]; intros index; cbn [insert_shards];
    log. intros r ->. split; [|done]. apply Hid.
Qed.
Hint Resolve logs_insert_shards : logs.

Lemma calm_broadcast_nodes groupID jobID : calm (broadcast_nodes groupID jobID).
Proof. unfold broadcast_nodes, liveExecutorNodesTx, jobExecutorLabels. calms. Qed.
Hint Resolve calm_broadcast_nodes : calm.

Lemma calm_reserve_dispatch p c r t : calm (reserve_dispatch p c r t).
Proof. unfold reserve_dispatch. calms. Qed.
Hint Resolve calm_reserve_dispatch : calm.

Lemma logs_enqueue_dependent parent child : logs (enqueue_dependent parent child).
Proof.
  unfold enqueue_dependent. log; by intros r ->.
Qed.
Hint Resolve logs_enqueue_dependent : logs.

Lemma logs_enqueueDependentRuns parent : logs (enqueueDependentRuns parent).
Proof. unfold enqueueDependentRuns. log. Qed.
Hint Resolve logs_enqueueDependentRuns : logs.

Lemma holds_lease_id r row : holds_lease r row = true → r_id row = ID r.
Proof. by intros (? & _)%holds_lease_true. Qed.

Lemma run_has_id runID st row : run_has runID st row = true → r_id row = runID.
Proof. unfold run_has. by intros [?%String.eqb_eq _]%andb_true_iff. Qed.

Lemma logs_CompleteRun r success status body msg : logs (CompleteRun r success status body msg).
Proof.
  unfold CompleteRun. log. returned y Hy. split; [exact (holds_lease_id _ _ Hy)|by destruct success].
Qed.

Lemma logs_insertRetryRunTx previous delay : logs (insertRetryRunTx previous delay).
Proof. unfold insertRetryRunTx. log. by intros r ->. Qed.
Hint Resolve logs_insertRetryRunTx : logs.

Lemma logs_FailRun r state status msg delay : logs (FailRun r state status msg delay).
Proof.
  unfold FailRun. log; returned y Hy; (split; [exact (holds_lease_id _ _ Hy)|done]).
Qed.

Lemma logs_update_one p f runID st :
  (∀ r, p r = true → r_id (f r) = runID ∧ r_status (f r) = st) →
  logs (_ ← update_one p f; emitRunLifecycleEventTx runID st).
Proof.
  intros Hf e s0 s Hl. apply wp_bind. unfold update_one, update_runs.
  apply wp_bind, wp_bind, wp_get, wp_bind, wp_modify, wp_ret. destruct (Nat.eqb _ _); [|done].
  apply wp_ret. apply (logs_emit_last (λ r, r_id r = runID ∧ r_status r = st)); [done|].
  apply logged_update; [|done]. auto.
Qed.

Lemma logs_update_one_same p f :
  (∀ r, p r = true → r_info (f r) = r_info r ∧ r_status (f r) = r_status r) → logs (update_one p f).
Proof.
  intros Hf. unfold update_one. apply logs_bind; [by apply logs_update_same|intros rows].
  log.
Qed.

Lemma logs_MarkClaimedWaitingCallback r status h d : logs (MarkClaimedWaitingCallback r status h d).
Proof.
  unfold MarkClaimedWaitingCallback. apply logs_calm; [auto with calm|intros ?].
  apply logs_update_one. intros y Hy. split; [exact (holds_lease_id _ _ Hy)|done].
Qed.

Lemma logs_PrepareClaimedExecutorDispatch r node addr h d :
  logs (PrepareClaimedExecutorDispatch r node addr h d).
Proof.
  unfold PrepareClaimedExecutorDispatch. apply logs_calm; [auto with calm|intros ?].
  apply logs_update_one. intros y Hy. split; [exact (holds_lease_id _ _ Hy)|done].
Qed.

Lemma logs_AssignClaimedRunExecutor r node addr : logs (AssignClaimedRunExecutor r node addr).
Proof.
  unfold AssignClaimedRunExecutor. apply logs_calm; [auto with calm|intros ?].
  by apply logs_update_one_same.
Qed.

Lemma logs_ActivateClaimedRunToken r h d : logs (ActivateClaimedRunToken r h d).
Proof.
  unfold ActivateClaimedRunToken. apply logs_calm; [auto with calm|intros ?].
  by apply logs_update_one_same.
Qed.

Lemma callback_open_id runID h t row : callback_open runID h t row = true → r_id row = runID.
Proof.
  unfold callback_open. intros [[Hr _]%andb_true_iff _]%andb_true_iff. by eapply run_has_id.
Qed.

Lemma logs_CompleteCallback runID h succeeded msg : logs (CompleteCallback runID h succeeded msg).
Proof.
  unfold CompleteCallback. log. returned y Hy. split; [exact (callback_open_id _ _ _ _ Hy)|done].
Qed.

Lemma logs_ExpireCallbacks : logs ExpireCallbacks.
Proof.
  unfold ExpireCallbacks, expire_callback. log; returned y Hy;
    (split; [exact (run_has_id _ _ _ Hy)|done]).
Qed.

Lemma cancellable_id tenantID runID row : cancellable tenantID runID row = true → r_id row = runID.
Proof. unfold cancellable. by intros [[_ ?%String.eqb_eq]%andb_true_iff _]%andb_true_iff. Qed.

Lemma logs_CancelRun tenantID runID reason : logs (CancelRun tenantID runID reason).
Proof.
  unfold CancelRun. log. returned y Hy. split; [|done].
  match goal with Hr : ∀ r, r ∈ ?row :: _ → ∃ y, _ |- _ =>
    destruct (Hr row (list_elem_of_here _ _)) as (y' & Hy' & ->) end.
  transitivity runID; [exact (cancellable_id _ _ _ Hy)|symmetry; exact (cancellable_id _ _ _ Hy')].
Qed.

Lemma logs_insert_manual tenantID jobID key input id sched over groupID strategy action pending maxq :
  logs (insert_manual tenantID jobID key input id sched over groupID strategy action pending maxq).
Proof.
  unfold insert_manual. log; by intros r ->.
Qed.
Hint Resolve logs_insert_manual : logs.

Lemma calm_reserve_key tenantID jobID key id sched : calm (reserve_key tenantID jobID key id sched).
Proof. unfold reserve_key. calms. Qed.
Hint Resolve calm_reserve_key : calm.

Lemma logs_TriggerJobWithOptions tenantID jobID key input over :
  logs (TriggerJobWithOptions tenantID jobID key input over).
Proof. unfold TriggerJobWithOptions, trigger_fresh, liveExecutorNodesTx. log. Qed.

(** ** The due jobs *)

Lemma logs_enqueue_one j sched wall st next : logs (enqueue_one j sched wall st next).
Proof. unfold enqueue_one. log; by intros r ->. Qed.
Hint Resolve logs_enqueue_one : logs.

Lemma logs_enqueue_slow j strategy wall sched next : logs (enqueue_slow j strategy wall sched next).
Proof. unfold enqueue_slow. log. Qed.
Hint Resolve logs_enqueue_slow : logs.

Lemma calm_update_next jobID next : calm (update_next jobID next).
Proof. unfold update_next. calms. Qed.
Hint Resolve calm_update_next : calm.

(** The queued statements settle every row they insert. *)
Definition batch_logs (items : list batch_item) : Prop := logs (for_each items run_item).

Lemma for_each_app {A} (l k : list A) f e s :
  for_each (l ++ k) f e s = (_ ← for_each l f; for_each k f) e s.
Proof.
  revert s. induction l as [|x l IH]; intros s; cbn; [done|]. unfold mbind, tx_bind.
  destruct (f x e s) as [[[] s1]|]; [|done]. apply IH.
Qed.

Lemma batch_logs_app a b : batch_logs a → batch_logs b → batch_logs (a ++ b).
Proof.
  intros Ha Hb e s0 s Hl. unfold wp. rewrite for_each_app.
  apply (logs_bind none (for_each a run_item) (λ _, for_each b run_item)); [done|by intros []|done].
Qed.

Lemma batch_logs_pair r id :
  r_status r = Pending → batch_logs [QueueInsert r; QueueEvent (r_id r) id].
Proof.
  intros Hst e s0 s (new & En & Hr). cbn [for_each run_item]. unfold insert_run.
  apply wp_bind, wp_modify, wp_bind, wp_exec_run_event. intros _. apply wp_ret.
  apply (logged_emit none (r_id r) Pending). exists new. split; [done|]. cbn.
  intros x [Hx| ->%list_elem_of_singleton]%elem_of_app; [|by left; right].
  right. by destruct (Hr x Hx).
Qed.

Definition logs_items {A} (items : A → list batch_item) (m : tx A) : Prop :=
  ∀ e s0 s, logged none s0 s → wp m (λ a s', logged none s0 s' ∧ batch_logs (items a)) e s.

Lemma logs_items_bind {A B} (items : B → list batch_item) (m : tx A) (f : A → tx B) :
  logs m → (∀ a, logs_items items (f a)) → logs_items items (mbind f m).
Proof.
  intros Hm Hf e s0 s Hl. apply wp_bind. eapply wp_mono; [by apply Hm|].
  intros a s1 Hl1. by apply Hf.
Qed.

Lemma logs_items_then {A B} (ia : A → list batch_item) (ib : B → list batch_item) m f :
  logs_items ia m → (∀ a, batch_logs (ia a) → logs_items ib (f a)) → logs_items ib (mbind f m).
Proof.
  intros Hm Hf e s0 s Hl. apply wp_bind. eapply wp_mono; [by apply Hm|].
  intros a s1 [Hl1 Ha]. by apply Hf.
Qed.

Lemma logs_items_ret {A} (items : A → list batch_item) a :
  batch_logs (items a) → logs_items items (mret a).
Proof. by intros Ha e s0 s Hl. Qed.

Lemma batch_logs_nil : batch_logs [].
Proof. apply logs_of_calm. apply calm_ret. Qed.

Lemma logs_enqueue_fast j sched : logs_items id (enqueue_fast j sched).
Proof.
  unfold enqueue_fast. apply logs_items_bind; [log|intros runID].
  apply logs_items_bind; [log|intros eventID]. apply logs_items_bind; [log|intros t].
  apply logs_items_ret.
  exact (batch_logs_pair (new_run (schedule_info j sched t None runID None)
           Pending None None None None) eventID eq_refl).
Qed.

Lemma logs_enqueue_occurrences j strategy fast wall due next :
  logs_items snd (enqueue_occurrences j strategy fast wall due next).
Proof.
  revert next. induction due as [|sched due IH]; intros next; cbn [enqueue_occurrences].
  { apply logs_items_ret, batch_logs_nil. }
  apply (logs_items_then snd).
  - destruct fast.
    + apply (logs_items_then id); [apply logs_enqueue_fast|intros items Hi]. by apply logs_items_ret.
    + apply logs_items_bind; [log|intros next']. apply logs_items_ret, batch_logs_nil.
  - intros [next' items] Hi. apply (logs_items_then snd); [apply IH|]. intros [next'' later] Hl.
    apply logs_items_ret. by apply batch_logs_app.
Qed.

Lemma batch_logs_update jobID next : batch_logs [QueueUpdate jobID next].
Proof. unfold batch_logs. cbn. log. Qed.

Lemma logs_enqueue_job strategies j : logs_items id (enqueue_job strategies j).
Proof.
  unfold enqueue_job. destruct (j_next_run_at j); [|apply logs_items_ret, batch_logs_nil].
  apply logs_items_bind; [log|intros wall]. apply logs_items_bind; [log|intros [due next]].
  cbv zeta. apply (logs_items_then snd); [apply logs_enqueue_occurrences|intros [next' items] Hi].
  destruct (_ && _).
  - apply logs_items_ret, batch_logs_app; [done|apply batch_logs_update].
  - apply logs_items_bind; [log|intros []]. by apply logs_items_ret.
Qed.

Lemma logs_enqueue_jobs strategies js : logs_items id (enqueue_jobs strategies js).
Proof.
  induction js as [|j js IH]; cbn [enqueue_jobs]; [apply logs_items_ret, batch_logs_nil|].
  apply (logs_items_then id); [apply logs_enqueue_job|intros items Hi].
  apply (logs_items_then id); [apply IH|intros later Hl]. apply logs_items_ret. by apply batch_logs_app.
Qed.

Lemma logs_EnqueueDue batch : logs (EnqueueDue batch).
Proof.
  unfold EnqueueDue. cbv zeta. do 3 (apply logs_calm; [auto with calm|intros ?]).
  do 2 (apply logs_calm; [auto with calm|intros ?]).
  intros e s0 s Hl. apply wp_bind. eapply wp_mono; [by apply logs_enqueue_jobs|].
  intros items s1 [Hl1 Hi]. by apply Hi.
Qed.

(** ** Claims *)

(** A candidate still has the status it was selected with. *)
Definition as_selected (s : db) (c : candidate) : Prop :=
  ∀ row, row ∈ job_runs s → r_id row = r_id (cd_run c) → r_status row = r_status (cd_run c).

Lemma logs_claim_one owner lease c e s0 s :
  logged none s0 s → as_selected s c →
  wp (claim_one owner lease c) (λ _ s', logged none s0 s') e s.
Proof.
  intros Hl Hc. unfold claim_one. apply wp_bind, wp_now, wp_bind. unfold wp, new_uuid.
  change (logged none s0 (set_uuids_drawn (S (uuids_drawn s)) s)) in Hl.
  change (as_selected (set_uuids_drawn (S (uuids_drawn s)) s) c) in Hc.
  cbn [mbind tx_bind]. set (s1 := set_uuids_drawn _ s) in *. clearbody s1.
  fold (wp (A:=ClaimedRun)). apply wp_bind. unfold update_runs.
  apply wp_bind, wp_get, wp_bind, wp_modify, wp_ret.
  destruct (r_status (cd_run c) =st Pending) eqn:Est.
  - match goal with |- wp ?m _ _ _ =>
      assert (Hm : logs_from (λ r, r_id r = r_id (cd_run c) ∧ r_status r = Running) m)
        by (log; auto) end.
    apply Hm, logged_update; [|done].
    intros r Hr [Hid%String.eqb_eq _]%andb_true_iff. done.
  - match goal with |- wp ?m _ _ _ => assert (Hm : logs m) by log end.
    apply Hm, logged_update_same; [|done]. apply bool_decide_eq_false in Est.
    intros r Hr [Hid%String.eqb_eq Hcl]%andb_true_iff. split; [done|].
    specialize (Hc r Hr Hid). unfold claimable in Hcl. cbn.
    by destruct (r_status r).
Qed.

Lemma logs_claim_all owner lease cs e s0 s :
  NoDup (map (r_id ∘ cd_run) cs) → logged none s0 s → (∀ c, c ∈ cs → as_selected s c) →
  wp (claim_all owner lease cs) (λ _ s', logged none s0 s') e s.
Proof.
  revert s. induction cs as [|c cs IH]; intros s Hn Hl Hc; cbn [claim_all]; [by apply wp_ret|].
  cbn in Hn. apply NoDup_cons in Hn as [Hid Hn]. apply wp_bind.
  pose proof (logs_claim_one owner lease c e s0 s Hl (Hc c (list_elem_of_here _ _))) as Hone.
  unfold wp at 1. unfold wp in Hone. destruct (claim_one owner lease c e s) as [[x s1]|] eqn:E1; [|done].
  pose proof (claim_one_rows _ _ _ _ _ _ _ E1) as [F1 _]. apply wp_bind.
  eapply wp_mono; [apply IH; [done|done|]|by intros xs s2 Hl2; apply wp_ret].
  intros c' Hc' row Hrow Er. apply list_elem_of_lookup_1 in Hrow as [i Hi].
  destruct (Forall2_lookup_r _ _ _ _ _ F1 Hi) as (row0 & Hi0 & Ei & [->|[_ Hin]]).
  - apply (Hc c'); [by right|by eapply list_elem_of_lookup_2|done].
  - exfalso. apply Hid. apply list_elem_of_singleton in Hin. cbn in Hin. rewrite <- Hin.
    replace (r_id row0) with (r_id (cd_run c')) by (unfold r_id in *; congruence).
    by apply list_elem_of_In, (in_map (r_id ∘ cd_run)), list_elem_of_In.
Qed.

Lemma logs_ClaimRuns owner limit lease e s :
  Inv s → wp (ClaimRuns owner limit lease) (λ _ s', logged none s s') e s.
Proof.
  intros Hs. unfold ClaimRuns. apply wp_bind, wp_now, wp_bind, wp_locked, wp_bind, wp_get.
  apply logs_claim_all; [by apply eligible_ids|apply logged_refl|].
  intros c Hc row Hrow Er. apply eligible_run in Hc. f_equal.
  eapply (NoDup_key_inj r_id); [apply (inv_ids s Hs)|done..].
Qed.

(** ** Every step *)

(** Old events may only go (when they are cleaned up), new ones come last and
    settle the runs. *)
Definition announced (s s' : db) : Prop :=
  ∃ kept new, outbox_events s' = kept ++ new ∧ (∀ ev, ev ∈ kept → ev ∈ outbox_events s) ∧
    ∀ r, r ∈ job_runs s' → settled s new r.

Lemma announced_subset s s' :
  (∀ r, r ∈ job_runs s' → r ∈ job_runs s) → (∀ ev, ev ∈ outbox_events s' → ev ∈ outbox_events s) →
  announced s s'.
Proof.
  intros Hr He. exists (outbox_events s'), []. split_and!; [by rewrite app_nil_r|done|].
  intros r Hin. left. eauto.
Qed.

Lemma logged_announced s s' : logged none s s' → announced s s'.
Proof.
  intros (new & En & Hr). exists (outbox_events s), new. split_and!; [done|done|].
  intros r Hin. by destruct (Hr r Hin).
Qed.

Lemma commit_logs {A} (m : tx A) e s : logs m → announced s (commit m e s).2.
Proof.
  intros Hm. apply (commit_wp m (announced s)).
  - eapply wp_mono; [apply Hm, logged_refl|]. intros a s'. apply logged_announced.
  - by apply announced_subset.
Qed.

Lemma calm_insertJobScriptVersion t j lang src rem : calm (insertJobScriptVersion t j lang src rem).
Proof. unfold insertJobScriptVersion. calms. Qed.
Hint Resolve calm_insertJobScriptVersion : calm.

Lemma calm_replaceJobExecutorLabels id req exc : calm (replaceJobExecutorLabels id req exc).
Proof. unfold replaceJobExecutorLabels, insert_label. calms. Qed.
Hint Resolve calm_replaceJobExecutorLabels : calm.

Lemma calm_load_job tenantID id : calm (load_job tenantID id).
Proof. unfold load_job. calms. Qed.
Hint Resolve calm_load_job : calm.

Lemma calm_CreateJob j : calm (CreateJob j).
Proof. unfold CreateJob. calms. Qed.
Lemma calm_UpdateJob j : calm (UpdateJob j).
Proof. unfold UpdateJob. calms. Qed.
Lemma calm_SetJobEnabled t id b v : calm (SetJobEnabled t id b v).
Proof. unfold SetJobEnabled. calms. Qed.
Lemma calm_RollbackJobScriptVersion t j v n r : calm (RollbackJobScriptVersion t j v n r).
Proof. unfold RollbackJobScriptVersion. calms. Qed.
Lemma calm_SetJobDependencies t p cs : calm (SetJobDependencies t p cs).
Proof. unfold SetJobDependencies, insert_dependency. calms. Qed.

Lemma delete_oldest_subset {A} same old at_ locks n (l : list A) x :
  x ∈ delete_oldest same old at_ locks n l → x ∈ l.
Proof. unfold delete_oldest. by intros [_ ?]%elem_of_sql_delete. Qed.

Lemma exec_announced o e st : Inv (sdb st) → announced (sdb st) (sdb (exec o e st)).
Proof.
  intros Hs. destruct o; cbn [exec sdb];
    try (apply commit_logs, logs_of_calm; first [apply calm_CreateJob | apply calm_UpdateJob
      | apply calm_SetJobEnabled | apply calm_RollbackJobScriptVersion | apply calm_SetJobDependencies]).
  - apply commit_logs, logs_EnqueueDue.
  - pose proof (commit_wp (ClaimRuns owner limit lease) (announced (sdb st)) e (sdb st)) as Hc.
    destruct (commit (ClaimRuns _ _ _) e (sdb st)) as [[cls|err] s'] eqn:E;
      (apply Hc; [|by apply announced_subset]);
      (eapply wp_mono; [by apply logs_ClaimRuns|]; intros a s1; apply logged_announced).
  - apply commit_logs, logs_CompleteRun.
  - apply commit_logs, logs_FailRun.
  - apply commit_logs, logs_MarkClaimedWaitingCallback.
  - apply commit_logs, logs_PrepareClaimedExecutorDispatch.
  - apply commit_logs, logs_AssignClaimedRunExecutor.
  - apply commit_logs, logs_ActivateClaimedRunToken.
  - apply commit_logs, logs_CompleteCallback.
  - apply commit_logs, logs_ExpireCallbacks.
  - apply commit_logs, logs_CancelRun.
  - apply commit_logs, logs_TriggerJobWithOptions.
  - unfold DeleteJob, commit, mbind, tx_bind; cbn.
    destruct (sql_exists _ _); apply announced_subset; cbn; try done.
    by intros r [_ ?]%elem_of_sql_delete.
  - unfold PurgeRunHistory, commit, mbind, tx_bind; cbn.
    destruct (purge_ids _ _ _ _ _ _) as [|i ids]; apply announced_subset; cbn; try done.
    by intros r [_ ?]%elem_of_sql_delete.
  - apply announced_subset; [done|]. intros ev. apply delete_oldest_subset.
Qed.

(** C9: no transaction creates a run or changes its status without writing,
    in the same transaction, the outbox event that announces it: the event
    names the run, its job, tenant, attempt and the new status.  What an older
    event says is never changed. *)
Theorem status_changes_are_announced st st' :
  reachable st → step st st' →
  ∃ kept new, outbox_events (sdb st') = kept ++ new ∧
    (∀ ev', ev' ∈ kept → ∃ ev, ev ∈ outbox_events (sdb st) ∧ event_facts ev = event_facts ev') ∧
    ∀ r', r' ∈ job_runs (sdb st') →
      (∃ r, r ∈ job_runs (sdb st) ∧ r_info r = r_info r' ∧ r_status r = r_status r') ∨
      ∃ ev, ev ∈ new ∧ announces ev r'.
Proof.
  intros Hst%reachable_SInv Hstep. revert Hst. destruct Hstep as [o e st Ha|s' st Ho].
  - intros [Hs _]. destruct (exec_announced o e st Hs) as (kept & new & E & Hk & Hr).
    exists kept, new. split_and!; [done| |done]. intros ev Hev. eauto.
  - intros _. exists (outbox_events s'), []. destruct Ho as [Er _ _ _ He].
    split_and!; [by rewrite app_nil_r|done|]. cbn. rewrite Er. eauto.
Qed.
End log.
End EventLog.
