(* ===== verification/Outbox.v ===== *)
(** * Events and their deliveries

    The transactions of the scheduler only append events to the outbox, with
    fresh identifiers and not yet published; those of [Notifications] turn them
    into deliveries.  Together they keep an event unpublished exactly as long
    as one of its deliveries is pending. *)
From Stdlib Require Import ZArith Lia Ascii String.
From stdpp Require Import base list strings relations.
From S2P Require Import Prelude GoStrings Tables Utf8 Executors RunStore JobStore Scheduler ExecutorStore Notifications History RunInvariants Capacity System EventLog.

Module Outbox.
Import Executors RunStore JobStore Scheduler Notifications History RunInvariants Capacity System.

Section grown.
Context `{HostLaws} `{ScheduleCalc} `{Digest} `{JobCodec}.

(** ** Transactions that append events *)

Record grown (s0 s : db) : Prop := {
  gr_events : ∃ new, outbox_events s = outbox_events s0 ++ new ∧
    ∀ x, x ∈ new → e_published_at x = None;
  gr_ids : NoDup (map e_id (outbox_events s0)) → NoDup (map e_id (outbox_events s));
  gr_deliveries : deliveries s = deliveries s0;
  gr_drawn : (uuids_drawn s0 ≤ uuids_drawn s)%nat;
}.

Lemma grown_refl s : grown s s.
Proof.
  constructor; [exists []|done|done|done]. split; [by rewrite app_nil_r|].
  by intros x ?%elem_of_nil.
Qed.

Lemma grown_same s0 s s' :
  outbox_events s' = outbox_events s → deliveries s' = deliveries s →
  (uuids_drawn s ≤ uuids_drawn s')%nat → grown s0 s → grown s0 s'.
Proof.
  intros Eo Ed Eu [G1 G2 G3 G4]. constructor; rewrite ?Eo, ?Ed; [done..|lia].
Qed.

(** The primary key keeps the identifiers apart. *)
Lemma grown_event runID st ty id t s0 s :
  event_conflict runID st id s = false → grown s0 s →
  grown s0 (insert_run_event runID st ty id t s).
Proof.
  intros Hc [(new & En & Hn) G2 G3 G4]. constructor; [| |done|done].
  - eexists. split; [cbn; rewrite En, <- app_assoc; reflexivity|].
    intros x [Hx|Hx]%elem_of_app; [by apply Hn|].
    by apply list_elem_of_In, in_map_iff in Hx as (r & <- & _).
  - intros Hn0. specialize (G2 Hn0). cbn. rewrite map_app, map_map. cbn.
    unfold event_conflict, sql_count in Hc. destruct (sql_select _ _) as [|r [|r' l]].
    + by rewrite app_nil_r.
    + cbn in Hc. rewrite sql_exists_false in Hc. apply NoDup_app. split_and!; [done| |apply NoDup_singleton].
      intros i Hi ->%list_elem_of_singleton. apply list_elem_of_In, in_map_iff in Hi as (x & E & Hx).
      apply list_elem_of_In in Hx. apply (Hc x) in Hx. by rewrite E, String.eqb_refl in Hx.
    + done.
Qed.

#[local] Instance grown_preorder : PreOrder grown.
Proof.
  split; [exact grown_refl|]. intros s0 s1 s2 [(n1 & E1 & U1) I1 D1 W1] [(n2 & E2 & U2) I2 D2 W2].
  constructor; [|auto|congruence|lia]. exists (n1 ++ n2). split; [by rewrite E2, E1, app_assoc|].
  intros x [?|?]%elem_of_app; auto.
Qed.

Notation emits := (preserves grown).

Lemma grown_frame s s' :
  outbox_events s' = outbox_events s → deliveries s' = deliveries s →
  (uuids_drawn s ≤ uuids_drawn s')%nat → grown s s'.
Proof. intros. by apply (grown_same s s). Qed.

Lemma emits_new_uuid : emits new_uuid.
Proof. intros e s. apply grown_frame; [done|done|]. cbn. lia. Qed.
Lemma emits_time_now : emits time_now.
Proof. intros e s. by apply grown_frame. Qed.
Hint Resolve emits_new_uuid emits_time_now : preserves.
Hint Extern 3 (emits (modify _)) =>
  solve [apply preserves_modify; intros ?; by apply grown_frame] : preserves.

Lemma emits_exec_event runID st ty id : emits (exec_run_event runID st ty id).
Proof. intros e s. apply wp_exec_run_event. intros Hc. by apply grown_event. Qed.
Hint Resolve emits_exec_event : preserves.

Lemma emits_event runID st ty : emits (emitRunEventTx runID st ty).
Proof. unfold emitRunEventTx. preserve. Qed.
Hint Resolve emits_event : preserves.

Lemma emits_update_runs p f : emits (update_runs p f).
Proof. unfold update_runs. preserve. Qed.
Lemma emits_insert_run r : emits (insert_run r).
Proof. unfold insert_run. preserve. Qed.
Lemma emits_lifecycle runID st : emits (emitRunLifecycleEventTx runID st).
Proof. apply emits_event. Qed.
Hint Resolve emits_update_runs emits_insert_run emits_lifecycle : preserves.

Lemma emits_update_one p f : emits (update_one p f).
Proof. unfold update_one. preserve. Qed.
Lemma emits_rearm r t : emits (rearmFixedDelay r t).
Proof. unfold rearmFixedDelay. preserve. Qed.
Hint Resolve emits_update_one emits_rearm : preserves.

Lemma emits_cancel_command r reason : emits (enqueueExecutorCancellationTx r reason).
Proof.
  unfold enqueueExecutorCancellationTx. preserve. apply preserves_modify.
  intros s. unfold upsert_command. destruct (sql_exists _ _); by apply grown_frame.
Qed.
Hint Resolve emits_cancel_command : preserves.

Lemma emits_applyBlockAction jobID action : emits (applyBlockAction jobID action).
Proof. unfold applyBlockAction, after_cover. preserve. Qed.
Hint Resolve emits_applyBlockAction : preserves.
Lemma emits_applyBlockPolicy jobID policy : emits (applyBlockPolicy jobID policy).
Proof. unfold applyBlockPolicy. preserve. Qed.
Hint Resolve emits_applyBlockPolicy : preserves.

Lemma emits_insert_shards first index info shards : emits (insert_shards first index info shards).
Proof.
  revert index. induction shards as [|shard shards IH]; intros index; cbn [insert_shards]; preserve.
Qed.
Lemma emits_broadcast_nodes groupID jobID : emits (broadcast_nodes groupID jobID).
Proof. unfold broadcast_nodes, liveExecutorNodesTx, jobExecutorLabels. preserve. Qed.
Lemma emits_reserve_dispatch p c r t : emits (reserve_dispatch p c r t).
Proof. unfold reserve_dispatch. preserve. Qed.
Hint Resolve emits_insert_shards emits_broadcast_nodes emits_reserve_dispatch : preserves.

Lemma emits_enqueueDependentRuns parent : emits (enqueueDependentRuns parent).
Proof. unfold enqueueDependentRuns, enqueue_dependent. preserve. Qed.
Lemma emits_insertRetryRunTx previous delay : emits (insertRetryRunTx previous delay).
Proof. unfold insertRetryRunTx. preserve. Qed.
Hint Resolve emits_enqueueDependentRuns emits_insertRetryRunTx : preserves.

Lemma emits_enqueue_slow j strategy wall sched next : emits (enqueue_slow j strategy wall sched next).
Proof. unfold enqueue_slow, enqueue_one. preserve. Qed.
Lemma emits_update_next jobID next : emits (update_next jobID next).
Proof. unfold update_next. preserve. Qed.
Hint Resolve emits_enqueue_slow emits_update_next : preserves.

Lemma emits_enqueue_occurrences j strategy fast wall due next :
  emits (enqueue_occurrences j strategy fast wall due next).
Proof.
  revert next. induction due as [|sched due IH]; intros next; cbn [enqueue_occurrences];
    unfold enqueue_fast; preserve.
Qed.
Hint Resolve emits_enqueue_occurrences : preserves.

Lemma emits_enqueue_jobs strategies js : emits (enqueue_jobs strategies js).
Proof. induction js as [|j js IH]; cbn [enqueue_jobs]; unfold enqueue_job; preserve. Qed.
Lemma emits_run_item item : emits (run_item item).
Proof. unfold run_item. preserve. Qed.
Hint Resolve emits_enqueue_jobs emits_run_item : preserves.

(** ** Every transaction of the scheduler *)

Lemma emits_claim_all owner lease cs : emits (claim_all owner lease cs).
Proof. induction cs as [|c cs IH]; cbn [claim_all]; unfold claim_one; preserve. Qed.
Lemma emits_insertJobScriptVersion t j lang src rem : emits (insertJobScriptVersion t j lang src rem).
Proof. unfold insertJobScriptVersion. preserve. Qed.
Lemma emits_replaceJobExecutorLabels id req exc : emits (replaceJobExecutorLabels id req exc).
Proof. unfold replaceJobExecutorLabels, insert_label. preserve. Qed.
Lemma emits_load_job tenantID id : emits (load_job tenantID id).
Proof. unfold load_job. preserve. Qed.
Lemma emits_insert_manual tenantID jobID key input id sched over groupID strategy action pending maxq :
  emits (insert_manual tenantID jobID key input id sched over groupID strategy action pending maxq).
Proof. unfold insert_manual. preserve. Qed.
Lemma emits_reserve_key tenantID jobID key id sched : emits (reserve_key tenantID jobID key id sched).
Proof. unfold reserve_key. preserve. Qed.
Hint Resolve emits_claim_all emits_insertJobScriptVersion emits_replaceJobExecutorLabels
  emits_load_job emits_insert_manual emits_reserve_key : preserves.

Lemma commit_grown {A} (m : tx A) e s : emits m → grown s (commit m e s).2.
Proof. apply (preserves_commit grown). Qed.

(** The clean-up drops published events, with their deliveries. *)
Record trimmed (s s' : db) : Prop := {
  tr_events : ∀ x, x ∈ outbox_events s' → x ∈ outbox_events s;
  tr_ids : NoDup (map e_id (outbox_events s'));
  tr_kept : ∀ x, x ∈ outbox_events s → e_published_at x = None → x ∈ outbox_events s';
  tr_deliveries : deliveries s' = sql_select (λ y, sql_exists (λ x, e_id x ==s y_event_id y)
                                                  (outbox_events s')) (deliveries s);
  tr_drawn : uuids_drawn s' = uuids_drawn s;
}.

Lemma exec_outbox o e st :
  grown (sdb st) (sdb (exec o e st)) ∨
  ∃ retention, o = OpCleanup retention ∧ sdb (exec o e st) = (commit (CleanupAuxiliaryHistory retention) e (sdb st)).2.
Proof.
  destruct o; cbn [exec sdb]; try (by right; eauto); try (left; apply commit_grown).
  - unfold EnqueueDue. preserve.
  - left. pose proof (commit_grown (ClaimRuns owner limit lease) e (sdb st)) as Hc.
    destruct (commit (ClaimRuns _ _ _) e (sdb st)) as [[cls|err] s']; apply Hc; unfold ClaimRuns; preserve.
  - unfold CompleteRun. preserve.
  - unfold FailRun. preserve.
  - unfold MarkClaimedWaitingCallback. preserve.
  - unfold PrepareClaimedExecutorDispatch. preserve.
  - unfold AssignClaimedRunExecutor. preserve.
  - unfold ActivateClaimedRunToken. preserve.
  - unfold CompleteCallback. preserve.
  - unfold ExpireCallbacks, expire_callback. preserve.
  - unfold CancelRun. preserve.
  - unfold TriggerJobWithOptions, trigger_fresh, liveExecutorNodesTx. preserve.
  - unfold CreateJob. preserve.
  - unfold UpdateJob. preserve.
  - unfold SetJobEnabled. preserve.
  - unfold DeleteJob. preserve.
  - unfold RollbackJobScriptVersion. preserve.
  - unfold SetJobDependencies, insert_dependency. preserve.
  - unfold PurgeRunHistory. preserve.
Qed.

(** A row the condition does not accept survives, when rows have keys. *)
Lemma delete_oldest_keeps {A} (key : A → string) p at_ locks n (l : list A) x :
  NoDup (map key l) → x ∈ l → p x = false →
  x ∈ delete_oldest (λ a b, key a ==s key b) p at_ locks n l.
Proof.
  intros Hn Hx Hp. unfold delete_oldest. apply elem_of_sql_delete. split; [|done].
  apply not_true_iff_false. rewrite existsb_exists. intros (d & Hd & E%String.eqb_eq).
  apply list_elem_of_In, elem_of_take in Hd as (i & Hd%list_elem_of_lookup_2 & _).
  apply list_elem_of_In, filter_In in Hd as [Hd _].
  apply list_elem_of_In, elem_of_sort_by, elem_of_sql_select in Hd as [Hpd Hd].
  rewrite (NoDup_key_inj key l x d) in Hp by done. congruence.
Qed.

Lemma cleanup_trimmed retention e s :
  NoDup (map e_id (outbox_events s)) → trimmed s (commit (CleanupAuxiliaryHistory retention) e s).2.
Proof.
  intros Hn. constructor; [| | |done|done].
  - intros x. apply EventLog.delete_oldest_subset.
  - by apply NoDup_map_filter.
  - intros x Hx Hp. apply (delete_oldest_keeps e_id); [done|done|]. by rewrite Hp.
Qed.
End grown.
End Outbox.
