(* ===== verification/Deliveries.v ===== *)
(** * Events and deliveries over all transactions

    The invariant that ties the outbox to the deliveries, kept by every
    transaction of the scheduler and of the other components, and what it gives:
    an event is published exactly when its deliveries are done, a finished
    delivery is final, and a pending one is never lost. *)
From Stdlib Require Import ZArith Lia Ascii String.
From stdpp Require Import base list strings relations.
From S2P Require Import Prelude GoStrings GoUrl Clusters Tables Utf8 Executors RunStore JobStore Scheduler Routing ExecutorStore Notifications ExecutorCommands RunLogs History RunInvariants Capacity System Components Outbox.

Module Deliveries.
Import Executors RunStore JobStore Scheduler Routing ExecutorStore Notifications ExecutorCommands RunLogs History RunInvariants System Components Outbox Clusters.

Definition has_pending (id : string) (l : list delivery_row) : Prop :=
  ∃ y, y ∈ l ∧ y_event_id y = id ∧ y_pending y = true.

Definition y_key (y : delivery_row) : string * string := (y_event_id y, y_channel_id y).

(** A delivery as later transactions find it: what identifies it stays, and a
    finished one does not change at all. *)
Definition y_evolves (y y' : delivery_row) : Prop :=
  y_id y' = y_id y ∧ y_key y' = y_key y ∧ y_created_at y' = y_created_at y ∧
  y_attempts y ≤ y_attempts y' ∧ (y_pending y = false → y' = y).

#[export] Instance y_evolves_preorder : PreOrder y_evolves.
Proof.
  split; [by intros y|]. intros y0 y1 y2 (A1 & A2 & A3 & A4 & A5) (B1 & B2 & B3 & B4 & B5).
  unfold y_evolves. split_and!; [congruence..|lia|]. intros Hp.
  specialize (A5 Hp) as E1. subst y1. auto.
Qed.

Section deliveries.
Context `{HostLaws} `{ScheduleCalc} `{Digest} `{JobCodec} `{UuidParser} `{CredentialCodec}
        `{IPLiterals}.

Record NInv (s : db) : Prop := {
  ni_eids : NoDup (map e_id (outbox_events s));
  ni_event : ∀ y, y ∈ deliveries s → y_event_id y ∈ map e_id (outbox_events s);
  ni_pub : ∀ x y, x ∈ outbox_events s → y ∈ deliveries s → y_event_id y = e_id x →
    (e_published_at x = None ↔ has_pending (e_id x) (deliveries s));
  ni_keys : NoDup (map y_key (deliveries s));
  ni_ids : NoDup (map y_id (deliveries s));
  ni_drawn : ∀ y, y ∈ deliveries s → drawn (y_id y) s;
}.

(** What a transaction but the clean-up does to the deliveries. *)
Record dmoves (s s' : db) : Prop := {
  dm_kept : ∀ y, y ∈ deliveries s → ∃ y', y' ∈ deliveries s' ∧ y_evolves y y';
  dm_rows : ∀ y', y' ∈ deliveries s' →
    (∃ y, y ∈ deliveries s ∧ y_evolves y y') ∨ ∃ n, (uuids_drawn s ≤ n)%nat ∧ y_id y' = uuid n;
  dm_drawn : (uuids_drawn s ≤ uuids_drawn s')%nat;
}.

Definition keeps (s s' : db) : Prop := NInv s → NInv s' ∧ dmoves s s'.

Lemma dmoves_same s s' :
  deliveries s' = deliveries s → (uuids_drawn s ≤ uuids_drawn s')%nat → dmoves s s'.
Proof.
  intros E Hd. constructor; rewrite ?E; [intros y Hy|intros y Hy; left|done]; by exists y.
Qed.

Lemma dmoves_trans s0 s1 s2 : dmoves s0 s1 → dmoves s1 s2 → dmoves s0 s2.
Proof.
  intros [A1 A2 A3] [B1 B2 B3]. constructor; [| |lia].
  - intros y Hy. destruct (A1 y Hy) as (y1 & Hy1 & E1). destruct (B1 y1 Hy1) as (y2 & Hy2 & E2).
    exists y2. split; [done|by transitivity y1].
  - intros y2 Hy2. destruct (B2 y2 Hy2) as [(y1 & Hy1 & E1)|(n & Hn & En)]; [|right; exists n; split; [lia|done]].
    destruct (A2 y1 Hy1) as [(y0 & Hy0 & E0)|(n & Hn & En)].
    + left. exists y0. split; [done|by transitivity y1].
    + right. exists n. split; [done|]. destruct E1 as (-> & _). done.
Qed.

#[local] Instance keeps_preorder : PreOrder keeps.
Proof.
  split; [by intros s Hs; split; [|apply dmoves_same]|].
  intros s0 s1 s2 G1 G2 Hs0. destruct (G1 Hs0) as [Hs1 M1]. destruct (G2 Hs1) as [Hs2 M2].
  split; [done|by eapply dmoves_trans].
Qed.

(** ** The scheduler's transactions *)

Lemma NInv_grown s s' : NInv s → grown s s' → NInv s'.
Proof.
  intros [G1 G2 G3 G4 G5 G6] [(new & En & Hn) Hi Hd Hu].
  constructor; rewrite ?Hd; [by apply Hi| | |done|done|].
  - intros y Hy. rewrite En, map_app. apply elem_of_app. left. auto.
  - intros x y Hx Hy E. rewrite En in Hx. apply elem_of_app in Hx as [Hx|Hx]; [by apply (G3 x y)|].
    exfalso. specialize (Hi G1). rewrite En, map_app in Hi. apply NoDup_app in Hi as (_ & Hdis & _).
    apply (Hdis (e_id x)); [rewrite <- E; auto|]. by apply list_elem_of_In, in_map, list_elem_of_In.
  - intros y Hy. eapply drawn_mono; [exact Hu|auto].
Qed.

Lemma keeps_grown s s' : grown s s' → keeps s s'.
Proof.
  intros Hg Hs. split; [by eapply NInv_grown|]. apply dmoves_same; apply Hg.
Qed.

(** The clean-up removes only deliveries of published events, so no pending one. *)
Lemma NInv_trimmed s s' : NInv s → trimmed s s' → NInv s' ∧
  (∀ y, y ∈ deliveries s → y_pending y = true → y ∈ deliveries s') ∧
  ∀ y, y ∈ deliveries s' → y ∈ deliveries s.
Proof.
  intros [G1 G2 G3 G4 G5 G6] [T1 T0 T2 T3 T4].
  assert (Hsub : ∀ y, y ∈ deliveries s' → y ∈ deliveries s).
  { intros y. rewrite T3. by intros [_ ?]%elem_of_sql_select. }
  assert (Hkeep : ∀ x y, x ∈ outbox_events s' → y ∈ deliveries s → y_event_id y = e_id x →
            y ∈ deliveries s').
  { intros x y Hx Hy E. rewrite T3. apply elem_of_sql_select. split; [|done].
    apply sql_exists_true. exists x. split; [done|]. by apply String.eqb_eq. }
  split_and!; [|intros y Hy Hp|exact Hsub].
  - constructor.
    + done.
    + intros y Hy. rewrite T3 in Hy. apply elem_of_sql_select in Hy as [Hx _].
      apply sql_exists_true in Hx as (x & Hx & E%String.eqb_eq). rewrite <- E.
      by apply list_elem_of_In, in_map, list_elem_of_In.
    + intros x y Hx Hy E. rewrite (G3 x y) by auto. split.
      * intros (y1 & ? & ? & ?). exists y1. split_and!; [|done..]. by eapply Hkeep.
      * intros (y1 & ? & ? & ?). exists y1. split_and!; [|done..]. auto.
    + rewrite T3. by apply NoDup_map_filter.
    + rewrite T3. by apply NoDup_map_filter.
    + intros y Hy. unfold drawn. rewrite T4. apply G6. auto.
  - pose proof (G2 y Hy) as Hx. apply list_elem_of_In, in_map_iff in Hx as (x & E & Hx).
    apply list_elem_of_In in Hx. apply (Hkeep x); [|done|done]. apply T2; [done|].
    apply (G3 x y Hx Hy); [done|]. by exists y.
Qed.

(** ** Updates of deliveries *)

(** An update of pending deliveries that publishes the events [q] accepts: they
    have no pending delivery left, the others have one as before. *)
Lemma keeps_settle s s' p f (q : string → bool) g :
  deliveries s' = sql_update p f (deliveries s) →
  outbox_events s' = sql_update (λ x, q (e_id x)) g (outbox_events s) →
  uuids_drawn s' = uuids_drawn s →
  (∀ y, y ∈ deliveries s → p y = true → y_evolves y (f y)) →
  (∀ x, e_id (g x) = e_id x ∧ e_published_at (g x) ≠ None) →
  (∀ id, id ∈ map y_event_id (deliveries s) →
     if q id then ¬ has_pending id (deliveries s')
     else has_pending id (deliveries s) ↔ has_pending id (deliveries s')) →
  keeps s s'.
Proof.
  intros Ed Eo Eu Hf Hg Hq [G1 G2 G3 G4 G5 G6].
  assert (Hev : ∀ y, y ∈ deliveries s → y_evolves y (if p y then f y else y)).
  { intros y Hy. destruct (p y) eqn:E; [by apply Hf|done]. }
  split.
  - constructor.
    + rewrite Eo, sql_update_key; [done|]. apply Hg.
    + intros y' Hy'. rewrite Ed in Hy'. apply elem_of_sql_update in Hy' as (y & Hy & ->).
      rewrite Eo, sql_update_key by apply Hg. destruct (Hev y Hy) as (_ & [= -> _] & _). auto.
    + intros x' y' Hx' Hy' E. rewrite Eo in Hx'. apply elem_of_sql_update in Hx' as (x & Hx & Ex).
      pose proof Hy' as Hy2. rewrite Ed in Hy2. apply elem_of_sql_update in Hy2 as (y & Hy & ->).
      assert (Eid : e_id x' = e_id x) by (subst x'; destruct (q (e_id x)); [apply Hg|done]).
      rewrite Eid in E |- *. destruct (Hev y Hy) as (_ & [= E' _] & _). rewrite E' in E.
      assert (Hid : e_id x ∈ map y_event_id (deliveries s)).
      { rewrite <- E. by apply list_elem_of_In, in_map, list_elem_of_In. }
      specialize (Hq _ Hid). subst x'. destruct (q (e_id x)).
      * destruct (Hg x) as [_ Hp]. tauto.
      * rewrite <- Hq. by apply (G3 x y).
    + rewrite Ed, sql_update_key_where; [done|]. intros y Hy Hp. by destruct (Hf y Hy Hp) as (_ & ? & _).
    + rewrite Ed, sql_update_key_where; [done|]. intros y Hy Hp. by destruct (Hf y Hy Hp) as (? & _).
    + intros y' Hy'. rewrite Ed in Hy'. apply elem_of_sql_update in Hy' as (y & Hy & ->).
      destruct (Hev y Hy) as (-> & _). unfold drawn. rewrite Eu. by apply G6.
  - constructor; [| |lia].
    + intros y Hy. exists (if p y then f y else y). split; [|by apply Hev]. rewrite Ed.
      apply elem_of_sql_update. eauto.
    + intros y' Hy'. left. rewrite Ed in Hy'. apply elem_of_sql_update in Hy' as (y & Hy & ->). eauto.
Qed.

Lemma has_pending_update id p f l :
  (∀ y, y ∈ l → p y = true → y_event_id (f y) = y_event_id y) →
  (∀ y, y ∈ l → p y = true → y_event_id y = id → y_status (f y) = y_status y) →
  has_pending id l ↔ has_pending id (sql_update p f l).
Proof.
  intros Hid Hst. unfold has_pending, y_pending. split.
  - intros (y & Hy & E & Hp). exists (if p y then f y else y). split; [apply elem_of_sql_update; eauto|].
    destruct (p y) eqn:Ep; [|done]. by rewrite Hid, Hst.
  - intros (y' & Hy' & E & Hp). apply elem_of_sql_update in Hy' as (y & Hy & ->). exists y.
    destruct (p y) eqn:Ep; [|done]. rewrite Hid in E by done. by rewrite Hst in Hp.
Qed.

Lemma evolves_event y y' : y_evolves y y' → y_event_id y' = y_event_id y.
Proof. by intros (_ & [= -> _] & _). Qed.

(** Without a change of status no event is concerned. *)
Lemma keeps_update s p f :
  (∀ y, y ∈ deliveries s → p y = true → y_evolves y (f y) ∧ y_status (f y) = y_status y) →
  keeps s (set_deliveries (sql_update p f (deliveries s)) s).
Proof.
  intros Hf. apply (keeps_settle s _ p f (λ _, false) (publish_row 0)); try done.
  - cbn. symmetry. by apply sql_update_id.
  - intros y Hy Hp. by apply Hf.
  - intros id _. apply has_pending_update.
    + intros y Hy Hp. by apply evolves_event, Hf.
    + intros y Hy Hp _. by apply Hf.
Qed.

(** The rows a claim leases are pending. *)
Lemma picked_pending limit t locks s y :
  NInv s → y ∈ deliveries s → one_of (y_id y) (picked_deliveries limit t locks s) = true →
  delivery_claimable t y = true.
Proof.
  intros Hs Hy (i & Hi & <-%String.eqb_eq)%existsb_exists. unfold picked_deliveries in Hi.
  apply in_map_iff in Hi as (y0 & E & Hy0).
  apply list_elem_of_In, elem_of_take in Hy0 as (k & Hk%list_elem_of_lookup_2 & _).
  apply list_elem_of_In, filter_In in Hk as [Hk _].
  apply list_elem_of_In, elem_of_sort_by, elem_of_sql_select in Hk as [Hc Hk].
  by rewrite (NoDup_key_inj y_id (deliveries s) y y0) by (done || apply Hs).
Qed.

Lemma keeps_ClaimDeliveries owner limit : preserves keeps (ClaimNotificationDeliveries owner limit).
Proof.
  intros e s. unfold ClaimNotificationDeliveries. apply wp_bind, wp_get, wp_bind, wp_now.
  apply wp_bind, wp_locked, wp_bind, wp_modify, wp_bind, wp_get, wp_ret.
  intros Hs. apply keeps_update; [|done]. intros y Hy Hp. split; [|done].
  apply picked_pending in Hp; [|done|done]. unfold delivery_claimable in Hp.
  apply andb_true_iff in Hp as [[Hp _]%andb_true_iff _].
  unfold y_evolves. split_and!; try done; [cbn; lia|]. congruence.
Qed.

Lemma held_pending owner t y : delivery_held owner t y = true → y_pending y = true.
Proof. unfold delivery_held. by intros [[? _]%andb_true_iff _]%andb_true_iff. Qed.

Lemma keeps_RetryDelivery owner id msg delay : preserves keeps (RetryNotificationDelivery owner id msg delay).
Proof.
  intros e s. unfold RetryNotificationDelivery. apply wp_bind, wp_get, wp_bind, wp_now. cbv zeta.
  destruct (negb _); [done|]. apply wp_modify, keeps_update. intros y Hy [_ Hp%held_pending]%andb_true_iff.
  split; [|done]. unfold y_evolves. split_and!; try done. congruence.
Qed.

(** ** Finishing deliveries *)

Lemma finish_evolves st t msg y : y_pending y = true → y_evolves y (finish_delivery st t msg y).
Proof. intros Hp. unfold y_evolves. split_and!; try done. congruence. Qed.

Lemma keeps_finish owner deliveryID eventID st msg :
  st ≠ DeliveryPending →
  preserves keeps (finishNotificationDelivery owner deliveryID eventID st msg).
Proof.
  intros Hst e s. unfold finishNotificationDelivery. apply wp_bind, wp_get, wp_bind, wp_now. cbv zeta.
  set (p := λ y, _ && _). set (f := finish_delivery st (tx_now e) (nullif_empty msg)).
  destruct (Nat.eqb (sql_count p (deliveries s)) 1) eqn:Ec; [|done]. cbn [negb].
  assert (Hp : ∀ y, p y = true → y_event_id y = eventID ∧ y_pending y = true).
  { intros y [[_ ?%String.eqb_eq]%andb_true_iff ?%held_pending]%andb_true_iff. done. }
  assert (Hev : ∀ y, p y = true → y_evolves y (f y)) by (intros y Hy; by apply finish_evolves, Hp).
  assert (Hoth : ∀ id, id ≠ eventID →
            has_pending id (deliveries s) ↔ has_pending id (sql_update p f (deliveries s))).
  { intros id Hid. apply has_pending_update; [intros y _ Hy; by apply evolves_event, Hev|].
    intros y _ Hy E. destruct (Hp y Hy). congruence. }
  apply wp_bind, wp_modify, wp_bind, wp_get. cbn [deliveries set_deliveries].
  destruct (sql_exists _ _) eqn:Ex.
  - apply wp_ret, (keeps_settle s _ p f (λ _, false) (publish_row 0)); try done.
    + cbn. symmetry. by apply sql_update_id.
    + intros y _. apply Hev.
    + intros id _. destruct (decide (id = eventID)) as [->|Hid]; [|by apply Hoth].
      apply sql_exists_true in Ex as (y & Hy & [E%String.eqb_eq Hpy]%andb_true_iff).
      split; intros _; [by exists y|]. apply Nat.eqb_eq in Ec.
      destruct (sql_select p (deliveries s)) as [|y0 l] eqn:E0; [unfold sql_count in Ec; by rewrite E0 in Ec|].
      assert (Hin : y0 ∈ sql_select p (deliveries s)) by (rewrite E0; left).
      apply elem_of_sql_select in Hin as [Hy0 Hin]. destruct (Hp y0 Hy0). by exists y0.
  - apply wp_modify, (keeps_settle s _ p f (λ id, id ==s eventID) (publish_row (tx_now e))); try done.
    + intros y _. apply Hev.
    + intros id _. destruct (String.eqb_spec id eventID) as [->|Hid]; [|by apply Hoth].
      rewrite sql_exists_false in Ex. intros (y & Hy & E & Hpy). specialize (Ex y Hy).
      by rewrite E, String.eqb_refl, Hpy in Ex.
Qed.

Lemma keeps_terminalize c msg : preserves keeps (terminalizePendingNotificationDeliveries c msg).
Proof.
  intros e s. unfold terminalizePendingNotificationDeliveries. apply wp_bind, wp_now, wp_modify.
  cbv zeta. set (p := λ y, (y_channel_id y ==s c) && y_pending y).
  set (f := λ y, mk_delivery _ _ _ _ _ _ _ _ _ _ _ _).
  set (affected := λ id, sql_exists (λ y, p y && (y_event_id y ==s id)) (deliveries s)).
  set (others := λ id, sql_exists (λ y, (y_event_id y ==s id) && y_pending y
                                        && (y_channel_id y !=s c)) (deliveries s)).
  apply (keeps_settle s _ p f (λ id, affected id && negb (others id)) (publish_row (tx_now e))); try done.
  - intros y _ [_ Hp]%andb_true_iff. unfold y_evolves. split_and!; try done. congruence.
  - intros id _. destruct (affected id) eqn:Ea; cbn [andb].
    + apply sql_exists_true in Ea as (y0 & Hy0 & [Hp0 E0%String.eqb_eq]%andb_true_iff).
      destruct (others id) eqn:Eo; cbn [negb].
      * apply sql_exists_true in Eo as (y1 & Hy1 & [[E1%String.eqb_eq Hp1]%andb_true_iff Hc1]%andb_true_iff).
        split; intros _; [|by exists y1]. exists y1. split_and!; [|done|done]. cbn.
        apply elem_of_sql_update. exists y1. split; [done|]. unfold p.
        apply negb_true_iff in Hc1. by rewrite Hc1.
      * rewrite <- not_true_iff_false in Eo. intros (y' & Hy' & E & Hp). apply Eo.
        apply elem_of_sql_update in Hy' as (y & Hy & ->). apply sql_exists_true. exists y. split; [done|].
        destruct (p y) eqn:Ep; [by cbn in Hp|]. rewrite E, String.eqb_refl, Hp. unfold p in Ep.
        rewrite Hp, andb_true_r in Ep. by rewrite Ep.
    + unfold affected in Ea. rewrite sql_exists_false in Ea.
      apply has_pending_update; [done|]. intros y Hy Hp E. specialize (Ea y Hy).
      by rewrite Hp, E, String.eqb_refl in Ea.
Qed.

(** ** Turning events into deliveries *)

(** The channels that are to hear of an event. *)
Definition subscribers (x : event_row) (s : db) : list channel_row :=
  sql_select (channel_matches (e_topic x) (e_tenant_id x)
                (validNotificationEventJobID (e_job_id x)) s) (channels s).

(** Which they are: enabled and not deleted, of the event's tenant, subscribed to
    its topic, for all jobs or for the event's job. *)
Definition hears (x : event_row) (s : db) (h : channel_row) : Prop :=
  h ∈ channels s ∧ h_tenant_id h = e_tenant_id x ∧ h_enabled h = true ∧ h_deleted_at h = None ∧
  e_topic x ∈ h_event_types h ∧
  (h_all_jobs h = true ∨
   ∃ b, b ∈ channel_jobs s ∧ b_channel_id b = h_id h ∧
        b_job_id b = validNotificationEventJobID (e_job_id x)).

Lemma elem_of_subscribers x s h : h ∈ subscribers x s ↔ hears x s h.
Proof.
  unfold subscribers, hears, channel_matches, one_of.
  rewrite elem_of_sql_select, !andb_true_iff, orb_true_iff, sql_exists_true, String.eqb_eq,
    bool_decide_eq_true, existsb_exists.
  setoid_rewrite andb_true_iff. setoid_rewrite String.eqb_eq. setoid_rewrite <- list_elem_of_In.
  naive_solver.
Qed.

Lemma matching_subscribers x s :
  NInv s → x ∈ outbox_events s →
  matchingNotificationChannelIDs (e_id x) (e_tenant_id x) (validNotificationEventJobID (e_job_id x)) s
    = sort_by String.leb (map h_id (subscribers x s)).
Proof.
  intros Hs Hx. unfold matchingNotificationChannelIDs.
  assert (Hin : x ∈ sql_select (λ x', e_id x' ==s e_id x) (outbox_events s)).
  { apply elem_of_sql_select. by rewrite String.eqb_refl. }
  destruct (sql_select _ (outbox_events s)) as [|x' l] eqn:E; [by apply elem_of_nil in Hin|]. cbn [head].
  assert (Hx' : x' ∈ sql_select (λ x', e_id x' ==s e_id x) (outbox_events s)) by (rewrite E; left).
  apply elem_of_sql_select in Hx' as [Eid%String.eqb_eq Hx'].
  rewrite (NoDup_key_inj e_id (outbox_events s) x' x); [done|apply Hs|done..].
Qed.

(** What the preparation of [x] may change. *)
Record about (x : event_row) (s s' : db) : Prop := {
  ab_inv : NInv s';
  ab_moves : dmoves s s';
  ab_channels : channels s' = channels s ∧ channel_jobs s' = channel_jobs s;
  ab_events : ∀ x', e_id x' ≠ e_id x → x' ∈ outbox_events s ↔ x' ∈ outbox_events s';
  ab_kept : ∀ y, y ∈ deliveries s → y ∈ deliveries s';
  ab_rows : ∀ y, y ∈ deliveries s' → y ∈ deliveries s ∨
    y_event_id y = e_id x ∧ y_pending y = true ∧ y_attempts y = 0;
}.

Lemma about_trans x s0 s1 s2 : about x s0 s1 → (NInv s1 → about x s1 s2) → about x s0 s2.
Proof.
  intros [A1 A2 [A3 A3'] A4 A5 A6] B. destruct (B A1) as [B1 B2 [B3 B3'] B4 B5 B6].
  constructor; [done| | | |auto|].
  - by eapply dmoves_trans.
  - split; congruence.
  - intros x' Hne. by rewrite A4, B4.
  - intros y Hy. destruct (B6 y Hy) as [Hy1|?]; [|by right]. auto.
Qed.

Lemma about_refl x s : NInv s → about x s s.
Proof. intros Hs. constructor; try done; [by apply dmoves_same|auto]. Qed.

Lemma NInv_insert x c s :
  NInv s → x ∈ outbox_events s → e_published_at x = None →
  sql_exists (λ y, (y_event_id y ==s e_id x) && (y_channel_id y ==s c)) (deliveries s) = false →
  ∀ t, about x s (set_deliveries (deliveries s ++ [mk_delivery (uuid (uuids_drawn s)) (e_id x) c
                    DeliveryPending 0 t None None None None None t])
                    (set_uuids_drawn (S (uuids_drawn s)) s)).
Proof.
  intros [G1 G2 G3 G4 G5 G6] Hx Hpub Hkey t. set (row := mk_delivery _ _ _ _ _ _ _ _ _ _ _ _).
  rewrite sql_exists_false in Hkey.
  assert (Hfresh : ∀ y, y ∈ deliveries s → y_id y ≠ uuid (uuids_drawn s)).
  { intros y Hy E. destruct (G6 y Hy) as (n & Hn & En). rewrite E in En. apply uuid_inj in En. lia. }
  constructor; [| |done|done|intros y Hy; cbn; apply elem_of_app; by left|].
  - constructor; cbn.
    + done.
    + intros y [Hy| ->%list_elem_of_singleton]%elem_of_app; [auto|]. cbn.
      by apply list_elem_of_In, in_map, list_elem_of_In.
    + intros x' y Hx' Hy E. destruct (decide (e_id x' = e_id x)) as [Eid|Hne].
      * rewrite (NoDup_key_inj e_id (outbox_events s) x' x) by done. split; [|done]. intros _.
        exists row. split_and!; [apply elem_of_app; right; left|done..].
      * apply elem_of_app in Hy as [Hy| ->%list_elem_of_singleton]; [|by cbn in E].
        rewrite (G3 x' y Hx' Hy E). unfold has_pending. setoid_rewrite elem_of_app.
        split; [naive_solver|]. intros (y1 & [Hy1| ->%list_elem_of_singleton] & ? & ?); [by exists y1|].
        by cbn in *.
    + rewrite map_app. apply NoDup_app. split_and!; [done| |apply NoDup_singleton].
      intros k Hk ->%list_elem_of_singleton. apply list_elem_of_In, in_map_iff in Hk as (y & E & Hy).
      apply list_elem_of_In in Hy. injection E as E1 E2. specialize (Hkey y Hy).
      by rewrite E1, E2, !String.eqb_refl in Hkey.
    + rewrite map_app. apply NoDup_app. split_and!; [done| |apply NoDup_singleton].
      intros k Hk ->%list_elem_of_singleton. apply list_elem_of_In, in_map_iff in Hk as (y & E & Hy).
      apply list_elem_of_In in Hy. by apply (Hfresh y).
    + intros y [Hy| ->%list_elem_of_singleton]%elem_of_app.
      * destruct (G6 y Hy) as (n & ? & ?). exists n. cbn. split; [lia|done].
      * exists (uuids_drawn s). cbn. split; [lia|done].
  - constructor; cbn; [| |lia].
    + intros y Hy. exists y. split; [apply elem_of_app; by left|done].
    + intros y [Hy| ->%list_elem_of_singleton]%elem_of_app; [left; by exists y|right].
      exists (uuids_drawn s). done.
  - cbn. intros y [Hy| ->%list_elem_of_singleton]%elem_of_app; [by left|by right].
Qed.

Lemma about_uuid x s : NInv s → about x s (set_uuids_drawn (S (uuids_drawn s)) s).
Proof.
  intros Hs. constructor; [|by apply dmoves_same; [|cbn; lia]|done|done|done|auto].
  apply (NInv_grown s); [done|]. apply grown_frame; [done|done|cbn; lia].
Qed.

Lemma wp_insert_delivery x c e s :
  NInv s → x ∈ outbox_events s → e_published_at x = None →
  wp (insert_delivery (e_id x) c)
     (λ _ s', about x s s' ∧ x ∈ outbox_events s' ∧
              (∃ y, y ∈ deliveries s' ∧ y_key y = (e_id x, c)) ∧
              ∀ y, y ∈ deliveries s' → y ∈ deliveries s ∨ y_channel_id y = c) e s.
Proof.
  intros Hs Hx Hp. unfold insert_delivery. apply wp_bind. unfold wp at 1, new_uuid.
  apply wp_bind, wp_now, wp_bind, wp_get. destruct (sql_exists _ _) eqn:E.
  - apply wp_ret. split_and!; [by apply about_uuid|done| |auto].
    apply sql_exists_true in E as (y & Hy & [E1%String.eqb_eq E2%String.eqb_eq]%andb_true_iff).
    exists y. split; [done|]. unfold y_key. congruence.
  - apply wp_modify. split_and!; [exact (NInv_insert x c s Hs Hx Hp E (tx_now e))|done| |].
    + eexists. split; [cbn; apply elem_of_app; right; left|done].
    + cbn. intros y [Hy| ->%list_elem_of_singleton]%elem_of_app; [by left|by right].
Qed.

Lemma wp_insert_deliveries x cs e s :
  NInv s → x ∈ outbox_events s → e_published_at x = None →
  wp (for_each cs (insert_delivery (e_id x)))
     (λ _ s', about x s s' ∧
              (∀ c, c ∈ cs → ∃ y, y ∈ deliveries s' ∧ y_key y = (e_id x, c)) ∧
              ∀ y, y ∈ deliveries s' → y ∈ deliveries s ∨ y_channel_id y ∈ cs) e s.
Proof.
  revert s. induction cs as [|c cs IH]; intros s Hs Hx Hp; cbn [for_each].
  { apply wp_ret. split_and!; [by apply about_refl| |auto]. by intros c ?%elem_of_nil. }
  apply wp_bind. eapply wp_mono; [by apply wp_insert_delivery|].
  intros [] s1 (A1 & Hx1 & (y & Hy & E) & R1).
  eapply wp_mono; [apply IH; [apply A1|done|done]|]. intros [] s2 (A2 & Hcs & R2).
  split_and!; [by eapply about_trans| |].
  - intros c' [->|Hc']%elem_of_cons; [|by apply Hcs]. exists y. split; [by apply A2|done].
  - intros y' Hy'. rewrite elem_of_cons. destruct (R2 y' Hy') as [Hy1|?]; [|auto].
    destruct (R1 y' Hy1); auto.
Qed.

Lemma about_publish x t s :
  NInv s → (∀ y, y ∈ deliveries s → y_event_id y ≠ e_id x) →
  about x s (publish (λ x', e_id x' ==s e_id x) t s).
Proof.
  intros Hs Hnone.
  assert (Hk : keeps s (publish (λ x', e_id x' ==s e_id x) t s)).
  { apply (keeps_settle s _ (λ _, false) id (λ i, i ==s e_id x) (publish_row t)); try done.
    - cbn. symmetry. by apply sql_update_id.
    - intros i Hi. apply list_elem_of_In, in_map_iff in Hi as (y & <- & Hy). apply list_elem_of_In in Hy.
      destruct (String.eqb_spec (y_event_id y) (e_id x)) as [E|]; [by destruct (Hnone y Hy)|done]. }
  destruct (Hk Hs) as [Hs' Hm]. constructor; [done|done|done| |done|auto].
  intros x' Hne. cbn. rewrite elem_of_sql_update. split.
  - intros Hx'. exists x'. split; [done|]. by rewrite (proj2 (String.eqb_neq _ _) Hne).
  - intros (x0 & Hx0 & E). destruct (String.eqb_spec (e_id x0) (e_id x)); subst; [by cbn in Hne|done].
Qed.

(** The channels that matched have a delivery; without one the event is done. *)
Definition handled (x : event_row) (cs : list channel_row) (s : db) : Prop :=
  match cs with
  | [] => ∀ x', x' ∈ outbox_events s → e_id x' = e_id x → e_published_at x' ≠ None
  | _ :: _ => ∀ h, h ∈ cs → ∃ y, y ∈ deliveries s ∧ y_key y = (e_id x, h_id h)
  end.

Lemma wp_prepare_event x e s :
  NInv s → x ∈ outbox_events s → e_published_at x = None →
  (∀ y, y ∈ deliveries s → y_event_id y ≠ e_id x) →
  wp (prepare_event x) (λ _ s', about x s s' ∧ handled x (subscribers x s) s' ∧
    ∀ y, y ∈ deliveries s' → y ∈ deliveries s ∨
      y_event_id y = e_id x ∧ y_channel_id y ∈ map h_id (subscribers x s)) e s.
Proof.
  intros Hs Hx Hp Hnone. unfold prepare_event. apply wp_bind, wp_get, wp_bind, wp_now.
  rewrite matching_subscribers by done.
  destruct (sort_by String.leb (map h_id (subscribers x s))) as [|c cs] eqn:Ec.
  - apply wp_modify. apply sort_by_nil_inv, map_eq_nil in Ec. rewrite Ec.
    split_and!; [by apply about_publish| |auto]. intros x' Hx' E.
    cbn in Hx'. apply elem_of_sql_update in Hx' as (x0 & _ & ->).
    destruct (e_id x0 ==s e_id x) eqn:E0; [done|]. by rewrite E, String.eqb_refl in E0.
  - assert (Hin : ∀ c', c' ∈ c :: cs ↔ c' ∈ map h_id (subscribers x s)).
    { intros c'. by rewrite <- Ec, elem_of_sort_by. }
    eapply wp_mono; [by apply wp_insert_deliveries|]. intros [] s' (A & Hcs & R). split_and!; [done| |].
    + unfold handled. destruct (subscribers x s) as [|h hs] eqn:Eh; [done|]. intros h' Hh'.
      apply Hcs, Hin, list_elem_of_In, in_map, list_elem_of_In. done.
    + intros y Hy. destruct (R y Hy) as [?|Hc]; [by left|]. destruct (ab_rows _ _ _ A y Hy) as [?|(? & _)]; [by left|].
      right. split; [done|]. by apply Hin.
Qed.

(** ** The whole batch *)

Record prepared (s0 : db) (done : list event_row) (s : db) : Prop := {
  pp_inv : NInv s;
  pp_moves : dmoves s0 s;
  pp_channels : channels s = channels s0 ∧ channel_jobs s = channel_jobs s0;
  pp_events : ∀ x, x ∈ outbox_events s0 → e_id x ∉ map e_id done → x ∈ outbox_events s;
  pp_rows : ∀ y, y ∈ deliveries s → y ∈ deliveries s0 ∨ ∃ x, x ∈ done ∧
    y_event_id y = e_id x ∧ y_pending y = true ∧ y_attempts y = 0 ∧
    y_channel_id y ∈ map h_id (subscribers x s0);
  pp_handled : ∀ x, x ∈ done → handled x (subscribers x s0) s;
}.

Lemma subscribers_same x s s' :
  channels s' = channels s → channel_jobs s' = channel_jobs s → subscribers x s' = subscribers x s.
Proof. intros E1 E2. unfold subscribers, channel_matches. by rewrite E1, E2. Qed.

Lemma handled_later x x' cs s s' :
  about x s s' → e_id x' ≠ e_id x → handled x' cs s → handled x' cs s'.
Proof.
  intros A Hne. unfold handled. destruct cs as [|h cs].
  - intros Hs x0 Hx0 E. apply Hs; [|done]. apply (ab_events _ _ _ A); [congruence|done].
  - intros Hs h' Hh'. destruct (Hs h' Hh') as (y & Hy & E). exists y. split; [by apply A|done].
Qed.

Lemma prepared_step s0 done x s s' :
  prepared s0 done s → e_id x ∉ map e_id done → about x s s' →
  handled x (subscribers x s) s' →
  (∀ y, y ∈ deliveries s' → y ∈ deliveries s ∨
     y_event_id y = e_id x ∧ y_channel_id y ∈ map h_id (subscribers x s)) →
  prepared s0 (done ++ [x]) s'.
Proof.
  intros [P1 P2 [P3 P3'] P4 P5 P6] Hnew A Hh R.
  rewrite (subscribers_same x s0 s) in Hh, R by done.
  assert (Hne : ∀ x', x' ∈ done → e_id x' ≠ e_id x).
  { intros x' Hx' E. apply Hnew. rewrite <- E. by apply list_elem_of_In, in_map, list_elem_of_In. }
  constructor.
  - apply A.
  - eapply dmoves_trans; [done|apply A].
  - destruct A as [_ _ [? ?] _ _ _]. split; congruence.
  - intros x' Hx' Hni. rewrite map_app, elem_of_app in Hni. cbn in Hni. rewrite list_elem_of_singleton in Hni.
    apply (ab_events _ _ _ A); [tauto|]. apply P4; tauto.
  - intros y Hy. destruct (R y Hy) as [Hys|[E Hc]].
    + destruct (P5 y Hys) as [?|(x' & ? & ?)]; [by left|right]. exists x'. split; [apply elem_of_app; by left|done].
    + destruct (ab_rows _ _ _ A y Hy) as [Hys|(_ & ? & ?)].
      * destruct (P5 y Hys) as [?|(x' & ? & E' & _)]; [by left|]. exfalso.
        apply (Hne x'); [done|congruence].
      * right. exists x. split; [apply elem_of_app; right; left|done].
  - intros x' [Hx'| ->%list_elem_of_singleton]%elem_of_app; [|done].
    eapply handled_later; [exact A|by apply Hne|by apply P6].
Qed.

(** Events that wait for their preparation. *)
Definition waiting (s : db) (x : event_row) : Prop :=
  x ∈ outbox_events s ∧ e_published_at x = None ∧ ∀ y, y ∈ deliveries s → y_event_id y ≠ e_id x.

Lemma wp_prepare_events s0 done todo e s :
  prepared s0 done s → NoDup (map e_id (done ++ todo)) → (∀ x, x ∈ todo → waiting s0 x) →
  wp (for_each todo prepare_event) (λ _ s', prepared s0 (done ++ todo) s') e s.
Proof.
  revert done s. induction todo as [|x todo IH]; intros done s P Hn Hw; cbn [for_each].
  { apply wp_ret. by rewrite app_nil_r. }
  destruct (Hw x (list_elem_of_here _ _)) as (Hx & Hp & Hnone).
  assert (Hnew : e_id x ∉ map e_id done).
  { rewrite map_app in Hn. apply NoDup_app in Hn as (_ & Hd & _). intros Hin. apply (Hd _ Hin). left. }
  apply wp_bind. eapply wp_mono; [apply wp_prepare_event; [apply P|by apply P|done|]|].
  - intros y Hy E. destruct (pp_rows _ _ _ P y Hy) as [Hy0|(x' & Hx' & E' & _)]; [by apply (Hnone y)|].
    apply Hnew. rewrite <- E, E'. by apply list_elem_of_In, in_map, list_elem_of_In.
  - intros [] s1 (A & Hh & R). rewrite (cons_middle x) in Hn. rewrite (cons_middle x), app_assoc.
    apply IH; [by eapply prepared_step|by rewrite <- app_assoc|]. intros x' Hx'. apply Hw. by right.
Qed.

Lemma elem_of_unprepared limit t locks s x :
  x ∈ unprepared_events limit t locks s → waiting s x.
Proof.
  intros (i & Hi%list_elem_of_lookup_2 & _)%elem_of_take.
  apply list_elem_of_In, filter_In in Hi as [Hi _].
  apply list_elem_of_In, elem_of_sort_by, elem_of_sql_select in Hi as [Hu Hx].
  unfold unprepared in Hu. apply andb_true_iff in Hu as [[Hp _]%andb_true_iff Hn].
  apply negb_true_iff in Hn. rewrite sql_exists_false in Hn. split_and!; [done|by apply bool_decide_eq_true in Hp|].
  intros y Hy E. specialize (Hn y Hy). by rewrite E, String.eqb_refl in Hn.
Qed.

Lemma unprepared_ids limit t locks s :
  NInv s → NoDup (map e_id (unprepared_events limit t locks s)).
Proof.
  intros Hs. unfold unprepared_events. rewrite <- firstn_map.
  eapply sublist_NoDup; [|apply sublist_take].
  apply NoDup_map_filter. eapply NoDup_Permutation_proper; [apply fmap_Permutation, sort_by_Permutation|].
  apply NoDup_map_filter, Hs.
Qed.

Lemma wp_Prepare limit e s :
  NInv s → wp (PrepareNotificationDeliveries limit)
              (λ _ s', prepared s (unprepared_events limit (tx_now e) (tx_locked e) s) s') e s.
Proof.
  intros Hs. unfold PrepareNotificationDeliveries. apply wp_bind, wp_get, wp_bind, wp_now.
  apply wp_bind, wp_locked.
  apply (wp_prepare_events s []); [|by apply unprepared_ids|by apply elem_of_unprepared].
  constructor; [done|by apply dmoves_same|done|done|auto|]. by intros x ?%elem_of_nil.
Qed.

(** ** All transactions *)

Lemma keeps_frame s s' :
  outbox_events s' = outbox_events s → deliveries s' = deliveries s →
  (uuids_drawn s ≤ uuids_drawn s')%nat → keeps s s'.
Proof. intros. by apply keeps_grown, grown_frame. Qed.

Lemma keeps_new_uuid : preserves keeps new_uuid.
Proof. intros e s. apply keeps_frame; [done|done|]. cbn. lia. Qed.
Lemma keeps_Prepare limit : preserves keeps (PrepareNotificationDeliveries limit).
Proof.
  intros e s. pose proof (wp_Prepare limit e s) as Hw. unfold wp in *.
  destruct (PrepareNotificationDeliveries limit e s) as [[u s']|]; [|done].
  intros Hs. split; by apply Hw.
Qed.
Hint Resolve keeps_new_uuid keeps_Prepare keeps_terminalize keeps_ClaimDeliveries
  keeps_RetryDelivery : preserves.
Hint Extern 3 (preserves keeps (modify _)) =>
  solve [apply preserves_modify; intros ?; by apply keeps_frame] : preserves.

Lemma keeps_insert_log r x : preserves keeps (insert_log r x).
Proof. unfold insert_log. preserve. Qed.
Hint Resolve keeps_insert_log : preserves.
Lemma keeps_insert_logs r l xs : preserves keeps (insert_logs r l xs).
Proof. revert l. induction xs as [|x xs IH]; intros l; cbn [insert_logs]; preserve. Qed.
Hint Resolve keeps_insert_logs : preserves.

Lemma cexec_keeps o e s : keeps s (cexec o e s).
Proof.
  destruct o; cbn [cexec]; apply (preserves_commit keeps).
  - unfold CreateExecutorGroup, replaceManualExecutorNodes, insert_manual_node. preserve.
  - unfold UpdateExecutorGroup, replaceManualExecutorNodes, insert_manual_node. preserve.
  - unfold DeleteExecutorGroup. preserve.
  - unfold RegisterExecutorNode. preserve.
  - unfold UnregisterExecutorNode. preserve.
  - unfold ReserveExecutorRoute, bump_counter, record_route. preserve.
  - unfold ReserveExecutorOverrideRoute, bump_counter, record_override. preserve.
  - unfold ClaimExecutorCommands. preserve.
  - unfold CompleteExecutorCommand. preserve.
  - unfold RetryExecutorCommand. preserve.
  - unfold AppendRunLogs, append_to. preserve.
  - unfold CreateNotificationChannel, validateNotificationChannelJobs, bind_channel_job. preserve.
  - unfold UpdateNotificationChannel, validateNotificationChannelJobs, bind_channel_job. preserve.
  - unfold SetNotificationChannelEnabled. preserve.
  - unfold DeleteNotificationChannel. preserve.
  - preserve.
  - preserve.
  - unfold CompleteNotificationDelivery. by apply keeps_finish.
  - unfold DeadLetterNotificationDelivery. by apply keeps_finish.
  - preserve.
  - unfold CreateKubernetesCluster. preserve.
  - unfold UpdateKubernetesCluster. preserve.
  - unfold DeleteKubernetesCluster. preserve.
Qed.

(** A step is a transaction of the scheduler or of another component. *)
Inductive nstep : sys → sys → Prop :=
| nstep_op o e st : allowed st o → nstep st (exec o e st)
| nstep_component o e st : nstep st (mk_sys (cexec o e (sdb st)) (inflight st)).

Definition ninitial (st : sys) : Prop :=
  initial st ∧ outbox_events (sdb st) = [] ∧ deliveries (sdb st) = [].
Definition nreachable (st : sys) : Prop := ∃ st0, ninitial st0 ∧ rtc nstep st0 st.

Lemma nstep_step st st' : nstep st st' → step st st'.
Proof. intros []; [by apply step_op|apply step_other, cexec_other]. Qed.

(** The theorems on the scheduler hold here, too. *)
Lemma nreachable_reachable st : nreachable st → reachable st.
Proof.
  intros (st0 & (Hi & _) & Hst). exists st0. split; [done|].
  eapply rtc_subrel; [|exact Hst]. apply nstep_step.
Qed.

(** What a step does to the deliveries; the clean-up may drop finished ones. *)
Record dstep (s s' : db) : Prop := {
  ds_pending : ∀ y, y ∈ deliveries s → y_pending y = true →
    ∃ y', y' ∈ deliveries s' ∧ y_evolves y y';
  ds_rows : ∀ y', y' ∈ deliveries s' →
    (∃ y, y ∈ deliveries s ∧ y_evolves y y') ∨ ∃ n, (uuids_drawn s ≤ n)%nat ∧ y_id y' = uuid n;
  ds_drawn : (uuids_drawn s ≤ uuids_drawn s')%nat;
}.

Lemma keeps_dstep s s' : NInv s → keeps s s' → NInv s' ∧ dstep s s'.
Proof.
  intros Hs Hk. destruct (Hk Hs) as [Hs' [K R D]]. split; [done|]. constructor; [|done|done]. auto.
Qed.

Lemma nstep_NInv st st' :
  NInv (sdb st) → nstep st st' → NInv (sdb st') ∧ dstep (sdb st) (sdb st').
Proof.
  intros Hs Hstep. revert Hs. destruct Hstep as [o e st _|o e st]; intros Hs.
  - destruct (exec_outbox o e st) as [Hg|(retention & -> & ->)]; [by apply keeps_dstep, keeps_grown|].
    pose proof (cleanup_trimmed retention e (sdb st) (ni_eids _ Hs)) as Ht.
    destruct (NInv_trimmed _ _ Hs Ht) as (Hs' & Hp & Hr). split; [done|].
    constructor; [|intros y Hy; left; exists y; split; [by apply Hr|done]|rewrite (tr_drawn _ _ Ht); lia].
    intros y Hy Hpy. exists y. split; [by apply Hp|done].
  - apply keeps_dstep; [done|]. apply cexec_keeps.
Qed.

Lemma nreachable_NInv st : nreachable st → NInv (sdb st).
Proof.
  intros (st0 & (_ & Eo & Ed) & Hst).
  assert (Hs : NInv (sdb st0)).
  { constructor; rewrite ?Eo, ?Ed; try apply NoDup_nil_2; intros; exfalso; by eapply not_elem_of_nil. }
  clear Eo Ed. induction Hst as [|st0 st1 st2 Hstep _ IH]; [done|]. apply IH.
  by apply (nstep_NInv st0 st1).
Qed.

Lemma nsteps_evolve st st' y y' :
  NInv (sdb st) → rtc nstep st st' → y ∈ deliveries (sdb st) → y' ∈ deliveries (sdb st') →
  y_id y' = y_id y → y_evolves y y'.
Proof.
  intros Hs Hst Hy. revert y'.
  assert (Hgen : ∀ st2, rtc nstep st st2 → NInv (sdb st2) ∧
            (uuids_drawn (sdb st) ≤ uuids_drawn (sdb st2))%nat ∧
            ∀ y', y' ∈ deliveries (sdb st2) → y_id y' = y_id y → y_evolves y y').
  { apply rtc_ind_r.
    - split_and!; [done|done|]. intros y' Hy' E.
      by rewrite (NoDup_key_inj y_id (deliveries (sdb st)) y' y) by (done || apply Hs).
    - intros st1 st2 _ Hstep (Hs1 & Hd1 & IH). destruct (nstep_NInv _ _ Hs1 Hstep) as [Hs2 [_ R D]].
      split_and!; [done|lia|]. intros y' Hy' E. destruct (R y' Hy') as [(y1 & Hy1 & E1)|(n & Hn & En)].
      + transitivity y1; [|done]. apply IH; [done|]. destruct E1 as (E1 & _). congruence.
      + destruct (ni_drawn _ Hs y Hy) as (m & Hm & Em). rewrite E, Em in En. apply uuid_inj in En. lia. }
  by apply (Hgen st').
Qed.

(** ** Theorems *)

(** C29: when the transactions that finish deliveries run one after another, an
    event that was turned into deliveries is published exactly when none of its
    deliveries is pending: it is not published early, and not forgotten after the
    last delivery was completed, dead-lettered or given up with its channel.  No
    two deliveries are for the same event and channel.  (At READ COMMITTED two
    transactions that finish the last two deliveries of an event at the same time
    do not see each other, and neither publishes it; the goroutines of a worker
    can do that.) *)
Theorem event_published_when_delivered st :
  nreachable st →
  (∀ x y, x ∈ outbox_events (sdb st) → y ∈ deliveries (sdb st) → y_event_id y = e_id x →
     (e_published_at x ≠ None ↔
      ∀ y', y' ∈ deliveries (sdb st) → y_event_id y' = e_id x → y_status y' ≠ DeliveryPending)) ∧
  NoDup (map y_key (deliveries (sdb st))).
Proof.
  intros Hs%nreachable_NInv. split; [|apply Hs]. intros x y Hx Hy E.
  pose proof (ni_pub _ Hs x y Hx Hy E) as Hp. unfold has_pending, y_pending in Hp. split.
  - intros Hne y' Hy' E' Est. apply Hne, Hp. exists y'. rewrite Est. done.
  - intros Hall Hnone. apply Hp in Hnone as (y' & Hy' & E' & Est).
    apply bool_decide_eq_true in Est. by apply (Hall y').
Qed.

(** A delivery that was completed or dead-lettered is final: whatever
    transactions follow, as long as its row exists it does not change.  A row
    keeps its event, its channel and its time of creation, and its attempts
    only grow. *)
Theorem finished_delivery_is_final st st' y y' :
  nreachable st → rtc nstep st st' → y ∈ deliveries (sdb st) → y' ∈ deliveries (sdb st') →
  y_id y' = y_id y →
  (y_status y ≠ DeliveryPending → y' = y) ∧ y_key y' = y_key y ∧
  y_created_at y' = y_created_at y ∧ y_attempts y ≤ y_attempts y'.
Proof.
  intros Hs%nreachable_NInv Hst Hy Hy' E.
  destruct (nsteps_evolve _ _ _ _ Hs Hst Hy Hy' E) as (_ & Ek & Ec & Ea & Hf).
  split_and!; [|done|done|done]. intros Hne. apply Hf. by apply bool_decide_eq_false.
Qed.

(** No transaction loses a pending delivery: the clean-up of the history
    spares it, and so does every other operation. *)
Theorem pending_delivery_is_kept st st' y :
  nreachable st → nstep st st' → y ∈ deliveries (sdb st) → y_status y = DeliveryPending →
  ∃ y', y' ∈ deliveries (sdb st') ∧ y_id y' = y_id y ∧ y_key y' = y_key y.
Proof.
  intros Hs%nreachable_NInv Hstep Hy Hst. destruct (nstep_NInv _ _ Hs Hstep) as [_ [K _ _]].
  destruct (K y Hy) as (y' & Hy' & E1 & E2 & _); [by apply bool_decide_eq_true|]. eauto.
Qed.

(** Preparing deliveries turns every selected event into one delivery for
    each channel that is to hear of it (enabled, of the event's tenant,
    subscribed to its topic, and bound to its job or to all jobs); an event
    nobody subscribed to is published; no other delivery appears. *)
Theorem subscribers_are_notified st limit e s' :
  nreachable st → commit (PrepareNotificationDeliveries limit) e (sdb st) = (Ok tt, s') →
  let events := unprepared_events limit (tx_now e) (tx_locked e) (sdb st) in
  (∀ x, x ∈ events →
     ((∀ h, ¬ hears x (sdb st) h) →
        ∀ x', x' ∈ outbox_events s' → e_id x' = e_id x → e_published_at x' ≠ None) ∧
     (∀ h, hears x (sdb st) h → ∃ y, y ∈ deliveries s' ∧ y_key y = (e_id x, h_id h))) ∧
  (∀ y, y ∈ deliveries s' → y ∈ deliveries (sdb st) ∨
     ∃ x h, x ∈ events ∧ hears x (sdb st) h ∧ y_key y = (e_id x, h_id h) ∧
       y_status y = DeliveryPending ∧ y_attempts y = 0).
Proof.
  intros Hs%nreachable_NInv Hc events. pose proof (wp_Prepare limit e (sdb st) Hs) as Hw.
  unfold commit, wp in *. destruct (PrepareNotificationDeliveries limit e (sdb st)) as [[[] s1]|]; [|done].
  injection Hc as ->. fold events in Hw. destruct Hw as [_ _ _ _ R Hh]. split.
  - intros x Hx. specialize (Hh x Hx). unfold handled in Hh.
    setoid_rewrite <- elem_of_subscribers. destruct (subscribers x (sdb st)) as [|h0 hs].
    + split; [done|]. by intros h ?%elem_of_nil.
    + split; [|done]. intros Hn. destruct (Hn h0). by left.
  - intros y Hy. destruct (R y Hy) as [?|(x & Hx & E & Hp & Ha & Hc)]; [by left|right].
    apply list_elem_of_In, in_map_iff in Hc as (h & Eh & Hin). exists x, h.
    split_and!; [done|by apply elem_of_subscribers, list_elem_of_In|unfold y_key; congruence| |done].
    by apply bool_decide_eq_true in Hp.
Qed.

Lemma lease_lost (p : delivery_row → bool) (l : list delivery_row) :
  (∀ y, y ∈ l → p y = false) → Nat.eqb (sql_count p l) 1 = false.
Proof.
  intros Hp. unfold sql_count, sql_select. by rewrite filter_none.
Qed.

(** While the lease of a claimed delivery runs, no claim takes it over, and
    only the worker that holds it can complete, dead-letter or retry it: for
    anyone else these fail and change nothing. *)
Theorem delivery_lease_is_exclusive st y holder u e :
  nreachable st → y ∈ deliveries (sdb st) →
  y_locked_by y = Some holder → y_locked_until y = Some u → tx_now e ≤ u →
  (∀ owner limit, y ∈ deliveries (commit (ClaimNotificationDeliveries owner limit) e (sdb st)).2) ∧
  ∀ worker, worker ≠ holder → ∀ eventID message delay,
    commit (CompleteNotificationDelivery worker (y_id y) eventID) e (sdb st)
      = (Err ErrNotificationLeaseLost, sdb st) ∧
    commit (DeadLetterNotificationDelivery worker (y_id y) eventID message) e (sdb st)
      = (Err ErrNotificationLeaseLost, sdb st) ∧
    commit (RetryNotificationDelivery worker (y_id y) message delay) e (sdb st)
      = (Err ErrNotificationLeaseLost, sdb st).
Proof.
  intros Hs%nreachable_NInv Hy Hl Hu Ht. split.
  - intros owner limit. cbn. apply elem_of_sql_update. exists y. split; [done|].
    destruct (one_of _ _) eqn:E; [|done]. apply picked_pending in E; [|done|done].
    unfold delivery_claimable in E. rewrite Hu in E.
    apply andb_true_iff in E as [_ E%Z.ltb_lt]. lia.
  - intros worker Hne.
    assert (Hheld : ∀ y', y' ∈ deliveries (sdb st) → (y_id y' ==s y_id y) = true →
              delivery_held worker (tx_now e) y' = false).
    { intros y' Hy' E%String.eqb_eq. rewrite (NoDup_key_inj y_id (deliveries (sdb st)) y' y) by (done || apply Hs).
      unfold delivery_held. rewrite Hl, bool_decide_eq_false_2, andb_false_r by congruence. done. }
    assert (Hfin : ∀ eventID st' message,
      commit (finishNotificationDelivery worker (y_id y) eventID st' message) e (sdb st)
        = (Err ErrNotificationLeaseLost, sdb st)).
    { intros eventID st' message. unfold commit, finishNotificationDelivery, mbind, tx_bind, get, now. cbv zeta.
      rewrite lease_lost; [done|]. intros y' Hy'. destruct (y_id y' ==s y_id y) eqn:E; [|done].
      by rewrite Hheld, andb_false_r. }
    intros eventID message delay. split_and!; [apply Hfin|apply Hfin|].
    unfold commit, RetryNotificationDelivery, mbind, tx_bind, get, now. cbv zeta.
    rewrite lease_lost; [done|]. intros y' Hy'. destruct (y_id y' ==s y_id y) eqn:E; [|done].
    by apply Hheld.
Qed.
End deliveries.
End Deliveries.
