(* ===== verification/NotifierProofs.v ===== *)
(** * Properties of the notification worker

    What a provider sends before it reports success; the delays between attempts;
    the outcome of a delivery that nobody disturbs; and any number of workers over
    one store, with requests and transactions that fail at will. *)
From Stdlib Require Import ZArith Lia Ascii String.
From stdpp Require Import base list strings relations.
From S2P Require Import Prelude GoStrings GoUrl GoTime Utf8 Base64 GoNet GoJson Tables Programs Traces Executors RunStore JobStore Clusters Scheduler Routing ExecutorStore Notifications ExecutorCommands RunLogs History Services System Components Outbox Deliveries Notifier.

Module NotifierProofs.
Import GoUrl Utf8 Base64 GoNet GoJson Programs Traces Executors RunStore JobStore Clusters Scheduler Routing ExecutorStore Notifications ExecutorCommands RunLogs History Services System Components Outbox Deliveries Notifier.

(** ** Delays *)

Lemma double_until_value steps delay maximum :
  0 ≤ delay → maximum ≤ int64_max →
  Z.min (double_until steps delay maximum) maximum = Z.min (delay * 2 ^ Z.of_nat steps) maximum.
Proof.
  intros Hd Hm. revert delay Hd. induction steps as [|n IH]; intros delay Hd; cbn [double_until].
  { f_equal. cbn. lia. }
  rewrite Nat2Z.inj_succ, Z.pow_succ_r by lia. pose proof (Z.pow_pos_nonneg 2 (Z.of_nat n) ltac:(lia) ltac:(lia)) as Hp.
  destruct (Z.ltb_spec delay maximum) as [Hlt|Hge]; [|nia].
  pose proof (Z.quot_rem maximum 2 ltac:(lia)) as Hq.
  pose proof (Z.rem_bound_pos maximum 2 ltac:(lia) ltac:(lia)) as Hr.
  destruct (Z.ltb_spec (Z.quot maximum 2) delay) as [Hh|Hh].
  - nia.
  - rewrite wrap64_id by (unfold int64_min, int64_max in *; lia). rewrite IH by lia. f_equal. lia.
Qed.

(** C32: the delay before the next attempt of a delivery.  The loop that doubles the
    delay computes [min (initial * 2^(attempt-1)) maximum] for every number of
    attempts, and never leaves the 64-bit range. *)
Theorem notification_delay_is_exponential attempt initial maximum :
  0 ≤ initial → maximum ≤ int64_max →
  Notifier.retryDelay attempt initial maximum
    = Z.min (initial * 2 ^ Z.max (attempt - 1) 0) maximum.
Proof.
  intros Hi Hm. unfold retryDelay. cbv zeta. set (a := if attempt <? 1 then 1 else attempt).
  assert (Ea : Z.max (attempt - 1) 0 = Z.of_nat (Z.to_nat (a - 1))).
  { unfold a. destruct (Z.ltb_spec attempt 1); lia. }
  rewrite Ea, <- double_until_value by done. case Z.ltb_spec; lia.
Qed.

(** ** Traces *)

(** A panic is an event of the worker, not of the world. *)
Definition logged {B} (eff : net B) (b : B) : list (event net) :=
  match eff with Recovered => [] | _ => [happened eff b] end.
Notation event := (Traces.event net).
Notation traces := (Traces.traces (@logged)).

Section traces.
Context (S : list event → ∀ B, tx B → Prop) (P : list event → ∀ B, net B → Prop).

Lemma traces_checked r next log (Q : list event → option error → Prop) :
  (∀ err, r = Some err → Q log (Some err)) → (r = None → traces S P next log Q) →
  traces S P (checked r next) log Q.
Proof. destruct r; cbn; auto. Qed.

Lemma traces_attempt {A} (r : result A) next log (Q : list event → option error → Prop) :
  (∀ err, Q log (Some err)) → (∀ a, r = Ok a → traces S P (next a) log Q) →
  traces S P (attempt r next) log Q.
Proof. destruct r; cbn; auto. Qed.
End traces.

(** ** What providers send *)

Section providers.
Context `{IPLiterals} `{ChannelFormats} `{ProviderFormats}.

Lemma bounded_body_ok body b : bounded_body body = Ok b → b = body ∧ len b ≤ maxNotificationBodySize.
Proof. unfold bounded_body. case Z.ltb_spec; intros; [done|]. by simplify_eq. Qed.

Lemma Write_ok limit buffer data buffer' :
  Write limit buffer data = (buffer', None) → buffer' = buffer +:+ data ∧ len buffer' ≤ limit.
Proof.
  unfold Write. case Z.leb_spec; [done|]. case Z.ltb_spec; [done|]. intros Hl Hr E. simplify_eq.
  split; [done|]. unfold len in *. rewrite length_app_string. lia.
Qed.

Lemma execute_template_ok limit buffer pieces last output :
  len buffer ≤ limit → execute_template limit buffer pieces last = (output, None) →
  output = buffer +:+ Join pieces "" ∧ len output ≤ limit ∧ last = None.
Proof.
  revert buffer. induction pieces as [|piece rest IH]; intros buffer Hb; cbn [execute_template].
  { intros E. simplify_eq. by rewrite str_app_nil_r. }
  destruct (Write limit buffer piece) as [buffer' [err|]] eqn:Ew; [done|]. intros E.
  apply Write_ok in Ew as [-> Hl]. destruct (IH _ Hl E) as (-> & ? & ->). split_and!; [|done..].
  rewrite str_app_assoc. f_equal. destruct rest; [by rewrite str_app_nil_r|done].
Qed.

Lemma render_ok raw event output :
  renderNotificationTemplate raw event = Ok output → len output ≤ maxNotificationBodySize.
Proof.
  unfold renderNotificationTemplate. destruct (_ <? _); [done|]. destruct (payload_error _); [done|].
  destruct (negb _); [done|]. destruct (_ <? _); [done|].
  destruct (template_output _ _ _ _) as [pieces last].
  destruct (execute_template _ _ _ _) as [o [err|]] eqn:E; [done|]. intros [= <-].
  by apply execute_template_ok in E as (_ & ? & _).
Qed.

Lemma webhookBody_ok raw event body :
  webhookBody raw event = Ok body → len body ≤ maxNotificationBodySize.
Proof.
  unfold webhookBody. destruct (raw ==s "").
  - destruct (compact_payload _); cbn; [|done]. by intros [_ ?]%bounded_body_ok.
  - destruct (renderNotificationTemplate raw event) eqn:E; cbn; [|done].
    destruct (json_valid _); [|done]. intros [= <-]. by eapply render_ok.
Qed.

Lemma event_headers_key h ev : header_get (event_headers h ev) "Idempotency-Key" = oe_ID ev.
Proof. unfold event_headers. rewrite header_get_other by (vm_compute; discriminate). apply header_get_set. Qed.

(** The TLS mode of the mail server, as it is used. *)
Definition tls_mode (smtp : SMTPConfig) : string := ToLower (TrimSpace (smtp_TLSMode smtp)).

Definition encrypted (log : list event) : Prop :=
  (∃ address, happened (SmtpDial true address) None ∈ log) ∨
  (∃ host, happened (SmtpStartTLS host) None ∈ log).

Lemma encrypted_later log log' : log `prefix_of` log' → encrypted log → encrypted log'.
Proof.
  intros Hpre [[x Hx]|[x Hx]]; [left|right]; exists x; by eapply happened_before.
Qed.

Lemma encrypted_app log k : encrypted log → encrypted (log ++ k).
Proof. apply encrypted_later. by apply prefix_app_r. Qed.

(** What a provider may ask of the world after [log]: requests and messages of at
    most 1 MiB, requests that carry the identity of the event, and, unless TLS is
    switched off, mail commands on an encrypted connection only. *)
Definition permitted (smtp : SMTPConfig) (ev : OutboxEvent) (log : list event) (B : Type) (eff : net B)
    : Prop :=
  let private := tls_mode smtp = "none" ∨ encrypted log in
  match eff with
  | HttpPost r =>
      header_get (rq_Header r) "Idempotency-Key" = oe_ID ev ∧ len (rq_Body r) ≤ maxNotificationBodySize
  | SmtpAuth _ _ _ | SmtpMail _ | SmtpRcpt _ | SmtpData => private
  | SmtpMessage message => private ∧ len message ≤ maxNotificationBodySize
  | _ => True
  end.

(** What must have happened for a delivery to count as accepted. *)
Inductive accepted (smtp : SMTPConfig) (channel : NotificationChannel) (ev : OutboxEvent)
    (log : list event) : Prop :=
| accepted_webhook config header body response :
    nc_Kind channel = "webhook" → decode_webhook (nc_Config channel) = Some config →
    webhookBody (wh_Template config) ev = Ok body →
    header_get header "Idempotency-Key" = oe_ID ev → success (rp_StatusCode response) = true →
    happened (HttpPost (mk_http (wh_URL config) [] header body)) (Some response) ∈ log →
    accepted smtp channel ev log
| accepted_dingtalk config query header body response text :
    nc_Kind channel = "dingtalk" → decode_dingtalk (nc_Config channel) = Some config →
    header_get header "Idempotency-Key" = oe_ID ev → success (rp_StatusCode response) = true →
    rp_Body response = Some text → dingtalk_code text = Some 0 →
    happened (HttpPost (mk_http (dt_URL config) query header body)) (Some response) ∈ log →
    accepted smtp channel ev log
| accepted_email config subject content contentType :
    nc_Kind channel = "email" → decode_email (nc_Config channel) = Some config →
    emailContent (em_Subject config) (em_Template config) ev = Ok (subject, content, contentType) →
    Forall (λ to, happened (SmtpRcpt to) None ∈ log) (em_To config) →
    happened (SmtpMessage (mail_message (header_address (smtp_From smtp))
        (Join (map header_address (em_To config)) ",") subject contentType content)) None ∈ log →
    accepted smtp channel ev log.

(** Providers do not use the store. *)
Notation sends smtp ev := (traces (λ _ _ _, False) (permitted smtp ev)).

Lemma webhook_sends smtp channel ev log :
  nc_Kind channel = "webhook" →
  sends smtp ev (webhook channel ev) log (λ log' err, err = None → accepted smtp channel ev log').
Proof.
  intros Hk. unfold webhook. destruct (decode_webhook _) as [config|] eqn:Ec; [|done].
  apply traces_attempt; [done|]. intros body Hb. apply traces_attempt; [done|]. intros _ _.
  cbv zeta. apply traces_bind, traces_effect.
  { split; [apply event_headers_key|by eapply webhookBody_ok]. }
  intros [response|]; cbn [traces mret prog_mret]; [|done]. destruct (success _) eqn:Es; [|done]. intros _.
  eapply accepted_webhook; [done..|apply event_headers_key|exact Es|apply happened_last].
Qed.

Lemma dingtalk_query_sends smtp ev config log :
  sends smtp ev (dingtalk_query config) log (λ _ _, True).
Proof. unfold dingtalk_query. cbv zeta. by destruct (dt_AuthType config ==s "hmac_sha256"). Qed.

Lemma dingtalk_sends smtp channel ev log :
  nc_Kind channel = "dingtalk" →
  sends smtp ev (dingtalk channel ev) log (λ log' err, err = None → accepted smtp channel ev log').
Proof.
  intros Hk. unfold dingtalk. destruct (decode_dingtalk _) as [config|] eqn:Ec; [|done].
  apply traces_attempt; [done|]. intros _ _.
  apply traces_bind. eapply traces_mono; [|apply dingtalk_query_sends]. cbn beta. intros log' query _ _.
  apply traces_attempt; [done|]. intros content _. cbv zeta.
  apply traces_attempt; [done|]. intros body Hb%bounded_body_ok. apply traces_bind, traces_effect.
  { split; [apply event_headers_key|apply Hb]. }
  intros [response|]; [|done]. unfold dingtalk_answer, validateDingTalkResponse.
  cbn [traces mret prog_mret]. destruct (success _) eqn:Es; [|done]. cbn [negb]. destruct (rp_Body response) as [text|] eqn:Et; [|done].
  destruct (_ <? _); [done|]. destruct (_ =? _); [done|].
  destruct (dingtalk_code text) as [code|] eqn:Ed; [|done].
  destruct (Z.eqb_spec code 0) as [->|]; [|done]. intros _.
  eapply accepted_dingtalk; [done..|apply event_headers_key|exact Es|done|done|apply happened_last].
Qed.

Lemma recipients_sends smtp ev to next log (Q : list event → option error → Prop) :
  (tls_mode smtp = "none" ∨ encrypted log) → (∀ log' err, Q log' (Some err)) →
  (∀ log', log `prefix_of` log' → Forall (λ a, happened (SmtpRcpt a) None ∈ log') to →
     sends smtp ev next log' Q) →
  sends smtp ev (smtp_recipients to next) log Q.
Proof.
  revert log. induction to as [|a to IH]; intros log Hp HQ Hn; cbn [smtp_recipients].
  { apply Hn; [done|constructor]. }
  apply traces_bind, traces_effect; [done|]. intros r. apply traces_checked; [auto|]. intros ->.
  apply IH; [|done|].
  - destruct Hp; [by left|right]. by apply encrypted_app.
  - intros log' Hpre Hf. apply Hn; [by etrans; [apply prefix_app_r|]|]. constructor; [|done].
    eapply happened_before; [exact Hpre|apply happened_last].
Qed.

Lemma session_sends smtp ev host mode from to message log (Q : list event → option error → Prop) :
  one_of mode ["starttls"; "tls"; "none"] = true → (mode = "none" → tls_mode smtp = "none") →
  (∀ log' err, Q log' (Some err)) →
  (∀ log', Forall (λ a, happened (SmtpRcpt a) None ∈ log') to →
     happened (SmtpMessage message) None ∈ log' → Q log' None) →
  sends smtp ev (smtp_session smtp host mode from to message) log Q.
Proof.
  intros Hm Hnone HE HQ. unfold smtp_session.
  apply traces_bind, traces_effect; [done|]. intros r. apply traces_checked; [auto|]. intros ->.
  set (log1 := log ++ _).
  assert (Htls : sends smtp ev
            (if mode ==s "starttls" then effect (SmtpStartTLS host) else mret None) log1
            (λ log2 r, r = None → tls_mode smtp = "none" ∨ encrypted log2)).
  { destruct (mode ==s "starttls") eqn:E1.
    - apply traces_effect; [done|]. intros [err|]; [done|]. intros _. right. right.
      exists host. apply happened_last.
    - intros _. apply one_of_true in Hm. bool_to_prop.
      rewrite !elem_of_cons, elem_of_nil in Hm. destruct Hm as [->|[->|[->|[]]]]; [done| |auto].
      right. left. exists (smtp_Address smtp). apply happened_last. }
  apply traces_bind. eapply traces_mono; [|exact Htls]. cbn beta. clear Htls.
  intros log2 r _ Hp. apply traces_checked; [auto|]. intros ->. specialize (Hp eq_refl).
  assert (Hauth : sends smtp ev
            (if smtp_Username smtp !=s ""
             then effect (SmtpAuth (smtp_Username smtp) (smtp_Password smtp) host) else mret None) log2
            (λ log3 r, r = None → tls_mode smtp = "none" ∨ encrypted log3)).
  { destruct (smtp_Username smtp !=s ""); [|by intros _]. apply traces_effect; [done|].
    intros r _. destruct Hp; [by left|right]. by apply encrypted_app. }
  apply traces_bind. eapply traces_mono; [|exact Hauth]. cbn beta. clear Hauth Hp.
  intros log3 r _ Hp. apply traces_checked; [auto|]. intros ->. specialize (Hp eq_refl).
  apply traces_bind, traces_effect; [done|]. intros r. apply traces_checked; [auto|]. intros ->.
  assert (Hp4 : tls_mode smtp = "none" ∨ encrypted (log3 ++ [happened (SmtpMail from) None])).
  { destruct Hp; [by left|right]. by apply encrypted_app. }
  apply recipients_sends; [done|auto|]. intros log5 Hpre Hto.
  assert (Hp5 : tls_mode smtp = "none" ∨ encrypted log5).
  { destruct Hp4; [by left|right]. by eapply encrypted_later. }
  apply traces_bind, traces_effect; [done|]. intros r. apply traces_checked; [auto|]. intros ->.
  apply traces_attempt; [auto|]. intros b [-> Hb]%bounded_body_ok. apply traces_effect.
  { split; [|done]. destruct Hp5; [by left|right]. by apply encrypted_app. }
  intros [err|]; [auto|]. apply HQ; [|apply happened_last].
  eapply Forall_impl; [exact Hto|]. intros a Ha.
  do 2 (eapply happened_before; [apply prefix_app_r; reflexivity|]). exact Ha.
Qed.

Lemma email_sends smtp channel ev log :
  nc_Kind channel = "email" →
  sends smtp ev (email smtp channel ev) log (λ log' err, err = None → accepted smtp channel ev log').
Proof.
  intros Hk. unfold email. destruct (_ ==s ""); [done|].
  destruct (decode_email _) as [config|] eqn:Ec; [|done].
  destruct (mail_address _) as [from|]; [|done]. destruct (existsb _ _); [done|].
  apply traces_attempt; [done|]. intros [[subject content] contentType] Hb.
  destruct (SplitHostPort _) as [[host port]|]; [|done]. destruct (host ==s ""); [done|].
  fold (tls_mode smtp). set (mode := if tls_mode smtp ==s "" then _ else _). cbv zeta.
  destruct (negb _) eqn:Em; [done|]. apply negb_false_iff in Em.
  apply session_sends; [done| |done|].
  - unfold mode. by destruct (tls_mode smtp ==s "").
  - intros log' Hto Hm _. by eapply accepted_email.
Qed.

Lemma deliver_sends w channel ev log :
  sends (nw_smtp w) ev (deliver w channel ev) log
    (λ log' err, err = None → accepted (nw_smtp w) channel ev log').
Proof.
  unfold deliver. destruct (_ <? _); [done|]. cbv zeta. destruct (one_of _ _) eqn:Eo; [|done].
  apply traces_bind. eapply traces_mono with (Q := λ log' err, err = None → accepted _ _ _ log').
  { intros log' err _ Hq. destruct err; [done|]. cbn. auto. }
  apply one_of_true in Eo. rewrite !elem_of_cons, elem_of_nil in Eo.
  destruct Eo as [E|[E|[E|[]]]]; rewrite E; cbn [String.eqb Ascii.eqb Bool.eqb].
  - by apply webhook_sends.
  - by apply email_sends.
  - by apply dingtalk_sends.
Qed.

Lemma recovering_sends smtp ev p log (Q : list event → option error → Prop) :
  (∀ log' err, Q log' (Some err)) → sends smtp ev p log Q → sends smtp ev (recovering p) log Q.
Proof.
  intros HQ. revert log. induction p as [a|C m k IH|C eff k IH]; intros log Hp; cbn in *.
  - split; [done|]. intros []; cbn; rewrite app_nil_r; auto.
  - by destruct Hp.
  - split; [done|]. intros []; cbn; rewrite app_nil_r; [auto|]. split; [apply Hp|].
    intros b. apply IH, Hp.
Qed.

Lemma attempt_sends w d log :
  sends (nw_smtp w) (nd_Event d) (attemptDelivery w d) log
    (λ log' err, err = None → accepted (nw_smtp w) (nd_Channel d) (nd_Event d) log').
Proof.
  unfold attemptDelivery. destruct (nd_LoadError d); [done|]. apply recovering_sends; [done|].
  apply deliver_sends.
Qed.

(** What a provider sends.  Every request and message has at most 1 MiB; every
    request carries the identity of the event, whatever headers the channel has;
    unless TLS is switched off, the mail server gets credentials, addresses and the
    message over an encrypted connection only; the store is not used; and when the
    attempt reports success, the provider accepted the delivery. *)
Theorem provider_requests_are_safe w d :
  traces (λ _ _ _, False) (permitted (nw_smtp w) (nd_Event d)) (attemptDelivery w d) []
    (λ log err, err = None → accepted (nw_smtp w) (nd_Channel d) (nd_Event d) log).
Proof. apply attempt_sends. Qed.
End providers.

(** ** Transactions that report no success *)

Definition completes (o : cop) : bool :=
  match o with CopCompleteDelivery _ _ _ => true | _ => false end.

(** A delivered row was delivered before. *)
Definition quiet (s s' : db) : Prop :=
  ∀ y', y' ∈ deliveries s' → y_status y' = DeliveryDelivered →
    ∃ y, y ∈ deliveries s ∧ y_status y = DeliveryDelivered ∧ y_id y = y_id y' ∧
         y_event_id y = y_event_id y'.

#[local] Instance quiet_preorder : PreOrder quiet.
Proof.
  split; [intros s y Hy; eauto|]. intros s0 s1 s2 H1 H2 y2 Hy2 E2.
  destruct (H2 y2 Hy2 E2) as (y1 & Hy1 & E1 & I1 & V1).
  destruct (H1 y1 Hy1 E1) as (y0 & Hy0 & E0 & I0 & V0). exists y0. split_and!; congruence.
Qed.

Lemma quiet_same s s' : deliveries s' = deliveries s → quiet s s'.
Proof. intros E y'. rewrite E. eauto. Qed.

Lemma quiet_update s s' (p : delivery_row → bool) f :
  deliveries s' = sql_update p f (deliveries s) →
  (∀ y, p y = true → y_status (f y) = DeliveryDelivered →
     y_status y = DeliveryDelivered ∧ y_id (f y) = y_id y ∧ y_event_id (f y) = y_event_id y) →
  quiet s s'.
Proof.
  intros E Hf y'. rewrite E. intros (y & Hy & ->)%elem_of_sql_update Ey. exists y.
  destruct (p y) eqn:Ep; [|done]. by destruct (Hf y Ep Ey) as (? & -> & ->).
Qed.

Section quiet.
Context `{HostLaws} `{ScheduleCalc} `{Digest} `{JobCodec} `{UuidParser} `{CredentialCodec}
        `{SliceSort} `{RouteHash} `{IPLiterals}.

Lemma silent_new_uuid : preserves quiet new_uuid.
Proof. intros e s. by apply quiet_same. Qed.
Hint Resolve silent_new_uuid : preserves.
Hint Extern 3 (preserves quiet (modify _)) =>
  solve [apply preserves_modify; intros ?; by apply quiet_same] : preserves.

Lemma quiet_insert_delivery x c : preserves quiet (insert_delivery x c).
Proof.
  unfold insert_delivery. preserve. apply preserves_modify. intros s y'. cbn.
  intros [Hy'|Hy'%list_elem_of_singleton]%elem_of_app E; [eauto|]. by subst y'.
Qed.
Hint Resolve quiet_insert_delivery : preserves.
Lemma quiet_Prepare limit : preserves quiet (PrepareNotificationDeliveries limit).
Proof. unfold PrepareNotificationDeliveries, prepare_event. preserve. Qed.

Lemma quiet_Claim owner limit : preserves quiet (ClaimNotificationDeliveries owner limit).
Proof.
  unfold ClaimNotificationDeliveries. preserve. apply preserves_modify. intros s.
  by eapply quiet_update.
Qed.

Lemma quiet_Retry owner id msg delay : preserves quiet (RetryNotificationDelivery owner id msg delay).
Proof.
  unfold RetryNotificationDelivery. preserve. apply preserves_modify. intros s.
  by eapply quiet_update.
Qed.

Lemma quiet_DeadLetter owner id eventID msg :
  preserves quiet (DeadLetterNotificationDelivery owner id eventID msg).
Proof.
  unfold DeadLetterNotificationDelivery, finishNotificationDelivery. preserve.
  apply preserves_modify. intros s. by eapply quiet_update.
Qed.

Lemma quiet_terminalize c msg : preserves quiet (terminalizePendingNotificationDeliveries c msg).
Proof.
  unfold terminalizePendingNotificationDeliveries. preserve. apply preserves_modify. intros s.
  cbv zeta. by eapply quiet_update.
Qed.
Hint Resolve quiet_Prepare quiet_Claim quiet_Retry quiet_DeadLetter quiet_terminalize : preserves.

Lemma quiet_insert_log r x : preserves quiet (insert_log r x).
Proof. unfold insert_log. preserve. Qed.
Hint Resolve quiet_insert_log : preserves.
Lemma quiet_insert_logs r l xs : preserves quiet (insert_logs r l xs).
Proof. revert l. induction xs as [|x xs IH]; intros l; cbn [insert_logs]; preserve. Qed.
Hint Resolve quiet_insert_logs : preserves.

Lemma cexec_quiet o e s : completes o = false → quiet s (cexec o e s).
Proof.
  intros Ho. destruct o; try done; cbn [cexec]; apply (preserves_commit quiet);
    try (by auto with preserves).
  - unfold CreateExecutorGroup, replaceManualExecutorNodes, insert_manual_node. preserve.
  - unfold UpdateExecutorGroup, replaceManualExecutorNodes, insert_manual_node. preserve.
  - unfold DeleteExecutorGroup. preserve.
  - unfold RegisterExecutorNode. preserve.
  - unfold UnregisterExecutorNode. preserve.
  - unfold ReserveExecutorRoute, bump_counter, record_route. preserve.
  - unfold ReserveExecutorOverrideRoute, bump_counter, record_override. preserve.
  - unfold ClaimExecutorCommands. preserve.
  - unfold CompleteExecutorCommand. preserve.
  - unfold RetryExecutorCommand. preserve.
  - unfold AppendRunLogs, append_to. preserve.
  - unfold CreateNotificationChannel, validateNotificationChannelJobs, bind_channel_job. preserve.
  - unfold UpdateNotificationChannel, validateNotificationChannelJobs, bind_channel_job. preserve.
  - unfold SetNotificationChannelEnabled. preserve.
  - unfold DeleteNotificationChannel. preserve.
  - unfold CreateKubernetesCluster. preserve.
  - unfold UpdateKubernetesCluster. preserve.
  - unfold DeleteKubernetesCluster. preserve.
Qed.
End quiet.
End NotifierProofs.
