(* ===== verification/NotifierWorld.v ===== *)
(** * Notification workers over one store

    Any number of workers prepare, claim and process deliveries at the same time
    as the scheduler and the other components change the store; requests,
    transactions and processes fail at will.  Every step is a step of the delivery
    system of [Deliveries.v]; a delivery is recorded as delivered only after its
    provider accepted it. *)
From Stdlib Require Import ZArith Lia Ascii String.
From stdpp Require Import base list strings relations.
From S2P Require Import Prelude GoStrings GoUrl GoTime Utf8 Base64 GoNet GoJson Tables Programs Traces Executors RunStore JobStore Clusters Scheduler Routing ExecutorStore Notifications ExecutorCommands RunLogs History Services System Components Outbox Deliveries Notifier NotifierProofs.

Module NotifierWorld.
Import Utf8 Programs Traces Executors RunStore JobStore Notifications Services System Components Outbox Deliveries Notifier NotifierProofs.

(** A process: the wait group and the size of the semaphore of its last call of
    [processDeliveries], and what it has still to do; and a goroutine it started
    for a delivery, with the group it was added to. *)
Record main := mk_main {
  mn_worker : Worker; mn_group : nat; mn_slots : nat; mn_prog : notify unit;
}.
Record thread := mk_thread {
  th_main : nat; th_group : nat; th_worker : Worker; th_delivery : NotificationDelivery;
  th_prog : notify unit;
}.

(** The log keeps what happened for which delivery. *)
Record world := mk_world {
  w_sys : sys; w_mains : list main; w_threads : list thread; w_log : list (string * event);
}.

(** The goroutines of a process, and those of one of its groups, which hold the
    slots of that group's semaphore. *)
Definition started (ths : list thread) : list (nat * nat) := map (λ th, (th_main th, th_group th)) ths.
Definition goroutines (i : nat) (ths : list thread) : nat :=
  length (List.filter (λ c, Nat.eqb c.1 i) (started ths)).
Definition running (i g : nat) (ths : list thread) : nat :=
  length (List.filter (λ c, Nat.eqb c.1 i && Nat.eqb c.2 g) (started ths)).

Section world.
Context `{HostLaws} `{ScheduleCalc} `{Digest} `{JobCodec} `{UuidParser} `{CredentialCodec}
        `{SliceSort} `{RouteHash} `{IPLiterals} `{ChannelFormats} `{ProviderFormats}.

Inductive wstep : world → world → Prop :=
(* a transaction of the scheduler or of another component *)
| ws_op o e w :
    allowed (w_sys w) o →
    wstep w (mk_world (exec o e (w_sys w)) (w_mains w) (w_threads w) (w_log w))
| ws_component o e w :
    completes o = false →
    wstep w (mk_world (mk_sys (cexec o e (sdb (w_sys w))) (inflight (w_sys w))) (w_mains w)
               (w_threads w) (w_log w))
(* the main goroutine of a worker *)
| ws_main_store {B} i wk g n (m : tx B) k e r s' w :
    w_mains w !! i = Some (mk_main wk g n (Store m k)) → answer m e (sdb (w_sys w)) r s' →
    wstep w (mk_world (mk_sys s' (inflight (w_sys w))) (<[i := mk_main wk g n (k r)]> (w_mains w))
               (w_threads w) (w_log w))
| ws_ctx i wk g n k b w :
    w_mains w !! i = Some (mk_main wk g n (Effect CtxErr k)) →
    wstep w (mk_world (w_sys w) (<[i := mk_main wk g n (k b)]> (w_mains w)) (w_threads w) (w_log w))
| ws_idle i wk g n d k b w :
    w_mains w !! i = Some (mk_main wk g n (Effect (Idle d) k)) →
    wstep w (mk_world (w_sys w) (<[i := mk_main wk g n (k b)]> (w_mains w)) (w_threads w) (w_log w))
| ws_group i wk g n c k w :
    w_mains w !! i = Some (mk_main wk g n (Effect (NewGroup c) k)) →
    wstep w (mk_world (w_sys w) (<[i := mk_main wk (S g) c (k tt)]> (w_mains w)) (w_threads w) (w_log w))
| ws_acquire i wk g n d k w :
    w_mains w !! i = Some (mk_main wk g n (Effect (Acquire d) k)) →
    (running i g (w_threads w) < n)%nat →
    wstep w (mk_world (w_sys w) (<[i := mk_main wk g n (k true)]> (w_mains w))
               (w_threads w ++ [mk_thread i g wk d (process wk d)]) (w_log w))
| ws_refuse i wk g n d k w :
    w_mains w !! i = Some (mk_main wk g n (Effect (Acquire d) k)) →
    wstep w (mk_world (w_sys w) (<[i := mk_main wk g n (k false)]> (w_mains w)) (w_threads w) (w_log w))
| ws_wait i wk g n k w :
    w_mains w !! i = Some (mk_main wk g n (Effect GroupWait k)) →
    running i g (w_threads w) = 0%nat →
    wstep w (mk_world (w_sys w) (<[i := mk_main wk g n (k tt)]> (w_mains w)) (w_threads w) (w_log w))
(* a goroutine *)
| ws_store {B} (m : tx B) k e r s' i g wk d l1 l2 w :
    w_threads w = l1 ++ mk_thread i g wk d (Store m k) :: l2 → answer m e (sdb (w_sys w)) r s' →
    wstep w (mk_world (mk_sys s' (inflight (w_sys w))) (w_mains w)
               (l1 ++ mk_thread i g wk d (k r) :: l2) (w_log w))
| ws_effect {B} (eff : net B) k b i g wk d l1 l2 w :
    w_threads w = l1 ++ mk_thread i g wk d (Effect eff k) :: l2 →
    wstep w (mk_world (w_sys w) (w_mains w) (l1 ++ mk_thread i g wk d (k b) :: l2)
               (w_log w ++ map (pair (nd_ID d)) (logged eff b)))
| ws_end i g wk d l1 l2 w :
    w_threads w = l1 ++ mk_thread i g wk d (Return tt) :: l2 →
    wstep w (mk_world (w_sys w) (w_mains w) (l1 ++ l2) (w_log w))
(* a process dies with its goroutines *)
| ws_crash i wk g n p w :
    w_mains w !! i = Some (mk_main wk g n p) →
    wstep w (mk_world (w_sys w) (<[i := mk_main wk g n (Return tt)]> (w_mains w))
               (List.filter (λ th, negb (Nat.eqb (th_main th) i)) (w_threads w)) (w_log w)).

(** Workers start with empty queues; each runs for any number of rounds. *)
Definition winitial (w : world) : Prop :=
  ninitial (w_sys w) ∧ w_threads w = [] ∧ w_log w = [] ∧
  Forall (λ m, ∃ fuel, mn_prog m = Run fuel (mn_worker m)) (w_mains w).
Definition wreachable (w : world) : Prop := ∃ w0, winitial w0 ∧ rtc wstep w0 w.

(** ** What goroutines do *)

(** A transaction of the delivery queue that completes nothing. *)
Definition queue_tx (B : Type) (m : tx B) : Prop :=
  ∃ o, completes o = false ∧ ∀ e s, (commit m e s).2 = cexec o e s.

Definition completion (d : NotificationDelivery) (B : Type) (m : tx B) : Prop :=
  ∃ owner, ∀ e s,
    (commit m e s).2 = (commit (CompleteNotificationDelivery owner (nd_ID d) (nd_EventID d)) e s).2.

Definition lawful (wk : Worker) (d : NotificationDelivery) (log : list event) (B : Type) (m : tx B)
    : Prop :=
  queue_tx B m ∨
  completion d B m ∧ accepted (nw_smtp wk) (nd_Channel d) (nd_Event d) log.

Notation behaves wk d := (traces (lawful wk d) (permitted (nw_smtp wk) (nd_Event d))).

Lemma process_behaves wk d log : behaves wk d (process wk d) log (λ _ _, True).
Proof.
  unfold process. apply traces_bind.
  eapply traces_mono; [|eapply traces_impl; [| |apply attempt_sends]; [intros ? ? ? []|auto]].
  cbn beta. intros log' [err|] _ Ha.
  - destruct (_ <=? _); cbv zeta; (split; [|done]); left.
    + by eexists (CopDeadLetter _ _ _ _).
    + by eexists (CopRetryDelivery _ _ _ _).
  - split; [|done]. right. split; [by eexists|auto].
Qed.

(** ** What the main goroutines do *)

(** The event of a claimed delivery is the one its row names. *)
Definition well_loaded (d : NotificationDelivery) : Prop := oe_ID (nd_Event d) = nd_EventID d.

Lemma claim_well_loaded owner limit e s ds s' :
  answer (ClaimNotificationDeliveries owner limit) e s (Ok ds) s' → Forall well_loaded ds.
Proof.
  intros Ha%answer_ok. unfold ClaimNotificationDeliveries in Ha. cbn in Ha. injection Ha as <- _.
  apply Forall_forall. intros d Hd.
  apply list_elem_of_In, in_flat_map in Hd as (y & _ & Hd).
  unfold join_delivery in Hd. apply in_flat_map in Hd as (x & Hx & Hd).
  apply list_elem_of_In, elem_of_sql_select in Hx as [Hx _].
  apply in_map_iff in Hd as (h & <- & _). unfold load_delivery, well_loaded.
  apply String.eqb_eq in Hx. by repeat case_match.
Qed.

(** Whether the goroutine is between the making of a group and the end of the
    wait for it; only there it starts goroutines, and it makes no other group. *)
Definition open_after {B} (eff : net B) (open : bool) : bool :=
  match eff with NewGroup _ => true | GroupWait => false | _ => open end.
Definition bracketed {B} (eff : net B) (open : bool) : Prop :=
  match eff with
  | NewGroup n => open = false ∧ n = notificationConcurrency
  | Acquire d => open = true ∧ well_loaded d
  | _ => True
  end.

(** Its transactions are of the queue, and the deliveries it hands to goroutines
    are well loaded. *)
Fixpoint main_behaves {A} (open : bool) (p : notify A) (Q : bool → A → Prop) : Prop :=
  match p with
  | Return a => Q open a
  | Store m k => queue_tx _ m ∧ ∀ r e s s', answer m e s r s' → main_behaves open (k r) Q
  | Effect eff k => bracketed eff open ∧ ∀ b, main_behaves (open_after eff open) (k b) Q
  end.

Lemma main_behaves_bind {A B} open (p : notify A) (f : A → notify B) Q :
  main_behaves open p (λ o a, main_behaves o (f a) Q) → main_behaves open (p ≫= f) Q.
Proof.
  change (p ≫= f) with (prog_bind f p). revert open.
  induction p as [a|C m k IH|C eff k IH]; intros open; cbn; [done| |].
  - intros [Hm Hk]. split; [done|]. intros r e s s' Ha. by eapply IH, Hk.
  - intros [He Hk]. split; [done|]. intros b. apply IH, Hk.
Qed.

Lemma main_behaves_mono {A} open (p : notify A) (Q Q' : bool → A → Prop) :
  (∀ o a, Q o a → Q' o a) → main_behaves open p Q → main_behaves open p Q'.
Proof.
  intros HQ. revert open. induction p as [a|C m k IH|C eff k IH]; intros open; cbn; [auto| |].
  - intros [Hm Hk]. split; [done|]. intros r e s s' Ha. by eapply IH, Hk.
  - intros [He Hk]. split; [done|]. intros b. apply IH, Hk.
Qed.

Lemma start_behaves ds :
  Forall well_loaded ds → main_behaves true (start_deliveries ds) (λ o _, o = true).
Proof.
  induction 1 as [|d ds Hd _ IH]; [done|]. cbn [start_deliveries].
  split; [done|]. intros []; [done|]. split; [done|]. by intros [].
Qed.

Notation closes p := (main_behaves false p (λ o _, o = false)).

Lemma process_closes ds :
  Forall well_loaded ds → closes (processDeliveries ds notificationConcurrency).
Proof.
  intros Hds. split; [done|]. intros []. apply main_behaves_bind.
  eapply main_behaves_mono; [|by apply start_behaves]. intros o _ ->. done.
Qed.

Lemma tick_closes wk : closes (tick wk).
Proof.
  split; [by exists (CopPrepare notificationBatchSize)|]. intros [u|err] e s s' _; [|done].
  split; [by exists (CopClaimDeliveries (nw_owner wk) notificationBatchSize)|].
  intros [ds|err] e1 s1 s1' Ha; [|done]. apply main_behaves_bind.
  eapply main_behaves_mono; [|eapply process_closes, claim_well_loaded, Ha]. by intros o ? ->.
Qed.

Lemma rounds_close fuel idle batch wk : closes (notification_rounds fuel idle batch (tick wk)).
Proof.
  induction fuel as [|fuel IH]; [done|]. cbn [notification_rounds].
  split; [done|]. intros []; [done|].
  apply main_behaves_bind. eapply main_behaves_mono; [|apply tick_closes]. intros o n ->.
  split; [done|]. intros []; [done|]. destruct (Nat.leb batch n); [done|].
  split; [done|]. by intros [].
Qed.

Lemma Run_closes fuel wk : closes (Run fuel wk).
Proof. apply rounds_close. Qed.

(** ** The invariant *)

(** A worker that sent [d] was told that the provider accepted it. *)
Definition vouched (log : list (string * event)) (deliveryID eventID : string) : Prop :=
  ∃ wk d l, nd_ID d = deliveryID ∧ nd_EventID d = eventID ∧ well_loaded d ∧
    accepted (nw_smtp wk) (nd_Channel d) (nd_Event d) l ∧ ∀ x, x ∈ l → (nd_ID d, x) ∈ log.

Record thread_ok (log : list (string * event)) (th : thread) : Prop := {
  to_loaded : well_loaded (th_delivery th);
  to_prog : ∃ l, (∀ x, x ∈ l → (nd_ID (th_delivery th), x) ∈ log) ∧
    behaves (th_worker th) (th_delivery th) (th_prog th) l (λ _ _, True);
}.

(** A process that is not processing a batch has no goroutines; one that is has
    only those of that batch, within its semaphore. *)
Record main_ok (ths : list thread) (i : nat) (m : main) : Prop := {
  mo_prog : ∃ open : bool, main_behaves open (mn_prog m) (λ o _, o = false) ∧
    if open then mn_slots m = notificationConcurrency else goroutines i ths = 0%nat;
  mo_group : ∀ g, (i, g) ∈ started ths → g = mn_group m;
  mo_bound : (goroutines i ths ≤ notificationConcurrency)%nat;
}.

Definition mains_ok (ths : list thread) (ms : list main) : Prop :=
  ∀ i m, ms !! i = Some m → main_ok ths i m.

Record WInv (w : world) : Prop := {
  wi_reachable : nreachable (w_sys w);
  wi_mains : mains_ok (w_threads w) (w_mains w);
  wi_threads : Forall (thread_ok (w_log w)) (w_threads w);
  wi_delivered : ∀ y, y ∈ deliveries (sdb (w_sys w)) → y_status y = DeliveryDelivered →
    vouched (w_log w) (y_id y) (y_event_id y);
}.

Lemma vouched_later log k a b : vouched log a b → vouched (log ++ k) a b.
Proof.
  intros (wk & d & l & ? & ? & ? & ? & Hl). exists wk, d, l. split_and!; [done..|].
  intros x Hx. apply elem_of_app. left. auto.
Qed.
Lemma thread_ok_later log k th : thread_ok log th → thread_ok (log ++ k) th.
Proof.
  intros [Hw (l & Hl & Hp)]. split; [done|]. exists l. split; [|done].
  intros x Hx. apply elem_of_app. left. auto.
Qed.

Lemma nreachable_step st st' : nreachable st → nstep st st' → nreachable st'.
Proof. intros (st0 & Hi & Hs) Hstep. exists st0. split; [done|]. by eapply rtc_r. Qed.

Lemma delivered_quiet log s s' :
  quiet s s' →
  (∀ y, y ∈ deliveries s → y_status y = DeliveryDelivered → vouched log (y_id y) (y_event_id y)) →
  ∀ y, y ∈ deliveries s' → y_status y = DeliveryDelivered → vouched log (y_id y) (y_event_id y).
Proof. intros Hq Hv y' Hy' E'. destruct (Hq y' Hy' E') as (y & Hy & E & <- & <-). auto. Qed.

Lemma exec_quiet o e st : nreachable st → quiet (sdb st) (sdb (exec o e st)).
Proof.
  intros Hr%nreachable_NInv. destruct (exec_outbox o e st) as [Hg|(retention & -> & ->)].
  - apply quiet_same, Hg.
  - pose proof (cleanup_trimmed retention e (sdb st) (ni_eids _ Hr)) as Ht.
    intros y'. rewrite (tr_deliveries _ _ Ht), elem_of_sql_select. intros [_ Hy] E. eauto.
Qed.

(** What an answered transaction of the queue does to the system. *)
Lemma queue_answer B (m : tx B) e st r s' :
  queue_tx B m → answer m e (sdb st) r s' →
  s' = sdb st ∨ ∃ o, completes o = false ∧ s' = cexec o e (sdb st).
Proof.
  intros (o & Ho & Hm) [->| ->]%answer_state; [by left|]. right. exists o. by rewrite Hm.
Qed.

Lemma complete_delivered owner id eventID e s y' :
  y' ∈ deliveries (commit (CompleteNotificationDelivery owner id eventID) e s).2 →
  y_status y' = DeliveryDelivered →
  (∃ y, y ∈ deliveries s ∧ y_status y = DeliveryDelivered ∧ y_id y = y_id y' ∧
        y_event_id y = y_event_id y') ∨ y_id y' = id ∧ y_event_id y' = eventID.
Proof.
  set (R s s' := ∀ y', y' ∈ deliveries s' → y_status y' = DeliveryDelivered →
        (∃ y, y ∈ deliveries s ∧ y_status y = DeliveryDelivered ∧ y_id y = y_id y' ∧
              y_event_id y = y_event_id y') ∨ y_id y' = id ∧ y_event_id y' = eventID).
  assert (Hpre : PreOrder R).
  { split; [intros s0 y Hy E; left; eauto|]. intros s0 s1 s2 Ha Hb y2 Hy2 E2.
    destruct (Hb y2 Hy2 E2) as [(y1 & Hy1 & E1 & I1 & V1)|?]; [|by right].
    rewrite <- I1, <- V1. by apply Ha. }
  assert (HR : preserves R (CompleteNotificationDelivery owner id eventID)).
  { unfold CompleteNotificationDelivery, finishNotificationDelivery. preserve.
    - apply preserves_modify. intros s0 y0 (y & Hy & ->)%elem_of_sql_update.
      destruct (_ && _ && _) eqn:Ep; [|left; eauto]. intros _. right.
      apply andb_true_iff in Ep as [[?%String.eqb_eq ?%String.eqb_eq]%andb_true_iff _]. by subst.
    - apply preserves_modify. intros s0 y Hy E. left. eauto. }
  intros Hy' E'. by apply (preserves_commit R _ e s HR).
Qed.

(** *** Counting goroutines *)

Lemma goroutines_app i l k : goroutines i (l ++ k) = (goroutines i l + goroutines i k)%nat.
Proof. unfold goroutines, started. by rewrite map_app, List.filter_app, length_app. Qed.

Lemma running_group i g ths :
  (∀ g', (i, g') ∈ started ths → g' = g) → running i g ths = goroutines i ths.
Proof.
  unfold running, goroutines. induction (started ths) as [|[j g'] l IH]; intros Hg; [done|]. cbn.
  destruct (Nat.eqb_spec j i) as [->|]; cbn.
  - rewrite (Hg g') by left. rewrite Nat.eqb_refl. cbn. f_equal. apply IH. intros. apply Hg. by right.
  - apply IH. intros. apply Hg. by right.
Qed.

Lemma goroutines_none i ths : goroutines i ths = 0%nat → ∀ g, (i, g) ∉ started ths.
Proof.
  unfold goroutines. intros E g Hg%list_elem_of_In. apply nil_length_inv in E.
  assert (Hin : In (i, g) (List.filter (λ c, Nat.eqb c.1 i) (started ths)))
    by (apply filter_In; by rewrite Nat.eqb_refl).
  by rewrite E in Hin.
Qed.

(** Some goroutines ended. *)
Definition fewer (i : nat) (ths' ths : list thread) : Prop :=
  (goroutines i ths' ≤ goroutines i ths)%nat ∧
  ∀ g, (i, g) ∈ started ths' → (i, g) ∈ started ths.

Lemma main_ok_fewer ths ths' i m : main_ok ths i m → fewer i ths' ths → main_ok ths' i m.
Proof.
  intros [(open & Hp & Ho) Hg Hb] [Hn Hs]. constructor; [|intros g Hin; by apply Hg, Hs|lia].
  exists open. split; [done|]. destruct open; [done|lia].
Qed.

Lemma fewer_started i ths ths' : started ths' = started ths → fewer i ths' ths.
Proof. intros E. split; [by unfold goroutines; rewrite E|by rewrite E]. Qed.

Lemma fewer_end i l1 th l2 : fewer i (l1 ++ l2) (l1 ++ th :: l2).
Proof.
  split.
  - rewrite !goroutines_app. unfold goroutines, started. cbn. destruct (Nat.eqb _ i); cbn; lia.
  - unfold started. intros g. rewrite !map_app, !elem_of_app. cbn. rewrite elem_of_cons. tauto.
Qed.

Lemma fewer_crash i j ths : fewer i (List.filter (λ th, negb (Nat.eqb (th_main th) j)) ths) ths.
Proof.
  induction ths as [|th ths [IH1 IH2]]; [done|]. cbn. destruct (negb _).
  - split.
    + unfold goroutines, started in *. cbn. destruct (Nat.eqb _ i); cbn; lia.
    + intros g [->|Hg]%elem_of_cons; [by left|right; by apply IH2].
  - split.
    + unfold goroutines, started in *. cbn. destruct (Nat.eqb _ i); cbn; lia.
    + intros g Hg. right. by apply IH2.
Qed.

Lemma goroutines_crash i ths :
  goroutines i (List.filter (λ th, negb (Nat.eqb (th_main th) i)) ths) = 0%nat.
Proof.
  induction ths as [|th ths IH]; [done|]. cbn. destruct (Nat.eqb (th_main th) i) eqn:E; cbn; [done|].
  unfold goroutines, started in *. cbn. by rewrite E.
Qed.

Lemma mains_fewer ths ths' ms : mains_ok ths ms → (∀ i, fewer i ths' ths) → mains_ok ths' ms.
Proof. intros Hm Hf i m Hi. eapply main_ok_fewer; [by apply Hm|done]. Qed.

Lemma mains_insert ths ms i m :
  mains_ok ths ms → main_ok ths i m → mains_ok ths (<[i := m]> ms).
Proof. intros Hms Hm j m' [(<- & <- & _)|[_ ?]]%list_lookup_insert_Some; auto. Qed.

(** A process that goes on in the same group. *)
Lemma main_ok_next ths i wk g n p q :
  main_ok ths i (mk_main wk g n p) →
  (∀ open, main_behaves open p (λ o _, o = false) → main_behaves open q (λ o _, o = false)) →
  main_ok ths i (mk_main wk g n q).
Proof.
  intros [(open & Hp & Ho) Hg Hb] Hq. constructor; [|done..]. exists open. split; [by apply Hq|done].
Qed.

(** It makes a group: it had no goroutines. *)
Lemma main_ok_group ths i wk g n c k :
  main_ok ths i (mk_main wk g n (Effect (NewGroup c) k)) → main_ok ths i (mk_main wk (S g) c (k tt)).
Proof.
  intros [(open & [[-> ->] Hk] & Ho) Hg Hb]. constructor; [exists true; split; [apply Hk|done]| |done].
  intros g' []%goroutines_none. exact Ho.
Qed.

(** It waits until the goroutines of its group, which are all it has, ended. *)
Lemma main_ok_wait ths i wk g n k :
  main_ok ths i (mk_main wk g n (Effect GroupWait k)) → running i g ths = 0%nat →
  main_ok ths i (mk_main wk g n (k tt)).
Proof.
  intros [(open & [_ Hk] & Ho) Hg Hb] Hr. constructor; [|done..]. exists false.
  split; [apply Hk|]. by rewrite <- (running_group i g).
Qed.

(** It starts a goroutine in a free slot. *)
Lemma main_ok_acquire ths i wk g n d k :
  main_ok ths i (mk_main wk g n (Effect (Acquire d) k)) → (running i g ths < n)%nat →
  well_loaded d ∧ main_ok (ths ++ [mk_thread i g wk d (process wk d)]) i (mk_main wk g n (k true)).
Proof.
  intros [(open & [[-> Hd] Hk] & Ho) Hg Hb] Hr. cbn in Ho, Hg. split; [done|].
  rewrite (running_group i g) in Hr by done. constructor; cbn [mn_group].
  - exists true. split; [apply Hk|done].
  - intros g'. unfold started. rewrite map_app. intros [Hin|Hin]%elem_of_app; [by apply Hg|].
    apply list_elem_of_singleton in Hin. by injection Hin.
  - rewrite goroutines_app. unfold goroutines at 2. cbn. rewrite Nat.eqb_refl. cbn. lia.
Qed.

(** Which is nothing to the other processes. *)
Lemma main_ok_other ths i j g wk d p m : i ≠ j → main_ok ths j m → main_ok (ths ++ [mk_thread i g wk d p]) j m.
Proof.
  intros Hij Hm. eapply main_ok_fewer; [exact Hm|]. split.
  - rewrite goroutines_app. unfold goroutines at 2. cbn. destruct (Nat.eqb_spec i j); [done|]. cbn. lia.
  - intros g'. unfold started. rewrite map_app. intros [Hin|Hin]%elem_of_app; [done|].
    apply list_elem_of_singleton in Hin. by injection Hin.
Qed.

Lemma mains_acquire ths ms i wk g n d k :
  mains_ok ths ms → ms !! i = Some (mk_main wk g n (Effect (Acquire d) k)) →
  (running i g ths < n)%nat →
  well_loaded d ∧
  mains_ok (ths ++ [mk_thread i g wk d (process wk d)]) (<[i := mk_main wk g n (k true)]> ms).
Proof.
  intros Hm Hi Hr. destruct (main_ok_acquire _ _ _ _ _ _ _ (Hm _ _ Hi) Hr) as [Hd Hok].
  split; [done|]. intros j m [(<- & <- & _)|[Hj Hl]]%list_lookup_insert_Some; [done|].
  apply main_ok_other; [done|by apply Hm].
Qed.

(** *** The steps *)

(** A quiet step of the system keeps the invariant, if the processes keep theirs. *)
Lemma WInv_quiet w st' ms ths :
  WInv w → nreachable st' → quiet (sdb (w_sys w)) (sdb st') →
  mains_ok ths ms → Forall (thread_ok (w_log w)) ths →
  WInv (mk_world st' ms ths (w_log w)).
Proof.
  intros [Hr Hm Ht Hd] Hr' Hq Hms Hths. constructor; cbn; [done..|].
  by eapply delivered_quiet.
Qed.

Lemma queue_keeps B (m : tx B) e st r s' :
  nreachable st → queue_tx B m → answer m e (sdb st) r s' →
  nreachable (mk_sys s' (inflight st)) ∧ quiet (sdb st) s'.
Proof.
  intros Hr Hm Ha. destruct (queue_answer _ _ _ _ _ _ Hm Ha) as [->|(o & Ho & ->)].
  - split; [by destruct st|by apply quiet_same].
  - split; [|by apply cexec_quiet]. eapply nreachable_step; [done|apply nstep_component].
Qed.

Lemma WInv_main w i m st' :
  WInv w → main_ok (w_threads w) i m → nreachable st' → quiet (sdb (w_sys w)) (sdb st') →
  WInv (mk_world st' (<[i := m]> (w_mains w)) (w_threads w) (w_log w)).
Proof. intros Hw Hm Hr Hs. apply WInv_quiet; try done; try apply Hw. apply mains_insert; [apply Hw|done]. Qed.

Lemma threads_split log l1 th l2 :
  Forall (thread_ok log) (l1 ++ th :: l2) ↔
  Forall (thread_ok log) l1 ∧ thread_ok log th ∧ Forall (thread_ok log) l2.
Proof. by rewrite Forall_app, Forall_cons. Qed.

Lemma started_replace l1 l2 i g wk d p q :
  started (l1 ++ mk_thread i g wk d q :: l2) = started (l1 ++ mk_thread i g wk d p :: l2).
Proof. unfold started. by rewrite !map_app. Qed.

(** A goroutine records a success only with a provider's acceptance in the log. *)
Lemma WInv_store w B (m : tx B) k e r s' i g wk d l1 l2 :
  WInv w → w_threads w = l1 ++ mk_thread i g wk d (Store m k) :: l2 →
  answer m e (sdb (w_sys w)) r s' →
  WInv (mk_world (mk_sys s' (inflight (w_sys w))) (w_mains w) (l1 ++ mk_thread i g wk d (k r) :: l2)
          (w_log w)).
Proof.
  intros Hw E Ha. pose proof (wi_threads _ Hw) as Ht. rewrite E in Ht.
  apply threads_split in Ht as (Ht1 & [Hwl (l & Hl & [Hm Hk])] & Ht2). cbn in Hwl, Hl.
  assert (Hths : Forall (thread_ok (w_log w)) (l1 ++ mk_thread i g wk d (k r) :: l2)).
  { apply threads_split. split_and!; [done| |done]. split; [done|]. exists l. split; [done|apply Hk]. }
  assert (Hms : mains_ok (l1 ++ mk_thread i g wk d (k r) :: l2) (w_mains w)).
  { eapply mains_fewer; [apply Hw|]. intros j. rewrite E. apply fewer_started, started_replace. }
  destruct Hm as [Hq|[Hc Hacc]].
  - destruct (queue_keeps _ _ _ _ _ _ (wi_reachable _ Hw) Hq Ha) as [Hr' Hs'].
    by apply WInv_quiet.
  - destruct Hc as [owner Hc]. apply answer_state in Ha as [->| ->].
    { apply WInv_quiet; [done| |by apply quiet_same|done|done].
      destruct (w_sys w) eqn:Es. cbn. rewrite <- Es. apply Hw. }
    rewrite Hc. constructor; cbn; try done.
    + eapply nreachable_step; [apply (wi_reachable _ Hw)|].
      apply (nstep_component (CopCompleteDelivery owner (nd_ID d) (nd_EventID d))).
    + intros y' Hy' E'. destruct (complete_delivered _ _ _ _ _ _ Hy' E') as [(y & Hy & Ey & <- & <-)|[-> ->]].
      * by apply (wi_delivered _ Hw).
      * exists wk, d, l. by split_and!.
Qed.

Lemma WInv_effect w B (eff : net B) k b i g wk d l1 l2 :
  WInv w → w_threads w = l1 ++ mk_thread i g wk d (Effect eff k) :: l2 →
  WInv (mk_world (w_sys w) (w_mains w) (l1 ++ mk_thread i g wk d (k b) :: l2)
          (w_log w ++ map (pair (nd_ID d)) (logged eff b))).
Proof.
  intros Hw E. pose proof (wi_threads _ Hw) as Ht. rewrite E in Ht.
  apply threads_split in Ht as (Ht1 & [Hwl (l & Hl & [Hp Hk])] & Ht2). cbn in Hwl, Hl.
  constructor; cbn [w_sys w_mains w_threads w_log]; [apply Hw| | |].
  - eapply mains_fewer; [apply Hw|]. intros j. rewrite E. apply fewer_started, started_replace.
  - apply threads_split. split_and!; [|split; [done|]|].
    + eapply Forall_impl; [done|]. intros th. apply thread_ok_later.
    + exists (l ++ logged eff b). split; [|apply Hk].
      intros x [Hx|Hx]%elem_of_app; apply elem_of_app; [left; by apply Hl|right].
      apply list_elem_of_fmap. by exists x.
    + eapply Forall_impl; [done|]. intros th. apply thread_ok_later.
  - intros y Hy Ey. by apply vouched_later, (wi_delivered _ Hw).
Qed.

Lemma WInv_crash w i wk g n p :
  WInv w → w_mains w !! i = Some (mk_main wk g n p) →
  WInv (mk_world (w_sys w) (<[i := mk_main wk g n (Return tt)]> (w_mains w))
          (List.filter (λ th, negb (Nat.eqb (th_main th) i)) (w_threads w)) (w_log w)).
Proof.
  intros Hw Hi. apply WInv_quiet; [done|apply Hw|by apply quiet_same| |].
  - apply mains_insert; [eapply mains_fewer; [apply Hw|intros; apply fewer_crash]|].
    constructor; [exists false; split; [done|apply goroutines_crash]| |rewrite goroutines_crash; lia].
    intros g' []%goroutines_none; [apply goroutines_crash].
  - apply Forall_forall. intros th Hth%list_elem_of_In. apply filter_In in Hth as [Hth _].
    apply list_elem_of_In in Hth. by apply (proj1 (Forall_forall _ _) (wi_threads _ Hw)).
Qed.

Lemma wstep_keeps w w' : WInv w → wstep w w' → WInv w'.
Proof.
  intros Hw Hstep.
  assert (Hr : nreachable (w_sys w)) by apply Hw.
  assert (Hrefl : quiet (sdb (w_sys w)) (sdb (w_sys w))) by by apply quiet_same.
  destruct Hstep as [o e w Ho|o e w Ho|B i wk g n m k e r s' w Hi Ha|i wk g n k b w Hi
    |i wk g n d k b w Hi|i wk g n c k w Hi|i wk g n d k w Hi Hlt|i wk g n d k w Hi|i wk g n k w Hi Hn
    |B m k e r s' i g wk d l1 l2 w E Ha|B eff k b i g wk d l1 l2 w E|i g wk d l1 l2 w E|i wk g n p w Hi];
    try (pose proof (wi_mains _ Hw _ _ Hi) as Hp).
  - apply WInv_quiet; try done; try apply Hw; [|by apply exec_quiet].
    eapply nreachable_step; [done|by apply nstep_op].
  - apply WInv_quiet; try done; try apply Hw; [|by apply cexec_quiet].
    eapply nreachable_step; [done|apply nstep_component].
  - assert (Hm : queue_tx B m) by (by destruct Hp as [(open & [? _] & _) _ _]).
    destruct (queue_keeps _ _ _ _ _ _ Hr Hm Ha). apply WInv_main; try done.
    eapply main_ok_next; [exact Hp|]. intros open [_ Hk]. by eapply Hk.
  - apply WInv_main; try done. eapply main_ok_next; [exact Hp|]. intros open [_ Hk]. apply Hk.
  - apply WInv_main; try done. eapply main_ok_next; [exact Hp|]. intros open [_ Hk]. apply Hk.
  - apply WInv_main; try done. by apply (main_ok_group _ _ _ _ n).
  - destruct (mains_acquire _ _ _ _ _ _ _ _ (wi_mains _ Hw) Hi Hlt) as [Hd Hms].
    apply WInv_quiet; try done.
    apply Forall_app. split; [apply Hw|]. apply Forall_singleton. split; [done|].
    exists []. split; [by intros x ?%elem_of_nil|apply process_behaves].
  - apply WInv_main; try done. eapply main_ok_next; [exact Hp|]. intros open [_ Hk]. apply Hk.
  - apply WInv_main; try done. by apply main_ok_wait.
  - by eapply WInv_store.
  - by eapply WInv_effect.
  - pose proof (wi_threads _ Hw) as Ht. rewrite E in Ht. apply threads_split in Ht as (Ht1 & _ & Ht2).
    apply WInv_quiet; try done; [|by apply Forall_app].
    eapply mains_fewer; [apply Hw|]. intros j. rewrite E. apply fewer_end.
  - by eapply WInv_crash.
Qed.

Lemma wreachable_keeps w : wreachable w → WInv w.
Proof.
  intros (w0 & (Hi & Et & El & Hm) & Hs).
  assert (Hw0 : WInv w0).
  { constructor; rewrite ?Et, ?El.
    - by exists (w_sys w0).
    - intros i m Hl. apply (Forall_lookup_1 _ _ _ _ Hm) in Hl as [fuel Em].
      constructor; [|by intros g ?%elem_of_nil|cbn; lia]. exists false. split; [|done].
      rewrite Em. apply Run_closes.
    - constructor.
    - destruct Hi as (_ & _ & ->). by intros y ?%elem_of_nil. }
  clear Hi Et El Hm. induction Hs as [|w0 w1 w2 Hstep _ IH]; [done|]. by eapply IH, wstep_keeps.
Qed.

(** ** A delivery that nobody disturbs *)

(** What becomes of a row, given the outcome of the attempt. *)
Definition settled (d : NotificationDelivery) (t : time) (err : option error)
    : delivery_row → delivery_row :=
  match err with
  | None => finish_delivery DeliveryDelivered t None
  | Some err =>
      if nc_MaxAttempts (nd_Channel d) <=? nd_Attempts d
      then finish_delivery DeliveryDead t (nullif_empty (boundedNotificationError (error_text err)))
      else λ y, mk_delivery (y_id y) (y_event_id y) (y_channel_id y) (y_status y) (y_attempts y)
             (t + Notifier.retryDelay (nd_Attempts d)
                    (dur_mul (nc_BackoffInitialSeconds (nd_Channel d)) second)
                    (dur_mul (nc_BackoffMaxSeconds (nd_Channel d)) second))
             None None (Some (boundedNotificationError (error_text err)))
             (y_delivered_at y) (y_dead_at y) (y_created_at y)
  end.

Lemma run_sends {A} h e (p : notify A) P log Q s :
  traces (λ _ _ _, False) P p log Q → (run h e p s).2 = s.
Proof.
  revert log. induction p as [a|C m k IH|C eff k IH]; intros log Hp; cbn in *; [done|by destruct Hp|].
  destruct Hp as [_ Hk]. by eapply IH.
Qed.

Lemma sql_count_key {A B} (key : A → B) (p : A → bool) (l : list A) x :
  NoDup (map key l) → x ∈ l → p x = true → (∀ z, z ∈ l → p z = true → key z = key x) →
  sql_count p l = 1%nat.
Proof.
  intros Hn Hx Hp Hz. induction l as [|a l IH]; [by apply elem_of_nil in Hx|].
  cbn in Hn. apply NoDup_cons in Hn as [Ha Hn]. rewrite sql_count_cons.
  apply elem_of_cons in Hx as [<-|Hx].
  - rewrite Hp. cut (sql_count p l = 0%nat); [lia|]. unfold sql_count, sql_select.
    rewrite filter_none; [done|]. intros z Hzl. destruct (p z) eqn:Ez; [|done].
    destruct Ha. rewrite <- (Hz z) by (done || by right). by apply list_elem_of_fmap_2.
  - destruct (p a) eqn:Ea.
    + destruct Ha. rewrite (Hz a) by (done || by left). by apply list_elem_of_fmap_2.
    + rewrite IH; [done|done|done|]. intros z Hzl. apply Hz. by right.
Qed.

Lemma sql_update_agree {A} (p q : A → bool) f g (l : list A) :
  (∀ z, z ∈ l → p z = q z) → (∀ z, z ∈ l → q z = true → f z = g z) → sql_update p f l = sql_update q g l.
Proof.
  intros Hpq Hfg. unfold sql_update. apply map_ext_in. intros z Hz%list_elem_of_In.
  rewrite Hpq by done. destruct (q z) eqn:E; [by apply Hfg|done].
Qed.

(** A claimed delivery that nobody disturbs is settled by one round of its
    goroutine, on every branch: delivered when the attempt succeeds; dead with the
    error when the attempts are used up; otherwise released, with the error, until
    its back-off is over.  No other delivery changes. *)
Theorem processed_delivery_is_settled h e wk d y s :
  NInv s → y ∈ deliveries s → y_id y = nd_ID d → y_event_id y = nd_EventID d →
  delivery_held (nw_owner wk) (tx_now e) y = true →
  deliveries (run h e (process wk d) s).2
    = sql_update (λ x, y_id x ==s nd_ID d)
        (settled d (tx_now e) (run h e (attemptDelivery wk d) s).1) (deliveries s).
Proof.
  intros Hs Hy Hid Hev Hh. unfold process. rewrite run_bind.
  pose proof (run_sends h e _ _ _ _ s (attempt_sends wk d [])) as Er.
  destruct (run h e (attemptDelivery wk d) s) as [err s1]. cbn in Er. subst s1. cbn [fst].
  assert (Huniq : ∀ z, z ∈ deliveries s → (y_id z ==s nd_ID d) = true → z = y).
  { intros z Hz E%String.eqb_eq. apply (NoDup_key_inj y_id (deliveries s)); try done; [apply Hs|congruence]. }
  set (p z := (y_id z ==s nd_ID d) && (y_event_id z ==s nd_EventID d) && delivery_held (nw_owner wk) (tx_now e) z).
  set (q z := (y_id z ==s nd_ID d) && delivery_held (nw_owner wk) (tx_now e) z).
  assert (Hp : ∀ z, z ∈ deliveries s → p z = (y_id z ==s nd_ID d)).
  { intros z Hz. unfold p. destruct (y_id z ==s nd_ID d) eqn:E; [|done].
    rewrite (Huniq z Hz E), Hev, String.eqb_refl, Hh. done. }
  assert (Hq : ∀ z, z ∈ deliveries s → q z = (y_id z ==s nd_ID d)).
  { intros z Hz. unfold q. destruct (y_id z ==s nd_ID d) eqn:E; [|done]. by rewrite (Huniq z Hz E), Hh. }
  assert (Hc : ∀ r, (∀ z, z ∈ deliveries s → r z = (y_id z ==s nd_ID d)) →
            Nat.eqb (sql_count r (deliveries s)) 1 = true).
  { intros r Hr. apply Nat.eqb_eq, (sql_count_key y_id r _ y); [apply Hs|done| |].
    - rewrite Hr by done. rewrite Hid. apply String.eqb_refl.
    - intros z Hz E. rewrite Hr in E by done. by rewrite (Huniq z Hz E). }
  assert (Hfin : ∀ st msg, deliveries (commit (finishNotificationDelivery (nw_owner wk) (nd_ID d)
                     (nd_EventID d) st msg) e s).2
            = sql_update (λ x, y_id x ==s nd_ID d) (finish_delivery st (tx_now e) (nullif_empty msg))
                (deliveries s)).
  { intros st msg. unfold finishNotificationDelivery, commit, mbind, tx_bind, get, now. cbv zeta.
    fold p. rewrite Hc by done. cbn [negb modify mret tx_ret]. unfold modify, mret, tx_ret.
    destruct (sql_exists _ _); cbn; by apply sql_update_agree. }
  destruct err as [err|]; cbn [settled].
  - destruct (_ <=? _); rewrite run_bind; cbn [run store].
    + rewrite <- Hfin. unfold DeadLetterNotificationDelivery. by destruct (commit _ e s).
    + unfold RetryNotificationDelivery, commit, mbind, tx_bind, get, now. cbv zeta. fold q.
      rewrite Hc by done. cbn. by apply sql_update_agree.
  - rewrite run_bind. cbn [run store]. etrans; [|exact (Hfin DeliveryDelivered "")].
    unfold CompleteNotificationDelivery. by destruct (commit _ e s).
Qed.

(** ** Theorems *)

(** C30: whatever is lost, crashes or runs at the same time, a delivery is recorded as
    delivered only if a worker loaded that delivery with its channel and its event and
    the provider accepted what was sent for it: a webhook answered 2xx to the body of
    the event, sent to the configured URL with the event's identity; DingTalk answered
    2xx with [errcode] 0; or the mail server accepted every recipient and the message. *)
Theorem delivered_means_accepted w y :
  wreachable w → y ∈ deliveries (sdb (w_sys w)) → y_status y = DeliveryDelivered →
  ∃ wk d log, nd_ID d = y_id y ∧ oe_ID (nd_Event d) = y_event_id y ∧
    accepted (nw_smtp wk) (nd_Channel d) (nd_Event d) log ∧
    ∀ x, x ∈ log → (y_id y, x) ∈ w_log w.
Proof.
  intros Hw Hy Ey. destruct (wi_delivered _ (wreachable_keeps _ Hw) y Hy Ey)
    as (wk & d & log & E1 & E2 & E3 & Ha & Hl).
  exists wk, d, log. rewrite <- E1, <- E2. by split_and!.
Qed.

(** Every reachable state of the workers is a reachable state of the delivery
    queue, so the theorems of [Deliveries.v] hold for the workers. *)
Theorem workers_refine_deliveries w : wreachable w → nreachable (w_sys w) ∧ NInv (sdb (w_sys w)).
Proof. intros Hw%wreachable_keeps. split; [apply Hw|apply nreachable_NInv, Hw]. Qed.

(** C31: although every batch has a semaphore of its own, a worker never has more
    than ten goroutines in all: they are all of the batch it is processing, since
    it waits for the last of them before it goes on, and when its loop has
    returned, at shutdown, there is none left. *)
Theorem worker_finishes_its_batch w i m :
  wreachable w → w_mains w !! i = Some m →
  (goroutines i (w_threads w) ≤ notificationConcurrency)%nat ∧
  (∀ th, th ∈ w_threads w → th_main th = i → th_group th = mn_group m) ∧
  (mn_prog m = Return tt → goroutines i (w_threads w) = 0%nat).
Proof.
  intros Hw%wreachable_keeps Hi. destruct (wi_mains _ Hw _ _ Hi) as [(open & Hp & Ho) Hg Hb].
  split_and!; [done| |].
  - intros th Hth <-. apply Hg. apply list_elem_of_fmap. by exists th.
  - intros E. rewrite E in Hp. cbn in Hp. by subst open.
Qed.
End world.
End NotifierWorld.
