(* ===== verification/Scenario.v ===== *)
(** * A run of the system

    A fixed-delay job falls due, its run is claimed, completed and the job
    re-armed; a second claim after the lease ran out fences out the first
    worker.  The theorems on reachable states apply to these states. *)
From Stdlib Require Import ZArith Lia Ascii String.
From stdpp Require Import base list strings relations.
From S2P Require Import Prelude GoStrings GoTime Tables Executors RunStore JobStore Samples Scheduler History RunInvariants Capacity Dependencies System EventLog.

Module Scenario.
Import Executors RunStore JobStore Samples Scheduler System RunInvariants Capacity Dependencies EventLog.

Definition st0 : sys := mk_sys (sample_db [delay_job; quiet_job]) [].
(** The due run is enqueued, and claimed by worker w1 for a minute. *)
Definition st1 : sys := exec (OpEnqueueDue 10) (at_ms 100) st0.
Definition st2 : sys := exec (OpClaimRuns "w1" 10 (10 * second)) (at_ms 200) st1.
(** The lease runs out and w2 claims the run. *)
Definition st3 : sys := exec (OpClaimRuns "w2" 10 (10 * second)) (at_ms 61000) st2.

Definition no_claim : Run := scanRun no_run.
Definition claim1 : Run := nth 0 (inflight st2) no_claim.
Definition claim2 : Run := nth 1 (inflight st3) no_claim.

(** w2 completes it. *)
Definition st4 : sys := exec (OpCompleteRun claim2 true 200 "ok" "") (at_ms 62000) st3.

Lemma held_claim st n : Nat.ltb n (length (inflight st)) = true → held st (nth n (inflight st) no_claim).
Proof.
  intros Hn. pose proof (nth_elem n (inflight st) no_claim Hn) as Hin.
  destruct (nth n (inflight st) no_claim) as [] eqn:E. rewrite <- E in *.
  eexists _, _, _. split; [exact Hin|]. by rewrite E.
Qed.

Lemma initial_st0 : initial st0.
Proof.
  split_and!; try done. apply (bool_decide_unpack _). vm_compute. exact I.
Qed.

Lemma steps_01 : step st0 st1.
Proof. by constructor. Qed.
Lemma steps_12 : step st1 st2.
Proof. by constructor. Qed.
Lemma steps_23 : step st2 st3.
Proof. by constructor. Qed.
Lemma steps_34 : step st3 st4.
Proof. constructor. apply (held_claim st3 1). vm_compute. reflexivity. Qed.

Lemma reachable_st1 : reachable st1.
Proof. exists st0. split; [apply initial_st0|]. by apply rtc_once, steps_01. Qed.
Lemma reachable_st3 : reachable st3.
Proof.
  exists st0. split; [apply initial_st0|].
  eapply rtc_l; [apply steps_01|]. eapply rtc_l; [apply steps_12|]. apply rtc_once, steps_23.
Qed.
Lemma reachable_st4 : reachable st4.
Proof.
  destruct reachable_st3 as (st & Hi & Hs). exists st. split; [done|].
  eapply rtc_r; [exact Hs|apply steps_34].
Qed.

(** What the scenario looks like: one run, pending, running under two leases,
    succeeded; then the job waits for its next minute. *)
Example scenario_evaluates :
  map (λ st, map (λ r, (r_id r, r_status r)) (job_runs (sdb st))) [st0; st1; st2; st3; st4]
  = [[]; [("u", Pending)]; [("u", Running)]; [("u", Running)]; [("u", Succeeded)]] ∧
  map j_next_run_at (jobs (sdb st1)) = [None; None] ∧
  map j_next_run_at (jobs (sdb st4)) = [Some (start + 122 * second); None] ∧
  LeaseToken claim1 ≠ LeaseToken claim2.
Proof. vm_compute. split_and!; done. Qed.

Definition run_in (st : sys) : run_row := nth 0 (job_runs (sdb st)) no_run.

Lemma run_in_elem st : Nat.ltb 0 (length (job_runs (sdb st))) = true → run_in st ∈ job_runs (sdb st).
Proof. apply nth_elem. Qed.

Lemma reachable_well_formed_witness :
  NoDup (map r_id (job_runs (sdb st4))) ∧ run_wf (run_in st4) ∧
  has_job (sdb st4) (r_job_id (run_in st4)) (r_tenant_id (run_in st4)).
Proof.
  destruct (reachable_well_formed st4 reachable_st4) as (Hn & Hw & _).
  destruct (Hw (run_in st4) (run_in_elem st4 ltac:(vm_compute; reflexivity))) as [Hwf Hj].
  split_and!; [exact Hn|exact Hwf|exact Hj].
Defined.

Lemma run_follows_lifecycle_witness :
  r_info (run_in st4) = r_info (run_in st1) ∧
  rtc (λ a b, may_become a b = true) (r_status (run_in st1)) (r_status (run_in st4)).
Proof.
  apply (run_follows_lifecycle st1 st4 (run_in st1) (run_in st4)).
  - apply reachable_st1.
  - eapply rtc_l; [apply steps_12|]. eapply rtc_l; [apply steps_23|]. apply rtc_once, steps_34.
  - apply run_in_elem. vm_compute. reflexivity.
  - apply run_in_elem. vm_compute. reflexivity.
  - vm_compute. reflexivity.
Defined.

(** The same job's next run is enqueued and the finished one stays. *)
Definition st5 : sys := exec (OpEnqueueDue 10) (at_ms 130000) st4.

Lemma steps_45 : step st4 st5.
Proof. by constructor. Qed.

Lemma finished_run_is_final_witness : run_in st5 = run_in st4 ∧ length (job_runs (sdb st5)) = 2%nat.
Proof.
  split; [|vm_compute; reflexivity].
  apply (finished_run_is_final st4 st5 (run_in st4) (run_in st5)).
  - apply reachable_st4.
  - apply rtc_once, steps_45.
  - apply run_in_elem. vm_compute. reflexivity.
  - apply run_in_elem. vm_compute. reflexivity.
  - vm_compute. reflexivity.
  - vm_compute. reflexivity.
Defined.

(** History retention keeps a run that is still in flight. *)
Definition st3' : sys := exec (OpPurge "t" "delay" (start + hour) 10) (at_ms 70000) st3.

Lemma active_run_is_kept_witness :
  (∃ r', r' ∈ job_runs (sdb st3') ∧ r_id r' = r_id (run_in st3)) ∨
  (∀ j, j ∈ jobs (sdb st3') → j_id j ≠ r_job_id (run_in st3)).
Proof.
  apply (active_run_is_kept st3 st3' (run_in st3)).
  - apply reachable_st3.
  - by constructor.
  - apply run_in_elem. vm_compute. reflexivity.
  - vm_compute. reflexivity.
Defined.

Lemma forallb_lost r s :
  forallb (λ row, negb (holds_lease r row)) (job_runs s) = true → lease_lost r s.
Proof.
  intros Hall row Hrow. rewrite forallb_forall in Hall.
  apply negb_true_iff, Hall. by apply list_elem_of_In.
Qed.

(** w1 reports after w2 took the run over. *)
Lemma lost_lease_is_fenced_witness :
  commit (CompleteRun claim1 true 200 "late" "") (at_ms 63000) (sdb st5) = (Err ErrConflict, sdb st5).
Proof.
  refine (proj1 (lost_lease_is_fenced st3 st5 claim1 (at_ms 63000) _ _ _ _) true 200 "late" "").
  - apply reachable_st3.
  - eapply rtc_l; [apply steps_34|]. apply rtc_once, steps_45.
  - apply (held_claim st3 0). vm_compute. reflexivity.
  - apply forallb_lost. vm_compute. reflexivity.
Defined.

(** w2 reports the same run again. *)
Lemma completed_by_w2 :
  CompleteRun claim2 true 200 "ok" "" (at_ms 62000) (sdb st3) = Ok (tt, sdb st4).
Proof. vm_compute. reflexivity. Qed.

(** Or its executor answers through the callback, and w2 reports a failure
    afterwards. *)
Definition st3w : sys := exec (OpMarkWaiting claim2 202 "token" (start + hour)) (at_ms 61500) st3.

Lemma reachable_st3w : reachable st3w.
Proof.
  destruct reachable_st3 as (st & Hi & Hs). exists st. split; [done|].
  eapply rtc_r; [exact Hs|]. constructor. apply (held_claim st3 1). vm_compute. reflexivity.
Qed.

Definition called_back : db := (commit (CompleteCallback "u" "token" true "") (at_ms 62000) (sdb st3w)).2.

Definition st4w : sys := mk_sys called_back (inflight st3w).

Lemma called_back_st4w : CompleteCallback "u" "token" true "" (at_ms 62000) (sdb st3w) = Ok (tt, called_back).
Proof. vm_compute. reflexivity. Qed.

Lemma steps_4w : rtc step (mk_sys called_back (inflight st3w)) st4w.
Proof. apply rtc_refl. Qed.

Lemma run_completes_once_witness :
  (commit (report_tx (Callback "u" "token" true "")) (at_ms 63000) (sdb st4w) = (Err ErrNotFound, sdb st4w) ∧
   commit (report_tx (Failure claim2 "failed" 500 "late" None)) (at_ms 64000) (sdb st4w)
   = (Err ErrConflict, sdb st4w)) ∧
  commit (report_tx (Completed claim2 false 500 "" "again")) (at_ms 64000) (sdb st5)
  = (Err ErrConflict, sdb st5).
Proof.
  split; [split|].
  - exact (run_completes_once st3w st4w (Callback "u" "token" true "") (Callback "u" "token" true "")
      (at_ms 62000) (at_ms 63000) called_back reachable_st3w I called_back_st4w steps_4w eq_refl).
  - exact (run_completes_once st3w st4w (Callback "u" "token" true "")
      (Failure claim2 "failed" 500 "late" None) (at_ms 62000) (at_ms 64000) called_back reachable_st3w I
      called_back_st4w steps_4w ltac:(vm_compute; reflexivity)).
  - exact (run_completes_once st3 st5 (Completed claim2 true 200 "ok" "")
      (Completed claim2 false 500 "" "again") (at_ms 62000) (at_ms 64000) (sdb st4) reachable_st3
      (held_claim st3 1 ltac:(vm_compute; reflexivity)) completed_by_w2 (rtc_once _ _ steps_45) eq_refl).
Defined.

Lemma status_changes_are_announced_witness :
  ∃ kept new, outbox_events (sdb st4) = kept ++ new ∧
    (∀ ev', ev' ∈ kept →
       ∃ ev, ev ∈ outbox_events (sdb st3) ∧ event_facts ev = event_facts ev') ∧
    ∀ r', r' ∈ job_runs (sdb st4) →
      (∃ r, r ∈ job_runs (sdb st3) ∧ r_info r = r_info r' ∧ r_status r = r_status r') ∨
      ∃ ev, ev ∈ new ∧ announces ev r'.
Proof.
  apply (status_changes_are_announced st3 st4).
  - apply reachable_st3.
  - apply steps_34.
Defined.

(** The claim of w1 as a transaction. *)
Definition claimed1 : list ClaimedRun :=
  match ClaimRuns "w1" 10 (10 * second) (at_ms 200) (sdb st1) with Ok (cls, _) => cls | Err _ => [] end.

Lemma claim1_ok :
  ClaimRuns "w1" 10 (10 * second) (at_ms 200) (sdb st1) = Ok (claimed1, sdb st2) ∧
  length claimed1 = 1%nat.
Proof. vm_compute. split; reflexivity. Qed.

Lemma claim_leases_runs_witness :
  NoDup (map (ID ∘ cl_run) claimed1) ∧ (length claimed1 ≤ 10)%nat.
Proof.
  destruct (claim_leases_runs "w1" 10 (10 * second) (at_ms 200) (sdb st1) claimed1 (sdb st2)
              (proj1 (reachable_SInv _ reachable_st1)) (proj1 claim1_ok)) as (Hn & Hl & _).
  split; [exact Hn|exact Hl].
Defined.

Lemma claim_respects_tenant_and_cluster_witness :
  tenant_active (start + 200 * millisecond) "t" (sdb st2) ≤ 2.
Proof.
  destruct (claim_respects_tenant_and_cluster "w1" 10 (10 * second) (at_ms 200) (sdb st1) claimed1
              (sdb st2) (proj1 (reachable_SInv _ reachable_st1)) (proj1 claim1_ok)) as [Ht _].
  refine (Z.le_trans _ _ _ (Ht "t" (mk_tenant "t" "tenant" 2) _) _);
    [vm_compute; reflexivity|vm_compute; discriminate].
Defined.

Lemma no_broadcasts s jobID L :
  forallb (λ r, bool_decide (r_broadcast_group_id r = None)) (job_runs s) = true →
  ∀ r n, r ∈ job_runs s → r_job_id r = jobID → r_broadcast_group_id r ≠ None →
    i_shard_total (r_info r) = Some n → n ≤ L.
Proof.
  intros Hall r n Hr _ Hg. rewrite forallb_forall in Hall.
  apply list_elem_of_In, Hall, bool_decide_eq_true in Hr. done.
Qed.

Lemma claim_respects_job_witness :
  job_active (start + 200 * millisecond) "delay" (sdb st2) ≤ 1.
Proof.
  refine (Z.le_trans _ _ _ (claim_respects_job "w1" 10 (10 * second) (at_ms 200) (sdb st1) claimed1
            (sdb st2) (nth 0 (jobs (sdb st1)) delay_job) 1
            (proj1 (reachable_SInv _ reachable_st1)) (proj1 claim1_ok) _ _ _ _) _).
  - apply nth_elem. vm_compute. reflexivity.
  - lia.
  - vm_compute. discriminate.
  - apply no_broadcasts. vm_compute. reflexivity.
  - vm_compute. discriminate.
Defined.

(** A chain of two dependencies; closing it to a cycle is refused. *)
Definition chain0 : sys := mk_sys (sample_db [delay_job; quiet_job; cron_job]) [].
Definition chain1 : sys := exec (OpSetDependencies "t" "cron" ["quiet"]) (at_ms 0) chain0.
Definition chain2 : sys := exec (OpSetDependencies "t" "quiet" ["delay"]) (at_ms 1) chain1.

Example chain_evaluates :
  map (λ d, (d_parent_job_id d, d_child_job_id d)) (job_dependencies (sdb chain2))
  = [("cron", "quiet"); ("quiet", "delay")] ∧
  fst (commit (SetJobDependencies "t" "delay" ["cron"]) (at_ms 2) (sdb chain2))
  = Err ErrDependencyCycle.
Proof. vm_compute. split; reflexivity. Qed.

Lemma reachable_chain2 : reachable chain2.
Proof.
  exists chain0. split.
  - split_and!; try done. apply (bool_decide_unpack _). vm_compute. exact I.
  - apply (rtc_l _ _ chain1); [by constructor|]. apply rtc_once. by constructor.
Qed.

Lemma dependencies_acyclic_witness : acyclic (job_dependencies (sdb chain2)).
Proof. apply (dependencies_acyclic chain2). apply reachable_chain2. Defined.
End Scenario.
