(* ===== verification/NotifyScenario.v ===== *)
(** * Notifications and logs of a run

    A channel subscribes to new runs; a run falls due, its event is turned into
    a delivery, the delivery is claimed and completed; the executor of the run
    writes logs.  The theorems on deliveries and logs apply to these states. *)
From Stdlib Require Import ZArith Lia Ascii String.
From stdpp Require Import base list strings relations.
From S2P Require Import Prelude GoStrings GoTime Tables Executors RunStore JobStore Samples Scheduler Notifications RunLogs History RunInvariants System Components Outbox Deliveries Scenario.

Module NotifyScenario.
Import Executors RunStore JobStore Samples Scheduler Notifications RunLogs System Components Outbox Deliveries Scenario.

#[export] Instance sample_parser : UuidParser := {| parse_uuid := Ok |}.

Definition by_component (o : cop) (e : env) (st : sys) : sys :=
  mk_sys (cexec o e (sdb st)) (inflight st).

Definition hook : NotificationChannel :=
  mk_nchannel "" "t" "webhook" "hook" "{}" ["job.run.pending"] true false [] 3 1 60 0.

Definition nt1 : sys := by_component (CopCreateChannel hook) (at_ms 50) st0.
Definition nt2 : sys := exec (OpEnqueueDue 10) (at_ms 100) nt1.
Definition nt3 : sys := by_component (CopPrepare 10) (at_ms 200) nt2.
Definition nt4 : sys := by_component (CopClaimDeliveries "n1" 10) (at_ms 300) nt3.

Definition no_delivery : delivery_row :=
  mk_delivery "" "" "" DeliveryPending 0 0 None None None None None 0.
Definition delivery_in (st : sys) : delivery_row := nth 0 (deliveries (sdb st)) no_delivery.
Definition no_event : event_row := run_event "" "" 0 no_run.
Definition event_in (st : sys) : event_row := nth 0 (outbox_events (sdb st)) no_event.

Definition nt5 : sys :=
  by_component (CopCompleteDelivery "n1" (y_id (delivery_in nt4)) (y_event_id (delivery_in nt4)))
    (at_ms 400) nt4.

Lemma ninitial_st0 : ninitial st0.
Proof. split; [apply initial_st0|done]. Qed.

Lemma nsteps_03 : rtc nstep st0 nt3.
Proof.
  eapply rtc_l; [apply nstep_component|]. eapply rtc_l; [by apply (nstep_op (OpEnqueueDue 10))|].
  apply rtc_once, nstep_component.
Qed.
Lemma nsteps_34 : nstep nt3 nt4.
Proof. apply nstep_component. Qed.
Lemma nsteps_45 : nstep nt4 nt5.
Proof. apply nstep_component. Qed.

Lemma nreachable_nt2 : nreachable nt2.
Proof.
  exists st0. split; [apply ninitial_st0|]. eapply rtc_l; [apply nstep_component|].
  by apply rtc_once, (nstep_op (OpEnqueueDue 10)).
Qed.
Lemma nreachable_nt3 : nreachable nt3.
Proof. exists st0. split; [apply ninitial_st0|apply nsteps_03]. Qed.
Lemma nreachable_nt4 : nreachable nt4.
Proof. exists st0. split; [apply ninitial_st0|]. eapply rtc_r; [apply nsteps_03|apply nsteps_34]. Qed.
Lemma nreachable_nt5 : nreachable nt5.
Proof.
  destruct nreachable_nt4 as (st & Hi & Hs). exists st. split; [done|].
  eapply rtc_r; [exact Hs|apply nsteps_45].
Qed.

Lemma delivery_in_nt3 : delivery_in nt3 ∈ deliveries (sdb nt3).
Proof. apply nth_elem. vm_compute. reflexivity. Qed.
Lemma delivery_in_nt4 : delivery_in nt4 ∈ deliveries (sdb nt4).
Proof. apply nth_elem. vm_compute. reflexivity. Qed.
Lemma delivery_in_nt5 : delivery_in nt5 ∈ deliveries (sdb nt5).
Proof. apply nth_elem. vm_compute. reflexivity. Qed.
Lemma event_in_nt5 : event_in nt5 ∈ outbox_events (sdb nt5).
Proof. apply nth_elem. vm_compute. reflexivity. Qed.

(** The completed delivery published its event. *)
Lemma event_published_when_delivered_witness :
  e_published_at (event_in nt5) ≠ None ↔
  ∀ y', y' ∈ deliveries (sdb nt5) → y_event_id y' = e_id (event_in nt5) →
    y_status y' ≠ DeliveryPending.
Proof.
  refine (proj1 (event_published_when_delivered nt5 nreachable_nt5) (event_in nt5) (delivery_in nt5)
            event_in_nt5 delivery_in_nt5 _).
  vm_compute. reflexivity.
Defined.

Lemma published_in_nt5 : e_published_at (event_in nt5) = Some (start + 400 * millisecond).
Proof. vm_compute. reflexivity. Qed.

(** A worker comes back for more: the delivery stays as it is. *)
Definition nt6 : sys := by_component (CopClaimDeliveries "n2" 10) (at_ms 60000) nt5.

Lemma delivery_in_nt6 : delivery_in nt6 ∈ deliveries (sdb nt6).
Proof. apply nth_elem. vm_compute. reflexivity. Qed.

Lemma finished_delivery_is_final_witness : delivery_in nt6 = delivery_in nt5.
Proof.
  refine (proj1 (finished_delivery_is_final nt5 nt6 (delivery_in nt5) (delivery_in nt6) nreachable_nt5
            (rtc_once _ _ (nstep_component _ _ _)) delivery_in_nt5 delivery_in_nt6 _) _);
    vm_compute; congruence.
Defined.

Lemma pending_delivery_is_kept_witness :
  ∃ y', y' ∈ deliveries (sdb nt4) ∧ y_id y' = y_id (delivery_in nt3) ∧
        y_key y' = y_key (delivery_in nt3).
Proof.
  refine (pending_delivery_is_kept nt3 nt4 (delivery_in nt3) nreachable_nt3 nsteps_34 delivery_in_nt3 _).
  vm_compute. reflexivity.
Defined.

Lemma prepared_nt3 :
  commit (PrepareNotificationDeliveries 10) (at_ms 200) (sdb nt2) = (Ok tt, sdb nt3).
Proof. vm_compute. reflexivity. Qed.

Lemma subscribers_are_notified_witness :
  delivery_in nt3 ∈ deliveries (sdb nt2) ∨
    ∃ x h, x ∈ unprepared_events 10 (tx_now (at_ms 200)) (tx_locked (at_ms 200)) (sdb nt2) ∧
      hears x (sdb nt2) h ∧ y_key (delivery_in nt3) = (e_id x, h_id h) ∧
      y_status (delivery_in nt3) = DeliveryPending ∧ y_attempts (delivery_in nt3) = 0.
Proof.
  exact (proj2 (subscribers_are_notified nt2 10 (at_ms 200) (sdb nt3) nreachable_nt2 prepared_nt3)
           (delivery_in nt3) delivery_in_nt3).
Defined.

Lemma delivery_lease_is_exclusive_witness :
  commit (CompleteNotificationDelivery "n2" (y_id (delivery_in nt4)) "x") (at_ms 500) (sdb nt4)
    = (Err ErrNotificationLeaseLost, sdb nt4).
Proof.
  refine (proj1 (proj2 (delivery_lease_is_exclusive nt4 (delivery_in nt4) "n1"
    (start + 30300 * millisecond) (at_ms 500) nreachable_nt4 delivery_in_nt4 _ _ _) "n2" _ "x" "" 0)).
  - vm_compute. reflexivity.
  - vm_compute. reflexivity.
  - vm_compute. congruence.
  - discriminate.
Defined.

Lemma history_pages_witness :
  history_rows "t" "" "" "" (Some (y_created_at (delivery_in nt4))) (Some (y_id (delivery_in nt4)))
    (sdb nt4) = drop 1 (history_rows "t" "" "" "" None None (sdb nt4)).
Proof.
  refine (proj1 (history_pages "t" "" "" "" None None 10 1 (delivery_in nt4) (sdb nt4) _ _)).
  - apply (bool_decide_unpack _). vm_compute. exact I.
  - vm_compute. reflexivity.
Defined.

(** ** Logs *)

Definition lt1 : sys :=
  exec (OpActivateToken claim1 "hash" (start + 60 * second)) (at_ms 300) st2.
Definition entries : list RunLogInput :=
  [mk_log_input "1" "stdout" "hello"; mk_log_input "2" "stderr" "world"].
Definition lt2 : sys := by_component (CopAppendLogs (ID claim1) "hash" entries) (at_ms 400) lt1.

Lemma appended_lt2 :
  AppendRunLogs (ID claim1) "hash" entries (at_ms 400) (sdb lt1) = Ok (2, sdb lt2).
Proof. vm_compute. reflexivity. Qed.

Lemma append_is_idempotent_witness :
  ∃ s3, AppendRunLogs (ID claim1) "hash" entries (at_ms 500) (sdb lt2) = Ok (2, s3) ∧
    job_run_logs s3 = job_run_logs (sdb lt2).
Proof.
  refine (append_is_idempotent (ID claim1) "hash" entries (at_ms 400) (sdb lt1) 2 (sdb lt2) (sdb lt2)
            (at_ms 500) _ appended_lt2 (reflexivity _) _).
  - apply (bool_decide_unpack _). vm_compute. exact I.
  - refine (proj1 (Forall_forall (λ r, log_target (ID claim1) "hash" (tx_now (at_ms 400)) r = true →
      log_target (ID claim1) "hash" (tx_now (at_ms 500)) r = true) _) _).
    apply (bool_decide_unpack _). vm_compute. exact I.
Defined.

Lemma log_reader_misses_nothing_witness :
  map log_entry (log_rows "t" (ID claim1) 0 (sdb lt2)) =
    [mk_log_entry 1 "1" "stdout" "hello" (start + 400 * millisecond)]
    ++ map log_entry (log_rows "t" (ID claim1) 1 (sdb lt2)).
Proof.
  refine (proj1 (log_reader_misses_nothing "t" (ID claim1) 0 1 (sdb lt2) _ 1 (sdb lt2) _ _ (reflexivity _))).
  - constructor; try (apply (bool_decide_unpack _); vm_compute; exact I).
    refine (proj1 (Forall_forall (λ w, w_id w ≤ log_sequence (sdb lt2)) _) _).
    apply (bool_decide_unpack _). vm_compute. exact I.
  - vm_compute. reflexivity.
Defined.
End NotifyScenario.
