(* ===== verification/NotifierScenario.v ===== *)
(** * A webhook delivered by a worker

    A run falls due and its event waits in the outbox; a worker prepares and
    claims the delivery, posts it and records the answer. *)
From Stdlib Require Import ZArith Lia Ascii String.
From stdpp Require Import base list strings relations.
From S2P Require Import Prelude GoStrings GoTime GoNet Tables Programs Traces Executors RunStore JobStore Samples Scheduler Notifications Services System Components Deliveries Scenario NotifyScenario Notifier NotifierProofs NotifierWorld.

Module NotifierScenario.
Import Programs Traces Samples Notifications Services System Components Deliveries Scenario NotifyScenario Notifier NotifierProofs NotifierWorld.

#[local] Instance sample_formats : ChannelFormats := {|
  decode_webhook := λ _, Some (mk_webhook "https://hooks.example/x" [("idempotency-key", "mine")] "");
  decode_dingtalk := λ _, None;
  decode_email := λ _, None;
  template_parses := λ _, true;
  mail_address := Some;
  ValidHeaderFieldName := λ _, true;
  ValidHeaderFieldValue := λ _, true;
  uuid_valid := λ _, true;
|}.
#[local] Instance sample_providers : ProviderFormats := {|
  payload_text := λ _, "{}";
  config_error := ErrMsg;
  payload_error := λ _, None;
  compact_payload := Ok;
  json_valid := λ _, true;
  template_error := ErrMsg;
  template_output := λ t _ _ _, ([t], None);
  hmac_sha256 := λ _ m, m;
  header_address := λ a, a;
  Quote := λ s, s;
  dingtalk_code := λ _, Some 0;
|}.

(** Nothing panics, nothing is cancelled, and every request is accepted. *)
Definition friendly (B : Type) (eff : net B) : B :=
  match eff with
  | WallClock => start
  | HttpPost _ => Some (mk_response 204 None)
  | SmtpDial _ _ | SmtpStartTLS _ | SmtpAuth _ _ _ | SmtpMail _ | SmtpRcpt _ | SmtpData
  | SmtpMessage _ => None
  | Recovered | CtxErr | Idle _ => false
  | Acquire _ => true
  | NewGroup _ | GroupWait => tt
  end.

(** The next step of the first worker's main goroutine, and of the first of the
    goroutines it started. *)
Definition main_effect {B} (eff : net B) (k : B → notify unit) (m : main) (w : world) : world :=
  let set g n p ths :=
    mk_world (w_sys w) (<[0%nat := mk_main (mn_worker m) g n p]> (w_mains w)) ths (w_log w) in
  let g := mn_group m in
  let n := mn_slots m in
  match eff in net B return (B → notify unit) → world with
  | CtxErr => λ k, set g n (k false) (w_threads w)
  | NewGroup c => λ k, set (S g) c (k tt) (w_threads w)
  | Acquire d => λ k,
      if Nat.ltb (running 0 g (w_threads w)) n
      then set g n (k true)
             (w_threads w ++ [mk_thread 0 g (mn_worker m) d (process (mn_worker m) d)])
      else w
  | GroupWait => λ k, if Nat.eqb (running 0 g (w_threads w)) 0 then set g n (k tt) (w_threads w) else w
  | _ => λ _, w
  end k.

Definition main_turn (e : env) (w : world) : world :=
  match w_mains w !! 0%nat with
  | Some (mk_main wk g n (Store m k)) =>
      mk_world (mk_sys (commit m e (sdb (w_sys w))).2 (inflight (w_sys w)))
        (<[0%nat := mk_main wk g n (k (commit m e (sdb (w_sys w))).1)]> (w_mains w))
        (w_threads w) (w_log w)
  | Some (mk_main wk g n (Effect eff k)) => main_effect eff k (mk_main wk g n (Return tt)) w
  | _ => w
  end.

Definition thread_turn (e : env) (w : world) : world :=
  match w_threads w with
  | mk_thread i g wk d (Store m k) :: l =>
      mk_world (mk_sys (commit m e (sdb (w_sys w))).2 (inflight (w_sys w))) (w_mains w)
        (mk_thread i g wk d (k (commit m e (sdb (w_sys w))).1) :: l) (w_log w)
  | mk_thread i g wk d (Effect eff k) :: l =>
      mk_world (w_sys w) (w_mains w) (mk_thread i g wk d (k (friendly _ eff)) :: l)
        (w_log w ++ map (pair (nd_ID d)) (logged eff (friendly _ eff)))
  | _ => w
  end.

Fixpoint turns (n : nat) (f : world → world) (w : world) : world :=
  match n with O => w | S n => turns n f (f w) end.

Lemma main_turn_steps e w : rtc wstep w (main_turn e w).
Proof.
  unfold main_turn. destruct (w_mains w !! 0%nat) as [[wk g n p]|] eqn:E; [|done].
  destruct p as [a|B m k|B eff k]; [done| |].
  - apply rtc_once. eapply ws_main_store; [exact E|apply answered].
  - unfold main_effect. destruct eff; try done.
    + by apply rtc_once, (ws_ctx _ _ _ _ _ false).
    + by eapply rtc_once, ws_group.
    + cbn [mn_group mn_slots mn_worker]. destruct (Nat.ltb _ _) eqn:En; [|done].
      apply Nat.ltb_lt in En. by eapply rtc_once, ws_acquire.
    + cbn [mn_group mn_slots mn_worker]. destruct (Nat.eqb _ 0) eqn:En; [|done].
      apply Nat.eqb_eq in En. by apply rtc_once, ws_wait.
Qed.

Lemma thread_turn_steps e w : rtc wstep w (thread_turn e w).
Proof.
  unfold thread_turn. destruct (w_threads w) as [|[i g wk d p] l] eqn:E; [done|].
  destruct p as [a|B m k|B eff k]; [done| |].
  - apply rtc_once. eapply (ws_store _ _ _ _ _ _ _ _ _ []); [exact E|apply answered].
  - apply rtc_once. by apply (ws_effect _ _ _ _ _ _ _ []).
Qed.

Lemma turns_steps n f w : (∀ w, rtc wstep w (f w)) → rtc wstep w (turns n f w).
Proof. intros Hf. revert w. induction n as [|n IH]; intros w; [done|]. cbn. etrans; [apply Hf|done]. Qed.

Definition worker : Worker := mk_worker "n1" (mk_smtp "" "" "" "" "").
Definition world_at (st : sys) : world := mk_world st [mk_main worker 0 0 (Run 1 worker)] [] [].
Definition world1 : world := turns 6 (main_turn (at_ms 300)) (world_at nt2).
Definition world2 : world := turns 8 (thread_turn (at_ms 400)) world1.

Lemma wreachable_world1 : wreachable world1.
Proof.
  exists (world_at st0). split.
  { split_and!; [apply ninitial_st0|done|done|]. apply Forall_singleton. by exists 1%nat. }
  etrans; [|apply turns_steps, main_turn_steps].
  eapply rtc_l; [by apply (ws_component (CopCreateChannel hook) (at_ms 50))|].
  apply rtc_once. by apply (ws_op (OpEnqueueDue 10) (at_ms 100) (world_at nt1)).
Qed.

Lemma wreachable_world2 : wreachable world2.
Proof.
  destruct wreachable_world1 as (w0 & Hi & Hs). exists w0. split; [done|].
  etrans; [exact Hs|apply turns_steps, thread_turn_steps].
Qed.

Lemma delivery_in_world2 : delivery_in (w_sys world2) ∈ deliveries (sdb (w_sys world2)).
Proof. apply nth_elem. vm_compute. reflexivity. Qed.

(** The configured header does not replace the identity of the event. *)
Lemma delivered_means_accepted_witness :
  ∃ wk d log, nd_ID d = y_id (delivery_in (w_sys world2)) ∧
    oe_ID (nd_Event d) = y_event_id (delivery_in (w_sys world2)) ∧
    accepted (nw_smtp wk) (nd_Channel d) (nd_Event d) log ∧
    ∀ x, x ∈ log → (y_id (delivery_in (w_sys world2)), x) ∈ w_log world2.
Proof.
  refine (delivered_means_accepted world2 _ wreachable_world2 delivery_in_world2 _).
  vm_compute. reflexivity.
Defined.

Definition worker_in (w : world) : main := nth 0 (w_mains w) (mk_main worker 0 0 (Return tt)).

(** The worker waits for its first batch, of which one goroutine runs. *)
Lemma worker_finishes_its_batch_witness :
  goroutines 0 (w_threads world1) = 1%nat ∧
  (goroutines 0 (w_threads world1) ≤ notificationConcurrency)%nat ∧
  (∀ th, th ∈ w_threads world1 → th_main th = 0%nat → th_group th = mn_group (worker_in world1)).
Proof.
  destruct (worker_finishes_its_batch world1 0 (worker_in world1) wreachable_world1)
    as (Hb & Hg & _).
  - vm_compute. reflexivity.
  - split; [vm_compute; reflexivity|]. split; [exact Hb|exact Hg].
Defined.

Definition claimed : NotificationDelivery :=
  match (commit (ClaimNotificationDeliveries "n1" 10) (at_ms 300) (sdb nt3)).1 with
  | Ok (d :: _) => d
  | _ => mk_ndelivery "" "" (outbox_event no_event) NotifyScenario.hook 0 None
  end.

Lemma processed_delivery_is_settled_witness :
  deliveries (run friendly (at_ms 400) (process worker claimed) (sdb nt4)).2
    = sql_update (λ x, y_id x ==s nd_ID claimed)
        (settled claimed (tx_now (at_ms 400))
           (run friendly (at_ms 400) (attemptDelivery worker claimed) (sdb nt4)).1)
        (deliveries (sdb nt4)).
Proof.
  refine (processed_delivery_is_settled friendly (at_ms 400) worker claimed (delivery_in nt4) (sdb nt4)
            _ delivery_in_nt4 _ _ _).
  - exact (nreachable_NInv nt4 nreachable_nt4).
  - vm_compute. reflexivity.
  - vm_compute. reflexivity.
  - vm_compute. reflexivity.
Defined.

Lemma notification_delay_is_exponential_witness :
  Notifier.retryDelay 4 (10 * second) (60 * second) = 60 * second.
Proof.
  rewrite (notification_delay_is_exponential 4 (10 * second) (60 * second)); vm_compute; congruence.
Defined.
End NotifierScenario.
