(* ===== verification/EngineScenario.v ===== *)
(** * A worker at work

    An engine claims the run of a job with an executor group, chooses a node
    for it and sends it there. *)
From Stdlib Require Import ZArith Lia Ascii String.
From stdpp Require Import base list strings relations.
From S2P Require Import Prelude GoStrings GoUrl GoTime Tables Proto Programs Executors RunStore Routing JobStore Clusters Samples Scheduler ExecutorStore RouteProofs History Engine EngineLoops RunInvariants System Components Workers.

Module EngineScenario.
Import Programs Proto Executors RunStore JobStore Samples Scheduler Routing ExecutorStore RouteScenario Engine RunInvariants System Workers.

#[local] Instance sample_sha : Sha256 := λ s, s.

Definition engine : Engine := NewEngine "engine" second 4 "http://scheduler/" hour true.

(** The answers of the world: everybody is healthy, and the executor accepts. *)
Definition answers (B : Type) (eff : call B) : B :=
  match eff in call B return B with
  | TimeNow => start
  | RandomUint16 => 7
  | RandRead _ => Some "0123456789abcdef0123456789abcdef"
  | CtxErr => None
  | GrpcHealthy _ => true
  | GrpcInspect _ _ => Ok "idle"
  | HttpDo _ _ => Ok 200
  | DispatchTo _ _ => Ok tt
  | CancelOn _ _ => Ok tt
  end.

Definition queued_job : job_row :=
  job "routed" (set_limits (j_conf routed_job) "parallel" 5 10 60 100) None.
Definition es0 : sys := mk_sys (set_jobs [queued_job] (route_db "failover")) [].
Definition es1 : sys := exec (OpTrigger "t" "routed" "" "input" []) (at_ms 100) es0.

Definition claimed_runs : result (list ClaimedRun) * db :=
  commit (ClaimRuns "engine" 4 (2 * minute)) (at_ms 200) (sdb es1).
Definition claims : list ClaimedRun := match claimed_runs.1 with Ok l => l | Err _ => [] end.
Definition es2 : sys := mk_sys claimed_runs.2 (inflight es1 ++ map cl_run claims).
Definition the_claim : ClaimedRun := nth 0 claims RouteScenario.claimed.

Definition ew0 : world := mk_world es0 [] [].
Definition ew1 : world := mk_world es1 [] [].
Definition ew2 : world :=
  mk_world es2 (w_threads ew1 ++ map (λ c, mk_thread engine c (execute engine c)) (take 1 claims))
    (w_sent ew1).
Definition ew3 : world :=
  mk_world (mk_sys (run answers (at_ms 300) (execute engine the_claim) (sdb es2)).2 (inflight es2))
    [mk_thread engine the_claim (Return tt)]
    ([] ++ requests answers (at_ms 300) (execute engine the_claim) (sdb es2)).

Lemma one_claim : claims = [the_claim].
Proof. vm_compute. reflexivity. Qed.

Lemma slots_ew1 :
  claim_slots engine (active_workers engine (w_threads ew1)) = Some (ClaimRuns "engine" 4 (2 * minute)).
Proof. reflexivity. Qed.

Lemma answer_claim :
  answer (ClaimRuns "engine" 4 (2 * minute)) (at_ms 200) (sdb es1) (Ok claims) claimed_runs.2.
Proof.
  assert (E : claimed_runs.1 = Ok claims) by (vm_compute; reflexivity). rewrite <- E.
  exact (answered (ClaimRuns "engine" 4 (2 * minute)) (at_ms 200) (sdb es1)).
Qed.

Lemma winitial_ew0 : winitial ew0.
Proof.
  split_and!; try done. split_and!; try done. apply (bool_decide_unpack _). vm_compute. exact I.
Qed.

Lemma wreachable_ew2 : wreachable ew2.
Proof.
  exists ew0. split; [exact winitial_ew0|].
  apply (rtc_l _ _ ew1);
    [exact (ws_system es1 ew0 (step_op (OpTrigger "t" "routed" "" "input" []) (at_ms 100) es0 I))|].
  apply rtc_once.
  exact (ws_claim engine _ (at_ms 200) claims claimed_runs.2 1 ew1 slots_ew1 answer_claim).
Qed.

Lemma worker_ew2 : ew2 = mk_world es2 [mk_thread engine the_claim (execute engine the_claim)] [].
Proof. unfold ew2. rewrite one_claim. reflexivity. Qed.

Lemma wreachable_ew3 : wreachable ew3.
Proof.
  destruct wreachable_ew2 as (w & Hi & Hs). exists w. split; [done|].
  etrans; [exact Hs|]. rewrite worker_ew2. apply run_wsteps.
Qed.

Lemma sent_ew3 : map (λ x, (x.1, RunId x.2)) (w_sent ew3) = [("10.0.0.1", "u")].
Proof. vm_compute. reflexivity. Qed.

Lemma run_dispatched_once_witness : NoDup (map (λ x, RunId x.2) (w_sent ew3)).
Proof. exact (proj1 (run_dispatched_once ew3 wreachable_ew3)). Defined.

Lemma engine_refines_system_witness : reachable (w_sys ew3).
Proof. exact (proj1 (engine_refines_system ew3 wreachable_ew3)). Defined.

Lemma workers_fit_slots_witness : (active_workers engine (w_threads ew2) ≤ 4)%nat.
Proof. exact (workers_fit_slots ew2 engine wreachable_ew2). Defined.

Lemma routing_program_is_atomic_witness :
  run answers (at_ms 300) (route true the_claim) (sdb es2)
    = routeClaimedExecutor (probed answers) 7 the_claim (at_ms 300) (sdb es2).
Proof. exact (routing_program_is_atomic answers eq_refl the_claim (at_ms 300) (sdb es2)). Defined.
End EngineScenario.

(** * The watcher of a worker: theorems

    The watcher cancels the context of a worker whose run is not running any more,
    and a run is not running any more once its request is out. *)

Module Watcher.
Import GoUrl Programs Proto Clusters RunStore Routing Engine EngineLoops System Workers.

Section watcher.
Context (h : ∀ B, watching B → B) (e : env).

Lemma run_look id s : run h e (store (query (λ _ s, Ok (IsRunRunning id s)))) s = (Ok (IsRunRunning id s), s).
Proof. done. Qed.

(** While its run is running a worker is left alone. *)
Lemma watcher_spares_running fuel id s :
  IsRunRunning id s = true → run h e (watchCancellation fuel id) s = (false, s).
Proof.
  intros Hr. induction fuel as [|fuel IH]; [done|]. cbn [watchCancellation]. rewrite run_bind. cbn [run effect].
  destruct (h _ (CancelTick cancelWatchInterval)); cbn [negb]; [|done]. rewrite run_bind, run_look, Hr. apply IH.
Qed.
(** A run that is not running is noticed at the next tick. *)
Lemma watcher_notices fuel id s :
  h _ (CancelTick cancelWatchInterval) = true → IsRunRunning id s = false →
  run h e (watchCancellation (S fuel) id) s = (true, s).
Proof.
  intros Ht Hr. cbn [watchCancellation]. rewrite run_bind. cbn [run effect]. rewrite Ht. cbn [negb].
  by rewrite run_bind, run_look, Hr.
Qed.
End watcher.

Section world.
Context `{HostLaws} `{ScheduleCalc} `{Digest} `{Sha256} `{JobCodec} `{CredentialCodec}
        `{SliceSort} `{RouteHash} `{IPLiterals}.

Lemma spent_not_running id s : spent id s → IsRunRunning id s = false.
Proof.
  intros [_ Hs]. unfold IsRunRunning. destruct (sql_select _ _) as [|row rest] eqn:E; [done|].
  assert (Hin : row ∈ sql_select (λ row, r_id row ==s id) (job_runs s)) by (rewrite E; left).
  apply elem_of_sql_select in Hin as [Hid%String.eqb_eq Hin]. destruct (Hs row Hin Hid) as [_ Hn].
  by destruct (r_status row).
Qed.

(** C37: The watcher of a worker and its dispatch.  While the run of a worker is running,
    the watcher leaves its context alone.  But a run stops running when it is prepared for its
    dispatch, before the request is sent: in every reachable state of the engines, for
    every request that is out, a tick of the watcher cancels the context the request was sent
    under, answered or not. *)
Theorem watcher_cancels_dispatch (h : ∀ B, watching B → B) e w address request :
  wreachable w → (address, request) ∈ w_sent w →
  h _ (CancelTick cancelWatchInterval) = true →
  (∀ fuel id s, IsRunRunning id s = true → run h e (watchCancellation fuel id) s = (false, s)) ∧
  ∀ fuel, run h e (watchCancellation (S fuel) (RunId request)) (sdb (w_sys w)) = (true, sdb (w_sys w)).
Proof.
  intros Hw Hsent Ht. split; [apply watcher_spares_running|]. intros fuel.
  by apply watcher_notices, spent_not_running, (sent_run_is_spent w address).
Qed.
End world.

Import Samples EngineScenario.
#[local] Instance sample_sha : Sha256 := λ s, s.

Lemma watcher_cancels_dispatch_witness :
  map (λ x, RunId x.2) (w_sent ew3) = ["u"] ∧
  run (λ B (eff : watching B), match eff in watching B return B with CancelTick _ => true end) (at_ms 2300)
    (watchCancellation 1 "u") (sdb (w_sys ew3)) = (true, sdb (w_sys ew3)).
Proof.
  split; [vm_compute; reflexivity|].
  destruct (w_sent ew3) as [|[address request] rest] eqn:E; [exfalso; revert E; vm_compute; congruence|].
  assert (Hid : RunId request = "u").
  { assert (Hm : map (λ x, RunId x.2) (w_sent ew3) = ["u"]) by (vm_compute; reflexivity).
    rewrite E in Hm. by injection Hm. }
  assert (Hin : (address, request) ∈ w_sent ew3) by (rewrite E; left).
  rewrite <- Hid. exact (proj2 (watcher_cancels_dispatch _ (at_ms 2300) ew3 address request wreachable_ew3 Hin eq_refl) 0%nat).
Defined.
End Watcher.
